(* ===== verification/_CoqProject ===== *)
-Q . S2P
Prelude.v
GoLib.v
Semver.v
Access.v
State.v
StateTheory.v
Events.v
ReplSql.v
Applier.v
Safety.v
Upstream.v
Store.v
Listing.v
Pipeline.v
UpstreamAuth.v
Usage.v
Publisher.v
Policies.v
Auth.v
Config.v
ConfigManager.v
YamlEdit.v
Server.v
WriteRoutes.v
Runtime.v
ModLib.v
Oci.v
OciUploads.v
OciListings.v
Maven.v
Npm.v
NpmTheory.v
NpmDemo.v
Helm.v
Composer.v
ComposerTheory.v
AdminApi.v
AdminTheory.v
AdminDemo.v
AdminOps.v
SignIn.v
Terraform.v
Gc.v
Converge.v
Limits.v
Manager.v
Transfer.v
Bootstrap.v
