(* ===== verification/Prelude.v ===== *)
(** * fondaco: a verification library

    fondaco is a multi-site package registry: it proxies and caches public
    registries, hosts an organisation's own packages, and replicates hosted
    packages between sites. This library models its core in Rocq, from the Go
    and SQL sources under [src/], and proves what makes it correct.

    ** The program and its models

    A request is authenticated, checked against the access engine, and served
    by the read pipeline from the blob store, a peer site or the upstream
    registry. A publish goes through the publisher, which writes a row and, on
    a replicated site, a journal entry in one transaction, and then a
    projection (a small manifest object) into the blob store, which is what the
    read path sees. Every site polls its peers' journals and merges the events
    into its own tables. The files, in dependency order:

    - [Prelude]: results of fallible functions and their [let?] notation, Go's
      [strings] and [strconv] functions, string order, int64 wrap-around, the
      [fondaco] hint database, shared list lemmas. [GoLib]: more of Go's
      library: [strings.Cut] and [Split], [path.Match], [time.ParseDuration],
      RFC 3339 times, bounded reads.
    - [Semver] ([modules/internal/semver]): [Compare] and its reference order.
    - [Access] ([core/access/access.go], [path.go]): path patterns and their
      specificity, compilation of policies and bindings ([New]), [Explain],
      [Allowed], [MayReach].
    - [State] ([core/state/replication.go], [hosted.go], the clock and table
      definitions of [core/state/migrations]): a site's database as the record
      [DB] of tables, one definition per SQL operation: hybrid clock, journal,
      cursors, parked events, peer identities, hosted rows, quarantine.
      [StateTheory] proves properties of them.
    - [Events] ([core/repl/events.go]): the six event payloads and their JSON
      form, with encode/decode round trips.
    - [ReplSql] ([core/repl/sql.go]): merge statements: hosted state,
      quarantine decisions by stamp, conflict rows, operator resolutions, the
      block derived from open conflicts.
    - [Applier] ([core/repl/applier.go], [journal_writer.go]): the handler of
      each event kind, dispatch, one event, a batch, retry of parked events,
      and the local operations that append to the journal. A [Site] is the
      tables, the local blobs and the projections; what the repository does not
      control (clock, peers, driver) is the record [Env].
    - [Safety], [Converge], [Limits]: theorems about the applier; [Converge]
      holds the site as a step relation [site_step].
    - [Upstream] ([core/pipeline/breaker.go], [upstream.go]): the circuit
      breaker as functions and as a step relation, the retry loop against a
      script of outcomes, throttling, the destination check.
    - [Store] ([core/api/types.go], [modules/storage/fs/fs.go]): the class
      [BlobStore] of operations with the laws clients rely on, a small file
      system, the directory-backed store and its instance, path rules.
      [Listing]: walking that store, as the instance of the class [BlobLister].
    - [Pipeline] ([core/pipeline/pipeline.go]): keys, checksums, ingest,
      artifacts, metadata, peers, [Serve], over any [BlobStore].
    - [UpstreamAuth] ([core/pipeline/upstream_auth.go]): challenges, the token
      handshake, the token cache, the authorized retry.
    - [Usage] ([core/usage], [core/state/usage.go]): traffic counters and their
      flushes as a step relation over replicas; the inventory scan.
    - [Publisher] ([core/pipeline/publish.go], [repair.go]): publishing,
      coordinates, projections, indexes, the repair pass.
    - [Policies] ([core/policy], [policies/]): the chain and the registry, and
      the allowlist, license, quarantine and OSV policies.
    - [Auth] ([core/auth]): the Authorization header, tokens with their cache,
      revocation sweep and stale window as a step relation, OIDC tokens.
    - [Config] ([core/config/config.go] and its siblings): the document,
      defaults, validation, group flattening, compilation of access rules.
      [ConfigManager] ([source.go], [blobsource.go], [manager.go]): environment
      expansion, sources behind the class [ConfigSource], updates and reloads
      of a fleet of replicas.
    - [Server] ([core/server/http.go], [group.go], [access.go],
      [quarantine.go]): the read handler of a feed, the gates it composes, the
      takedown cache, groups. [WriteRoutes] ([publish.go]): the write handler
      over any format module (a program of the class [Hoster]), forwarding to
      the home site. [Runtime] ([server.go]): semantic validation and the
      runtime built from a document.
    - [ModLib]: what the format modules use of Go (sorting, query strings,
      decimal numbers) and the logic in which their handlers are specified: a
      handler is a program over the operations of [Hoster], [run] by the write
      routes. [Oci] ([modules/format/oci/oci.go], [hoster.go]): paths, reads,
      upload sessions, manifests; [OciUploads]: an upload as an abstract
      buffer; [OciListings] ([search.go], [group.go]): tags, catalogue, pages,
      merging. [Maven] ([modules/format/maven]): paths, snapshots, metadata
      generation and merging, the write handler. [Npm] ([modules/format/npm]):
      escaped paths, rewriting of documents, publishing, generated documents,
      search, merging; [NpmTheory]: what they guarantee; [NpmDemo]: runs.
      [Helm] ([modules/format/helm]): file names, locations carried in paths,
      uploads, the index, listings, merging. [Composer]
      ([modules/format/composer]): paths, rewriting of documents, uploads,
      generated documents, search, merging; [ComposerTheory]: what they
      guarantee, and where it stops. [Terraform]
      ([modules/format/terraform]): module paths, downloads, uploads, version
      lists and their order, service discovery.
    - [YamlEdit] ([core/adminapi/resources.go]): the admin API's edits of the
      document tree. [AdminApi] ([config.go], [resources.go], [router.go]):
      authorization, the configuration handlers, their routes; [AdminTheory]:
      the document as a table of named items, with classes for what is relied
      on of the YAML and JSON text ([YamlLaws], [WireLaws], [DecodeLaws]);
      [AdminDemo]: a codec that has these laws, and runs. [AdminOps]
      ([operations.go], [access.go]): tokens, quarantine, conflicts, the
      replication overview, explanations of access. [SignIn]
      ([core/auth/oidc_flow.go], [core/adminapi/oidc.go]): signing in through the
      browser, both halves.
    - [Gc] ([cmd/fondaco/gc.go]): mark and sweep of unreferenced blobs, over
      any [BlobStore] with a [BlobLister].
    - [Manager] ([core/repl/manager.go], [api.go], [puller.go]): the journal
      endpoint and its acknowledgements, handshake and identity pin, catch-up,
      snapshot bootstrap, pruning, one whole poll cycle. [Transfer] (the same
      files): the blob endpoint and the transfer that resumes and verifies,
      manifest lookups and their negative cache, the peer set. [Bootstrap]
      ([api.go]): the snapshot a site exports, composed with its import.

    ** Conventions

    Definitions keep the source's names. Pure functions are functions; code
    that changes state takes the state and returns it, also when it fails; Go
    errors are values of [result] or of an error type with the source's cases;
    a transaction that fails leaves the tables it started from. Integers are
    [Z]; where the width matters ([event_skew], [retryAfter_seconds],
    [parse_int]) the int64 wrap-around or range test is written out. Time is an
    argument. Maps are stdpp's [gmap]; lists are used where the code depends on
    order. Strings are bytes; case folding and white space are ASCII.

    Code outside the repository is a parameter: hash functions ([digest]), the
    manifest's JSON text ([ManifestCodec], whose law is the round trip of
    [encoding/json] on this struct), the upstream, format modules and peers
    ([World], [PeerAPI], [Env]), name resolution. Each theorem with hypotheses
    on them has a witness that instantiates the parameters.

    ** What the theorems show

    - Replication: two sites whose journals record the same events of an
      immutable path at which nothing was decided agree on it, whatever the
      order, batching, duplicates, parking and local publishes
      ([k1_reachable], [k1_convergence]); a poll of any peer, in every state it
      passes through and also when it never ends, creates no authority and
      moves no pinned identity ([poll_is_safe],
      [replication_grants_nothing]); only the peer's own
      stream is imported ([batch_imports_only_peer]); an operator's decision is
      terminal ([resolution_is_terminal]); catch-up against an honest peer ends,
      and misses nothing up to its end or the entry that could not be applied
      ([catch_up_complete]); pruning drops
      nothing a peer still needs within retention ([prune_safe]); a fresh site
      that bootstraps from a snapshot agrees with its source
      ([bootstrap_reproduces]); transfers between sites are verified, bounded
      and resumed ([peer_transfers_verified],
      [interrupted_transfer_completes]), lookups find what some site hosts
      ([lookup_finds_hosted]), loops follow the peer set; pages have no gaps and
      the clock respects causality.
    - Requests: content leaves a feed only past every gate
      ([feed_content_cleared]), a group widens nothing
      ([group_never_widens]), a write commits only what the caller may publish,
      directly or forwarded, through a format module that keeps to its feed
      ([publish_authorized], [forwarding_never_widens]), identities are recent
      and revocations take effect ([identity_recently_active],
      [revocation_takes_effect]), takedowns within the cache's lifetime and a
      query's duration ([takedown_effective]); a browser sign-in shows its code
      to the issuer, and where that redirects, only and ends with the issuer's
      own verified answer ([sign_in_sound]), and needs no session
      ([halves_agree]).
    - Configuration: the older access fields mean what the generated bindings
      say, and what is documented where the two cannot differ
      ([legacy_access]), flattening ends, updates compare and swap, the active
      snapshot is a whole valid document ([active_snapshot_valid]) and a valid
      document is served in full ([validated_is_served]).
    - Administration: nothing of the configuration changes or shows without the
      right to update it ([config_needs_authority]); the configuration handlers
      implement a table of named items on documents without null sections
      ([api_implements_table]) whose entries read back ([put_then_get]) and survive every other request and reload
      ([edits_not_lost]); a quarantine decision is ordered here as at the peers
      ([decision_as_at_peers]), a token's withdrawal reaches them
      ([withdrawal_reaches_peers]), and an explanation of access is the decision
      itself ([explanation_is_the_decision]).
    - Policies, versions, accounting: the chain demands what each policy
      demands, verdicts are fresh, versions compare as documented where they
      can, traffic is neither doubled, as long as no commit is reported as a
      failure, nor lost but with a killed replica ([traffic_conserved]), a scan
      reports what is there.
    - Access: the decision is the declarative one ([explain_decides]),
      independent of rule order, attributable, and compilation and matching are
      right.
    - Serving: nothing unverified enters the cache, what is served has the
      digest it states whatever other sites send ([serving_through_peers]), cached artifacts stay servable, metadata follows its
      freshness policy; the directory store implements the interface.
    - Publishing: releases are immutable, a publish and its announcement agree,
      a repair pass restores projections, coordinates round-trip.
    - Format modules: no push leaves an image incomplete
      ([images_stay_complete]); an upload session implements
      an append-only buffer ([upload_refines_buffer]); every location the
      registry hands out leads back to what it names ([locations_lead_back]);
      following the pages of a listing yields each tag once
      ([tag_pages_complete]); generated Maven metadata depends on the set of
      files and their publication times only ([maven_index_deterministic]). Generated npm documents list what
      is published with the digests it was stored with ([npm_documents_sound]);
      groups of npm registries and of chart repositories keep the order of
      trust of their members ([npm_group_precedence], [helm_group_precedence],
      [composer_group_precedence]), and a group promises an inventory only when
      all members do ([composer_inventory_promise]);
      what is published can be fetched where it was put ([npm_release_reachable],
      [helm_release_found], [tf_archive_reachable], [composer_release_found]), and
      what a document points at leads back ([helm_location_leads_back],
      [tf_download_leads_back], [composer_dist_leads_back]); generated lists are
      exact ([tf_versions_exact], [helm_index_exact],
      [composer_documents_exact], [composer_metadata_sound]), and
      service discovery never guesses ([tf_discovery_unambiguous]).
    - Garbage collection: a run removes no blob at a moment when a row, an open
      conflict or a projection names it, as long as others newly name only what
      the grace period protects ([gc_keeps_referenced]) and, undisturbed,
      removes exactly the garbage ([gc_collects_garbage]).
    - Upstream: breaker threshold, cooldown and single probe, bounded attempts,
      no fetch from a private address on an upstream's word.
    - Where guarantees stop ([Limits] and the closing theorems of other files):
      concrete or general runs in which the code departs from its documents.

    ** Fuel

    [Serve] nests once: an artifact's checksum may be read from its metadata
    document, which is served by the same function; [serve_fuel_enough] shows
    that two levels give the answer of any more. [catchUp] takes one unit per
    journal page ([catchUp_page]). [poll_is_safe] speaks of every state between
    pages and needs none; [catch_up_complete] needs more units than entries left
    to read, and [catch_up_spins] shows that against a misbehaving peer no amount
    is enough, because the loop itself does not end. The HTTP client of a sign-in
    follows [maxRedirects] redirects, the limit Go's client has. Walking groups
    takes [walk_fuel], the allowed nesting: [group_flattening] shows a validated
    document never needs more. Expanding environment references takes
    [expand_fuel], the length of the text, of which each round consumes a part.
    A client that follows the pages of a listing takes one unit per page
    ([follow]); [tag_pages_complete] shows that one unit more than tags suffices.
    Upload offsets are printed and parsed in sixteen decimal digits, which is
    what the code pads them to.

    ** Not modelled

    HTTP transport, TLS and streaming (bodies are whole strings), goroutine
    scheduling, metrics and logs, connection handling, YAML decoding, the S3
    store (calls of a service through its SDK), the admin API's read views and
    usage pages, the NuGet format module, the rest of the
    command line and the Terraform provider (a separate program over the admin
    API).
    Concurrency of requests is reduced to sequences: database transactions
    serialise writers, the breaker's methods hold its mutex, and other
    replicas' writes appear as a transition of the store; where the code lets
    go of its lock (token lookups, takedown queries, usage flushes, the
    collector) the interleavings are steps of a relation. *)

From stdpp Require Export base gmap strings list fin_maps sorting.
From Stdlib Require Import DecimalString DecimalZ.
From Stdlib Require Export ZArith Lia.
From Stdlib Require Ascii.
Export Ascii.AsciiSyntax.

#[global] Delimit Scope char_scope with char.
#[global] Open Scope string_scope.
#[global] Open Scope list_scope.
#[global] Arguments String.append !s1 s2 / : simpl nomatch.

(** ** Results of fallible Go functions *)

(** A Go function returning [(T, error)]: either a value or an error value. *)
Inductive result (E A : Type) : Type :=
| Ok (a : A)
| Err (e : E).
Arguments Ok {E A} a.
Arguments Err {E A} e.

Definition rbind {E A B} (m : result E A) (f : A -> result E B) : result E B :=
  match m with
  | Ok a => f a
  | Err e => Err e
  end.

Declare Scope go_scope.
Delimit Scope go_scope with go.
Notation "'let?' x ':=' m 'in' k" := (rbind m (fun x => k))
  (at level 10, x pattern, m at level 200, k at level 200,
   format "'let?'  x  ':='  m  'in' '//' k") : go_scope.
#[global] Open Scope go_scope.

Lemma rbind_Ok {E A B} (m : result E A) (f : A -> result E B) b :
  rbind m f = Ok b <-> exists a, m = Ok a /\ f a = Ok b.
Proof. destruct m; simpl; naive_solver. Qed.

(** ** Package strings: the functions of Go's [strings] the program uses *)

(** [strings.HasPrefix]. *)
Definition has_prefix (s p : string) : bool := String.prefix p s.

(** [strings.CutSuffix]: [(before, true)] when [s] ends in [suf]. *)
Fixpoint cut_suffix (s suf : string) : string * bool :=
  if decide (s = suf) then ("", true) else
  match s with
  | EmptyString => ("", false)
  | String c s' =>
      match cut_suffix s' suf with
      | (p, true) => (String c p, true)
      | (_, false) => (s, false)
      end
  end.

(** [strings.TrimSuffix]. *)
Definition trim_suffix (s suf : string) : string := (cut_suffix s suf).1.

(** [strings.Contains] and [strings.Count] for a one-byte substring. *)
Fixpoint contains_char (s : string) (c : Ascii.ascii) : bool :=
  match s with
  | EmptyString => false
  | String d s' => bool_decide (d = c) || contains_char s' c
  end.

Fixpoint count_char (s : string) (c : Ascii.ascii) : nat :=
  match s with
  | EmptyString => 0
  | String d s' => (if decide (d = c) then 1 else 0) + count_char s' c
  end.

(** [strings.Split] for a one-byte separator: never empty. *)
Fixpoint split (s : string) (sep : Ascii.ascii) : list string :=
  match s with
  | EmptyString => [""]
  | String c s' =>
      if decide (c = sep) then "" :: split s' sep
      else match split s' sep with
           | w :: ws => String c w :: ws
           | [] => [String c ""]
           end
  end.

(** [strings.Join]. *)
Fixpoint join (ws : list string) (sep : string) : string :=
  match ws with
  | [] => ""
  | [w] => w
  | w :: ws' => w +:+ sep +:+ join ws' sep
  end.

(** ** The byte-wise order of Go strings *)

Definition str_lt (a b : string) : Prop := String.compare a b = Lt.
#[export] Instance str_lt_dec : RelDecision str_lt.
Proof. intros a b. unfold str_lt. solve_decision. Defined.
Definition str_ltb (a b : string) : bool := bool_decide (str_lt a b).
Definition str_min (a b : string) : string := if str_ltb a b then a else b.

Lemma ascii_compare_lt_trans a b c :
  Ascii.compare a b = Lt -> Ascii.compare b c = Lt -> Ascii.compare a c = Lt.
Proof. unfold Ascii.compare. rewrite !N.compare_lt_iff. lia. Qed.

Lemma ascii_compare_eq a b : Ascii.compare a b = Eq <-> a = b.
Proof.
  split; [apply Ascii.compare_eq_iff|].
  intros ->. unfold Ascii.compare. apply N.compare_refl.
Qed.

Lemma str_lt_irrefl a : ~ str_lt a a.
Proof.
  unfold str_lt. induction a as [|c a IH]; simpl; [done|].
  by rewrite (proj2 (ascii_compare_eq c c) eq_refl).
Qed.

Lemma str_lt_trans a b c : str_lt a b -> str_lt b c -> str_lt a c.
Proof.
  unfold str_lt. revert b c.
  induction a as [|x a IH]; intros [|y b] [|z c]; simpl; try done.
  destruct (Ascii.compare x y) eqn:Exy; try done;
    destruct (Ascii.compare y z) eqn:Eyz; try done.
  - apply ascii_compare_eq in Exy as ->. rewrite Eyz. apply IH.
  - apply ascii_compare_eq in Exy as ->. by rewrite Eyz.
  - apply ascii_compare_eq in Eyz as ->. by rewrite Exy.
  - by rewrite (ascii_compare_lt_trans _ _ _ Exy Eyz).
Qed.

Lemma str_lt_total a b : str_lt a b \/ a = b \/ str_lt b a.
Proof.
  unfold str_lt. destruct (String.compare a b) eqn:E; eauto.
  - right; left. by apply String.compare_eq_iff.
  - right; right. rewrite String.compare_antisym, E. done.
Qed.

Lemma str_lt_asym a b : str_lt a b -> ~ str_lt b a.
Proof. intros H1 H2. eapply str_lt_irrefl, str_lt_trans; eauto. Qed.

Lemma str_ltb_lt a b : str_ltb a b = true <-> str_lt a b.
Proof. unfold str_ltb. by rewrite bool_decide_eq_true. Qed.

Lemma str_ltb_ge a b : str_ltb a b = false <-> ~ str_lt a b.
Proof. unfold str_ltb. by rewrite bool_decide_eq_false. Qed.

Create HintDb fondaco.
#[export] Hint Resolve str_lt_irrefl str_lt_trans str_lt_asym : fondaco.

(** Case analysis on the order of two strings occurring in a goal. *)
Ltac str_order :=
  repeat match goal with
  | H : str_ltb _ _ = true |- _ => apply str_ltb_lt in H
  | H : str_ltb _ _ = false |- _ => apply str_ltb_ge in H
  end;
  repeat match goal with
  | H : ~ str_lt ?a ?b |- _ =>
      destruct (str_lt_total a b) as [?|[?|?]]; [done| |]; clear H; subst
  end;
  try done;
  try (exfalso; match goal with
  | H : str_lt ?a ?a |- _ => exact (str_lt_irrefl a H)
  | H1 : str_lt ?a ?b, H2 : str_lt ?b ?a |- _ => exact (str_lt_asym a b H1 H2)
  | H1 : str_lt ?a ?b, H2 : str_lt ?b ?c, H3 : str_lt ?c ?a |- _ =>
      exact (str_lt_asym a c (str_lt_trans a b c H1 H2) H3)
  end);
  eauto using str_lt_trans.

Lemma str_min_comm a b : str_min a b = str_min b a.
Proof.
  unfold str_min. destruct (str_ltb a b) eqn:E1, (str_ltb b a) eqn:E2; str_order.
Qed.

Lemma str_min_assoc a b c : str_min a (str_min b c) = str_min (str_min a b) c.
Proof.
  unfold str_min.
  destruct (str_ltb b c) eqn:E1, (str_ltb a b) eqn:E2;
    rewrite ?E1, ?E2; try done;
    destruct (str_ltb a c) eqn:E3; try done; str_order.
Qed.

Lemma str_min_idemp a : str_min a a = a.
Proof. unfold str_min. by destruct (str_ltb a a). Qed.

(** Sorting of string slices ([sort.Strings]): insertion into a sorted list. *)
Fixpoint insert_string (s : string) (l : list string) : list string :=
  match l with
  | [] => [s]
  | t :: l' => if str_ltb t s then t :: insert_string s l' else s :: t :: l'
  end.
Definition sort_strings (l : list string) : list string := foldr insert_string [] l.
Lemma insert_string_perm x l : insert_string x l ≡ₚ x :: l.
Proof. induction l as [|y l IH]; simpl; [done|]. destruct (str_ltb y x); [|done]. rewrite IH. apply Permutation_swap. Qed.
Lemma sort_strings_perm l : sort_strings l ≡ₚ l.
Proof. induction l as [|x l IH]; simpl; [done|]. by rewrite insert_string_perm, IH. Qed.

(** ** Lemmas on prefixes, suffixes and segments *)

Lemma has_prefix_spec s p : has_prefix s p = true <-> exists r, s = p +:+ r.
Proof.
  unfold has_prefix. revert s. induction p as [|c p IH]; intros [|d s]; simpl.
  - split; eauto.
  - split; eauto.
  - split; [done|]. by intros [r ?].
  - destruct (Ascii.ascii_dec c d) as [->|Hne].
    + rewrite IH. split; intros [r Hr]; exists r; [by subst|by inversion Hr].
    + split; [done|]. intros [r Hr]. by inversion Hr.
Qed.

Lemma str_length_app a b : String.length (a +:+ b) = (String.length a + String.length b)%nat.
Proof. induction a as [|c a IH]; simpl; [done|]. by rewrite IH. Qed.
Lemma str_app_assoc a b c : a +:+ (b +:+ c) = (a +:+ b) +:+ c.
Proof. induction a as [|x a IH]; simpl; [done|]. by rewrite IH. Qed.

Lemma str_app_nil_r a : a +:+ "" = a.
Proof. induction a as [|x a IH]; simpl; [done|]. by rewrite IH. Qed.

(** Two prefixes of one string are comparable. *)
Lemma contains_char_app s t c : contains_char (s +:+ t) c = contains_char s c || contains_char t c.
Proof. induction s as [|d s IH]; simpl; [done|]. by rewrite IH, orb_assoc. Qed.
Lemma prefixes_comparable s p q :
  has_prefix s p = true -> has_prefix s q = true ->
  has_prefix p q = true \/ has_prefix q p = true.
Proof.
  rewrite !has_prefix_spec. intros [r ->] [t Ht].
  revert q Ht. induction p as [|c p IH]; intros [|d q]; simpl; intros Ht; eauto.
  simplify_eq. destruct (IH q) as [[u ->]|[u ->]]; eauto.
Qed.

Lemma has_prefix_app s p r : has_prefix s p = true -> has_prefix (s +:+ r) p = true.
Proof. rewrite !has_prefix_spec. intros [t ->]. exists (t +:+ r). by rewrite str_app_assoc. Qed.

Lemma has_prefix_app_r s p : has_prefix (p +:+ s) p = true.
Proof. rewrite has_prefix_spec. eauto. Qed.

Lemma cut_suffix_true s suf p : cut_suffix s suf = (p, true) -> s = p +:+ suf.
Proof.
  revert p. induction s as [|c s IH]; intros p; simpl; repeat case_decide; subst;
    intros Hc; simplify_eq; try done.
  destruct (cut_suffix s suf) as [q []]; simplify_eq. simpl. by rewrite <- (IH q).
Qed.

Lemma cut_suffix_false s suf p : cut_suffix s suf = (p, false) -> p = s.
Proof.
  revert p. induction s as [|c s IH]; intros p; simpl; repeat case_decide; subst;
    intros Hc; simplify_eq; try done.
  destruct (cut_suffix s suf) as [q []]; by simplify_eq.
Qed.

Lemma cut_suffix_app p suf : suf <> "" -> cut_suffix (p +:+ suf) suf = (p, true).
Proof.
  intros Hs. induction p as [|x p IH]; cbn [String.append].
  - destruct suf; [done|]. simpl. by rewrite decide_True.
  - cbn [cut_suffix]. rewrite decide_False.
    + by rewrite IH.
    + intros Heq. apply (f_equal String.length) in Heq. simpl in Heq.
      rewrite str_length_app in Heq. lia.
Qed.

Lemma join_cons w ws sep : ws <> [] -> join (w :: ws) sep = w +:+ sep +:+ join ws sep.
Proof. by destruct ws. Qed.

Lemma split_nonempty s sep : split s sep <> [].
Proof. destruct s; simpl; [done|]. case_decide; [done|]. by destruct (split s sep). Qed.

(** Splitting on a byte and joining with it gives the string back. *)
Lemma join_split s c : join (split s c) (String c "") = s.
Proof.
  induction s as [|d s IH]; simpl; [done|].
  case_decide as Hd; subst.
  - rewrite join_cons by apply split_nonempty. simpl. by rewrite IH.
  - destruct (split s c) as [|w ws] eqn:E; [by destruct (split_nonempty s c)|].
    destruct ws as [|w' ws']; simpl in *; by rewrite IH.
Qed.

Lemma split_inj s t c : split s c = split t c -> s = t.
Proof. intros H. rewrite <- (join_split s c), <- (join_split t c). by rewrite H. Qed.

(** ** Least elements of a strict total order

    Replicated state is a fold of "keep the better of the two" over the events
    that arrived; which event survives depends on the set of events only. *)
Section least.
Context {A : Type} (R : relation A).
Context `{!Irreflexive R, !Transitive R, !RelDecision R}.
Context (R_total : forall a b, R a b \/ a = b \/ R b a).

(** [better cur new]: the new value replaces the current one when it comes
    strictly first. *)
Definition better (cur new : A) : A := if decide (R new cur) then new else cur.

Definition is_least (l : list A) (m : A) : Prop := m ∈ l /\ forall x, x ∈ l -> ~ R x m.

Lemma is_least_unique l l' m m' :
  (forall x, x ∈ l <-> x ∈ l') -> is_least l m -> is_least l' m' -> m = m'.
Proof.
  intros Hl [Hm Hmin] [Hm' Hmin'].
  destruct (R_total m m') as [H|[H|H]]; [exfalso|done|exfalso].
  - apply (Hmin' m); [by apply Hl|done].
  - apply (Hmin m'); [by apply Hl|done].
Qed.

Lemma better_least l a x : is_least l a -> is_least (l ++ [x]) (better a x).
Proof.
  intros [Ha Hmin]. unfold better. case_decide as Hx; split; [set_solver| |set_solver|].
  - intros y [Hy| ->%list_elem_of_singleton]%elem_of_app Hyx.
    + apply (Hmin y Hy). by etrans.
    + by apply irreflexivity in Hyx.
  - intros y [Hy| ->%list_elem_of_singleton]%elem_of_app Hya; [by apply (Hmin y)|done].
Qed.

Lemma foldl_better_least a l : is_least (a :: l) (foldl better a l).
Proof.
  induction l as [|x l IH] using rev_ind.
  - split; [set_solver|]. intros x ->%list_elem_of_singleton. by apply irreflexivity.
  - rewrite foldl_app. simpl. rewrite app_comm_cons. by apply better_least.
Qed.
End least.

#[export] Instance str_lt_irreflexive : Irreflexive str_lt.
Proof. intros a. apply str_lt_irrefl. Qed.
#[export] Instance str_lt_transitive : Transitive str_lt.
Proof. intros a b c. apply str_lt_trans. Qed.

(** ** Machine integers *)

(** Reduction to a signed 64-bit integer, as Go's int64 arithmetic does. *)
Definition wrap64 (z : Z) : Z := (z + 2 ^ 63) mod 2 ^ 64 - 2 ^ 63.

Lemma wrap64_id z : (- 2 ^ 63 <= z < 2 ^ 63)%Z -> wrap64 z = z.
Proof. intros H. unfold wrap64. rewrite Z.mod_small; lia. Qed.

Lemma wrap64_range z : (- 2 ^ 63 <= wrap64 z < 2 ^ 63)%Z.
Proof. unfold wrap64. pose proof (Z.mod_pos_bound (z + 2 ^ 63) (2 ^ 64)). lia. Qed.

(** ** Decimal numbers ([strconv.FormatInt] and [strconv.ParseInt], base 10) *)

Definition format_int (z : Z) : string := NilZero.string_of_int (Z.to_int z).

(** An optional sign and at least one digit, in the signed 64-bit range. *)
Definition parse_int (s : string) : option Z :=
  let digits := match s with String "+"%char (String c s') =>
                               if decide (c = "-"%char) then "+" else String c s'
                           | _ => s end in
  match NilZero.int_of_string digits with
  | Some d => let z := Z.of_int d in
              if decide (- 2 ^ 63 <= z < 2 ^ 63)%Z then Some z else None
  | None => None
  end.

Lemma format_int_head z : exists c s, format_int z = String c s /\ c <> "+"%char.
Proof.
  unfold format_int. destruct (Z.to_int z) as [d|d]; simpl; [|by eexists _, _].
  destruct d; simpl; by eexists _, _.
Qed.

(** Formatting and parsing round-trip on the int64 range. *)
Lemma parse_format_int z : (- 2 ^ 63 <= z < 2 ^ 63)%Z -> parse_int (format_int z) = Some z.
Proof.
  intros Hz. unfold parse_int.
  destruct (format_int_head z) as (c & s & E & Hc). rewrite E.
  replace (match c with "+"%char => _ | _ => String c s end) with (String c s)
    by (destruct c as [[] [] [] [] [] [] [] []]; done).
  rewrite <- E. unfold format_int. rewrite NilZero.isi.
  - rewrite DecimalZ.of_to. by rewrite decide_True.
  - intros Hn. pose proof (DecimalZ.of_to z) as Ho. rewrite Hn in Ho. by subst z.
  - intros Hn. pose proof (DecimalZ.of_to z) as Ho. rewrite Hn in Ho. by subst z.
Qed.

(** ** Letter case *)

(** ASCII [strings.ToLower]; [strings.EqualFold] on such text. *)
Definition lower_char (c : Ascii.ascii) : Ascii.ascii :=
  let n := Ascii.N_of_ascii c in
  if ((65 <=? n) && (n <=? 90))%N then Ascii.ascii_of_N (n + 32) else c.
Fixpoint ToLower (s : string) : string :=
  match s with EmptyString => "" | String c s' => String (lower_char c) (ToLower s') end.
Definition EqualFold (s t : string) : bool := bool_decide (ToLower s = ToLower t).

(** ** Lists of pairs *)

(** Filtering a list of pairs keeps its keys distinct. *)
Lemma NoDup_fst_filter {A B} (P : A * B -> Prop) `{!forall x, base.Decision (P x)} (l : list (A * B)) :
  NoDup l.*1 -> NoDup (filter P l).*1.
Proof.
  induction l as [|x l IH]; simpl; [done|]. intros [Hx Hl]%NoDup_cons.
  rewrite filter_cons. case_decide; [|auto]. simpl. apply NoDup_cons. split; [|auto].
  intros (y & Hy & Hin)%list_elem_of_fmap. apply Hx. rewrite Hy.
  apply list_elem_of_filter in Hin as [_ Hin]. by apply list_elem_of_fmap_2.
Qed.
