(* ===== verification/GoLib.v ===== *)
(** * More of Go's standard library

    Functions of [strings] and [path] that the policies, the authentication
    code, the configuration and the format modules use, with the lemmas their
    proofs share. Strings are bytes: on the ASCII text these functions are
    applied to, a byte is a rune. *)

From S2P Require Import Prelude.

(** ** Package strings *)

(** [strings.Cut]: the text around the first occurrence of [sep]; [None] when
    there is none (Go then returns the whole string before and "" after). *)
Fixpoint Cut (s sep : string) : option (string * string) :=
  if String.prefix sep s then Some ("", String.substring (String.length sep) (String.length s) s) else
  match s with
  | EmptyString => None
  | String c s' => match Cut s' sep with
                   | Some (b, a) => Some (String c b, a)
                   | None => None
                   end
  end.

(** The [(before, after, found)] triple of [strings.Cut]. *)
Definition cut3 (s sep : string) : string * string * bool :=
  match Cut s sep with
  | Some (b, a) => (b, a, true)
  | None => (s, "", false)
  end.

(** [strings.Contains]. *)
Definition Contains (s sub : string) : bool :=
  match Cut s sub with Some _ => true | None => false end.

(** [strings.HasSuffix] and [strings.TrimPrefix]. *)
Definition has_suffix (s suf : string) : bool := (cut_suffix s suf).2.
Definition trim_prefix (s p : string) : string :=
  if has_prefix s p then String.substring (String.length p) (String.length s) s else s.

(** [strings.Split] for a separator of any length, by repeated [Cut]. *)
Fixpoint split_fuel (fuel : nat) (s sep : string) : list string :=
  match fuel with
  | O => [s]
  | S n => match Cut s sep with
           | Some (b, a) => b :: split_fuel n a sep
           | None => [s]
           end
  end.
Definition Split (s sep : string) : list string := split_fuel (String.length s) s sep.

(** [strings.Compare]. *)
Definition str_compare (a b : string) : Z :=
  match String.compare a b with Lt => -1 | Eq => 0 | Gt => 1 end.

(** [strings.TrimLeft] and [strings.TrimRight] for one byte. *)
Fixpoint trim_left_char (s : string) (c : Ascii.ascii) : string :=
  match s with
  | String d s' => if decide (d = c) then trim_left_char s' c else s
  | EmptyString => ""
  end.
Fixpoint trim_right_char (s : string) (c : Ascii.ascii) : string :=
  match s with
  | EmptyString => ""
  | String d s' => match trim_right_char s' c with
                   | EmptyString => if decide (d = c) then "" else String d ""
                   | t => String d t
                   end
  end.
Definition Trim (s : string) (c : Ascii.ascii) : string := trim_right_char (trim_left_char s c) c.

(** [strings.ReplaceAll] of a one-byte text. *)
Fixpoint replace_char (s : string) (c : Ascii.ascii) (by_ : string) : string :=
  match s with
  | EmptyString => ""
  | String d s' => (if decide (d = c) then by_ else String d "") +:+ replace_char s' c by_
  end.

(** [io.ReadAll] of an [io.LimitReader]. *)
Definition limit_read (n : Z) (s : string) : string :=
  if decide (Z.of_nat (String.length s) <= n)%Z then s else String.substring 0 (Z.to_nat n) s.

(** ** path.Match *)

(** A pattern as a list of terms: [*] (any run of bytes other than [/]), [?]
    (one byte other than [/]), a class with its ranges, a literal byte. *)
Inductive pat_term :=
| PStar
| PAny
| PClass (negated : bool) (ranges : list (Ascii.ascii * Ascii.ascii))
| PLit (c : Ascii.ascii).

(** One possibly escaped byte of a class; the class must go on after it. *)
Definition get_esc (s : string) : option (Ascii.ascii * string) :=
  match s with
  | EmptyString | String "-" _ | String "]" _ => None
  | String "\" (String c ((String _ _) as r)) => Some (c, r)
  | String "\" _ => None
  | String c ((String _ _) as r) => Some (c, r)
  | String _ "" => None
  end%char.

(** The ranges of a class up to its closing bracket: at least one. *)
Fixpoint parse_ranges (fuel : nat) (acc : list (Ascii.ascii * Ascii.ascii)) (s : string)
  : option (list (Ascii.ascii * Ascii.ascii) * string) :=
  match fuel with
  | O => None
  | S n =>
      match s, acc with
      | String "]" r, _ :: _ => Some (acc, r)
      | _, _ =>
          match get_esc s with
          | Some (lo, String "-" r) =>
              match get_esc r with
              | Some (hi, r') => parse_ranges n (acc ++ [(lo, hi)]) r'
              | None => None
              end
          | Some (lo, r) => parse_ranges n (acc ++ [(lo, lo)]) r
          | None => None
          end
      end
  end%char.

(** [None]: a malformed pattern ([path.ErrBadPattern]). *)
Fixpoint parse_pattern (fuel : nat) (s : string) : option (list pat_term) :=
  match fuel with
  | O => None
  | S n =>
      match s with
      | EmptyString => Some []
      | String "*" r => cons PStar <$> parse_pattern n r
      | String "?" r => cons PAny <$> parse_pattern n r
      | String "[" r =>
          let '(neg, r) := match r with String "^" r' => (true, r') | _ => (false, r) end in
          match parse_ranges n [] r with
          | Some (rs, r') => cons (PClass neg rs) <$> parse_pattern n r'
          | None => None
          end
      | String "\" (String c r) => cons (PLit c) <$> parse_pattern n r
      | String "\" "" => None
      | String c r => cons (PLit c) <$> parse_pattern n r
      end
  end%char.

Definition in_range (c : Ascii.ascii) (r : Ascii.ascii * Ascii.ascii) : bool :=
  let n := Ascii.N_of_ascii c in
  ((Ascii.N_of_ascii r.1 <=? n) && (n <=? Ascii.N_of_ascii r.2))%N.

Fixpoint match_terms (p : list pat_term) : string -> bool :=
  match p with
  | [] => fun s => bool_decide (s = "")
  | PStar :: p' => fix star s :=
      match_terms p' s
      || match s with
         | String c s' => if decide (c = "/"%char) then false else star s'
         | EmptyString => false
         end
  | PAny :: p' => fun s =>
      match s with
      | String c s' => bool_decide (c <> "/"%char) && match_terms p' s'
      | EmptyString => false
      end
  | PClass neg rs :: p' => fun s =>
      match s with
      | String c s' => xorb neg (existsb (in_range c) rs) && match_terms p' s'
      | EmptyString => false
      end
  | PLit d :: p' => fun s =>
      match s with
      | String c s' => bool_decide (c = d) && match_terms p' s'
      | EmptyString => false
      end
  end.

(** [path.Match]: [None] is [ErrBadPattern]. *)
Definition path_match (pattern name : string) : option bool :=
  match parse_pattern (S (String.length pattern)) pattern with
  | Some p => Some (match_terms p name)
  | None => None
  end.

(** The uses [ok, _ := path.Match(pattern, name)]. *)
Definition path_matches (pattern name : string) : bool := default false (path_match pattern name).

(** ** Package time *)

Definition Nanosecond : Z := 1.
Definition Microsecond : Z := 1000.
Definition Millisecond : Z := 10 ^ 6.
Definition Second : Z := 10 ^ 9.
Definition Minute : Z := 60 * Second.
Definition Hour : Z := 60 * Minute.

Definition digit (c : Ascii.ascii) : option Z :=
  let n := Z.of_N (Ascii.N_of_ascii c) in
  if ((48 <=? n) && (n <=? 57))%Z then Some (n - 48)%Z else None.

(** A run of digits: value, number of digits, rest. *)
Fixpoint digits (acc : Z) (k : nat) (s : string) : Z * nat * string :=
  match s with
  | String c s' => match digit c with
                   | Some d => digits (acc * 10 + d) (S k) s'
                   | None => (acc, k, s)
                   end
  | EmptyString => (acc, k, "")
  end.

(** The text up to the next digit or point: a unit. *)
Fixpoint take_unit (s : string) : string * string :=
  match s with
  | EmptyString => ("", "")
  | String c s' =>
      match digit c with
      | Some _ => ("", s)
      | None => if decide (c = "."%char) then ("", s)
                else let '(u, r) := take_unit s' in (String c u, r)
      end
  end.

Definition unit_of (u : string) : option Z :=
  if decide (u = "ns") then Some Nanosecond
  else if decide (u = "us" \/ u = "µs" \/ u = "μs") then Some Microsecond
  else if decide (u = "ms") then Some Millisecond
  else if decide (u = "s") then Some Second
  else if decide (u = "m") then Some Minute
  else if decide (u = "h") then Some Hour
  else None.

(** The loop of [time.ParseDuration]: [d] nanoseconds so far. A fraction of a
    unit is rounded down. *)
Fixpoint duration_loop (fuel : nat) (d : Z) (s : string) : option Z :=
  match fuel with
  | O => None
  | S n =>
      if decide (s = "") then Some d else
      let '(v, k, s1) := digits 0 0 s in
      let '(f, kf, s2) := match s1 with
                          | String "." r => digits 0 0 r
                          | _ => (0%Z, 0, s1)
                          end%char in
      let '(u, s3) := take_unit s2 in
      if decide (k + kf = 0 \/ (2 ^ 63 < v)%Z) then None else
      match unit_of u with
      | None => None
      | Some unit =>
          let v := (v * unit + f * unit / 10 ^ Z.of_nat kf)%Z in
          if decide (2 ^ 63 < d + v)%Z then None else duration_loop n (d + v) s3
      end
  end.

(** [time.ParseDuration]: [None] is its error. *)
Definition ParseDuration (s : string) : option Z :=
  let '(neg, t) := match s with
                   | String "-" t => (true, t)
                   | String "+" t => (false, t)
                   | _ => (false, s)
                   end%char in
  if decide (t = "0") then Some 0%Z
  else if decide (t = "") then None
  else match duration_loop (S (String.length t)) 0 t with
       | Some d => if neg then Some (- d)%Z else if decide (d < 2 ^ 63)%Z then Some d else None
       | None => None
       end.

(** [Time.Sub] on nanoseconds since the epoch: it saturates. *)
Definition time_sub (t u : Z) : Z := (- 2 ^ 63) `max` ((2 ^ 63 - 1) `min` (t - u)).

(** Days from 1970-01-01 to a date of the proleptic Gregorian calendar. *)
Definition days_from_civil (y m d : Z) : Z :=
  let y := if (m <=? 2)%Z then (y - 1)%Z else y in
  let era := (y / 400)%Z in
  let yoe := (y - era * 400)%Z in
  let mp := ((m + 9) mod 12)%Z in
  let doy := ((153 * mp + 2) / 5 + d - 1)%Z in
  let doe := (yoe * 365 + yoe / 4 - yoe / 100 + doy)%Z in
  (era * 146097 + doe - 719468)%Z.

Definition leap (y : Z) : bool :=
  ((y mod 4 =? 0) && (negb (y mod 100 =? 0) || (y mod 400 =? 0)))%Z.
Definition days_in (m y : Z) : Z :=
  if (m =? 2)%Z then (if leap y then 29 else 28)%Z
  else if ((m =? 4) || (m =? 6) || (m =? 9) || (m =? 11))%Z then 30%Z else 31%Z.

(** Exactly [n] digits. *)
Fixpoint take_num (n : nat) (acc : Z) (s : string) : option (Z * string) :=
  match n, s with
  | O, _ => Some (acc, s)
  | S n', String c s' => match digit c with
                         | Some d => take_num n' (acc * 10 + d)%Z s'
                         | None => None
                         end
  | S _, EmptyString => None
  end.
Definition expect (c : Ascii.ascii) (s : string) : option string :=
  match s with String d r => if decide (d = c) then Some r else None | EmptyString => None end.

(** One or two digits (the hour). *)
Definition take_hour (s : string) : option (Z * string) :=
  match take_num 2 0 s with Some r => Some r | None => take_num 1 0 s end.

(** An optional fraction of a second, to nanoseconds. *)
Definition take_fraction (s : string) : Z * string :=
  match s with
  | String c r =>
      if decide (c = "."%char \/ c = ","%char) then
        let '(v, k, r') := digits 0 0 r in
        if decide (k = 0) then (0%Z, s)
        else ((if decide (k <= 9)%nat then v * 10 ^ Z.of_nat (9 - k)%nat
               else v / 10 ^ Z.of_nat (k - 9))%Z, r')
      else (0%Z, s)
  | EmptyString => (0%Z, s)
  end.

(** The zone: [Z] or an offset, in seconds, and nothing after it. *)
Definition take_zone (s : string) : option Z :=
  match s with
  | String c r =>
      if decide (s = "Z") then Some 0%Z else
      if decide (c = "+"%char \/ c = "-"%char) then
        h ← take_num 2 0 r; r1 ← expect ":"%char h.2; m ← take_num 2 0 r1;
        if decide (h.1 <= 24 /\ m.1 <= 60 /\ m.2 = "")%Z then
          let off := ((h.1 * 60 + m.1) * 60)%Z in
          Some (if decide (c = "+"%char) then off else - off)%Z
        else None
      else None
  | EmptyString => None
  end.

(** [time.Parse(time.RFC3339, s)]: nanoseconds since the epoch. *)
Definition parse_rfc3339 (s : string) : option Z :=
  y ← take_num 4 0 s; s ← expect "-"%char y.2; m ← take_num 2 0 s; s ← expect "-"%char m.2;
  d ← take_num 2 0 s; s ← expect "T"%char d.2; h ← take_hour s; s ← expect ":"%char h.2;
  mi ← take_num 2 0 s; s ← expect ":"%char mi.2; se ← take_num 2 0 s;
  let '(ns, r) := take_fraction se.2 in
  off ← take_zone r;
  if decide (1 <= m.1 <= 12 /\ 1 <= d.1 <= days_in m.1 y.1
             /\ h.1 < 24 /\ mi.1 < 60 /\ se.1 < 60)%Z then
    Some (((days_from_civil y.1 m.1 d.1 * 86400 + h.1 * 3600 + mi.1 * 60 + se.1 - off)
           * Second + ns)%Z)
  else None.

(** ** Lemmas on [Cut] *)

Lemma substring_all n s : String.length s <= n -> String.substring 0 n s = s.
Proof.
  revert n. induction s as [|c s IH]; intros [|n]; simpl; intros Hn; try done; [lia|].
  rewrite IH; [done|lia].
Qed.

Lemma substring_length n m s : String.length (String.substring n m s) <= m.
Proof.
  revert n m. induction s as [|c s IH]; intros [|n] [|m]; simpl; try lia.
  - specialize (IH 0 m). lia.
  - specialize (IH n 0). lia.
  - specialize (IH n (S m)). lia.
Qed.

Lemma limit_read_length n s : (0 <= n)%Z -> (Z.of_nat (String.length (limit_read n s)) <= n)%Z.
Proof. intros Hn. unfold limit_read. case_decide; [done|]. pose proof (substring_length 0 (Z.to_nat n) s). lia. Qed.

Lemma substring_app p s n :
  String.length s <= n -> String.substring (String.length p) n (p +:+ s) = s.
Proof. intros Hn. induction p as [|c p IH]; simpl; [by apply substring_all|done]. Qed.

Lemma trim_prefix_app p s : trim_prefix (p +:+ s) p = s.
Proof.
  unfold trim_prefix. rewrite has_prefix_app_r. apply substring_app.
  rewrite str_length_app. lia.
Qed.

Lemma prefix_split p s :
  String.prefix p s = true ->
  s = p +:+ String.substring (String.length p) (String.length s) s.
Proof.
  intros [r ->]%has_prefix_spec. rewrite substring_app; [done|].
  rewrite str_length_app. lia.
Qed.

(** The parts and the separator make up the string. *)
Lemma Cut_app s sep b a : Cut s sep = Some (b, a) -> s = b +:+ sep +:+ a.
Proof.
  revert b a. induction s as [|c s IH]; intros b a; cbn [Cut].
  - destruct (String.prefix sep "") eqn:Hp; [|done].
    intros [= <- <-]. exact (prefix_split _ _ Hp).
  - destruct (String.prefix sep (String c s)) eqn:Hp.
    + intros [= <- <-]. exact (prefix_split _ _ Hp).
    + destruct (Cut s sep) as [[b' a']|] eqn:E; intros [= <- <-].
      simpl. by rewrite <- (IH b' a').
Qed.

(** The part before is the shortest one: it holds no separator byte. *)
Lemma Cut_char_before s c b a : Cut s (String c "") = Some (b, a) -> contains_char b c = false.
Proof.
  revert b a. induction s as [|d s IH]; intros b a; [done|].
  cbn [Cut]. destruct (String.prefix (String c "") (String d s)) eqn:Hp.
  - by intros [= <- <-].
  - destruct (Cut s (String c "")) as [[b' a']|] eqn:E; intros [= <- <-].
    simpl. rewrite (IH _ _ eq_refl), orb_false_r. apply bool_decide_eq_false.
    intros ->. simpl in Hp. destruct (Ascii.ascii_dec c c); [by destruct s|done].
Qed.

Lemma Cut_char_none s c : Cut s (String c "") = None <-> contains_char s c = false.
Proof.
  induction s as [|d s IH]; [done|]. cbn [Cut contains_char].
  destruct (String.prefix (String c "") (String d s)) eqn:Hp.
  - simpl in Hp. destruct (Ascii.ascii_dec c d) as [->|]; [|done].
    rewrite bool_decide_eq_true_2 by done. done.
  - assert (d <> c) as Hd.
    { intros ->. simpl in Hp. destruct (Ascii.ascii_dec c c); [by destruct s|done]. }
    rewrite bool_decide_eq_false_2 by done. simpl. rewrite <- IH.
    by destruct (Cut s (String c "")) as [[]|].
Qed.

(** Cutting at a byte that the first part does not hold gives the parts. *)
Lemma Cut_char_app b c a :
  contains_char b c = false -> Cut (b +:+ String c a) (String c "") = Some (b, a).
Proof.
  induction b as [|d b IH]; intros Hb.
  - cbn [String.append Cut].
    assert (String.prefix (String c "") (String c a) = true) as ->
      by (simpl; destruct (Ascii.ascii_dec c c); [by destruct a|done]).
    simpl. by rewrite substring_all by lia.
  - simpl in Hb. apply orb_false_iff in Hb as [Hd%bool_decide_eq_false Hb].
    cbn [String.append Cut]. simpl. destruct (Ascii.ascii_dec c d); [congruence|].
    by rewrite IH.
Qed.

Lemma str_compare_opp a b : str_compare b a = (- str_compare a b)%Z.
Proof.
  unfold str_compare. rewrite (String.compare_antisym a b).
  by destruct (String.compare b a).
Qed.

Lemma str_compare_0 a b : str_compare a b = 0%Z <-> a = b.
Proof.
  unfold str_compare. split; [|intros ->].
  - destruct (String.compare a b) eqn:E; [intros _; by apply String.compare_eq_iff|done|done].
  - assert (String.compare b b = Eq) as ->; [|done].
    induction b as [|c b IH]; simpl; [done|]. by rewrite (proj2 (ascii_compare_eq c c) eq_refl).
Qed.

Lemma str_compare_neg a b : (str_compare a b < 0)%Z <-> str_lt a b.
Proof. unfold str_compare, str_lt. by destruct (String.compare a b). Qed.

#[export] Hint Resolve Cut_app Cut_char_app Cut_char_before : fondaco.

(** ** Checks of the library functions on concrete inputs *)

Example path_match_examples :
  path_match "org.apache.*" "org.apache.commons" = Some true
  /\ path_match "@s/*" "@s/x" = Some true /\ path_match "*" "a/b" = Some false
  /\ path_match "[a-c]?*" "bxyz" = Some true /\ path_match "[^a]" "a" = Some false
  /\ path_match "a[" "probe" = None /\ path_match "\*" "*" = Some true.
Proof. done. Qed.

Example ParseDuration_examples :
  ParseDuration "1h30m" = Some (90 * Minute)%Z /\ ParseDuration "-1.5s" = Some (-1500 * Millisecond)%Z
  /\ ParseDuration "24" = None /\ ParseDuration "" = None /\ ParseDuration "0" = Some 0%Z
  /\ ParseDuration "9223372036854775808ns" = None.
Proof. by vm_compute. Qed.

Example parse_rfc3339_examples :
  parse_rfc3339 "1970-01-02T00:00:00Z" = Some (86400 * Second)%Z
  /\ parse_rfc3339 "2024-02-29T12:00:00.5+02:00" = Some (1709200800 * Second + 500 * Millisecond)%Z
  /\ parse_rfc3339 "2023-02-29T12:00:00Z" = None /\ parse_rfc3339 "yesterday" = None.
Proof. by vm_compute. Qed.
