(* ===== verification/Semver.v ===== *)
(** * Semantic versions ([modules/internal/semver/semver.go])

    The comparison the npm and Helm modules use to decide which version is
    newest. The reference order compares the cores as numbers, position by
    position, a missing segment counting as zero, and lets a release outrank
    its pre-releases. On versions whose core segments are decimal numbers the
    code is that order, a total preorder; outside them it is not one. *)

From S2P Require Import Prelude GoLib.

Module Semver.

(** ** The code *)

(** The loop of [atoi] over the bytes, in int64 arithmetic. *)
Fixpoint atoi_loop (n : Z) (s : string) : option Z :=
  match s with
  | EmptyString => Some n
  | String r s' =>
      let d := Z.of_N (Ascii.N_of_ascii r) in
      if ((d <? 48) || (57 <? d))%Z then None
      else atoi_loop (wrap64 (n * 10 + (d - 48))) s'
  end.

Definition atoi (s : string) : option Z :=
  if decide (s = "") then None else atoi_loop 0 s.

Definition segmentAt (segs : list string) (i : nat) : string :=
  default "0" (segs !! i).

Definition compareNumericSegment (a b : string) : Z :=
  match atoi a, atoi b with
  | Some an, Some bn => if (an <? bn)%Z then -1 else if (bn <? an)%Z then 1 else 0
  | _, _ => str_compare a b
  end.

(** The loop over the positions [i], [i+1], ... of the longer list: the first
    difference, or 0. *)
Fixpoint compareSegments (aSegs bSegs : list string) (i left : nat) : Z :=
  match left with
  | O => 0
  | S n => let c := compareNumericSegment (segmentAt aSegs i) (segmentAt bSegs i) in
           if decide (c = 0%Z) then compareSegments aSegs bSegs (S i) n else c
  end.

Definition Compare (a b : string) : Z :=
  let '(aCore, aPre, _) := cut3 a "-" in
  let '(bCore, bPre, _) := cut3 b "-" in
  let aSegs := split aCore "."%char in
  let bSegs := split bCore "."%char in
  let c := compareSegments aSegs bSegs 0 (length aSegs `max` length bSegs) in
  if decide (c <> 0%Z) then c
  else if decide (aPre = "" /\ bPre = "") then 0
  else if decide (aPre = "") then 1
  else if decide (bPre = "") then -1
  else str_compare aPre bPre.

(** ** The reference order *)

(** The value of a decimal numeral, without a machine width. *)
Fixpoint decimal_from (n : Z) (s : string) : option Z :=
  match s with
  | EmptyString => Some n
  | String r s' =>
      let d := Z.of_N (Ascii.N_of_ascii r) in
      if ((48 <=? d) && (d <=? 57))%Z then decimal_from (n * 10 + (d - 48)) s' else None
  end.
Definition decimal (s : string) : option Z :=
  if decide (s = "") then None else decimal_from 0 s.

(** Lexicographic order of number lists, padded with zeros. *)
Fixpoint zeros_compare (ys : list Z) : comparison :=
  match ys with
  | [] => Eq
  | y :: ys' => match (0 ?= y)%Z with Eq => zeros_compare ys' | c => c end
  end.
Fixpoint nums_compare (xs ys : list Z) : comparison :=
  match xs, ys with
  | [], _ => zeros_compare ys
  | x :: xs', [] => match (x ?= 0)%Z with Eq => nums_compare xs' [] | c => c end
  | x :: xs', y :: ys' => match (x ?= y)%Z with Eq => nums_compare xs' ys' | c => c end
  end.

(** A release outranks every pre-release; pre-releases compare as text. *)
Definition pre_compare (p q : string) : comparison :=
  if decide (p = "") then (if decide (q = "") then Eq else Gt)
  else if decide (q = "") then Lt else String.compare p q.

(** A version as numbers and a pre-release, when its core is numeric and each
    number fits an int64. *)
Definition version_of (s : string) : option (list Z * string) :=
  let '(core, pre, _) := cut3 s "-" in
  match mapM (M := option) decimal (split core "."%char) with
  | Some ns => if decide (Forall (fun n => n < 2 ^ 63)%Z ns) then Some (ns, pre) else None
  | None => None
  end.

Definition version_compare (v w : list Z * string) : comparison :=
  match nums_compare v.1 w.1 with Eq => pre_compare v.2 w.2 | c => c end.

Definition sign (c : comparison) : Z := match c with Lt => -1 | Eq => 0 | Gt => 1 end.

(** ** Numerals *)

Lemma decimal_from_ge n s m : (0 <= n)%Z -> decimal_from n s = Some m -> (n <= m)%Z.
Proof.
  revert n. induction s as [|c s IH]; intros n Hn; simpl; [intros [= <-]; lia|].
  destruct (_ && _)%Z eqn:E; [|done]. intros H.
  apply andb_true_iff in E as [E1%Z.leb_le E2%Z.leb_le].
  apply IH in H; lia.
Qed.

Lemma decimal_nonneg s m : decimal s = Some m -> (0 <= m)%Z.
Proof. unfold decimal. case_decide; [done|]. intros Hd. by apply decimal_from_ge in Hd. Qed.

Lemma atoi_loop_decimal n s m :
  (0 <= n)%Z -> decimal_from n s = Some m -> (m < 2 ^ 63)%Z -> atoi_loop n s = Some m.
Proof.
  revert n. induction s as [|c s IH]; intros n Hn; simpl; [done|].
  destruct (_ && _)%Z eqn:E; [|done]. intros H Hm.
  apply andb_true_iff in E as [E1%Z.leb_le E2%Z.leb_le].
  assert (_ || _ = false)%Z as ->
    by (apply orb_false_iff; split; apply Z.ltb_ge; lia).
  assert (n * 10 + (Z.of_N (Ascii.N_of_ascii c) - 48) <= m)%Z
    by (eapply decimal_from_ge; [|exact H]; lia).
  rewrite wrap64_id by lia. apply IH; [lia|done|done].
Qed.

(** Below 2^63 the code's numbers are the numerals' values. *)
Lemma atoi_decimal s m : decimal s = Some m -> (m < 2 ^ 63)%Z -> atoi s = Some m.
Proof.
  unfold decimal, atoi. case_decide; [done|]. intros Hd Hm. by apply atoi_loop_decimal.
Qed.

Lemma compareNumericSegment_nums a b x y :
  atoi a = Some x -> atoi b = Some y -> compareNumericSegment a b = sign (x ?= y)%Z.
Proof.
  unfold compareNumericSegment. intros -> ->.
  destruct (Z.compare_spec x y); simpl; repeat case_match; try lia; done.
Qed.

(** ** The loop is the padded lexicographic order *)

Definition parsed (segs : list string) (ns : list Z) : Prop :=
  Forall2 (fun s n => atoi s = Some n) segs ns.

Lemma segmentAt_parsed segs ns i :
  parsed segs ns -> atoi (segmentAt segs i) = Some (default 0%Z (ns !! i)).
Proof.
  intros H. unfold segmentAt. destruct (segs !! i) as [s|] eqn:E.
  - destruct (Forall2_lookup_l _ _ _ _ _ H E) as (n & -> & Hn). done.
  - rewrite lookup_ge_None in E. rewrite (proj2 (lookup_ge_None ns i)); [done|].
    by rewrite <- (Forall2_length _ _ _ H).
Qed.

Lemma nums_compare_drop xs ys i :
  i < length xs `max` length ys ->
  nums_compare (drop i xs) (drop i ys)
  = match (default 0 (xs !! i) ?= default 0 (ys !! i))%Z with
    | Eq => nums_compare (drop (S i) xs) (drop (S i) ys) | c => c end.
Proof.
  intros Hi. destruct (xs !! i) as [x|] eqn:Ex, (ys !! i) as [y|] eqn:Ey; simpl.
  - by rewrite (drop_S xs x i), (drop_S ys y i).
  - rewrite (drop_S xs x i) by done. apply lookup_ge_None in Ey.
    by rewrite !(drop_ge ys) by lia.
  - rewrite (drop_S ys y i) by done. apply lookup_ge_None in Ex.
    by rewrite !(drop_ge xs) by lia.
  - apply lookup_ge_None in Ex, Ey. lia.
Qed.

Lemma compareSegments_nums aSegs bSegs xs ys i left :
  parsed aSegs xs -> parsed bSegs ys -> i + left = length xs `max` length ys ->
  compareSegments aSegs bSegs i left = sign (nums_compare (drop i xs) (drop i ys)).
Proof.
  intros Ha Hb. revert i. induction left as [|n IH]; intros i Hi; simpl.
  - by rewrite (drop_ge xs), (drop_ge ys) by lia.
  - erewrite compareNumericSegment_nums
      by (eapply segmentAt_parsed; eassumption).
    rewrite nums_compare_drop by lia.
    destruct (_ ?= _)%Z; simpl; [|done|done]. apply IH. lia.
Qed.

Lemma version_of_parsed s ns pre :
  version_of s = Some (ns, pre) ->
  exists core b, cut3 s "-" = (core, pre, b) /\ parsed (split core "."%char) ns /\ Forall (Z.le 0) ns.
Proof.
  unfold version_of. destruct (cut3 s "-") as [[core pre'] b].
  destruct (mapM decimal _) as [ns'|] eqn:E; [|done]. case_decide as Hf; [|done].
  intros [= -> ->]. exists core, b. split; [done|]. apply mapM_Some in E. split.
  - unfold parsed. clear -E Hf. induction E; [constructor|].
    inversion Hf; subst. constructor; [by apply atoi_decimal|by apply IHE].
  - clear -E. induction E; constructor; [by eapply decimal_nonneg|done].
Qed.

(** ** The order *)

Lemma pre_compare_code p q :
  (if decide (p = "" /\ q = "") then 0%Z
   else if decide (p = "") then 1%Z else if decide (q = "") then (-1)%Z else str_compare p q)
  = sign (pre_compare p q).
Proof.
  unfold pre_compare, str_compare.
  destruct (decide (p = "")), (decide (q = "")); try rewrite decide_True by tauto;
    try rewrite decide_False by tauto; done.
Qed.

Lemma Compare_versions a b v w :
  version_of a = Some v -> version_of b = Some w ->
  Compare a b = sign (version_compare v w).
Proof.
  destruct v as [xs p], w as [ys q].
  intros (ca & fa & Ea & Ha & _)%version_of_parsed (cb & fb & Eb & Hb & _)%version_of_parsed.
  unfold Compare. rewrite Ea, Eb.
  rewrite (compareSegments_nums _ _ xs ys 0) by
    (done || (rewrite (Forall2_length _ _ _ Ha), (Forall2_length _ _ _ Hb); done)).
  unfold version_compare. simpl. rewrite !drop_0.
  destruct (nums_compare xs ys); simpl; [|done|done]. by rewrite <- pre_compare_code.
Qed.

(** *** Total preorders given by a three-way comparison *)

Record total_preorder {A} (cmp : A -> A -> comparison) : Prop := {
  tp_antisym : forall a b, cmp b a = CompOpp (cmp a b);
  tp_trans : forall a b c, cmp a b <> Gt -> cmp b c <> Gt -> cmp a c <> Gt;
}.
Arguments tp_antisym {A cmp} _ a b.
Arguments tp_trans {A cmp} _ a b c.

Section preorder.
Context {A : Type} {cmp : A -> A -> comparison} (T : total_preorder cmp).

Lemma tp_eq_sym a b : cmp a b = Eq -> cmp b a = Eq.
Proof. intros H. by rewrite (tp_antisym T), H. Qed.

(** Equivalent elements compare alike. *)
Lemma tp_eq_l a b c : cmp a b = Eq -> cmp a c = cmp b c.
Proof.
  intros H. pose proof (tp_eq_sym _ _ H) as H'.
  pose proof (tp_trans T a b c) as H1. pose proof (tp_trans T b a c) as H2.
  pose proof (tp_trans T c b a) as H3. pose proof (tp_trans T c a b) as H4.
  rewrite (tp_antisym T a c) in H3, H4. rewrite (tp_antisym T b c) in H3, H4.
  rewrite H in *. rewrite H' in *.
  destruct (cmp a c), (cmp b c); simpl in *; try done; exfalso;
    first [by apply H1|by apply H2|by apply H3|by apply H4].
Qed.

Lemma tp_lt_le a b c : cmp a b = Lt -> cmp b c <> Gt -> cmp a c = Lt.
Proof.
  intros H1 H2. destruct (cmp a c) eqn:E; [|done|].
  - rewrite <- (tp_eq_l c a b) in H1 by by apply tp_eq_sym.
    by rewrite (tp_antisym T), H1 in H2.
  - exfalso. revert E. apply (tp_trans T a b c); [by rewrite H1|done].
Qed.

Lemma tp_le_lt a b c : cmp a b <> Gt -> cmp b c = Lt -> cmp a c = Lt.
Proof.
  intros H1 H2. destruct (cmp a c) eqn:E; [|done|].
  - apply (tp_eq_l a c b) in E. rewrite E, (tp_antisym T), H2 in H1. done.
  - exfalso. revert E. apply (tp_trans T a b c); [done|by rewrite H2].
Qed.
End preorder.

(** Comparing by a first key and then by a second. *)
Lemma lex_total_preorder {A B} (f : A -> A -> comparison) (g : B -> B -> comparison) :
  total_preorder f -> total_preorder g ->
  total_preorder (fun v w : A * B => match f v.1 w.1 with Eq => g v.2 w.2 | c => c end).
Proof.
  intros F G. split.
  - intros [a p] [b q]; simpl. rewrite (tp_antisym F a b), (tp_antisym G p q).
    by destruct (f a b).
  - intros [a p] [b q] [c r]; simpl. destruct (f a b) eqn:E; [| |done].
    + rewrite (tp_eq_l F _ _ c E). destruct (f b c); [apply (tp_trans G)|done|done].
    + intros _ H. rewrite (tp_lt_le F a b c E); [done|]. by destruct (f b c).
Qed.

(** *** The two keys of a version *)

(** A segment that is absent counts as zero. *)
Definition at_ (xs : list Z) (i : nat) : Z := default 0%Z (xs !! i).

Lemma nums_compare_step xs ys :
  nums_compare xs ys
  = match (at_ xs 0 ?= at_ ys 0)%Z with Eq => nums_compare (tail xs) (tail ys) | c => c end.
Proof. by destruct xs, ys. Qed.

Lemma length_tail (xs : list Z) : length (tail xs) = length xs - 1.
Proof. destruct xs; simpl; lia. Qed.

Lemma nums_total_preorder : total_preorder nums_compare.
Proof.
  split.
  - intros xs ys. remember (length xs `max` length ys) as n eqn:Hn.
    assert (length xs `max` length ys <= n) as Hle by lia. clear Hn. revert xs ys Hle.
    induction n as [|n IH]; intros xs ys Hn.
    + destruct xs, ys; simpl in Hn; [done|lia..].
    + rewrite (nums_compare_step xs), (nums_compare_step ys), (Z.compare_antisym (at_ xs 0)).
      destruct (_ ?= _)%Z; simpl; [|done|done]. apply IH.
      rewrite !length_tail. lia.
  - intros xs ys zs. remember ((length xs `max` length ys) `max` length zs) as n eqn:Hn.
    assert ((length xs `max` length ys) `max` length zs <= n) as Hle by lia.
    clear Hn. revert xs ys zs Hle.
    induction n as [|n IH]; intros xs ys zs Hn.
    + destruct xs, ys, zs; simpl in Hn; try lia; done.
    + rewrite (nums_compare_step xs ys), (nums_compare_step ys zs), (nums_compare_step xs zs).
      specialize (IH (tail xs) (tail ys) (tail zs)). rewrite !length_tail in IH.
      destruct (Z.compare_spec (at_ xs 0) (at_ ys 0)), (Z.compare_spec (at_ ys 0) (at_ zs 0)),
        (Z.compare_spec (at_ xs 0) (at_ zs 0)); try done; try lia. apply IH. lia.
Qed.

Lemma string_compare_not_gt a b : String.compare a b <> Gt <-> ~ str_lt b a.
Proof. unfold str_lt. rewrite (String.compare_antisym a b). by destruct (String.compare b a). Qed.

Lemma string_compare_total_preorder : total_preorder String.compare.
Proof.
  split; [intros a b; apply String.compare_antisym|]. intros a b c.
  rewrite !string_compare_not_gt. intros H1 H2 H3. str_order.
Qed.

Lemma pre_total_preorder : total_preorder pre_compare.
Proof.
  pose proof string_compare_total_preorder as S. split.
  - intros p q. unfold pre_compare. repeat case_decide; try done. apply (tp_antisym S).
  - intros p q r. unfold pre_compare. repeat case_decide; try done. apply (tp_trans S).
Qed.

Lemma version_total_preorder : total_preorder version_compare.
Proof. apply lex_total_preorder; [apply nums_total_preorder|apply pre_total_preorder]. Qed.

(** ** Theorems *)

Lemma compareNumericSegment_opp a b :
  compareNumericSegment b a = (- compareNumericSegment a b)%Z.
Proof.
  unfold compareNumericSegment.
  destruct (atoi a) as [x|], (atoi b) as [y|]; try apply str_compare_opp.
  repeat case_match; lia.
Qed.

Lemma compareSegments_opp aSegs bSegs i left :
  compareSegments bSegs aSegs i left = (- compareSegments aSegs bSegs i left)%Z.
Proof.
  revert i. induction left as [|n IH]; intros i; simpl; [done|].
  rewrite (compareNumericSegment_opp (segmentAt aSegs i)).
  repeat case_decide; try lia. apply IH.
Qed.

Lemma Compare_opp a b : Compare b a = (- Compare a b)%Z.
Proof.
  unfold Compare. destruct (cut3 a "-") as [[ca pa] fa], (cut3 b "-") as [[cb pb] fb].
  rewrite (Nat.max_comm (length (split cb _))), (compareSegments_opp (split ca "."%char)).
  rewrite (str_compare_opp pa pb).
  repeat case_decide; try lia; tauto.
Qed.

Lemma sign_le c : (sign c <= 0)%Z <-> c <> Gt.
Proof. by destruct c. Qed.

(** On versions whose core segments are decimal numbers below 2^63 the
    comparison the registry uses is the numeric reference order: the cores
    compare as numbers position by position, an absent segment counting as
    zero, and on equal cores a release outranks a pre-release. *)
Theorem compare_is_version_order a b v w :
  version_of a = Some v -> version_of b = Some w ->
  Compare a b = sign (version_compare v w).
Proof. apply Compare_versions. Qed.

Lemma compare_is_version_order_witness :
  Compare "1.9.0" "1.10.0-rc1" = (-1)%Z.
Proof.
  exact (compare_is_version_order "1.9.0" "1.10.0-rc1"
           ([1; 9; 0]%Z, "") ([1; 10; 0]%Z, "rc1") eq_refl eq_refl).
Defined.

(** Choosing a newest version is meaningful: the comparison of any two
    texts is antisymmetric, and on versions with numeric cores it is
    transitive, so that they are totally preordered. *)
Theorem compare_total_preorder a b c :
  Compare b a = (- Compare a b)%Z
  /\ (is_Some (version_of a) -> is_Some (version_of b) -> is_Some (version_of c) ->
      (Compare a b <= 0)%Z -> (Compare b c <= 0)%Z -> (Compare a c <= 0)%Z).
Proof.
  split; [apply Compare_opp|]. intros [v Hv] [w Hw] [u Hu].
  rewrite (Compare_versions a b v w), (Compare_versions b c w u), (Compare_versions a c v u)
    by done.
  rewrite !sign_le. apply (tp_trans version_total_preorder).
Qed.

Lemma compare_total_preorder_witness :
  (Compare "1.2" "1.10-a" <= 0 /\ Compare "1.10-a" "1.10" <= 0 /\ Compare "1.2" "1.10" <= 0)%Z.
Proof.
  split; [done|]. split; [done|].
  apply (proj2 (compare_total_preorder "1.2" "1.10-a" "1.10")); done.
Defined.

(** Outside those versions it is not an order: three texts that each sort
    before the next in a circle. *)
Theorem compare_not_transitive :
  Compare "2" "10" = (-1)%Z /\ Compare "10" "1a" = (-1)%Z /\ Compare "1a" "2" = (-1)%Z.
Proof. done. Qed.

(** Build metadata is ordered: it makes its segment a text. *)
Theorem compare_orders_build_metadata :
  Compare "1.0.0+a" "1.0.0+b" = (-1)%Z /\ Compare "1.0.9" "1.0.10+b" = 1%Z.
Proof. done. Qed.

(** Numbered pre-releases compare as text: the tenth sorts before the second. *)
Theorem compare_prerelease_is_text : Compare "1.0.0-rc.10" "1.0.0-rc.2" = (-1)%Z.
Proof. done. Qed.

(** A segment of 2^63 or more wraps around: it can equal a small one. *)
Theorem compare_wraps : Compare "18446744073709551617" "1" = 0%Z.
Proof. done. Qed.
End Semver.
