(* ===== verification/Access.v ===== *)
(** * The access engine: [core/access/access.go] and [core/access/path.go]

    Named policies of path rules, bound to identities; the most specific
    matching rule decides and a deny beats every grant at that specificity.
    The engine is immutable, so every operation is a pure function.

    - [match_path], [beats]: the pattern language and its specificity order;
    - [New]: compilation of policies and bindings, with its error values;
    - [Explain], [Allowed], [MayReach]: the questions the server asks.

    Lengths and counts of string bytes are [nat]: they are bounded by the
    length of a pattern held in memory and never come near the width of a Go
    [int]. *)

From S2P Require Import Prelude.

(** ** Path patterns *)

(** [specificity] orders competing patterns. *)
Record specificity := Specificity {
  exact : bool;
  pluses : nat;
  literal : nat;
  segments : nat;
}.

#[export] Instance specificity_eq_dec : EqDecision specificity.
Proof. solve_decision. Defined.

(** [specificity.beats]. *)
Definition beats (s other : specificity) : bool :=
  if decide (exact s <> exact other) then exact s
  else if decide (pluses s <> pluses other) then (pluses s <? pluses other)%nat
  else if decide (literal s <> literal other) then (literal other <? literal s)%nat
  else (segments other <? segments s)%nat.

Definition add_plus (s : specificity) : specificity :=
  Specificity (exact s) (S (pluses s)) (literal s) (segments s).

Definition add_literal (s : specificity) (n : nat) : specificity :=
  Specificity (exact s) (pluses s) (literal s + n) (segments s).

(** The loop of [match]: pattern and path segments are consumed in step, so
    [i >= len(pathSegs)] is "no path segment left" and [last] is "no pattern
    segment after this one". *)
Fixpoint match_segments (trailing : bool) (pats paths : list string)
    (score : specificity) : option specificity :=
  match pats with
  | [] => Some score
  | segment :: pats' =>
      let last := bool_decide (pats' = []) in
      if decide (segment = "+") then
        match paths with
        | [] => None
        | _ :: paths' => match_segments trailing pats' paths' (add_plus score)
        end
      else
        match paths with
        | [] =>
            if trailing && last && bool_decide (segment = "")
            then match_segments trailing pats' [] score
            else None
        | p :: paths' =>
            if last && trailing then
              if has_prefix p segment
              then match_segments trailing pats' paths'
                     (add_literal score (String.length segment))
              else None
            else if decide (p = segment)
              then match_segments trailing pats' paths'
                     (add_literal score (String.length segment))
              else None
        end
  end.

(** [match]: whether a pattern matches a path, and how specifically. *)
Definition match_path (pattern path : string) : option specificity :=
  let '(prefix, trailing) := cut_suffix pattern "*" in
  let score :=
    Specificity (negb trailing && negb (contains_char pattern "+"%char)) 0 0
                (count_char prefix "/"%char) in
  let patternSegs := split prefix "/"%char in
  let pathSegs := split path "/"%char in
  let limit := length patternSegs in
  if negb trailing && negb (length patternSegs =? length pathSegs)%nat then None
  else if trailing && (length pathSegs <? limit)%nat && (length pathSegs <? limit - 1)%nat
  then None
  else match_segments trailing patternSegs pathSegs score.

(** ** Policies, bindings and identities *)

(** A [Capability] is a string; an unknown one is refused by [New]. *)
Abbreviation Capability := string (only parsing).
Definition CapRead : Capability := "read".
Definition CapList : Capability := "list".
Definition CapPublish : Capability := "publish".
Definition CapCreate : Capability := "create".
Definition CapUpdate : Capability := "update".
Definition CapDelete : Capability := "delete".
Definition CapDeny : Capability := "deny".

(** [KnownCapabilities]. *)
Definition KnownCapabilities : list Capability :=
  [CapRead; CapList; CapPublish; CapCreate; CapUpdate; CapDelete; CapDeny].

(** [Capability.Known]. *)
Definition Known (c : Capability) : bool :=
  bool_decide (c = CapRead) || bool_decide (c = CapList) ||
  bool_decide (c = CapPublish) || bool_decide (c = CapCreate) ||
  bool_decide (c = CapUpdate) || bool_decide (c = CapDelete) ||
  bool_decide (c = CapDeny).

(** [Capabilities.String]. *)
Definition capabilities_string (c : list Capability) : string :=
  join (sort_strings c) ", ".

(** [Capabilities.Has]. *)
Fixpoint Has (c : list Capability) (want : Capability) : bool :=
  match c with
  | [] => false
  | capability :: c' => if decide (capability = want) then true else Has c' want
  end.

Record Rule := mkRule {
  rule_path : string;
  rule_capabilities : list Capability;
  rule_policy : string;
}.

Record Policy := mkPolicy {
  policy_name : string;
  policy_rules : list Rule;
}.

Record Match := mkMatch {
  m_kind : string;
  m_issuer : string;
  m_subject : string;
  m_project_path : string;
  m_ref : string;
  m_authenticated : bool;
}.

Record Binding := mkBinding {
  binding_name : string;
  binding_policies : list string;
  binding_match : Match;
}.

Record Identity := mkIdentity {
  id_kind : string;
  id_subject : string;
  id_issuer : string;
  id_project_path : string;
  id_ref : string;
}.

(** [Identity.IsAnonymous]. *)
Definition IsAnonymous (id : Identity) : bool :=
  bool_decide (id_kind id = "anonymous") || bool_decide (id_kind id = "").

(** [Identity.String]. *)
Definition identity_string (id : Identity) : string :=
  id_kind id +:+ ":" +:+ id_subject id.

(** [glob]: a trailing star, or exact. *)
Definition glob (pattern value : string) : bool :=
  match cut_suffix pattern "*" with
  | (prefix, true) => has_prefix value prefix
  | (_, false) => bool_decide (pattern = value)
  end.

(** [Match.matches]. *)
Definition matches (m : Match) (id : Identity) : bool :=
  if m_authenticated m && IsAnonymous id then false
  else forallb (fun pair => bool_decide (pair.1 = "") || glob pair.1 pair.2)
         [(m_kind m, id_kind id); (m_issuer m, id_issuer id);
          (m_subject m, id_subject id);
          (m_project_path m, id_project_path id); (m_ref m, id_ref id)].

(** [Engine]. *)
Record Engine := mkEngine {
  policies : gmap string Policy;
  bindings : list Binding;
}.

(** ** Compilation *)

(** The errors [New] and [validRule] return, with the data their messages
    carry. *)
Inductive new_error :=
| PolicyWithoutName
| PolicyTwice (name : string)
| RuleWithoutPath (policy : string) (i : nat)
| StarNotAtEnd (policy : string) (i : nat) (path : string)
| RuleGrantsNothing (policy : string) (i : nat)
| NotACapability (policy : string) (i : nat) (c : string)
| BindingWithoutPolicies (i : nat)
| BindingUnknownPolicy (i : nat) (name : string).

(** The capability loop of [validRule]. *)
Fixpoint validCapabilities (policy : string) (i : nat) (cs : list Capability)
    : result new_error unit :=
  match cs with
  | [] => Ok tt
  | c :: cs' => if Known c then validCapabilities policy i cs'
                else Err (NotACapability policy i c)
  end.

(** [validRule]. *)
Definition validRule (policy : string) (i : nat) (r : Rule) : result new_error unit :=
  if decide (rule_path r = "") then Err (RuleWithoutPath policy i)
  else if contains_char (trim_suffix (rule_path r) "*") "*"%char
  then Err (StarNotAtEnd policy i (rule_path r))
  else if decide (rule_capabilities r = []) then Err (RuleGrantsNothing policy i)
  else validCapabilities policy i (rule_capabilities r).

(** The rule loop of [New]: each rule is stamped with its policy's name and
    validated. *)
Fixpoint compileRules (name : string) (i : nat) (rs : list Rule)
    : result new_error (list Rule) :=
  match rs with
  | [] => Ok []
  | r :: rs' =>
      let r' := mkRule (rule_path r) (rule_capabilities r) name in
      let? _ := validRule name i r' in
      let? rest := compileRules name (S i) rs' in
      Ok (r' :: rest)
  end.

(** The policy loop of [New]. *)
Fixpoint compilePolicies (ps : list Policy) (byName : gmap string Policy)
    : result new_error (gmap string Policy) :=
  match ps with
  | [] => Ok byName
  | p :: ps' =>
      if decide (policy_name p = "") then Err PolicyWithoutName
      else match byName !! policy_name p with
           | Some _ => Err (PolicyTwice (policy_name p))
           | None =>
               let? rules := compileRules (policy_name p) 0 (policy_rules p) in
               compilePolicies ps'
                 (<[policy_name p := mkPolicy (policy_name p) rules]> byName)
           end
  end.

(** The policy-name loop over one binding. *)
Fixpoint checkNames (i : nat) (names : list string) (byName : gmap string Policy)
    : result new_error unit :=
  match names with
  | [] => Ok tt
  | name :: names' =>
      match byName !! name with
      | None => Err (BindingUnknownPolicy i name)
      | Some _ => checkNames i names' byName
      end
  end.

(** The binding loop of [New]. *)
Fixpoint checkBindings (i : nat) (bs : list Binding) (byName : gmap string Policy)
    : result new_error unit :=
  match bs with
  | [] => Ok tt
  | b :: bs' =>
      if decide (binding_policies b = []) then Err (BindingWithoutPolicies i)
      else let? _ := checkNames i (binding_policies b) byName in
           checkBindings (S i) bs' byName
  end.

(** [New]. *)
Definition New (ps : list Policy) (bs : list Binding) : result new_error Engine :=
  let? byName := compilePolicies ps ∅ in
  let? _ := checkBindings 0 bs byName in
  Ok (mkEngine byName bs).

(** ** Decisions *)

(** Appending the values not seen yet: the [seen] map of the source holds
    exactly the values already appended. *)
Definition append_unseen (acc : list string) (xs : list string) : list string :=
  foldl (fun acc x => if decide (x ∈ acc) then acc else acc ++ [x]) acc xs.

(** [Engine.boundVia]: policies bound to an identity, and the bindings that
    bound them. *)
Definition boundVia (e : Engine) (id : Identity) : list string * list string :=
  foldl (fun acc b =>
           if matches (binding_match b) id then
             (append_unseen acc.1 (binding_policies b),
              if decide (binding_name b = "") then acc.2
              else acc.2 ++ [binding_name b])
           else acc)
        ([], []) (bindings e).

(** [Engine.PoliciesFor]. *)
Definition PoliciesFor (e : Engine) (id : Identity) : list string := (boundVia e id).1.

Record Decision := mkDecision {
  d_allowed : bool;
  d_policies : list string;
  d_bindings : list string;
  d_rule : string;
  d_policy : string;
  d_capabilities : list Capability;
  d_reason : string;
}.

(** [e.policies[name].Rules]: a missing key reads as the empty policy. *)
Definition rules_of (e : Engine) (name : string) : list Rule :=
  match policies e !! name with
  | Some p => policy_rules p
  | None => []
  end.

(** One iteration of the selection loop of [Explain]. *)
Definition select (path : string) (acc : list Rule * specificity) (rule : Rule)
    : list Rule * specificity :=
  match match_path (rule_path rule) path with
  | None => acc
  | Some score =>
      if bool_decide (acc.1 = []) || beats score acc.2 then ([rule], score)
      else if decide (score = acc.2) then (acc.1 ++ [rule], acc.2)
      else acc
  end.

(** The rules bound to an identity, in the order [Explain] visits them. *)
Definition candidates (e : Engine) (id : Identity) : list Rule :=
  mjoin (rules_of e <$> PoliciesFor e id).

(** The two nested loops of [Explain]. *)
Definition best_rules (path : string) (rules : list Rule) : list Rule * specificity :=
  foldl (select path) ([], Specificity false 0 0 0) rules.

(** The first rule of [best] carrying a capability names the decision. *)
Fixpoint first_with (cap : Capability) (rs : list Rule) : option Rule :=
  match rs with
  | [] => None
  | r :: rs' => if Has (rule_capabilities r) cap then Some r else first_with cap rs'
  end.

Definition attribution (cap : Capability) (best : list Rule) : string * string :=
  match first_with cap best, best with
  | Some r, _ => (rule_path r, rule_policy r)
  | None, r :: _ => (rule_path r, rule_policy r)
  | None, [] => ("", "")
  end.

(** [Engine.Explain]. *)
Definition Explain (e : Engine) (id : Identity) (path : string) (want : Capability)
    : Decision :=
  let '(names, via) := boundVia e id in
  let best := (best_rules path (mjoin (rules_of e <$> names))).1 in
  match best with
  | [] =>
      mkDecision false names via "" "" []
        (if decide (names = []) then "no policy is bound to " +:+ identity_string id
         else "no policy grants anything on " +:+ path)
  | first :: _ =>
      let effective :=
        foldl (fun acc r => append_unseen acc (rule_capabilities r)) [] best in
      if Has effective CapDeny then
        let '(rule, policy) := attribution CapDeny best in
        mkDecision false names via rule policy effective
          ("policy " +:+ policy +:+ " denies " +:+ rule)
      else if Has effective want then
        let '(rule, policy) := attribution want best in
        mkDecision true names via rule policy effective
          ("policy " +:+ policy +:+ " grants " +:+ want +:+ " on " +:+ rule)
      else
        mkDecision false names via (rule_path first) (rule_policy first) effective
          ("policy " +:+ rule_policy first +:+ " grants " +:+
           capabilities_string effective +:+ " on " +:+ rule_path first +:+
           ", which does not include " +:+ want)
  end.

(** [Engine.Allowed]. *)
Definition Allowed (e : Engine) (id : Identity) (path : string) (want : Capability)
    : bool := d_allowed (Explain e id path want).

(** [Engine.MayReach]: the early gate before a body is read. *)
Definition MayReach (e : Engine) (id : Identity) (prefix : string) (want : Capability)
    : bool :=
  existsb (fun rule =>
             if negb (Has (rule_capabilities rule) want) then false
             else let literal := trim_suffix (rule_path rule) "*" in
                  has_prefix literal prefix || has_prefix prefix literal)
          (candidates e id).

(** ** The specificity order *)

Lemma beats_irrefl s : beats s s = false.
Proof. unfold beats. repeat case_decide; try done. by apply Nat.ltb_irrefl. Qed.

Lemma beats_total s t : s <> t -> beats s t = true \/ beats t s = true.
Proof.
  destruct s as [e1 p1 l1 s1], t as [e2 p2 l2 s2]. unfold beats; simpl. intros Hne.
  repeat case_decide; try congruence; rewrite ?Nat.ltb_lt; try lia.
  - destruct e1, e2; naive_solver.
  - assert (Hee : e1 = e2) by (destruct e1, e2; naive_solver).
    assert (p1 = p2) by lia. assert (l1 = l2) by lia.
    destruct (decide (s1 = s2)); [|lia]. congruence.
Qed.

Lemma beats_trans s t u : beats s t = true -> beats t u = true -> beats s u = true.
Proof.
  destruct s as [e1 p1 l1 s1], t as [e2 p2 l2 s2], u as [e3 p3 l3 s3].
  unfold beats; simpl.
  destruct e1, e2, e3; simpl; repeat case_decide; intros;
    rewrite ?Nat.ltb_lt in *; first [done|lia|congruence|exfalso; naive_solver].
Qed.

Lemma beats_asym s t : beats s t = true -> beats t s = false.
Proof.
  intros H. destruct (beats t s) eqn:E; [|done].
  pose proof (beats_trans _ _ _ H E) as Hc. by rewrite beats_irrefl in Hc.
Qed.

(** What does not beat [t] does not beat anything above [t] either. *)
Lemma beats_bound s t u : beats u t = false -> beats s t = true -> beats u s = false.
Proof.
  intros Hut Hst. destruct (beats u s) eqn:E; [|done].
  by rewrite (beats_trans _ _ _ E Hst) in Hut.
Qed.

(** ** Sets of capabilities and rules *)

Lemma Has_elem c w : Has c w = true <-> w ∈ c.
Proof.
  induction c as [|x c IH]; simpl; [set_solver|].
  case_decide; subst; set_solver.
Qed.

Lemma append_unseen_elem x acc xs : x ∈ append_unseen acc xs <-> x ∈ acc \/ x ∈ xs.
Proof.
  unfold append_unseen. revert acc.
  induction xs as [|y xs IH]; intros acc; simpl; [set_solver|].
  rewrite IH. case_decide; set_solver.
Qed.

Lemma append_unseen_NoDup acc xs : NoDup acc -> NoDup (append_unseen acc xs).
Proof.
  unfold append_unseen. revert acc.
  induction xs as [|y xs IH]; intros acc Hnd; simpl; [done|]. apply IH.
  case_decide; [done|]. apply NoDup_app. set_solver by eauto using NoDup_singleton.
Qed.

Lemma effective_elem c acc (best : list Rule) :
  c ∈ foldl (fun acc r => append_unseen acc (rule_capabilities r)) acc best <->
  c ∈ acc \/ exists r, r ∈ best /\ c ∈ rule_capabilities r.
Proof.
  revert acc. induction best as [|r best IH]; intros acc; simpl; [set_solver|].
  rewrite IH, append_unseen_elem. set_solver.
Qed.

(** ** What [Explain] is for: the most specific rules decide *)

(** The rules of a list that match a path and that no matching rule beats. *)
Definition most_specific (path : string) (rules : list Rule) (r : Rule) : Prop :=
  r ∈ rules /\
  exists s, match_path (rule_path r) path = Some s /\
    forall r' s', r' ∈ rules -> match_path (rule_path r') path = Some s' ->
    beats s' s = false.

(** The specification of a decision: some most specific rule grants the
    capability and none of them denies. *)
Definition granted (e : Engine) (id : Identity) (path : string) (want : Capability)
    : Prop :=
  (exists r, most_specific path (candidates e id) r /\ want ∈ rule_capabilities r) /\
  (forall r, most_specific path (candidates e id) r -> CapDeny ∉ rule_capabilities r).

(** State of the selection loop after visiting [rules]. *)
Definition selected (path : string) (rules : list Rule) (st : list Rule * specificity)
    : Prop :=
  (st.1 = [] /\ forall r, r ∈ rules -> match_path (rule_path r) path = None) \/
  (st.1 <> [] /\
   (forall r, r ∈ st.1 <-> r ∈ rules /\ match_path (rule_path r) path = Some st.2) /\
   (forall r s, r ∈ rules -> match_path (rule_path r) path = Some s ->
      beats s st.2 = false)).

Lemma select_selected path rules st r :
  selected path rules st -> selected path (rules ++ [r]) (select path st r).
Proof.
  unfold select. destruct st as [best sc]. intros Hsel.
  unfold selected in Hsel. simpl in *.
  destruct (match_path (rule_path r) path) as [s|] eqn:Em.
  - destruct Hsel as [[-> Hnone]|(Hne & Hin & Hmax)].
    + right; simpl. split_and!; [done| |].
      * intros r'. rewrite list_elem_of_singleton, elem_of_app, list_elem_of_singleton.
        split; [naive_solver|]. intros [[Hr| ->] Hm]; [|done].
        by rewrite (Hnone _ Hr) in Hm.
      * intros r' s' [Hr| ->%list_elem_of_singleton]%elem_of_app Hm.
        -- by rewrite (Hnone _ Hr) in Hm.
        -- rewrite Em in Hm. simplify_eq. apply beats_irrefl.
    + rewrite bool_decide_false by done. simpl.
      destruct (beats s sc) eqn:Eb; [|case_decide as Hs].
      * right; simpl. split_and!; [done| |].
        -- intros r'. rewrite list_elem_of_singleton, elem_of_app, list_elem_of_singleton.
           split; [naive_solver|]. intros [[Hr| ->] Hm]; [|done].
           pose proof (Hmax _ _ Hr Hm). congruence.
        -- intros r' s' [Hr| ->%list_elem_of_singleton]%elem_of_app Hm.
           ++ eauto using beats_bound.
           ++ rewrite Em in Hm. simplify_eq. apply beats_irrefl.
      * subst. right; simpl. split_and!; [by destruct best| |].
        -- intros r'. rewrite !elem_of_app, !list_elem_of_singleton, Hin. naive_solver.
        -- intros r' s' [Hr| ->%list_elem_of_singleton]%elem_of_app Hm; [eauto|].
           congruence.
      * right; simpl. split_and!; [done| |].
        -- intros r'. rewrite Hin, elem_of_app, list_elem_of_singleton. naive_solver.
        -- intros r' s' [Hr| ->%list_elem_of_singleton]%elem_of_app Hm; [eauto|].
           congruence.
  - destruct Hsel as [[-> Hnone]|(Hne & Hin & Hmax)]; [left|right]; simpl.
    + split; [done|]. set_solver.
    + split_and!; [done| |]; set_solver.
Qed.

Lemma best_rules_selected path rules : selected path rules (best_rules path rules).
Proof.
  unfold best_rules. induction rules as [|r rules IH] using rev_ind.
  - left. simpl. set_solver.
  - rewrite foldl_app. by apply select_selected.
Qed.

Lemma best_rules_elem path rules r :
  r ∈ (best_rules path rules).1 <-> most_specific path rules r.
Proof.
  destruct (best_rules path rules) as [best sc] eqn:E.
  pose proof (best_rules_selected path rules) as H. rewrite E in H.
  destruct H as [[Hb Hnone]|(Hne & Hin & Hmax)]; simpl in *; subst.
  - unfold most_specific. split; [set_solver|].
    intros (Hr & s & Hs & _). by rewrite (Hnone _ Hr) in Hs.
  - rewrite Hin. unfold most_specific. split.
    + intros [Hr Hs]. naive_solver.
    + intros (Hr & s & Hs & Hm). split; [done|]. rewrite Hs. f_equal.
      destruct (decide (s = sc)) as [|Hd]; [done|]. exfalso.
      destruct (beats_total _ _ Hd) as [Hb|Hb].
      * by rewrite (Hmax _ _ Hr Hs) in Hb.
      * destruct best as [|b best]; [done|].
        destruct (proj1 (Hin b)) as [Hb1 Hb2]; [set_solver|].
        by rewrite (Hm _ _ Hb1 Hb2) in Hb.
Qed.

Lemma effective_granted c path e id :
  let best := (best_rules path (candidates e id)).1 in
  Has (foldl (fun acc r => append_unseen acc (rule_capabilities r)) [] best) c = true <->
  exists r, most_specific path (candidates e id) r /\ c ∈ rule_capabilities r.
Proof.
  simpl. rewrite Has_elem, effective_elem.
  setoid_rewrite best_rules_elem. set_solver.
Qed.

(** The rule an explanation names is one of the most specific ones and carries
    the capability it is named for. *)
Lemma first_with_Some cap rs r :
  first_with cap rs = Some r -> r ∈ rs /\ cap ∈ rule_capabilities r.
Proof.
  induction rs as [|x rs IH]; simpl; [done|].
  destruct (Has (rule_capabilities x) cap) eqn:E.
  - intros [= <-]. apply Has_elem in E. set_solver.
  - intros H. apply IH in H. set_solver.
Qed.

Lemma first_with_exists cap rs :
  (exists r, r ∈ rs /\ cap ∈ rule_capabilities r) -> is_Some (first_with cap rs).
Proof.
  induction rs as [|x rs IH]; simpl; [set_solver|].
  intros (r & [-> |Hr]%elem_of_cons & Hc).
  - apply Has_elem in Hc. rewrite Hc. eauto.
  - destruct (Has _ _); eauto.
Qed.

(** The three outcomes of [Explain] once the best rules are known. *)
Lemma Explain_cases e id path want (d := Explain e id path want) :
  ((forall r, ~ most_specific path (candidates e id) r) /\ d_allowed d = false /\
   d_capabilities d = []) \/
  ((exists r, most_specific path (candidates e id) r /\ CapDeny ∈ rule_capabilities r /\
      d_rule d = rule_path r /\ d_policy d = rule_policy r) /\ d_allowed d = false) \/
  ((forall r, most_specific path (candidates e id) r -> CapDeny ∉ rule_capabilities r) /\
   (exists r, most_specific path (candidates e id) r /\ want ∈ rule_capabilities r /\
      d_rule d = rule_path r /\ d_policy d = rule_policy r) /\ d_allowed d = true) \/
  ((forall r, most_specific path (candidates e id) r -> want ∉ rule_capabilities r) /\
   d_allowed d = false).
Proof.
  pose proof (effective_granted CapDeny path e id) as Hdeny.
  pose proof (effective_granted want path e id) as Hwant.
  pose proof (best_rules_elem path (candidates e id)) as Hbest.
  subst d. unfold Explain. destruct (boundVia e id) as [names via] eqn:E.
  replace (mjoin (rules_of e <$> names)) with (candidates e id)
    by (unfold candidates, PoliciesFor; by rewrite E).
  simpl in *. destruct (best_rules path (candidates e id)) as [[|r0 best] sc]; simpl in *.
  { left. split; [|done]. intros r Hr%Hbest. set_solver. }
  set (eff := foldl _ _ _) in *. destruct (Has eff CapDeny) eqn:Ed; [|destruct (Has eff want) eqn:Ew].
  - right; left. destruct (proj1 Hdeny eq_refl) as (r & Hr%Hbest & Hc).
    destruct (first_with_exists CapDeny (r0 :: best)) as [r' Hr']; [eauto|].
    unfold attribution. rewrite Hr'. apply first_with_Some in Hr' as [Hin Hcap].
    simpl. split; [|done]. exists r'. rewrite <- Hbest. eauto.
  - right; right; left. destruct (proj1 Hwant eq_refl) as (r & Hr%Hbest & Hc).
    destruct (first_with_exists want (r0 :: best)) as [r' Hr']; [eauto|].
    unfold attribution. rewrite Hr'. apply first_with_Some in Hr' as [Hin Hcap].
    simpl. split_and!; [|exists r'; rewrite <- Hbest; eauto|done].
    intros r1 Hr1 Hd. assert (false = true) by (apply Hdeny; eauto). done.
  - right; right; right. split; [|done]. intros r Hr Hc.
    assert (false = true) by (apply Hwant; eauto). done.
Qed.

(** ** The pattern language, declaratively *)

(** What a pattern's segments match: literal segments match themselves, a
    plus matches one segment, and with a trailing star the last segment is a
    prefix of the path's and everything after it is free; an empty last
    segment also matches a path that stops right before it. *)
Inductive segs_match : bool -> list string -> list string -> Prop :=
| sm_end : segs_match false [] []
| sm_plus t q ps qs :
    (t = true -> ps <> []) -> segs_match t ps qs -> segs_match t ("+" :: ps) (q :: qs)
| sm_literal t q ps qs :
    q <> "+" -> (t = true -> ps <> []) ->
    segs_match t ps qs -> segs_match t (q :: ps) (q :: qs)
| sm_star_plus q qs : segs_match true ["+"] (q :: qs)
| sm_star_prefix p q qs :
    p <> "+" -> has_prefix q p = true -> segs_match true [p] (q :: qs)
| sm_star_stop : segs_match true [""] [].

#[export] Hint Constructors segs_match : fondaco.

Lemma match_segments_exact ps qs sc :
  (exists s, match_segments false ps qs sc = Some s /\ length ps = length qs) <->
  segs_match false ps qs.
Proof.
  revert qs sc. induction ps as [|p ps IH]; intros qs sc; simpl.
  { split; [|inversion 1; eauto]. intros (s & _ & Hl). destruct qs; [constructor|done]. }
  case_decide as Hp; [subst|]; destruct qs as [|q qs]; simpl; try rewrite andb_false_r.
  - split; [naive_solver|inversion 1].
  - split.
    + intros (s & Hs & Hl). constructor; [done|]. apply (IH _ (add_plus sc)). naive_solver.
    + inversion 1; subst; [|done]. destruct (proj2 (IH qs (add_plus sc))) as (s & ? & ?); eauto.
  - split; [naive_solver|inversion 1].
  - case_decide as Hq; [subst|].
    + split.
      * intros (s & Hs & Hl). constructor; [done|done|].
        apply (IH _ (add_literal sc (String.length p))). naive_solver.
      * inversion 1; subst; [done|].
        destruct (proj2 (IH qs (add_literal sc (String.length p)))) as (s & ? & ?); eauto.
    + split; [naive_solver|]. inversion 1; congruence.
Qed.

Lemma match_segments_star ps qs sc :
  ps <> [] ->
  (exists s, match_segments true ps qs sc = Some s) <-> segs_match true ps qs.
Proof.
  revert qs sc. induction ps as [|p ps IH]; intros qs sc Hne; [done|]. clear Hne; simpl.
  destruct (decide (ps = [])) as [->|Hps].
  - rewrite bool_decide_true by done. simpl.
    case_decide as Hp; [subst|]; destruct qs as [|q qs]; simpl.
    + split; [naive_solver|inversion 1].
    + split; eauto with fondaco.
    + case_bool_decide; subst; split; eauto with fondaco; [naive_solver|inversion 1; congruence].
    + destruct (has_prefix q p) eqn:Eq; split; eauto with fondaco; [naive_solver|].
      inversion 1; subst; try congruence;
        match goal with H : true = true -> _ |- _ => destruct (H eq_refl) end; done.
  - rewrite bool_decide_false by done. simpl.
    case_decide as Hp; [subst|]; destruct qs as [|q qs]; simpl; try (split; [naive_solver|inversion 1; congruence]).
    + rewrite (IH qs (add_plus sc)) by done. split; eauto with fondaco.
      inversion 1; subst; congruence.
    + case_decide as Hq; [subst|split; [naive_solver|inversion 1; congruence]].
      rewrite (IH qs (add_literal sc (String.length p))) by done. split; eauto with fondaco.
      inversion 1; subst; congruence.
Qed.

Lemma segs_match_length ps qs : segs_match true ps qs -> length ps <= S (length qs).
Proof.
  remember true as t eqn:Ht. induction 1 as [|t q ps qs Hn _ IH|t q ps qs Hq Hn _ IH|q qs|p q qs|];
    subst; simpl; try done; try (specialize (IH eq_refl)); lia.
Qed.

Lemma match_path_segs pattern path prefix trailing :
  cut_suffix pattern "*" = (prefix, trailing) ->
  (exists s, match_path pattern path = Some s) <->
  segs_match trailing (split prefix "/"%char) (split path "/"%char).
Proof.
  intros E. unfold match_path. rewrite E.
  set (ps := split prefix _). set (qs := split path _).
  set (sc := Specificity _ _ _ _). clearbody sc. destruct trailing; simpl.
  - destruct (length qs <? length ps)%nat eqn:E1, (length qs <? length ps - 1)%nat eqn:E2;
      simpl; try (apply match_segments_star, split_nonempty).
    split; [naive_solver|]. intros H%segs_match_length.
    apply Nat.ltb_lt in E2. lia.
  - destruct (length ps =? length qs)%nat eqn:E1; simpl.
    + apply Nat.eqb_eq in E1. rewrite <- (match_segments_exact _ _ sc). naive_solver.
    + apply Nat.eqb_neq in E1. rewrite <- (match_segments_exact _ _ sc). naive_solver.
Qed.

(** A pattern none of whose segments is a plus. *)
Definition plus_free (pattern : string) : Prop :=
  "+" ∉ split (trim_suffix pattern "*") "/"%char.

#[export] Instance plus_free_dec pattern : base.Decision (plus_free pattern).
Proof. unfold plus_free. apply _. Defined.

Lemma segs_match_no_plus_exact t ps qs :
  segs_match t ps qs -> t = false -> "+" ∉ ps -> ps = qs.
Proof.
  induction 1 as [|t q ps qs Hn Hm IH|t q ps qs Hq Hn Hm IH|q qs|p q qs Hpp Hpre|];
    intros Ht Hp; try done.
  - destruct Hp. by left.
  - rewrite not_elem_of_cons in Hp. f_equal. naive_solver.
Qed.

Lemma join_app_last pre x c : pre <> [] ->
  join (pre ++ [x]) c = join pre c +:+ c +:+ x.
Proof.
  induction pre as [|p pre IH]; [done|]. intros _.
  destruct pre as [|p' pre]; [done|].
  rewrite <- app_comm_cons, !join_cons, IH by done. by rewrite !str_app_assoc.
Qed.

Lemma segs_match_no_plus_star t ps qs :
  segs_match t ps qs -> t = true -> "+" ∉ ps ->
  has_prefix (join qs "/") (join ps "/") = true \/ ps = qs ++ [""].
Proof.
  induction 1 as [|t q ps qs Hn Hm IH|t q ps qs Hq Hn Hm IH|q qs|p q qs Hpp Hpre|];
    intros Ht Hp.
  - done.
  - destruct Hp. by left.
  - subst t. specialize (Hn eq_refl). rewrite not_elem_of_cons in Hp. destruct Hp as [_ Hp].
    destruct qs as [|q' qs]; [right; by inversion Hm|].
    destruct (IH eq_refl Hp) as [Hj| ->]; [left|right; done].
    rewrite (join_cons q ps), (join_cons q (q' :: qs)) by done. rewrite has_prefix_spec in Hj |- *. destruct Hj as [r ->].
    exists r. by rewrite !str_app_assoc.
  - destruct Hp. by left.
  - left. simpl. destruct qs; [done|]. by apply has_prefix_app.
  - by right.
Qed.

Lemma match_path_no_plus pattern path s :
  plus_free pattern -> match_path pattern path = Some s ->
  has_prefix path (trim_suffix pattern "*") = true \/
  trim_suffix pattern "*" = path +:+ "/".
Proof.
  unfold plus_free, trim_suffix. intros Hp Hm.
  destruct (cut_suffix pattern "*") as [prefix trailing] eqn:E. simpl in *.
  assert (Hs : segs_match trailing (split prefix "/"%char) (split path "/"%char))
    by (apply (match_path_segs _ _ _ _ E); eauto).
  destruct trailing.
  - destruct (segs_match_no_plus_star _ _ _ Hs eq_refl Hp) as [Hj|Hj].
    + left. by rewrite !join_split in Hj.
    + right. apply (f_equal (fun l => join l "/")) in Hj.
      rewrite join_app_last in Hj by apply split_nonempty.
      by rewrite !join_split in Hj.
  - left. apply segs_match_no_plus_exact, split_inj in Hs; [|done..]. subst.
    rewrite has_prefix_spec. exists "". by rewrite str_app_nil_r.
Qed.

Lemma explain_decides_aux e id path want :
  Allowed e id path want = true <-> granted e id path want.
Proof.
  unfold Allowed, granted.
  destruct (Explain_cases e id path want)
    as [(Hn & -> & _)|[[(r & Hr & Hd & _) ->]|[(Hd & (r & Hr & Hw & _) & ->)|[Hw ->]]]];
    naive_solver.
Qed.

(** ** Theorems *)

(** C3. [Explain] implements its contract: a request is allowed exactly when
    some most specific matching rule among those bound to the identity grants
    the capability and no rule of that specificity denies. *)
Theorem explain_decides e id path want :
  Allowed e id path want = true <-> granted e id path want.
Proof. apply explain_decides_aux. Qed.

(** Nothing is permitted by default: an identity with no bound policy is
    refused everything, whatever the path, and the explanation says so. *)
Theorem explain_default_deny e id path want :
  PoliciesFor e id = [] ->
  d_allowed (Explain e id path want) = false /\
  d_reason (Explain e id path want) = "no policy is bound to " +:+ identity_string id.
Proof.
  unfold PoliciesFor, Explain. destruct (boundVia e id) as [names via].
  simpl. intros ->. done.
Qed.

Definition ci : Identity := mkIdentity "oidc" "ci" "https://idp" "acme/lib" "main".
Definition match_all : Match := mkMatch "" "" "" "" "" false.
Definition only_tokens : Match := mkMatch "token" "" "" "" "" false.
Definition acme_policy (path : string) : Policy :=
  mkPolicy "team" [mkRule path [CapRead; CapPublish] "";
                   mkRule "feed/releases/maven:com.acme.internal:*" [CapDeny] ""].

(** The engine New builds, or an empty one. *)
Definition engine_of (ps : list Policy) (bs : list Binding) : Engine :=
  match New ps bs with Ok e => e | Err _ => mkEngine ∅ [] end.

Lemma explain_default_deny_witness :
  PoliciesFor (engine_of [acme_policy "feed/*"] [mkBinding "b" ["team"] only_tokens]) ci = [] /\
  d_allowed (Explain (engine_of [acme_policy "feed/*"] [mkBinding "b" ["team"] only_tokens])
               ci "feed/releases/x" CapRead) = false.
Proof.
  split; [vm_compute; reflexivity|].
  exact (proj1 (explain_default_deny
    (engine_of [acme_policy "feed/*"] [mkBinding "b" ["team"] only_tokens])
    ci "feed/releases/x" CapRead ltac:(vm_compute; reflexivity))).
Defined.

(** The decision depends on the set of rules bound to the identity and on
    nothing else: engines (or configurations reordered, or with a rule
    repeated) that bind the same rules to it take the same decision. *)
Theorem explain_order_independent e e' id path want :
  (forall r, r ∈ candidates e id <-> r ∈ candidates e' id) ->
  Allowed e id path want = Allowed e' id path want.
Proof.
  intros H.
  assert (Hm : forall r, most_specific path (candidates e id) r <->
                    most_specific path (candidates e' id) r).
  { intros r. unfold most_specific. setoid_rewrite H. done. }
  apply Bool.eq_iff_eq_true. rewrite !explain_decides_aux. unfold granted.
  setoid_rewrite Hm. done.
Qed.

Lemma explain_order_independent_witness :
  Allowed (engine_of [acme_policy "feed/*"; mkPolicy "p" [mkRule "feed/releases/*" [CapRead] ""]]
             [mkBinding "b" ["team"; "p"] match_all]) ci "feed/releases/x" CapPublish =
  Allowed (engine_of [acme_policy "feed/*"; mkPolicy "p" [mkRule "feed/releases/*" [CapRead] ""]]
             [mkBinding "b" ["p"; "team"] match_all]) ci "feed/releases/x" CapPublish.
Proof.
  apply explain_order_independent. intros r.
  match goal with |- _ ∈ ?a <-> _ ∈ ?b =>
    let a' := eval vm_compute in a in let b' := eval vm_compute in b in
    change a with a'; change b with b' end.
  rewrite !elem_of_cons. tauto.
Defined.

(** An allowed decision is accountable: the rule and policy it names are a
    rule bound to the identity that matches the path and carries the wanted
    capability. *)
Theorem explain_attribution e id path want :
  let d := Explain e id path want in
  d_allowed d = true ->
  exists r s, r ∈ candidates e id /\ match_path (rule_path r) path = Some s /\
    want ∈ rule_capabilities r /\ d_rule d = rule_path r /\ d_policy d = rule_policy r.
Proof.
  intros d. subst d.
  destruct (Explain_cases e id path want)
    as [(_ & -> & _)|[[_ ->]|[(_ & (r & (Hr & s & Hs & _) & Hw & Hp & Hq) & _)|[_ ->]]]];
    naive_solver.
Qed.

Lemma explain_attribution_witness :
  exists r s, r ∈ candidates (engine_of [acme_policy "feed/*"] [mkBinding "b" ["team"] match_all]) ci /\
    match_path (rule_path r) "feed/releases/maven:com.acme:lib@1" = Some s /\
    CapPublish ∈ rule_capabilities r /\
    d_rule (Explain (engine_of [acme_policy "feed/*"] [mkBinding "b" ["team"] match_all]) ci
              "feed/releases/maven:com.acme:lib@1" CapPublish) = rule_path r /\
    d_policy (Explain (engine_of [acme_policy "feed/*"] [mkBinding "b" ["team"] match_all]) ci
              "feed/releases/maven:com.acme:lib@1" CapPublish) = rule_policy r.
Proof.
  apply (explain_attribution
    (engine_of [acme_policy "feed/*"] [mkBinding "b" ["team"] match_all]) ci
    "feed/releases/maven:com.acme:lib@1" CapPublish).
  vm_compute; reflexivity.
Defined.

(** The early gate is optimistic for patterns without a plus segment: if
    any path under a prefix would be allowed, [MayReach] does not refuse the
    prefix. *)
Theorem may_reach_optimistic e id prefix rest want :
  (forall r, r ∈ candidates e id -> plus_free (rule_path r)) ->
  Allowed e id (prefix +:+ rest) want = true ->
  MayReach e id prefix want = true.
Proof.
  rewrite explain_decides_aux. intros Hp [(r & (Hr & s & Hs & _) & Hw) _].
  unfold MayReach. apply existsb_exists. exists r.
  split; [by apply list_elem_of_In|]. apply Has_elem in Hw. rewrite Hw. simpl.
  apply orb_true_iff.
  destruct (match_path_no_plus _ _ _ (Hp _ Hr) Hs) as [Hpre| ->].
  - apply or_comm. eapply or_comm, prefixes_comparable; eauto using has_prefix_app_r.
  - left. rewrite <- str_app_assoc. apply has_prefix_app_r.
Qed.

Lemma may_reach_optimistic_witness :
  MayReach (engine_of [acme_policy "feed/releases/maven:com.acme:*"] [mkBinding "b" ["team"] match_all])
    ci "feed/releases" CapPublish = true.
Proof.
  apply (may_reach_optimistic _ _ _ "/maven:com.acme:lib@1").
  - intros r. match goal with |- _ ∈ ?a -> _ =>
      let a' := eval vm_compute in a in change a with a' end.
    rewrite !elem_of_cons. intros [->|[->|Hr]].
    + apply (bool_decide_unpack _). vm_compute. exact I.
    + apply (bool_decide_unpack _). vm_compute. exact I.
    + by apply not_elem_of_nil in Hr.
  - vm_compute; reflexivity.
Defined.

(** The early gate is not optimistic for plus patterns: the rule below
    grants publish on a coordinate of the feed, and [MayReach] refuses the
    feed, so the upload is turned away before the decision is ever asked. *)
Theorem may_reach_refuses_plus_grant :
  exists e, New [acme_policy "feed/+/maven:com.acme:*"] [mkBinding "b" ["team"] match_all] = Ok e /\
    Allowed e ci "feed/releases/maven:com.acme:lib@1" CapPublish = true /\
    MayReach e ci "feed/releases" CapPublish = false.
Proof. eexists. split; [vm_compute; reflexivity|]. split; vm_compute; reflexivity. Qed.

(** ** Compilation *)

(** A compiled rule: named after its policy, a path with at most a trailing
    star, at least one capability, all of them known. *)
Definition rule_ok (name : string) (r : Rule) : Prop :=
  rule_policy r = name /\ rule_path r <> "" /\
  contains_char (trim_suffix (rule_path r) "*") "*"%char = false /\
  rule_capabilities r <> [] /\
  forall c, c ∈ rule_capabilities r -> c ∈ KnownCapabilities.

Definition policies_ok (m : gmap string Policy) : Prop :=
  forall name p, m !! name = Some p ->
    name <> "" /\ policy_name p = name /\ forall r, r ∈ policy_rules p -> rule_ok name r.

(** The invariant of a compiled engine. *)
Definition engine_ok (e : Engine) : Prop :=
  policies_ok (policies e) /\
  forall b, b ∈ bindings e ->
    binding_policies b <> [] /\
    forall name, name ∈ binding_policies b -> is_Some (policies e !! name).

Lemma Known_spec c : Known c = true <-> c ∈ KnownCapabilities.
Proof.
  unfold Known, KnownCapabilities. rewrite !orb_true_iff, !bool_decide_eq_true.
  rewrite !elem_of_cons, elem_of_nil. tauto.
Qed.

Lemma validCapabilities_ok policy i cs :
  validCapabilities policy i cs = Ok tt <-> forall c, c ∈ cs -> c ∈ KnownCapabilities.
Proof.
  induction cs as [|c cs IH]; simpl; [set_solver|].
  destruct (Known c) eqn:E.
  - apply Known_spec in E. rewrite IH. set_solver.
  - split; [done|]. intros H.
    assert (Known c = true) by (apply Known_spec; set_solver). congruence.
Qed.

Lemma validRule_ok name i r :
  rule_policy r = name -> validRule name i r = Ok tt <-> rule_ok name r.
Proof.
  intros Hn. unfold validRule, rule_ok. repeat case_decide; [naive_solver|..];
    destruct (contains_char _ _) eqn:E; try naive_solver.
  rewrite validCapabilities_ok. naive_solver.
Qed.

(** Path and capabilities of a rule, which compilation keeps. *)
Definition rule_body (r : Rule) : string * list Capability :=
  (rule_path r, rule_capabilities r).

Lemma compileRules_ok name i rs rs' :
  compileRules name i rs = Ok rs' ->
  (forall r, r ∈ rs' -> rule_ok name r) /\ rule_body <$> rs' = rule_body <$> rs.
Proof.
  revert i rs'. induction rs as [|r rs IH]; intros i rs'; simpl.
  - intros [= <-]. set_solver.
  - rewrite rbind_Ok. intros ([] & Hv & H). apply rbind_Ok in H as (rest & Hc & [= <-]).
    apply validRule_ok in Hv; [|done]. destruct (IH _ _ Hc) as [Hok Hb]. split.
    + intros r' [->|Hr]%elem_of_cons; auto.
    + rewrite !fmap_cons, Hb. done.
Qed.

Lemma compilePolicies_ok ps m m' :
  policies_ok m -> compilePolicies ps m = Ok m' ->
  policies_ok m' /\ m ⊆ m' /\
  forall p, p ∈ ps -> exists p', m' !! policy_name p = Some p' /\
    rule_body <$> policy_rules p' = rule_body <$> policy_rules p.
Proof.
  revert m. induction ps as [|p ps IH]; intros m Hm; simpl.
  - intros [= <-]. set_solver.
  - case_decide as Hn; [done|]. destruct (m !! policy_name p) eqn:E; [done|].
    rewrite rbind_Ok. intros (rules & Hr & Hc).
    destruct (compileRules_ok _ _ _ _ Hr) as [Hok Hb].
    apply IH in Hc as (Hm' & Hsub & Hall).
    + split_and!; [done| |].
      * etrans; [|done]. by apply insert_subseteq.
      * intros q [->|Hq]%elem_of_cons; [|by auto].
        exists (mkPolicy (policy_name p) rules). split; [|done].
        eapply lookup_weaken; [|done]. by simplify_map_eq.
    + intros name q [[<- <-]|[Hne Hq]]%lookup_insert_Some; [done|]. by apply Hm.
Qed.

Lemma checkNames_ok i names m :
  checkNames i names m = Ok tt -> forall name, name ∈ names -> is_Some (m !! name).
Proof.
  induction names as [|n names IH]; simpl; [set_solver|].
  destruct (m !! n) eqn:E; [|done]. intros H name [->|Hn]%elem_of_cons; eauto.
Qed.

Lemma checkBindings_ok i bs m :
  checkBindings i bs m = Ok tt -> forall b, b ∈ bs ->
    binding_policies b <> [] /\ forall name, name ∈ binding_policies b -> is_Some (m !! name).
Proof.
  revert i. induction bs as [|b bs IH]; intros i; simpl; [set_solver|].
  case_decide; [done|]. rewrite rbind_Ok. intros ([] & Hn & Hb) b' [->|Hb']%elem_of_cons.
  - eauto using checkNames_ok.
  - eauto.
Qed.

(** C40. Compilation is sound: what [New] accepts is an engine in which every
    policy is named, every rule is well formed and attributed to its policy,
    every binding attaches at least one policy that exists, and no input
    policy or rule was lost. *)
Theorem new_sound ps bs e :
  New ps bs = Ok e ->
  engine_ok e /\ bindings e = bs /\
  forall p, p ∈ ps -> exists p', policies e !! policy_name p = Some p' /\
    rule_body <$> policy_rules p' = rule_body <$> policy_rules p.
Proof.
  unfold New. rewrite rbind_Ok. intros (m & Hc & H).
  apply rbind_Ok in H as ([] & Hb & [= <-]).
  apply compilePolicies_ok in Hc as (Hm & _ & Hall); [|by intros ?? ?%lookup_empty_Some].
  unfold engine_ok. simpl. eauto using checkBindings_ok.
Qed.

Lemma new_sound_witness :
  engine_ok (engine_of [acme_policy "feed/*"] [mkBinding "b" ["team"] match_all]).
Proof.
  apply (new_sound [acme_policy "feed/*"] [mkBinding "b" ["team"] match_all]).
  vm_compute. reflexivity.
Defined.

(** The matcher means what the pattern language says: a pattern matches a
    path exactly when their slash-separated segments match segment by
    segment. *)
Theorem match_path_correct pattern path :
  (exists s, match_path pattern path = Some s) <->
  segs_match (cut_suffix pattern "*").2
    (split (trim_suffix pattern "*") "/"%char) (split path "/"%char).
Proof.
  unfold trim_suffix. destruct (cut_suffix pattern "*") as [prefix t] eqn:E.
  by apply match_path_segs.
Qed.
