(* ===== verification/State.v ===== *)
(** * The site database: [core/state/replication.go], [core/state/hosted.go]
    and the clock functions of [core/state/migrations]

    A site's PostgreSQL database is a record of tables. A table with a unique
    key is a finite map from the key to the other columns; a table read in
    insertion order ([publish_conflicts], [repl_parked] by [parked_at]) is a
    list. Each operation is the effect of its SQL statements on the tables;
    the statements of one transaction compose, and an operation that returns
    an error leaves the caller with the tables it started from (rollback).

    Conventions. [now] is the wall clock in milliseconds. A nil Go map is the
    empty map. [released_at], [resolved_at] and [revoked_at] are kept as the
    fact the code tests (null or not). Columns of type BIGINT are [Z]; the
    arithmetic that can leave their range is bounded by theorems where it
    matters. Text is compared byte-wise, and rows that SQL returns in
    unspecified order come in insertion order. *)

From S2P Require Import Prelude.
Open Scope Z_scope.

(** ** Hybrid logical clock readings *)

Record HLC := mkHLC { Wall : Z; Logical : Z }.

#[export] Instance HLC_eq_dec : EqDecision HLC.
Proof. solve_decision. Defined.

(** [HLC.Before]. *)
Definition Before (h other : HLC) : bool :=
  if decide (Wall h <> Wall other) then Wall h <? Wall other
  else Logical h <? Logical other.

Definition hlc_lt (a b : HLC) : Prop := Before a b = true.

#[export] Instance hlc_lt_dec : RelDecision hlc_lt.
Proof. intros a b. unfold hlc_lt. apply _. Defined.

Lemma hlc_lt_spec a b :
  hlc_lt a b <-> Wall a < Wall b \/ (Wall a = Wall b /\ Logical a < Logical b).
Proof. unfold hlc_lt, Before. case_decide; rewrite Z.ltb_lt; lia. Qed.

#[export] Instance hlc_lt_irreflexive : Irreflexive hlc_lt.
Proof. intros a. unfold complement. rewrite hlc_lt_spec. lia. Qed.

#[export] Instance hlc_lt_transitive : Transitive hlc_lt.
Proof. intros a b c. rewrite !hlc_lt_spec. lia. Qed.

Lemma hlc_lt_total a b : hlc_lt a b \/ a = b \/ hlc_lt b a.
Proof.
  destruct a as [w1 l1], b as [w2 l2]. rewrite !hlc_lt_spec. simpl.
  destruct (Z.lt_trichotomy w1 w2) as [?|[->|?]]; [lia| |lia].
  destruct (Z.lt_trichotomy l1 l2) as [?|[->|?]]; auto.
Qed.

(** ** JSON values, as stored in JSONB columns *)

Inductive json :=
| JNull
| JBool (b : bool)
| JNum (z : Z)
| JStr (s : string)
| JObj (fields : list (string * json))
| JArr (items : list json).

(** ** Rows *)

(** [JournalEntry]. *)
Record JournalEntry := mkEntry {
  OriginSite : string;
  OriginSeq : Z;
  Kind : string;
  Payload : json;
  EHLC : HLC;
  SchemaVersion : Z;
}.

(** [HostedRow] without its key columns [feed] and [path]. *)
Record HostedRow := mkHosted {
  h_coordinate : string;
  h_sha256 : string;
  h_size : Z;
  h_checksums : gmap string string;
  h_metadata : gmap string string;
  h_mutable : bool;
  h_origin : string;
  h_site : string;
  h_published_by : string;
}.

(** A row of [quarantine], keyed by feed, coordinate and reason. *)
Record QuarantineRow := mkQuarantine {
  q_detail : string;
  q_active : bool;
  q_hlc : HLC;
}.

(** One side of a conflict ([sideMeta] in [core/repl/sql.go]). *)
Record sideMeta := mkSide {
  s_sha256 : string;
  s_size : Z;
  s_checksums : gmap string string;
  s_metadata : gmap string string;
}.

(** A row of [publish_conflicts]; [c_resolved] is [resolved_sha256] of a row
    whose [resolved_at] is set. *)
Record ConflictRow := mkConflict {
  c_feed : string;
  c_path : string;
  c_coordinate : string;
  c_winner : string;
  c_loser : string;
  c_winner_site : string;
  c_loser_site : string;
  c_winner_meta : sideMeta;
  c_loser_meta : sideMeta;
  c_resolved : option string;
}.

(** A row of [conflict_resolutions], keyed by feed and path. *)
Record ResolutionRow := mkResolution {
  r_coordinate : string;
  r_keep : string;
  r_size : Z;
  r_checksums : gmap string string;
  r_metadata : gmap string string;
  r_operator : string;
  r_decided_by : string;
  r_hlc : HLC;
}.

(** A row of [tokens], keyed by the hash; names are unique too. *)
Record TokenRow := mkToken { t_name : string; t_revoked : bool }.

(** A row of [repl_cursors], keyed by peer and origin. *)
Record Cursor := mkCursor {
  AppliedSeq : Z;
  DurableSeq : Z;
  LastOKAt : option Z;
  LastError : string;
  OriginUUID : option string;
}.

(** A row of [repl_parked]. *)
Record ParkedRow := mkParked {
  p_entry : JournalEntry;
  p_reason : string;
  p_retries : Z;
}.

(** The single row of [hlc_state]. *)
Record HlcState := mkHlcState { wall_ms : Z; logical : Z; last_seq : Z }.

Record DB := mkDB {
  site_identity : option (string * string);
  hlc_state : HlcState;
  repl_journal : gmap (string * Z) (JournalEntry * Z);
  repl_cursors : gmap (string * string) Cursor;
  repl_parked : list ParkedRow;
  repl_peer_identity : gmap string string;
  hosted_manifests : gmap (string * string) HostedRow;
  quarantine : gmap (string * string * string) QuarantineRow;
  publish_conflicts : list ConflictRow;
  conflict_resolutions : gmap (string * string) ResolutionRow;
  tokens : gmap string TokenRow;
}.

Definition empty_db : DB :=
  mkDB None (mkHlcState 0 0 0) ∅ ∅ [] ∅ ∅ ∅ [] ∅ ∅.

Definition set_hlc (db : DB) (h : HlcState) : DB :=
  mkDB (site_identity db) h (repl_journal db) (repl_cursors db) (repl_parked db)
    (repl_peer_identity db) (hosted_manifests db) (quarantine db)
    (publish_conflicts db) (conflict_resolutions db) (tokens db).
Definition set_journal (db : DB) (j : gmap (string * Z) (JournalEntry * Z)) : DB :=
  mkDB (site_identity db) (hlc_state db) j (repl_cursors db) (repl_parked db)
    (repl_peer_identity db) (hosted_manifests db) (quarantine db)
    (publish_conflicts db) (conflict_resolutions db) (tokens db).
Definition set_cursors (db : DB) (c : gmap (string * string) Cursor) : DB :=
  mkDB (site_identity db) (hlc_state db) (repl_journal db) c (repl_parked db)
    (repl_peer_identity db) (hosted_manifests db) (quarantine db)
    (publish_conflicts db) (conflict_resolutions db) (tokens db).
Definition set_parked (db : DB) (p : list ParkedRow) : DB :=
  mkDB (site_identity db) (hlc_state db) (repl_journal db) (repl_cursors db) p
    (repl_peer_identity db) (hosted_manifests db) (quarantine db)
    (publish_conflicts db) (conflict_resolutions db) (tokens db).
Definition set_peers (db : DB) (p : gmap string string) : DB :=
  mkDB (site_identity db) (hlc_state db) (repl_journal db) (repl_cursors db)
    (repl_parked db) p (hosted_manifests db) (quarantine db)
    (publish_conflicts db) (conflict_resolutions db) (tokens db).
Definition set_hosted (db : DB) (h : gmap (string * string) HostedRow) : DB :=
  mkDB (site_identity db) (hlc_state db) (repl_journal db) (repl_cursors db)
    (repl_parked db) (repl_peer_identity db) h (quarantine db)
    (publish_conflicts db) (conflict_resolutions db) (tokens db).
Definition set_quarantine (db : DB) (q : gmap (string * string * string) QuarantineRow) : DB :=
  mkDB (site_identity db) (hlc_state db) (repl_journal db) (repl_cursors db)
    (repl_parked db) (repl_peer_identity db) (hosted_manifests db) q
    (publish_conflicts db) (conflict_resolutions db) (tokens db).
Definition set_conflicts (db : DB) (c : list ConflictRow) : DB :=
  mkDB (site_identity db) (hlc_state db) (repl_journal db) (repl_cursors db)
    (repl_parked db) (repl_peer_identity db) (hosted_manifests db) (quarantine db)
    c (conflict_resolutions db) (tokens db).
Definition set_resolutions (db : DB) (r : gmap (string * string) ResolutionRow) : DB :=
  mkDB (site_identity db) (hlc_state db) (repl_journal db) (repl_cursors db)
    (repl_parked db) (repl_peer_identity db) (hosted_manifests db) (quarantine db)
    (publish_conflicts db) r (tokens db).
Definition set_tokens (db : DB) (t : gmap string TokenRow) : DB :=
  mkDB (site_identity db) (hlc_state db) (repl_journal db) (repl_cursors db)
    (repl_parked db) (repl_peer_identity db) (hosted_manifests db) (quarantine db)
    (publish_conflicts db) (conflict_resolutions db) t.
Definition set_identity (db : DB) (i : option (string * string)) : DB :=
  mkDB i (hlc_state db) (repl_journal db) (repl_cursors db) (repl_parked db)
    (repl_peer_identity db) (hosted_manifests db) (quarantine db)
    (publish_conflicts db) (conflict_resolutions db) (tokens db).

(** ** The clock *)

Definition hlc_reading (h : HlcState) : HLC := mkHLC (wall_ms h) (logical h).

(** [repl_hlc_now]: stamp a local change without taking a sequence. *)
Definition repl_hlc_now (now : Z) (h : HlcState) : HlcState :=
  mkHlcState (Z.max (wall_ms h) now)
    (if wall_ms h <? now then 0 else logical h + 1) (last_seq h).

(** [repl_hlc_next]: a stamp and the next journal sequence. *)
Definition repl_hlc_next (now : Z) (h : HlcState) : HlcState :=
  mkHlcState (Z.max (wall_ms h) now)
    (if wall_ms h <? now then 0 else logical h + 1) (last_seq h + 1).

(** [repl_hlc_recv]: advance past a timestamp observed from a peer. *)
Definition repl_hlc_recv (peer_wall peer_logical : Z) (h : HlcState) : HlcState :=
  mkHlcState (Z.max (wall_ms h) peer_wall)
    (if wall_ms h <? peer_wall then peer_logical + 1
     else if peer_wall =? wall_ms h then Z.max (logical h) peer_logical + 1
     else logical h)
    (last_seq h).

(** [ReceiveClock]. *)
Definition ReceiveClock (db : DB) (h : HLC) : DB :=
  set_hlc db (repl_hlc_recv (Wall h) (Logical h) (hlc_state db)).

(** ** Site identity *)

Inductive identity_error := SiteMismatch (stored config : string).

(** [EnsureSiteIdentity]; [uuid] is what the column default would generate. *)
Definition EnsureSiteIdentity (site uuid : string) (db : DB)
    : result identity_error (DB * (string * string)) :=
  let '(db', id) := match site_identity db with
                    | Some id => (db, id)
                    | None => (set_identity db (Some (site, uuid)), (site, uuid))
                    end in
  if decide (id.1 <> site) then Err (SiteMismatch id.1 site) else Ok (db', id).

(** ** The journal *)

(** [AppendJournal]: a local event, stamped and numbered by [repl_hlc_next]. *)
Definition AppendJournal (now : Z) (site kind : string) (payload : json) (db : DB)
    : DB * JournalEntry :=
  let h := repl_hlc_next now (hlc_state db) in
  let entry := mkEntry site (last_seq h) kind payload (hlc_reading h) 1 in
  (set_journal (set_hlc db h)
     (<[(site, last_seq h) := (entry, now)]> (repl_journal db)), entry).

(** [ApplyForeignJournal]: [true] when the entry was not recorded yet. *)
Definition ApplyForeignJournal (now : Z) (e : JournalEntry) (db : DB) : DB * bool :=
  let db := ReceiveClock db (EHLC e) in
  match repl_journal db !! (OriginSite e, OriginSeq e) with
  | Some _ => (db, false)
  | None => (set_journal db (<[(OriginSite e, OriginSeq e) := (e, now)]> (repl_journal db)), true)
  end.

(** The entries of one origin. *)
Definition origin_entries (db : DB) (origin : string) : list (JournalEntry * Z) :=
  snd <$> filter (fun kv => kv.1.1 = origin) (map_to_list (repl_journal db)).

Definition seq_le (a b : JournalEntry) : Prop := OriginSeq a <= OriginSeq b.
#[export] Instance seq_le_dec : RelDecision seq_le.
Proof. intros a b. unfold seq_le. apply _. Defined.

(** [ReadJournal]: entries of one origin after a sequence, oldest first. *)
Definition ReadJournal (origin : string) (after limit : Z) (db : DB) : list JournalEntry :=
  let limit := if (limit <=? 0) || (1000 <? limit) then 200 else limit in
  take (Z.to_nat limit)
    (merge_sort seq_le
       (filter (fun e => after < OriginSeq e) (fst <$> origin_entries db origin))).

(** [JournalHead]: newest and oldest sequence of an origin, 0 when none. *)
Definition JournalHead (origin : string) (db : DB) : Z * Z :=
  match OriginSeq <$> (fst <$> origin_entries db origin) with
  | [] => (0, 0)
  | s :: ss => (foldl Z.max s ss, foldl Z.min s ss)
  end.

(** [KnownOrigins] (as a set; the code lists it in order). *)
Definition KnownOrigins (db : DB) : gset string :=
  list_to_set ((fun kv => kv.1.1) <$> map_to_list (repl_journal db)).

(** [PruneJournal]: drop entries below a sequence, never the newest one. *)
Definition PruneJournal (origin : string) (below : Z) (db : DB) : DB :=
  let head := (JournalHead origin db).1 in
  set_journal db
    (filter (fun kv => ~ (kv.1.1 = origin /\ kv.1.2 < below /\ kv.1.2 < head))
            (repl_journal db)).

(** [PruneJournalOlderThan]: drop entries created before the retention window
    (milliseconds, cut to whole seconds as the interval literal is),
    keeping each origin's newest; an empty origin means every stream. *)
Definition PruneJournalOlderThan (now : Z) (origin : string) (retention : Z) (db : DB) : DB :=
  if retention <=? 0 then db
  else set_journal db
    (filter (fun kv => ~ ((origin = "" \/ kv.1.1 = origin) /\
                          kv.2.2 < now - retention / 1000 * 1000 /\
                          kv.1.2 < (JournalHead kv.1.1 db).1))
            (repl_journal db)).

(** [ForgetOriginJournal]. *)
Definition ForgetOriginJournal (origin : string) (db : DB) : DB :=
  let db := set_journal db (filter (fun kv => kv.1.1 <> origin) (repl_journal db)) in
  set_parked db (filter (fun r => OriginSite (p_entry r) <> origin) (repl_parked db)).

(** ** Parked events *)

Definition park_key (e : JournalEntry) : string * Z := (OriginSite e, OriginSeq e).

(** [ParkEvent]: insert, or refresh the reason of the row already there. *)
Definition ParkEvent (e : JournalEntry) (reason : string) (db : DB) : DB :=
  set_parked db
    (if existsb (fun r => bool_decide (park_key (p_entry r) = park_key e)) (repl_parked db)
     then (fun r => if decide (park_key (p_entry r) = park_key e)
                    then mkParked (p_entry r) reason (p_retries r + 1) else r) <$> repl_parked db
     else repl_parked db ++ [mkParked e reason 0]).

(** [parkedEvents]: oldest first, optionally of one origin. *)
Definition parkedEvents (origin : string) (limit : Z) (db : DB) : list ParkedRow :=
  let limit := if limit <=? 0 then 100 else limit in
  take (Z.to_nat limit)
    (filter (fun r => origin = "" \/ OriginSite (p_entry r) = origin) (repl_parked db)).

(** [UnparkEvent]. *)
Definition UnparkEvent (origin : string) (seq : Z) (db : DB) : DB :=
  set_parked db (filter (fun r => park_key (p_entry r) <> (origin, seq)) (repl_parked db)).

(** ** Cursors *)

Definition zero_cursor : Cursor := mkCursor 0 0 None "" None.

(** [GetCursor]: zeroes when the stream is new. *)
Definition GetCursor (peer origin : string) (db : DB) : Cursor :=
  match repl_cursors db !! (peer, origin) with
  | Some c => c
  | None => zero_cursor
  end.

(** [SetCursorTx]: on insert the given columns, on conflict the durable
    sequence is capped by the applied one and a known incarnation is kept when
    none is given. *)
Definition SetCursorTx (now : Z) (peer origin : string) (applied durable : Z)
    (last_error : string) (uuid : option string) (db : DB) : DB :=
  set_cursors db
    (<[(peer, origin) :=
         match repl_cursors db !! (peer, origin) with
         | None => mkCursor applied durable (Some now) last_error uuid
         | Some old =>
             mkCursor applied (Z.min durable applied) (Some now) last_error
               (match uuid with Some u => Some u | None => OriginUUID old end)
         end]> (repl_cursors db)).

(** [RecordCursorError]. *)
Definition RecordCursorError (peer origin msg : string) (db : DB) : DB :=
  let with_error c :=
    mkCursor (AppliedSeq c) (DurableSeq c) (LastOKAt c) msg (OriginUUID c) in
  if decide (origin = "" \/ origin = "*") then
    set_cursors db (map_imap (fun k c => Some (if decide (k.1 = peer) then with_error c else c))
                      (repl_cursors db))
  else
    set_cursors db (<[(peer, origin) := with_error (GetCursor peer origin db)]> (repl_cursors db)).

(** [MarkPeerPollOK]: clear the peer's errors, then stamp each stream. *)
Definition MarkPeerPollOK (now : Z) (peer : string) (origins : list string)
    (uuid : option string) (db : DB) : DB :=
  let cleared :=
    map_imap (fun k c =>
      Some (if decide (k.1 = peer)
            then mkCursor (AppliedSeq c) (DurableSeq c) (LastOKAt c) "" (OriginUUID c)
            else c)) (repl_cursors db) in
  let origins := if decide (origins = []) then [peer] else origins in
  set_cursors db
    (foldl (fun m origin =>
       <[(peer, origin) :=
           match m !! (peer, origin) with
           | None => mkCursor 0 0 (Some now) "" uuid
           | Some c => mkCursor (AppliedSeq c) (DurableSeq c) (Some now) ""
                         (match OriginUUID c with Some u => Some u | None => uuid end)
           end]> m) cleared origins).

(** [RecordPeerAck]: a watermark that only moves forward. *)
Definition RecordPeerAck (now : Z) (peer origin : string) (seq : Z) (db : DB) : DB :=
  if decide (peer = "" \/ peer = "unknown") then db
  else set_cursors db
    (<[(peer, origin) :=
         match repl_cursors db !! (peer, origin) with
         | None => mkCursor seq seq (Some now) "" None
         | Some c => mkCursor (Z.max (AppliedSeq c) seq) (Z.max (DurableSeq c) seq)
                       (Some now) (LastError c) (OriginUUID c)
         end]> (repl_cursors db)).

(** The cursors [MinCursorAcrossPeers] aggregates: those of the origin whose
    peer is listed. *)
Definition peer_cursors (origin : string) (peers : list string) (db : DB) : list Cursor :=
  snd <$> filter (fun kv => kv.1.2 = origin /\ kv.1.1 ∈ peers) (map_to_list (repl_cursors db)).

(** [MinCursorAcrossPeers]: the watermark every peer has acknowledged, or
    [None] when a peer has no cursor yet. *)
Definition MinCursorAcrossPeers (origin : string) (peers : list string) (db : DB) : option Z :=
  if decide (peers = []) then None
  else match DurableSeq <$> peer_cursors origin peers db with
       | [] => None
       | s :: ss =>
           if decide (length (s :: ss) < length peers)%nat then None
           else Some (foldl Z.min s ss)
       end.

(** [PeerAckWatermark]. *)
Definition PeerAckWatermark (peer origin : string) (db : DB) : Z :=
  DurableSeq (GetCursor peer origin db).

(** ** Peer identities *)

Inductive pin_error := IdentityChanged (peer uuid pinned : string).

(** [PinPeerIdentity]: the first UUID seen is kept for good. *)
Definition PinPeerIdentity (peer uuid : string) (db : DB) : result pin_error DB :=
  match repl_peer_identity db !! peer with
  | None => Ok (set_peers db (<[peer := uuid]> (repl_peer_identity db)))
  | Some stored => if decide (stored <> uuid) then Err (IdentityChanged peer uuid stored)
                   else Ok db
  end.

(** [ForgetPeerIdentity]: [None] when the peer was not pinned. *)
Definition ForgetPeerIdentity (peer : string) (db : DB) : option (DB * string) :=
  match repl_peer_identity db !! peer with
  | None => None
  | Some uuid => Some (set_peers db (delete peer (repl_peer_identity db)), uuid)
  end.

Definition rewind (forget_uuid : bool) (c : Cursor) : Cursor :=
  mkCursor 0 0 (LastOKAt c) "" (if forget_uuid then None else OriginUUID c).

(** [ResetPeerStream]: rewind the peer's cursors and drop the copy of its
    journal and its parked events. *)
Definition ResetPeerStream (peer : string) (db : DB) : DB :=
  ForgetOriginJournal peer
    (set_cursors db
       (map_imap (fun k c => Some (if decide (k.1 = peer) then rewind false c else c))
          (repl_cursors db))).

(** [ResetPeerTrust]: also forget the pinned identity and the incarnation. *)
Definition ResetPeerTrust (peer : string) (db : DB) : DB :=
  ForgetOriginJournal peer
    (set_cursors (set_peers db (delete peer (repl_peer_identity db)))
       (map_imap (fun k c => Some (if decide (k.1 = peer) then rewind true c else c))
          (repl_cursors db))).

(** ** Hosted coordinates *)

(** The stamp columns kept inside [metadata]. *)
Definition stamp_metadata (h : HLC) (m : gmap string string) : gmap string string :=
  <["hlc_logical" := format_int (Logical h)]> (<["hlc_wall" := format_int (Wall h)]> m).

Inductive hosted_error := ErrAlreadyPublished (feed path : string).

(** [InsertHostedTx]: [true] when the coordinate was created or moved. The row
    is stamped with [repl_hlc_now]; the stamped metadata is returned because
    the caller's map is the one the code writes into. *)
Definition InsertHostedTx (now : Z) (feed path : string) (r : HostedRow) (db : DB)
    : result hosted_error (DB * bool * gmap string string) :=
  let h := repl_hlc_now now (hlc_state db) in
  let db := set_hlc db h in
  let metadata := stamp_metadata (hlc_reading h) (h_metadata r) in
  let origin := if decide (h_origin r = "") then "publish" else h_origin r in
  match hosted_manifests db !! (feed, path) with
  | None =>
      Ok (set_hosted db
            (<[(feed, path) :=
                 mkHosted (h_coordinate r) (h_sha256 r) (h_size r) (h_checksums r)
                   metadata (h_mutable r) origin (h_site r) (h_published_by r)]>
               (hosted_manifests db)), true, metadata)
  | Some old =>
      if decide (h_sha256 old = h_sha256 r) then Ok (db, false, metadata)
      else if negb (h_mutable old) || negb (h_mutable r)
      then Err (ErrAlreadyPublished feed path)
      else
        Ok (set_hosted db
              (<[(feed, path) :=
                   mkHosted (h_coordinate old) (h_sha256 r) (h_size r) (h_checksums r)
                     metadata (h_mutable old) (h_origin old) (h_site r) (h_published_by r)]>
                 (hosted_manifests db)), true, metadata)
  end.

(** SQL [LIKE] with its default escape character. *)
Fixpoint like (pat : string) : string -> bool :=
  match pat with
  | EmptyString => fun s => bool_decide (s = "")
  | String "%"%char pat' =>
      fix any s := like pat' s ||
        match s with EmptyString => false | String _ s' => any s' end
  | String "_"%char pat' => fun s =>
      match s with EmptyString => false | String _ s' => like pat' s' end
  | String "\"%char (String c pat') => fun s =>
      match s with EmptyString => false | String d s' => bool_decide (c = d) && like pat' s' end
  | String c pat' => fun s =>
      match s with EmptyString => false | String d s' => bool_decide (c = d) && like pat' s' end
  end.

(** [ORDER BY feed, path]. *)
Definition key_le (a b : string * string * HostedRow) : Prop :=
  str_lt a.1.1 b.1.1 \/ (a.1.1 = b.1.1 /\ ~ str_lt b.1.2 a.1.2).
#[export] Instance key_le_dec : RelDecision key_le.
Proof. intros a b. unfold key_le. apply _. Defined.

(** [ORDER BY] a text column; several are joined with a byte no text holds. *)
Definition name_le (a b : string) : Prop := ~ str_lt b a.
#[export] Instance name_le_dec : RelDecision name_le.
Proof. intros a b. unfold name_le. apply _. Defined.
Definition by_key {A} (key : A -> string) (l : list A) : list A :=
  merge_sort (fun a b => name_le (key a) (key b)) l.
Definition joined (a b : string) : string := a +:+ String Ascii.zero b.

(** [ListHosted]: coordinates of a feed (or of every feed) under a path
    prefix, ordered; the prefix is a [LIKE] pattern. *)
Definition ListHosted (feed prefix : string) (db : DB) : list (string * string * HostedRow) :=
  merge_sort key_le
    (filter (fun kv => (feed = "" \/ kv.1.1 = feed) /\ like (prefix +:+ "%") kv.1.2 = true)
            (map_to_list (hosted_manifests db))).

(** [DB.HostedRow]: the listing with [LIMIT 1], kept when its path is exact. *)
Definition HostedRowAt (feed path : string) (db : DB)
    : option (string * string * HostedRow) :=
  list_find (fun kv => kv.1.2 = path) (take 1 (ListHosted feed path db)) ≫= Some ∘ snd.

(** ** Quarantine without replication *)

(** [DB.Quarantine]. *)
Definition Quarantine (feed coordinate reason detail : string) (db : DB) : DB :=
  set_quarantine db
    (<[(feed, coordinate, reason) :=
         match quarantine db !! (feed, coordinate, reason) with
         | None => mkQuarantine detail true (mkHLC 0 0)
         | Some q => mkQuarantine detail true (q_hlc q)
         end]> (quarantine db)).

(** [DB.ReleaseQuarantine]: one reason, or every reason when none is named. *)
Definition ReleaseQuarantine (feed coordinate reason : string) (db : DB) : DB :=
  set_quarantine db
    (map_imap (fun k q =>
       Some (if decide (k.1 = (feed, coordinate) /\ (reason = "" \/ k.2 = reason))
             then mkQuarantine (q_detail q) false (q_hlc q) else q)) (quarantine db)).

(** A coordinate is blocked while any of its reasons is active
    ([ActiveQuarantine] returns a row exactly then). *)
Definition quarantined (db : DB) (feed coordinate : string) : Prop :=
  exists reason q, quarantine db !! (feed, coordinate, reason) = Some q /\ q_active q = true.

(** ** Conflicts *)

Definition close_conflict (feed path sha : string) (c : ConflictRow) : ConflictRow :=
  if decide (c_feed c = feed /\ c_path c = path /\ c_resolved c = None)
  then mkConflict (c_feed c) (c_path c) (c_coordinate c) (c_winner c) (c_loser c)
         (c_winner_site c) (c_loser_site c) (c_winner_meta c) (c_loser_meta c) (Some sha)
  else c.

(** [DB.ResolveConflict]: mark the open conflicts of a path resolved. *)
Definition ResolveConflict (feed path sha : string) (db : DB) : DB :=
  set_conflicts db (close_conflict feed path sha <$> publish_conflicts db).

(** The rows [OpenConflictsTx] lists. *)
Definition open_conflicts (db : DB) : list ConflictRow :=
  filter (fun c => c_resolved c = None) (publish_conflicts db).

(** [RevokedTokenHashesTx] (as a set). *)
Definition revoked_hashes (db : DB) : gset string :=
  dom (filter (fun kv => t_revoked kv.2 = true) (tokens db)).
