(* ===== verification/StateTheory.v ===== *)
(** * Properties of the site database

    Rows listed by a key are the rows; the clock orders what it stamps, the journal pages without gaps, and the
    read of one hosted row is exact when its path is not a pattern. *)

From S2P Require Import Prelude State.
Open Scope Z_scope.

(** ** Rows in order of a key *)

Lemma by_key_perm {A} (key : A -> string) l : by_key key l ≡ₚ l.
Proof. apply merge_sort_Permutation. Qed.

(** ** The clock *)

Lemma now_advances now h : hlc_lt (hlc_reading h) (hlc_reading (repl_hlc_now now h)).
Proof.
  rewrite hlc_lt_spec. unfold repl_hlc_now. simpl.
  destruct (Z.ltb_spec (wall_ms h) now); lia.
Qed.

Lemma next_advances now h : hlc_lt (hlc_reading h) (hlc_reading (repl_hlc_next now h)).
Proof. apply now_advances. Qed.

Definition hlc_le (a b : HLC) : Prop := hlc_lt a b \/ a = b.

Lemma recv_advances w l h :
  hlc_le (mkHLC w l) (hlc_reading (repl_hlc_recv w l h)) /\
  hlc_le (hlc_reading h) (hlc_reading (repl_hlc_recv w l h)).
Proof.
  unfold hlc_le. rewrite !hlc_lt_spec. unfold repl_hlc_recv, hlc_reading. simpl.
  destruct (Z.ltb_spec (wall_ms h) w), (Z.eqb_spec w (wall_ms h)); split; try lia.
  right. f_equal. lia.
Qed.

Lemma hlc_le_lt a b c : hlc_le a b -> hlc_lt b c -> hlc_lt a c.
Proof. intros [H| ->]; [|done]. intros. by etrans. Qed.

Lemma hlc_le_trans a b c : hlc_le a b -> hlc_le b c -> hlc_le a c.
Proof. intros H1 [H2| ->]; [left; by eapply hlc_le_lt|done]. Qed.

(** What can happen to the clock of a site. *)
Inductive clock_step : HlcState -> HlcState -> Prop :=
| clock_now now h : clock_step h (repl_hlc_now now h)
| clock_next now h : clock_step h (repl_hlc_next now h)
| clock_recv w l h : clock_step h (repl_hlc_recv w l h).

Lemma clock_steps_monotone h h' :
  rtc clock_step h h' -> hlc_le (hlc_reading h) (hlc_reading h') /\ last_seq h <= last_seq h'.
Proof.
  induction 1 as [h|h h1 h2 Hs _ [IH1 IH2]]; [split; [by right|lia]|].
  split; [|destruct Hs; simpl in *; lia]. eapply hlc_le_trans; [|exact IH1].
  destruct Hs; [left; apply now_advances|left; apply next_advances|].
  destruct (recv_advances w l h) as [_ ?]. done.
Qed.

(** The clock respects causality: whatever happens to a site's clock in
    between, and even if its wall clock runs backwards, an event it appends is
    stamped strictly after every event it received or appended before, and
    numbered above them. *)
Theorem clock_causality now now' site site' kind kind' payload payload' db received db1 e1 :
  AppendJournal now site kind payload (ReceiveClock db received) = (db1, e1) ->
  hlc_lt received (EHLC e1) /\
  forall db2 db3 e3, rtc clock_step (hlc_state db1) (hlc_state db2) ->
    AppendJournal now' site' kind' payload' db2 = (db3, e3) ->
    hlc_lt (EHLC e1) (EHLC e3) /\ OriginSeq e1 < OriginSeq e3.
Proof.
  unfold AppendJournal. intros [= <- <-]. simpl. split.
  - eapply hlc_le_lt; [|apply next_advances]. destruct received. apply recv_advances.
  - intros db2 db3 e3 Hs [= <- <-]. simpl. apply clock_steps_monotone in Hs as [H1 H2].
    simpl in *. split; [|lia]. eapply hlc_le_lt; [exact H1|]. apply next_advances.
Qed.

Lemma clock_causality_witness :
  hlc_lt (mkHLC 5000 7) (EHLC (AppendJournal 1000 "a" "k" JNull (ReceiveClock empty_db (mkHLC 5000 7))).2).
Proof.
  destruct (AppendJournal 1000 "a" "k" JNull (ReceiveClock empty_db (mkHLC 5000 7))) as [db1 e1] eqn:E.
  exact (proj1 (clock_causality 1000 1000 "a" "a" "k" "k" JNull JNull empty_db (mkHLC 5000 7) db1 e1 E)).
Defined.

(** ** The journal *)

(** Rows are filed under their own key. *)
Definition journal_keyed (db : DB) : Prop :=
  forall k e t, repl_journal db !! k = Some (e, t) -> k = (OriginSite e, OriginSeq e).

#[export] Instance seq_le_trans : Transitive seq_le.
Proof. intros a b c. unfold seq_le. lia. Qed.
#[export] Instance seq_le_total : Total seq_le.
Proof. intros a b. unfold seq_le. lia. Qed.

Lemma journal_keyed_empty : journal_keyed empty_db.
Proof. intros k e t H. simpl in H. by rewrite lookup_empty in H. Qed.

Lemma journal_keyed_append now site kind payload db :
  journal_keyed db -> journal_keyed (AppendJournal now site kind payload db).1.
Proof.
  intros Hk k e t. simpl. intros [[<- [= <- <-]]|[_ Hl]]%lookup_insert_Some; [done|by eapply Hk].
Qed.

Lemma journal_keyed_filter (P : (string * Z) * (JournalEntry * Z) -> Prop)
    `{!forall x, base.Decision (P x)} db :
  journal_keyed db -> journal_keyed (set_journal db (filter P (repl_journal db))).
Proof. intros Hk k e t. simpl. intros [Hl _]%map_lookup_filter_Some. by eapply Hk. Qed.

#[export] Hint Resolve journal_keyed_empty journal_keyed_append journal_keyed_filter : fondaco.

Lemma elem_of_origin_entries db origin e :
  journal_keyed db ->
  e ∈ (origin_entries db origin).*1 <->
  exists t, repl_journal db !! (origin, OriginSeq e) = Some (e, t) /\ OriginSite e = origin.
Proof.
  intros Hk. unfold origin_entries. rewrite list_elem_of_fmap. split.
  - intros ([e' t] & -> & ([[o s] [e1 t1]] & [= <- <-] & [Ho Hin]%list_elem_of_filter)%list_elem_of_fmap).
    apply elem_of_map_to_list in Hin. simpl in *. subst o.
    pose proof (Hk _ _ _ Hin) as [= -> ->]. eauto.
  - intros (t & Hl & Ho). exists (e, t). split; [done|]. apply list_elem_of_fmap.
    exists ((origin, OriginSeq e), (e, t)). split; [done|].
    apply list_elem_of_filter. split; [done|]. by apply elem_of_map_to_list.
Qed.

Lemma ReadJournal_spec origin after limit db (page := ReadJournal origin after limit db) :
  journal_keyed db ->
  Sorted seq_le page /\ (length page <= 1000)%nat /\
  (forall e, e ∈ page -> OriginSite e = origin /\ after < OriginSeq e /\
     exists t, repl_journal db !! (origin, OriginSeq e) = Some (e, t)) /\
  (forall e t, repl_journal db !! (origin, OriginSeq e) = Some (e, t) -> after < OriginSeq e ->
     e ∈ page \/ (page <> [] /\ forall e', e' ∈ page -> OriginSeq e' <= OriginSeq e)).
Proof.
  intros Hk. subst page. unfold ReadJournal. cbv zeta.
  set (n := if (limit <=? 0) || (1000 <? limit) then 200 else limit).
  assert (Hn : 0 < n <= 1000).
  { subst n. destruct (Z.leb_spec limit 0), (Z.ltb_spec 1000 limit); simpl; lia. }
  set (l := filter _ _).
  pose proof (StronglySorted_merge_sort seq_le l) as Hsort.
  pose proof (merge_sort_Permutation seq_le l) as Hperm.
  set (all := merge_sort seq_le l) in *. clearbody all.
  rewrite <- (take_drop (Z.to_nat n) all) in Hsort at 1.
  assert (Hin : forall e, e ∈ all <-> after < OriginSeq e /\
    exists t, repl_journal db !! (origin, OriginSeq e) = Some (e, t) /\ OriginSite e = origin).
  { intros e. rewrite Hperm. subst l. rewrite list_elem_of_filter.
    by rewrite elem_of_origin_entries. }
  split_and!.
  - apply StronglySorted_Sorted. by eapply StronglySorted_app_1_l.
  - rewrite length_take. lia.
  - intros e He. assert (e ∈ all) as (Ha & t & Ht & Ho)%Hin.
    { rewrite <- (take_drop (Z.to_nat n) all). apply elem_of_app. by left. } eauto.
  - intros e t Ht Ha. pose proof (Hk _ _ _ Ht) as [= Ho].
    assert (He : e ∈ all) by (apply Hin; eauto).
    rewrite <- (take_drop (Z.to_nat n) all) in He. apply elem_of_app in He as [?|He]; [by left|].
    right. split.
    + intros Hnil. apply (f_equal length) in Hnil. rewrite length_take in Hnil. simpl in Hnil.
      destruct all; [by rewrite drop_nil in He; apply not_elem_of_nil in He|]. simpl in Hnil. lia.
    + intros e' He'. by eapply (StronglySorted_app_1_elem_of seq_le).
Qed.

(** A page of the journal never skips an entry: it is sorted, holds only
    entries of the requested origin after the requested sequence, at most a
    thousand of them, and an entry left out comes after every entry of the
    page, which is then not empty; so a reader that asks again after the last
    sequence it saw sees every entry. *)
Theorem journal_page_complete origin after limit db (page := ReadJournal origin after limit db) :
  journal_keyed db ->
  Sorted seq_le page /\ (length page <= 1000)%nat /\
  (forall e, e ∈ page -> OriginSite e = origin /\ after < OriginSeq e /\
     exists t, repl_journal db !! (origin, OriginSeq e) = Some (e, t)) /\
  (forall e t, repl_journal db !! (origin, OriginSeq e) = Some (e, t) -> after < OriginSeq e ->
     e ∈ page \/ (page <> [] /\ forall e', e' ∈ page -> OriginSeq e' <= OriginSeq e)).
Proof. apply ReadJournal_spec. Qed.

Lemma journal_page_complete_witness :
  let db := (AppendJournal 5 "a" "k" JNull (AppendJournal 5 "a" "k" JNull empty_db).1).1 in
  Sorted seq_le (ReadJournal "a" 0 1 db) /\ length (ReadJournal "a" 0 1 db) = 1%nat.
Proof.
  split; [|vm_compute; reflexivity].
  apply journal_page_complete. eauto with fondaco.
Defined.

(** ** Reading one hosted row *)

(** A path without [LIKE] metacharacters. *)
Fixpoint plain (s : string) : bool :=
  match s with
  | EmptyString => true
  | String c s' => negb (bool_decide (c = "%"%char)) && negb (bool_decide (c = "_"%char)) &&
                   negb (bool_decide (c = "\"%char)) && plain s'
  end.

Lemma like_any s : like "%" s = true.
Proof. induction s as [|c s IH]; simpl in *; [done|]. by rewrite IH. Qed.

Lemma like_literal c p s :
  c <> "%"%char -> c <> "_"%char -> c <> "\"%char ->
  like (String c p) s = match s with
                        | EmptyString => false
                        | String d s' => bool_decide (c = d) && like p s'
                        end.
Proof. intros. destruct c as [[] [] [] [] [] [] [] []]; done. Qed.

Lemma like_plain p s : plain p = true -> like (p +:+ "%") s = has_prefix s p.
Proof.
  revert s. induction p as [|c p IH]; intros s.
  - intros _. change ("" +:+ "%") with "%". rewrite like_any. by destruct s.
  - cbn [plain]. rewrite !andb_true_iff, !negb_true_iff, !bool_decide_eq_false.
    intros [[[H1 H2] H3] Hp].
    change (String c p +:+ "%") with (String c (p +:+ "%")). rewrite like_literal by done. unfold has_prefix in *. destruct s as [|d s]; simpl; [done|].
    rewrite IH by done. destruct (Ascii.ascii_dec c d) as [->|Hne];
      [by rewrite bool_decide_eq_true_2|by rewrite bool_decide_eq_false_2].
Qed.

Lemma prefix_not_lt s p : has_prefix s p = true -> ~ str_lt s p.
Proof.
  rewrite has_prefix_spec. intros [r ->]. unfold str_lt.
  induction p as [|c p IH]; simpl; [by destruct r|].
  by rewrite (proj2 (ascii_compare_eq c c) eq_refl).
Qed.

#[export] Instance key_le_trans : Transitive key_le.
Proof.
  intros a b c [H1|[H1 H1']] [H2|[H2 H2']]; unfold key_le.
  - left. by eapply str_lt_trans.
  - left. congruence.
  - left. congruence.
  - right. split; [congruence|]. intros H.
    destruct (str_lt_total b.1.2 a.1.2) as [?|[Heq|?]]; [done| |].
    + rewrite <- Heq in H. done.
    + apply H2'. by eapply str_lt_trans.
Qed.
#[export] Instance key_le_total : Total key_le.
Proof.
  intros a b. unfold key_le.
  destruct (str_lt_total a.1.1 b.1.1) as [?|[?|?]]; [by auto| |by auto].
  destruct (decide (str_lt b.1.2 a.1.2)) as [Hlt|?]; [|by auto].
  right. right. split; [done|]. by apply str_lt_asym.
Qed.

Lemma elem_of_ListHosted feed prefix db kv :
  kv ∈ ListHosted feed prefix db <->
  hosted_manifests db !! kv.1 = Some kv.2 /\ (feed = "" \/ kv.1.1 = feed) /\
  like (prefix +:+ "%") kv.1.2 = true.
Proof.
  unfold ListHosted. rewrite merge_sort_Permutation, list_elem_of_filter.
  destruct kv as [k v]. rewrite elem_of_map_to_list. simpl. tauto.
Qed.

Lemma hosted_row_at feed path db :
  feed <> "" ->
  (plain path = true ->
   HostedRowAt feed path db = (fun r => (feed, path, r)) <$> hosted_manifests db !! (feed, path)) /\
  (forall kv, HostedRowAt feed path db = Some kv ->
     kv.1 = (feed, path) /\ hosted_manifests db !! (feed, path) = Some kv.2).
Proof.
  intros Hf.
  assert (Hsound : forall kv, HostedRowAt feed path db = Some kv ->
     kv.1 = (feed, path) /\ hosted_manifests db !! (feed, path) = Some kv.2).
  { intros [[f p] r]. unfold HostedRowAt. rewrite bind_Some. intros ([i kv] & Hl & [= ->]).
    apply list_find_Some in Hl as (Hi & Hp & _). simpl in Hp.
    apply list_elem_of_lookup_2, elem_of_take in Hi as (j & Hj & _).
    apply list_elem_of_lookup_2, elem_of_ListHosted in Hj as (Hl & [?|Hfeed] & _); [done|].
    simpl in *. subst. done. }
  split; [|exact Hsound]. intros Hplain.
  destruct (hosted_manifests db !! (feed, path)) as [r|] eqn:Er; simpl.
  2: { destruct (HostedRowAt feed path db) as [kv|] eqn:E; [|done].
       by destruct (Hsound kv eq_refl) as [_ ?]. }
  assert (Hin : (feed, path, r) ∈ ListHosted feed path db).
  { apply elem_of_ListHosted. split_and!; [done|by right|]. simpl. rewrite like_plain by done.
    rewrite has_prefix_spec. exists "". by rewrite str_app_nil_r. }
  unfold HostedRowAt. pose proof (StronglySorted_merge_sort key_le
    (filter (fun kv => (feed = "" \/ kv.1.1 = feed) /\ like (path +:+ "%") kv.1.2 = true)
       (map_to_list (hosted_manifests db)))) as Hsort.
  fold (ListHosted feed path db) in Hsort.
  destruct (ListHosted feed path db) as [|h t] eqn:El; [by apply not_elem_of_nil in Hin|].
  assert (Hh : hosted_manifests db !! h.1 = Some h.2 /\ h.1 = (feed, path)).
  { assert (h ∈ ListHosted feed path db) as (Hl & [?|Hhf] & Hlike)%elem_of_ListHosted;
      [rewrite El; by left|done|].
    split; [done|]. rewrite like_plain in Hlike by done.
    apply elem_of_cons in Hin as [<-|Hin]; [done|].
    apply StronglySorted_inv in Hsort as [_ Hall]. rewrite Forall_forall in Hall.
    destruct (Hall _ Hin) as [Hlt|[_ Hge]]; simpl in *; [subst; by apply str_lt_irrefl in Hlt|].
    destruct h as [[hf hp] hr]. simpl in *. f_equal; [done|].
    apply prefix_not_lt in Hlike. destruct (str_lt_total hp path) as [?|[?|?]]; done. }
  destruct Hh as [Hl Hk]. rewrite Hk, Er in Hl. destruct h as [k v]. simpl in *. simplify_eq. simpl.
  by rewrite decide_True.
Qed.

(** Reading one hosted row is exact for a path without pattern
    characters: it returns the row of that feed and path when there is one and
    nothing otherwise; for any path, a row it returns is a row of that path. *)
Theorem hosted_row_exact feed path db :
  feed <> "" ->
  (plain path = true ->
   HostedRowAt feed path db = (fun r => (feed, path, r)) <$> hosted_manifests db !! (feed, path)) /\
  (forall kv, HostedRowAt feed path db = Some kv ->
     kv.1 = (feed, path) /\ hosted_manifests db !! (feed, path) = Some kv.2).
Proof. apply hosted_row_at. Qed.

Definition demo_row : HostedRow := mkHosted "npm:lib@1" "d1" 1 ∅ ∅ false "publish" "a" "ci".
Definition shadowed_db : DB :=
  set_hosted empty_db (<[("f", "my-lib.tgz") := demo_row]> {[("f", "my_lib.tgz") := demo_row]}).

Lemma hosted_row_exact_witness :
  HostedRowAt "f" "my-lib.tgz" shadowed_db = Some ("f", "my-lib.tgz", demo_row).
Proof. exact (proj1 (hosted_row_exact "f" "my-lib.tgz" shadowed_db ltac:(discriminate)) eq_refl). Defined.

(** A path with an underscore can be reported missing although its row is
    there: the pattern also matches a sibling that sorts first, and only the
    first match is read. *)
Theorem hosted_row_shadowed :
  hosted_manifests shadowed_db !! ("f", "my_lib.tgz") = Some demo_row /\
  HostedRowAt "f" "my_lib.tgz" shadowed_db = None.
Proof. split; vm_compute; reflexivity. Qed.
