(* ===== verification/Events.v ===== *)
(** * Replication events: [core/repl/events.go]

    The payloads of journal entries and their JSON form. Payloads are stored
    in a JSONB column, so they are JSON values; decoding one into a Go struct
    looks up each field by its tag, keeps the zero value when it is absent or
    null, and fails on a value of the wrong type or an integer outside the
    int64 range. Encoding leaves out empty [omitempty] fields. *)

From S2P Require Import Prelude State.
Open Scope Z_scope.

(** ** Event kinds *)

Definition KindManifestPut : string := "manifest_put".
Definition KindBlobAvailable : string := "blob_available".
Definition KindTokenRevoke : string := "token_revoke".
Definition KindQuarantineSet : string := "quarantine_set".
Definition KindQuarantineRelease : string := "quarantine_release".
Definition KindConflictResolve : string := "conflict_resolve".

(** ** Payloads *)

Record ManifestPut := mkManifestPut {
  mp_feed : string;
  mp_path : string;
  mp_coord : string;
  mp_sha256 : string;
  mp_size : Z;
  mp_checksums : gmap string string;
  mp_metadata : gmap string string;
  mp_mutable : bool;
  mp_publisher : string;
  mp_site : string;
}.

Record BlobAvailable := mkBlobAvailable { ba_sha256 : string; ba_size : Z }.

Record TokenRevoke := mkTokenRevoke { tr_hash : string }.

Record QuarantineSet := mkQuarantineSet {
  qs_feed : string;
  qs_coordinate : string;
  qs_reason : string;
  qs_detail : string;
}.

Record QuarantineRelease := mkQuarantineRelease {
  qr_feed : string;
  qr_coordinate : string;
  qr_reason : string;
}.

Record ConflictResolve := mkConflictResolve {
  cr_feed : string;
  cr_path : string;
  cr_coord : string;
  cr_keep : string;
  cr_operator : string;
}.

(** ** Decoding *)

Abbreviation fields := (list (string * json)).

(** The value of a field: the last one wins when a key is repeated. *)
Fixpoint field (key : string) (fs : fields) : json :=
  match fs with
  | [] => JNull
  | (k, v) :: fs' =>
      match field key fs' with
      | JNull => if decide (k = key) then v else JNull
      | v' => v'
      end
  end.

Definition get_string (key : string) (fs : fields) : option string :=
  match field key fs with
  | JStr s => Some s
  | JNull => Some ""
  | _ => None
  end.

Definition get_int64 (key : string) (fs : fields) : option Z :=
  match field key fs with
  | JNum z => if decide (- 2 ^ 63 <= z < 2 ^ 63) then Some z else None
  | JNull => Some 0
  | _ => None
  end.

Definition get_bool (key : string) (fs : fields) : option bool :=
  match field key fs with
  | JBool b => Some b
  | JNull => Some false
  | _ => None
  end.

(** A JSON object of strings; a null value stores the empty string. *)
Fixpoint string_map (fs : fields) : option (gmap string string) :=
  match fs with
  | [] => Some ∅
  | (k, v) :: fs' =>
      m ← string_map fs';
      match v with
      | JStr s => Some (match m !! k with Some _ => m | None => <[k := s]> m end)
      | JNull => Some (match m !! k with Some _ => m | None => <[k := ""]> m end)
      | _ => None
      end
  end.

Definition get_map (key : string) (fs : fields) : option (gmap string string) :=
  match field key fs with
  | JObj m => string_map m
  | JNull => Some ∅
  | _ => None
  end.

(** The object a payload must be; null decodes as the zero value. *)
Definition object (j : json) : option fields :=
  match j with
  | JObj fs => Some fs
  | JNull => Some []
  | _ => None
  end.

Definition decode_manifest_put (j : json) : option ManifestPut :=
  fs ← object j;
  feed ← get_string "feed" fs;
  path ← get_string "path" fs;
  coord ← get_string "coordinate" fs;
  sha ← get_string "sha256" fs;
  size ← get_int64 "size" fs;
  checksums ← get_map "checksums" fs;
  metadata ← get_map "metadata" fs;
  mutable ← get_bool "mutable" fs;
  publisher ← get_string "published_by" fs;
  site ← get_string "site" fs;
  Some (mkManifestPut feed path coord sha size checksums metadata mutable publisher site).

Definition decode_blob_available (j : json) : option BlobAvailable :=
  fs ← object j;
  sha ← get_string "sha256" fs;
  size ← get_int64 "size" fs;
  Some (mkBlobAvailable sha size).

Definition decode_token_revoke (j : json) : option TokenRevoke :=
  fs ← object j;
  hash ← get_string "hash" fs;
  Some (mkTokenRevoke hash).

Definition decode_quarantine_set (j : json) : option QuarantineSet :=
  fs ← object j;
  feed ← get_string "feed" fs;
  coordinate ← get_string "coordinate" fs;
  reason ← get_string "reason" fs;
  detail ← get_string "detail" fs;
  Some (mkQuarantineSet feed coordinate reason detail).

Definition decode_quarantine_release (j : json) : option QuarantineRelease :=
  fs ← object j;
  feed ← get_string "feed" fs;
  coordinate ← get_string "coordinate" fs;
  reason ← get_string "reason" fs;
  Some (mkQuarantineRelease feed coordinate reason).

Definition decode_conflict_resolve (j : json) : option ConflictResolve :=
  fs ← object j;
  feed ← get_string "feed" fs;
  path ← get_string "path" fs;
  coord ← get_string "coordinate" fs;
  keep ← get_string "keep_sha256" fs;
  operator ← get_string "operator" fs;
  Some (mkConflictResolve feed path coord keep operator).

(** ** Encoding *)

Definition put_string (key s : string) : fields := [(key, JStr s)].
Definition put_nonempty (key s : string) : fields :=
  if decide (s = "") then [] else [(key, JStr s)].
Definition put_map (key : string) (m : gmap string string) : fields :=
  if decide (m = ∅) then []
  else [(key, JObj ((fun kv => (kv.1, JStr kv.2)) <$> map_to_list m))].

Definition encode_manifest_put (p : ManifestPut) : json :=
  JObj (put_string "feed" (mp_feed p) ++ put_string "path" (mp_path p) ++
        put_string "coordinate" (mp_coord p) ++ put_string "sha256" (mp_sha256 p) ++
        [("size", JNum (mp_size p))] ++ put_map "checksums" (mp_checksums p) ++
        put_map "metadata" (mp_metadata p) ++
        (if mp_mutable p then [("mutable", JBool true)] else []) ++
        put_string "published_by" (mp_publisher p) ++ put_nonempty "site" (mp_site p)).

Definition encode_blob_available (p : BlobAvailable) : json :=
  JObj [("sha256", JStr (ba_sha256 p)); ("size", JNum (ba_size p))].

Definition encode_token_revoke (p : TokenRevoke) : json :=
  JObj [("hash", JStr (tr_hash p))].

Definition encode_quarantine_set (p : QuarantineSet) : json :=
  JObj (put_string "feed" (qs_feed p) ++ put_string "coordinate" (qs_coordinate p) ++
        put_string "reason" (qs_reason p) ++ put_nonempty "detail" (qs_detail p)).

Definition encode_quarantine_release (p : QuarantineRelease) : json :=
  JObj (put_string "feed" (qr_feed p) ++ put_string "coordinate" (qr_coordinate p) ++
        put_string "reason" (qr_reason p)).

Definition encode_conflict_resolve (p : ConflictResolve) : json :=
  JObj (put_string "feed" (cr_feed p) ++ put_string "path" (cr_path p) ++
        put_string "coordinate" (cr_coord p) ++ put_string "keep_sha256" (cr_keep p) ++
        put_string "operator" (cr_operator p)).

(** ** Round trips *)

Lemma field_app key fs gs :
  field key (fs ++ gs) = match field key gs with JNull => field key fs | v => v end.
Proof.
  induction fs as [|[k v] fs IH]; simpl; [by destruct (field key gs)|].
  rewrite IH. by destruct (field key gs).
Qed.

Lemma field_put_string key k s :
  field key (put_string k s) = if decide (k = key) then JStr s else JNull.
Proof. done. Qed.

Lemma field_put_nonempty key k s :
  field key (put_nonempty k s) =
  if decide (k = key /\ s <> "") then JStr s else JNull.
Proof. unfold put_nonempty. repeat case_decide; simpl; repeat case_decide; naive_solver. Qed.

Lemma field_put_map key k m :
  field key (put_map k m) =
  if decide (k = key /\ m <> ∅)
  then JObj ((fun kv => (kv.1, JStr kv.2)) <$> map_to_list m) else JNull.
Proof.
  unfold put_map. repeat case_decide; simpl; repeat case_decide; naive_solver.
Qed.

Lemma string_map_list (l : list (string * string)) :
  NoDup l.*1 ->
  string_map ((fun kv => (kv.1, JStr kv.2)) <$> l) = Some (list_to_map l).
Proof.
  induction l as [|[k s] l IH]; [done|].
  rewrite !fmap_cons. intros [Hk Hnd]%NoDup_cons. cbn [string_map]. rewrite IH by done. simpl.
  by rewrite not_elem_of_list_to_map_1 by done.
Qed.

Lemma get_map_put key m fs gs :
  field key gs = JNull -> field key fs = JNull ->
  get_map key (fs ++ put_map key m ++ gs) = Some m.
Proof.
  intros Hg Hf. unfold get_map. rewrite !field_app, Hg, field_put_map.
  case_decide as Hm.
  - rewrite string_map_list by apply NoDup_fst_map_to_list.
    by rewrite list_to_map_to_list.
  - rewrite Hf. destruct (decide (m = ∅)) as [->|]; naive_solver.
Qed.

(** Evaluate the comparison of literal keys. *)
Ltac decide_keys :=
  repeat match goal with
  | |- context [decide (?a = ?b)] =>
      first [ rewrite (decide_False (P := a = b)) by discriminate
            | rewrite (decide_True (P := a = a)) by reflexivity ]
  | |- context [decide (?a = ?b /\ ?c)] =>
      first [ rewrite (decide_False (P := a = b /\ c)) by (intros [? _]; discriminate)
            | rewrite (decide_ext (a = a /\ c) c) by tauto ]
  end.

Lemma field_if key (b : bool) fs :
  field key (if b then fs else []) = if b then field key fs else JNull.
Proof. by destruct b. Qed.

Lemma field_one key k v : field key [(k, v)] = if decide (k = key) then v else JNull.
Proof. done. Qed.

Create Rewrite HintDb json.
#[export] Hint Rewrite field_app field_put_string field_put_nonempty field_put_map
  field_if field_one : json.

(** Compute a getter on an encoded object. *)
Ltac getter := unfold get_string, get_int64, get_bool, get_map; autorewrite with json; decide_keys.

Lemma string_map_encoded (m : gmap string string) :
  string_map ((fun kv => (kv.1, JStr kv.2)) <$> map_to_list m) = Some m.
Proof.
  rewrite string_map_list by apply NoDup_fst_map_to_list. by rewrite list_to_map_to_list.
Qed.

Definition int64 (z : Z) : Prop := - 2 ^ 63 <= z < 2 ^ 63.

#[export] Instance int64_dec z : base.Decision (int64 z).
Proof. unfold int64. apply _. Defined.

(** A manifest_put payload survives its journal encoding. *)
Lemma decode_encode_manifest_put p :
  int64 (mp_size p) -> decode_manifest_put (encode_manifest_put p) = Some p.
Proof.
  intros Hs. destruct p as [feed path coord sha size cs md mut pub site]; simpl in *.
  unfold decode_manifest_put, encode_manifest_put. cbn [object mbind option_bind].
  set (fs := _ ++ _).
  assert (get_string "feed" fs = Some feed) as -> by (subst fs; getter; by destruct mut). simpl.
  assert (get_string "path" fs = Some path) as -> by (subst fs; getter; by destruct mut). simpl.
  assert (get_string "coordinate" fs = Some coord) as -> by (subst fs; getter; by destruct mut). simpl.
  assert (get_string "sha256" fs = Some sha) as -> by (subst fs; getter; by destruct mut). simpl.
  assert (get_int64 "size" fs = Some size) as ->
    by (subst fs; getter; destruct mut; simpl; by rewrite decide_True). simpl.
  assert (get_map "checksums" fs = Some cs) as ->.
  { subst fs; getter. destruct mut; simpl; case_decide as Hc;
      rewrite ?string_map_encoded; f_equal; try done; symmetry; by apply dec_stable. }
  simpl. assert (get_map "metadata" fs = Some md) as ->.
  { subst fs; getter. destruct mut; simpl; case_decide as Hc;
      rewrite ?string_map_encoded; f_equal; try done; symmetry; by apply dec_stable. }
  simpl. assert (get_bool "mutable" fs = Some mut) as -> by (subst fs; getter; by destruct mut).
  simpl. assert (get_string "published_by" fs = Some pub) as -> by (subst fs; getter; by destruct mut).
  simpl. assert (get_string "site" fs = Some site) as ->.
  { subst fs; getter. destruct mut; simpl; case_decide; f_equal; try done;
      symmetry; by apply dec_stable. }
  done.
Qed.

Lemma decode_encode_blob_available p :
  int64 (ba_size p) -> decode_blob_available (encode_blob_available p) = Some p.
Proof. intros H. destruct p. unfold decode_blob_available; simpl in *. getter. simpl. by rewrite decide_True. Qed.

Lemma decode_encode_token_revoke p : decode_token_revoke (encode_token_revoke p) = Some p.
Proof. by destruct p. Qed.

Lemma decode_encode_quarantine_release p :
  decode_quarantine_release (encode_quarantine_release p) = Some p.
Proof. by destruct p. Qed.

Lemma decode_encode_conflict_resolve p :
  decode_conflict_resolve (encode_conflict_resolve p) = Some p.
Proof. by destruct p. Qed.

Lemma decode_encode_quarantine_set p :
  decode_quarantine_set (encode_quarantine_set p) = Some p.
Proof.
  destruct p as [feed coord reason detail].
  unfold decode_quarantine_set, encode_quarantine_set, put_nonempty; simpl.
  by case_decide; subst.
Qed.
