(* ===== verification/ReplSql.v ===== *)
(** * Merge statements: [core/repl/sql.go]

    The reads and writes the applier performs inside its transaction. Each
    writing function maps tables to tables; the reads return what the query
    selects. Marshalling a [sideMeta] or a string map to JSONB and back is the
    identity on the values involved. *)

From S2P Require Import Prelude State Events.
Open Scope Z_scope.

(** Errors of the replication code: an event to retry later, a failed SQL
    statement, a refused stream entry, a nil dereference. *)
Inductive repl_error :=
| ErrPark (reason : string)
| ErrSQL (what : string)
| ErrThirdSite (peer origin : string)
| ErrNilBlobs
| ErrNotASide.

(** [hostedState]. *)
Definition hostedState (db : DB) (feed path : string) : option HostedRow :=
  hosted_manifests db !! (feed, path).

(** One stamp column: absent reads as 0, and the cast to BIGINT fails on text
    that is not a number. *)
Definition stamp_field (key : string) (m : gmap string string) : result repl_error Z :=
  match m !! key with
  | None => Ok 0
  | Some s => match parse_int s with
              | Some z => Ok z
              | None => Err (ErrSQL "invalid input syntax for type bigint")
              end
  end.

Definition stored_stamp (r : HostedRow) : result repl_error HLC :=
  let? wall := stamp_field "hlc_wall" (h_metadata r) in
  let? logical := stamp_field "hlc_logical" (h_metadata r) in
  Ok (mkHLC wall logical).

(** [isNewerThanStored]. *)
Definition isNewerThanStored (db : DB) (feed path : string) (hlc : HLC)
    (incomingSHA storedSHA : string) : result repl_error bool :=
  match hosted_manifests db !! (feed, path) with
  | None => Ok true
  | Some r =>
      let? stored := stored_stamp r in
      if Before stored hlc then Ok true
      else if bool_decide (stored = hlc) && str_ltb incomingSHA storedSHA then Ok true
      else Ok false
  end.

(** The publishing site of a replicated coordinate. *)
Definition put_site (p : ManifestPut) (e : JournalEntry) : string :=
  if decide (mp_site p = "") then OriginSite e else mp_site p.

(** [insertHosted]. *)
Definition insertHosted (p : ManifestPut) (e : JournalEntry) (db : DB) : DB :=
  match hosted_manifests db !! (mp_feed p, mp_path p) with
  | Some _ => db
  | None =>
      set_hosted db
        (<[(mp_feed p, mp_path p) :=
             mkHosted (mp_coord p) (mp_sha256 p) (mp_size p) (mp_checksums p)
               (stamp_metadata (EHLC e) (mp_metadata p)) (mp_mutable p)
               "replication" (put_site p e) (mp_publisher p)]> (hosted_manifests db))
  end.

(** [updateHosted]. *)
Definition updateHosted (p : ManifestPut) (e : JournalEntry) (db : DB) : DB :=
  match hosted_manifests db !! (mp_feed p, mp_path p) with
  | None => db
  | Some old =>
      set_hosted db
        (<[(mp_feed p, mp_path p) :=
             mkHosted (h_coordinate old) (mp_sha256 p) (mp_size p) (mp_checksums p)
               (stamp_metadata (EHLC e) (mp_metadata p)) (mp_mutable p)
               "replication" (put_site p e) (mp_publisher p)]> (hosted_manifests db))
  end.

(** [quarantineTx]: activate a reason unless a newer decision is stored. *)
Definition quarantineTx (feed coordinate reason detail : string) (hlc : HLC) (db : DB) : DB :=
  match quarantine db !! (feed, coordinate, reason) with
  | None =>
      set_quarantine db
        (<[(feed, coordinate, reason) := mkQuarantine detail true hlc]> (quarantine db))
  | Some q =>
      if Before hlc (q_hlc q) then db
      else set_quarantine db
        (<[(feed, coordinate, reason) := mkQuarantine detail true hlc]> (quarantine db))
  end.

(** [releaseQuarantineTx]: lift a reason when strictly newer. *)
Definition releaseQuarantineTx (feed coordinate reason : string) (hlc : HLC) (db : DB) : DB :=
  match quarantine db !! (feed, coordinate, reason) with
  | None =>
      set_quarantine db
        (<[(feed, coordinate, reason) := mkQuarantine "" false hlc]> (quarantine db))
  | Some q =>
      if Before (q_hlc q) hlc
      then set_quarantine db
        (<[(feed, coordinate, reason) := mkQuarantine (q_detail q) false hlc]> (quarantine db))
      else db
  end.

Definition conflict_reason : string := "cross_site_conflict".

(** Unresolved conflicts of a coordinate. *)
Definition open_for (db : DB) (feed coordinate : string) : list ConflictRow :=
  filter (fun c => c_feed c = feed /\ c_coordinate c = coordinate /\ c_resolved c = None)
    (publish_conflicts db).

(** [syncConflictQuarantineTx]: the conflict block follows the open
    conflicts. *)
Definition syncConflictQuarantineTx (feed coordinate : string) (db : DB) : DB :=
  let key := (feed, coordinate, conflict_reason) in
  match open_for db feed coordinate with
  | _ :: _ as open =>
      let detail := format_int (Z.of_nat (length open)) +:+ " unresolved cross-site conflict(s)" in
      set_quarantine db
        (<[key := match quarantine db !! key with
                  | None => mkQuarantine detail true (mkHLC 0 0)
                  | Some q => mkQuarantine detail true (q_hlc q)
                  end]> (quarantine db))
  | [] =>
      set_quarantine db
        (alter (fun q => mkQuarantine (q_detail q) false (q_hlc q)) key (quarantine db))
  end.

(** [resolution]. *)
Record resolution := mkRes {
  KeepSHA : string;
  res_size : Z;
  res_checksums : gmap string string;
  res_metadata : gmap string string;
  res_hlc : HLC;
}.

(** [storedResolution]. *)
Definition storedResolution (db : DB) (feed path : string) : option resolution :=
  r ← conflict_resolutions db !! (feed, path);
  Some (mkRes (r_keep r) (r_size r) (r_checksums r) (r_metadata r) (r_hlc r)).

(** The order of decisions: row comparison of (wall, logical, digest). *)
Definition decision_lt (a b : HLC * string) : Prop :=
  hlc_lt a.1 b.1 \/ (a.1 = b.1 /\ str_lt a.2 b.2).
#[export] Instance decision_lt_dec : RelDecision decision_lt.
Proof. intros a b. unfold decision_lt. apply _. Defined.

(** [recordResolution]: the newest decision wins, the digest breaks ties. *)
Definition recordResolution (feed path coord : string) (r : resolution)
    (operator decidedBy : string) (db : DB) : DB :=
  let row := mkResolution coord (KeepSHA r) (res_size r) (res_checksums r)
               (res_metadata r) operator decidedBy (res_hlc r) in
  match conflict_resolutions db !! (feed, path) with
  | None => set_resolutions db (<[(feed, path) := row]> (conflict_resolutions db))
  | Some old =>
      if decide (decision_lt (r_hlc old, r_keep old) (res_hlc r, KeepSHA r))
      then set_resolutions db
             (<[(feed, path) :=
                  mkResolution (r_coordinate old) (KeepSHA r) (res_size r) (res_checksums r)
                    (res_metadata r) operator decidedBy (res_hlc r)]> (conflict_resolutions db))
      else db
  end.

(** [blobSize]: a positive size some coordinate records for the digest. *)
Definition blobSize (db : DB) (sha : string) : Z :=
  match filter (fun r => h_sha256 r = sha /\ 0 < h_size r)
          (snd <$> map_to_list (hosted_manifests db)) with
  | r :: _ => h_size r
  | [] => 0
  end.

(** The recovery of a side recorded without its data. The two lookups run
    while the outer result set is still open; [nested] says whether the driver
    serves such a query, and the code ignores the error when it does not. *)
Definition recover_side (nested : bool) (db : DB) (feed path : string) (m : sideMeta) : sideMeta :=
  let m :=
    if decide (nested = true /\ s_size m = 0 /\ s_checksums m = ∅) then
      match hostedState db feed path with
      | Some stored =>
          if decide (h_sha256 stored = s_sha256 m)
          then mkSide (s_sha256 m) (h_size stored) (h_checksums stored) (h_metadata stored)
          else m
      | None => m
      end
    else m in
  if decide (nested = true /\ s_size m = 0) then
    let size := blobSize db (s_sha256 m) in
    if decide (0 < size) then mkSide (s_sha256 m) size (s_checksums m) (s_metadata m) else m
  else m.

(** The rows of one path. *)
Definition path_conflicts (db : DB) (feed path : string) : list ConflictRow :=
  filter (fun c => c_feed c = feed /\ c_path c = path) (publish_conflicts db).

Fixpoint find_side (sha : string) (rows : list ConflictRow) : option sideMeta :=
  match rows with
  | [] => None
  | c :: rows' =>
      if decide (c_winner c = sha) then
        Some (mkSide sha (s_size (c_winner_meta c)) (s_checksums (c_winner_meta c))
                (s_metadata (c_winner_meta c)))
      else if decide (c_loser c = sha) then
        Some (mkSide sha (s_size (c_loser_meta c)) (s_checksums (c_loser_meta c))
                (s_metadata (c_loser_meta c)))
      else find_side sha rows'
  end.

(** [conflictSide]: the recorded data of one side of a conflict. *)
Definition conflictSide (nested : bool) (db : DB) (feed path sha : string) : option sideMeta :=
  recover_side nested db feed path <$> find_side sha (path_conflicts db feed path).

(** [conflictSideSite]: which site published a conflicting digest, or empty. *)
Definition conflictSideSite (db : DB) (feed path sha : string) : string :=
  match filter (fun c => c_winner c = sha \/ c_loser c = sha) (path_conflicts db feed path) with
  | c :: _ => if decide (c_winner c = sha) then c_winner_site c else c_loser_site c
  | [] => ""
  end.

(** [applyResolutionTx]: point the coordinate at the kept digest, close the
    path's conflicts, recompute the coordinate's block. *)
Definition applyResolutionTx (feed path coord : string) (r : resolution) (decidedBy : string)
    (db : DB) : DB :=
  let site := conflictSideSite db feed path (KeepSHA r) in
  let keptSite := if decide (site = "") then decidedBy else site in
  let row :=
    match hosted_manifests db !! (feed, path) with
    | None => mkHosted coord (KeepSHA r) (res_size r) (res_checksums r) (res_metadata r)
                false "replication" keptSite "conflict-resolution"
    | Some old => mkHosted (h_coordinate old) (KeepSHA r) (res_size r) (res_checksums r)
                    (res_metadata r) (h_mutable old) (h_origin old) (h_site old)
                    (h_published_by old)
    end in
  let db := set_hosted db (<[(feed, path) := row]> (hosted_manifests db)) in
  let db := ResolveConflict feed path (KeepSHA r) db in
  syncConflictQuarantineTx feed coord db.

(** [recordResolvedConflictTx]: a publish rejected by an earlier decision is
    filed as an already resolved conflict, once per digest. *)
Definition recordResolvedConflictTx (p : ManifestPut) (kept rejected : sideMeta)
    (rejectedSite : string) (db : DB) : DB :=
  if existsb (fun c => bool_decide (c_winner c = s_sha256 rejected \/
                                    c_loser c = s_sha256 rejected))
       (path_conflicts db (mp_feed p) (mp_path p))
  then db
  else set_conflicts db
    (publish_conflicts db ++
       [mkConflict (mp_feed p) (mp_path p) (mp_coord p) (s_sha256 kept) (s_sha256 rejected)
          "resolved" rejectedSite kept rejected (Some (s_sha256 kept))]).

(** [recordConflictTx]. *)
Definition recordConflictTx (p : ManifestPut) (winner loser : sideMeta)
    (winnerSite loserSite : string) (db : DB) : DB :=
  set_conflicts db
    (publish_conflicts db ++
       [mkConflict (mp_feed p) (mp_path p) (mp_coord p) (s_sha256 winner) (s_sha256 loser)
          winnerSite loserSite winner loser None]).

(** [importConflictTx]: a conflict learned from a snapshot. *)
Definition importConflictTx (c : ConflictRow) (db : DB) : DB :=
  let db :=
    if existsb (fun d => bool_decide (c_winner d = c_winner c /\ c_loser d = c_loser c))
         (path_conflicts db (c_feed c) (c_path c))
    then db
    else set_conflicts db
      (publish_conflicts db ++
         [mkConflict (c_feed c) (c_path c) (c_coordinate c) (c_winner c) (c_loser c)
            (c_winner_site c) (c_loser_site c) (c_winner_meta c) (c_loser_meta c) None]) in
  syncConflictQuarantineTx (c_feed c) (c_coordinate c) db.
