(* ===== verification/Applier.v ===== *)
(** * The applier: [core/repl/applier.go] and [core/repl/journal_writer.go]

    Merging a peer's journal into this site's state. A transaction's working
    state ([Txn]) holds the tables, the local blobs, the feeds touched and the
    queued projection writes; an event is dispatched on its kind, and an event
    that cannot be applied yet is parked with the tables rolled back.

    What is not under the repository's control is part of [Env]: the wall
    clock, whether a peer can supply a blob, whether the projection writer
    accepts a write, whether the database driver serves a nested query. *)

From S2P Require Import Prelude State Events ReplSql.
Open Scope Z_scope.

(** [projectionWrite]. *)
Record projectionWrite := mkProjection {
  pw_feed : string;
  pw_path : string;
  pw_sha256 : string;
  pw_size : Z;
  pw_checksums : gmap string string;
  pw_metadata : gmap string string;
  pw_origin : string;
  pw_publisher : string;
}.

(** The fields of [Applier] and the outside world it talks to. *)
Record Env := mkEnv {
  a_site : string;
  a_now : Z;                                 (** wall clock, ms *)
  a_max_skew : Z;                            (** nanoseconds *)
  a_eager : string -> bool;
  a_blobs : bool;                            (** [a.blobs != nil] *)
  a_fetch : string -> Z -> string -> bool;   (** EnsureBlob gets the bytes *)
  a_project : option (projectionWrite -> bool);
  a_nested : bool;
}.

(** [NewApplier]'s default for the skew bound. *)
Definition default_max_skew (skew : Z) : Z :=
  if skew <=? 0 then 5 * 60 * 1000000000 else skew.

(** [withoutEagerFeeds]. *)
Definition withoutEagerFeeds (a : Env) : Env :=
  mkEnv (a_site a) (a_now a) (a_max_skew a) (fun _ => false) (a_blobs a) (a_fetch a)
    (a_project a) (a_nested a).

(** Working state of one apply. *)
Record Txn := mkTxn {
  tx_db : DB;
  tx_blobs : gset string;
  tx_touched : gset string;
  tx_pending : list projectionWrite;
}.

Definition with_db (t : Txn) (db : DB) : Txn :=
  mkTxn db (tx_blobs t) (tx_touched t) (tx_pending t).

Definition finish (t : Txn) (db : DB) (feed : string) (w : projectionWrite) : Txn :=
  mkTxn db (tx_blobs t) ({[feed]} ∪ tx_touched t) (tx_pending t ++ [w]).

(** [BlobFetcher.EnsureBlob]: already here, or fetched. *)
Definition ensure_blob (a : Env) (blobs : gset string) (sha : string) (size : Z) (peer : string)
    : option (gset string) :=
  if decide (sha ∈ blobs) then Some blobs
  else if a_fetch a sha size peer then Some ({[sha]} ∪ blobs) else None.

(** ** Event handlers *)

(** Rule K1: the lexicographically smaller digest is canonical. *)
Definition k1_sides (incoming stored : sideMeta) (inSite stSite : string)
    : sideMeta * sideMeta * string * string :=
  if str_ltb (s_sha256 stored) (s_sha256 incoming)
  then (stored, incoming, stSite, inSite)
  else (incoming, stored, inSite, stSite).

Definition incoming_side (p : ManifestPut) : sideMeta :=
  mkSide (mp_sha256 p) (mp_size p) (mp_checksums p) (mp_metadata p).

Definition stored_side (r : HostedRow) : sideMeta :=
  mkSide (h_sha256 r) (h_size r) (h_checksums r) (h_metadata r).

Definition put_projection (p : ManifestPut) (e : JournalEntry) (s : sideMeta) : projectionWrite :=
  mkProjection (mp_feed p) (mp_path p) (s_sha256 s) (s_size s) (s_checksums s) (s_metadata s)
    (OriginSite e) (mp_publisher p).

(** The branch of [applyManifestPut] for a coordinate an operator decided. *)
Definition applyResolvedPut (e : JournalEntry) (p : ManifestPut) (d : resolution) (t : Txn) : Txn :=
  let kept := mkSide (KeepSHA d) (res_size d) (res_checksums d) (res_metadata d) in
  let db :=
    if decide (mp_sha256 p <> KeepSHA d) then
      syncConflictQuarantineTx (mp_feed p) (mp_coord p)
        (recordResolvedConflictTx p kept (incoming_side p) (OriginSite e) (tx_db t))
    else tx_db t in
  let db := applyResolutionTx (mp_feed p) (mp_path p) (mp_coord p) d (OriginSite e) db in
  finish t db (mp_feed p) (put_projection p e kept).

(** The branch of [applyManifestPut] for two digests of one immutable
    coordinate (rule K1). *)
Definition applyConflictingPut (e : JournalEntry) (p : ManifestPut) (existing : HostedRow)
    (t : Txn) : Txn :=
  let '(winner, loser, winnerSite, loserSite) :=
    k1_sides (incoming_side p) (stored_side existing) (OriginSite e) (h_site existing) in
  let db := if decide (s_sha256 winner <> h_sha256 existing)
            then updateHosted p e (tx_db t) else tx_db t in
  let db := recordConflictTx p winner loser winnerSite loserSite db in
  let db := syncConflictQuarantineTx (mp_feed p) (mp_coord p) db in
  finish t db (mp_feed p) (put_projection p e winner).

(** The merge of a decoded manifest_put. *)
Definition mergeManifestPut (a : Env) (e : JournalEntry) (p : ManifestPut) (t : Txn)
    : result repl_error Txn :=
  match storedResolution (tx_db t) (mp_feed p) (mp_path p) with
  | Some d => Ok (applyResolvedPut e p d t)
  | None =>
      match hostedState (tx_db t) (mp_feed p) (mp_path p) with
      | None =>
          Ok (finish t (insertHosted p e (tx_db t)) (mp_feed p)
                (put_projection p e (incoming_side p)))
      | Some existing =>
          if mp_mutable p && h_mutable existing then
            let? newer := isNewerThanStored (tx_db t) (mp_feed p) (mp_path p) (EHLC e)
                            (mp_sha256 p) (h_sha256 existing) in
            if newer : bool then
              Ok (finish t (updateHosted p e (tx_db t)) (mp_feed p)
                    (put_projection p e (incoming_side p)))
            else Ok t
          else if decide (h_sha256 existing = mp_sha256 p) then Ok t
          else Ok (applyConflictingPut e p existing t)
      end
  end.

(** [applyManifestPut]. *)
Definition applyManifestPut (a : Env) (e : JournalEntry) (t : Txn) : result repl_error Txn :=
  match decode_manifest_put (Payload e) with
  | None => Err (ErrPark "malformed manifest_put payload")
  | Some p =>
      if bool_decide (mp_feed p = "") || bool_decide (mp_path p = "") ||
         negb (String.length (mp_sha256 p) =? 64)%nat
      then Err (ErrPark "incomplete manifest_put payload")
      else if a_eager a (mp_feed p) && a_blobs a && bool_decide (mp_sha256 p ∉ tx_blobs t)
      then Err (ErrPark "blob not available locally")
      else mergeManifestPut a e p t
  end.

(** [applyBlobAvailable]: best effort, never an error of its own. *)
Definition applyBlobAvailable (a : Env) (peer : string) (e : JournalEntry) (t : Txn)
    : result repl_error Txn :=
  match decode_blob_available (Payload e) with
  | None => Err (ErrPark "malformed blob_available payload")
  | Some p =>
      if decide (ba_sha256 p = "") then Ok t
      else if negb (a_blobs a) then Err ErrNilBlobs
      else match ensure_blob a (tx_blobs t) (ba_sha256 p) (ba_size p) peer with
           | Some blobs => Ok (mkTxn (tx_db t) blobs (tx_touched t) (tx_pending t))
           | None => Ok t
           end
  end.

(** The revocation statement: a tombstone for an unknown hash. Token names are
    unique, so inserting a second row under one name fails. *)
Definition revoke_token (hash : string) (db : DB) : result repl_error DB :=
  let name := "revoked:" +:+ String.substring 0 16 hash in
  match tokens db !! hash with
  | Some t => Ok (set_tokens db (<[hash := mkToken (t_name t) true]> (tokens db)))
  | None =>
      if existsb (fun t => bool_decide (t_name t = name)) (snd <$> map_to_list (tokens db))
      then Err (ErrSQL "duplicate key value violates unique constraint on tokens.name")
      else Ok (set_tokens db (<[hash := mkToken name true]> (tokens db)))
  end.

(** [applyTokenRevoke]. *)
Definition applyTokenRevoke (e : JournalEntry) (t : Txn) : result repl_error Txn :=
  match decode_token_revoke (Payload e) with
  | None => Err (ErrPark "malformed token_revoke payload")
  | Some p =>
      if negb (String.length (tr_hash p) =? 64)%nat
      then Err (ErrPark "token_revoke carries an implausible hash")
      else let? db := revoke_token (tr_hash p) (tx_db t) in Ok (with_db t db)
  end.

(** [applyQuarantineSet]. *)
Definition applyQuarantineSet (e : JournalEntry) (t : Txn) : result repl_error Txn :=
  match decode_quarantine_set (Payload e) with
  | None => Err (ErrPark "malformed quarantine_set payload")
  | Some p =>
      if bool_decide (qs_feed p = "") || bool_decide (qs_coordinate p = "") ||
         bool_decide (qs_reason p = "")
      then Err (ErrPark "incomplete quarantine_set payload")
      else Ok (with_db t (quarantineTx (qs_feed p) (qs_coordinate p) (qs_reason p)
                            (qs_detail p) (EHLC e) (tx_db t)))
  end.

(** [applyQuarantineRelease]. *)
Definition applyQuarantineRelease (e : JournalEntry) (t : Txn) : result repl_error Txn :=
  match decode_quarantine_release (Payload e) with
  | None => Err (ErrPark "malformed quarantine_release payload")
  | Some p =>
      let reason := if decide (qr_reason p = "") then "manual" else qr_reason p in
      Ok (with_db t (releaseQuarantineTx (qr_feed p) (qr_coordinate p) reason (EHLC e) (tx_db t)))
  end.

(** [isHex]. *)
Fixpoint isHex (s : string) : bool :=
  match s with
  | EmptyString => true
  | String c s' =>
      let n := Z.of_N (Ascii.N_of_ascii c) in
      (((48 <=? n) && (n <=? 57)) || ((97 <=? n) && (n <=? 102))) && isHex s'
  end.

(** [applyConflictResolve]. *)
Definition applyConflictResolve (a : Env) (e : JournalEntry) (t : Txn) : result repl_error Txn :=
  match decode_conflict_resolve (Payload e) with
  | None => Err (ErrPark "malformed conflict_resolve payload")
  | Some p =>
      if bool_decide (cr_feed p = "") || bool_decide (cr_path p = "") ||
         negb (String.length (cr_keep p) =? 64)%nat || negb (isHex (cr_keep p))
      then Err (ErrPark "implausible conflict_resolve payload")
      else
        match conflictSide (a_nested a) (tx_db t) (cr_feed p) (cr_path p) (cr_keep p) with
        | None => Err (ErrPark "no recorded conflict names the digest")
        | Some side =>
            let decision := mkRes (s_sha256 side) (s_size side) (s_checksums side)
                              (s_metadata side) (EHLC e) in
            let db := recordResolution (cr_feed p) (cr_path p) (cr_coord p) decision
                        (cr_operator p) (OriginSite e) (tx_db t) in
            let winning := match storedResolution db (cr_feed p) (cr_path p) with
                           | Some w => w
                           | None => decision
                           end in
            let db := applyResolutionTx (cr_feed p) (cr_path p) (cr_coord p) winning
                        (OriginSite e) db in
            Ok (finish t db (cr_feed p)
                  (mkProjection (cr_feed p) (cr_path p) (KeepSHA winning) (res_size winning)
                     (res_checksums winning) (res_metadata winning) (OriginSite e)
                     (cr_operator p)))
        end
  end.

(** [dispatch]. *)
Definition dispatch (a : Env) (peer : string) (e : JournalEntry) (t : Txn)
    : result repl_error Txn :=
  if decide (Kind e = KindManifestPut) then applyManifestPut a e t
  else if decide (Kind e = KindBlobAvailable) then applyBlobAvailable a peer e t
  else if decide (Kind e = KindTokenRevoke) then applyTokenRevoke e t
  else if decide (Kind e = KindQuarantineSet) then applyQuarantineSet e t
  else if decide (Kind e = KindQuarantineRelease) then applyQuarantineRelease e t
  else if decide (Kind e = KindConflictResolve) then applyConflictResolve a e t
  else Err (ErrPark "unknown event kind").

(** [importSnapshotEntry]: like an event, never eager, never parked. *)
Definition importSnapshotEntry (a : Env) (peer : string) (e : JournalEntry) (t : Txn)
    : result repl_error Txn :=
  match dispatch (withoutEagerFeeds a) peer e t with
  | Err (ErrPark r) => Err (ErrSQL ("snapshot entry cannot be applied: " +:+ r))
  | r => r
  end.

(** ** One event, one batch, the parked ones *)

(** This site: tables, blobs, and the blob-store projections. *)
Record Site := mkSite {
  s_db : DB;
  s_blobs : gset string;
  s_projections : gmap (string * string) projectionWrite;
}.

(** [flushProjections]: failures are only logged. *)
Definition flushProjections (a : Env) (ws : list projectionWrite)
    (m : gmap (string * string) projectionWrite) : gmap (string * string) projectionWrite :=
  match a_project a with
  | None => m
  | Some accepts =>
      foldl (fun m w => if accepts w then <[(pw_feed w, pw_path w) := w]> m else m) m ws
  end.

(** [prefetchBlob]: an eager feed's bytes, before the transaction. *)
Definition prefetchBlob (a : Env) (peer : string) (e : JournalEntry) (blobs : gset string)
    : result repl_error (gset string) :=
  if decide (Kind e <> KindManifestPut \/ a_blobs a = false) then Ok blobs
  else match decode_manifest_put (Payload e) with
       | None => Err (ErrPark "malformed manifest_put payload")
       | Some p =>
           if bool_decide (mp_sha256 p = "") || negb (a_eager a (mp_feed p)) ||
              bool_decide (mp_sha256 p ∈ blobs)
           then Ok blobs
           else match ensure_blob a blobs (mp_sha256 p) (mp_size p) peer with
                | Some blobs => Ok blobs
                | None => Err (ErrPark "blob unavailable")
                end
       end.

(** The clock-skew guard of [applyOne], in int64 arithmetic: milliseconds are
    subtracted, then multiplied into a Duration of nanoseconds. *)
Definition event_skew (now : Z) (e : JournalEntry) : Z :=
  wrap64 (wrap64 (Wall (EHLC e) - now) * 1000000).

(** [applyOne]; the touched feeds come back with the site. *)
Definition applyOne (a : Env) (peer : string) (e : JournalEntry) (s : Site)
    : result repl_error (Site * gset string) :=
  if a_max_skew a <? event_skew (a_now a) e then
    Ok (mkSite (ParkEvent e "clock skew" (s_db s)) (s_blobs s) (s_projections s), ∅)
  else
    match prefetchBlob a peer e (s_blobs s) with
    | Err (ErrPark r) =>
        Ok (mkSite (ParkEvent e r (s_db s)) (s_blobs s) (s_projections s), ∅)
    | Err err => Err err
    | Ok blobs =>
        let '(db, fresh) := ApplyForeignJournal (a_now a) e (s_db s) in
        if negb fresh then Ok (mkSite db blobs (s_projections s), ∅)
        else
          match dispatch a peer e (mkTxn db blobs ∅ []) with
          | Err (ErrPark r) =>
              Ok (mkSite (ParkEvent e r (s_db s)) blobs (s_projections s), ∅)
          | Err err => Err err
          | Ok t =>
              Ok (mkSite (tx_db t) (tx_blobs t)
                    (flushProjections a (tx_pending t) (s_projections s)), tx_touched t)
          end
    end.

(** [ApplyBatch]: the site after the batch, the feeds touched, and the error
    that stopped it if one did; what was applied before stays applied. *)
Fixpoint ApplyBatch (a : Env) (peer : string) (es : list JournalEntry) (s : Site)
    (touched : gset string) : Site * gset string * option repl_error :=
  match es with
  | [] => (s, touched, None)
  | e :: es' =>
      if decide (OriginSite e = a_site a) then ApplyBatch a peer es' s touched
      else if decide (OriginSite e <> peer) then
        (s, touched, Some (ErrThirdSite peer (OriginSite e)))
      else match applyOne a peer e s with
           | Err err => (s, touched, Some err)
           | Ok (s', fs) => ApplyBatch a peer es' s' (fs ∪ touched)
           end
  end.

(** One parked event retried: unlike [applyOne] there is no skew guard, and a
    recorded entry is dispatched again. *)
Definition retryOne (a : Env) (peer : string) (e : JournalEntry) (s : Site)
    : result repl_error (Site * gset string) :=
  match prefetchBlob a peer e (s_blobs s) with
  | Err _ => Ok (s, ∅)
  | Ok blobs =>
      let '(db, _) := ApplyForeignJournal (a_now a) e (s_db s) in
      match dispatch a peer e (mkTxn db blobs ∅ []) with
      | Err (ErrPark _) => Ok (mkSite (s_db s) blobs (s_projections s), ∅)
      | Err err => Err err
      | Ok t =>
          Ok (mkSite (UnparkEvent (OriginSite e) (OriginSeq e) (tx_db t)) (tx_blobs t)
                (flushProjections a (tx_pending t) (s_projections s)), tx_touched t)
      end
  end.

Fixpoint retryAll (a : Env) (peer : string) (es : list JournalEntry) (s : Site)
    (touched : gset string) : Site * gset string * option repl_error :=
  match es with
  | [] => (s, touched, None)
  | e :: es' =>
      match retryOne a peer e s with
      | Err err => (s, touched, Some err)
      | Ok (s', fs) => retryAll a peer es' s' (fs ∪ touched)
      end
  end.

(** [RetryParked], with the time budget not running out. *)
Definition RetryParked (a : Env) (peer : string) (s : Site)
    : Site * gset string * option repl_error :=
  retryAll a peer (p_entry <$> parkedEvents peer 100 (s_db s)) s ∅.

(** ** Local decisions: [core/repl/journal_writer.go] *)

(** [Writer.AppendManifestPut]: the coordinate, then its bytes. *)
Definition AppendManifestPut (now : Z) (site : string) (p : ManifestPut) (db : DB) : DB :=
  let db := (AppendJournal now site KindManifestPut (encode_manifest_put p) db).1 in
  (AppendJournal now site KindBlobAvailable
     (encode_blob_available (mkBlobAvailable (mp_sha256 p) (mp_size p))) db).1.

(** [Writer.AppendTokenRevoke]. *)
Definition AppendTokenRevoke (now : Z) (site hash : string) (db : DB) : DB :=
  (AppendJournal now site KindTokenRevoke (encode_token_revoke (mkTokenRevoke hash)) db).1.

(** [Writer.AppendQuarantineEntry]. *)
Definition AppendQuarantineEntry (now : Z) (site : string) (q : QuarantineSet) (db : DB)
    : DB * JournalEntry :=
  AppendJournal now site KindQuarantineSet (encode_quarantine_set q) db.

(** [Writer.AppendQuarantineReleaseEntry]. *)
Definition AppendQuarantineReleaseEntry (now : Z) (site : string) (q : QuarantineRelease)
    (db : DB) : DB * JournalEntry :=
  AppendJournal now site KindQuarantineRelease (encode_quarantine_release q) db.

(** [Writer.AppendQuarantine] and [Writer.AppendQuarantineRelease]: the entry
    is not needed. *)
Definition AppendQuarantine (now : Z) (site : string) (q : QuarantineSet) (db : DB) : DB :=
  (AppendQuarantineEntry now site q db).1.
Definition AppendQuarantineRelease (now : Z) (site : string) (q : QuarantineRelease) (db : DB) : DB :=
  (AppendQuarantineReleaseEntry now site q db).1.

(** [Writer.AppendConflictResolve]. *)
Definition AppendConflictResolve (now : Z) (site : string) (c : ConflictResolve) (db : DB)
    : DB * JournalEntry :=
  AppendJournal now site KindConflictResolve (encode_conflict_resolve c) db.

(** [ApplyQuarantineDecisionTx]. *)
Definition ApplyQuarantineDecisionTx (feed coordinate reason detail : string) (active : bool)
    (hlc : HLC) (db : DB) : DB :=
  if active then quarantineTx feed coordinate reason detail hlc db
  else releaseQuarantineTx feed coordinate reason hlc db.

(** [repl.ResolveConflict]: decide locally and announce it. The local record
    is stamped by [repl_hlc_now]; the announcement takes its own stamp. The
    journal entry and the projection write are returned with the tables. *)
Definition ResolveConflictOp (nested : bool) (now : Z) (site : string) (c : ConflictResolve)
    (db : DB) : result repl_error (DB * JournalEntry * projectionWrite) :=
  if negb (String.length (cr_keep c) =? 64)%nat || negb (isHex (cr_keep c))
  then Err (ErrSQL "keep digest is not a sha256 hex digest")
  else match conflictSide nested db (cr_feed c) (cr_path c) (cr_keep c) with
       | None => Err ErrNotASide
       | Some side =>
           let h := repl_hlc_now now (hlc_state db) in
           let db := set_hlc db h in
           let decision := mkRes (s_sha256 side) (s_size side) (s_checksums side)
                             (s_metadata side) (hlc_reading h) in
           let db := recordResolution (cr_feed c) (cr_path c) (cr_coord c) decision
                       (cr_operator c) site db in
           let db := applyResolutionTx (cr_feed c) (cr_path c) (cr_coord c) decision site db in
           let '(db, entry) := AppendConflictResolve now site
                 (mkConflictResolve (cr_feed c) (cr_path c) (cr_coord c)
                    (KeepSHA decision) (cr_operator c)) db in
           Ok (db, entry,
               mkProjection (cr_feed c) (cr_path c) (KeepSHA decision) (res_size decision)
                 (res_checksums decision) (res_metadata decision) site (cr_operator c))
       end.
