(* ===== verification/Safety.v ===== *)
(** * Safety of replication

    Invariants every applied event preserves: replication revokes authority
    and never creates it, a resolved coordinate stays settled, only a peer's
    own stream is imported. Each is proved for one dispatched event and lifted
    to batches and to the retry of parked events by the induction principle of
    Section [preserved]. *)

From S2P Require Import Prelude State Events ReplSql Applier.
Open Scope Z_scope.

(** ** Which tables an operation writes *)

(** Solve a goal saying that some table is not written. *)
Ltac untouched :=
  intros;
  unfold insertHosted, updateHosted, quarantineTx, releaseQuarantineTx,
    syncConflictQuarantineTx, recordResolution, recordConflictTx,
    recordResolvedConflictTx, ResolveConflict, ReceiveClock, ParkEvent, UnparkEvent in *;
  repeat case_match; reflexivity.

(** The three tables a merge reads are independent of the block it derives. *)
Lemma sync_tables f c db :
  hosted_manifests (syncConflictQuarantineTx f c db) = hosted_manifests db /\
  publish_conflicts (syncConflictQuarantineTx f c db) = publish_conflicts db /\
  conflict_resolutions (syncConflictQuarantineTx f c db) = conflict_resolutions db /\
  tokens (syncConflictQuarantineTx f c db) = tokens db /\
  repl_journal (syncConflictQuarantineTx f c db) = repl_journal db.
Proof. split_and!; untouched. Qed.

Lemma update_tables p e db :
  publish_conflicts (updateHosted p e db) = publish_conflicts db /\
  conflict_resolutions (updateHosted p e db) = conflict_resolutions db /\
  quarantine (updateHosted p e db) = quarantine db /\
  tokens (updateHosted p e db) = tokens db /\
  repl_journal (updateHosted p e db) = repl_journal db.
Proof. split_and!; untouched. Qed.

Lemma insert_tables p e db :
  publish_conflicts (insertHosted p e db) = publish_conflicts db /\
  conflict_resolutions (insertHosted p e db) = conflict_resolutions db /\
  quarantine (insertHosted p e db) = quarantine db /\
  tokens (insertHosted p e db) = tokens db /\
  repl_journal (insertHosted p e db) = repl_journal db.
Proof. split_and!; untouched. Qed.

Lemma resolved_conflict_tables p k r s db :
  hosted_manifests (recordResolvedConflictTx p k r s db) = hosted_manifests db /\
  conflict_resolutions (recordResolvedConflictTx p k r s db) = conflict_resolutions db /\
  quarantine (recordResolvedConflictTx p k r s db) = quarantine db /\
  tokens (recordResolvedConflictTx p k r s db) = tokens db /\
  repl_journal (recordResolvedConflictTx p k r s db) = repl_journal db.
Proof. split_and!; untouched. Qed.

Lemma resolution_tables f p c r o d db :
  hosted_manifests (recordResolution f p c r o d db) = hosted_manifests db /\
  publish_conflicts (recordResolution f p c r o d db) = publish_conflicts db /\
  quarantine (recordResolution f p c r o d db) = quarantine db /\
  tokens (recordResolution f p c r o d db) = tokens db /\
  repl_journal (recordResolution f p c r o d db) = repl_journal db.
Proof. split_and!; untouched. Qed.

Lemma apply_resolution_tables f p c r d db :
  publish_conflicts (applyResolutionTx f p c r d db) =
    close_conflict f p (KeepSHA r) <$> publish_conflicts db /\
  conflict_resolutions (applyResolutionTx f p c r d db) = conflict_resolutions db /\
  tokens (applyResolutionTx f p c r d db) = tokens db /\
  repl_journal (applyResolutionTx f p c r d db) = repl_journal db.
Proof.
  unfold applyResolutionTx. cbv zeta.
  match goal with |- context [syncConflictQuarantineTx f c ?x] =>
    destruct (sync_tables f c x) as (_ & -> & -> & -> & ->) end. done.
Qed.

Lemma apply_resolution_hosted f p c r d db key :
  h_sha256 <$> hosted_manifests (applyResolutionTx f p c r d db) !! key =
  if decide (key = (f, p)) then Some (KeepSHA r)
  else h_sha256 <$> hosted_manifests db !! key.
Proof.
  unfold applyResolutionTx. cbv zeta.
  match goal with |- context [syncConflictQuarantineTx f c ?x] =>
    destruct (sync_tables f c x) as (-> & _) end.
  unfold ResolveConflict. simpl. destruct (decide (key = (f, p))) as [->|].
  - rewrite lookup_insert_eq. simpl. by destruct (hosted_manifests db !! (f, p)).
  - by rewrite lookup_insert_ne.
Qed.

Lemma quarantine_decision_tables f c r d h db :
  hosted_manifests (quarantineTx f c r d h db) = hosted_manifests db /\
  publish_conflicts (quarantineTx f c r d h db) = publish_conflicts db /\
  conflict_resolutions (quarantineTx f c r d h db) = conflict_resolutions db /\
  tokens (quarantineTx f c r d h db) = tokens db /\
  repl_journal (quarantineTx f c r d h db) = repl_journal db.
Proof. split_and!; untouched. Qed.

Lemma release_decision_tables f c r h db :
  hosted_manifests (releaseQuarantineTx f c r h db) = hosted_manifests db /\
  publish_conflicts (releaseQuarantineTx f c r h db) = publish_conflicts db /\
  conflict_resolutions (releaseQuarantineTx f c r h db) = conflict_resolutions db /\
  tokens (releaseQuarantineTx f c r h db) = tokens db /\
  repl_journal (releaseQuarantineTx f c r h db) = repl_journal db.
Proof. split_and!; untouched. Qed.

(** ** Induction over what an event can do

    A predicate on tables is preserved by every event when it is preserved by
    the six ways an event changes them. *)
Section preserved.
Context (P : DB -> Prop) (ok : JournalEntry -> Prop).
Context (a : Env).

(** What has to be shown of the merge handlers. *)
Context (P_put : forall e p db, ok e -> decode_manifest_put (Payload e) = Some p ->
           Kind e = KindManifestPut -> P db -> conflict_resolutions db !! (mp_feed p, mp_path p) = None ->
           P (insertHosted p e db)).
Context (P_update : forall e p db r, ok e -> decode_manifest_put (Payload e) = Some p ->
           Kind e = KindManifestPut -> P db -> conflict_resolutions db !! (mp_feed p, mp_path p) = None ->
           hosted_manifests db !! (mp_feed p, mp_path p) = Some r ->
           P (updateHosted p e db)).
Context (P_conflict : forall e p db w l ws ls, ok e -> decode_manifest_put (Payload e) = Some p ->
           Kind e = KindManifestPut -> P db -> conflict_resolutions db !! (mp_feed p, mp_path p) = None ->
           P (syncConflictQuarantineTx (mp_feed p) (mp_coord p) (recordConflictTx p w l ws ls db))).
Context (P_rejected : forall e p db k r s, ok e -> decode_manifest_put (Payload e) = Some p ->
           Kind e = KindManifestPut -> P db ->
           P (syncConflictQuarantineTx (mp_feed p) (mp_coord p) (recordResolvedConflictTx p k r s db))).
Context (P_resolved_put : forall e p db d, ok e -> decode_manifest_put (Payload e) = Some p ->
           Kind e = KindManifestPut -> P db -> storedResolution db (mp_feed p) (mp_path p) = Some d ->
           P (applyResolutionTx (mp_feed p) (mp_path p) (mp_coord p) d (OriginSite e) db)).
Context (P_resolve : forall e p db d w, ok e -> decode_conflict_resolve (Payload e) = Some p ->
           Kind e = KindConflictResolve -> P db ->
           (let db' := recordResolution (cr_feed p) (cr_path p) (cr_coord p) d (cr_operator p)
                         (OriginSite e) db in
            storedResolution db' (cr_feed p) (cr_path p) = Some w ->
            P (applyResolutionTx (cr_feed p) (cr_path p) (cr_coord p) w (OriginSite e) db'))).
Context (P_revoke : forall h db db', P db -> revoke_token h db = Ok db' -> P db').
Context (P_set : forall e p db, ok e -> Kind e = KindQuarantineSet ->
           decode_quarantine_set (Payload e) = Some p -> P db ->
           P (quarantineTx (qs_feed p) (qs_coordinate p) (qs_reason p) (qs_detail p) (EHLC e) db)).
Context (P_release : forall e p db, ok e -> Kind e = KindQuarantineRelease ->
           decode_quarantine_release (Payload e) = Some p -> P db ->
           P (releaseQuarantineTx (qr_feed p) (qr_coordinate p)
                (if decide (qr_reason p = "") then "manual" else qr_reason p) (EHLC e) db)).
(** The replication tables are not what [P] is about. *)
Context (P_hlc : forall h db, P db -> P (set_hlc db h)).
Context (P_journal : forall j db, P db -> P (set_journal db j)).
Context (P_parked : forall j db, P db -> P (set_parked db j)).

Lemma recordResolution_stored f p c r o d db :
  is_Some (storedResolution (recordResolution f p c r o d db) f p).
Proof.
  unfold recordResolution, storedResolution.
  destruct (conflict_resolutions db !! (f, p)) as [old|] eqn:E; [case_decide|]; simpl;
    rewrite ?lookup_insert_eq, ?E; simpl; eauto.
Qed.

Lemma preserved_merge e p t t' :
  ok e -> decode_manifest_put (Payload e) = Some p -> Kind e = KindManifestPut ->
  P (tx_db t) -> mergeManifestPut a e p t = Ok t' -> P (tx_db t').
Proof.
  intros He Hd Hk HP. unfold mergeManifestPut.
  destruct (storedResolution (tx_db t) (mp_feed p) (mp_path p)) as [d|] eqn:Er.
  - intros [= <-]. simpl. case_decide; [|by eapply P_resolved_put].
    eapply (P_resolved_put e p); [done..|by eapply P_rejected|].
    match goal with |- storedResolution (syncConflictQuarantineTx ?f ?c ?x) _ _ = _ =>
      pose proof (sync_tables f c x) as (_ & _ & Hs & _); unfold storedResolution; rewrite Hs end.
    match goal with |- context [recordResolvedConflictTx ?p ?k ?r ?s ?x] =>
      destruct (resolved_conflict_tables p k r s x) as (_ & -> & _) end. done.
  - assert (Hn : conflict_resolutions (tx_db t) !! (mp_feed p, mp_path p) = None).
    { unfold storedResolution in Er.
      by destruct (conflict_resolutions (tx_db t) !! (mp_feed p, mp_path p)). }
    unfold hostedState.
    destruct (hosted_manifests (tx_db t) !! (mp_feed p, mp_path p)) as [r|] eqn:Eh.
    + destruct (mp_mutable p && h_mutable r).
      * rewrite rbind_Ok. intros ([] & _ & [= <-]); simpl; [by eapply P_update|done].
      * case_decide; intros [= <-]; [done|]. unfold applyConflictingPut.
        destruct (k1_sides _ _ _ _) as [[[w l] ws] ls]. simpl. case_decide; [|by eapply P_conflict].
        eapply (P_conflict e p); [done..|by eapply P_update|]. by destruct (update_tables p e (tx_db t)) as (_ & -> & _).
    + intros [= <-]. simpl. by eapply P_put.
Qed.

Lemma preserved_dispatch peer e t t' :
  ok e -> P (tx_db t) -> dispatch a peer e t = Ok t' -> P (tx_db t').
Proof.
  intros He HP. unfold dispatch.
  case_decide as Hk; [|case_decide as Hk'; [|case_decide as Hk2; [|case_decide as Hk3;
    [|case_decide as Hk4; [|case_decide as Hk5; [|done]]]]]].
  - unfold applyManifestPut. destruct (decode_manifest_put _) as [p|] eqn:Ed; [|done].
    repeat (case_match; [done|]). intros Hm. by eapply preserved_merge.
  - unfold applyBlobAvailable. destruct (decode_blob_available _) as [p|]; [|done].
    repeat case_match; intros [= <-]; done.
  - unfold applyTokenRevoke. destruct (decode_token_revoke _) as [p|]; [|done].
    case_match; [done|]. rewrite rbind_Ok. intros (db & Hr & [= <-]). simpl. eauto.
  - unfold applyQuarantineSet. destruct (decode_quarantine_set _) as [p|] eqn:Ed; [|done].
    case_match; [done|]. intros [= <-]. simpl. eauto.
  - unfold applyQuarantineRelease. destruct (decode_quarantine_release _) as [p|] eqn:Ed; [|done].
    intros [= <-]. simpl. eauto.
  - unfold applyConflictResolve. destruct (decode_conflict_resolve _) as [p|] eqn:Ed; [|done].
    case_match; [done|]. destruct (conflictSide _ _ _ _ _) as [side|]; [|done].
    match goal with |- context [recordResolution ?f ?p ?c ?r ?o ?d ?db] =>
      destruct (recordResolution_stored f p c r o d db) as [w Hw]; rewrite Hw end.
    intros [= <-]. simpl. eapply P_resolve; eauto.
Qed.

Lemma preserved_journal e now db : P db -> P (ApplyForeignJournal now e db).1.
Proof. intros H. unfold ApplyForeignJournal, ReceiveClock. case_match; simpl; auto. Qed.

Lemma preserved_applyOne peer e s s' fs :
  ok e -> P (s_db s) -> applyOne a peer e s = Ok (s', fs) -> P (s_db s').
Proof.
  intros He HP. unfold applyOne, ParkEvent. case_match; [intros [= <- <-]; simpl; auto|].
  destruct (prefetchBlob _ _ _ _) as [blobs|err]; [|destruct err; intros [= <- <-]; simpl; auto].
  pose proof (preserved_journal e (a_now a) _ HP) as HJ.
  destruct (ApplyForeignJournal _ _ _) as [db []]; simpl in *; [|intros [= <- <-]; done].
  destruct (dispatch a peer e _) as [t|err] eqn:Ed.
  - intros [= <- <-]. simpl. eapply preserved_dispatch; [..|exact Ed]; done.
  - destruct err; intros [= <- <-]; simpl; auto.
Qed.

Lemma preserved_ApplyBatch peer es s touched :
  (forall e, e ∈ es -> ok e) -> P (s_db s) -> P (s_db (ApplyBatch a peer es s touched).1.1).
Proof.
  revert s touched. induction es as [|e es IH]; intros s touched Hok HP; simpl; [done|].
  assert (forall e', e' ∈ es -> ok e') by (intros; apply Hok; by right).
  case_decide; [by apply IH|]. case_decide; [done|].
  destruct (applyOne a peer e s) as [[s' fs]|err] eqn:E; [|done].
  apply IH; [done|]. eapply preserved_applyOne; [..|exact E]; [apply Hok; by left|done].
Qed.

Lemma preserved_retryOne peer e s s' fs :
  ok e -> P (s_db s) -> retryOne a peer e s = Ok (s', fs) -> P (s_db s').
Proof.
  intros He HP. unfold retryOne.
  destruct (prefetchBlob _ _ _ _) as [blobs|err]; [|intros [= <- <-]; done].
  pose proof (preserved_journal e (a_now a) _ HP) as HJ.
  destruct (ApplyForeignJournal _ _ _) as [db b]; simpl in *.
  destruct (dispatch a peer e _) as [t|err] eqn:Ed.
  - intros [= <- <-]. unfold UnparkEvent. simpl. apply P_parked.
    eapply preserved_dispatch; [..|exact Ed]; done.
  - destruct err; intros [= <- <-]; done.
Qed.

Lemma preserved_retryAll peer es s touched :
  (forall e, e ∈ es -> ok e) -> P (s_db s) -> P (s_db (retryAll a peer es s touched).1.1).
Proof.
  revert s touched. induction es as [|e es IH]; intros s touched Hok HP; simpl; [done|].
  destruct (retryOne a peer e s) as [[s' fs]|err] eqn:E; [|done].
  apply IH; [intros; apply Hok; by right|].
  eapply preserved_retryOne; [..|exact E]; [apply Hok; by left|done].
Qed.
End preserved.

(** ** Replication grants nothing *)

(** [db'] gives no token more authority than [db]: a token usable in [db'] is
    the same usable token in [db], and what was revoked stays revoked. *)
Definition no_new_authority (db db' : DB) : Prop :=
  (forall h t, tokens db' !! h = Some t -> t_revoked t = false -> tokens db !! h = Some t) /\
  (forall h, h ∈ revoked_hashes db -> h ∈ revoked_hashes db').

Lemma revoked_hashes_spec db h :
  h ∈ revoked_hashes db <-> exists t, tokens db !! h = Some t /\ t_revoked t = true.
Proof.
  unfold revoked_hashes. rewrite elem_of_dom. unfold is_Some.
  setoid_rewrite map_lookup_filter_Some. naive_solver.
Qed.

Lemma no_new_authority_tokens db db1 db2 :
  tokens db2 = tokens db1 -> no_new_authority db db1 -> no_new_authority db db2.
Proof.
  intros E [H1 H2]. split.
  - intros h t. rewrite E. apply H1.
  - intros h Hh. apply H2 in Hh. rewrite revoked_hashes_spec in *. by rewrite E.
Qed.

Lemma revoke_token_authority db0 h db db' :
  no_new_authority db0 db -> revoke_token h db = Ok db' -> no_new_authority db0 db'.
Proof.
  intros [H1 H2]. unfold revoke_token.
  destruct (tokens db !! h) as [t|] eqn:Et; [|case_match; [done|]]; intros [= <-]; split;
    intros h' Hh; simpl in *.
  1, 3: intros Hr Hf; apply lookup_insert_Some in Hr as [[<- <-]|[? ?]]; [done|auto].
  all: apply H2 in Hh; rewrite revoked_hashes_spec in Hh |- *; simpl;
    destruct (decide (h = h')) as [->|]; simplify_map_eq; eauto.
Qed.

(** Close an obligation of the preservation section about a predicate that
    only reads [tokens]. *)
Ltac by_tokens :=
  cbv zeta; intros; eapply no_new_authority_tokens; [|eassumption];
  repeat match goal with
  | |- context [syncConflictQuarantineTx ?f ?c ?x] =>
      destruct (sync_tables f c x) as (_ & _ & _ & -> & _)
  | |- context [applyResolutionTx ?f ?p ?c ?r ?d ?x] =>
      destruct (apply_resolution_tables f p c r d x) as (_ & _ & -> & _)
  | |- context [recordResolution ?f ?p ?c ?r ?o ?d ?x] =>
      destruct (resolution_tables f p c r o d x) as (_ & _ & _ & -> & _)
  | |- context [recordResolvedConflictTx ?p ?k ?r ?s ?x] =>
      destruct (resolved_conflict_tables p k r s x) as (_ & _ & _ & -> & _)
  | |- context [insertHosted ?p ?e ?x] => destruct (insert_tables p e x) as (_ & _ & _ & -> & _)
  | |- context [updateHosted ?p ?e ?x] => destruct (update_tables p e x) as (_ & _ & _ & -> & _)
  | |- context [quarantineTx ?f ?c ?r ?d ?h ?x] =>
      destruct (quarantine_decision_tables f c r d h x) as (_ & _ & _ & -> & _)
  | |- context [releaseQuarantineTx ?f ?c ?r ?h ?x] =>
      destruct (release_decision_tables f c r h x) as (_ & _ & _ & -> & _)
  end; reflexivity.

Lemma no_new_authority_batch a peer es s touched db0 :
  no_new_authority db0 (s_db s) ->
  no_new_authority db0 (s_db (ApplyBatch a peer es s touched).1.1).
Proof.
  intros H. apply (preserved_ApplyBatch (no_new_authority db0) (fun _ => True) a);
    try by_tokens; eauto using revoke_token_authority.
Qed.

Lemma no_new_authority_retry a peer es s touched db0 :
  no_new_authority db0 (s_db s) ->
  no_new_authority db0 (s_db (retryAll a peer es s touched).1.1).
Proof.
  intros H. apply (preserved_retryAll (no_new_authority db0) (fun _ => True) a);
    try by_tokens; eauto using revoke_token_authority.
Qed.

(** Replication can only remove authority: whatever a peer's journal
    contains, and however much of it is retried after parking, every token
    usable afterwards was the same usable token before, and every revocation
    is still in force. *)
Theorem replication_grants_nothing a peer es s touched :
  let s' := (ApplyBatch a peer es s touched).1.1 in
  no_new_authority (s_db s) (s_db s') /\
  no_new_authority (s_db s) (s_db (RetryParked a peer s').1.1).
Proof.
  assert (no_new_authority (s_db s) (s_db s)) by (split; auto).
  split; [by apply no_new_authority_batch|].
  by apply no_new_authority_retry, no_new_authority_batch.
Qed.

(** ** Only the peer's own stream is imported *)

(** Journal keys added since [db0] belong to [peer]. *)
Definition only_from (peer : string) (db0 db : DB) : Prop :=
  forall k v, repl_journal db !! k = Some v -> k.1 = peer \/ repl_journal db0 !! k = Some v.

Lemma dispatch_journal a peer e t t' :
  dispatch a peer e t = Ok t' -> repl_journal (tx_db t') = repl_journal (tx_db t).
Proof.
  intros H. symmetry.
  apply (preserved_dispatch (fun db => repl_journal (tx_db t) = repl_journal db)
           (fun _ => True) a) with (peer := peer) (e := e) (t := t) (t' := t');
    try done; cbv zeta; intros;
    try match goal with H : revoke_token _ _ = Ok _ |- _ =>
      unfold revoke_token in H; repeat case_match; simplify_eq; done end;
  repeat match goal with
  | |- context [syncConflictQuarantineTx ?f ?c ?x] =>
      destruct (sync_tables f c x) as (_ & _ & _ & _ & ->)
  | |- context [applyResolutionTx ?f ?p ?c ?r ?d ?x] =>
      destruct (apply_resolution_tables f p c r d x) as (_ & _ & _ & ->)
  | |- context [recordResolution ?f ?p ?c ?r ?o ?d ?x] =>
      destruct (resolution_tables f p c r o d x) as (_ & _ & _ & _ & ->)
  | |- context [recordResolvedConflictTx ?p ?k ?r ?s ?x] =>
      destruct (resolved_conflict_tables p k r s x) as (_ & _ & _ & _ & ->)
  | |- context [insertHosted ?p ?e ?x] => destruct (insert_tables p e x) as (_ & _ & _ & _ & ->)
  | |- context [updateHosted ?p ?e ?x] => destruct (update_tables p e x) as (_ & _ & _ & _ & ->)
  | |- context [quarantineTx ?f ?c ?r ?d ?h ?x] =>
      destruct (quarantine_decision_tables f c r d h x) as (_ & _ & _ & _ & ->)
  | |- context [releaseQuarantineTx ?f ?c ?r ?h ?x] =>
      destruct (release_decision_tables f c r h x) as (_ & _ & _ & _ & ->)
  end; done.
Qed.

Lemma journal_recorded now e db db' b k v :
  ApplyForeignJournal now e db = (db', b) -> repl_journal db' !! k = Some v ->
  k = (OriginSite e, OriginSeq e) \/ repl_journal db !! k = Some v.
Proof.
  unfold ApplyForeignJournal, ReceiveClock. simpl.
  case_match; intros [= <- <-]; simpl; [auto|].
  rewrite lookup_insert_Some. naive_solver.
Qed.

Lemma applyOne_journal a peer e s s' fs k v :
  applyOne a peer e s = Ok (s', fs) -> repl_journal (s_db s') !! k = Some v ->
  k = (OriginSite e, OriginSeq e) \/ repl_journal (s_db s) !! k = Some v.
Proof.
  unfold applyOne, ParkEvent. case_match; [intros [= <- <-]; auto|].
  destruct (prefetchBlob _ _ _ _) as [blobs|[]]; try (intros [= <- <-]; by auto).
  destruct (ApplyForeignJournal _ _ _) as [db []] eqn:EJ; simpl.
  - destruct (dispatch a peer e _) as [t|[]] eqn:Ed; intros [= <- <-]; simpl; auto.
    rewrite (dispatch_journal _ _ _ _ _ Ed). simpl. eauto using journal_recorded.
  - intros [= <- <-]. simpl. eauto using journal_recorded.
Qed.

(** Origin pinning: a batch served by a peer adds nothing to this site's
    journal but entries of that peer's own origin, and when it stops at an
    entry of a third site nothing after that entry is applied. *)
Theorem batch_imports_only_peer a peer es s touched :
  only_from peer (s_db s) (s_db (ApplyBatch a peer es s touched).1.1) /\
  forall es1 e es2, es = es1 ++ e :: es2 -> OriginSite e <> a_site a -> OriginSite e <> peer ->
    s_db (ApplyBatch a peer es s touched).1.1 =
    s_db (ApplyBatch a peer es1 s touched).1.1 /\
    is_Some (ApplyBatch a peer es s touched).2.
Proof.
  split.
  - revert s touched. induction es as [|e es IH]; intros s touched; simpl; [by right|].
    case_decide; [by apply IH|]. case_decide as Hp; [by right|].
    destruct (applyOne a peer e s) as [[s' fs]|err] eqn:E; [|by right].
    intros k v Hk. apply IH in Hk as [|Hk]; [auto|].
    eapply applyOne_journal in Hk; [|done]. destruct Hk as [->|]; auto.
  - intros es1 e es2 -> Hs Hp. revert s touched.
    induction es1 as [|e1 es1 IH]; intros s touched; simpl.
    + rewrite decide_False by done. rewrite decide_True by done. simpl. eauto.
    + case_decide; [apply IH|]. case_decide; [simpl; eauto|].
      destruct (applyOne a peer e1 s) as [[s' fs]|err]; [apply IH|simpl; eauto].
Qed.

(** A small mesh used by the witnesses: site [a], its peer [b], events of [b]
    and of a third site [c]. *)
Module Demo.
Definition digest (c : Ascii.ascii) : string :=
  String.concat "" (repeat (String c "") 64).
Definition env : Env :=
  mkEnv "a" 1000 (default_max_skew 0) (fun _ => false) true (fun _ _ _ => true)
    (Some (fun _ => true)) true.
Definition put (sha : string) : ManifestPut :=
  mkManifestPut "releases" "lib/1.0/lib.jar" "maven:lib@1.0" sha 3 ∅ ∅ false "token:ci" "".
Definition put_event (site : string) (seq : Z) (sha : string) : JournalEntry :=
  mkEntry site seq KindManifestPut (encode_manifest_put (put sha)) (mkHLC (900 + seq) 0) 1.
Definition resolve_event (site : string) (seq : Z) (sha : string) : JournalEntry :=
  mkEntry site seq KindConflictResolve
    (encode_conflict_resolve
       (mkConflictResolve "releases" "lib/1.0/lib.jar" "maven:lib@1.0" sha "ops"))
    (mkHLC (900 + seq) 0) 1.
Definition site0 : Site := mkSite empty_db ∅ ∅.
End Demo.

Lemma batch_imports_only_peer_witness :
  only_from "b" (s_db Demo.site0)
    (s_db (ApplyBatch Demo.env "b"
             [Demo.put_event "b" 1 (Demo.digest "1"%char); Demo.put_event "c" 1 (Demo.digest "2"%char)]
             Demo.site0 ∅).1.1).
Proof. apply batch_imports_only_peer. Defined.

(** ** A resolved coordinate stays settled *)

(** Every decided path serves the digest that was kept, and has no open
    conflict. *)
Definition settled (db : DB) : Prop :=
  forall f p r, conflict_resolutions db !! (f, p) = Some r ->
    (h_sha256 <$> hosted_manifests db !! (f, p) = Some (r_keep r)) /\
    forall c, c ∈ publish_conflicts db -> c_feed c = f -> c_path c = p -> c_resolved c <> None.

Lemma settled_tables db db' :
  hosted_manifests db' = hosted_manifests db ->
  publish_conflicts db' = publish_conflicts db ->
  conflict_resolutions db' = conflict_resolutions db ->
  settled db -> settled db'.
Proof. unfold settled. by intros -> -> ->. Qed.

Lemma settled_sync f c db : settled db -> settled (syncConflictQuarantineTx f c db).
Proof. destruct (sync_tables f c db) as (?&?&?&?&?). by apply settled_tables. Qed.

(** Writing the row of an undecided path. *)
Lemma settled_write db f p r :
  conflict_resolutions db !! (f, p) = None ->
  settled db -> settled (set_hosted db (<[(f, p) := r]> (hosted_manifests db))).
Proof.
  intros Hn Hs f' p' r' Hr. destruct (Hs f' p' r' Hr) as [Hh Hc]. split; [|done]. simpl in *.
  destruct (decide ((f, p) = (f', p'))) as [[= -> ->]|]; [congruence|]. by rewrite lookup_insert_ne.
Qed.

Lemma settled_insert e p db :
  conflict_resolutions db !! (mp_feed p, mp_path p) = None ->
  settled db -> settled (insertHosted p e db).
Proof. intros. unfold insertHosted. case_match; [done|]. by apply settled_write. Qed.

Lemma settled_update e p db :
  conflict_resolutions db !! (mp_feed p, mp_path p) = None ->
  settled db -> settled (updateHosted p e db).
Proof. intros. unfold updateHosted. case_match; [|done]. by apply settled_write. Qed.

Lemma settled_conflict p w l ws ls db :
  conflict_resolutions db !! (mp_feed p, mp_path p) = None ->
  settled db -> settled (recordConflictTx p w l ws ls db).
Proof.
  intros Hn Hs f' p' r' Hr. destruct (Hs f' p' r' Hr) as [Hh Hc]. split; [done|].
  intros c [?| ->%list_elem_of_singleton]%elem_of_app; [auto|]. simpl. intros <- <-.
  simpl in Hr. congruence.
Qed.

Lemma settled_rejected p k r s db :
  settled db -> settled (recordResolvedConflictTx p k r s db).
Proof.
  intros Hs. unfold recordResolvedConflictTx. case_match; [done|].
  intros f' p' r' Hr. destruct (Hs f' p' r' Hr) as [Hh Hc]. split; [done|].
  intros c [?| ->%list_elem_of_singleton]%elem_of_app; [auto|done].
Qed.

(** Applying the stored decision of a path settles it. *)
Lemma settled_apply f p c d site db :
  settled (set_resolutions db (delete (f, p) (conflict_resolutions db))) ->
  KeepSHA <$> storedResolution db f p = Some (KeepSHA d) ->
  settled (applyResolutionTx f p c d site db).
Proof.
  intros Hs Hd. destruct (apply_resolution_tables f p c d site db) as (Ec & Er & _ & _).
  intros f' p' r' Hr. rewrite Er in Hr. rewrite apply_resolution_hosted, Ec.
  destruct (decide ((f', p') = (f, p))) as [[= -> ->]|Hne].
  - unfold storedResolution in Hd. rewrite Hr in Hd. simpl in Hd. split; [congruence|].
    intros c' (c0 & -> & Hc0)%list_elem_of_fmap. unfold close_conflict.
    case_decide; [done|]. tauto.
  - destruct (Hs f' p' r') as [Hh Hc]; [simpl; by rewrite lookup_delete_ne|]. split; [done|].
    intros c' (c0 & -> & Hc0)%list_elem_of_fmap. unfold close_conflict.
    case_decide; [done|]. auto.
Qed.

Lemma settled_forget db f p :
  settled db -> settled (set_resolutions db (delete (f, p) (conflict_resolutions db))).
Proof. intros Hs f' p' r' Hr. simpl in Hr. apply lookup_delete_Some in Hr as [_ Hr]. by apply Hs. Qed.

Lemma recordResolution_delete f p c d o s db :
  delete (f, p) (conflict_resolutions (recordResolution f p c d o s db)) =
  delete (f, p) (conflict_resolutions db).
Proof.
  unfold recordResolution. repeat case_match; simpl; by rewrite ?delete_insert_eq.
Qed.

Lemma settled_resolve f p c d o s w site db :
  settled db ->
  storedResolution (recordResolution f p c d o s db) f p = Some w ->
  settled (applyResolutionTx f p c w site (recordResolution f p c d o s db)).
Proof.
  intros Hs Hw. apply settled_apply; [|by rewrite Hw].
  rewrite recordResolution_delete.
  apply (settled_tables (set_resolutions db (delete (f, p) (conflict_resolutions db))));
    simpl; try done.
  - by destruct (resolution_tables f p c d o s db) as (-> & _).
  - by destruct (resolution_tables f p c d o s db) as (_ & -> & _).
  - by apply settled_forget.
Qed.

Lemma settled_revoke h db db' : settled db -> revoke_token h db = Ok db' -> settled db'.
Proof. unfold revoke_token. intros Hs. repeat case_match; intros [= <-]; done. Qed.

Lemma settled_set f c r d h db : settled db -> settled (quarantineTx f c r d h db).
Proof. destruct (quarantine_decision_tables f c r d h db) as (?&?&?&?&?). by apply settled_tables. Qed.

Lemma settled_release f c r h db : settled db -> settled (releaseQuarantineTx f c r h db).
Proof. destruct (release_decision_tables f c r h db) as (?&?&?&?&?). by apply settled_tables. Qed.

#[export] Hint Resolve settled_sync settled_insert settled_update settled_conflict settled_rejected
  settled_resolve settled_revoke settled_set settled_release settled_forget : fondaco.

Lemma settled_batch a peer es s touched :
  settled (s_db s) -> settled (s_db (ApplyBatch a peer es s touched).1.1).
Proof.
  intros Hs. apply (preserved_ApplyBatch settled (fun _ => True) a);
    try (intros; cbv zeta; intros; by eauto with fondaco).
  intros e p db d _ _ _ Hdb Hd. apply settled_apply; [by apply settled_forget|by rewrite Hd].
Qed.

Lemma settled_retry a peer es s touched :
  settled (s_db s) -> settled (s_db (retryAll a peer es s touched).1.1).
Proof.
  intros Hs. apply (preserved_retryAll settled (fun _ => True) a);
    try (intros; cbv zeta; intros; by eauto with fondaco).
  intros e p db d _ _ _ Hdb Hd. apply settled_apply; [by apply settled_forget|by rewrite Hd].
Qed.

(** C10. An operator's decision is terminal: once every decided path serves
    the digest that was kept and has no open conflict, no batch of events from
    any peer, in any order, and no retry of parked events changes that. *)
Theorem resolution_is_terminal a peer es s touched :
  settled (s_db s) ->
  let s' := (ApplyBatch a peer es s touched).1.1 in
  settled (s_db s') /\ settled (s_db (RetryParked a peer s').1.1).
Proof. intros H. split; [by apply settled_batch|]. by apply settled_retry, settled_batch. Qed.

Lemma resolution_is_terminal_witness :
  let s' := (ApplyBatch Demo.env "b"
    [Demo.put_event "b" 1 (Demo.digest "2"%char); Demo.put_event "b" 2 (Demo.digest "1"%char);
     Demo.resolve_event "b" 3 (Demo.digest "2"%char); Demo.put_event "b" 4 (Demo.digest "0"%char)]
    Demo.site0 ∅).1.1 in
  settled (s_db s') /\ settled (s_db (RetryParked Demo.env "b" s').1.1).
Proof.
  apply (resolution_is_terminal Demo.env "b" _ Demo.site0 ∅).
  intros f p r Hr. simpl in Hr. by rewrite lookup_empty in Hr.
Defined.
