(* ===== verification/Upstream.v ===== *)
(** * The upstream client: [core/pipeline/breaker.go] and the retry, throttle
    and destination rules of [core/pipeline/upstream.go]

    The breaker is a record with one transition per method; time is an
    argument, in nanoseconds. [fetchTarget] runs against a script that says
    what each attempt meets (the clock, a cancelled context, a refusing rate
    limiter, the classified answer of the upstream), so every interleaving of
    outcomes is an input. Theorems: the circuit opens at the threshold and
    admits a single probe, how many attempts a fetch makes and what it
    returns, what the destination check lets through, and that a throttled
    probe leaves the circuit refusing for good. *)

From S2P Require Import Prelude.
Open Scope Z_scope.

(** ** The circuit breaker *)

Inductive breaker_state := BreakerClosed | BreakerHalfOpen | BreakerOpen.
#[export] Instance breaker_state_eq_dec : EqDecision breaker_state.
Proof. solve_decision. Defined.

Record Breaker := mkBreaker {
  threshold : Z;
  cooldown : Z;
  failures : Z;
  b_state : breaker_state;
  openedAt : Z;
  probeInFlight : bool;
}.

(** [NewBreaker]: zero or negative settings get the defaults. *)
Definition NewBreaker (threshold cooldown : Z) : Breaker :=
  mkBreaker (if threshold <=? 0 then 5 else threshold)
    (if cooldown <=? 0 then 15 * 1000000000 else cooldown)
    0 BreakerClosed 0 false.

(** [Breaker.Allow]. *)
Definition Allow (now : Z) (b : Breaker) : Breaker * bool :=
  match b_state b with
  | BreakerClosed => (b, true)
  | BreakerOpen =>
      if cooldown b <=? now - openedAt b
      then (mkBreaker (threshold b) (cooldown b) (failures b) BreakerHalfOpen (openedAt b) true, true)
      else (b, false)
  | BreakerHalfOpen =>
      if probeInFlight b then (b, false)
      else (mkBreaker (threshold b) (cooldown b) (failures b) BreakerHalfOpen (openedAt b) true, true)
  end.

(** [Breaker.Success]. *)
Definition Success (b : Breaker) : Breaker :=
  mkBreaker (threshold b) (cooldown b) 0 BreakerClosed (openedAt b) false.

(** [Breaker.Failure]. *)
Definition Failure (now : Z) (b : Breaker) : Breaker :=
  match b_state b with
  | BreakerHalfOpen => mkBreaker (threshold b) (cooldown b) (failures b) BreakerOpen now false
  | _ =>
      let n := failures b + 1 in
      if threshold b <=? n
      then mkBreaker (threshold b) (cooldown b) n BreakerOpen now (probeInFlight b)
      else mkBreaker (threshold b) (cooldown b) n (b_state b) (openedAt b) (probeInFlight b)
  end.

(** Everything that can happen to a breaker, and where it can get to. *)
Inductive breaker_step : Breaker -> Breaker -> Prop :=
| step_allow now b : breaker_step b (Allow now b).1
| step_success b : breaker_step b (Success b)
| step_failure now b : breaker_step b (Failure now b).

Inductive breaker_reachable : Breaker -> Prop :=
| reach_new t c : breaker_reachable (NewBreaker t c)
| reach_step b b' : breaker_reachable b -> breaker_step b b' -> breaker_reachable b'.

(** ** One fetch *)

(** How [attempt] classifies an exchange. *)
Inductive attempt_outcome :=
| AResponse                    (** 2xx *)
| ANotFound                    (** 404 *)
| AThrottled (retryIn : Z)     (** 429 *)
| AFatal                       (** any other status, or no request *)
| ATransient.                  (** transport error or 5xx *)

(** [attempt]'s switch on the status code; [None] is a transport error. *)
Definition classify (status : option Z) (retryIn : Z) : attempt_outcome :=
  match status with
  | None => ATransient
  | Some s =>
      if (200 <=? s) && (s <? 300) then AResponse
      else if s =? 404 then ANotFound
      else if s =? 429 then AThrottled retryIn
      else if 500 <=? s then ATransient
      else AFatal
  end.

(** What one turn of the loop meets. *)
Record turn := mkTurn {
  t_cancelled : bool;         (** the context ends during the backoff *)
  t_limited : bool;           (** the rate limiter returns an error *)
  t_now : Z;                  (** the clock when the outcome is recorded *)
  t_outcome : attempt_outcome;
}.

Inductive fetch_result :=
| FResponse | FNotFound | FFatal
| FCancelled | FRateLimiter
| FBreakerOpen                 (** refused before any attempt *)
| FBreakerOpened               (** opened by this fetch's own failures *)
| FUnavailable.                (** every attempt used *)
#[export] Instance fetch_result_eq_dec : EqDecision fetch_result.
Proof. solve_decision. Defined.

(** The attempt loop: [n] attempts left, [i] the attempt number; returns the
    breaker, the result and how many attempts were sent. *)
Fixpoint fetch_loop (n i : nat) (script : nat -> turn) (b : Breaker) (sent : nat)
    : Breaker * fetch_result * nat :=
  match n with
  | O => (b, FUnavailable, sent)
  | S n' =>
      let t := script i in
      if (0 <? i)%nat && t_cancelled t then (b, FCancelled, sent)
      else if t_limited t then (b, FRateLimiter, sent)
      else
        match t_outcome t with
        | AResponse => (Success b, FResponse, S sent)
        | ANotFound => (Success b, FNotFound, S sent)
        | AThrottled _ => fetch_loop n' (S i) script b (S sent)
        | AFatal => (Failure (t_now t) b, FFatal, S sent)
        | ATransient =>
            let '(b', ok) := Allow (t_now t) (Failure (t_now t) b) in
            if ok then fetch_loop n' (S i) script b' (S sent)
            else (b', FBreakerOpened, S sent)
        end
  end.

(** [fetchTarget]. *)
Definition fetchTarget (retries : nat) (now : Z) (script : nat -> turn) (b : Breaker)
    : Breaker * fetch_result * nat :=
  let '(b', ok) := Allow now b in
  if ok then fetch_loop retries 0 script b' 0 else (b', FBreakerOpen, O).

(** [NewUpstream]'s default for the attempt count. *)
Definition default_retries (retries : Z) : nat :=
  if retries <=? 0 then 3%nat else Z.to_nat retries.

(** ** Waiting *)

Definition maxRetryAfter : Z := 30 * 1000000000.

(** [capDelay]. *)
Definition capDelay (d : Z) : Z :=
  if d <=? 0 then 0 else if maxRetryAfter <? d then maxRetryAfter else d.

(** [retryAfter] on a header that is a number of seconds, in the int64
    arithmetic of [time.Duration]. *)
Definition retryAfter_seconds (seconds : Z) : Z := capDelay (wrap64 (seconds * 1000000000)).

(** [readAllCapped]: the whole body, or an error when it exceeds the cap. *)
Definition readAllCapped (body : list Z) (limit : nat) : option (list Z) :=
  let read := take (S limit) body in
  if (limit <? length read)%nat then None else Some read.

(** ** Destinations *)

(** A [net.IP]: four bytes or sixteen. *)
Inductive IP := IPv4 (a b c d : Z) | IPv6 (bytes : list Z).

(** [IP.To4]: an IPv4 address, also when written as an IPv4-mapped IPv6
    one. *)
Definition To4 (ip : IP) : option (Z * Z * Z * Z) :=
  match ip with
  | IPv4 a b c d => Some (a, b, c, d)
  | IPv6 [0; 0; 0; 0; 0; 0; 0; 0; 0; 0; 255; 255; a; b; c; d] => Some (a, b, c, d)
  | IPv6 _ => None
  end.

Definition byte_at (ip : IP) (i : nat) : Z :=
  match ip with IPv4 _ _ _ _ => 0 | IPv6 bytes => nth i bytes 0 end.

Definition all_bytes (ip : IP) : list Z :=
  match ip with IPv4 _ _ _ _ => [] | IPv6 bytes => bytes end.

(** The predicates of package [net]. *)
Definition IsLoopback (ip : IP) : bool :=
  match To4 ip with
  | Some (a, _, _, _) => a =? 127
  | None => bool_decide (all_bytes ip = repeat 0 15 ++ [1])
  end.
Definition IsPrivate (ip : IP) : bool :=
  match To4 ip with
  | Some (a, b, _, _) =>
      (a =? 10) || ((a =? 172) && (Z.land b 240 =? 16)) || ((a =? 192) && (b =? 168))
  | None => (length (all_bytes ip) =? 16)%nat && (Z.land (byte_at ip 0) 254 =? 252)
  end.
Definition IsUnspecified (ip : IP) : bool :=
  match To4 ip with
  | Some q => bool_decide (q = (0, 0, 0, 0))
  | None => bool_decide (all_bytes ip = repeat 0 16)
  end.
Definition IsLinkLocalUnicast (ip : IP) : bool :=
  match To4 ip with
  | Some (a, b, _, _) => (a =? 169) && (b =? 254)
  | None => (length (all_bytes ip) =? 16)%nat &&
            (byte_at ip 0 =? 254) && (Z.land (byte_at ip 1) 192 =? 128)
  end.
Definition IsLinkLocalMulticast (ip : IP) : bool :=
  match To4 ip with
  | Some (a, b, c, _) => (a =? 224) && (b =? 0) && (c =? 0)
  | None => (length (all_bytes ip) =? 16)%nat &&
            (byte_at ip 0 =? 255) && (Z.land (byte_at ip 1) 15 =? 2)
  end.
Definition IsInterfaceLocalMulticast (ip : IP) : bool :=
  match To4 ip with
  | Some _ => false
  | None => (length (all_bytes ip) =? 16)%nat &&
            (byte_at ip 0 =? 255) && (Z.land (byte_at ip 1) 15 =? 1)
  end.
Definition IsMulticast (ip : IP) : bool :=
  match To4 ip with
  | Some (a, _, _, _) => Z.land a 240 =? 224
  | None => (length (all_bytes ip) =? 16)%nat && (byte_at ip 0 =? 255)
  end.

(** [isPublicIP]. *)
Definition isPublicIP (ip : IP) : bool :=
  if IsLoopback ip || IsPrivate ip || IsUnspecified ip ||
     IsLinkLocalUnicast ip || IsLinkLocalMulticast ip ||
     IsInterfaceLocalMulticast ip || IsMulticast ip then false
  else match To4 ip with
       | Some (a, b, _, _) => negb ((a =? 100) && (64 <=? b) && (b <=? 127))
       | None => negb (Z.land (byte_at ip 0) 254 =? 252)
       end.

(** [checkDestination]: the feed's own host, or a host all of whose addresses
    are public; [lookup] is the resolver, [None] a failed lookup. *)
Definition checkDestination (lookup : string -> option (list IP)) (base host : string) : bool :=
  if EqualFold host base then true
  else match lookup host with
       | None => false
       | Some ips => forallb isPublicIP ips
       end.

(** ** Breaker theorems *)

(** In every reachable state the settings are positive, a half-open circuit
    has its probe in flight, and a closed circuit is below the threshold. *)
Definition breaker_ok (b : Breaker) : Prop :=
  0 < threshold b /\ 0 < cooldown b /\ 0 <= failures b /\
  (b_state b = BreakerHalfOpen -> probeInFlight b = true) /\
  (b_state b = BreakerClosed -> failures b < threshold b) /\
  (b_state b <> BreakerHalfOpen -> probeInFlight b = false).

Lemma breaker_ok_new t c : breaker_ok (NewBreaker t c).
Proof.
  unfold breaker_ok, NewBreaker. simpl.
  destruct (Z.leb_spec t 0), (Z.leb_spec c 0); split_and!; try lia; done.
Qed.

Lemma breaker_ok_step b b' : breaker_ok b -> breaker_step b b' -> breaker_ok b'.
Proof.
  intros (Ht & Hc & Hf & Hh & Hn & Hp) Hs.
  destruct Hs as [now b|b|now b]; unfold breaker_ok, Allow, Success, Failure;
    destruct (b_state b) eqn:E; simpl; rewrite ?E;
    repeat case_match; simpl in *;
    rewrite ?Z.leb_le, ?Z.leb_gt in *; split_and!; auto with lia; congruence.
Qed.

Lemma breaker_reachable_ok b : breaker_reachable b -> breaker_ok b.
Proof. induction 1; eauto using breaker_ok_new, breaker_ok_step. Qed.

Lemma half_open_refuses b now :
  breaker_ok b -> b_state b = BreakerHalfOpen -> Allow now b = (b, false).
Proof. intros (_ & _ & _ & Hh & _) E. unfold Allow. by rewrite E, Hh. Qed.

(** The circuit after [k] consecutive failures. *)
Lemma failures_count ts b :
  b_state b = BreakerClosed -> failures b = 0 -> 0 < threshold b ->
  let b' := foldl (fun b now => Failure now b) b ts in
  failures b' = Z.of_nat (length ts) /\
  (b_state b' = if threshold b <=? Z.of_nat (length ts) then BreakerOpen else BreakerClosed) /\
  threshold b' = threshold b /\ cooldown b' = cooldown b /\
  (threshold b <= Z.of_nat (length ts) -> last ts = Some (openedAt b')).
Proof.
  intros Hs Hf Ht. induction ts as [|now ts IH] using rev_ind; simpl.
  - rewrite Hf, Hs. destruct (Z.leb_spec (threshold b) (Z.of_nat 0)); [lia|]. split_and!; try done. lia.
  - rewrite foldl_snoc, length_app, last_snoc. simpl.
    set (b1 := foldl _ b ts) in *. destruct IH as (IHf & IHs & IHt & IHc & _).
    assert (b_state b1 <> BreakerHalfOpen) by (rewrite IHs; by case_match).
    unfold Failure. destruct (b_state b1) eqn:E; [| done |].
    all: rewrite IHt, IHf; destruct (Z.leb_spec (threshold b) (Z.of_nat (length ts) + 1)); simpl;
      destruct (Z.leb_spec (threshold b) (Z.of_nat (length ts + 1)));
      destruct (Z.leb_spec (threshold b) (Z.of_nat (length ts))); try lia; try done;
      split_and!; try done; try lia.
Qed.

(** The circuit opens on exactly the threshold-th consecutive failure and
    then refuses until the cooldown has passed, when it admits one request and
    refuses every further one: after a success, [k] failures leave requests
    admitted when [k] is below the threshold; at or above it a request at time
    [now] is admitted only once the cooldown since the last failure has
    passed, and the request after it is refused whatever the time. *)
Theorem breaker_opens_at_threshold b ts now :
  breaker_reachable b ->
  let b' := foldl (fun b now => Failure now b) (Success b) ts in
  (Allow now b').2 =
    (if threshold b <=? Z.of_nat (length ts)
     then cooldown b <=? now - default 0 (last ts) else true) /\
  (threshold b <= Z.of_nat (length ts) -> (Allow now b').2 = true ->
   forall later, (Allow later (Allow now b').1).2 = false).
Proof.
  intros Hr. pose proof (breaker_reachable_ok b Hr) as (Ht & _).
  destruct (failures_count ts (Success b)) as (_ & Hs & _ & Hc & Hl); [done..|].
  intros b'. fold b' in Hs, Hc, Hl. simpl in *. unfold Allow.
  destruct (Z.leb_spec (threshold b) (Z.of_nat (length ts))); rewrite Hs, ?Hc.
  - rewrite Hl by done. simpl. case_match; simpl; split; try done.
  - split; [done|lia].
Qed.

Lemma breaker_opens_at_threshold_witness :
  let b' := foldl (fun b now => Failure now b) (Success (NewBreaker 3 1000)) [10; 20; 30] in
  (Allow 500 b').2 = false /\ (Allow 1030 b').2 = true.
Proof.
  pose proof (breaker_opens_at_threshold (NewBreaker 3 1000) [10; 20; 30] 500 (reach_new 3 1000)) as [H1 _].
  pose proof (breaker_opens_at_threshold (NewBreaker 3 1000) [10; 20; 30] 1030 (reach_new 3 1000)) as [H2 _].
  simpl in H1, H2. split; [exact H1|exact H2].
Defined.

(** At most one probe: once a half-open circuit has admitted its probe,
    no other request is admitted, at any time and however often it is asked,
    until the probe's outcome is recorded. *)
Theorem breaker_single_probe b nows :
  breaker_reachable b -> b_state b = BreakerHalfOpen ->
  let b' := foldl (fun b now => (Allow now b).1) b nows in
  b' = b /\ forall now, (Allow now b').2 = false.
Proof.
  intros Hr E. pose proof (breaker_reachable_ok b Hr) as Hok.
  assert (Hb : foldl (fun b now => (Allow now b).1) b nows = b).
  { induction nows as [|now nows IH]; simpl; [done|].
    by rewrite (half_open_refuses b now Hok E). }
  simpl. rewrite Hb. split; [done|]. intros now. by rewrite half_open_refuses.
Qed.

Definition half_open_breaker : Breaker := (Allow 100 (Failure 10 (NewBreaker 1 20))).1.

Lemma half_open_reachable : breaker_reachable half_open_breaker.
Proof. apply (reach_step (Failure 10 (NewBreaker 1 20))); [|constructor].
  apply (reach_step (NewBreaker 1 20)); constructor. Qed.

Lemma breaker_single_probe_witness :
  b_state half_open_breaker = BreakerHalfOpen /\
  forall now, (Allow now (foldl (fun b now => (Allow now b).1) half_open_breaker [200; 300])).2 = false.
Proof.
  split; [reflexivity|].
  apply (breaker_single_probe half_open_breaker [200; 300] half_open_reachable eq_refl).
Defined.

(** ** Fetch theorems *)

(** Every attempt of the script is throttled, and neither the context nor the
    limiter ends the loop. *)
Definition all_throttled (n : nat) (script : nat -> turn) : Prop :=
  forall i, (i < n)%nat -> t_cancelled (script i) = false /\ t_limited (script i) = false /\
    exists d, t_outcome (script i) = AThrottled d.

Lemma fetch_loop_throttled n i script b sent :
  (forall j, (i <= j < i + n)%nat -> t_cancelled (script j) = false /\
     t_limited (script j) = false /\ exists d, t_outcome (script j) = AThrottled d) ->
  fetch_loop n i script b sent = (b, FUnavailable, (sent + n)%nat).
Proof.
  revert i sent. induction n as [|n IH]; intros i sent H; simpl; [by rewrite Nat.add_0_r|].
  destruct (H i) as (-> & -> & d & ->); [lia|]. rewrite andb_false_r.
  rewrite IH; [f_equal; lia|]. intros j ?. apply H. lia.
Qed.

(** The breakers along a list of fetches. *)
Definition fetch_all (retries : nat) (calls : list (Z * (nat -> turn))) (b : Breaker)
    : list (fetch_result * nat) :=
  (fix go calls b := match calls with
   | [] => []
   | (now, script) :: calls' =>
       let '(b', r, sent) := fetchTarget retries now script b in (r, sent) :: go calls' b'
   end) calls b.

Lemma fetch_all_half_open retries calls b :
  breaker_ok b -> b_state b = BreakerHalfOpen ->
  fetch_all retries calls b = repeat (FBreakerOpen, O) (length calls).
Proof.
  intros Hok E. induction calls as [|[now script] calls IH]; simpl; [done|].
  unfold fetchTarget. rewrite half_open_refuses by done. simpl. by rewrite IH.
Qed.

(** A throttled probe wedges the circuit: when a request admitted by an
    open circuit after its cooldown is answered 429 on every attempt, no
    outcome is recorded, the circuit stays half-open, and every later fetch is
    refused without an attempt, at any time and whatever the upstream would
    answer. *)
Theorem throttled_probe_wedges_circuit retries now script b calls :
  breaker_reachable b -> b_state b = BreakerOpen -> cooldown b <= now - openedAt b ->
  all_throttled retries script ->
  let '(b', r, sent) := fetchTarget retries now script b in
  r = FUnavailable /\ sent = retries /\
  fetch_all retries calls b' = repeat (FBreakerOpen, O) (length calls).
Proof.
  intros Hr E Hc Hs. pose proof (breaker_reachable_ok b Hr) as Hok.
  assert (Hok' : breaker_ok (Allow now b).1) by eauto using breaker_ok_step, step_allow.
  unfold fetchTarget, Allow in *. rewrite E in *.
  destruct (Z.leb_spec (cooldown b) (now - openedAt b)); [|lia]. simpl in *.
  rewrite fetch_loop_throttled by (intros; apply Hs; lia). simpl.
  split_and!; [done|done|]. by apply fetch_all_half_open.
Qed.

Definition throttled_script : nat -> turn := fun _ => mkTurn false false 0 (AThrottled 1).
Definition healthy_script : nat -> turn := fun _ => mkTurn false false 0 AResponse.
Definition open_breaker : Breaker := Failure 10 (NewBreaker 1 20).

Lemma throttled_probe_wedges_circuit_witness :
  let '(b', r, sent) := fetchTarget 3 100 throttled_script open_breaker in
  r = FUnavailable /\ sent = 3%nat /\
  fetch_all 3 [(1000000, healthy_script); (2000000, healthy_script)] b' =
    [(FBreakerOpen, O); (FBreakerOpen, O)].
Proof.
  apply (throttled_probe_wedges_circuit 3 100 throttled_script open_breaker
           [(1000000, healthy_script); (2000000, healthy_script)]).
  - apply (reach_step (NewBreaker 1 20)); constructor.
  - reflexivity.
  - vm_compute; congruence.
  - intros i _. split_and!; [reflexivity..|]. exists 1. reflexivity.
Defined.

(** An attempt that lets the loop go on. *)
Definition goes_on (t : turn) (b b' : Breaker) : Prop :=
  t_limited t = false /\
  ((exists d, t_outcome t = AThrottled d /\ b' = b) \/
   (t_outcome t = ATransient /\ Allow (t_now t) (Failure (t_now t) b) = (b', true))).

Lemma fetch_loop_spec n i script b sent b' r sent' :
  fetch_loop n i script b sent = (b', r, sent') ->
  (sent <= sent' <= sent + n)%nat /\
  (r = FResponse \/ r = FNotFound ->
     exists j, (i <= j < i + n)%nat /\ sent' = (sent + S (j - i))%nat /\
       t_outcome (script j) = (if decide (r = FResponse) then AResponse else ANotFound) /\
       b_state b' = BreakerClosed /\ failures b' = 0) /\
  (r = FUnavailable -> sent' = (sent + n)%nat).
Proof.
  revert i b sent. induction n as [|n IH]; intros i b sent; simpl.
  { intros [= <- <- <-]. split_and!; [lia..| |lia]. intros [?|?]; done. }
  repeat case_match; try (intros [= <- <- <-]; split_and!; [lia..| |]; try done;
    intros [?|?]; try done; exists i; split_and!; try done; lia).
  all: intros (Hb & Hok & Hu)%IH; split_and!; [lia..| |intros; rewrite Hu by done; lia];
    intros (j & Hj & -> & Ho & Hc)%Hok; exists j; split_and!; try done; try lia; tauto.
Qed.

(** One fetch sends at most the configured number of attempts and none
    when the circuit refuses it; when it returns the upstream's answer, that
    answer (2xx, or a clean 404) is the outcome of the last attempt sent and
    the circuit is closed with its failure count cleared; giving up means
    every attempt was used. *)
Theorem fetch_target_bounded retries now script b :
  let '(b', r, sent) := fetchTarget retries now script b in
  (sent <= retries)%nat /\
  ((Allow now b).2 = false -> r = FBreakerOpen /\ sent = O) /\
  (r = FResponse \/ r = FNotFound ->
     t_outcome (script (pred sent)) = (if decide (r = FResponse) then AResponse else ANotFound) /\
     (0 < sent)%nat /\ b_state b' = BreakerClosed /\ failures b' = 0) /\
  (r = FUnavailable -> sent = retries).
Proof.
  unfold fetchTarget. destruct (Allow now b) as [b0 []].
  - destruct (fetch_loop _ _ _ _ _) as [[b' r] sent] eqn:E.
    apply fetch_loop_spec in E as (Hb & Hok & Hu).
    split_and!; [lia|done| |intros; rewrite Hu by done; lia].
    intros (j & Hj & -> & Ho & Hc)%Hok.
    replace (pred (0 + S (j - 0))) with j by lia. split_and!; try tauto. lia.
  - split_and!; try done; try lia. intros [?|?]; done.
Qed.

(** ** Destinations *)

(** The 32-bit value of an IPv4 address, and membership in a CIDR block. *)
Definition ipv4_value (a b c d : Z) : Z := a * 2 ^ 24 + b * 2 ^ 16 + c * 2 ^ 8 + d.
Definition in_block (x base len : Z) : Prop := x / 2 ^ (32 - len) = base / 2 ^ (32 - len).

(** 0.0.0.0, 10/8, 100.64/10, 127/8, 169.254/16, 172.16/12, 192.168/16 and
    224/4. *)
Definition blocked_v4 : list (Z * Z) :=
  [(0, 32); (ipv4_value 10 0 0 0, 8); (ipv4_value 100 64 0 0, 10); (ipv4_value 127 0 0 0, 8);
   (ipv4_value 169 254 0 0, 16); (ipv4_value 172 16 0 0, 12); (ipv4_value 192 168 0 0, 16);
   (ipv4_value 224 0 0 0, 4)].

Definition is_byte (x : Z) : Prop := 0 <= x < 256.

(** A fact about all bytes, by checking each of them. *)
Lemma for_all_bytes (P : Z -> bool) x :
  forallb (fun n => P (Z.of_nat n)) (seq 0 256) = true -> is_byte x -> P x = true.
Proof.
  intros H [? ?]. rewrite forallb_forall in H.
  specialize (H (Z.to_nat x)). rewrite Z2Nat.id in H by lia. apply H.
  apply in_seq. lia.
Qed.

Lemma land_240 x : is_byte x -> Z.land x 240 = x / 16 * 16.
Proof.
  intros. apply Z.eqb_eq.
  apply (for_all_bytes (fun x => Z.land x 240 =? x / 16 * 16)); [vm_compute; reflexivity|done].
Qed.

Lemma or_iff (A B C D : Prop) : (A <-> C) -> (B <-> D) -> (A \/ B <-> C \/ D).
Proof. tauto. Qed.

Lemma block_quotients a b c d :
  0 <= a < 256 -> 0 <= b < 256 -> 0 <= c < 256 -> 0 <= d < 256 ->
  ipv4_value a b c d / 2 ^ 24 = a /\ ipv4_value a b c d / 2 ^ 22 = 4 * a + b / 64 /\
  ipv4_value a b c d / 2 ^ 20 = 16 * a + b / 16 /\ ipv4_value a b c d / 2 ^ 16 = 256 * a + b /\
  ipv4_value a b c d / 2 ^ 28 = a / 16.
Proof.
  intros. unfold ipv4_value.
  change (2 ^ 24) with 16777216; change (2 ^ 22) with 4194304; change (2 ^ 20) with 1048576;
  change (2 ^ 16) with 65536; change (2 ^ 28) with 268435456; change (2 ^ 8) with 256.
  split_and!; Z.div_mod_to_equations; lia.
Qed.

(** The blocks in terms of the leading bytes. *)
Lemma blocked_v4_bytes a b c d :
  is_byte a -> is_byte b -> is_byte c -> is_byte d ->
  Exists (fun r => in_block (ipv4_value a b c d) r.1 r.2) blocked_v4 <->
  (a = 0 /\ b = 0 /\ c = 0 /\ d = 0) \/ a = 10 \/ (a = 100 /\ 64 <= b <= 127) \/ a = 127 \/
  (a = 169 /\ b = 254) \/ (a = 172 /\ b / 16 * 16 = 16) \/ (a = 192 /\ b = 168) \/ a / 16 * 16 = 224.
Proof.
  unfold is_byte. intros Ha Hb Hc Hd.
  destruct (block_quotients a b c d) as (E24 & E22 & E20 & E16 & E28); [done..|].
  unfold blocked_v4. rewrite !Exists_cons, Exists_nil. unfold in_block. simpl fst; simpl snd.
  change (32 - 32) with 0; change (32 - 8) with 24; change (32 - 10) with 22;
  change (32 - 16) with 16; change (32 - 12) with 20; change (32 - 4) with 28.
  rewrite E24, E22, E20, E16, E28.
  change (2 ^ 0) with 1. rewrite !Z.div_1_r.
  repeat match goal with |- context [ipv4_value ?x ?y 0 0 / 2 ^ ?k] =>
    let v := eval vm_compute in (ipv4_value x y 0 0 / 2 ^ k) in
    change (ipv4_value x y 0 0 / 2 ^ k) with v end.
  unfold ipv4_value. change (2 ^ 24) with 16777216; change (2 ^ 16) with 65536; change (2 ^ 8) with 256.
  assert (64 <= b <= 127 <-> b / 64 = 1) as -> by (Z.div_mod_to_equations; lia).
  assert (0 <= b / 64 < 4) by (Z.div_mod_to_equations; lia).
  assert (0 <= b / 16 < 16) by (Z.div_mod_to_equations; lia).
  generalize dependent (b / 64). generalize dependent (b / 16). generalize (a / 16). intros.
  repeat (apply or_iff; [lia|]). lia.
Qed.

(** What the destination check lets through: an upstream-supplied host
    that is not the feed's own is fetched only when no IPv4 address it resolves
    to (also in IPv4-mapped form) lies in 0.0.0.0, 10/8, 100.64/10, 127/8,
    169.254/16, 172.16/12, 192.168/16 or 224/4. *)
Theorem check_destination_public lookup base host ips a b c d :
  checkDestination lookup base host = true -> EqualFold host base = false -> lookup host = Some ips ->
  is_byte a -> is_byte b -> is_byte c -> is_byte d ->
  IPv4 a b c d ∈ ips \/ IPv6 (repeat 0 10 ++ [255; 255; a; b; c; d]) ∈ ips ->
  Forall (fun r => ~ in_block (ipv4_value a b c d) r.1 r.2) blocked_v4.
Proof.
  unfold checkDestination. intros Hc Hh Hl Ha Hb Hbc Hd Hin.
  rewrite Hh, Hl in Hc. rewrite forallb_forall in Hc.
  assert (Hp : isPublicIP (IPv4 a b c d) = true).
  { destruct Hin as [Hin|Hin]; apply list_elem_of_In in Hin; apply Hc in Hin; exact Hin. }
  apply Forall_Exists_neg. rewrite blocked_v4_bytes by done.
  unfold isPublicIP, IsLoopback, IsPrivate, IsUnspecified, IsLinkLocalUnicast, IsMulticast in Hp.
  simpl in Hp. rewrite !land_240 in Hp by done.
  intros Hblocked. revert Hp. apply not_true_iff_false.
  destruct Hblocked as
    [(-> & -> & -> & ->)|[-> |[[-> ?]|[-> |[[-> ->]|[[-> ->]|[[-> ->]| ->]]]]]]];
    simpl; rewrite ?orb_true_r; try reflexivity.
  destruct (Z.leb_spec 64 b), (Z.leb_spec b 127); try lia.
Qed.

Lemma check_destination_public_witness :
  Forall (fun r => ~ in_block (ipv4_value 151 101 1 55) r.1 r.2) blocked_v4.
Proof.
  apply (check_destination_public (fun _ => Some [IPv4 151 101 1 55]) "repo.example" "cdn.example"
           [IPv4 151 101 1 55]); try reflexivity; try (unfold is_byte; lia).
  left. apply list_elem_of_singleton. reflexivity.
Defined.
