(* ===== verification/Store.v ===== *)
(** * Blob storage: the contract of [core/api] and [modules/storage/fs]

    [BlobStore] is the interface the pipeline and the publisher are verified
    against: reads, verified writes and the laws clients rely on. The
    directory-backed store is modelled on a small file system (files, and
    directories that stay once made) and implements the interface. The file
    also holds the path rules ([path.Clean], key and remote path validation)
    shared by the store and the pipeline. *)

From S2P Require Import Prelude.
Open Scope Z_scope.

(** ** Errors shared by the core: [core/api/errors.go] *)

Inductive api_error :=
| ErrNotFound
| ErrUnauthorized
| ErrForbidden
| ErrChecksumMismatch
| ErrImmutable
| ErrUpstreamUnavailable
| ErrUnavailable
| ErrBadRequest
| ErrQuarantined
| ErrOther (what : string).

#[export] Instance api_error_eq_dec : EqDecision api_error.
Proof. solve_decision. Defined.

(** ** Paths *)

(** One segment of [path.Clean]: the output stack, last segment first. *)
Definition clean_step (rooted : bool) (out : list string) (seg : string) : list string :=
  if decide (seg = "" \/ seg = ".") then out
  else if decide (seg = "..") then
    match out with
    | top :: out' => if decide (top = "..") then ".." :: out else out'
    | [] => if rooted then [] else [".."]
    end
  else seg :: out.

(** [path.Clean]. *)
Definition Clean (p : string) : string :=
  let rooted := has_prefix p "/" in
  let out := foldl (clean_step rooted) [] (split p "/"%char) in
  let body := join (rev out) "/" in
  if rooted then "/" +:+ body else if decide (body = "") then "." else body.

(** [validRemotePath] of [core/pipeline]. *)
Definition validRemotePath (p : string) : bool :=
  if bool_decide (p = "") || has_prefix p "/" then false
  else
    let clean := Clean p in
    negb (bool_decide (clean <> p) || bool_decide (clean = ".") || has_prefix clean "../").

(** [Store.keyPath]'s test of a key. *)
Definition validKey (key : string) : bool :=
  if bool_decide (key = "") || has_prefix key "/" || (cut_suffix key "/").2 then false
  else
    let clean := Clean key in
    negb (bool_decide (clean <> key) || bool_decide (clean = ".") ||
          bool_decide (clean = "..") || has_prefix clean "../").

(** [keyPath]: the file of a key in one of the store's trees. *)
Definition keyPath (tree key : string) : option string :=
  if validKey key then Some (tree +:+ "/" +:+ key) else None.

(** ** The interface *)

(** An object and what [Stat] reports about it. *)
Record Obj := mkObj {
  o_body : string;
  o_sha256 : string;
  o_modtime : Z;
  o_content_type : string;
}.
Definition o_size (o : Obj) : Z := Z.of_nat (String.length (o_body o)).

Record PutOpts := mkPutOpts {
  po_sha256 : string;
  po_size : Z;
  po_content_type : string;
}.
Definition no_opts : PutOpts := mkPutOpts "" 0 "".

(** What [Put] requires of a body before it may become visible. *)
Definition put_accepts (sha256 : string -> string) (body : string) (o : PutOpts) : Prop :=
  (0 < po_size o -> po_size o = Z.of_nat (String.length body)) /\
  (po_sha256 o <> "" -> ToLower (po_sha256 o) = ToLower (sha256 body)).

Definition found {A} (r : result api_error A) : option A :=
  match r with Ok a => Some a | Err _ => None end.

(** [api.BlobStore]: [Stat] reports exactly what [Get] would open; a write
    either makes the whole verified body visible under its key or leaves the
    key's content as it was, and no other key is affected. *)
Class BlobStore (sha256 : string -> string) (St : Type) := {
  Get : string -> St -> result api_error Obj;
  Put : Z -> string -> string -> PutOpts -> St -> St * option api_error;
  Delete : string -> St -> St * option api_error;
  put_stores : forall now k body o st st',
    Put now k body o st = (st', None) ->
    put_accepts sha256 body o /\
    found (Get k st') = Some (mkObj body (sha256 body) now (po_content_type o));
  put_atomic : forall now k body o st st' e,
    Put now k body o st = (st', Some e) ->
    o_body <$> found (Get k st') = o_body <$> found (Get k st);
  put_local : forall now k k' body o st,
    k' <> k -> found (Get k' (Put now k body o st).1) = found (Get k' st);
  delete_removes : forall k st st', Delete k st = (st', None) -> found (Get k st') = None;
  delete_local : forall k k' st, k' <> k -> found (Get k' (Delete k st).1) = found (Get k' st);
}.

(** [Stat] is [Get] without the body. *)
Definition Stat `{BlobStore sha256 St} (k : string) (st : St) : result api_error Obj := Get k st.

(** ** A small file system *)

Inductive file :=
| Data (body : string) (mtime : Z)
| Attrs (sha256 content_type : string).

Record FS := mkFS { files : gmap string file; dirs : gset string }.

(** The proper ancestors of a path. *)
Definition ancestors (p : string) : list string :=
  let segs := split p "/"%char in
  (fun n => join (take n segs) "/") <$> seq 1 (pred (length segs)).

Definition is_file (fs : FS) (p : string) : bool :=
  match files fs !! p with Some _ => true | None => false end.

(** [os.MkdirAll] of the parent directory, then [os.Rename] of a staged file:
    a file among the ancestors, or a directory at the destination, is an
    error. Directories made on the way stay. *)
Definition rename_into (dst : string) (f : file) (fs : FS) : FS * bool :=
  if existsb (is_file fs) (ancestors dst) then (fs, false)
  else
    let fs := mkFS (files fs) (dirs fs ∪ list_to_set (ancestors dst)) in
    if decide (dst ∈ dirs fs) then (fs, false)
    else (mkFS (<[dst := f]> (files fs)) (dirs fs), true).

(** ** The directory-backed store *)

Section fs_store.
Context (sha256 : string -> string).

(** [Store.readAttrs]: digest and content type, empty when unreadable. *)
Definition readAttrs (key : string) (fs : FS) : string * string :=
  match keyPath "attrs" (key +:+ ".json") with
  | None => ("", "")
  | Some p => match files fs !! p with
              | Some (Attrs s c) => (s, c)
              | _ => ("", "")
              end
  end.

(** [Store.Get] and [Store.Stat]. *)
Definition fs_get (key : string) (fs : FS) : result api_error Obj :=
  match keyPath "data" key with
  | None => Err (ErrOther "invalid blob key")
  | Some p =>
      match files fs !! p with
      | Some (Data body mtime) =>
          let '(s, c) := readAttrs key fs in Ok (mkObj body s mtime c)
      | Some (Attrs _ _) => Err (ErrOther "open blob")
      | None => if existsb (is_file fs) (ancestors p) then Err (ErrOther "stat blob")
                else Err ErrNotFound
      end
  end.

(** [Store.Put]: verify the staged bytes, write the attributes, then move
    the data into place. *)
Definition fs_put (now : Z) (key body : string) (o : PutOpts) (fs : FS)
    : FS * option api_error :=
  match keyPath "data" key, keyPath "attrs" (key +:+ ".json") with
  | Some dst, Some attrsDst =>
      let size := Z.of_nat (String.length body) in
      let digest := sha256 body in
      if (0 <? po_size o) && negb (size =? po_size o) then (fs, Some (ErrOther "size mismatch"))
      else if negb (bool_decide (po_sha256 o = "")) && negb (EqualFold (po_sha256 o) digest)
      then (fs, Some ErrChecksumMismatch)
      else
        let '(fs1, ok) := rename_into attrsDst (Attrs digest (po_content_type o)) fs in
        if negb ok then (fs1, Some (ErrOther "put: attrs"))
        else
          let '(fs2, ok) := rename_into dst (Data body now) fs1 in
          if negb ok then (fs2, Some (ErrOther "put: rename")) else (fs2, None)
  | _, _ => (fs, Some (ErrOther "invalid blob key"))
  end.

(** [Store.Delete]: the data, then best effort the attributes. *)
Definition fs_delete (key : string) (fs : FS) : FS * option api_error :=
  match keyPath "data" key with
  | None => (fs, Some (ErrOther "invalid blob key"))
  | Some p =>
      match files fs !! p with
      | None => if existsb (is_file fs) (ancestors p) then (fs, Some (ErrOther "delete blob"))
                else (fs, Some ErrNotFound)
      | Some _ =>
          let fs := mkFS (delete p (files fs)) (dirs fs) in
          match keyPath "attrs" (key +:+ ".json") with
          | None => (fs, None)
          | Some ap => (mkFS (delete ap (files fs)) (dirs fs), None)
          end
      end
  end.

(** [filepath.WalkDir] visits a directory's entries in name order, so keys
    come out ordered segment by segment. *)
Fixpoint walk_le (a b : list string) : bool :=
  match a, b with
  | [], _ => true
  | _ :: _, [] => false
  | x :: a', y :: b' => if decide (x = y) then walk_le a' b' else str_ltb x y
  end.
Definition key_walk_le (a b : string) : Prop :=
  walk_le (split a "/"%char) (split b "/"%char) = true.
#[export] Instance key_walk_le_dec : RelDecision key_walk_le.
Proof. intros a b. unfold key_walk_le. apply _. Defined.

(** [Store.List]: the keys under a prefix, in the order they are sent. *)
Definition fs_list (prefix : string) (fs : FS) : list string :=
  merge_sort key_walk_le
    (filter (fun key => has_prefix key prefix = true)
       (omap (fun kv => match kv.2 with
                        | Data _ _ => if has_prefix kv.1 "data/"
                                      then Some (String.substring 5 (String.length kv.1 - 5) kv.1)
                                      else None
                        | Attrs _ _ => None
                        end) (map_to_list (files fs)))).
End fs_store.

(** ** Path theorems *)

Lemma split_app s t c : split (s +:+ String c t) c = split s c ++ split t c.
Proof.
  induction s as [|d s IH]; simpl; [by rewrite decide_True|].
  case_decide; [by rewrite IH|].
  rewrite IH. destruct (split s c) eqn:E; [by destruct (split_nonempty s c)|]. done.
Qed.

Lemma split_free s c w : w ∈ split s c -> contains_char w c = false.
Proof.
  revert w. induction s as [|d s IH]; intros w; simpl.
  - intros ->%list_elem_of_singleton. done.
  - case_decide as Hd.
    + intros [-> | ?]%elem_of_cons; auto.
    + destruct (split s c) as [|x xs] eqn:E; [by destruct (split_nonempty s c)|].
      intros [-> | ?]%elem_of_cons; [|apply IH; by right].
      simpl. rewrite bool_decide_eq_false_2 by done. apply IH. by left.
Qed.

Lemma split_single w c : contains_char w c = false -> split w c = [w].
Proof.
  induction w as [|d w IH]; simpl; [done|]. intros [Hd Hw]%orb_false_iff.
  apply bool_decide_eq_false in Hd. rewrite decide_False, IH by done. done.
Qed.

Lemma split_join ws c :
  ws <> [] -> Forall (fun w => contains_char w c = false) ws ->
  split (join ws (String c "")) c = ws.
Proof.
  induction ws as [|w ws IH]; [done|]. intros _ [Hw Hws]%Forall_cons.
  destruct ws as [|w' ws]; [simpl; by apply split_single|].
  rewrite join_cons by done. change (w +:+ String c "" +:+ ?r) with (w +:+ String c r).
  rewrite split_app, split_single, IH by done. done.
Qed.

(** A path segment that names something below its parent. *)
Definition good_segment (s : string) : Prop := s <> "" /\ s <> "." /\ s <> "..".
#[export] Instance good_segment_dec s : base.Decision (good_segment s).
Proof. unfold good_segment. apply _. Defined.

(** The stack of [Clean] on a relative path: parents first, then segments. *)
Definition clean_stack (out : list string) : Prop :=
  exists k gs, out = rev gs ++ repeat ".." k /\ Forall good_segment gs.

Lemma clean_step_stack out seg : clean_stack out -> clean_stack (clean_step false out seg).
Proof.
  intros (k & gs & -> & Hg). unfold clean_step. case_decide; [by exists k, gs|].
  case_decide as Hdd.
  - induction gs as [|g gs _] using rev_ind; simpl.
    + destruct k; simpl; [exists 1%nat, []; by split|].
      exists (S (S k)), []. by split.
    + rewrite rev_app_distr. simpl. apply Forall_app in Hg as [Hgs [Hgg _]%Forall_cons].
      rewrite decide_False by (by destruct Hgg as (?&?&?)). by exists k, gs.
  - exists k, (gs ++ [seg]). rewrite rev_app_distr. split; [done|].
    apply Forall_app. split; [done|]. apply Forall_singleton. unfold good_segment. tauto.
Qed.

Lemma clean_fold_stack segs out :
  clean_stack out -> clean_stack (foldl (clean_step false) out segs).
Proof. revert out. induction segs; simpl; auto using clean_step_stack. Qed.

Lemma clean_good segs out :
  Forall good_segment segs -> foldl (clean_step false) out segs = rev segs ++ out.
Proof.
  revert out. induction segs as [|g segs IH]; intros out; simpl; [done|].
  intros [(H1 & H2 & H3) ?]%Forall_cons. rewrite IH by done. unfold clean_step.
  rewrite decide_False by tauto. rewrite decide_False by done. by rewrite <- app_assoc.
Qed.

Lemma not_rooted_good p : Forall good_segment (split p "/"%char) -> has_prefix p "/" = false.
Proof.
  destruct p as [|c p]; [done|]. simpl. case_decide as Hc.
  - intros [(? & _) _]%Forall_cons. done.
  - intros _. unfold has_prefix. simpl. case_match; [by subst|done].
Qed.

Lemma Clean_good p : Forall good_segment (split p "/"%char) -> Clean p = p.
Proof.
  intros Hg. unfold Clean. rewrite not_rooted_good, clean_good by done.
  rewrite app_nil_r, rev_involutive, join_split.
  rewrite decide_False; [done|]. intros ->. apply Forall_singleton in Hg as [? _]. done.
Qed.

Lemma clean_step_free c rooted out seg :
  c <> "."%char -> contains_char seg c = false ->
  Forall (fun w => contains_char w c = false) out ->
  Forall (fun w => contains_char w c = false) (clean_step rooted out seg).
Proof.
  intros Hc Hs Ho. unfold clean_step. repeat case_match; subst; auto;
    repeat (apply Forall_cons in Ho as [? ?]); repeat constructor; auto;
    simpl; by rewrite !bool_decide_eq_false_2.
Qed.

Lemma clean_fold_free c rooted segs out :
  c <> "."%char -> Forall (fun w => contains_char w c = false) segs ->
  Forall (fun w => contains_char w c = false) out ->
  Forall (fun w => contains_char w c = false) (foldl (clean_step rooted) out segs).
Proof.
  intros Hc. revert out. induction segs as [|s segs IH]; intros out; simpl; [done|].
  intros [? ?]%Forall_cons ?. apply IH; [done|]. by apply clean_step_free.
Qed.

(** A relative path that [Clean] leaves alone and that is not the dot path is
    some parent steps followed by good segments. *)
Lemma Clean_fixed p :
  has_prefix p "/" = false -> Clean p = p -> p <> "." ->
  exists k gs, split p "/"%char = repeat ".." k ++ gs /\ Forall good_segment gs.
Proof.
  intros Hr Hc Hd. unfold Clean in Hc. rewrite Hr in Hc.
  set (out := foldl (clean_step false) [] (split p "/"%char)) in *.
  case_decide as Hb; [done|].
  assert (Hst : clean_stack out) by (apply clean_fold_stack; exists O, []; by split).
  assert (Hfree : Forall (fun w => contains_char w "/"%char = false) out).
  { apply clean_fold_free; [done| |constructor].
    apply Forall_forall. intros w. apply split_free. }
  destruct Hst as (k & gs & Hout & Hg). exists k, gs. split; [|done].
  rewrite <- Hc. rewrite split_join.
  - rewrite Hout, rev_app_distr, rev_involutive. f_equal.
    clear. induction k as [|k IH]; simpl; [done|]. rewrite IH.
    clear. induction k as [|k IH]; simpl; [done|]. by rewrite IH.
  - intros Hn. rewrite Hn in Hb. done.
  - apply Forall_rev. done.
Qed.

Lemma has_prefix_split p s ss :
  split p "/"%char = s :: ss -> ss <> [] -> has_prefix p (s +:+ "/") = true.
Proof.
  intros Hs Hn. rewrite <- (join_split p "/"%char), Hs, join_cons by done.
  rewrite str_app_assoc. apply has_prefix_app_r.
Qed.

(** The remote paths the pipeline accepts are exactly those whose every
    slash-separated segment is non-empty and neither the dot nor the parent
    segment, and the lone parent path. *)
Theorem valid_remote_path_spec p :
  validRemotePath p = true <-> Forall good_segment (split p "/"%char) \/ p = "..".
Proof.
  unfold validRemotePath. split.
  - case_match eqn:E1; [done|]. apply orb_false_iff in E1 as [E1 Hr].
    apply bool_decide_eq_false in E1. rewrite negb_true_iff, !orb_false_iff, !bool_decide_eq_false.
    intros [[Hc Hd] Hp]. apply dec_stable in Hc. rewrite Hc in Hd, Hp.
    destruct (Clean_fixed p Hr Hc Hd) as ([|k] & gs & Hs & Hg); [left; by rewrite Hs|].
    right. simpl in Hs. destruct (repeat ".." k ++ gs) as [|g ss] eqn:E.
    + by rewrite <- (join_split p "/"%char), Hs.
    + pose proof (has_prefix_split p ".." (g :: ss) Hs ltac:(done)) as Hx. simpl in Hx. congruence.
  - intros [Hg| ->]; [|reflexivity]. rewrite (not_rooted_good p Hg), (Clean_good p Hg).
    rewrite (bool_decide_eq_false_2 (p = "")); [|by intros ->; apply Forall_singleton in Hg as [? _]].
    simpl. rewrite negb_true_iff, !orb_false_iff, !bool_decide_eq_false. split_and!; [by intros ?| |].
    + intros ->. apply Forall_singleton in Hg as (_ & ? & _). done.
    + apply not_true_iff_false. rewrite has_prefix_spec. intros [r ->].
      change ("../" +:+ r) with (".." +:+ String "/"%char r) in Hg.
      rewrite split_app in Hg. apply Forall_app in Hg as [(_ & _ & ?)%Forall_singleton _]. done.
Qed.

Lemma validKey_spec key : validKey key = true -> Forall good_segment (split key "/"%char).
Proof.
  unfold validKey. case_match eqn:E1; [done|].
  apply orb_false_iff in E1 as [[E1 Hr]%orb_false_iff _].
  apply bool_decide_eq_false in E1. rewrite negb_true_iff, !orb_false_iff, !bool_decide_eq_false.
  intros [[[Hc Hd] Hdd] Hp]. apply dec_stable in Hc. rewrite Hc in Hd, Hdd, Hp.
  destruct (Clean_fixed key Hr Hc Hd) as ([|k] & gs & Hs & Hg); [by rewrite Hs|].
  simpl in Hs. destruct (repeat ".." k ++ gs) as [|g ss] eqn:E.
  - exfalso. apply Hdd. by rewrite <- (join_split key "/"%char), Hs.
  - pose proof (has_prefix_split key ".." (g :: ss) Hs ltac:(done)) as Hx. simpl in Hx. congruence.
Qed.

(** ** The directory store implements the interface *)

Lemma str_app_inj_l a b c : a +:+ b = a +:+ c -> b = c.
Proof. induction a as [|x a IH]; simpl; [done|]. intros [=]. auto. Qed.

Lemma str_app_inj_r a b c : a +:+ c = b +:+ c -> a = b.
Proof.
  revert b. induction a as [|x a IH]; intros [|y b]; simpl; try done.
  - intros H. apply (f_equal String.length) in H. simpl in H. rewrite str_length_app in H. lia.
  - intros H. apply (f_equal String.length) in H. simpl in H. rewrite str_length_app in H. lia.
  - intros [= -> H]. f_equal. auto.
Qed.

Lemma keyPath_Some tree key p : keyPath tree key = Some p -> p = tree +:+ "/" +:+ key.
Proof. unfold keyPath. case_match; [|done]. by intros [=]. Qed.

Lemma rename_into_files dst f fs fs' ok :
  rename_into dst f fs = (fs', ok) ->
  files fs' = if ok then <[dst := f]> (files fs) else files fs.
Proof.
  unfold rename_into. destruct (existsb _ _); [by intros [= <- <-]|].
  simpl. case_decide; by intros [= <- <-].
Qed.

(** What a client can see of a key depends on two files. *)
Lemma found_get_eq key fs fs' :
  (forall p, keyPath "data" key = Some p -> files fs' !! p = files fs !! p) ->
  (forall p, keyPath "attrs" (key +:+ ".json") = Some p -> files fs' !! p = files fs !! p) ->
  found (fs_get key fs') = found (fs_get key fs).
Proof.
  intros Hd Ha.
  assert (Hr : readAttrs key fs' = readAttrs key fs).
  { unfold readAttrs. destruct (keyPath "attrs" _) as [p|]; [by rewrite Ha|done]. }
  unfold fs_get. destruct (keyPath "data" key) as [p|]; [|done].
  rewrite Hd by done. rewrite Hr. repeat case_match; done.
Qed.

(** The two files of one key differ, and differ from those of another. *)
Lemma key_files_disjoint tree k k' p p' suf :
  keyPath tree (k +:+ suf) = Some p -> keyPath tree (k' +:+ suf) = Some p' -> k' <> k -> p' <> p.
Proof.
  intros ->%keyPath_Some ->%keyPath_Some Hne Heq. apply Hne.
  by apply str_app_inj_l, (str_app_inj_l "/"), str_app_inj_r in Heq.
Qed.

Lemma key_trees_disjoint k k' p p' :
  keyPath "data" k = Some p -> keyPath "attrs" k' = Some p' -> p <> p'.
Proof. by intros ->%keyPath_Some ->%keyPath_Some. Qed.

Section fs_laws.
Context (sha256 : string -> string).

(** A write changes nothing, or only the attributes (and fails), or both
    files of the key (and succeeds). *)
Lemma fs_put_cases now k body o fs fs' r (attrs := Attrs (sha256 body) (po_content_type o)) :
  fs_put sha256 now k body o fs = (fs', r) ->
  (is_Some r /\ files fs' = files fs) \/
  (exists ap, keyPath "attrs" (k +:+ ".json") = Some ap /\
     ((is_Some r /\ files fs' = <[ap := attrs]> (files fs)) \/
      (r = None /\ put_accepts sha256 body o /\
       exists dst, keyPath "data" k = Some dst /\
         files fs' = <[dst := Data body now]> (<[ap := attrs]> (files fs))))).
Proof.
  unfold fs_put. destruct (keyPath "data" k) as [dst|] eqn:Ed; [|intros [= <- <-]; eauto].
  destruct (keyPath "attrs" _) as [ap|] eqn:Ea; [|intros [= <- <-]; eauto].
  case_match eqn:Es; [intros [= <- <-]; eauto|]. case_match eqn:Eh; [intros [= <- <-]; eauto|].
  destruct (rename_into ap _ fs) as [fs1 []] eqn:E1; apply rename_into_files in E1; simpl;
    [|intros [= <- <-]; eauto].
  destruct (rename_into dst _ fs1) as [fs2 []] eqn:E2; apply rename_into_files in E2;
    rewrite E1 in E2; simpl; intros [= <- <-]; right; exists ap; (split; [done|]); [right|eauto].
  split_and!; [done| |by exists dst]. split.
  - intros Hp. destruct (Z.ltb_spec 0 (po_size o)); [|lia]. simpl in Es.
    by apply negb_false_iff, Z.eqb_eq in Es.
  - intros Hn. apply andb_false_iff in Eh as [Eh|Eh]; apply negb_false_iff in Eh;
      by apply bool_decide_eq_true in Eh.
Qed.

Lemma fs_put_local now k k' body o fs :
  k' <> k -> found (fs_get k' (fs_put sha256 now k body o fs).1) = found (fs_get k' fs).
Proof.
  intros Hne. destruct (fs_put sha256 now k body o fs) as [fs' r] eqn:E. simpl.
  assert (Hdata : forall p dst, keyPath "data" k' = Some p -> keyPath "data" k = Some dst -> dst <> p).
  { intros p dst Hp Hd. rewrite <- (str_app_nil_r k) in Hd. rewrite <- (str_app_nil_r k') in Hp.
    symmetry. by eapply key_files_disjoint. }
  assert (Hattrs : forall p ap, keyPath "attrs" (k' +:+ ".json") = Some p ->
            keyPath "attrs" (k +:+ ".json") = Some ap -> ap <> p).
  { intros p ap Hp Ha. symmetry. by eapply key_files_disjoint. }
  apply fs_put_cases in E as [[_ Hf]|(ap & Ea & [[_ Hf]|(_ & _ & dst & Ed & Hf)])];
    apply found_get_eq; intros p Hp; rewrite Hf; rewrite ?lookup_insert_ne; try done; eauto.
  - symmetry. by eapply key_trees_disjoint.
  - symmetry. by eapply key_trees_disjoint.
  - by eapply key_trees_disjoint.
Qed.

Lemma fs_put_stores now k body o fs fs' :
  fs_put sha256 now k body o fs = (fs', None) ->
  put_accepts sha256 body o /\
  found (fs_get k fs') = Some (mkObj body (sha256 body) now (po_content_type o)).
Proof.
  intros [[[] _]|(ap & Ea & [[[] _]|(_ & Hacc & dst & Ed & Hf)])]%fs_put_cases; [done..|].
  split; [done|]. unfold fs_get, readAttrs. rewrite Ed, Ea, Hf, lookup_insert_eq.
  rewrite lookup_insert_ne by (by eapply key_trees_disjoint). by rewrite lookup_insert_eq.
Qed.

Lemma fs_put_atomic now k body o fs fs' e :
  fs_put sha256 now k body o fs = (fs', Some e) ->
  o_body <$> found (fs_get k fs') = o_body <$> found (fs_get k fs).
Proof.
  intros [[_ Hf]|(ap & Ea & [[_ Hf]|(? & _)])]%fs_put_cases; [| |done].
  - f_equal. apply found_get_eq; intros; by rewrite Hf.
  - unfold fs_get. destruct (keyPath "data" k) as [p|] eqn:Ed; [|done].
    rewrite Hf, lookup_insert_ne by (symmetry; by eapply key_trees_disjoint).
    destruct (files fs !! p) as [[]|]; simpl; repeat case_match; done.
Qed.

Lemma fs_delete_files k fs fs' r :
  fs_delete k fs = (fs', r) ->
  (forall p, keyPath "data" k <> Some p -> keyPath "attrs" (k +:+ ".json") <> Some p ->
     files fs' !! p = files fs !! p) /\
  (r = None -> forall p, keyPath "data" k = Some p -> files fs' !! p = None).
Proof.
  unfold fs_delete. destruct (keyPath "data" k) as [p|] eqn:Ed; [|by intros [= <- <-]].
  destruct (files fs !! p) eqn:Ep; [|case_match; by intros [= <- <-]].
  destruct (keyPath "attrs" _) as [ap|] eqn:Ea; intros [= <- <-]; simpl; split.
  - intros q Hq Hq'. rewrite !lookup_delete_ne by congruence. done.
  - intros _ q [= <-]. pose proof (key_trees_disjoint _ _ _ _ Ed Ea).
    rewrite lookup_delete_ne by done. apply lookup_delete_eq.
  - intros q Hq _. by rewrite lookup_delete_ne by congruence.
  - intros _ q [= <-]. apply lookup_delete_eq.
Qed.

#[global] Program Instance fs_store : BlobStore sha256 FS := {
  Get := fs_get; Put := fs_put sha256; Delete := fs_delete }.
Next Obligation. apply fs_put_stores. Qed.
Next Obligation. intros *. apply fs_put_atomic. Qed.
Next Obligation. intros *. apply fs_put_local. Qed.
Next Obligation.
  intros k fs fs' [_ H]%fs_delete_files. unfold fs_get.
  destruct (keyPath "data" k) as [p|] eqn:E; [|done]. rewrite H by done. by case_match.
Qed.
Next Obligation.
  intros k k' fs Hne. destruct (fs_delete k fs) as [fs' r] eqn:E. simpl.
  apply fs_delete_files in E as [H _].
  apply found_get_eq; intros p Hp; apply H; intros Hq.
  - rewrite <- (str_app_nil_r k) in Hq. rewrite <- (str_app_nil_r k') in Hp.
    by destruct (key_files_disjoint _ _ _ _ _ _ Hq Hp Hne).
  - by destruct (key_trees_disjoint _ _ _ _ Hp Hq).
  - by destruct (key_trees_disjoint _ _ _ _ Hq Hp).
  - by destruct (key_files_disjoint _ _ _ _ _ _ Hq Hp Hne).
Qed.
End fs_laws.

(** ** Store theorems *)

(** A write to the directory store is verified and confined: on success
    the key has no empty, dot or parent segment, the body has the digest and
    length the caller announced, and reading the key gives exactly that body
    with its own digest, the time and the content type; on failure reading the
    key gives the body it gave before; and no other key changes. *)
Theorem fs_put_verified sha256 now k body o fs fs' r :
  fs_put sha256 now k body o fs = (fs', r) ->
  match r with
  | None => put_accepts sha256 body o /\ Forall good_segment (split k "/"%char) /\
            found (fs_get k fs') = Some (mkObj body (sha256 body) now (po_content_type o))
  | Some _ => o_body <$> found (fs_get k fs') = o_body <$> found (fs_get k fs)
  end /\
  forall k', k' <> k -> found (fs_get k' fs') = found (fs_get k' fs).
Proof.
  intros E. split.
  - destruct r; [by eapply fs_put_atomic|].
    destruct (fs_put_stores _ _ _ _ _ _ _ E) as [Ha Hg]. split_and!; [done| |done].
    apply validKey_spec. unfold fs_get, keyPath in Hg. by destruct (validKey k).
  - intros k' Hne. pose proof (fs_put_local sha256 now k k' body o fs Hne) as H. by rewrite E in H.
Qed.

(** A stand-in digest for concrete runs: the length and the first byte. *)
Definition toy_sha256 (s : string) : string :=
  format_int (Z.of_nat (String.length s)) +:+ String.substring 0 1 s.

Definition empty_fs : FS := mkFS ∅ ∅.

Lemma fs_put_verified_witness :
  found (fs_get "meta/x" (fs_put toy_sha256 7 "meta/x" "body" (mkPutOpts "4b" 4 "") empty_fs).1) =
    Some (mkObj "body" "4b" 7 "").
Proof.
  destruct (fs_put_verified toy_sha256 7 "meta/x" "body" (mkPutOpts "4b" 4 "") empty_fs
              (fs_put toy_sha256 7 "meta/x" "body" (mkPutOpts "4b" 4 "") empty_fs).1 None)
    as [(_ & _ & H) _]; [vm_compute; reflexivity|exact H].
Defined.

(** The store after a list of writes. *)
Definition fs_puts (kvs : list (string * string)) : FS :=
  foldl (fun fs kv => (fs_put toy_sha256 0 kv.1 kv.2 no_opts fs).1) empty_fs kvs.

(** The directory store does not list keys in lexicographic order: a
    directory is walked where its name sorts, while its keys sort after the
    slash, so a sibling whose name continues with a byte below the slash comes
    out after them. *)
Theorem fs_list_not_lexicographic :
  fs_list "" (fs_puts [("lib/a.jar", "1"); ("lib-2/a.jar", "2")]) = ["lib/a.jar"; "lib-2/a.jar"] /\
  str_lt "lib-2/a.jar" "lib/a.jar".
Proof. split; vm_compute; reflexivity. Qed.

(** Overwriting a key is not atomic for a concurrent reader: between the
    two renames of a write, the key's old body is reported with the new body's
    digest. *)
Theorem fs_put_window :
  let fs := fs_puts [("meta/x", "old")] in
  let fs1 := (rename_into "attrs/meta/x.json" (Attrs (toy_sha256 "newer") "") fs).1 in
  (fs_put toy_sha256 9 "meta/x" "newer" no_opts fs).1 =
    (rename_into "data/meta/x" (Data "newer" 9) fs1).1 /\
  found (fs_get "meta/x" fs1) = Some (mkObj "old" (toy_sha256 "newer") 0 "").
Proof. split; vm_compute; reflexivity. Qed.
