(* ===== verification/Listing.v ===== *)
(** * Listings of the blob store

    What a client of [BlobStore.List] relies on, as a class beside the store
    interface, and the directory store's instance ([modules/storage/fs]). *)

From S2P Require Import Prelude GoLib Store.
From Stdlib Require Import Sorting.Sorted.
Open Scope Z_scope.

(** [BlobStore.List]: each object under a prefix with what [Stat] says of it
    (names of one directory in byte order), and a deletion that finds nothing. *)
Class BlobLister {sha256 St} (BS : BlobStore sha256 St) := {
  List : string -> St -> result api_error (list (string * Obj));
  list_objects : forall p st infos k o, List p st = Ok infos ->
    (k, o) ∈ infos <-> has_prefix k p = true /\ found (Get k st) = Some o;
  list_nothing : forall p st k, List p st = Err ErrNotFound -> has_prefix k p = true -> found (Get k st) = None;
  list_ordered : forall p st infos, List p st = Ok infos ->
    (forall k o, (k, o) ∈ infos -> exists r, k = p +:+ r /\ contains_char r "/"%char = false) ->
    StronglySorted str_lt infos.*1;
  delete_missing : forall k st st', Delete k st = (st', Some ErrNotFound) -> found (Get k st') = None;
}.

(** Keys of one directory are walked in byte order. *)
Lemma walk_le_refl l : walk_le l l = true.
Proof. induction l as [|x l IH]; simpl; [done|]. by rewrite decide_True. Qed.
Lemma walk_le_app l a b : walk_le (l ++ a) (l ++ b) = walk_le a b.
Proof. induction l as [|x l IH]; simpl; [done|]. by rewrite decide_True. Qed.
#[export] Instance key_walk_total : Total key_walk_le.
Proof.
  intros a b. unfold key_walk_le. generalize (split a "/"%char) (split b "/"%char).
  induction l as [|x l IH]; intros [|y l']; simpl; auto.
  destruct (decide (x = y)) as [->|Hn]; [rewrite decide_True by done; apply IH|].
  rewrite decide_False by congruence. rewrite !str_ltb_lt. destruct (str_lt_total x y) as [|[|]]; auto. done.
Qed.
#[export] Instance key_walk_trans : Transitive key_walk_le.
Proof.
  intros a b c. unfold key_walk_le. generalize (split a "/"%char) (split b "/"%char) (split c "/"%char).
  induction l as [|x l IH]; intros [|y l'] [|z l'']; simpl; try done.
  destruct (decide (x = y)) as [->|Hn].
  - destruct (decide (y = z)); [apply IH|done].
  - destruct (decide (y = z)) as [->|Hn']; [by rewrite decide_False|]. rewrite !str_ltb_lt. intros H1 H2.
    rewrite decide_False; [rewrite str_ltb_lt; by eapply str_lt_trans|].
    intros ->. by apply (str_lt_asym _ _ H1).
Qed.

Lemma str_lt_app p a b : str_lt (p +:+ a) (p +:+ b) <-> str_lt a b.
Proof.
  induction p as [|c p IH]; [done|]. unfold str_lt in *. simpl.
  assert (Ascii.compare c c = Eq) as -> by by apply ascii_compare_eq. done.
Qed.

Lemma split_flat p r : contains_char r "/"%char = false ->
  exists l x, split (p +:+ r) "/"%char = l ++ [x +:+ r] /\ split p "/"%char = l ++ [x].
Proof.
  intros Hr. induction p as [|c p (l & x & H1 & H2)]; simpl.
  - exists [], "". by rewrite split_single.
  - destruct (decide (c = "/"%char)) as [->|Hc].
    + rewrite H1, H2. by exists ("" :: l), x.
    + rewrite H1, H2. destruct l as [|y l]; simpl; [by exists [], (String c x)|by exists (String c y :: l), x].
Qed.

Lemma key_walk_flat p a b :
  contains_char a "/"%char = false -> contains_char b "/"%char = false ->
  key_walk_le (p +:+ a) (p +:+ b) -> p +:+ a <> p +:+ b -> str_lt (p +:+ a) (p +:+ b).
Proof.
  intros Ha Hb. unfold key_walk_le.
  destruct (split_flat p a Ha) as (l & x & -> & H1). destruct (split_flat p b Hb) as (l' & x' & -> & H2).
  rewrite H1 in H2. apply app_inj_tail in H2 as [<- <-]. rewrite walk_le_app. simpl. rewrite str_lt_app. intros Hw Hne.
  rewrite decide_False in Hw by (intros He; apply Hne; f_equal; revert He; clear; induction x as [|? x IH]; simpl; [done|]; intros [= ?]; by apply IH).
  by apply str_ltb_lt, str_lt_app in Hw.
Qed.

(** The directory store lists what it holds. *)
Section fs_lister.
Context (sha256 : string -> string).
Definition fs_infos (p : string) (fs : FS) : result api_error (list (string * Obj)) :=
  Ok (omap (fun k => (fun o => (k, o)) <$> found (fs_get k fs)) (fs_list p fs)).

Lemma fs_list_found p fs k o :
  found (fs_get k fs) = Some o -> has_prefix k p = true -> k ∈ fs_list p fs.
Proof.
  intros Hg Hp. unfold fs_list. rewrite merge_sort_Permutation. apply list_elem_of_filter. split; [done|].
  revert Hg. unfold fs_get. destruct (keyPath "data" k) as [path|] eqn:Ek; [|done].
  apply keyPath_Some in Ek as ->. destruct (files fs !! _) as [[body mt|]|] eqn:Ef; [intros _|done|by case_match].
  apply list_elem_of_omap. exists ("data/" +:+ k, Data body mt). split; [by apply elem_of_map_to_list|]. simpl.
  assert (has_prefix k "" = true) as -> by by destruct k. f_equal. rewrite Nat.sub_0_r. by apply substring_all.
Qed.

Lemma fs_list_NoDup p fs : NoDup (fs_list p fs).
Proof.
  unfold fs_list. rewrite merge_sort_Permutation. apply NoDup_filter.
  pose proof (NoDup_fst_map_to_list (files fs)) as Hn. revert Hn. generalize (map_to_list (files fs)).
  intros l. induction l as [|[k v] l IH]; intros Hn; [constructor|].
  apply NoDup_cons in Hn as [Hk Hn]. unfold omap in *. cbn [list_omap].
  destruct v as [body mt|]; simpl; [|by apply IH]. destruct (has_prefix k "data/") eqn:Ep; [|by apply IH].
  constructor; [|by apply IH]. intros ([k' [b' m'|]] & Hin & Heq)%list_elem_of_omap; simpl in Heq; [|done].
  destruct (has_prefix k' "data/") eqn:Ep'; [|done]. injection Heq as Heq. apply Hk, list_elem_of_fmap.
  exists (k', Data b' m'). split; [|done]. simpl.
  apply has_prefix_spec in Ep as [r ->]. apply has_prefix_spec in Ep' as [r' ->]. f_equal. simpl in Heq.
  rewrite !Nat.sub_0_r, !substring_all in Heq by lia. done.
Qed.
Lemma fs_infos_keys p fs : (omap (fun k => (fun o => (k, o)) <$> found (fs_get k fs)) (fs_list p fs)).*1
  = filter (fun k => is_Some (found (fs_get k fs))) (fs_list p fs).
Proof.
  induction (fs_list p fs) as [|k l IH]; [done|]. unfold omap in *. cbn [list_omap].
  destruct (found (fs_get k fs)) as [o|] eqn:E; simpl.
  - rewrite filter_cons_True by eauto. f_equal. exact IH.
  - rewrite filter_cons_False by (rewrite E; by intros [? ?]). exact IH.
Qed.

Lemma StronglySorted_filter {A} (R : relation A) (P : A -> Prop) `{!forall x, base.Decision (P x)} (l : list A) :
  StronglySorted R l -> StronglySorted R (filter P l).
Proof.
  induction 1 as [|x l Hs IH Hx]; [constructor|]. rewrite filter_cons. case_decide; [|done]. constructor; [done|].
  rewrite List.Forall_forall in Hx |- *. intros y Hy%list_elem_of_In. apply Hx, list_elem_of_In.
  by apply list_elem_of_filter in Hy as [_ ?].
Qed.

#[global] Program Instance fs_lister : BlobLister (fs_store sha256) := { List := fs_infos }.
Next Obligation.
  intros p st infos k o [= <-]. rewrite list_elem_of_omap. split.
  - intros (k' & Hk & Hf). destruct (found (fs_get k' st)) as [o'|] eqn:E; [|done]. simpl in Hf. injection Hf as -> ->.
    split; [|done]. unfold fs_list in Hk. rewrite merge_sort_Permutation in Hk. by apply list_elem_of_filter in Hk as [? _].
  - intros [Hp Hg]. exists k. simpl in Hg. split; [by eapply fs_list_found|]. by rewrite Hg.
Qed.
Next Obligation. done. Qed.
Next Obligation.
  intros p st infos [= <-] Hflat. rewrite fs_infos_keys.
  assert (Forall (fun k => exists r, k = p +:+ r /\ contains_char r "/"%char = false)
            (filter (fun k => is_Some (found (fs_get k st))) (fs_list p st))) as Hf.
  { apply Forall_forall. intros k [[o Ho] Hk]%list_elem_of_filter. apply (Hflat k o), list_elem_of_omap.
    exists k. by rewrite Ho. }
  pose proof (NoDup_filter (fun k => is_Some (found (fs_get k st))) _ (fs_list_NoDup p st)) as Hn.
  assert (StronglySorted key_walk_le (filter (fun k => is_Some (found (fs_get k st))) (fs_list p st))) as Hs.
  { apply StronglySorted_filter. unfold fs_list. apply StronglySorted_merge_sort; apply _. }
  revert Hf Hn Hs. generalize (filter (fun k => is_Some (found (fs_get k st))) (fs_list p st)). clear.
  intros l. induction l as [|k l IH]; intros Hf Hn Hs; [constructor|].
  apply Forall_cons in Hf as [(r & -> & Hr) Hf]. apply NoDup_cons in Hn as [Hk Hn].
  apply StronglySorted_inv in Hs as [Hs Hle]. constructor; [by apply IH|].
  rewrite List.Forall_forall in Hle |- *. intros k' Hk'%list_elem_of_In.
  destruct (proj1 (Forall_forall _ _) Hf k' Hk') as (r' & -> & Hr').
  apply key_walk_flat; [done..|apply Hle; by apply list_elem_of_In|congruence].
Qed.
Next Obligation.
  intros k st st'. simpl. unfold fs_delete, fs_get. destruct (keyPath "data" k) as [path|]; [|done].
  destruct (files st !! path) as [f|] eqn:Ef.
  - intros H. exfalso. revert H. case_match; by intros [=].
  - destruct (existsb _ _) eqn:Ex; intros [= <-]. by rewrite Ef, Ex.
Qed.
End fs_lister.

