(* ===== verification/Pipeline.v ===== *)
(** * The read path: [core/pipeline/pipeline.go]

    Serving an intent from the cache, from a geo peer or from the upstream.
    The blob store is any implementation of [BlobStore]; the manifest codec,
    the hash functions, the format module, the upstream and the peers are
    parameters gathered in [World] (what the outside answers to this request)
    and in the section's context. State is threaded explicitly: every function
    that writes returns the store after it, also when it fails.

    Requests are modelled one at a time: singleflight and the cross-replica
    lock reduce concurrent ingests of one key to a sequence, and what other
    replicas wrote while this one waited for the lock is the [w_others]
    transition. *)

From S2P Require Import Prelude Store.
Open Scope Z_scope.

(** ** Canonical types: [core/api/types.go] *)

Record PackageCoordinate := mkCoord { c_format : string; c_name : string; c_version : string }.

(** [PackageCoordinate.String]. *)
Definition coord_string (c : PackageCoordinate) : string :=
  if decide (c_version c = "") then c_format c +:+ ":" +:+ c_name c
  else c_format c +:+ ":" +:+ c_name c +:+ "@" +:+ c_version c.

Record Checksum := mkChecksum { Algo : string; Hex : string }.
Definition no_checksum : Checksum := mkChecksum "" "".

(** [Checksum.IsZero]. *)
Definition IsZero (c : Checksum) : bool := bool_decide (Algo c = "") && bool_decide (Hex c = "").

Record ChecksumSource := mkSource { cs_algo : string; cs_path : string }.
Definition source_is_zero (c : ChecksumSource) : bool :=
  bool_decide (cs_algo c = "") && bool_decide (cs_path c = "").

Inductive IntentKind := IntentArtifact | IntentMetadata | IntentSynthetic | IntentSearch.

Record Intent := mkIntent {
  i_kind : IntentKind;
  i_coord : PackageCoordinate;
  i_ttl : Z;
  i_path : string;                       (** RemotePath *)
  i_checksum : Checksum;
  i_remote_checksum : ChecksumSource;
  i_want : string;                       (** WantChecksum *)
  i_indirect : bool;
  i_url : string;                        (** RemoteURL *)
  i_content_type : string;
  i_query : string;                      (** RemoteQuery *)
  i_accept : string;                     (** Accept *)
}.

Record Feed := mkFeed { f_name : string; f_hosted : bool }.

Inductive Source := SourceCache | SourceUpstream | SourceStale | SourceLocal | SourcePeer.

(** [manifest]. *)
Record manifest := mkManifest {
  m_sha256 : string;
  m_size : Z;
  m_checksums : gmap string string;
  m_coordinate : string;
  m_ingested : Z;
  m_origin : string;
  m_site : string;
  m_publisher : string;
  m_metadata : gmap string string;
}.

(** [Result]; the body is the object's content. *)
Record Result := mkResult {
  r_body : string;
  r_size : Z;
  r_sha256 : string;
  r_modtime : Z;
  r_source : Source;
  r_blob_key : string;
  r_content_type : string;
}.

Record Request := mkRequest {
  q_feed : Feed;
  q_intent : Intent;
  q_upstream : bool;                     (** Upstream != nil *)
  q_peer_fallback : bool;
}.

Definition with_intent (q : Request) (i : Intent) : Request :=
  mkRequest (q_feed q) i (q_upstream q) (q_peer_fallback q).

(** ** Keys *)

Definition manifestKey (f : Feed) (i : Intent) : string :=
  "manifests/" +:+ f_name f +:+ "/" +:+ i_path i.

Definition blobKey (sha : string) : string := "blobs/sha256/" +:+ sha.

Section keys.
Context (sha256 : string -> string).
(** [metaKey]: a query is part of the key, by the first eight bytes of its
    digest. *)
Definition metaKey (f : Feed) (i : Intent) : string :=
  let key := "meta/" +:+ f_name f +:+ "/" +:+ i_path i in
  if decide (i_query i = "") then key
  else key +:+ "@" +:+ String.substring 0 16 (sha256 (i_query i)).
End keys.

(** ** Checksum documents *)

Definition checksumHexLen (algo : string) : option nat :=
  if decide (algo = "md5") then Some 32%nat
  else if decide (algo = "sha1") then Some 40%nat
  else if decide (algo = "sha256") then Some 64%nat
  else if decide (algo = "sha512") then Some 128%nat
  else None.

(** ASCII white space, as [strings.Fields] splits on it. *)
Definition is_space (c : Ascii.ascii) : bool :=
  let n := Ascii.N_of_ascii c in
  (n =? 32)%N || ((9 <=? n)%N && (n <=? 13)%N).

(** The first of [strings.Fields], if any. *)
Fixpoint take_word (s : string) : string :=
  match s with
  | EmptyString => ""
  | String c s' => if is_space c then "" else String c (take_word s')
  end.
Fixpoint first_field (s : string) : option string :=
  match s with
  | EmptyString => None
  | String c s' => if is_space c then first_field s' else Some (take_word s)
  end.

Fixpoint hex_digits (s : string) : bool :=
  match s with
  | EmptyString => true
  | String c s' =>
      let n := Ascii.N_of_ascii c in
      (((48 <=? n) && (n <=? 57)) || ((97 <=? n) && (n <=? 102)))%N && hex_digits s'
  end.

(** [parseChecksumBody]. *)
Definition parseChecksumBody (algo body : string) : option string :=
  match first_field body with
  | None => None
  | Some w =>
      let digest := ToLower w in
      match checksumHexLen algo with
      | None => None
      | Some want =>
          if negb (String.length digest =? want)%nat then None
          else if negb (hex_digits digest) then None
          else Some digest
      end
  end.

(** [verifyChecksum]; [digests] are the computed ones. *)
Definition verifyChecksum (want : Checksum) (digests : gmap string string)
    : result api_error unit :=
  if IsZero want then Ok tt
  else match digests !! ToLower (Algo want) with
       | None => Err ErrChecksumMismatch
       | Some got => if EqualFold got (Hex want) then Ok tt else Err ErrChecksumMismatch
       end.

(** [failureReason]. *)
Definition failureReason (e : api_error) : string :=
  match e with
  | ErrNotFound => "not_found"
  | ErrChecksumMismatch => "checksum_mismatch"
  | ErrUpstreamUnavailable => "upstream_unavailable"
  | _ => "other"
  end.

(** The [strings.Cut] of a metadata digest on its first colon. *)
Fixpoint cut_colon (s : string) : option (string * string) :=
  match s with
  | EmptyString => None
  | String c s' =>
      if decide (c = ":"%char) then Some ("", s')
      else match cut_colon s' with Some (a, b) => Some (String c a, b) | None => None end
  end.

(** Text encoding of manifests: [encoding/json] as used here. *)
Class ManifestCodec := {
  encode_manifest : manifest -> string;
  decode_manifest : string -> option manifest;
  decode_encode_manifest : forall m, decode_manifest (encode_manifest m) = Some m;
}.

(** [strings.TrimSpace] on ASCII text. *)
Fixpoint trim_left (s : string) : string :=
  match s with
  | EmptyString => ""
  | String c s' => if is_space c then trim_left s' else s
  end.
Fixpoint trim_right (s : string) : string :=
  match s with
  | EmptyString => ""
  | String c s' => match trim_right s' with
                   | EmptyString => if is_space c then "" else String c ""
                   | t => String c t
                   end
  end.
Definition TrimSpace (s : string) : string := trim_right (trim_left s).

Definition MetaContentType : string := "content_type".
Definition MetaChecksum : string := "checksum".

(** [ingestMetadata]: the declared media type, when it says something. *)
Definition ingestMetadata (i : Intent) (contentType : string) : gmap string string :=
  let declared := TrimSpace contentType in
  if decide (i_content_type i <> "" \/ declared = "" \/ declared = "application/octet-stream")
  then ∅ else {[MetaContentType := declared]}.

(** The hash functions the program knows. *)
Definition known_algos : list string := ["sha1"; "md5"; "sha256"; "sha512"].
Definition metadataSizeCap : Z := 128 * 2 ^ 20.
Definition manifestSizeCap : Z := 2 ^ 20.

Section serve.
Context (digest : string -> string -> string) {St : Type}.
Context `{BS : !BlobStore (digest "sha256") St} `{MC : !ManifestCodec}.

(** What the outside answers while one request is served: the clock, the
    upstream, the format module's capabilities, the peers, and the other
    replicas' writes. *)
Record World := mkWorld {
  w_now : Z;
  w_site : string;
  w_fetch : string -> string -> result api_error (string * string);
  w_fetch_url : string -> result api_error (string * string);
  w_resolve_indirect : option (Intent -> string -> result api_error (string * Checksum));
  w_metadata_intent : option (PackageCoordinate -> option Intent);
  w_extract : PackageCoordinate -> string -> result api_error (gmap string string);
  w_rewrite : string -> result api_error string;
  w_peer_manifest : option (string -> result api_error (string * Z));
  w_peer_ensure : string -> Z -> St -> St * option api_error;
  w_others : St -> St;
}.

Context (w : World).

Definition digests_of (body : string) : gmap string string :=
  list_to_map ((fun algo => (algo, digest algo body)) <$> known_algos).

(** [loadManifest]. *)
Definition loadManifest (key : string) (st : St) : result api_error manifest :=
  let? o := Get key st in
  if manifestSizeCap <? o_size o then Err (ErrOther "body exceeds cap")
  else match decode_manifest (o_body o) with
       | None => Err (ErrOther "decode manifest")
       | Some m => if decide (m_sha256 m = "") then Err (ErrOther "manifest has no digest")
                   else Ok m
       end.

(** [openBlob]. *)
Definition openBlob (m : manifest) (source : Source) (st : St) : result api_error Result :=
  let? o := Get (blobKey (m_sha256 m)) st in
  let size := if (0 <=? o_size o) && negb (o_size o =? m_size m) then o_size o else m_size m in
  Ok (mkResult (o_body o) size (m_sha256 m) (o_modtime o) source (blobKey (m_sha256 m))
        (default "" (m_metadata m !! MetaContentType))).

Definition textResult (text : string) (source : Source) (mod_time : Z) : Result :=
  mkResult text (Z.of_nat (String.length text)) "" mod_time source "" "".

(** [manifestDigest]. *)
Definition manifestDigest (m : manifest) (algo : string) (st : St) : result api_error string :=
  if decide (algo = "sha256" /\ m_sha256 m <> "") then Ok (m_sha256 m)
  else if decide (default "" (m_checksums m !! algo) <> "")
  then Ok (default "" (m_checksums m !! algo))
  else if decide (algo ∉ known_algos) then Err ErrNotFound
  else let? o := Get (blobKey (m_sha256 m)) st in Ok (digest algo (o_body o)).

(** [artifactResult]. *)
Definition artifactResult (q : Request) (m : manifest) (source : Source) (st : St)
    : result api_error Result :=
  let algo := i_want (q_intent q) in
  if decide (algo = "") then openBlob m source st
  else let? d := manifestDigest m algo st in Ok (textResult d source (m_ingested m)).

(** [fromPeer]. *)
Definition fromPeer (q : Request) (st : St) : St * result api_error Result :=
  match q_peer_fallback q, w_peer_manifest w with
  | true, Some fetch =>
      match fetch (i_path (q_intent q)) with
      | Err e => (st, Err e)
      | Ok (sha, size) =>
          match w_peer_ensure w sha size st with
          | (st, Some e) => (st, Err e)
          | (st, None) =>
              (st, artifactResult q (mkManifest sha size ∅ "" (w_now w) "peer" "" "" ∅)
                     SourcePeer st)
          end
      end
  | _, _ => (st, Err ErrNotFound)
  end.

(** [fromPeerBlob]. *)
Definition fromPeerBlob (q : Request) (m : manifest) (st : St) : St * result api_error Result :=
  match q_peer_fallback q, w_peer_manifest w with
  | true, Some _ =>
      match w_peer_ensure w (m_sha256 m) (m_size m) st with
      | (st, Some e) => (st, Err e)
      | (st, None) => (st, artifactResult q m SourcePeer st)
      end
  | _, _ => (st, Err ErrNotFound)
  end.

(** [fetchRemoteChecksum]: no document means no checksum; any other failure
    aborts. *)
Definition fetchRemoteChecksum (q : Request) : result api_error Checksum :=
  let src := i_remote_checksum (q_intent q) in
  match w_fetch w (cs_path src) "" with
  | Err ErrNotFound => Ok no_checksum
  | Err e => Err e
  | Ok (body, _) =>
      if metadataSizeCap <? Z.of_nat (String.length body) then Err (ErrOther "body exceeds cap")
      else match parseChecksumBody (cs_algo src) body with
           | None => Err ErrChecksumMismatch
           | Some hex => Ok (mkChecksum (cs_algo src) hex)
           end
  end.

(** [openArtifactStream]: the body, its declared type, and the checksum an
    indirection published. *)
Definition openArtifactStream (q : Request) : result api_error (string * string * Checksum) :=
  let i := q_intent q in
  if decide (i_url i <> "") then
    let? r := w_fetch_url w (i_url i) in Ok (r, no_checksum)
  else
    let? r := w_fetch w (i_path i) "" in
    if negb (i_indirect i) then Ok (r, no_checksum)
    else match w_resolve_indirect w with
         | None => Err (ErrOther "module lacks IndirectResolver")
         | Some resolve =>
             if manifestSizeCap <? Z.of_nat (String.length r.1)
             then Err (ErrOther "read indirection response")
             else
               let? t := resolve i r.1 in
               let? stream := w_fetch_url w t.1 in
               Ok (stream, t.2)
         end.

(** [metadataChecksum]: ask the module for the digest its metadata document
    publishes; [rec] serves the document. *)
Definition metadataChecksum (rec : Request -> St -> St * result api_error Result)
    (q : Request) (st : St) : St * Checksum :=
  match w_metadata_intent w, q_upstream q with
  | Some metaIntent, true =>
      match metaIntent (i_coord (q_intent q)) with
      | None => (st, no_checksum)
      | Some mi =>
          if decide (i_path mi = i_path (q_intent q)) then (st, no_checksum)
          else
            match rec (with_intent q mi) st with
            | (st, Err _) => (st, no_checksum)
            | (st, Ok res) =>
                if metadataSizeCap <? Z.of_nat (String.length (r_body res)) then (st, no_checksum)
                else match w_extract w (i_coord (q_intent q)) (r_body res) with
                     | Err _ => (st, no_checksum)
                     | Ok meta =>
                         match cut_colon (default "" (meta !! MetaChecksum)) with
                         | None => (st, no_checksum)
                         | Some (algo, hex) => (st, mkChecksum (ToLower algo) (ToLower hex))
                         end
                     end
            end
      end
  | _, _ => (st, no_checksum)
  end.

(** The digest an ingest must match, before the stream is opened. *)
Definition expectedChecksum (rec : Request -> St -> St * result api_error Result)
    (q : Request) (st : St) : St * result api_error Checksum :=
  let i := q_intent q in
  let known := if IsZero (i_checksum i) && negb (source_is_zero (i_remote_checksum i))
               then fetchRemoteChecksum q else Ok (i_checksum i) in
  match known with
  | Err e => (st, Err e)
  | Ok c => if IsZero c then let '(st, c) := metadataChecksum rec q st in (st, Ok c)
            else (st, Ok c)
  end.

(** The writing half of [fetchAndStore]: the blob unless it is there, then
    the manifest. *)
Definition storeArtifact (q : Request) (mkey body contentType : string) (st : St)
    : St * result api_error manifest :=
  let ds := digests_of body in
  let sha := digest "sha256" body in
  let size := Z.of_nat (String.length body) in
  let '(st, stored) :=
    match Stat (blobKey sha) st with
    | Ok _ => (st, None)
    | Err ErrNotFound => Put (w_now w) (blobKey sha) body (mkPutOpts sha size "") st
    | Err e => (st, Some e)
    end in
  match stored with
  | Some e => (st, Err e)
  | None =>
      let m := mkManifest sha size ds (coord_string (i_coord (q_intent q))) (w_now w) "proxy"
                 (w_site w) "" (ingestMetadata (q_intent q) contentType) in
      match Put (w_now w) mkey (encode_manifest m) no_opts st with
      | (st, Some e) => (st, Err e)
      | (st, None) => (st, Ok m)
      end
  end.

(** [fetchAndStore]. *)
Definition fetchAndStore (rec : Request -> St -> St * result api_error Result)
    (q : Request) (mkey : string) (st : St) : St * result api_error manifest :=
  match expectedChecksum rec q st with
  | (st, Err e) => (st, Err e)
  | (st, Ok expected) =>
      match openArtifactStream q with
      | Err e => (st, Err e)
      | Ok (body, contentType, indirect) =>
          let expected := if IsZero expected then indirect else expected in
          match verifyChecksum expected (digests_of body) with
          | Err e => (st, Err e)
          | Ok _ => storeArtifact q mkey body contentType st
          end
      end
  end.

(** [ingestArtifact]: under the lock, look again before fetching. *)
Definition ingestArtifact (rec : Request -> St -> St * result api_error Result)
    (q : Request) (mkey : string) (st : St) : St * result api_error manifest :=
  let st := w_others w st in
  match loadManifest mkey st with
  | Ok m => (st, Ok m)
  | Err _ => fetchAndStore rec q mkey st
  end.

(** [serveArtifact]. *)
Definition serveArtifact (rec : Request -> St -> St * result api_error Result)
    (q : Request) (st : St) : St * result api_error Result :=
  let mkey := manifestKey (q_feed q) (q_intent q) in
  match loadManifest mkey st with
  | Ok m =>
      match artifactResult q m SourceCache st with
      | Ok res => (st, Ok res)
      | Err e => match fromPeerBlob q m st with
                 | (st, Ok res) => (st, Ok res)
                 | (st, Err _) => (st, Err e)
                 end
      end
  | Err ErrNotFound =>
      match fromPeer q st with
      | (st, Ok res) => (st, Ok res)
      | (st, Err _) =>
          if negb (q_upstream q) then (st, Err ErrNotFound)
          else match ingestArtifact rec q mkey st with
               | (st, Err e) => (st, Err e)
               | (st, Ok m) => (st, artifactResult q m SourceUpstream st)
               end
      end
  | Err e => (st, Err e)
  end.

(** [openMeta]. *)
Definition openMeta (key : string) (source : Source) (st : St) : result api_error Result :=
  let? o := Get key st in
  Ok (mkResult (o_body o) (o_size o) (o_sha256 o) (o_modtime o) source "" (o_content_type o)).

(** [refreshMetadata]. *)
Definition refreshMetadata (q : Request) (key : string) (st : St) : St * option api_error :=
  match w_fetch w (i_path (q_intent q)) (i_query (q_intent q)) with
  | Err e => (st, Some e)
  | Ok (body, contentType) =>
      if metadataSizeCap <? Z.of_nat (String.length body)
      then (st, Some (ErrOther "body exceeds cap"))
      else match w_rewrite w body with
           | Err e => (st, Some e)
           | Ok rewritten => Put (w_now w) key rewritten (mkPutOpts "" 0 contentType) st
           end
  end.

(** [serveMetadataBody]. *)
Definition serveMetadataBody (q : Request) (st : St) : St * result api_error Result :=
  let i := q_intent q in
  let key := metaKey (digest "sha256") (q_feed q) i in
  let cached := found (Stat key st) in
  let fresh := match cached with
               | Some o => (0 <? i_ttl i) && (w_now w - o_modtime o <? i_ttl i)
               | None => false
               end in
  if fresh then (st, openMeta key SourceCache st)
  else if negb (q_upstream q) then
    (st, match loadManifest (manifestKey (q_feed q) i) st with
         | Ok m => openBlob m SourceLocal st
         | Err _ => match cached with
                    | Some _ => openMeta key SourceLocal st
                    | None => Err ErrNotFound
                    end
         end)
  else
    match refreshMetadata q key st with
    | (st, None) => (st, openMeta key SourceUpstream st)
    | (st, Some ErrNotFound) => (st, Err ErrNotFound)
    | (st, Some e) => (st, match cached with
                           | Some _ => openMeta key SourceStale st
                           | None => Err e
                           end)
    end.

(** [serveMetadata]: the document, or the digest of what we serve. *)
Definition serveMetadata (q : Request) (st : St) : St * result api_error Result :=
  match serveMetadataBody q st with
  | (st, Err e) => (st, Err e)
  | (st, Ok res) =>
      let want := i_want (q_intent q) in
      if decide (want = "") then (st, Ok res)
      else if decide (want ∉ known_algos) then (st, Err ErrNotFound)
      else (st, Ok (textResult (digest want (r_body res)) (r_source res) (r_modtime res)))
  end.

(** [Serve]; [fuel] bounds the nesting of metadata lookups. *)
Fixpoint Serve (fuel : nat) (q : Request) (st : St) : St * result api_error Result :=
  match fuel with
  | O => (st, Err (ErrOther "nesting"))
  | S fuel' =>
      if negb (validRemotePath (i_path (q_intent q))) then (st, Err ErrNotFound)
      else match i_kind (q_intent q) with
           | IntentArtifact => serveArtifact (Serve fuel') q st
           | IntentMetadata | IntentSearch => serveMetadata q st
           | IntentSynthetic => (st, Err (ErrOther "unknown intent kind"))
           end
  end.
End serve.

(** ** Theorems *)

Arguments World _ : clear implicits.

(** The three key spaces never meet. *)
Lemma blob_manifest_key sha f i : blobKey sha <> manifestKey f i.
Proof. done. Qed.
Lemma blob_meta_key h sha f i : blobKey sha <> metaKey h f i.
Proof. unfold metaKey. by case_decide. Qed.
Lemma blobKey_inj a b : blobKey a = blobKey b -> a = b.
Proof. by apply str_app_inj_l. Qed.
#[export] Hint Resolve blob_manifest_key blob_meta_key : fondaco.

Section theorems.
Context (digest : string -> string -> string) {St : Type}.
Context `{BS : !BlobStore (digest "sha256") St} `{MC : !ManifestCodec}.
Implicit Types (w : World St) (st : St) (q : Request).

(** Every stored blob has the digest its key names. *)
Definition blobs_ok (st : St) : Prop :=
  forall sha o, found (Get (blobKey sha) st) = Some o -> digest "sha256" (o_body o) = sha.

(** Peers and other replicas write blobs under their own digest too. *)
Definition world_ok (w : World St) : Prop :=
  (forall sha size st, blobs_ok st -> blobs_ok (w_peer_ensure w sha size st).1) /\
  (forall st, blobs_ok st -> blobs_ok (w_others w st)).

Lemma blobs_ok_put now k body o st :
  (forall sha, k = blobKey sha -> digest "sha256" body = sha) ->
  blobs_ok st -> blobs_ok (Put now k body o st).1.
Proof.
  intros Hk Hst sha ob Hg. destruct (decide (k = blobKey sha)) as [->|Hne].
  - destruct (Put now (blobKey sha) body o st) as [st' [e|]] eqn:E; simpl in Hg.
    + apply put_atomic in E. rewrite Hg in E. simpl in E.
      destruct (found (Get (blobKey sha) st)) as [ob'|] eqn:E'; simplify_eq/=.
      rewrite E. by apply (Hst sha).
    + apply put_stores in E as [_ E]. rewrite Hg in E. simplify_eq/=. by apply Hk.
  - rewrite put_local in Hg by done. by apply (Hst sha).
Qed.

Lemma blobs_ok_store w q mkey body ct st :
  (forall sha, mkey <> blobKey sha) -> blobs_ok st ->
  blobs_ok (storeArtifact digest w q mkey body ct st).1.
Proof.
  intros Hm Hst. unfold storeArtifact.
  assert (Hput : forall o st0, blobs_ok st0 ->
    blobs_ok (Put (w_now w) (blobKey (digest "sha256" body)) body o st0).1).
  { intros o st0. apply blobs_ok_put. intros sha. by intros ?%blobKey_inj. }
  destruct (Stat _ st) as [ob|[]]; simpl; try done.
  - match goal with |- context [Put ?n mkey ?b ?o st] =>
      pose proof (blobs_ok_put n mkey b o st) as Hp; destruct (Put n mkey b o st) as [? []] end;
      simpl in *; apply Hp; try done; intros sha ?; by destruct (Hm sha).
  - match goal with |- context [Put ?n (blobKey ?s) ?b ?o st] =>
      pose proof (Hput o st Hst) as H1; destruct (Put n (blobKey s) b o st) as [st1 []] end;
      simpl in *; [done|].
    match goal with |- context [Put ?n mkey ?b ?o st1] =>
      pose proof (blobs_ok_put n mkey b o st1) as Hp; destruct (Put n mkey b o st1) as [? []] end;
      simpl in *; apply Hp; try done; intros sha ?; by destruct (Hm sha).
Qed.

Lemma blobs_ok_refresh w q key st :
  (forall sha, key <> blobKey sha) -> blobs_ok st ->
  blobs_ok (refreshMetadata digest w q key st).1.
Proof.
  intros Hk Hst. unfold refreshMetadata. repeat case_match; simpl; try done.
  apply blobs_ok_put; [|done]. intros sha ->. by destruct (Hk sha).
Qed.

(** What a good artifact answer is. *)
Definition artifact_ok (q : Request) (r : Result) : Prop :=
  i_want (q_intent q) = "" ->
  digest "sha256" (r_body r) = r_sha256 r /\ r_size r = Z.of_nat (String.length (r_body r)) /\
  r_blob_key r = blobKey (r_sha256 r).

Lemma openBlob_ok m source st r :
  blobs_ok st -> openBlob digest m source st = Ok r ->
  digest "sha256" (r_body r) = r_sha256 r /\ r_size r = Z.of_nat (String.length (r_body r)) /\
  r_blob_key r = blobKey (r_sha256 r).
Proof.
  intros Hst. unfold openBlob. rewrite rbind_Ok. intros (o & Ho & [= <-]). simpl. split_and!.
  - apply (Hst (m_sha256 m)). by rewrite Ho.
  - fold (o_size o). assert (0 <= o_size o) by (unfold o_size; lia).
    destruct (Z.leb_spec 0 (o_size o)); [|lia]. simpl.
    destruct (Z.eqb_spec (o_size o) (m_size m)); simpl; congruence.
  - done.
Qed.

Lemma artifactResult_ok q m source st r :
  blobs_ok st -> artifactResult digest q m source st = Ok r -> artifact_ok q r.
Proof.
  intros Hst. unfold artifactResult, artifact_ok. case_decide; [|done].
  intros Ho _. by eapply openBlob_ok.
Qed.

(** A server of nested documents that keeps the invariant. *)
Definition rec_ok (rec : Request -> St -> St * result api_error Result) : Prop :=
  forall q st, blobs_ok st -> blobs_ok (rec q st).1.

Lemma expected_ok w rec q st :
  rec_ok rec -> blobs_ok st -> blobs_ok (expectedChecksum w rec q st).1.
Proof.
  intros Hr Hst.
  assert (Hm : blobs_ok (metadataChecksum w rec q st).1).
  { unfold metadataChecksum.
    destruct (w_metadata_intent w); [|done]. destruct (q_upstream q); [|done].
    case_match; [|done]. case_decide; [done|].
    match goal with |- context [rec ?a st] =>
      pose proof (Hr a st Hst) as H1; destruct (rec a st) as [st1 [r1|]] end;
      simpl in *; repeat case_match; simpl; done. }
  unfold expectedChecksum. case_match; [|done].
  match goal with |- context [IsZero ?c] => destruct (IsZero c) end; [|exact Hst].
  by destruct (metadataChecksum w rec q st).
Qed.

Lemma fetchAndStore_ok w rec q st :
  rec_ok rec -> blobs_ok st ->
  blobs_ok (fetchAndStore digest w rec q (manifestKey (q_feed q) (q_intent q)) st).1.
Proof.
  intros Hr Hst. unfold fetchAndStore. pose proof (expected_ok w rec q st Hr Hst) as He.
  destruct (expectedChecksum w rec q st) as [st1 [c|]]; simpl in *; [|done].
  destruct (openArtifactStream w q) as [[[body ct] ind]|]; [|done].
  case_match; [|done]. by apply blobs_ok_store.
Qed.

Lemma serveArtifact_ok w rec q st st' r :
  world_ok w -> rec_ok rec -> blobs_ok st -> serveArtifact digest w rec q st = (st', r) ->
  blobs_ok st' /\ (forall res, r = Ok res -> artifact_ok q res).
Proof.
  intros [Hp Ho] Hr Hst. unfold serveArtifact.
  destruct (loadManifest _ _ st) as [m|e].
  - destruct (artifactResult digest q m SourceCache st) as [res|e] eqn:E.
    + intros [= <- <-]. split; [done|]. intros ? [= <-]. by eapply artifactResult_ok.
    + unfold fromPeerBlob. destruct (q_peer_fallback q); [|by intros [= <- <-]].
      destruct (w_peer_manifest w); [|by intros [= <- <-]].
      pose proof (Hp (m_sha256 m) (m_size m) st Hst) as H1.
      destruct (w_peer_ensure w (m_sha256 m) (m_size m) st) as [st1 []]; simpl in *;
        [by intros [= <- <-]|].
      destruct (artifactResult digest q m SourcePeer st1) eqn:E1; intros [= <- <-];
        (split; [done|]); [|done]. intros ? [= <-]. by eapply artifactResult_ok.
  - destruct e; try (by intros [= <- <-]).
    assert (Hf : forall st1 r1, fromPeer digest w q st = (st1, r1) ->
      blobs_ok st1 /\ forall res, r1 = Ok res -> artifact_ok q res).
    { unfold fromPeer. destruct (q_peer_fallback q); [|by intros ?? [= <- <-]].
      destruct (w_peer_manifest w) as [fetch|]; [|by intros ?? [= <- <-]].
      destruct (fetch _) as [[sha size]|]; [|by intros ?? [= <- <-]].
      pose proof (Hp sha size st Hst) as H1.
      destruct (w_peer_ensure w sha size st) as [st2 []]; simpl in *; intros ?? [= <- <-];
        (split; [done|]); [done|]. intros res ?. by eapply artifactResult_ok. }
    destruct (fromPeer digest w q st) as [st1 r1] eqn:E1. destruct (Hf _ _ eq_refl) as [H1 H2].
    destruct r1 as [res|]; [intros [= <- <-]; by auto|].
    case_match; [by intros [= <- <-]|]. unfold ingestArtifact.
    pose proof (Ho st1 H1) as H3.
    destruct (loadManifest _ _ (w_others w st1)) as [m|].
    + intros [= <- <-]. split; [done|]. intros res ?. by eapply artifactResult_ok.
    + pose proof (fetchAndStore_ok w rec q _ Hr H3) as H4.
      destruct (fetchAndStore digest w rec q _ (w_others w st1)) as [st2 [m|]]; simpl in *;
        intros [= <- <-]; (split; [done|]); [|done]. intros res ?. by eapply artifactResult_ok.
Qed.

Lemma serveMetadata_ok w q st : blobs_ok st -> blobs_ok (serveMetadata digest w q st).1.
Proof.
  intros Hst. unfold serveMetadata.
  assert (H : blobs_ok (serveMetadataBody digest w q st).1).
  { unfold serveMetadataBody. cbv zeta. set (key := metaKey _ _ _).
    do 2 match goal with |- blobs_ok (if ?b then _ else _).1 => destruct b; [exact Hst|] end.
    pose proof (blobs_ok_refresh w q key st) as Hr.
    destruct (refreshMetadata digest w q key st) as [st1 [[]|]]; simpl in *; apply Hr; try done;
      intros sha Heq; by apply (blob_meta_key (digest "sha256") sha (q_feed q) (q_intent q)). }
  destruct (serveMetadataBody digest w q st) as [st1 [r|]]; simpl in *;
    repeat case_decide; exact H.
Qed.

Lemma Serve_ok w fuel q st st' r :
  world_ok w -> blobs_ok st -> Serve digest w fuel q st = (st', r) ->
  blobs_ok st' /\ (i_kind (q_intent q) = IntentArtifact -> forall res, r = Ok res -> artifact_ok q res).
Proof.
  intros Hw. revert q st st' r. induction fuel as [|fuel IH]; intros q st st' r Hst; simpl.
  { by intros [= <- <-]. }
  case_match; [by intros [= <- <-]|].
  destruct (i_kind (q_intent q)) eqn:Ek; try (by intros [= <- <-]).
  - intros E.
    assert (Hrec : rec_ok (Serve digest w fuel)).
    { intros q0 st0 H0. destruct (Serve digest w fuel q0 st0) as [s0 r0] eqn:E0.
      by eapply IH in E0 as [? _]. }
    eapply serveArtifact_ok in E as [? ?]; done.
  - intros E. split; [|done]. pose proof (serveMetadata_ok w q st Hst) as H1. by rewrite E in H1.
  - intros E. split; [|done]. pose proof (serveMetadata_ok w q st Hst) as H1. by rewrite E in H1.
Qed.

Lemma loadManifest_stored now mkey m st st' :
  m_sha256 m <> "" -> Z.of_nat (String.length (encode_manifest m)) <= manifestSizeCap ->
  Put now mkey (encode_manifest m) no_opts st = (st', None) -> loadManifest digest mkey st' = Ok m.
Proof.
  intros Hm Hs [_ Hg]%put_stores. unfold loadManifest.
  destruct (Get mkey st') as [o|]; simpl in *; simplify_eq. simpl.
  unfold o_size. simpl. destruct (Z.ltb_spec manifestSizeCap (Z.of_nat (String.length (encode_manifest m)))); [lia|].
  rewrite decode_encode_manifest. by rewrite decide_False.
Qed.

(** The artifact [storeArtifact] leaves behind. *)
Lemma storeArtifact_stores w q mkey body ct st st' m :
  (forall sha, mkey <> blobKey sha) -> blobs_ok st ->
  storeArtifact digest w q mkey body ct st = (st', Ok m) ->
  m_sha256 m = digest "sha256" body /\ m_size m = Z.of_nat (String.length body) /\
  m_checksums m = digests_of digest body /\
  is_Some (found (Get (blobKey (m_sha256 m)) st')) /\
  (m_sha256 m <> "" -> Z.of_nat (String.length (encode_manifest m)) <= manifestSizeCap ->
   loadManifest digest mkey st' = Ok m).
Proof.
  intros Hk Hst. unfold storeArtifact.
  assert (Hput : forall st1 o, found (Get (blobKey (digest "sha256" body)) st1) = Some o ->
    forall m', (let '(st2, e) := Put (w_now w) mkey (encode_manifest m') no_opts st1 in
           match e with Some e => (st2, Err e) | None => (st2, Ok m') end) = (st', Ok m) ->
    m' = m /\ is_Some (found (Get (blobKey (digest "sha256" body)) st')) /\
    (m_sha256 m <> "" -> Z.of_nat (String.length (encode_manifest m)) <= manifestSizeCap ->
     loadManifest digest mkey st' = Ok m)).
  { intros st1 o Ho m'. destruct (Put _ mkey _ _ st1) as [st2 []] eqn:E; intros [= <- <-].
    split_and!; [done| |].
    - pose proof (put_local (w_now w) mkey (blobKey (digest "sha256" body)) (encode_manifest m')
        no_opts st1) as Hl. rewrite E in Hl. simpl in Hl. rewrite Hl by done. by rewrite Ho.
    - intros. by eapply loadManifest_stored. }
  destruct (Stat (blobKey (digest "sha256" body)) st) as [ob|e] eqn:Es.
  - intros H. edestruct (Hput st) as (<- & ? & ?); [unfold Stat in Es; by rewrite Es|exact H|].
    simpl. auto.
  - destruct e; try done.
    destruct (Put _ (blobKey _) body _ st) as [st1 []] eqn:E; [done|].
    apply put_stores in E as [_ Hg]. intros H.
    edestruct (Hput st1) as (<- & ? & ?); [exact Hg|exact H|]. simpl. auto.
Qed.

Lemma verifyChecksum_spec want body :
  verifyChecksum want (digests_of digest body) = Ok tt ->
  IsZero want = true \/
  (ToLower (Algo want) ∈ known_algos /\
   ToLower (digest (ToLower (Algo want)) body) = ToLower (Hex want)).
Proof.
  unfold verifyChecksum. destruct (IsZero want); [auto|]. intros H. right.
  destruct (digests_of digest body !! ToLower (Algo want)) as [got|] eqn:E; [|done].
  case_match eqn:Ef; [|done]. apply bool_decide_eq_true in Ef.
  apply elem_of_list_to_map_2 in E. apply list_elem_of_fmap in E as (algo & [= -> ->] & Ha).
  done.
Qed.

(** C7. Nothing unverified enters the cache. Let [want] be the checksum the
    code settles on: the one of the request, else the sidecar document's, else
    the metadata document's, else the one the indirection published. A
    successful ingest stored a blob under the digest of the fetched bytes and a
    manifest naming it, and the bytes have the wanted checksum whenever there
    is one; when they do not, the ingest fails with a checksum mismatch and
    changes nothing in the store beyond what looking the checksum up did. *)
Theorem ingest_verified w rec q st (mkey := manifestKey (q_feed q) (q_intent q)) body ct ind st1 c
    (want := if IsZero c then ind else c) :
  rec_ok rec -> blobs_ok st -> expectedChecksum w rec q st = (st1, Ok c) ->
  openArtifactStream w q = Ok (body, ct, ind) ->
  (forall st' m, fetchAndStore digest w rec q mkey st = (st', Ok m) ->
     m_sha256 m = digest "sha256" body /\ m_size m = Z.of_nat (String.length body) /\
     (IsZero want = false -> ToLower (digest (ToLower (Algo want)) body) = ToLower (Hex want)) /\
     is_Some (found (Get (blobKey (m_sha256 m)) st')) /\
     (m_sha256 m <> "" -> Z.of_nat (String.length (encode_manifest m)) <= manifestSizeCap ->
      loadManifest digest mkey st' = Ok m)) /\
  (IsZero want = false -> ToLower (digest (ToLower (Algo want)) body) <> ToLower (Hex want) ->
   fetchAndStore digest w rec q mkey st = (st1, Err ErrChecksumMismatch)).
Proof.
  intros Hr Hst He Ho. pose proof (expected_ok w rec q st Hr Hst) as Hst1. rewrite He in Hst1. simpl in Hst1.
  unfold fetchAndStore. rewrite He, Ho. fold want. split.
  - intros st' m. destruct (verifyChecksum want (digests_of digest body)) as [[]|] eqn:Ev; [|done].
    apply verifyChecksum_spec in Ev. intros E.
    apply storeArtifact_stores in E as (? & ? & _ & ? & ?); [|done|done].
    split_and!; try done. intros Hz. destruct Ev as [?|[_ Hd]]; [congruence|done].
  - intros Hz Hne. destruct (verifyChecksum want (digests_of digest body)) as [[]|e] eqn:Ev.
    + apply verifyChecksum_spec in Ev as [?|[_ Hd]]; congruence.
    + unfold verifyChecksum in Ev. repeat case_match; by simplify_eq.
Qed.

(** What is served is what was asked for: from a store whose blobs match
    their keys, and with peers and replicas that keep it so, every artifact
    served, from the cache, a peer or the upstream, has the digest and the
    length the answer states, and the store still matches its keys. *)
Theorem serve_integrity w fuel q st st' res :
  world_ok w -> blobs_ok st -> i_kind (q_intent q) = IntentArtifact ->
  i_want (q_intent q) = "" -> Serve digest w fuel q st = (st', Ok res) ->
  blobs_ok st' /\ digest "sha256" (r_body res) = r_sha256 res /\
  r_size res = Z.of_nat (String.length (r_body res)).
Proof.
  intros Hw Hst Hk Hwant E. apply Serve_ok in E as [? Ha]; [|done..].
  destruct (Ha Hk res eq_refl Hwant) as (? & ? & _). done.
Qed.

(** A cached artifact is served from the cache for good: whatever the
    clock, the upstream, the peers and the other replicas would answer, and
    without touching the store. *)
Theorem artifact_cached_forever w fuel q st m o :
  i_kind (q_intent q) = IntentArtifact -> i_want (q_intent q) = "" ->
  validRemotePath (i_path (q_intent q)) = true ->
  loadManifest digest (manifestKey (q_feed q) (q_intent q)) st = Ok m ->
  found (Get (blobKey (m_sha256 m)) st) = Some o ->
  exists res, Serve digest w (S fuel) q st = (st, Ok res) /\
    r_source res = SourceCache /\ r_body res = o_body o /\ r_sha256 res = m_sha256 m.
Proof.
  intros Hk Hw Hp Hm Ho. simpl. rewrite Hp, Hk. simpl. unfold serveArtifact. rewrite Hm.
  unfold artifactResult. rewrite Hw. simpl. unfold openBlob.
  destruct (Get (blobKey (m_sha256 m)) st) as [o'|]; simplify_eq/=. eauto.
Qed.

(** A refresh replaces the whole document or leaves it. *)
Lemma refreshMetadata_outcome w q key st st' r :
  refreshMetadata digest w q key st = (st', r) ->
  match r with
  | None => is_Some (found (Get key st'))
  | Some _ => o_body <$> found (Get key st') = o_body <$> found (Get key st)
  end.
Proof.
  unfold refreshMetadata. destruct (w_fetch w _ _) as [[body ct]|]; [|by intros [= <- <-]].
  destruct (metadataSizeCap <? _); [by intros [= <- <-]|].
  destruct (w_rewrite w body); [|by intros [= <- <-]]. intros E. destruct r.
  - by eapply put_atomic.
  - apply put_stores in E as [_ ->]. eauto.
Qed.

Lemma openMeta_found key source st o :
  found (Get key st) = Some o ->
  exists res, openMeta digest key source st = Ok res /\
    r_source res = source /\ r_body res = o_body o.
Proof. unfold openMeta. destruct (Get key st) as [o'|]; simpl; intros [= ->]. eauto. Qed.

(** The freshness policy of mutable metadata. A copy younger than the
    TTL is served without asking the upstream. Otherwise the upstream
    decides: its document is rewritten, stored and served; a clean not-found
    is passed on and never masked by a stale copy; any other failure serves
    the cached copy, unchanged, marked stale, and is passed on only when
    there is none. *)
Theorem metadata_policy w q st (key := metaKey (digest "sha256") (q_feed q) (q_intent q))
    (i := q_intent q) :
  q_upstream q = true ->
  let cached := found (Get key st) in
  let fresh := exists o, cached = Some o /\ 0 < i_ttl i /\ w_now w - o_modtime o < i_ttl i in
  let '(st', r) := serveMetadataBody digest w q st in
  (fresh -> st' = st /\
     exists o res, cached = Some o /\ r = Ok res /\ r_body res = o_body o /\ r_source res = SourceCache) /\
  (~ fresh ->
     match (refreshMetadata digest w q key st).2 with
     | None => exists res, r = Ok res /\ r_source res = SourceUpstream /\
                 o_body <$> found (Get key st') = Some (r_body res)
     | Some ErrNotFound => r = Err ErrNotFound
     | Some e => match cached with
                 | Some o => exists res, r = Ok res /\ r_source res = SourceStale /\ r_body res = o_body o
                 | None => r = Err e
                 end
     end).
Proof.
  intros Hu. cbv zeta. unfold serveMetadataBody. fold key. fold i. unfold Stat. rewrite Hu. simpl.
  destruct (match found (Get key st) with Some _ => _ | None => _ end) eqn:Ef.
  - destruct (found (Get key st)) as [o|] eqn:Eg; [|done].
    apply andb_true_iff in Ef as [H1%Z.ltb_lt H2%Z.ltb_lt].
    split; [|intros Hn; exfalso; apply Hn; eauto]. intros _. split; [done|].
    destruct (openMeta_found key SourceCache st o Eg) as (res & ? & ? & ?). eauto 10.
  - assert (Hnf : ~ exists o, found (Get key st) = Some o /\ 0 < i_ttl i /\ w_now w - o_modtime o < i_ttl i).
    { intros (o & Ho & H1 & H2). rewrite Ho in Ef. apply andb_false_iff in Ef.
      rewrite !Z.ltb_ge in Ef. lia. }
    destruct (refreshMetadata digest w q key st) as [st1 [e|]] eqn:Er; simpl.
    + pose proof (refreshMetadata_outcome _ _ _ _ _ _ Er) as Hb. simpl in Hb.
      assert (Hstale : forall o, found (Get key st) = Some o ->
        exists res, openMeta digest key SourceStale st1 = Ok res /\
          r_source res = SourceStale /\ r_body res = o_body o).
      { intros o Ho. rewrite Ho in Hb. destruct (found (Get key st1)) as [o1|] eqn:E1; simplify_eq/=.
        destruct (openMeta_found key SourceStale st1 o1 E1) as (res & ? & ? & ?). rewrite <- Hb. eauto. }
      destruct e; (split; [by intros ?|]); intros _; try done;
        destruct (found (Get key st)) as [o|]; auto.
    + split; [by intros ?|]. intros _.
      apply refreshMetadata_outcome in Er as [o Hg].
      destruct (openMeta_found key SourceUpstream st1 _ Hg) as (res & ? & ? & Hb).
      exists res. split_and!; [done..|]. rewrite Hg. simpl. by rewrite Hb.
Qed.

(** ** Nesting *)

(** The document that describes a metadata document is that document, or
    there is none. *)
Definition metadata_settles (w : World St) : Prop :=
  forall metaIntent c mi, w_metadata_intent w = Some metaIntent -> metaIntent c = Some mi ->
    match metaIntent (i_coord mi) with
    | Some mi' => i_path mi' = i_path mi
    | None => True
    end.

(** Nested calls matter only for the metadata document. *)
Lemma serveArtifact_ext w rec1 rec2 q st :
  (forall metaIntent mi st, w_metadata_intent w = Some metaIntent ->
     metaIntent (i_coord (q_intent q)) = Some mi -> i_path mi <> i_path (q_intent q) ->
     rec1 (with_intent q mi) st = rec2 (with_intent q mi) st) ->
  serveArtifact digest w rec1 q st = serveArtifact digest w rec2 q st.
Proof.
  intros Hrec.
  assert (Hm : forall st, metadataChecksum w rec1 q st = metadataChecksum w rec2 q st).
  { intros st0. unfold metadataChecksum.
    destruct (w_metadata_intent w) as [metaIntent|] eqn:Ew; [|done]. destruct (q_upstream q); [|done].
    destruct (metaIntent (i_coord (q_intent q))) as [mi|] eqn:Em; [|done].
    case_decide; [done|]. by rewrite (Hrec metaIntent mi). }
  assert (Hf : forall mkey st, fetchAndStore digest w rec1 q mkey st = fetchAndStore digest w rec2 q mkey st).
  { intros mkey st0. unfold fetchAndStore, expectedChecksum.
    match goal with |- context [match ?k with Ok _ => _ | Err _ => _ end] => destruct k end; [|done].
    by rewrite Hm. }
  unfold serveArtifact. destruct (loadManifest _ _ st) as [|[]]; try done.
  destruct (fromPeer digest w q st) as [st1 []]; [done|]. destruct (q_upstream q); [|done]. simpl.
  unfold ingestArtifact. destruct (loadManifest _ _ _); [done|]. by rewrite Hf.
Qed.

(** The nesting bound is enough: when the metadata document of a
    metadata document is itself (or there is none), which is what keeps the
    code from waiting on its own lock, two levels give the answer any deeper
    bound gives. *)
Theorem serve_fuel_enough w n q st :
  metadata_settles w -> Serve digest w (S (S n)) q st = Serve digest w 2 q st.
Proof.
  intros Hset.
  assert (Hmeta : forall k metaIntent mi c st, w_metadata_intent w = Some metaIntent ->
    metaIntent c = Some mi ->
    Serve digest w (S k) (with_intent q mi) st = Serve digest w 1 (with_intent q mi) st).
  { intros k metaIntent mi c st0 Ew Em. simpl. case_match; [done|]. case_match; try done.
    apply serveArtifact_ext. intros metaIntent' mi' st1 Ew' Em' Hne. rewrite Ew in Ew'.
    simplify_eq. simpl in *. pose proof (Hset _ _ _ Ew Em) as H'. by rewrite Em' in H'. }
  change (Serve digest w (S (S n)) q st) with
    (if negb (validRemotePath (i_path (q_intent q))) then (st, Err ErrNotFound)
     else match i_kind (q_intent q) with
          | IntentArtifact => serveArtifact digest w (Serve digest w (S n)) q st
          | IntentMetadata | IntentSearch => serveMetadata digest w q st
          | IntentSynthetic => (st, Err (ErrOther "unknown intent kind"))
          end).
  change (Serve digest w 2 q st) with
    (if negb (validRemotePath (i_path (q_intent q))) then (st, Err ErrNotFound)
     else match i_kind (q_intent q) with
          | IntentArtifact => serveArtifact digest w (Serve digest w 1) q st
          | IntentMetadata | IntentSearch => serveMetadata digest w q st
          | IntentSynthetic => (st, Err (ErrOther "unknown intent kind"))
          end).
  case_match; [done|]. case_match; try done.
  apply serveArtifact_ext. intros metaIntent mi st0 Ew Em _. by eapply Hmeta.
Qed.
End theorems.

(** ** A concrete pipeline for the witnesses *)

Module PipelineDemo.
Fixpoint bits (p : positive) : string :=
  match p with
  | xI p => String "1"%char (bits p) | xO p => String "0"%char (bits p) | xH => "" end.
Fixpoint unbits (s : string) : option positive :=
  match s with
  | EmptyString => Some xH
  | String c s' => p ← unbits s'; Some (if decide (c = "1"%char) then xI p else xO p)
  end.
Lemma unbits_bits p : unbits (bits p) = Some p.
Proof. induction p as [p IH|p IH|]; simpl; rewrite ?IH; done. Qed.

Lemma decode_bind `{Countable A} {B} (x : A) (k : A -> option B) :
  (decode (encode x) ≫= k) = k x.
Proof. by rewrite decode_encode. Qed.

(** The fields one by one, each as a number. *)
Definition fields_of (m : manifest) : list positive :=
  [encode (m_sha256 m); encode (m_size m); encode (m_checksums m); encode (m_coordinate m);
   encode (m_ingested m); encode (m_origin m); encode (m_site m); encode (m_publisher m);
   encode (m_metadata m)].
Definition of_fields (l : list positive) : option manifest :=
  match l with
  | [a; b; c; d; e; f; g; h; i] =>
      a ← decode a; b ← decode b; c ← decode c; d ← decode d; e ← decode e;
      f ← decode f; g ← decode g; h ← decode h; i ← decode i;
      Some (mkManifest a b c d e f g h i)
  | _ => None
  end.

#[global] Program Instance codec : ManifestCodec := {
  encode_manifest m := bits (encode (fields_of m));
  decode_manifest s := p ← unbits s; l ← decode p; of_fields l }.
Next Obligation.
  intros m.
  change ((p ← unbits (bits (encode (fields_of m))); l ← decode p; of_fields l) = Some m).
  rewrite unbits_bits. cbn [mbind option_bind]. rewrite (decode_bind (fields_of m)).
  unfold fields_of, of_fields. rewrite !decode_bind. by destruct m.
Qed.

Definition digest (algo body : string) : string := toy_sha256 body.
#[global] Instance store : BlobStore (digest "sha256") FS := fs_store toy_sha256.

Definition world (upstream : result api_error (string * string)) : World FS :=
  mkWorld 100 "a" (fun _ _ => upstream) (fun _ => Err ErrUpstreamUnavailable) None None
    (fun _ _ => Err (ErrOther "none")) Ok None (fun _ _ st => (st, None)) id.

Definition intent (kind : IntentKind) (c : Checksum) : Intent :=
  mkIntent kind (mkCoord "maven" "lib" "1.0") 60 "lib/1.0/lib.jar" c (mkSource "" "") "" false "" "" "" "".
Definition request (kind : IntentKind) (c : Checksum) : Request :=
  mkRequest (mkFeed "proxy" false) (intent kind c) true false.

Lemma empty_blobs_ok : blobs_ok digest empty_fs.
Proof.
  intros sha o. unfold Get. simpl. unfold fs_get, keyPath. destruct (validKey _); [|done].
  unfold empty_fs, files. rewrite lookup_empty. by case_match.
Qed.

Lemma world_good u : world_ok digest (world u).
Proof. split; intros; done. Qed.
End PipelineDemo.

Lemma ingest_verified_witness :
  fetchAndStore PipelineDemo.digest (PipelineDemo.world (Ok ("corrupt", ""))) (fun _ st => (st, Err ErrNotFound))
    (PipelineDemo.request IntentArtifact (mkChecksum "sha256" "4b")) "manifests/proxy/lib/1.0/lib.jar" empty_fs =
  (empty_fs, Err ErrChecksumMismatch).
Proof.
  apply (ingest_verified PipelineDemo.digest (PipelineDemo.world (Ok ("corrupt", "")))
           (fun _ st => (st, Err ErrNotFound))
           (PipelineDemo.request IntentArtifact (mkChecksum "sha256" "4b")) empty_fs "corrupt" "" no_checksum
           empty_fs (mkChecksum "sha256" "4b")).
  - intros q st Hst. exact Hst.
  - exact PipelineDemo.empty_blobs_ok.
  - reflexivity.
  - reflexivity.
  - reflexivity.
  - vm_compute. discriminate.
Defined.

Lemma serve_integrity_witness :
  exists st' res,
    Serve PipelineDemo.digest (PipelineDemo.world (Ok ("body", ""))) 1
      (PipelineDemo.request IntentArtifact (mkChecksum "SHA256" "4B")) empty_fs = (st', Ok res) /\
    r_body res = "body" /\ PipelineDemo.digest "sha256" (r_body res) = r_sha256 res.
Proof.
  destruct (Serve PipelineDemo.digest (PipelineDemo.world (Ok ("body", ""))) 1
      (PipelineDemo.request IntentArtifact (mkChecksum "SHA256" "4B")) empty_fs) as [st' r] eqn:E.
  assert (Hr : exists res, r = Ok res /\ r_body res = "body").
  { apply (f_equal snd) in E. vm_compute in E. subst r. eexists. split; reflexivity. }
  destruct Hr as (res & -> & Hb). exists st', res. split; [reflexivity|]. split; [exact Hb|].
  apply (serve_integrity PipelineDemo.digest (PipelineDemo.world (Ok ("body", ""))) 1
    (PipelineDemo.request IntentArtifact (mkChecksum "SHA256" "4B")) empty_fs st' res).
  - exact (PipelineDemo.world_good _).
  - exact PipelineDemo.empty_blobs_ok.
  - reflexivity.
  - reflexivity.
  - exact E.
Defined.

(** The store after a first request ingested the artifact. *)
Definition warm_store : FS :=
  (Serve PipelineDemo.digest (PipelineDemo.world (Ok ("body", ""))) 1
     (PipelineDemo.request IntentArtifact no_checksum) empty_fs).1.

Lemma artifact_cached_forever_witness :
  exists res, Serve PipelineDemo.digest (PipelineDemo.world (Err ErrUpstreamUnavailable)) 1
      (PipelineDemo.request IntentArtifact no_checksum) warm_store = (warm_store, Ok res) /\
    r_source res = SourceCache /\ r_body res = "body".
Proof.
  destruct (artifact_cached_forever PipelineDemo.digest (PipelineDemo.world (Err ErrUpstreamUnavailable)) 0
    (PipelineDemo.request IntentArtifact no_checksum) warm_store
    (mkManifest "4b" 4 (digests_of PipelineDemo.digest "body") "maven:lib@1.0" 100 "proxy" "a" "" ∅)
    (mkObj "body" "4b" 100 "")) as (res & H1 & H2 & H3 & _); try (vm_compute; reflexivity).
  exists res. split; [exact H1|]. split; [exact H2|exact H3].
Defined.

(** A stale copy and an upstream that is down. *)
Definition stale_store : FS :=
  (fs_put toy_sha256 10 "meta/proxy/lib/1.0/lib.jar" "old" no_opts empty_fs).1.

Lemma metadata_policy_witness :
  exists res, (serveMetadataBody PipelineDemo.digest (PipelineDemo.world (Err ErrUpstreamUnavailable))
      (PipelineDemo.request IntentMetadata no_checksum) stale_store).2 = Ok res /\
    r_source res = SourceStale /\ r_body res = "old".
Proof.
  pose proof (metadata_policy PipelineDemo.digest (PipelineDemo.world (Err ErrUpstreamUnavailable))
    (PipelineDemo.request IntentMetadata no_checksum) stale_store eq_refl) as H.
  destruct (serveMetadataBody _ _ _ _) as [st' r]. cbv zeta in H. destruct H as [_ H].
  simpl snd. apply H. intros (o & Ho & _ & Hf).
  vm_compute in Ho. inversion Ho; subst o. vm_compute in Hf. discriminate.
Defined.

Lemma serve_fuel_enough_witness :
  Serve PipelineDemo.digest (PipelineDemo.world (Ok ("body", ""))) 7
    (PipelineDemo.request IntentArtifact no_checksum) empty_fs =
  Serve PipelineDemo.digest (PipelineDemo.world (Ok ("body", ""))) 2
    (PipelineDemo.request IntentArtifact no_checksum) empty_fs.
Proof.
  apply (serve_fuel_enough PipelineDemo.digest (PipelineDemo.world (Ok ("body", ""))) 5).
  intros metaIntent c mi Hw. discriminate.
Defined.
