(* ===== verification/UpstreamAuth.v ===== *)
(** * Token handshakes with an upstream ([core/pipeline/upstream_auth.go])

    An upstream that answers 401 names in its [WWW-Authenticate] header an
    endpoint that hands out bearer tokens. The parsing of that header, the
    cache of tokens, the handshake and the whole of [attempt] around it
    ([upstream.go]); the HTTP exchanges themselves, the resolver and URL
    parsing are parameters. *)

From S2P Require Import Prelude GoLib Upstream Pipeline.
Open Scope Z_scope.

Module UpstreamAuth.

Definition quote : Ascii.ascii := Ascii.ascii_of_N 34.

(** ** The token cache *)

Definition tokenLifetimeDefault : Z := 60 * Second.
Definition tokenLifetimeSlack : Z := 10 * Second.

Record cachedToken := mkToken { ct_value : string; ct_expires : Z }.
Notation tokenCache := (gmap string cachedToken).

Definition cache_get (now : Z) (key : string) (c : tokenCache) : option string :=
  match c !! key with
  | Some t => if decide (now < ct_expires t) then Some (ct_value t) else None
  | None => None
  end.

(** How long a token of the stated lifetime is kept. *)
Definition kept_for (lifetime : Z) : Z :=
  let l := if decide (lifetime <= 0) then tokenLifetimeDefault else lifetime in
  if decide (tokenLifetimeSlack < l) then l - tokenLifetimeSlack else l.

Definition cache_put (now : Z) (key value : string) (lifetime : Z) (c : tokenCache) : tokenCache :=
  <[key := mkToken value (now + kept_for lifetime)]> c.

(** ** Challenges *)

Record challenge := mkChallenge { ch_scheme : string; ch_params : gmap string string }.

(** [splitParams]: at the commas outside quotes; [current] is the text since
    the last one. *)
Fixpoint split_params (s current : string) (inQuotes : bool) : list string :=
  match s with
  | EmptyString => if decide (current = "") then [] else [current]
  | String c s' =>
      if decide (c = quote) then split_params s' (current +:+ String c "") (negb inQuotes)
      else if bool_decide (c = ","%char) && negb inQuotes then current :: split_params s' "" inQuotes
      else split_params s' (current +:+ String c "") inQuotes
  end.
Definition splitParams (s : string) : list string := split_params s "" false.

(** One parameter. *)
Definition param (part : string) (ps : gmap string string) : gmap string string :=
  match Cut part "=" with
  | None => ps
  | Some (key, value) =>
      let key := ToLower (TrimSpace key) in
      if decide (key <> "") then <[key := Trim (TrimSpace value) quote]> ps else ps
  end.

Definition parseChallenge (header : string) : challenge :=
  let header := TrimSpace header in
  if decide (header = "") then mkChallenge "" ∅ else
  let '(scheme, rest) := match Cut header " " with Some p => p | None => (header, "") end in
  mkChallenge (ToLower scheme) (foldl (fun ps part => param part ps) ∅ (splitParams rest)).

Definition ch_param (ch : challenge) (name : string) : string := default "" (ch_params ch !! name).

(** ** Requests *)

Record target := mkTarget { t_host : string; t_path : string }.

Definition scopeKey (u : target) : string :=
  t_host u +:+ "/" +:+ join (take 3 (Split (Trim (t_path u) "/"%char) "/")) "/".

(** An answer: its status, the challenge of a 401 and the delay of a 429. *)
Record answer := mkAnswer { a_status : Z; a_challenge : string; a_retry : Z }.

(** The document of a token endpoint. *)
Record tokenDoc := mkDoc { td_token : string; td_access : string; td_expires : Z }.

Section handshake.
(** An absolute http(s) URL's host, the resolver, the feed's own host, the
    endpoint (by realm, service and scope; a document only for status 200),
    the exchange with the upstream ([None] for a transport error). *)
Context (url : string -> option string) (lookup : string -> option (list IP)) (base : string).
Context (endpoint : string -> string -> string -> option tokenDoc).
Context (send : target -> option string -> option answer).

Definition fetchToken (ch : challenge) : option (string * Z) :=
  match url (ch_param ch "realm") with
  | None => None
  | Some host =>
      if negb (checkDestination lookup base host) then None
      else match endpoint (ch_param ch "realm") (ch_param ch "service") (ch_param ch "scope") with
           | None => None
           | Some doc =>
               let token := if decide (td_token doc = "") then td_access doc else td_token doc in
               if decide (token = "") then None else Some (token, wrap64 (td_expires doc * Second))
           end
  end.

(** [retryAuthorized]: the answer to go on with ([None] inside for the
    original one), or a failed handshake. *)
Inductive retried := Kept | Failed | Repeated (a : option answer).

Definition retryAuthorized (now : Z) (u : target) (presented : option string) (a : answer) (c : tokenCache)
  : tokenCache * retried :=
  match presented with
  | Some _ => (c, Kept)
  | None =>
      let ch := parseChallenge (a_challenge a) in
      if decide (ch_scheme ch <> "bearer" \/ ch_param ch "realm" = "") then (c, Kept)
      else match fetchToken ch with
           | None => (c, Failed)
           | Some (token, lifetime) =>
               (cache_put now (scopeKey u) token lifetime c, Repeated (send u (Some token)))
           end
  end.

Definition classify_answer (a : answer) : attempt_outcome := classify (Some (a_status a)) (a_retry a).

(** [attempt]: the request at [now] with the token held for it, and the
    handshake, finished at [done], when it is refused. *)
Definition attempt (now done : Z) (u : target) (c : tokenCache) : tokenCache * attempt_outcome :=
  let presented := cache_get now (scopeKey u) c in
  match send u presented with
  | None => (c, ATransient)
  | Some a =>
      if decide (a_status a = 401) then
        match retryAuthorized done u presented a c with
        | (c, Kept) => (c, classify_answer a)
        | (c, Failed) => (c, ATransient)
        | (c, Repeated None) => (c, ATransient)
        | (c, Repeated (Some a')) => (c, classify_answer a')
        end
      else (c, classify_answer a)
  end.
End handshake.

(** ** Reading a challenge *)

(** How an upstream writes parameters. *)
Definition print_param (p : string * string) : string :=
  p.1 +:+ "=" +:+ String quote (p.2 +:+ String quote "").
Definition print_challenge (scheme : string) (ps : list (string * string)) : string :=
  scheme +:+ " " +:+ join (map print_param ps) ",".

(** Names: letters in lower case, digits, hyphen and underscore. *)
Definition name_char (c : Ascii.ascii) : bool :=
  let n := Ascii.N_of_ascii c in
  ((97 <=? n) && (n <=? 122) || (48 <=? n) && (n <=? 57) || (n =? 45) || (n =? 95))%N.
Fixpoint name_chars (s : string) : bool :=
  match s with EmptyString => true | String c s' => name_char c && name_chars s' end.
Definition plain_name (s : string) : Prop := s <> "" /\ name_chars s = true.

Lemma name_char_plain c :
  name_char c = true ->
  is_space c = false /\ lower_char c = c /\ c <> quote /\ c <> ","%char /\ c <> "="%char /\ c <> " "%char.
Proof. destruct c as [[] [] [] [] [] [] [] []]; vm_compute; intros; try discriminate; repeat split; congruence. Qed.

Lemma name_chars_plain s :
  name_chars s = true ->
  ToLower s = s /\ contains_char s quote = false /\ contains_char s ","%char = false
  /\ contains_char s "="%char = false /\ contains_char s " "%char = false /\ trim_right s = s /\ trim_left s = s.
Proof.
  induction s as [|c s IH]; [done|]. cbn [name_chars]. intros [Hc Hs]%andb_prop.
  destruct (IH Hs) as (IH1 & IH2 & IH3 & IH4 & IH5 & IH6 & _). apply name_char_plain in Hc as (H1 & H2 & H3 & H4 & H5 & H6).
  simpl. rewrite H1, H2, IH1, IH2, IH3, IH4, IH5, IH6. rewrite !bool_decide_false by done.
  split_and!; try done. by destruct s.
Qed.

Lemma TrimSpace_name s : name_chars s = true -> TrimSpace s = s.
Proof. intros H. apply name_chars_plain in H as (_ & _ & _ & _ & _ & H1 & H2). unfold TrimSpace. by rewrite H2. Qed.

Lemma trim_right_end s c : is_space c = false -> trim_right (s +:+ String c "") = s +:+ String c "".
Proof.
  intros Hc. induction s as [|d s IH]; simpl; [by rewrite Hc|]. rewrite IH. by destruct s.
Qed.

(** Text that starts and ends with something visible. *)
Lemma TrimSpace_framed c s d :
  is_space c = false -> is_space d = false -> TrimSpace (String c (s +:+ String d "")) = String c (s +:+ String d "").
Proof. intros Hc Hd. unfold TrimSpace. simpl. rewrite Hc. exact (trim_right_end (String c s) d Hd). Qed.

Lemma trim_right_char_end s c : contains_char s c = false -> trim_right_char (s +:+ String c "") c = s.
Proof.
  induction s as [|d s IH]; simpl; [by rewrite decide_True|]. case_bool_decide; [done|]. intros Hs. rewrite IH by done.
  destruct s; [by rewrite decide_False|done].
Qed.

Lemma Trim_quoted v : contains_char v quote = false -> Trim (String quote (v +:+ String quote "")) quote = v.
Proof.
  intros Hv. unfold Trim. cbn [trim_left_char]. rewrite decide_True by done.
  destruct v as [|c v]; [done|]. pose proof Hv as Hv'. simpl in Hv. case_bool_decide; [done|].
  cbn [String.append trim_left_char]. rewrite decide_False by done.
  by apply (trim_right_char_end (String c v)).
Qed.

Lemma split_params_text t s cur q :
  contains_char t quote = false -> q = true \/ contains_char t ","%char = false ->
  split_params (t +:+ s) cur q = split_params s (cur +:+ t) q.
Proof.
  revert cur. induction t as [|c t IH]; intros cur; simpl; [by rewrite str_app_nil_r|].
  case_bool_decide as Hq; [done|]. rewrite decide_False by done. intros Ht Hc.
  assert (bool_decide (c = ","%char) && negb q = false) as ->.
  { destruct Hc as [->|Hc]; [by destruct (bool_decide _)|]. by case_bool_decide. }
  rewrite IH, <- str_app_assoc; [done|done|]. destruct Hc as [?|Hc]; [by left|right]. by case_bool_decide.
Qed.

Lemma split_params_param p s cur :
  plain_name p.1 -> contains_char p.2 quote = false ->
  split_params (print_param p +:+ s) cur false = split_params s (cur +:+ print_param p) false.
Proof.
  intros [_ Hn] Hv. apply name_chars_plain in Hn as (_ & Hq & Hcm & _). unfold print_param.
  rewrite <- !str_app_assoc. rewrite (split_params_text p.1) by auto. rewrite (split_params_text "=") by auto.
  cbn [String.append split_params]. rewrite decide_True by done.
  rewrite <- str_app_assoc. rewrite (split_params_text p.2) by auto.
  cbn [String.append split_params]. rewrite decide_True by done. cbn [negb].
  by rewrite <- !str_app_assoc.
Qed.

Lemma splitParams_join ps :
  (forall p, p ∈ ps -> plain_name p.1 /\ contains_char p.2 quote = false) ->
  splitParams (join (map print_param ps) ",") = map print_param ps.
Proof.
  unfold splitParams. induction ps as [|p ps IH]; [done|]. intros Hall.
  destruct (Hall p) as [Hn Hv]; [apply list_elem_of_here|].
  assert (print_param p <> "") as Hne by (unfold print_param; destruct Hn as [Hn _]; by destruct (p.1)).
  destruct ps as [|q ps].
  - cbn [map join]. rewrite <- (str_app_nil_r (print_param p)) at 1. rewrite split_params_param by done.
    simpl. by rewrite decide_False.
  - cbn [map]. rewrite join_cons by done. rewrite split_params_param by done.
    cbn [String.append split_params]. rewrite decide_False by done. cbn [bool_decide negb andb].
    rewrite bool_decide_true by done. cbn [andb negb]. f_equal. apply IH. intros x Hx. apply Hall.
    by apply list_elem_of_further.
Qed.

Lemma param_printed p ps :
  plain_name p.1 -> contains_char p.2 quote = false -> param (print_param p) ps = <[p.1 := p.2]> ps.
Proof.
  intros [Hne Hn] Hv. pose proof (name_chars_plain _ Hn) as (Hl & _ & _ & Heq & _). unfold param, print_param.
  change (p.1 +:+ "=" +:+ ?x) with (p.1 +:+ String "="%char x).
  rewrite Cut_char_app by done. rewrite TrimSpace_name, Hl, decide_True by done.
  rewrite TrimSpace_framed by done. by rewrite Trim_quoted.
Qed.

(** A challenge is read as it was meant: whatever the values contain apart
    from quotes (a scope's commas and spaces included), the scheme and every
    parameter of the header come back. *)
Theorem parse_challenge_roundtrip scheme ps :
  plain_name scheme -> ps <> [] ->
  (forall p, p ∈ ps -> plain_name p.1 /\ contains_char p.2 quote = false) ->
  parseChallenge (print_challenge scheme ps) =
    mkChallenge scheme (foldl (fun m p => <[p.1 := p.2]> m) ∅ ps).
Proof.
  intros [Hne Hs] Hps Hall. pose proof (name_chars_plain _ Hs) as (Hl & _ & _ & _ & Hsp & _).
  assert (TrimSpace (print_challenge scheme ps) = print_challenge scheme ps) as Htrim.
  { destruct scheme as [|c scheme]; [done|].
    destruct (exists_last Hps) as (ps' & p & ->). unfold print_challenge. rewrite map_app. cbn [map].
    assert (exists t, join (map print_param ps' ++ [print_param p]) "," = t +:+ String quote "") as [t ->].
    { clear. induction (map print_param ps') as [|q l [t IH]]; cbn [app join].
      - exists (p.1 +:+ "=" +:+ String quote p.2). unfold print_param. by rewrite <- !str_app_assoc.
      - exists (q +:+ "," +:+ t). rewrite <- !str_app_assoc, <- IH. by destruct l. }
    simpl in Hs. apply andb_prop in Hs as [Hc _]. apply name_char_plain in Hc as (Hc & _).
    rewrite (str_app_assoc " "), (str_app_assoc (String c scheme)). by apply TrimSpace_framed. }
  unfold parseChallenge. rewrite Htrim. rewrite decide_False by (unfold print_challenge; by destruct scheme).
  unfold print_challenge. change (scheme +:+ " " +:+ ?x) with (scheme +:+ String " "%char x).
  rewrite Cut_char_app by done. rewrite Hl, splitParams_join by done. f_equal.
  generalize (∅ : gmap string string). clear Htrim Hps. induction ps as [|p ps IH]; intros m; [done|]. cbn [map foldl].
  destruct (Hall p) as [Hn Hv]; [apply list_elem_of_here|]. rewrite param_printed by done.
  apply IH. intros x Hx. apply Hall. by apply list_elem_of_further.
Qed.

Lemma parse_challenge_roundtrip_witness :
  ch_param (parseChallenge (print_challenge "bearer"
    [("realm", "https://auth.docker.io/token"); ("scope", "repository:library/nginx:pull,push")])) "scope"
  = "repository:library/nginx:pull,push".
Proof.
  rewrite parse_challenge_roundtrip; [reflexivity|by split|done|].
  intros p Hp. repeat (apply elem_of_cons in Hp as [->|Hp]; [by split|]). by apply not_elem_of_nil in Hp.
Defined.

(** ** Tokens over time *)

Section tokens.
Context (url : string -> option string) (lookup : string -> option (list IP)) (base : string).
(** What token endpoints issued, and when. *)
Context (issued : Z -> string -> string -> string -> tokenDoc -> Prop).

(** The cache of a feed's upstream: handshakes of any requests, in any order
    and at the same time, each with what it met. *)
Inductive cache_reach : Z -> tokenCache -> Prop :=
| reach_empty t : cache_reach t ∅
| reach_handshake t now endpoint send u presented a c c' r :
    cache_reach t c -> t <= now ->
    (forall realm service scope doc, endpoint realm service scope = Some doc -> issued now realm service scope doc) ->
    retryAuthorized url lookup base endpoint send now u presented a c = (c', r) ->
    cache_reach now c'.

(** A token that was issued, for the scope of a request, at a checked endpoint. *)
Definition live_token (now : Z) (key value : string) : Prop :=
  exists u t0 realm service scope doc host,
    scopeKey u = key /\ t0 <= now /\ now < t0 + kept_for (wrap64 (td_expires doc * Second))
    /\ issued t0 realm service scope doc
    /\ url realm = Some host /\ checkDestination lookup base host = true
    /\ value <> "" /\ (value = td_token doc \/ td_token doc = "" /\ value = td_access doc).

Lemma fetchToken_issued endpoint ch value lifetime :
  fetchToken url lookup base endpoint ch = Some (value, lifetime) ->
  exists doc host, endpoint (ch_param ch "realm") (ch_param ch "service") (ch_param ch "scope") = Some doc
    /\ url (ch_param ch "realm") = Some host /\ checkDestination lookup base host = true
    /\ lifetime = wrap64 (td_expires doc * Second)
    /\ value <> "" /\ (value = td_token doc \/ td_token doc = "" /\ value = td_access doc).
Proof.
  unfold fetchToken. destruct (url _) as [host|]; [|done].
  destruct (checkDestination lookup base host) eqn:Ec; simpl; [|done].
  destruct (endpoint _ _ _) as [doc|]; [|done]. case_decide as Hv; [done|]. intros [= <- <-].
  exists doc, host. split_and!; try done. case_decide; auto.
Qed.

Lemma cache_reach_live t c key tok :
  cache_reach t c -> c !! key = Some tok ->
  forall now, t <= now -> now < ct_expires tok -> live_token now key (ct_value tok).
Proof.
  intros Hr. revert key tok. induction Hr as [t|t now endpoint send u presented a c c' r Hr IH Ht Hiss Hstep];
    intros key tok Hk; [done|].
  intros n Hn Hexp. unfold retryAuthorized in Hstep. destruct presented; [simplify_eq; by eapply IH; try lia|].
  case_decide; [simplify_eq; by eapply IH; try lia|].
  destruct (fetchToken url lookup base endpoint _) as [[value lifetime]|] eqn:Ef; [|simplify_eq; by eapply IH; try lia].
  injection Hstep as <- <-. unfold cache_put in Hk. apply lookup_insert_Some in Hk as [[<- <-]|[_ Hk]]; [|by eapply IH; try lia].
  apply fetchToken_issued in Ef as (doc & host & Hd & Hu & Hc & -> & Hv).
  simpl in *. exists u, now. do 3 eexists. exists doc, host. split; [done|]. split; [lia|]. split; [lia|].
  split; [by apply Hiss|]. done.
Qed.
End tokens.

(** A token is presented to an upstream only while it is good, and only
    where it came from: in any interleaving of handshakes, what the cache
    gives a request was issued by an endpoint that passed the destination
    check, to a request of the same scope key, and the time since is below
    the lifetime the issuer stated less the slack (a minute when it stated
    none). *)
Theorem presented_token_live url lookup base issued t c now u value :
  cache_reach url lookup base issued t c -> t <= now -> cache_get now (scopeKey u) c = Some value ->
  live_token url lookup base issued now (scopeKey u) value.
Proof.
  intros Hr Ht. unfold cache_get. destruct (c !! scopeKey u) as [tok|] eqn:E; [|done].
  case_decide; [|done]. intros [= <-]. by eapply cache_reach_live.
Qed.

(** ** A registry with nested repositories *)

Module Demo.
Definition repository (app : string) : target := mkTarget "registry" ("/v2/acme/team/" +:+ app +:+ "/manifests/1").
Definition scope (app : string) : string := "repository:acme/team/" +:+ app +:+ ":pull".
Definition header (app : string) : string :=
  print_challenge "bearer" [("realm", "https://registry/token"); ("scope", scope app)].
(** Tokens are for one repository, and the registry accepts no other. *)
Definition endpoint (realm service scope : string) : option tokenDoc := Some (mkDoc scope "" 300).
Definition send (app : string) (u : target) (token : option string) : option answer :=
  Some (if decide (token = Some (scope app)) then mkAnswer 200 "" 0 else mkAnswer 401 (header app) 0).
Definition url (s : string) : option string := if decide (s = "https://registry/token") then Some "registry" else None.
Definition lookup (h : string) : option (list IP) := None.
Definition pull (now : Z) (app : string) (c : gmap string cachedToken) :=
  attempt url lookup "registry" endpoint (send app) now now (repository app) c.
End Demo.

Lemma presented_token_live_witness :
  live_token Demo.url Demo.lookup "registry" (fun _ _ _ sc doc => doc = mkDoc sc "" 300) (289 * Second)
    (scopeKey (Demo.repository "one")) (Demo.scope "one").
Proof.
  apply (presented_token_live Demo.url Demo.lookup "registry" _ 0
    (retryAuthorized Demo.url Demo.lookup "registry" Demo.endpoint (Demo.send "one") 0 (Demo.repository "one") None
       (mkAnswer 401 (Demo.header "one") 0) ∅).1 (289 * Second) (Demo.repository "one")).
  - eapply (reach_handshake _ _ _ _ 0 0 Demo.endpoint (Demo.send "one") (Demo.repository "one") None
      (mkAnswer 401 (Demo.header "one") 0) ∅); [apply reach_empty|lia| |vm_compute; reflexivity].
    intros realm service sc doc [= <-]. reflexivity.
  - vm_compute. discriminate.
  - vm_compute. reflexivity.
Defined.

(** Tokens are cached by host and three path segments, while a repository's
    name may be longer. Once one repository has been pulled, a sibling below
    the same prefix is asked for with that token, and its refusal is final,
    since a presented token is never replaced: for as long as the token is
    kept, the sibling cannot be fetched, although on its own it can. *)
Theorem nested_repository_starved :
  let '(c, first) := Demo.pull 0 "one" ∅ in
  first = AResponse
  /\ (Demo.pull (289 * Second) "two" c).2 = AFatal
  /\ (Demo.pull (289 * Second) "two" ∅).2 = AResponse.
Proof. vm_compute. repeat split. Qed.
End UpstreamAuth.
