(* ===== verification/Usage.v ===== *)
(** * Usage accounting ([core/usage], [core/state/usage.go])

    The recorder counts responses in memory and folds its deltas into the
    database; the scanner counts what each feed holds. The recorder is a step
    relation: replicas record, take their deltas, and a flush ends in success,
    in a failure that wrote nothing, or in one that was reported although the
    batch had been committed; a replica may be killed with what it holds. The scanner is a function of the hosted rows
    and the manifests in the store. Counters are unbounded integers here (an
    int64 of bytes lasts for eight exbibytes); metrics are left out. *)

From S2P Require Import Prelude GoLib State Store Pipeline.
Open Scope Z_scope.

Module Usage.

(** ** The recorder *)

Record counter := mkCounter { c_requests : Z; c_bytes : Z }.
#[export] Instance counter_eq : EqDecision counter.
Proof. solve_decision. Defined.
Definition no_count : counter := mkCounter 0 0.
Definition plus_count (a b : counter) : counter :=
  mkCounter (c_requests a + c_requests b) (c_bytes a + c_bytes b).

(** Counters by feed and source, and by feed and coordinate. *)
Notation counters := (gmap (string * string) counter).

Record Recorder := mkRecorder { r_feeds : counters; r_packages : counters }.
Definition NewRecorder : Recorder := mkRecorder ∅ ∅.

Definition maxTrackedPackages : nat := Z.to_nat 20000.
Definition SourceIngest : string := "ingest".
Definition SourceMerged : string := "merged".

Definition bump (k : string * string) (d : counter) (m : counters) : counters :=
  <[k := plus_count (default no_count (m !! k)) d]> m.

(** [add]. *)
Definition add (k : string * string) (d : counter) (r : Recorder) : Recorder :=
  mkRecorder (bump k d (r_feeds r)) (r_packages r).

(** A coordinate's counter, when there is room for it. *)
Definition bump_package (k : string * string) (d : counter) (m : counters) : counters :=
  match m !! k with
  | Some _ => bump k d m
  | None => if decide (maxTrackedPackages <= size m)%nat then m else bump k d m
  end.

(** [addPackage]. *)
Definition addPackage (feed coordinate : string) (sz : Z) (r : Recorder) : Recorder :=
  if decide (coordinate = "") then r
  else mkRecorder (r_feeds r) (bump_package (feed, coordinate) (mkCounter 1 sz) (r_packages r)).

(** [Served], [GroupServed], [Ingested]. *)
Definition Served (feed source coordinate : string) (sz : Z) (r : Recorder) : Recorder :=
  if decide (feed = "") then r else
  let sz := Z.max 0 sz in addPackage feed coordinate sz (add (feed, source) (mkCounter 1 sz) r).
Definition GroupServed (group source coordinate : string) (sz : Z) (r : Recorder) : Recorder :=
  Served group source coordinate sz r.
Definition Ingested (feed : string) (sz : Z) (r : Recorder) : Recorder :=
  if decide (feed = "" \/ sz <= 0) then r else add (feed, SourceIngest) (mkCounter 1 sz) r.

(** [restore] and [restorePackages]: a failed flush's deltas go back. *)
Definition restore (deltas : list ((string * string) * counter)) (r : Recorder) : Recorder :=
  foldl (fun r kd => add kd.1 kd.2 r) r deltas.
Definition restorePackages (deltas : list ((string * string) * counter)) (r : Recorder) : Recorder :=
  mkRecorder (r_feeds r) (foldl (fun m kd => bump_package kd.1 kd.2 m) (r_packages r) deltas).

(** ** The tables *)

(** [AddTraffic] and [AddPackageDownloads]: deltas added row by row. *)
Definition add_rows (deltas : list ((string * string) * counter)) (t : counters) : counters :=
  foldl (fun t kd => bump kd.1 kd.2 t) t deltas.

Record UsageDB := mkUsageDB { feed_traffic : counters; package_downloads : counters }.

(** ** Flushing

    [Flush] takes both sets of deltas, then writes the feeds' and, when that
    succeeded, the packages'. Requests and other replicas go on in between. *)

Inductive flight :=
| TookFeeds (owner : nat) (deltas : list ((string * string) * counter))
| Taken (owner : nat) (deltas packages : list ((string * string) * counter))
| TrafficDone (owner : nat) (packages : list ((string * string) * counter)).
Definition owner_of (f : flight) : nat :=
  match f with TookFeeds i _ | Taken i _ _ | TrafficDone i _ => i end.

Record Site := mkSite {
  s_recorders : list Recorder;        (** one per replica *)
  s_flights : list flight;
  s_db : UsageDB;
  s_served : counters;                (** what was served, by feed and source *)
  s_pulled : counters;                (** what was served, by feed and coordinate *)
  s_killed : list (Recorder * list flight);  (** what each killed replica held *)
}.

(** A response or an ingest, as it is reported. *)
Inductive event :=
| EvServed (feed source coordinate : string) (sz : Z)
| EvIngested (feed : string) (sz : Z).
Definition record (e : event) (r : Recorder) : Recorder :=
  match e with EvServed f s c z => Served f s c z r | EvIngested f z => Ingested f z r end.

(** What an event counts for. *)
Definition event_traffic (e : event) : option ((string * string) * counter) :=
  match e with
  | EvServed f s _ z => if decide (f = "") then None else Some ((f, s), mkCounter 1 (Z.max 0 z))
  | EvIngested f z => if decide (f = "" \/ z <= 0) then None else Some ((f, SourceIngest), mkCounter 1 z)
  end.
Definition event_package (e : event) : option ((string * string) * counter) :=
  match e with
  | EvServed f _ c z => if decide (f = "" \/ c = "") then None else Some ((f, c), mkCounter 1 (Z.max 0 z))
  | EvIngested _ _ => None
  end.
Definition tally_event (x : option ((string * string) * counter)) (m : counters) : counters :=
  match x with Some (k, d) => bump k d m | None => m end.

(** The outcome of a batch: written, not written, or written although an
    error was reported. *)
Inductive outcome := Written | Failed | Unacknowledged.
#[export] Instance outcome_eq : EqDecision outcome.
Proof. solve_decision. Defined.

Definition batch_db (o : outcome) (deltas : list ((string * string) * counter)) (t : counters) : counters :=
  match o with Failed => t | _ => add_rows deltas t end.

(** The first argument tells whether a failure is always one of the batch. *)
Inductive step : bool -> Site -> Site -> Prop :=
| step_record i r e s :
    s_recorders s !! i = Some r ->
    step true s (mkSite (<[i := record e r]> (s_recorders s)) (s_flights s) (s_db s)
      (tally_event (event_traffic e) (s_served s)) (tally_event (event_package e) (s_pulled s)) (s_killed s))
| step_take i r s :
    s_recorders s !! i = Some r ->
    step true s (mkSite (<[i := mkRecorder ∅ (r_packages r)]> (s_recorders s))
      (TookFeeds i (map_to_list (r_feeds r)) :: s_flights s) (s_db s) (s_served s) (s_pulled s) (s_killed s))
| step_take_packages i r deltas fs1 fs2 s :
    s_flights s = fs1 ++ TookFeeds i deltas :: fs2 -> s_recorders s !! i = Some r ->
    step true s (mkSite (<[i := mkRecorder (r_feeds r) ∅]> (s_recorders s))
      (fs1 ++ Taken i deltas (map_to_list (r_packages r)) :: fs2) (s_db s) (s_served s) (s_pulled s) (s_killed s))
| step_traffic i r deltas packages fs1 fs2 o s :
    s_flights s = fs1 ++ Taken i deltas packages :: fs2 -> s_recorders s !! i = Some r ->
    step (bool_decide (o <> Unacknowledged)) s
      (mkSite (match o with Written => s_recorders s
               | _ => <[i := restorePackages packages (restore deltas r)]> (s_recorders s) end)
         (match o with Written => fs1 ++ TrafficDone i packages :: fs2 | _ => fs1 ++ fs2 end)
         (mkUsageDB (batch_db o deltas (feed_traffic (s_db s))) (package_downloads (s_db s)))
         (s_served s) (s_pulled s) (s_killed s))
| step_packages i r packages fs1 fs2 o s :
    s_flights s = fs1 ++ TrafficDone i packages :: fs2 -> s_recorders s !! i = Some r ->
    step (bool_decide (o <> Unacknowledged)) s
      (mkSite (match o with Written => s_recorders s | _ => <[i := restorePackages packages r]> (s_recorders s) end)
         (fs1 ++ fs2)
         (mkUsageDB (feed_traffic (s_db s)) (batch_db o packages (package_downloads (s_db s))))
         (s_served s) (s_pulled s) (s_killed s))
(** A replica is killed and started again: what it had counted, and the
    flushes it was at, are gone with it. (A batch the database still commits
    afterwards is one that was committed just before.) *)
| step_kill i r s :
    s_recorders s !! i = Some r ->
    step true s (mkSite (<[i := NewRecorder]> (s_recorders s)) (filter (fun f => owner_of f <> i) (s_flights s)) (s_db s)
      (s_served s) (s_pulled s) ((r, filter (fun f => owner_of f = i) (s_flights s)) :: s_killed s)).

(** Runs of a site with [n] replicas; [ack] when no commit went unacknowledged. *)
Inductive reach (n : nat) : bool -> Site -> Prop :=
| reach_start : reach n true (mkSite (replicate n NewRecorder) [] (mkUsageDB ∅ ∅) ∅ ∅ [])
| reach_step ack b s s' : reach n ack s -> step b s s' -> reach n (ack && b) s'.

(** *** Counters *)

(** The requests, or the bytes, of a counter, a table and a list of deltas. *)
Definition val (b : bool) (c : counter) : Z := if b then c_requests c else c_bytes c.
Definition at_ (b : bool) (k : string * string) (m : counters) : Z := val b (default no_count (m !! k)).
Definition delta_at (b : bool) (k : string * string) (kd : (string * string) * counter) : Z :=
  if decide (kd.1 = k) then val b kd.2 else 0.
Definition zsum {A} (f : A -> Z) (l : list A) : Z := foldr (fun x acc => f x + acc) 0 l.
Definition sum_at (b : bool) (k : string * string) (l : list ((string * string) * counter)) : Z := zsum (delta_at b k) l.

Lemma zsum_cons {A} (f : A -> Z) x l : zsum f (x :: l) = f x + zsum f l.
Proof. done. Qed.
Lemma sum_at_nil b k : sum_at b k [] = 0.
Proof. done. Qed.
Lemma sum_at_cons b k kd l : sum_at b k (kd :: l) = delta_at b k kd + sum_at b k l.
Proof. done. Qed.
Lemma zsum_app {A} (f : A -> Z) l1 l2 : zsum f (l1 ++ l2) = zsum f l1 + zsum f l2.
Proof. induction l1 as [|x l IH]; simpl; [done|]. rewrite IH. lia. Qed.
Lemma zsum_insert {A} (f : A -> Z) l i x y : l !! i = Some x -> zsum f (<[i := y]> l) = zsum f l - f x + f y.
Proof.
  revert i. induction l as [|z l IH]; intros [|i] Hi; simplify_eq/=; [lia|]. rewrite (IH i Hi). lia.
Qed.
Lemma zsum_perm {A} (f : A -> Z) l l' : l ≡ₚ l' -> zsum f l = zsum f l'.
Proof. induction 1; simpl in *; lia. Qed.
Lemma zsum_replicate {A} (f : A -> Z) n x : f x = 0 -> zsum f (replicate n x) = 0.
Proof. intros Hx. induction n as [|n IH]; simpl; [done|]. by rewrite IH, Hx. Qed.

Lemma zsum_split {A} (f : A -> Z) (g : A -> nat) i l :
  zsum f l = zsum f (filter (fun x => g x <> i) l) + zsum f (filter (fun x => g x = i) l).
Proof.
  induction l as [|x l IH]; [done|]. rewrite !filter_cons.
  destruct (decide (g x = i)), (decide (g x <> i)); simpl; try tauto; lia.
Qed.

Arguments zsum : simpl never.
Arguments sum_at : simpl never.

Lemma val_plus b x y : val b (plus_count x y) = val b x + val b y.
Proof. by destruct b. Qed.

Lemma at_bump b k kd m : at_ b k (bump kd.1 kd.2 m) = at_ b k m + delta_at b k kd.
Proof.
  unfold at_, bump, delta_at. case_decide as Hk.
  - subst. rewrite lookup_insert_eq. simpl. apply val_plus.
  - rewrite lookup_insert_ne by done. lia.
Qed.

Lemma at_add_rows b k l t : at_ b k (add_rows l t) = at_ b k t + sum_at b k l.
Proof.
  revert t. induction l as [|kd l IH]; intros t; [rewrite sum_at_nil; simpl; lia|].
  unfold add_rows in IH |- *. simpl. rewrite IH, at_bump, sum_at_cons. lia.
Qed.

Lemma sum_at_map (b : bool) (k : string * string) (m : counters) : sum_at b k (map_to_list m) = at_ b k m.
Proof.
  induction m as [|i x m Hi IH] using map_ind; [by rewrite map_to_list_empty; destruct b|].
  assert (sum_at b k (map_to_list (<[i := x]> m)) = sum_at b k ((i, x) :: map_to_list m)) as ->.
  { apply zsum_perm. by apply map_to_list_insert. }
  rewrite sum_at_cons, IH. unfold at_, delta_at. simpl. case_decide as Hk.
  - subst. rewrite lookup_insert_eq, Hi. simpl. destruct b; simpl; lia.
  - by rewrite lookup_insert_ne.
Qed.

(** *** What a site holds *)

Definition flight_traffic (f : flight) : list ((string * string) * counter) :=
  match f with TookFeeds _ d | Taken _ d _ => d | TrafficDone _ _ => [] end.
Definition flight_packages (f : flight) : list ((string * string) * counter) :=
  match f with TookFeeds _ _ => [] | Taken _ _ p | TrafficDone _ p => p end.

Definition total_traffic (b : bool) (k : string * string) (s : Site) : Z :=
  zsum (fun r => at_ b k (r_feeds r)) (s_recorders s)
  + zsum (fun f => sum_at b k (flight_traffic f)) (s_flights s) + at_ b k (feed_traffic (s_db s)).
(** What the killed replicas held. *)
Definition lost_traffic (b : bool) (k : string * string) (s : Site) : Z :=
  zsum (fun rf => at_ b k (r_feeds rf.1) + zsum (fun f => sum_at b k (flight_traffic f)) rf.2) (s_killed s).
Definition total_packages (b : bool) (k : string * string) (s : Site) : Z :=
  zsum (fun r => at_ b k (r_packages r)) (s_recorders s)
  + zsum (fun f => sum_at b k (flight_packages f)) (s_flights s) + at_ b k (package_downloads (s_db s)).

(** Deltas never count down. *)
Definition positive (l : list ((string * string) * counter)) : Prop := Forall (fun kd => forall b, 0 <= val b kd.2) l.
Definition positive_map (m : counters) : Prop := map_Forall (fun _ c => forall b, 0 <= val b c) m.
Definition site_positive (s : Site) : Prop :=
  Forall (fun r => positive_map (r_feeds r) /\ positive_map (r_packages r)
                   /\ (size (r_packages r) <= maxTrackedPackages)%nat) (s_recorders s)
  /\ Forall (fun f => positive (flight_traffic f) /\ positive (flight_packages f)) (s_flights s).

Lemma positive_list (m : counters) : positive_map m -> positive (map_to_list m).
Proof.
  intros Hm. apply Forall_forall. intros [k c] Hk. apply elem_of_map_to_list in Hk. by apply (Hm k c Hk).
Qed.
Lemma zsum_nonneg {A} (f : A -> Z) l : Forall (fun x => 0 <= f x) l -> 0 <= zsum f l.
Proof. induction 1 as [|x l Hx Hl IH]; [done|]. rewrite zsum_cons. lia. Qed.
Lemma positive_at b k m : positive_map m -> 0 <= at_ b k m.
Proof. intros Hm. unfold at_. destruct (m !! k) as [c|] eqn:E; simpl; [by apply (Hm k c E)|by destruct b]. Qed.
Lemma positive_sum b k l : positive l -> 0 <= sum_at b k l.
Proof.
  induction 1 as [|kd l Hd Hl IH]; [done|]. rewrite sum_at_cons. unfold delta_at.
  case_decide; [specialize (Hd b)|]; lia.
Qed.
Lemma positive_bump k d m : positive_map m -> (forall b, 0 <= val b d) -> positive_map (bump k d m).
Proof.
  intros Hm Hd. apply map_Forall_insert_2; [|done]. intros b. rewrite val_plus.
  specialize (Hd b). destruct (m !! k) as [c|] eqn:E; simpl; [specialize (Hm k c E b); simpl in Hm; lia|].
  destruct b; simpl in *; lia.
Qed.
Lemma positive_bump_package k d m : positive_map m -> (forall b, 0 <= val b d) -> positive_map (bump_package k d m).
Proof. intros Hm Hd. unfold bump_package. destruct (m !! k); [|case_decide; [done|]]; by apply positive_bump. Qed.

Lemma size_empty_le : (size (∅ : counters) <= maxTrackedPackages)%nat.
Proof. rewrite map_size_empty. lia. Qed.
Lemma size_bump_package k d m :
  (size m <= maxTrackedPackages)%nat -> (size (bump_package k d m) <= maxTrackedPackages)%nat.
Proof.
  intros Hm. unfold bump_package, bump. destruct (m !! k) as [c|] eqn:E.
  - rewrite map_size_insert_Some by eauto. done.
  - case_decide; [done|]. rewrite map_size_insert_None by done. lia.
Qed.

Lemma at_bump_package b k kd m :
  (forall b, 0 <= val b kd.2) ->
  at_ b k m <= at_ b k (bump_package kd.1 kd.2 m) <= at_ b k m + delta_at b k kd.
Proof.
  intros Hd. assert (0 <= delta_at b k kd) by (unfold delta_at; case_decide; [apply Hd|done]).
  unfold bump_package. destruct (m !! kd.1); [|case_decide; [lia|]]; rewrite at_bump; lia.
Qed.

(** Restoring deltas. *)
Lemma restore_feeds b k l r : at_ b k (r_feeds (restore l r)) = at_ b k (r_feeds r) + sum_at b k l.
Proof.
  unfold restore. revert r. induction l as [|kd l IH]; intros r; [rewrite sum_at_nil; simpl; lia|].
  simpl. rewrite IH. simpl. rewrite at_bump, sum_at_cons. lia.
Qed.
Lemma restore_packages l r : r_packages (restore l r) = r_packages r.
Proof. unfold restore. revert r. induction l as [|kd l IH]; intros r; simpl; [done|]. by rewrite IH. Qed.
Lemma restore_positive l r : positive l -> positive_map (r_feeds r) -> positive_map (r_feeds (restore l r)).
Proof.
  unfold restore. intros Hl. revert r. induction Hl as [|kd l Hd Hl IH]; intros r Hr; [done|].
  simpl. apply IH. by apply positive_bump.
Qed.
Lemma restorePackages_ok l m :
  positive l -> positive_map m -> (size m <= maxTrackedPackages)%nat ->
  let m' := foldl (fun m kd => bump_package kd.1 kd.2 m) m l in
  positive_map m' /\ (size m' <= maxTrackedPackages)%nat
  /\ forall b k, at_ b k m <= at_ b k m' <= at_ b k m + sum_at b k l.
Proof.
  intros Hl. revert m. induction Hl as [|kd l Hd Hl IH]; intros m Hm Hs.
  { simpl. split; [done|]. split; [done|]. intros b k. rewrite sum_at_nil. lia. }
  destruct (IH (bump_package kd.1 kd.2 m)) as (H1 & H2 & H3);
    [by apply positive_bump_package|by apply size_bump_package|].
  split; [done|]. split; [done|]. intros b k. specialize (H3 b k). pose proof (at_bump_package b k kd m Hd).
  rewrite sum_at_cons. simpl in *. lia.
Qed.

(** Recording an event. *)
Definition event_at (b : bool) (k : string * string) (x : option ((string * string) * counter)) : Z :=
  match x with Some kd => delta_at b k kd | None => 0 end.
Lemma tally_at b k x m : at_ b k (tally_event x m) = at_ b k m + event_at b k x.
Proof. destruct x as [[k' d]|]; simpl; [apply (at_bump b k (k', d))|lia]. Qed.

Lemma record_ok e r :
  positive_map (r_feeds r) -> positive_map (r_packages r) -> (size (r_packages r) <= maxTrackedPackages)%nat ->
  positive_map (r_feeds (record e r)) /\ positive_map (r_packages (record e r))
  /\ (size (r_packages (record e r)) <= maxTrackedPackages)%nat
  /\ (forall b k, at_ b k (r_feeds (record e r)) = at_ b k (r_feeds r) + event_at b k (event_traffic e))
  /\ (forall b k, at_ b k (r_packages r) <= at_ b k (r_packages (record e r))
                   <= at_ b k (r_packages r) + event_at b k (event_package e)).
Proof.
  intros Hf Hp Hs. destruct e as [feed source co z|feed z]; simpl.
  - unfold Served. destruct (decide (feed = "")) as [->|Hne].
    { rewrite decide_True by tauto. split_and!; auto; intros; simpl; lia. }
    assert (forall b, 0 <= val b (mkCounter 1 (Z.max 0 z))) as Hd by (intros []; simpl; lia).
    unfold addPackage. destruct (decide (co = "")) as [->|Hco]; simpl.
    + rewrite decide_True by tauto. split_and!; auto; try by apply positive_bump.
      all: intros b k; first [apply (at_bump b k (_, _))|simpl; lia].
    + rewrite decide_False by tauto. split_and!; [by apply positive_bump|by apply positive_bump_package|by apply size_bump_package|..].
      all: intros b k; first [apply (at_bump b k (_, _))|by apply (at_bump_package b k (_, _))].
  - unfold Ingested. case_decide; simpl; [split_and!; auto; intros; simpl; lia|].
    split_and!; auto; [apply positive_bump; [done|intros []; simpl; lia]| |].
    all: intros b k; first [apply (at_bump b k (_, _))|simpl; lia].
Qed.

(** *** One step *)

Lemma step_ok ack s s' :
  step ack s s' -> site_positive s ->
  site_positive s' /\
  (forall b k, let drift s := total_traffic b k s + lost_traffic b k s - at_ b k (s_served s) in
     drift s <= drift s' /\ (ack = true -> drift s' = drift s)) /\
  (forall b k, ack = true ->
     total_packages b k s' - at_ b k (s_pulled s') <= total_packages b k s - at_ b k (s_pulled s)).
Proof.
  intros Hstep [Hrec Hfl].
  destruct Hstep as [i r e s Hi|i r s Hi|i r deltas fs1 fs2 s Hf Hi|i r deltas packages fs1 fs2 o s Hf Hi
    |i r packages fs1 fs2 o s Hf Hi|i r s Hi]; pose proof (Forall_lookup_1 _ _ _ _ Hrec Hi) as (Hr1 & Hr2 & Hr3).
  - destruct (record_ok e r Hr1 Hr2 Hr3) as (H1 & H2 & H3 & H4 & H5).
    split; [split; [by apply Forall_insert|done]|]. split; intros b k; simpl.
    + unfold total_traffic, lost_traffic. simpl. rewrite (zsum_insert _ _ _ _ _ Hi), tally_at, H4. split; [lia|]. intros _. lia.
    + intros _. unfold total_packages. simpl. rewrite (zsum_insert _ _ _ _ _ Hi), tally_at. specialize (H5 b k). lia.
  - split; [split; [apply Forall_insert; [done|split; [apply map_Forall_empty|done]]|]|].
    { constructor; [split; [by apply positive_list|constructor]|done]. }
    split; intros b k; simpl.
    + unfold total_traffic, lost_traffic. simpl. rewrite (zsum_insert _ _ _ _ _ Hi), zsum_cons. simpl. rewrite sum_at_map.
      assert (at_ b k ∅ = 0) as -> by by destruct b. split; [lia|]. intros _. lia.
    + intros _. unfold total_packages. simpl. rewrite (zsum_insert _ _ _ _ _ Hi), zsum_cons. simpl. rewrite sum_at_nil. lia.
  - rewrite Hf in Hfl. apply Forall_app in Hfl as [Hfl1 [Hfl0 Hfl2]%Forall_cons].
    split; [split; [apply Forall_insert; [done|split_and!; [done|apply map_Forall_empty|exact size_empty_le]]|]|].
    { apply Forall_app. split; [done|]. constructor; [|done]. split; [apply Hfl0|by apply positive_list]. }
    split; intros b k; simpl.
    + unfold total_traffic, lost_traffic. simpl. rewrite (zsum_insert _ _ _ _ _ Hi), Hf, !zsum_app, !zsum_cons. simpl.
      split; [lia|]. intros _. lia.
    + intros _. unfold total_packages. simpl. rewrite (zsum_insert _ _ _ _ _ Hi), Hf, !zsum_app, !zsum_cons. simpl.
      rewrite sum_at_map, sum_at_nil. assert (at_ b k ∅ = 0) as -> by by destruct b. lia.
  - rewrite Hf in Hfl. apply Forall_app in Hfl as [Hfl1 [[Hd Hp] Hfl2]%Forall_cons].
    pose proof (restorePackages_ok packages (r_packages (restore deltas r)) Hp) as HR. rewrite restore_packages in HR.
    destruct (HR Hr2 Hr3) as (H1 & H2 & H3).
    assert (forall b k, 0 <= sum_at b k deltas) as Hpos by (intros; by apply positive_sum).
    assert (forall b k, at_ b k (batch_db o deltas (feed_traffic (s_db s)))
      = at_ b k (feed_traffic (s_db s)) + (if decide (o = Failed) then 0 else sum_at b k deltas)) as Hdb.
    { intros b k. destruct o; simpl; rewrite ?at_add_rows; lia. }
    assert (forall b k, at_ b k (r_feeds (restorePackages packages (restore deltas r)))
      = at_ b k (r_feeds r) + sum_at b k deltas) as Hback by (intros; apply restore_feeds).
    split; [|split; intros b k; unfold total_traffic, lost_traffic, total_packages; simpl; rewrite ?Hdb, Hf].
    + destruct o; (split; [|apply Forall_app; split; [done|]]); simpl; try done.
      * constructor; [split; [constructor|done]|done].
      * apply Forall_insert; [done|]. split_and!; [by apply restore_positive|..]; simpl; by rewrite restore_packages.
      * apply Forall_insert; [done|]. split_and!; [by apply restore_positive|..]; simpl; by rewrite restore_packages.
    + specialize (Hpos b k). destruct o; simpl; rewrite ?(zsum_insert _ _ _ _ _ Hi), ?Hback, !zsum_app, ?zsum_cons;
        simpl; rewrite ?sum_at_nil; (split; [lia|]); intros Ha; try lia; by apply bool_decide_eq_true in Ha.
    + intros Ha. specialize (H3 b k). destruct o; simpl; rewrite ?(zsum_insert _ _ _ _ _ Hi), !zsum_app, ?zsum_cons;
        simpl; rewrite ?restore_packages; try lia; by apply bool_decide_eq_true in Ha.
  - rewrite Hf in Hfl. apply Forall_app in Hfl as [Hfl1 [[Hd Hp] Hfl2]%Forall_cons].
    destruct (restorePackages_ok packages (r_packages r) Hp Hr2 Hr3) as (H1 & H2 & H3).
    split; [|split; intros b k; unfold total_traffic, lost_traffic, total_packages; simpl; rewrite Hf].
    + split; [|by apply Forall_app]. destruct o; simpl; [done|..]; by apply Forall_insert.
    + destruct o; simpl; rewrite ?(zsum_insert _ _ _ _ _ Hi), !zsum_app, ?zsum_cons; simpl; rewrite ?sum_at_nil;
        (split; [lia|]); intros Ha; lia.
    + intros Ha. specialize (H3 b k). destruct o; simpl; rewrite ?(zsum_insert _ _ _ _ _ Hi), !zsum_app, ?zsum_cons;
        simpl; rewrite ?at_add_rows; try lia; by apply bool_decide_eq_true in Ha.
  - assert (forall b k, at_ b k ∅ = 0) as H0 by by intros [].
    split; [split; [apply Forall_insert; [done|split_and!; [apply map_Forall_empty..|exact size_empty_le]]|]|].
    { apply Forall_forall. intros f [_ Hin]%list_elem_of_filter. by apply (proj1 (Forall_forall _ _) Hfl f). }
    split; intros b k; simpl.
    + unfold total_traffic, lost_traffic. simpl. rewrite (zsum_insert _ _ _ _ _ Hi), zsum_cons. simpl. rewrite H0.
      rewrite (zsum_split _ owner_of i (s_flights s)). split; [lia|]. intros _. lia.
    + intros _. unfold total_packages. simpl. rewrite (zsum_insert _ _ _ _ _ Hi). simpl. rewrite H0.
      rewrite (zsum_split _ owner_of i (s_flights s)).
      assert (0 <= zsum (fun f => sum_at b k (flight_packages f)) (filter (fun f => owner_of f = i) (s_flights s))).
      { apply zsum_nonneg, Forall_forall. intros f [_ Hin]%list_elem_of_filter. apply positive_sum.
        by apply (proj1 (Forall_forall _ _) Hfl f). }
      pose proof (positive_at b k _ Hr2). lia.
Qed.

Lemma reach_ok n ack s :
  reach n ack s -> site_positive s /\
  (forall b k, at_ b k (s_served s) <= total_traffic b k s + lost_traffic b k s) /\
  (ack = true -> forall b k, total_traffic b k s + lost_traffic b k s = at_ b k (s_served s)
                             /\ total_packages b k s <= at_ b k (s_pulled s)).
Proof.
  induction 1 as [|ack b s s' Hr (IHp & IHt & IHe) Hs].
  - assert (forall b k, at_ b k ∅ = 0) as H0 by by intros [].
    split; [split; [|constructor]|].
    { apply Forall_replicate. split_and!; [apply map_Forall_empty..|exact size_empty_le]. }
    unfold total_traffic, lost_traffic, total_packages. simpl. split; [intros b k|intros _ b k];
      rewrite ?zsum_replicate by apply H0; rewrite !H0; unfold zsum; simpl; lia.
  - destruct (step_ok b s s' Hs IHp) as (Hp & Ht & Hk). split; [done|]. split.
    + intros c k. specialize (Ht c k) as [Ht _]. specialize (IHt c k). simpl in Ht. lia.
    + intros [-> ->]%andb_prop c k. specialize (Ht c k) as [_ Ht]. specialize (Ht eq_refl).
      specialize (Hk c k eq_refl). destruct (IHe eq_refl c k) as [H1 H2]. simpl in Ht. lia.
Qed.

(** C39. Traffic is counted exactly once, but for what a killed replica held.
    However replicas record, flush, fail, retry and are killed, as long as no
    commit is reported as a failure, what is in the database, in the recorders
    and on its way, with what killed replicas held, adds up to what was served;
    and no coordinate has more downloads than it had. When a commit is
    reported as a failure the sum is never short, but may count twice. The
    table of coordinates in memory stays within its bound in every case. *)
Theorem traffic_conserved n ack s :
  reach n ack s ->
  Forall (fun r => (size (r_packages r) <= maxTrackedPackages)%nat) (s_recorders s)
  /\ (forall b k, at_ b k (s_served s) <= total_traffic b k s + lost_traffic b k s)
  /\ (ack = true -> forall b k, total_traffic b k s + lost_traffic b k s = at_ b k (s_served s)
                                 /\ at_ b k (package_downloads (s_db s)) <= at_ b k (s_pulled s)).
Proof.
  intros Hr. destruct (reach_ok n ack s Hr) as ([Hrec Hfl] & Ht & He).
  split; [eapply Forall_impl; [exact Hrec|]; by intros r (_ & _ & H)|]. split; [done|].
  intros Hack b k. destruct (He Hack b k) as [H1 H2]. split; [done|]. unfold total_packages in H2.
  assert (0 <= zsum (fun r => at_ b k (r_packages r)) (s_recorders s)) as Hr0.
  { apply zsum_nonneg. eapply Forall_impl; [exact Hrec|]. intros r (_ & Hp & _). by apply positive_at. }
  assert (0 <= zsum (fun f => sum_at b k (flight_packages f)) (s_flights s)) as Hf0.
  { apply zsum_nonneg. eapply Forall_impl; [exact Hfl|]. intros f [_ Hp]. by apply positive_sum. }
  lia.
Qed.

(** One of two replicas serves, and its flush ends as [o] says; the other
    serves too, and is killed. *)
Definition demo_trace (o : outcome) : Site :=
  let r1 := record (EvServed "npm" "cache" "lib@1" 10) NewRecorder in
  let d := map_to_list (r_feeds r1) in let p := map_to_list (r_packages r1) in
  mkSite [restorePackages p (restore d NewRecorder); NewRecorder] []
    (mkUsageDB (batch_db o d ∅) ∅) {[ ("npm", "cache") := mkCounter 2 20 ]} {[ ("npm", "lib@1") := mkCounter 2 20 ]}
    [(r1, [])].

Lemma reach_step_to n ack b s s' t : reach n ack s -> step b s s' -> s' = t -> reach n (ack && b) t.
Proof. intros Hr Hs <-. by eapply reach_step. Qed.

Lemma demo_reach o : o <> Written -> reach 2 (bool_decide (o <> Unacknowledged)) (demo_trace o).
Proof.
  intros Ho. set (e := EvServed "npm" "cache" "lib@1" 10). set (c := mkCounter 1 10).
  set (f := {[ ("npm", "cache") := c ]} : counters). set (p := {[ ("npm", "lib@1") := c ]} : counters).
  set (r1 := mkRecorder f p). set (d0 := mkUsageDB ∅ ∅).
  assert (reach 2 true (mkSite [r1; NewRecorder] [] d0 f p [])) as H.
  { eapply (reach_step_to 2 true true); [apply reach_start|by apply (step_record 0 NewRecorder e)|by vm_compute]. }
  eapply (reach_step_to _ _ _ _ _ (mkSite [r1; r1] [] d0 (s_served (demo_trace o)) (s_pulled (demo_trace o)) [])) in H;
    [|by apply (step_record 1 NewRecorder e)|by vm_compute].
  eapply reach_step in H; [|by apply (step_take 0 r1)].
  eapply reach_step in H; [|by apply (step_kill 1 r1)].
  eapply reach_step in H; [|by apply (step_take_packages 0 (mkRecorder ∅ p) (map_to_list f) [] [])].
  eapply (reach_step_to _ _ _ _ _ (demo_trace o)) in H;
    [exact H|by apply (step_traffic 0 NewRecorder (map_to_list f) (map_to_list p) [] [] o)|].
  destruct o; [done|by vm_compute..].
Qed.

Lemma traffic_conserved_witness :
  total_traffic true ("npm", "cache") (demo_trace Failed) = 1
  /\ lost_traffic true ("npm", "cache") (demo_trace Failed) = 1.
Proof.
  split; [|reflexivity].
  destruct (traffic_conserved 2 true (demo_trace Failed)) as (_ & _ & H);
    [apply (demo_reach Failed); discriminate|].
  destruct (H eq_refl true ("npm", "cache")) as [H1 _].
  change (lost_traffic true ("npm", "cache") (demo_trace Failed)) with 1 in H1.
  change (at_ true ("npm", "cache") (s_served (demo_trace Failed))) with 2 in H1. lia.
Defined.

(** A batch that was committed but not acknowledged is sent again: its request
    is counted twice. *)
Theorem unacknowledged_flush_doubles :
  reach 2 false (demo_trace Unacknowledged)
  /\ total_traffic true ("npm", "cache") (demo_trace Unacknowledged) = 2
  /\ lost_traffic true ("npm", "cache") (demo_trace Unacknowledged) = 1
  /\ at_ true ("npm", "cache") (s_served (demo_trace Unacknowledged)) = 2.
Proof. split; [by apply (demo_reach Unacknowledged)|]. vm_compute. split_and!; reflexivity. Qed.

(** ** The scanner *)

(** What a scan counts: a hosted row, or a manifest the database knows nothing of. *)
Record entry := mkEntry {
  e_feed : string; e_path : string; e_sha : string; e_size : Z; e_coord : string; e_at : Z; e_hosted : bool;
}.

Record feedTally := mkTally {
  ft_hostedArtifacts : Z; ft_cachedArtifacts : Z; ft_hostedBytes : Z; ft_cachedBytes : Z; ft_shared : Z;
  ft_hostedCoords : gset string; ft_cachedCoords : gset string; ft_lastIngest : Z;
}.
Definition newTally : feedTally := mkTally 0 0 0 0 0 ∅ ∅ 0.

Record Feed := mkFeed { fd_name : string; fd_format : string; fd_group : bool }.

Record blobRef := mkRef { br_size : Z; br_feeds : gset string }.

Definition with_coord (coord : string) (s : gset string) : gset string :=
  if decide (coord = "") then s else {[ coord ]} ∪ s.

(** One artifact in a feed's tally, with [seen]. *)
Definition tick (e : entry) (t : feedTally) : feedTally :=
  let last := Z.max (ft_lastIngest t) (e_at e) in
  if e_hosted e
  then mkTally (ft_hostedArtifacts t + 1) (ft_cachedArtifacts t) (ft_hostedBytes t + e_size e) (ft_cachedBytes t)
         (ft_shared t) (with_coord (e_coord e) (ft_hostedCoords t)) (ft_cachedCoords t) last
  else mkTally (ft_hostedArtifacts t) (ft_cachedArtifacts t + 1) (ft_hostedBytes t) (ft_cachedBytes t + e_size e)
         (ft_shared t) (ft_hostedCoords t) (with_coord (e_coord e) (ft_cachedCoords t)) last.

(** [reference]. *)
Definition reference (sha : string) (sz : Z) (feed : string) (blobs : gmap string blobRef) : gmap string blobRef :=
  if decide (sha = "") then blobs
  else match blobs !! sha with
       | Some ref => <[sha := mkRef (br_size ref) ({[ feed ]} ∪ br_feeds ref)]> blobs
       | None => <[sha := mkRef sz {[ feed ]}]> blobs
       end.

Notation progress := (gmap string feedTally * gmap string blobRef)%type.

Definition count_entry (e : entry) (p : progress) : progress :=
  match p.1 !! e_feed e with
  | None => p
  | Some t => (<[e_feed e := tick e t]> p.1, reference (e_sha e) (e_size e) (e_feed e) p.2)
  end.

Section scanner.
Context (published_at : string * string -> Z).
(** The manifests as the walk reads them: [None] for an unreadable one. *)
Context (readManifest : string -> option manifest).

Definition row_entry (row : string * string * HostedRow) : entry :=
  mkEntry row.1.1 row.1.2 (h_sha256 row.2) (h_size row.2) (h_coordinate row.2) (published_at row.1) true.

(** [countHosted]: the rows, and the manifest keys they own. *)
Definition countHosted (rows : list (string * string * HostedRow)) (p : progress) : progress * gset string :=
  foldl (fun acc row => (count_entry (row_entry row) acc.1, {[ row.1.1 +:+ "/" +:+ row.1.2 ]} ∪ acc.2)) (p, ∅) rows.

(** One key of the walk. *)
Definition cached_entry (owned : gset string) (configured : string -> bool) (key : string) : option entry :=
  match Cut (trim_prefix key "manifests/") "/" with
  | None => None
  | Some (feed, path) =>
      if decide (feed +:+ "/" +:+ path ∈ owned) then None
      else if negb (configured feed) then None
      else match readManifest key with
           | None => None
           | Some m => Some (mkEntry feed path (m_sha256 m) (m_size m) (m_coordinate m) (m_ingested m)
                               (bool_decide (m_origin m = "publish")))
           end
  end.

(** [countCached]. *)
Definition countCached (keys : list string) (owned : gset string) (p : progress) : progress :=
  foldl (fun p key => match cached_entry owned (fun f => bool_decide (is_Some (p.1 !! f))) key with
                      | Some e => count_entry e p
                      | None => p
                      end) p keys.

(** The sharing, and the site's total. *)
Definition share (ref : blobRef) (t : gmap string feedTally) : gmap string feedTally :=
  if decide (size (br_feeds ref) < 2)%nat then t
  else map_imap (fun feed f => Some (if decide (feed ∈ br_feeds ref)
         then mkTally (ft_hostedArtifacts f) (ft_cachedArtifacts f) (ft_hostedBytes f) (ft_cachedBytes f)
                (ft_shared f + br_size ref) (ft_hostedCoords f) (ft_cachedCoords f) (ft_lastIngest f)
         else f)) t.

(** [compute] over the leaf feeds: tallies, distinct blobs and their bytes. *)
Definition compute_leaves (feeds : list string) (rows : list (string * string * HostedRow)) (keys : list string)
  : gmap string feedTally * (Z * Z) :=
  let start : gmap string feedTally := list_to_map (map (fun f => (f, newTally)) feeds) in
  let '(p, owned) := countHosted rows (start, ∅) in
  let '(t, blobs) := countCached keys owned p in
  (foldr (fun kv t => share kv.2 t) t (map_to_list blobs),
   (Z.of_nat (size blobs), zsum (fun kv => br_size kv.2) (map_to_list blobs))).

(** [compute]: a group stores nothing of its own. *)
Definition leaves (feeds : list Feed) : list string := map fd_name (filter (fun f => fd_group f = false) feeds).
Definition compute (feeds : list Feed) (rows : list (string * string * HostedRow)) (keys : list string)
  : gmap string feedTally * (Z * Z) := compute_leaves (leaves feeds) rows keys.

(** *** Counting, by entries *)

Definition in_feed (f : string) (es : list entry) : list entry := filter (fun e => e_feed e = f) es.

Lemma count_entry_dom e p f : is_Some ((count_entry e p).1 !! f) <-> is_Some (p.1 !! f).
Proof.
  unfold count_entry. destruct (p.1 !! e_feed e) as [t|] eqn:E; [|done]. simpl.
  destruct (decide (f = e_feed e)) as [->|Hf]; [rewrite lookup_insert_eq, E|rewrite lookup_insert_ne by done]; split; eauto.
Qed.
Definition count_all (es : list entry) (p : progress) : progress := foldl (fun p e => count_entry e p) p es.
Lemma count_all_dom es p f : is_Some ((count_all es p).1 !! f) <-> is_Some (p.1 !! f).
Proof.
  unfold count_all. revert p. induction es as [|e es IH]; intros p; [done|]. simpl. by rewrite IH, count_entry_dom.
Qed.

Lemma countHosted_entries rows p :
  countHosted rows p = (count_all (map row_entry rows) p, list_to_set (map (fun row => row.1.1 +:+ "/" +:+ row.1.2) (rev rows))).
Proof.
  unfold countHosted, count_all.
  assert (forall q (o : gset string), foldl (fun acc row => (count_entry (row_entry row) acc.1,
      {[ row.1.1 +:+ "/" +:+ row.1.2 ]} ∪ acc.2)) (q, o) rows
    = (foldl (fun p e => count_entry e p) q (map row_entry rows),
       list_to_set (map (fun row => row.1.1 +:+ "/" +:+ row.1.2) (rev rows)) ∪ o)) as H.
  { induction rows as [|row rows IH]; intros q o; simpl; [by rewrite union_empty_l_L|].
    rewrite IH. f_equal. rewrite map_app, list_to_set_app_L. simpl. set_solver. }
  rewrite H. f_equal. apply union_empty_r_L.
Qed.

Lemma countCached_entries keys owned p :
  countCached keys owned p =
    count_all (omap (cached_entry owned (fun f => bool_decide (is_Some (p.1 !! f)))) keys) p.
Proof.
  unfold countCached, count_all.
  assert (forall cfg q, (forall f, cfg f = bool_decide (is_Some (q.1 !! f))) ->
    foldl (fun p key => match cached_entry owned (fun f => bool_decide (is_Some (p.1 !! f))) key with
                        | Some e => count_entry e p | None => p end) q keys
    = foldl (fun p e => count_entry e p) q (omap (cached_entry owned cfg) keys)) as H; [|by apply H].
  induction keys as [|k keys IH]; intros cfg q Hq; [done|]. simpl.
  assert (cached_entry owned (fun f => bool_decide (is_Some (q.1 !! f))) k = cached_entry owned cfg k) as ->.
  { unfold cached_entry. destruct (Cut _ _) as [[feed path]|]; [|done]. by rewrite Hq. }
  destruct (cached_entry owned cfg k) as [e|]; simpl; [|by apply IH]. apply IH. intros f. rewrite Hq.
  apply bool_decide_ext. by rewrite count_entry_dom.
Qed.

Lemma count_all_tally es p f t :
  p.1 !! f = Some t -> (count_all es p).1 !! f = Some (foldl (fun t e => tick e t) t (in_feed f es)).
Proof.
  unfold count_all, in_feed. revert p t. induction es as [|e es IH]; intros p t Ht; [done|]. simpl.
  rewrite filter_cons. case_decide as Hf; simpl; apply IH; unfold count_entry; subst.
  - rewrite Ht. simpl. by rewrite lookup_insert_eq.
  - destruct (p.1 !! e_feed e); [|done]. simpl. by rewrite lookup_insert_ne.
Qed.

(** A tally is what its entries add up to. *)
Definition hosted_of (es : list entry) : list entry := filter (fun e => e_hosted e = true) es.
Definition cached_of (es : list entry) : list entry := filter (fun e => e_hosted e = false) es.

Lemma ticks es t :
  let u := foldl (fun t e => tick e t) t es in
  ft_hostedArtifacts u = ft_hostedArtifacts t + Z.of_nat (length (hosted_of es))
  /\ ft_cachedArtifacts u = ft_cachedArtifacts t + Z.of_nat (length (cached_of es))
  /\ ft_hostedBytes u = ft_hostedBytes t + zsum e_size (hosted_of es)
  /\ ft_cachedBytes u = ft_cachedBytes t + zsum e_size (cached_of es)
  /\ ft_shared u = ft_shared t
  /\ (forall c, c ∈ ft_hostedCoords u <-> c ∈ ft_hostedCoords t \/ c <> "" /\ exists e, e ∈ hosted_of es /\ e_coord e = c)
  /\ (forall c, c ∈ ft_cachedCoords u <-> c ∈ ft_cachedCoords t \/ c <> "" /\ exists e, e ∈ cached_of es /\ e_coord e = c).
Proof.
  revert t. induction es as [|e es IH]; intros t.
  { simpl. unfold hosted_of, cached_of, zsum. simpl. split_and!; try lia; intros c; set_solver. }
  cbn [foldl]. destruct (IH (tick e t)) as (H1 & H2 & H3 & H4 & H5 & H6 & H7). cbv zeta in *.
  rewrite H1, H2, H3, H4, H5. setoid_rewrite H6. setoid_rewrite H7. clear IH H1 H2 H3 H4 H5 H6 H7.
  unfold hosted_of, cached_of. rewrite !filter_cons. unfold tick, with_coord. destruct (e_hosted e) eqn:Eh; simpl;
    rewrite ?zsum_cons; (split_and!; [lia..| |]); intros c; repeat case_decide; try set_solver; try lia.
Qed.

(** Sharing changes the shared bytes alone. *)
Definition same_counts (a b : feedTally) : Prop :=
  ft_hostedArtifacts a = ft_hostedArtifacts b /\ ft_cachedArtifacts a = ft_cachedArtifacts b
  /\ ft_hostedBytes a = ft_hostedBytes b /\ ft_cachedBytes a = ft_cachedBytes b
  /\ ft_hostedCoords a = ft_hostedCoords b /\ ft_cachedCoords a = ft_cachedCoords b.
Lemma share_counts refs t f :
  match foldr (fun (kv : string * blobRef) t => share kv.2 t) t refs !! f, t !! f with
  | Some u, Some v => same_counts u v
  | None, None => True
  | _, _ => False
  end.
Proof.
  induction refs as [|[sha ref] refs IH]; simpl.
  { by destruct (t !! f). }
  unfold share at 1. case_decide; [done|]. rewrite map_lookup_imap.
  destruct (foldr _ t refs !! f) as [u|], (t !! f) as [v|]; simpl; try done. by case_decide.
Qed.

(** The digests referenced, and the feeds that hold each. *)
Definition digests (es : list entry) : gset string := list_to_set (filter (fun d => d <> "") (map e_sha es)).
Definition holders (d : string) (es : list entry) : gset string :=
  list_to_set (map e_feed (filter (fun e => e_sha e = d) es)).

Lemma digests_snoc es e :
  digests (es ++ [e]) = if decide (e_sha e = "") then digests es else {[ e_sha e ]} ∪ digests es.
Proof.
  unfold digests. rewrite map_app, filter_app, list_to_set_app_L. simpl. rewrite filter_cons, filter_nil.
  repeat case_decide; set_solver.
Qed.
Lemma holders_snoc d es e :
  holders d (es ++ [e]) = if decide (e_sha e = d) then {[ e_feed e ]} ∪ holders d es else holders d es.
Proof.
  unfold holders. rewrite filter_app, map_app, list_to_set_app_L. simpl. rewrite filter_cons, filter_nil.
  case_decide; set_solver.
Qed.
Lemma holders_fresh d es : d <> "" -> d ∉ digests es -> holders d es = ∅.
Proof.
  unfold digests, holders. intros Hd Hn. induction es as [|e es IH]; [done|]. simpl in *. rewrite filter_cons.
  case_decide as He; [|apply IH; rewrite filter_cons in Hn; case_decide; set_solver].
  exfalso. apply Hn. rewrite filter_cons, decide_True by congruence. set_solver.
Qed.

(** The blobs a scan remembers, when a digest always comes with its size. *)
Lemma count_all_blobs (sz : string -> Z) es t d :
  (forall e, e ∈ es -> is_Some (t !! e_feed e) /\ e_size e = sz (e_sha e)) ->
  (count_all es (t, ∅)).2 !! d
  = if decide (d ∈ digests es) then Some (mkRef (sz d) (holders d es)) else None.
Proof.
  induction es as [|e es IH] using rev_ind; intros Hall; [done|].
  assert (forall e', e' ∈ es -> is_Some (t !! e_feed e') /\ e_size e' = sz (e_sha e')) as Hall'
    by (intros e' He'; apply Hall; set_solver).
  destruct (Hall e) as [Hcfg Hsz]; [set_solver|]. specialize (IH Hall').
  unfold count_all. rewrite foldl_app. fold (count_all es (t, ∅)). simpl. unfold count_entry.
  destruct ((count_all es (t, ∅)).1 !! e_feed e) as [u|] eqn:Eu.
  2: { assert (is_Some ((count_all es (t, ∅)).1 !! e_feed e)) as [? ?] by by apply count_all_dom. congruence. }
  simpl. rewrite digests_snoc, holders_snoc. unfold reference. destruct (decide (e_sha e = "")) as [He|He].
  { rewrite IH. case_decide as Hd; [|done]. rewrite decide_False; [done|].
    intros <-. revert Hd. rewrite He. unfold digests. rewrite elem_of_list_to_set, list_elem_of_filter. tauto. }
  destruct (decide (e_sha e = d)) as [<-|Hne].
  - rewrite (decide_True (P := e_sha e ∈ _ ∪ _)) by set_solver. rewrite IH. case_decide as Hd; simpl.
    + by rewrite lookup_insert_eq.
    + rewrite lookup_insert_eq, holders_fresh, Hsz, union_empty_r_L by done. done.
  - destruct ((count_all es (t, ∅)).2 !! e_sha e); rewrite lookup_insert_ne, IH by done;
      apply decide_ext; rewrite elem_of_union, elem_of_singleton; naive_solver.
Qed.

(** The bytes of a blob go to the shared bytes of every feed that holds it,
    when there are two at least. *)
Lemma share_sum refs t f u v :
  t !! f = Some v -> foldr (fun (kv : string * blobRef) t => share kv.2 t) t refs !! f = Some u ->
  ft_shared u = ft_shared v
    + zsum (fun kv => if decide (2 <= size (br_feeds kv.2) /\ f ∈ br_feeds kv.2)%nat then br_size kv.2 else 0) refs.
Proof.
  intros Hv. revert u. induction refs as [|[sha ref] refs IH]; intros u; simpl.
  { intros Hu. rewrite Hv in Hu. injection Hu as ->. unfold zsum. simpl. lia. }
  rewrite zsum_cons. simpl. unfold share at 1. case_decide as Hs.
  { intros Hu. rewrite (IH _ Hu), decide_False by lia. lia. }
  rewrite map_lookup_imap. destruct (foldr _ t refs !! f) as [w|]; simpl; [|done]. intros [= <-].
  specialize (IH w eq_refl).
  assert (2 <= size (br_feeds ref))%nat by lia. repeat case_decide; simpl; try lia; tauto.
Qed.

(** Entries of feeds that are not configured are skipped. *)
Lemma count_all_configured es p :
  count_all es p = count_all (filter (fun e => is_Some (p.1 !! e_feed e)) es) p.
Proof.
  unfold count_all.
  assert (forall (P : entry -> Prop) `{!forall e, Decision (P e)} q, (forall e, P e <-> is_Some (q.1 !! e_feed e)) ->
    foldl (fun p e => count_entry e p) q es = foldl (fun p e => count_entry e p) q (filter P es)) as H; [|by apply H].
  induction es as [|e es IH]; intros P HP q Hq; [done|]. simpl. rewrite filter_cons. case_decide as Hd; simpl.
  - apply IH. intros e'. by rewrite count_entry_dom.
  - assert (count_entry e q = q) as ->; [|by apply IH]. unfold count_entry.
    destruct (q.1 !! e_feed e) eqn:E; [|done]. exfalso. apply Hd, Hq. rewrite E. eauto.
Qed.

(** What a scan of configured feeds counts. *)
Definition entries (feeds : list string) (rows : list (string * string * HostedRow)) (keys : list string) : list entry :=
  filter (fun e => e_feed e ∈ feeds) (map row_entry rows)
  ++ omap (cached_entry (list_to_set (map (fun row => row.1.1 +:+ "/" +:+ row.1.2) (rev rows)))
             (fun f => bool_decide (f ∈ feeds))) keys.

Lemma start_lookup feeds f :
  (list_to_map (map (fun f => (f, newTally)) feeds) : gmap string feedTally) !! f
  = if decide (f ∈ feeds) then Some newTally else None.
Proof.
  induction feeds as [|g feeds IH]; simpl; [by rewrite lookup_empty|].
  destruct (decide (f = g)) as [->|Hne]; [rewrite lookup_insert_eq, decide_True; set_solver|].
  rewrite lookup_insert_ne, IH by done. repeat case_decide; set_solver.
Qed.

Lemma compute_entries feeds rows keys :
  exists t blobs,
    count_all (entries feeds rows keys) (list_to_map (map (fun f => (f, newTally)) feeds), ∅) = (t, blobs)
    /\ compute_leaves feeds rows keys
       = (foldr (fun kv t => share kv.2 t) t (map_to_list blobs),
          (Z.of_nat (size blobs), zsum (fun kv => br_size kv.2) (map_to_list blobs))).
Proof.
  unfold compute_leaves. rewrite countHosted_entries. set (st := (list_to_map _, ∅)). rewrite countCached_entries.
  set (owned := list_to_set _).
  assert (omap (cached_entry owned (fun f => bool_decide (is_Some ((count_all (map row_entry rows) st).1 !! f)))) keys
    = omap (cached_entry owned (fun f => bool_decide (f ∈ feeds))) keys) as ->.
  { induction keys as [|k keys IH]; [done|]. cbn [omap list_omap]. rewrite IH.
    assert (forall cfg cfg', (forall f, cfg f = cfg' f) -> cached_entry owned cfg k = cached_entry owned cfg' k) as Hext.
    { intros cfg cfg' Hc. unfold cached_entry. destruct (Cut _ _) as [[f0 p0]|]; [|done]. by rewrite Hc. }
    erewrite Hext; [done|]. intros f. apply bool_decide_ext. rewrite count_all_dom. unfold st. simpl.
    rewrite start_lookup. case_decide; naive_solver. }
  assert (count_all (map row_entry rows) st = count_all (filter (fun e => e_feed e ∈ feeds) (map row_entry rows)) st) as ->.
  { rewrite count_all_configured. f_equal. apply list_filter_iff. intros e. unfold st. simpl. rewrite start_lookup.
    case_decide; naive_solver. }
  unfold entries, count_all. rewrite foldl_app. fold owned.
  destruct (foldl _ (foldl _ st _) _) as [t blobs] eqn:E. by exists t, blobs.
Qed.
(** What the sum over the remembered blobs is, over digests. *)
Lemma blobs_sum (sz : string -> Z) es (blobs : gmap string blobRef) (g : string -> blobRef -> Z) :
  (forall d, blobs !! d = if decide (d ∈ digests es) then Some (mkRef (sz d) (holders d es)) else None) ->
  zsum (fun kv => g kv.1 kv.2) (map_to_list blobs)
  = zsum (fun d => g d (mkRef (sz d) (holders d es))) (elements (digests es))
  /\ size blobs = size (digests es).
Proof.
  intros Hb. assert (dom blobs = digests es) as Hdom.
  { apply set_eq. intros d. rewrite elem_of_dom, Hb. case_decide; naive_solver. }
  split; [|by rewrite <-Hdom, size_dom].
  assert (map_to_list blobs ≡ₚ map (fun d => (d, mkRef (sz d) (holders d es))) (elements (digests es))) as Hp.
  { apply NoDup_Permutation; [apply NoDup_map_to_list|apply NoDup_fmap_2; [by intros ?? [= ->]|apply NoDup_elements]|].
    intros [d ref]. rewrite elem_of_map_to_list, Hb, list_elem_of_fmap. setoid_rewrite elem_of_elements.
    case_decide; naive_solver. }
  rewrite (zsum_perm _ _ _ Hp). clear. induction (elements _) as [|d l IH]; [done|]. simpl. by rewrite !zsum_cons, IH.
Qed.

Lemma entries_configured feeds rows keys e : e ∈ entries feeds rows keys -> e_feed e ∈ feeds.
Proof.
  unfold entries. rewrite elem_of_app, list_elem_of_filter, list_elem_of_omap. intros [[? _]|(k & _ & Hk)]; [done|].
  revert Hk. unfold cached_entry. destruct (Cut _ _) as [[f p]|]; [|done]. case_decide; [done|].
  case_bool_decide; simpl; [|done]. destruct (readManifest k); [|done]. by intros [= <-].
Qed.

(** A path the database knows is never counted from the store. *)
Lemma entries_database feeds rows keys e row :
  e ∈ entries feeds rows keys -> row ∈ rows -> row.1 = (e_feed e, e_path e) ->
  exists row', row' ∈ rows /\ e = row_entry row'.
Proof.
  unfold entries. rewrite elem_of_app, list_elem_of_filter, list_elem_of_omap.
  intros [[_ He]|(k & _ & Hk)] Hrow Hp; [apply list_elem_of_fmap in He as (row' & -> & ?); eauto|exfalso].
  revert Hk. unfold cached_entry. destruct (Cut _ _) as [[f p]|]; [|done]. case_decide as Hn; [done|].
  destruct (negb _); [done|]. destruct (readManifest k); [|done]. intros [= <-]. simpl in Hp. apply Hn.
  apply elem_of_list_to_set, list_elem_of_fmap. exists row. rewrite Hp. split; [done|].
  by rewrite list_elem_of_In, <-in_rev, <-list_elem_of_In.
Qed.

(** The bytes of a feed's entries that another feed holds too. *)
Definition shared_with_others (sz : string -> Z) (f : string) (es : list entry) : Z :=
  zsum (fun d => if decide (2 <= size (holders d es) /\ f ∈ holders d es)%nat then sz d else 0) (elements (digests es)).

(** A scan reports what is there. Every leaf feed gets a row, and no other
    feed does; the row counts the feed's artifacts, bytes and coordinates,
    hosted apart from cached, and a path the database knows is counted from the
    database alone; the shared bytes are those of
    the blobs at least one other feed holds; the site's total counts each
    blob once, however many feeds and paths point at it. *)
Theorem scan_exact (sz : string -> Z) feeds rows keys t blobs bytes :
  compute feeds rows keys = (t, (blobs, bytes)) ->
  (forall e, e ∈ entries (leaves feeds) rows keys -> e_size e = sz (e_sha e)) ->
  let es := entries (leaves feeds) rows keys in
  (forall f, t !! f = None <-> f ∉ leaves feeds)
  /\ (forall f u, t !! f = Some u ->
        let mine := in_feed f es in
        ft_hostedArtifacts u = Z.of_nat (length (hosted_of mine))
        /\ ft_cachedArtifacts u = Z.of_nat (length (cached_of mine))
        /\ ft_hostedBytes u = zsum e_size (hosted_of mine)
        /\ ft_cachedBytes u = zsum e_size (cached_of mine)
        /\ (forall c, c ∈ ft_hostedCoords u <-> c <> "" /\ exists e, e ∈ hosted_of mine /\ e_coord e = c)
        /\ (forall c, c ∈ ft_cachedCoords u <-> c <> "" /\ exists e, e ∈ cached_of mine /\ e_coord e = c)
        /\ ft_shared u = shared_with_others sz f es)
  /\ blobs = Z.of_nat (size (digests es))
  /\ bytes = zsum sz (elements (digests es))
  /\ (forall e row, e ∈ es -> row ∈ rows -> row.1 = (e_feed e, e_path e) ->
        exists row', row' ∈ rows /\ e = row_entry row').
Proof.
  intros Hc Hsz es. unfold compute in Hc. set (fs := leaves feeds) in *.
  destruct (compute_entries fs rows keys) as (t0 & bs & Ec & Eq). fold es in Ec.
  rewrite Hc in Eq. injection Eq as Et Eb Ey.
  set (start := list_to_map (map (fun f => (f, newTally)) fs) : gmap string feedTally) in *.
  assert (forall d, bs !! d = if decide (d ∈ digests es) then Some (mkRef (sz d) (holders d es)) else None) as Hb.
  { intros d. rewrite <-(count_all_blobs sz es start d), Ec; [done|]. intros e He. split; [|by apply Hsz].
    unfold start. rewrite start_lookup, decide_True; [eauto|by eapply entries_configured]. }
  destruct (blobs_sum sz es bs (fun _ r => br_size r) Hb) as [Hsum Hsize]. split_and!.
  - intros f. pose proof (share_counts (map_to_list bs) t0 f) as Hs. rewrite <-Et in Hs.
    pose proof (count_all_dom es (start, ∅) f) as Hd. rewrite Ec in Hd. simpl in Hd.
    unfold start in Hd. rewrite start_lookup in Hd.
    destruct (t !! f), (t0 !! f); try done; case_decide; naive_solver.
  - intros f u Hu mine.
    pose proof (share_counts (map_to_list bs) t0 f) as Hs. rewrite <-Et, Hu in Hs.
    destruct (t0 !! f) as [v|] eqn:Ev; [|done]. destruct Hs as (E1 & E2 & E3 & E4 & E5 & E6).
    pose proof (count_all_dom es (start, ∅) f) as Hd. rewrite Ec in Hd. simpl in Hd. rewrite Ev in Hd.
    destruct (start !! f) as [w|] eqn:Ew; [|naive_solver].
    assert (w = newTally) as -> by (unfold start in Ew; rewrite start_lookup in Ew; by case_decide; simplify_eq).
    pose proof (count_all_tally es (start, ∅) f newTally Ew) as Hv. rewrite Ec in Hv. simpl in Hv.
    rewrite Ev in Hv. injection Hv as Hv. fold mine in Hv.
    destruct (ticks mine newTally) as (H1 & H2 & H3 & H4 & H5 & H6 & H7). cbv zeta in *. rewrite <-Hv in *.
    rewrite E1, E2, E3, E4, E5, E6, H1, H2, H3, H4. split_and!; try (simpl; lia).
    + intros c. rewrite H6. simpl. set_solver.
    + intros c. rewrite H7. simpl. set_solver.
    + rewrite Et in Hu. rewrite (share_sum _ _ _ _ _ Ev Hu), H5. simpl.
      destruct (blobs_sum sz es bs (fun _ r => if decide (2 <= size (br_feeds r) /\ f ∈ br_feeds r)%nat then br_size r else 0) Hb)
        as [-> _]. done.
  - congruence.
  - rewrite Ey, Hsum. done.
  - intros e row He Hrow Hk. by eapply entries_database.
Qed.
(** *** Storing a scan *)

Record Tables := mkTables {
  feed_usage : gmap string feedTally; usage_site : option (Z * Z); counts : UsageDB;
}.

(** [SaveUsage]: the feeds a scan covered are replaced, the others are left. *)
Definition SaveUsage (report : gmap string feedTally) (t : Tables) : Tables :=
  mkTables (report ∪ feed_usage t) (usage_site t) (counts t).
Definition SaveSiteUsage (site : Z * Z) (t : Tables) : Tables := mkTables (feed_usage t) (Some site) (counts t).
(** [ForgetUsage] and [ForgetPackageDownloads]. *)
Definition ForgetUsage (keep : list string) (t : Tables) : Tables :=
  mkTables (filter (fun kv => kv.1 ∈ keep) (feed_usage t)) (usage_site t)
    (mkUsageDB (filter (fun kv => kv.1.1 ∈ keep) (feed_traffic (counts t))) (package_downloads (counts t))).
Definition ForgetPackageDownloads (keep : list string) (t : Tables) : Tables :=
  mkTables (feed_usage t) (usage_site t)
    (mkUsageDB (feed_traffic (counts t)) (filter (fun kv => kv.1.1 ∈ keep) (package_downloads (counts t)))).

(** [PrunePackageDownloads]: [order] is the order in which the window function
    sees the rows, [stale] tells the rows not downloaded lately. *)
Definition before (k : string * string) (order : list (string * string)) : list (string * string) :=
  match list_find (eq k) order with Some (i, _) => take i order | None => order end.
Definition rank (k : string * string) (order : list (string * string)) : Z :=
  1 + Z.of_nat (length (filter (fun k' => k'.1 = k.1) (before k order))).
Definition PrunePackageDownloads (keepPerFeed : Z) (stale : string * string -> bool)
    (order : list (string * string)) (t : Tables) : Tables :=
  if decide (keepPerFeed <= 0) then t
  else mkTables (feed_usage t) (usage_site t)
    (mkUsageDB (feed_traffic (counts t))
       (filter (fun kv => stale kv.1 = false \/ rank kv.1 order <= keepPerFeed) (package_downloads (counts t)))).

Definition keepPerFeed : Z := 1000.

(** [ScanOnce], under the site's lock. *)
Definition ScanOnce (feeds : list Feed) (rows : list (string * string * HostedRow)) (keys : list string)
    (stale : string * string -> bool) (order : list (string * string)) (t : Tables) : Tables :=
  let '(report, site) := compute feeds rows keys in
  let names := map fd_name feeds in
  PrunePackageDownloads keepPerFeed stale order
    (ForgetPackageDownloads names (ForgetUsage names (SaveSiteUsage site (SaveUsage report t)))).

(** The rows kept are the feed's most downloaded: a row that goes has a
    thousand others of its feed ahead of it. *)
Lemma prune_keeps_top n stale order t k c :
  0 < n -> package_downloads (counts t) !! k = Some c ->
  package_downloads (counts (PrunePackageDownloads n stale order t)) !! k = None ->
  n <= Z.of_nat (length (filter (fun k' => k'.1 = k.1) (before k order))).
Proof.
  intros Hn Hk. unfold PrunePackageDownloads. rewrite decide_False by lia. simpl.
  rewrite map_lookup_filter, Hk. simpl. case_guard as Hg; [done|]. intros _. unfold rank in *.
  apply Decidable.not_or in Hg as [_ Hg]. lia.
Qed.

(** A scan keeps the traffic of every configured feed, groups included, and
    leaves no row of a feed that is gone. *)
Theorem scan_keeps_configured feeds rows keys stale order t f src :
  let t' := ScanOnce feeds rows keys stale order t in
  (f ∈ map fd_name feeds -> feed_traffic (counts t') !! (f, src) = feed_traffic (counts t) !! (f, src))
  /\ (f ∉ map fd_name feeds -> feed_usage t' !! f = None /\ feed_traffic (counts t') !! (f, src) = None
        /\ package_downloads (counts t') !! (f, src) = None).
Proof.
  unfold ScanOnce, PrunePackageDownloads. destruct (compute feeds rows keys) as [report site].
  rewrite decide_False by (unfold keepPerFeed; lia). simpl. rewrite !map_lookup_filter. simpl. split; intros Hf.
  - destruct (feed_traffic (counts t) !! (f, src)); simpl; [|done]. by case_guard.
  - split_and!.
    + destruct ((report ∪ feed_usage t) !! f); simpl; [|done]. by case_guard.
    + destruct (feed_traffic (counts t) !! (f, src)); simpl; [|done]. by case_guard.
    + destruct (package_downloads (counts t) !! (f, src)); simpl; [|done]. rewrite bind_None. left. by case_guard.
Qed.
End scanner.

(** Two feeds proxy the same tarball, one of them under two paths. *)
Definition demo_manifest : manifest :=
  mkManifest "d1" 10 ∅ "lib@1" 5 "" "" "" ∅.
Definition demo_feeds : list Feed := [mkFeed "npm" "npm" false; mkFeed "mirror" "npm" false; mkFeed "all" "npm" true].
Definition demo_keys : list string := ["manifests/npm/lib.tgz"; "manifests/npm/alias.tgz"; "manifests/mirror/lib.tgz"].
Definition demo_read (key : string) : option manifest := Some demo_manifest.

Lemma scan_exact_witness :
  exists u, (compute (fun _ => 0) demo_read demo_feeds [] demo_keys).1 !! "mirror" = Some u
    /\ ft_shared u = 10 /\ ft_cachedBytes u = 10.
Proof.
  destruct (compute (fun _ => 0) demo_read demo_feeds [] demo_keys) as [t [blobs bytes]] eqn:E.
  destruct (scan_exact (fun _ => 0) demo_read (fun _ => 10) demo_feeds [] demo_keys t blobs bytes E)
    as (Hnone & Hsome & _).
  { apply Forall_forall. vm_compute. repeat constructor. }
  destruct (t !! "mirror") as [u|] eqn:Eu.
  - exists u. simpl. split; [done|]. destruct (Hsome "mirror" u Eu) as (_ & _ & _ & Hb & _ & _ & Hs).
    rewrite Hs, Hb. split; vm_compute; reflexivity.
  - exfalso. apply Hnone in Eu. apply Eu. by right; left.
Defined.

(** The feeds' bytes and the site's total do not differ by the shared bytes:
    a feed that holds a blob under two paths counts it twice, and no feed
    shares it with another. *)
Theorem two_paths_are_not_shared :
  exists u, (compute (fun _ => 0) demo_read [mkFeed "npm" "npm" false] []
               ["manifests/npm/lib.tgz"; "manifests/npm/alias.tgz"])
            = ({[ "npm" := u ]}, (1, 10))
    /\ ft_cachedBytes u = 20 /\ ft_shared u = 0.
Proof. eexists. split; [vm_compute; reflexivity|]. split; reflexivity. Qed.
End Usage.
