(* ===== verification/Publisher.v ===== *)
(** * The write path: [core/pipeline/publish.go] and [core/pipeline/repair.go]

    Publishing a coordinate (row, journal entry and projection), mirroring a
    replicated one, coordinate strings, and the loop that repairs projections.
    The store is any [BlobStore]; the database is the [DB] of the site.

    [req.Metadata] is shared: the row and the request hold the same Go map, so
    the stamp the insert writes into a non-nil map is what the journal entry
    and the projection carry; a nil map stays nil in the request. *)

From S2P Require Import Prelude State StateTheory Events ReplSql Applier Store Pipeline.
Open Scope Z_scope.

(** [api.PublishRequest]; [None] is a nil map. *)
Record PublishRequest := mkPublish {
  pr_feed : Feed;
  pr_coord : PackageCoordinate;
  pr_path : string;
  pr_sha256 : string;
  pr_size : Z;
  pr_checksums : gmap string string;
  pr_identity : string;
  pr_mutable : bool;
  pr_metadata : option (gmap string string);
}.

(** The row [Publish] inserts. *)
Definition publish_row (site : string) (r : PublishRequest) : HostedRow :=
  mkHosted (coord_string (pr_coord r)) (pr_sha256 r) (pr_size r) (pr_checksums r)
    (default ∅ (pr_metadata r)) (pr_mutable r) "publish" site (pr_identity r).

(** The request after its metadata map was stamped in place. *)
Definition stamped_request (r : PublishRequest) (stamped : gmap string string) : PublishRequest :=
  mkPublish (pr_feed r) (pr_coord r) (pr_path r) (pr_sha256 r) (pr_size r) (pr_checksums r)
    (pr_identity r) (pr_mutable r) (match pr_metadata r with None => None | Some _ => Some stamped end).

(** The event [Writer.AppendManifestPut] builds. *)
Definition publish_event (r : PublishRequest) : ManifestPut :=
  mkManifestPut (f_name (pr_feed r)) (pr_path r) (coord_string (pr_coord r)) (pr_sha256 r)
    (pr_size r) (pr_checksums r) (default ∅ (pr_metadata r)) (pr_mutable r) (pr_identity r) "".

(** [insertWithJournal]: the row and, when replication is on, its event, in
    one transaction. *)
Definition insertWithJournal (now : Z) (site : string) (journal : bool) (r : PublishRequest) (db : DB)
    : result hosted_error (DB * bool * PublishRequest) :=
  match InsertHostedTx now (f_name (pr_feed r)) (pr_path r) (publish_row site r) db with
  | Err e => Err e
  | Ok (db, created, stamped) =>
      let r := stamped_request r stamped in
      let db := if created && journal then AppendManifestPut now site (publish_event r) db else db in
      Ok (db, created, r)
  end.

(** Coordinates as strings. *)

(** [cut] for a one-byte separator: around its first occurrence. *)
Fixpoint cut (s : string) (sep : Ascii.ascii) : option (string * string) :=
  match s with
  | EmptyString => None
  | String c s' =>
      if decide (c = sep) then Some ("", s')
      else match cut s' sep with Some (a, b) => Some (String c a, b) | None => None end
  end.

(** [lastCut]: around its last occurrence. *)
Fixpoint lastCut (s : string) (sep : Ascii.ascii) : option (string * string) :=
  match s with
  | EmptyString => None
  | String c s' =>
      match lastCut s' sep with
      | Some (a, b) => Some (String c a, b)
      | None => if decide (c = sep) then Some ("", s') else None
      end
  end.

(** [parseCoordinate]. *)
Definition parseCoordinate (s : string) : PackageCoordinate :=
  match cut s ":"%char with
  | None => mkCoord "" s ""
  | Some (format, rest) =>
      match lastCut rest "@"%char with
      | None => mkCoord format rest ""
      | Some (name, version) => mkCoord format name version
      end
  end.

Section publisher.
Context (digest : string -> string -> string) {St : Type}.
Context `{BS : !BlobStore (digest "sha256") St} `{MC : !ManifestCodec}.

Definition projectionKey (feed path : string) : string := "manifests/" +:+ feed +:+ "/" +:+ path.

(** [writeProjection]. *)
Definition writeProjection (now : Z) (site : string) (r : PublishRequest) (st : St)
    : St * option api_error :=
  let m := mkManifest (pr_sha256 r) (pr_size r) (pr_checksums r) "" now "publish" site
             (pr_identity r) (default ∅ (pr_metadata r)) in
  Put now (projectionKey (f_name (pr_feed r)) (pr_path r)) (encode_manifest m) no_opts st.

(** [Publish]: [db_up] tells whether the database answers; [None] for a
    publisher without one. Returns the database, the store and the outcome. *)
Definition Publish (now : Z) (site : string) (journal db_up : bool) (r : PublishRequest)
    (db : option DB) (st : St) : option DB * St * result api_error bool :=
  match db with
  | None => (None, st, Err ErrUnavailable)
  | Some d =>
      if decide (pr_sha256 r = "" \/ pr_path r = "") then (db, st, Err ErrBadRequest)
      else if negb (validRemotePath (pr_path r)) then (db, st, Err ErrNotFound)
      else match Stat (blobKey (pr_sha256 r)) st with
           | Err e => (db, st, Err e)
           | Ok _ =>
               if negb db_up then (db, st, Err ErrUnavailable)
               else match insertWithJournal now site journal r d with
                    | Err _ => (db, st, Err ErrImmutable)
                    | Ok (d, created, r) =>
                        (Some d, (writeProjection now site r st).1, Ok created)
                    end
           end
  end.

(** [WriteReplicatedManifest]. *)
Definition WriteReplicatedManifest (now : Z) (feed path sha : string) (size : Z)
    (checksums metadata : gmap string string) (originSite publisher : string) (st : St)
    : St * option api_error :=
  if negb (validRemotePath path) then (st, Some ErrNotFound)
  else if bool_decide (feed = "") || contains_char feed "/"%char || contains_char feed "\"%char
  then (st, Some ErrBadRequest)
  else
    let m := mkManifest sha size checksums "" now "replication" originSite publisher metadata in
    Put now (projectionKey feed path) (encode_manifest m) no_opts st.

(** [Manifests]: the rows of a feed under a prefix with their coordinates. *)
Definition Manifests (feed : Feed) (prefix : string) (db : DB)
    : list (string * PackageCoordinate * HostedRow) :=
  (fun kv => (kv.1.2, parseCoordinate (h_coordinate kv.2), kv.2)) <$> ListHosted (f_name feed) prefix db.

(** [PutIndex]. *)
Definition PutIndex (now : Z) (feed : Feed) (path body : string) (st : St) : St * option api_error :=
  if negb (validRemotePath path) then (st, Some ErrNotFound)
  else Put now ("meta/" +:+ f_name feed +:+ "/" +:+ path) body no_opts st.

(** ** Repair *)

(** [projectionMatches]. *)
Definition projectionMatches (feed path sha : string) (size : Z) (st : St) : result api_error bool :=
  match Get (projectionKey feed path) st with
  | Err ErrNotFound => Ok false
  | Err e => Err e
  | Ok o => match decode_manifest (o_body o) with
            | None => Ok false
            | Some m => Ok (bool_decide (m_sha256 m = sha) && (m_size m =? size))
            end
  end.

(** What a pass counted. *)
Record repair_report := mkReport { rp_divergent : nat; rp_repaired : nat; rp_failed : nat }.

(** One row of the pass; [db] is the database when the row is read again. *)
Definition repair_row (now : Z) (db : DB) (row : string * string * HostedRow)
    (acc : St * repair_report) : St * repair_report :=
  let '(st, rp) := acc in
  let '(feed, path, r) := row in
  let failed := mkReport (rp_divergent rp) (rp_repaired rp) (S (rp_failed rp)) in
  match projectionMatches feed path (h_sha256 r) (h_size r) st with
  | Err _ => (st, failed)
  | Ok true => (st, rp)
  | Ok false =>
      let rp := mkReport (S (rp_divergent rp)) (rp_repaired rp) (rp_failed rp) in
      match HostedRowAt feed path db with
      | None => (st, rp)
      | Some (curFeed, curPath, cur) =>
          if decide (h_sha256 cur <> h_sha256 r) then (st, rp)
          else
            match WriteReplicatedManifest now curFeed curPath (h_sha256 cur) (h_size cur)
                    (h_checksums cur) (h_metadata cur) (h_site cur) (h_published_by cur) st with
            | (st, Some _) => (st, mkReport (rp_divergent rp) (rp_repaired rp) (S (rp_failed rp)))
            | (st, None) => (st, mkReport (rp_divergent rp) (S (rp_repaired rp)) (rp_failed rp))
            end
      end
  end.

(** [RepairOnce]: rows as listed in [listed], re-read in [db]. *)
Definition RepairOnce (now : Z) (listed db : DB) (st : St) : St * repair_report :=
  foldl (fun acc row => repair_row now db row acc) (st, mkReport 0 0 0) (ListHosted "" "" listed).
End publisher.

(** ** Coordinates *)

Lemma cut_app a b sep : contains_char a sep = false -> cut (a +:+ String sep b) sep = Some (a, b).
Proof.
  induction a as [|c a IH]; simpl; [by rewrite decide_True|].
  intros [Hc Ha]%orb_false_iff. apply bool_decide_eq_false in Hc.
  rewrite decide_False, IH by done. done.
Qed.

Lemma lastCut_none s sep : contains_char s sep = false -> lastCut s sep = None.
Proof.
  induction s as [|c s IH]; simpl; [done|]. intros [Hc Hs]%orb_false_iff.
  apply bool_decide_eq_false in Hc. rewrite IH by done. by rewrite decide_False.
Qed.

Lemma lastCut_app a b sep : contains_char b sep = false -> lastCut (a +:+ String sep b) sep = Some (a, b).
Proof.
  intros Hb. induction a as [|c a IH]; simpl; [by rewrite lastCut_none, decide_True|].
  by rewrite IH.
Qed.

(** Reading a coordinate back gives the coordinate that was written, when
    the format has no colon, the version no at sign, and a coordinate without
    version no at sign in its name. *)
Theorem parse_coordinate_roundtrip c :
  contains_char (c_format c) ":"%char = false ->
  contains_char (c_version c) "@"%char = false ->
  (c_version c = "" -> contains_char (c_name c) "@"%char = false) ->
  parseCoordinate (coord_string c) = c.
Proof.
  destruct c as [format name version]. simpl. intros Hf Hv Hn.
  unfold parseCoordinate, coord_string. simpl. case_decide as Hd.
  - subst. change (":" +:+ name) with (String ":"%char name).
    rewrite cut_app, lastCut_none by auto. done.
  - change (":" +:+ name +:+ "@" +:+ version) with (String ":"%char (name +:+ String "@"%char version)).
    rewrite cut_app, lastCut_app by auto. done.
Qed.

Lemma parse_coordinate_roundtrip_witness :
  parseCoordinate (coord_string (mkCoord "npm" "@acme/lib" "1.2.3")) = mkCoord "npm" "@acme/lib" "1.2.3".
Proof. apply parse_coordinate_roundtrip; [reflexivity..|discriminate]. Defined.

(** It does not give back a version-less scoped npm name: the scope is
    lost and the name becomes the version. *)
Theorem parse_coordinate_scoped_name :
  parseCoordinate (coord_string (mkCoord "npm" "@acme/lib" "")) = mkCoord "npm" "" "acme/lib".
Proof. reflexivity. Qed.

(** ** Publishing *)

(** The journal entry of a publish decodes to what was published. *)
Lemma append_manifest_put_entry now site p db :
  - 2 ^ 63 <= mp_size p < 2 ^ 63 ->
  exists e t, repl_journal (AppendManifestPut now site p db) !! (site, last_seq (hlc_state db) + 1) = Some (e, t) /\
    Kind e = KindManifestPut /\ decode_manifest_put (Payload e) = Some p /\ OriginSite e = site.
Proof.
  intros Hs. unfold AppendManifestPut, AppendJournal. simpl.
  exists (mkEntry site (last_seq (hlc_state db) + 1) KindManifestPut (encode_manifest_put p)
            (hlc_reading (repl_hlc_next now (hlc_state db))) 1), now.
  split_and!; try done.
  - rewrite lookup_insert_ne by (intros [= ?]; lia). by rewrite lookup_insert_eq.
  - simpl. by apply decode_encode_manifest_put.
Qed.

Lemma insertHosted_cases now feed path r db db' created m :
  InsertHostedTx now feed path r db = Ok (db', created, m) ->
  repl_journal db' = repl_journal db /\ last_seq (hlc_state db') = last_seq (hlc_state db) /\
  h_sha256 <$> hosted_manifests db' !! (feed, path) = Some (h_sha256 r) /\
  m = stamp_metadata (hlc_reading (repl_hlc_now now (hlc_state db))) (h_metadata r).
Proof.
  unfold InsertHostedTx. simpl.
  destruct (hosted_manifests db !! (feed, path)) as [old|] eqn:E.
  - case_decide as Hs; [intros [= <- <- <-]; simpl; rewrite E; simpl; by rewrite Hs|].
    case_match; [done|]. intros [= <- <- <-]. simpl. by rewrite lookup_insert_eq.
  - intros [= <- <- <-]. simpl. by rewrite lookup_insert_eq.
Qed.

Section publish_theorems.
Context (digest : string -> string -> string) {St : Type}.
Context `{BS : !BlobStore (digest "sha256") St} `{MC : !ManifestCodec}.

(** C36. Published releases are immutable: publishing other bytes at a path
    that holds a release, or a release over a mutable coordinate, is refused
    and changes neither the database nor the store. *)
Theorem publish_immutable now site journal r db (st : St) old :
  hosted_manifests db !! (f_name (pr_feed r), pr_path r) = Some old ->
  h_sha256 old <> pr_sha256 r -> h_mutable old = false \/ pr_mutable r = false ->
  exists e, Publish digest now site journal true r (Some db) st = (Some db, st, Err e).
Proof.
  intros Ho Hs Hm. unfold Publish. case_decide; [eauto|]. case_match; [eauto|].
  destruct (Stat _ st); [|eauto]. simpl. unfold insertWithJournal, InsertHostedTx. simpl.
  rewrite Ho. rewrite decide_False by done.
  assert (negb (h_mutable old) || negb (pr_mutable r) = true) as ->; [|eauto].
  destruct Hm as [-> | ->]; [done|apply orb_true_r].
Qed.

(** A publish and its announcement never disagree: when [Publish]
    succeeds the blob was there, the path serves the published digest, and
    with replication on the journal gained the event announcing exactly the
    published coordinate if and only if something was created. *)
Theorem publish_announces now site r db (st : St) db' st' created :
  - 2 ^ 63 <= pr_size r < 2 ^ 63 ->
  Publish digest now site true true r (Some db) st = (Some db', st', Ok created) ->
  is_Some (found (Get (blobKey (pr_sha256 r)) st)) /\
  h_sha256 <$> hosted_manifests db' !! (f_name (pr_feed r), pr_path r) = Some (pr_sha256 r) /\
  if created then
    exists e t p, repl_journal db' !! (site, last_seq (hlc_state db) + 1) = Some (e, t) /\
      Kind e = KindManifestPut /\ decode_manifest_put (Payload e) = Some p /\
      mp_feed p = f_name (pr_feed r) /\ mp_path p = pr_path r /\ mp_sha256 p = pr_sha256 r /\
      mp_coord p = coord_string (pr_coord r) /\ mp_mutable p = pr_mutable r
  else repl_journal db' = repl_journal db.
Proof.
  intros Hsize. unfold Publish. case_decide; [done|]. case_match; [done|].
  destruct (Stat (blobKey (pr_sha256 r)) st) as [o|] eqn:Es; [|done]. simpl. unfold insertWithJournal.
  destruct (InsertHostedTx _ _ _ _ _) as [[[db1 c] m]|] eqn:Ei; [|done].
  intros [= <- _ <-]. apply insertHosted_cases in Ei as (Hj & Hl & Hh & ->).
  split; [unfold Stat in Es; rewrite Es; eauto|]. simpl in Hh.
  destruct c; simpl; [|done].
  split; [done|]. rewrite <- Hl.
  destruct (append_manifest_put_entry now site
    (publish_event (stamped_request r (stamp_metadata (hlc_reading (repl_hlc_now now (hlc_state db)))
       (default ∅ (pr_metadata r))))) db1) as (e & t & He & Hk & Hd & _); [done|].
  exists e, t. eexists. split_and!; [exact He|done|exact Hd|done..].
Qed.
End publish_theorems.

(** ** Repair *)

Section repair_theorems.
Context (digest : string -> string -> string) {St : Type}.
Context `{BS : !BlobStore (digest "sha256") St} `{MC : !ManifestCodec}.
Implicit Types (st : St) (db : DB).

Lemma projectionKey_inj f p f' p' :
  contains_char f "/"%char = false -> contains_char f' "/"%char = false ->
  projectionKey f p = projectionKey f' p' -> (f, p) = (f', p').
Proof.
  intros Hf Hf' H. unfold projectionKey in H.
  apply (str_app_inj_l "manifests/") in H.
  assert (Hc : forall f p, contains_char f "/"%char = false -> cut (f +:+ "/" +:+ p) "/"%char = Some (f, p)).
  { intros f0 p0 H0. by apply (cut_app f0 p0). }
  apply (f_equal (fun s => cut s "/"%char)) in H. rewrite !Hc in H by done. congruence.
Qed.

Lemma projectionMatches_local now k body o f p sha size st :
  k <> projectionKey f p -> found (Get (projectionKey f p) st) <> None ->
  projectionMatches digest f p sha size (Put now k body o st).1 =
  projectionMatches digest f p sha size st.
Proof.
  intros Hne Hf. unfold projectionMatches.
  pose proof (put_local now k (projectionKey f p) body o st) as Hl.
  specialize (Hl ltac:(congruence)).
  destruct (Get (projectionKey f p) st) as [ob|]; simpl in *; [|done].
  destruct (Get (projectionKey f p) (Put now k body o st).1); simpl in *; by simplify_eq.
Qed.

Lemma projectionMatches_found f p sha size st :
  projectionMatches digest f p sha size st = Ok true -> found (Get (projectionKey f p) st) <> None.
Proof. unfold projectionMatches. destruct (Get _ st) as [|[]]; done. Qed.

(** A projection that was just written matches its row. *)
Lemma WriteReplicated_matches now f p sha size cs md site pub st st' :
  WriteReplicatedManifest digest now f p sha size cs md site pub st = (st', None) ->
  projectionMatches digest f p sha size st' = Ok true.
Proof.
  unfold WriteReplicatedManifest. case_match; [done|]. case_match; [done|]. intros E.
  apply put_stores in E as [_ Hg]. unfold projectionMatches.
  destruct (Get (projectionKey f p) st') as [o|]; simpl in *; simplify_eq. simpl.
  rewrite decode_encode_manifest. simpl. by rewrite bool_decide_eq_true_2, Z.eqb_refl.
Qed.

Lemma WriteReplicated_local now f p f' p' sha size cs md site pub sha' size' st :
  contains_char f "/"%char = false -> contains_char f' "/"%char = false -> (f, p) <> (f', p') ->
  projectionMatches digest f' p' sha' size' st = Ok true ->
  projectionMatches digest f' p' sha' size'
    (WriteReplicatedManifest digest now f p sha size cs md site pub st).1 = Ok true.
Proof.
  intros Hf Hf' Hne Hm. unfold WriteReplicatedManifest. case_match; [done|]. case_match; [done|].
  rewrite projectionMatches_local; [done| |by eapply projectionMatches_found].
  intros ?%projectionKey_inj; done.
Qed.

(** Rows a pass can re-read and write: exact paths, plain feed names. *)
Definition repairable (row : string * string * HostedRow) : Prop :=
  row.1.1 <> "" /\ contains_char row.1.1 "/"%char = false /\ plain row.1.2 = true.

Lemma repair_row_spec now db row st rp st' rp' :
  repairable row -> hosted_manifests db !! row.1 = Some row.2 ->
  repair_row digest now db row (st, rp) = (st', rp') ->
  (rp_failed rp <= rp_failed rp')%nat /\
  (rp_failed rp' = rp_failed rp ->
   projectionMatches digest row.1.1 row.1.2 (h_sha256 row.2) (h_size row.2) st' = Ok true) /\
  (forall row', repairable row' -> row'.1 <> row.1 ->
     projectionMatches digest row'.1.1 row'.1.2 (h_sha256 row'.2) (h_size row'.2) st = Ok true ->
     projectionMatches digest row'.1.1 row'.1.2 (h_sha256 row'.2) (h_size row'.2) st' = Ok true).
Proof.
  destruct row as [[f p] r]. intros (Hf & Hfs & Hp) Hr. simpl in Hf, Hfs, Hp, Hr.
  unfold repair_row.
  destruct (projectionMatches digest f p (h_sha256 r) (h_size r) st) as [[]|] eqn:Em.
  - intros [= <- <-]. simpl. auto.
  - destruct (hosted_row_at f p db Hf) as [-> _]; [|done]. rewrite Hr. cbn [fmap option_fmap option_map].
    case_decide as Hs; [done|].
    destruct (WriteReplicatedManifest _ _ _ _ _ _ _ _ _ _ st) as [st1 [e|]] eqn:Ew;
      intros [= <- <-]; cbn [rp_failed fst snd]; split_and!; try lia.
    + intros row' (_ & Hs' & _) Hne Hm. pose proof (WriteReplicated_local now f p row'.1.1 row'.1.2
        (h_sha256 r) (h_size r) (h_checksums r) (h_metadata r) (h_site r) (h_published_by r)
        (h_sha256 row'.2) (h_size row'.2) st Hfs Hs') as Hl.
      rewrite Ew in Hl. apply Hl; [|done]. destruct row' as [[] ?]. simpl in *. congruence.
    + intros _. by eapply WriteReplicated_matches.
    + intros row' (_ & Hs' & _) Hne Hm. pose proof (WriteReplicated_local now f p row'.1.1 row'.1.2
        (h_sha256 r) (h_size r) (h_checksums r) (h_metadata r) (h_site r) (h_published_by r)
        (h_sha256 row'.2) (h_size row'.2) st Hfs Hs') as Hl.
      rewrite Ew in Hl. apply Hl; [|done]. destruct row' as [[] ?]. simpl in *. congruence.
  - intros [= <- <-]. simpl. split_and!; [lia|lia|auto].
Qed.

Lemma repair_rows now db rows st rp st' rp' :
  Forall (fun row => repairable row /\ hosted_manifests db !! row.1 = Some row.2) rows ->
  NoDup (rows.*1) ->
  foldl (fun acc row => repair_row digest now db row acc) (st, rp) rows = (st', rp') ->
  (rp_failed rp <= rp_failed rp')%nat /\
  (rp_failed rp' = rp_failed rp ->
   Forall (fun row => projectionMatches digest row.1.1 row.1.2 (h_sha256 row.2) (h_size row.2) st' = Ok true) rows).
Proof.
  revert st' rp'. induction rows as [|row rows IH] using rev_ind; intros st' rp'.
  { simpl. intros _ _ [= <- <-]. auto. }
  rewrite Forall_app, fmap_app, foldl_snoc. intros [Hrows [Hrow Hl]%Forall_singleton] Hnd.
  apply NoDup_app in Hnd as (Hnd & Hfresh & _).
  destruct (foldl _ (st, rp) rows) as [st1 rp1] eqn:E1. intros E2.
  destruct (IH st1 rp1 Hrows Hnd eq_refl) as [Hm1 Hok1].
  destruct (repair_row_spec now db row st1 rp1 st' rp' Hrow Hl E2) as (Hm2 & Hok2 & Hkeep).
  split; [lia|]. intros Heq. apply Forall_app. split; [|apply Forall_singleton, Hok2; lia].
  specialize (Hok1 ltac:(lia)). rewrite !Forall_forall in *. intros row' Hin.
  apply Hkeep; [by apply Hrows| |by apply Hok1].
  intros Heq'. apply (Hfresh row'.1); [by apply list_elem_of_fmap_2|]. rewrite Heq'. by left.
Qed.

(** C37. A repair pass restores every projection: when the database does not
    change during the pass, feed names and paths are plain, and no row was
    counted as failed, every hosted row's projection afterwards names the
    row's digest and size. *)
Theorem repair_restores_projections now db st st' rp :
  (forall f p r, hosted_manifests db !! (f, p) = Some r ->
     f <> "" /\ contains_char f "/"%char = false /\ plain p = true) ->
  RepairOnce digest now db db st = (st', rp) -> rp_failed rp = O ->
  forall f p r, hosted_manifests db !! (f, p) = Some r ->
    projectionMatches digest f p (h_sha256 r) (h_size r) st' = Ok true.
Proof.
  intros Hall E Hfail f p r Hr. unfold RepairOnce in E.
  apply repair_rows in E as [_ Hok].
  - rewrite Forall_forall in Hok. apply (Hok Hfail (f, p, r)).
    apply elem_of_ListHosted. split_and!; [done|by left|]. simpl. apply like_any.
  - apply Forall_forall. intros [[f' p'] r'] (Hl & _)%elem_of_ListHosted. simpl in *.
    split; [|done]. destruct (Hall _ _ _ Hl) as (? & ? & ?). done.
  - unfold ListHosted. rewrite merge_sort_Permutation.
    apply NoDup_fst_filter, NoDup_fst_map_to_list.
Qed.
End repair_theorems.

(** ** Concrete runs *)

Definition demo_publish (sha : string) (mutable : bool) : PublishRequest :=
  mkPublish (mkFeed "releases" true) (mkCoord "maven" "lib" "1.0") "lib/1.0/lib.jar" sha 4 ∅ "token:ci"
    mutable (Some ∅).
Definition demo_blobs : FS := fs_puts [("blobs/sha256/4b", "body"); ("blobs/sha256/4c", "corp")].
Definition demo_published : DB :=
  match Publish PipelineDemo.digest 100 "a" true true (demo_publish "4b" false) (Some empty_db) demo_blobs with
  | (Some db, _, _) => db
  | _ => empty_db
  end.

Lemma publish_immutable_witness :
  exists e, Publish PipelineDemo.digest 200 "a" true true (demo_publish "4c" false) (Some demo_published)
    demo_blobs = (Some demo_published, demo_blobs, Err e).
Proof.
  destruct (hosted_manifests demo_published !! ("releases", "lib/1.0/lib.jar")) as [old|] eqn:E;
    [|vm_compute in E; discriminate].
  apply (publish_immutable PipelineDemo.digest 200 "a" true (demo_publish "4c" false) demo_published
           demo_blobs old E).
  - vm_compute in E. injection E as <-. discriminate.
  - right. reflexivity.
Defined.

Lemma publish_announces_witness :
  h_sha256 <$> hosted_manifests demo_published !! ("releases", "lib/1.0/lib.jar") = Some "4b".
Proof.
  destruct (Publish PipelineDemo.digest 100 "a" true true (demo_publish "4b" false) (Some empty_db) demo_blobs)
    as [[[db'|] st'] r] eqn:E; [|vm_compute in E; discriminate].
  assert (Hr : r = Ok true) by (apply (f_equal snd) in E; vm_compute in E; by inversion E).
  subst r. unfold demo_published. rewrite E.
  assert (Hs : - 2 ^ 63 <= pr_size (demo_publish "4b" false) < 2 ^ 63) by (simpl; lia).
  exact (proj1 (proj2 (publish_announces PipelineDemo.digest 100 "a" (demo_publish "4b" false) empty_db
    demo_blobs db' st' true Hs E))).
Defined.

Lemma repair_restores_projections_witness :
  let '(st', rp) := RepairOnce PipelineDemo.digest 300 demo_published demo_published demo_blobs in
  rp_repaired rp = 1%nat /\
  projectionMatches PipelineDemo.digest "releases" "lib/1.0/lib.jar" "4b" 4 st' = Ok true.
Proof.
  destruct (RepairOnce PipelineDemo.digest 300 demo_published demo_published demo_blobs) as [st' rp] eqn:E.
  assert (Hrp : rp = mkReport 1 1 0) by (apply (f_equal snd) in E; vm_compute in E; by inversion E).
  subst rp. split; [reflexivity|].
  destruct (hosted_manifests demo_published !! ("releases", "lib/1.0/lib.jar")) as [r|] eqn:Er;
    [|vm_compute in Er; discriminate].
  assert (Hr : h_sha256 r = "4b" /\ h_size r = 4) by (vm_compute in Er; injection Er as <-; split; reflexivity).
  destruct Hr as [<- <-].
  refine (repair_restores_projections PipelineDemo.digest 300 demo_published demo_blobs st' _ _ E eq_refl _ _ _ Er).
  intros f p r' Hl. apply elem_of_map_to_list in Hl. vm_compute in Hl.
  apply list_elem_of_singleton in Hl. injection Hl as -> -> _. split; [discriminate|]. split; reflexivity.
Defined.

(** The repair loop never repairs a path the row lookup cannot find: with
    a sibling that the underscore pattern also matches, every pass counts the
    coordinate as divergent, reports no failure and writes nothing for it. *)
Theorem repair_misses_shadowed_path :
  let '(st1, rp1) := RepairOnce PipelineDemo.digest 300 shadowed_db shadowed_db empty_fs in
  let '(st2, rp2) := RepairOnce PipelineDemo.digest 400 shadowed_db shadowed_db st1 in
  (rp1, rp2) = (mkReport 2 1 0, mkReport 1 0 0) /\
  found (fs_get (projectionKey "f" "my_lib.tgz") st2) = None.
Proof. vm_compute. split; reflexivity. Qed.
