(* ===== verification/Policies.v ===== *)
(** * The policy chain and the built-in policies

    [core/policy/policy.go] (the chain), [core/api] (artifacts, decisions, the
    policy interface and its registry), [policies/allowlist], [license],
    [quarantine] and [osv], with the verdict cache of [core/state/hosted.go].

    A policy's hooks take the request's context and a state and return the
    state after the call and a decision: most policies ignore both, the OSV
    policy keeps a cache per process and one in the database. The context
    [Ctx] is what a call sees of the outside: the time, whether the database
    answers, and the OSV service. *)

From S2P Require Import Prelude GoLib Access Store Pipeline.
Open Scope Z_scope.

Module Policies.

(** ** Artifacts and decisions ([core/api/types.go]) *)

Definition MetaLicense : string := "license".
Definition MetaPublishedAt : string := "published_at".
Definition MetaEcosystem : string := "ecosystem".

Record Artifact := mkArtifact {
  a_coord : PackageCoordinate;
  a_size : Z;
  a_checksum : Checksum;
  a_metadata : gmap string string;
}.

Definition Meta (a : Artifact) (key : string) : string := default "" (a_metadata a !! key).

Record Decision := mkDecision {
  d_allow : bool;
  d_policy : string;
  d_code : string;
  d_reason : string;
}.

Definition Allowed : Decision := mkDecision true "" "" "".
Definition Denied (code reason : string) : Decision := mkDecision false "" code reason.

(** YAML options, decoded into a generic map. *)
Inductive any :=
| VString (s : string)
| VBool (b : bool)
| VList (l : list any)
| VOther.
Notation options := (gmap string any).

(** [options[k].(string)] with the zero value on failure. *)
Definition string_option (o : options) (k : string) : string :=
  match o !! k with Some (VString s) => s | _ => "" end.

(** The errors of the policies' constructors. *)
Inductive option_error :=
| OptionRequired (name : string)
| OptionShape (name : string)
| OptionItem (name : string) (i : nat)
| OptionPattern (name : string) (i : nat) (pattern : string)
| OptionValue (name value : string)
| PolicyNotRegistered (name : string).

(** The list of non-empty, well-formed patterns an option holds. *)
Fixpoint pattern_items (name : string) (i : nat) (items : list any)
  : result option_error (list string) :=
  match items with
  | [] => Ok []
  | item :: rest =>
      match item with
      | VString s =>
          if decide (s = "") then Err (OptionItem name i)
          else match path_match s "probe" with
               | None => Err (OptionPattern name i s)
               | Some _ => let? ps := pattern_items name (S i) rest in Ok (s :: ps)
               end
      | _ => Err (OptionItem name i)
      end
  end.

Definition pattern_list (o : options) (name : string) : result option_error (list string) :=
  match o !! name with
  | None => Err (OptionRequired name)
  | Some (VList items) => pattern_items name 0 items
  | Some _ => Err (OptionShape name)
  end.

(** The [on_unknown] option: deny, or allow by default. *)
Definition on_unknown (o : options) : result option_error bool :=
  let v := string_option o "on_unknown" in
  if decide (v = "" \/ v = "allow") then Ok false
  else if decide (v = "deny") then Ok true
  else Err (OptionValue "on_unknown" v).

(** ** The policy interface *)

Section interface.
Context {Ctx St : Type}.

Record Policy := mkPolicy {
  OnResolve : Ctx -> Identity -> PackageCoordinate -> St -> St * Decision;
  OnServe : Ctx -> Identity -> Artifact -> St -> St * Decision;
  OnPublish : Ctx -> Identity -> Artifact -> St -> St * Decision;
}.

(** ** The chain ([core/policy/policy.go]) *)

Definition Chain : Type := list (string * Policy).

(** [Chain.decide]: policies run in order, the first denial is the answer. *)
Fixpoint chain_decide (f : Policy -> St -> St * Decision) (c : Chain) (st : St)
  : St * Decision :=
  match c with
  | [] => (st, Allowed)
  | (name, p) :: rest =>
      let '(st1, d) := f p st in
      if d_allow d then chain_decide f rest st1
      else (st1, if decide (d_policy d = "")
                 then mkDecision (d_allow d) name (d_code d) (d_reason d) else d)
  end.

Definition chain_OnResolve (c : Chain) (ctx : Ctx) (id : Identity) (co : PackageCoordinate) :=
  chain_decide (fun p => OnResolve p ctx id co) c.
Definition chain_OnServe (c : Chain) (ctx : Ctx) (id : Identity) (a : Artifact) :=
  chain_decide (fun p => OnServe p ctx id a) c.
Definition chain_OnPublish (c : Chain) (ctx : Ctx) (id : Identity) (a : Artifact) :=
  chain_decide (fun p => OnPublish p ctx id a) c.

(** A chain implements the policy interface itself. *)
Definition chain_policy (c : Chain) : Policy :=
  mkPolicy (chain_OnResolve c) (chain_OnServe c) (chain_OnPublish c).

(** ** The registry ([core/api/registry.go]) *)

Definition registry : Type := gmap string (options -> result option_error Policy).

(** [RegisterPolicy] panics ([None]) on an empty or taken name. *)
Definition RegisterPolicy (name : string) (f : options -> result option_error Policy)
  (r : registry) : option registry :=
  if decide (name = "") then None
  else match r !! name with Some _ => None | None => Some (<[name := f]> r) end.

Definition NewPolicy (r : registry) (name : string) (o : options) : result option_error Policy :=
  match r !! name with
  | None => Err (PolicyNotRegistered name)
  | Some f => f o
  end.

Fixpoint NewChain (r : registry) (cfgs : list (string * options)) : result option_error Chain :=
  match cfgs with
  | [] => Ok []
  | (name, o) :: rest =>
      let? p := NewPolicy r name o in
      let? c := NewChain r rest in
      Ok ((name, p) :: c)
  end.

(** *** The chain, lemmas *)

(** The denial that the policy [p], named [name], gave, with its name. *)
Definition denied_by (name : string) (p : Policy) (f : Policy -> St -> St * Decision) (st : St)
  (d : Decision) : Prop :=
  exists d0, (f p st).2 = d0 /\ d_allow d0 = false
    /\ d = mkDecision false (if decide (d_policy d0 = "") then name else d_policy d0)
             (d_code d0) (d_reason d0).

(** What a chain answers: an answer that allows was given by every policy, in
    turn; one that denies is the first denial, of a policy whose
    predecessors all allowed. *)
Lemma chain_decide_spec f c st st' d :
  chain_decide f c st = (st', d) ->
  (d_allow d = true -> d = Allowed /\
     forall pre name p post, c = pre ++ (name, p) :: post ->
       d_allow (f p (chain_decide f pre st).1).2 = true)
  /\ (d_allow d = false ->
     exists pre name p post, c = pre ++ (name, p) :: post
       /\ chain_decide f pre st = ((chain_decide f pre st).1, Allowed)
       /\ denied_by name p f (chain_decide f pre st).1 d
       /\ st' = (f p (chain_decide f pre st).1).1).
Proof.
  revert st. induction c as [|[name p] c IH]; intros st; simpl.
  { intros [= <- <-]. split; [|done]. intros _. split; [done|].
    intros [|??] ?? ? ?; simplify_eq. }
  destruct (f p st) as [st1 d1] eqn:E. destruct (d_allow d1) eqn:Ed.
  - intros H. destruct (IH st1 H) as [IH1 IH2]. split.
    + intros Ha. destruct (IH1 Ha) as [-> Hall]. split; [done|].
      intros [|[n q] pre] name' p' post Hc; simplify_eq/=; [by rewrite E|].
      rewrite E, Ed. by eapply Hall.
    + intros Ha. destruct (IH2 Ha) as (pre & n & q & post & -> & Hpre & Hd & Hst).
      exists ((name, p) :: pre), n, q, post. simpl. rewrite E, Ed. auto.
  - intros [= <- <-]. split; [case_decide; simpl; congruence|]. intros _.
    exists [], name, p, c. simpl. rewrite E. repeat split; try done.
    exists d1. rewrite E. split; [done|]. split; [done|].
    case_decide; [done|]. destruct d1; simpl in *. by subst.
Qed.
End interface.
Arguments Policy : clear implicits.
Arguments Chain : clear implicits.

(** ** allowlist *)

Module Allowlist.
Definition DenyCode : string := "not-in-allowlist".

Definition New (o : options) : result option_error (list string) := pattern_list o "allow".

Definition allowed (patterns : list string) (c : PackageCoordinate) : Decision :=
  if existsb (fun pat => path_matches pat (c_name c)) patterns then Allowed
  else Denied DenyCode ("package " +:+ coord_string c +:+ " is not in the feed allowlist").

Definition policy {Ctx St} (patterns : list string) : Policy Ctx St :=
  mkPolicy (fun _ _ c st => (st, allowed patterns c))
           (fun _ _ a st => (st, allowed patterns (a_coord a)))
           (fun _ _ a st => (st, allowed patterns (a_coord a))).
End Allowlist.

(** ** license *)

Module License.
Definition DenyCode : string := "denied-license".
Definition DenyUnknownCode : string := "unknown-license".

Record Cfg := mkCfg { deny : list string; denyUnknown : bool }.

Definition New (o : options) : result option_error Cfg :=
  let? ps := pattern_list o "deny" in
  let? u := on_unknown o in
  Ok (mkCfg ps u).

(** Case-insensitive match of one license. *)
Definition matchLicense (pattern license : string) : bool :=
  path_matches (ToLower pattern) (ToLower license).

Fixpoint check_parts (p : Cfg) (a : Artifact) (parts : list string) : Decision :=
  match parts with
  | [] => Allowed
  | part :: rest =>
      let part := TrimSpace part in
      if existsb (fun pattern => matchLicense pattern part) (deny p) then
        Denied DenyCode ("license " +:+ part +:+ " of " +:+ coord_string (a_coord a)
                         +:+ " is denied by this feed")
      else check_parts p a rest
  end.

Definition check (p : Cfg) (a : Artifact) : Decision :=
  let declared := TrimSpace (Meta a MetaLicense) in
  if decide (declared = "") then
    if denyUnknown p then
      Denied DenyUnknownCode (coord_string (a_coord a)
        +:+ " declares no license and unknown licenses are denied")
    else Allowed
  else check_parts p a (Split declared " OR ").

Definition policy {Ctx St} (p : Cfg) : Policy Ctx St :=
  mkPolicy (fun _ _ _ st => (st, Allowed)) (fun _ _ a st => (st, check p a))
           (fun _ _ a st => (st, check p a)).
End License.

(** ** quarantine *)

(** What a policy call sees of the outside: the clock; whether the database
    can be read and written; the OSV service, which answers with the
    advisories (identifier and withdrawal date) of a package version or fails. *)
Record PolicyCtx := mkCtx {
  pc_now : Z;
  pc_db_read : bool;
  pc_db_write : bool;
  pc_osv : string -> string -> string -> option (list (string * string));
}.

Module Quarantine.
Definition DenyCode : string := "quarantined-new-release".
Definition DenyUnknownCode : string := "unknown-publication-time".

Record Cfg := mkCfg { minAge : Z; denyUnknown : bool }.

Definition New (o : options) : result option_error Cfg :=
  match o !! "min_age" with
  | None => Err (OptionRequired "min_age")
  | Some (VString s) =>
      match ParseDuration s with
      | None => Err (OptionValue "min_age" s)
      | Some d => if decide (d < 0) then Err (OptionValue "min_age" s)
                  else let? u := on_unknown o in Ok (mkCfg d u)
      end
  | Some _ => Err (OptionShape "min_age")
  end.

(** The reasons state the coordinate; the ages they print are left out. *)
Definition check (p : Cfg) (now : Z) (a : Artifact) : Decision :=
  let raw := Meta a MetaPublishedAt in
  if decide (raw = "") then
    if denyUnknown p then
      Denied DenyUnknownCode (coord_string (a_coord a)
        +:+ " has no known publication time and unknown ages are denied")
    else Allowed
  else match parse_rfc3339 raw with
       | None => if denyUnknown p then
                   Denied DenyUnknownCode (coord_string (a_coord a)
                     +:+ " has an unparsable publication time " +:+ raw)
                 else Allowed
       | Some published =>
           if decide (time_sub now published < minAge p) then
             Denied DenyCode (coord_string (a_coord a) +:+ " was published too recently")
           else Allowed
       end.

Definition policy {St} (p : Cfg) : Policy PolicyCtx St :=
  mkPolicy (fun _ _ _ st => (st, Allowed)) (fun ctx _ a st => (st, check p (pc_now ctx) a))
           (fun _ _ _ st => (st, Allowed)).
End Quarantine.

(** ** The verdict cache of the database ([core/state/hosted.go]) *)

Record verdict_row := mkVerdict { v_value : string; v_checked_at : Z }.
Notation verdict_table := (gmap (string * string) verdict_row).

(** [GetVerdict] through [policyServices]: [None] is an error, [Some None] no row. *)
Definition GetVerdict (up : bool) (namespace key : string) (t : verdict_table)
  : option (option verdict_row) :=
  if up then Some (t !! (namespace, key)) else None.

(** [PutVerdict]: insert, or replace value and time. *)
Definition PutVerdict (up : bool) (now : Z) (namespace key value : string) (t : verdict_table)
  : verdict_table :=
  if up then <[(namespace, key) := mkVerdict value now]> t else t.

(** ** osv *)

Module Osv.
Definition DenyCode : string := "known-vulnerability".
Definition defaultAPIURL : string := "https://api.osv.dev/v1/query".
Definition verdictNamespace : string := "osv".

Record Cfg := mkCfg {
  enforce : bool;
  failOpen : bool;
  cacheTTL : Z;
  apiURL : string;
  has_deps : bool;
}.

Record localEntry := mkEntry { e_vulnerable : bool; e_ids : string; e_expires : Z }.

(** The process's cache and the database's. *)
Record State := mkState { local : gmap string localEntry; verdicts : verdict_table }.

Definition New (deps : bool) (o : options) : result option_error Cfg :=
  let v := string_option o "mode" in
  let? enf := (if decide (v = "" \/ v = "warn") then Ok false
               else if decide (v = "enforce") then Ok true
               else Err (OptionValue "mode" v)) in
  let? fo := match o !! "fail_open" with
             | None => Ok true
             | Some (VBool b) => Ok b
             | Some _ => Err (OptionShape "fail_open")
             end in
  let? ttl := match o !! "cache_ttl" with
              | None => Ok (24 * Hour)
              | Some (VString s) =>
                  match ParseDuration s with
                  | Some d => if decide (d <= 0) then Err (OptionValue "cache_ttl" s) else Ok d
                  | None => Err (OptionValue "cache_ttl" s)
                  end
              | Some _ => Err (OptionShape "cache_ttl")
              end in
  let url := string_option o "api_url" in
  Ok (mkCfg enf fo ttl (if decide (url = "") then defaultAPIURL else url) deps).

Definition encodeVerdict (vulnerable : bool) (ids : string) : string :=
  if vulnerable then "vulnerable|" +:+ ids else "clean".

Definition decodeVerdict (value : string) : bool * string :=
  if has_prefix value "vulnerable|" then (true, trim_prefix value "vulnerable|") else (false, "").

(** [remember]. *)
Definition remember (p : Cfg) (now : Z) (key : string) (v : bool * string) (st : State) : State :=
  mkState (<[key := mkEntry v.1 v.2 (now + cacheTTL p)]> (local st)) (verdicts st).

(** What [query] makes of the service's answer: the identifiers of the
    advisories that were not withdrawn, sorted. *)
Definition query (ctx : PolicyCtx) (ecosystem pkg version : string) : option (bool * string) :=
  match pc_osv ctx ecosystem pkg version with
  | None => None
  | Some vulns =>
      let ids := sort_strings (map fst (filter (fun v => v.2 = "") vulns)) in
      Some (bool_decide (ids <> []), join ids ",")
  end.

Definition NUL : string := String Ascii.zero "".
Definition localKey (ecosystem pkg version : string) : string :=
  ecosystem +:+ NUL +:+ pkg +:+ NUL +:+ version.
Definition cacheKey (ecosystem pkg version : string) : string :=
  ecosystem +:+ "/" +:+ pkg +:+ "@" +:+ version.

(** The database's row for a package version, when it is fresh. *)
Definition db_verdict (p : Cfg) (ctx : PolicyCtx) (ck : string) (st : State)
  : option (bool * string) :=
  if has_deps p then
    match GetVerdict (pc_db_read ctx) verdictNamespace ck (verdicts st) with
    | Some (Some row) =>
        if decide (time_sub (pc_now ctx) (v_checked_at row) < cacheTTL p)
        then Some (decodeVerdict (v_value row)) else None
    | _ => None
    end
  else None.

(** [verdict]: the process's cache, then the database's, then the service. *)
Definition verdict (p : Cfg) (ctx : PolicyCtx) (ecosystem pkg version : string) (st : State)
  : State * option (bool * string) :=
  let key := localKey ecosystem pkg version in
  let ck := cacheKey ecosystem pkg version in
  let asked :=
    match db_verdict p ctx ck st with
    | Some v => (remember p (pc_now ctx) key v st, Some v)
    | None =>
        match query ctx ecosystem pkg version with
        | None => (st, None)
        | Some v =>
            let st1 := if has_deps p then
              mkState (local st) (PutVerdict (pc_db_write ctx) (pc_now ctx) verdictNamespace ck
                                    (encodeVerdict v.1 v.2) (verdicts st)) else st in
            (remember p (pc_now ctx) key v st1, Some v)
        end
    end in
  match local st !! key with
  | Some e => if decide (pc_now ctx < e_expires e) then (st, Some (e_vulnerable e, e_ids e)) else asked
  | None => asked
  end.

(** [check]. *)
Definition check (p : Cfg) (ctx : PolicyCtx) (a : Artifact) (st : State) : State * Decision :=
  let ecosystem := Meta a MetaEcosystem in
  let c := a_coord a in
  if decide (ecosystem = "" \/ c_name c = "" \/ c_version c = "") then (st, Allowed) else
  let '(st1, r) := verdict p ctx ecosystem (c_name c) (c_version c) st in
  (st1,
   match r with
   | None => if failOpen p then Allowed
             else Denied DenyCode ("vulnerability data unavailable for " +:+ coord_string c)
   | Some (vulnerable, ids) =>
       if negb vulnerable then Allowed
       else if negb (enforce p) then Allowed
       else Denied DenyCode (coord_string c +:+ " has known vulnerabilities: " +:+ ids)
   end).

Definition ecosystemFor (format : string) : string :=
  if decide (format = "maven") then "Maven"
  else if decide (format = "npm") then "npm"
  else if decide (format = "nuget") then "NuGet"
  else if decide (format = "composer") then "Packagist"
  else "".

Definition on_resolve (p : Cfg) (ctx : PolicyCtx) (c : PackageCoordinate) (st : State)
  : State * Decision :=
  if decide (c_version c = "") then (st, Allowed)
  else check p ctx (mkArtifact c 0 no_checksum {[ MetaEcosystem := ecosystemFor (c_format c) ]}) st.

Definition policy (p : Cfg) : Policy PolicyCtx State :=
  mkPolicy (fun ctx _ c => on_resolve p ctx c) (fun ctx _ a => check p ctx a)
           (fun ctx _ a => check p ctx a).
End Osv.

(** The registry the policies build when their packages are linked. *)
Definition builtin (deps : bool) : registry (Ctx := PolicyCtx) (St := Osv.State) :=
  {[ "allowlist" := fun o => let? p := Allowlist.New o in Ok (Allowlist.policy p);
     "license" := fun o => let? p := License.New o in Ok (License.policy p);
     "quarantine" := fun o => let? p := Quarantine.New o in Ok (Quarantine.policy p);
     "osv" := fun o => let? p := Osv.New deps o in Ok (Osv.policy p) ]}.

(** ** Well-formed patterns *)

(** Whether a pattern is malformed does not depend on the name. *)
Lemma path_match_well_formed pat name name' :
  is_Some (path_match pat name) -> is_Some (path_match pat name').
Proof. unfold path_match. by destruct (parse_pattern _ pat). Qed.

Lemma pattern_items_ok name i items ps :
  pattern_items name i items = Ok ps ->
  Forall (fun pat => pat <> "" /\ forall n, is_Some (path_match pat n)) ps.
Proof.
  revert i ps. induction items as [|[s| | |] items IH]; intros i ps; simpl;
    try done; [by intros [= <-]|].
  case_decide; [done|]. destruct (path_match s "probe") eqn:E; [|done].
  intros (ps' & Hps & [= <-])%rbind_Ok. constructor; [|by eapply IH].
  split; [done|]. intros n. eapply path_match_well_formed. by rewrite E.
Qed.

Lemma pattern_list_ok o name ps :
  pattern_list o name = Ok ps ->
  Forall (fun pat => pat <> "" /\ forall n, is_Some (path_match pat n)) ps.
Proof.
  unfold pattern_list. destruct (o !! name) as [[]|]; try done. apply pattern_items_ok.
Qed.

(** ** What each policy's permission means *)

Lemma allowlist_allows ps c :
  d_allow (Allowlist.allowed ps c) = true <-> exists pat, pat ∈ ps /\ path_matches pat (c_name c) = true.
Proof.
  unfold Allowlist.allowed. destruct (existsb _ ps) eqn:E; simpl.
  - split; [|done]. intros _. apply existsb_exists in E as (pat & Hin & Hm).
    exists pat. by rewrite <- list_elem_of_In in Hin.
  - split; [done|]. intros (pat & Hin & Hm). apply not_true_iff_false in E. exfalso. apply E.
    apply existsb_exists. exists pat. by rewrite <- list_elem_of_In.
Qed.

(** No part of the declared license, which is split on the text " OR " and
    nothing else, matches a denied pattern. *)
Definition license_clear (p : License.Cfg) (a : Artifact) : Prop :=
  let declared := TrimSpace (Meta a MetaLicense) in
  if decide (declared = "") then License.denyUnknown p = false
  else forall part pat, part ∈ Split declared " OR " -> pat ∈ License.deny p ->
         path_matches (ToLower pat) (ToLower (TrimSpace part)) = false.

Lemma check_parts_allows p a parts :
  d_allow (License.check_parts p a parts) = true <->
  forall part pat, part ∈ parts -> pat ∈ License.deny p ->
    path_matches (ToLower pat) (ToLower (TrimSpace part)) = false.
Proof.
  induction parts as [|part parts IH]; simpl; [set_solver|].
  destruct (existsb _ (License.deny p)) eqn:E; simpl.
  - split; [done|]. intros H. apply existsb_exists in E as (pat & Hin & Hm).
    rewrite <- list_elem_of_In in Hin. unfold License.matchLicense in Hm.
    rewrite (H part pat) in Hm; [done|set_solver|done].
  - rewrite IH. apply not_true_iff_false in E. rewrite existsb_exists in E.
    split; [|set_solver]. intros H part' pat [->|Hp]%elem_of_cons Hin; [|by apply H].
    apply not_true_iff_false. intros Hm. apply E. exists pat. by rewrite <- list_elem_of_In.
Qed.

Lemma license_allows p a : d_allow (License.check p a) = true <-> license_clear p a.
Proof.
  unfold License.check, license_clear. case_decide; [by destruct (License.denyUnknown p)|].
  apply check_parts_allows.
Qed.

(** The release is at least as old as the policy asks; when its age is not
    known the policy must accept that. *)
Definition old_enough (p : Quarantine.Cfg) (now : Z) (a : Artifact) : Prop :=
  match parse_rfc3339 (Meta a MetaPublishedAt) with
  | Some published => Quarantine.minAge p <= time_sub now published
  | None => Quarantine.denyUnknown p = false
  end.

Lemma quarantine_allows p now a : d_allow (Quarantine.check p now a) = true <-> old_enough p now a.
Proof.
  unfold Quarantine.check, old_enough. case_decide as Hr.
  - rewrite Hr. simpl. by destruct (Quarantine.denyUnknown p).
  - destruct (parse_rfc3339 _) as [t|]; [case_decide; simpl; split; (done || lia)|].
    by destruct (Quarantine.denyUnknown p).
Qed.

(** What is known of a package version's advisories: a verdict of this
    process that has not expired, else a row of the database that is fresh,
    else the answer of the service, in which a withdrawn advisory does not
    count. Something known clears the artifact when it reports nothing, or
    when the policy only warns; when nothing is known the policy must fail open. *)
Definition osv_clear (p : Osv.Cfg) (ctx : PolicyCtx) (st : Osv.State) (a : Artifact) : Prop :=
  let e := Meta a MetaEcosystem in let n := c_name (a_coord a) in let v := c_version (a_coord a) in
  let judged (vulnerable : Prop) := Osv.enforce p = true -> ~ vulnerable in
  let row := Osv.verdicts st !! (Osv.verdictNamespace, Osv.cacheKey e n v) in
  e = "" \/ n = "" \/ v = ""
  \/ (exists x, Osv.local st !! Osv.localKey e n v = Some x /\ pc_now ctx < Osv.e_expires x
                /\ judged (Osv.e_vulnerable x = true))
  \/ (forall x, Osv.local st !! Osv.localKey e n v = Some x -> Osv.e_expires x <= pc_now ctx)
     /\ ((exists r, Osv.has_deps p = true /\ pc_db_read ctx = true /\ row = Some r
                    /\ time_sub (pc_now ctx) (v_checked_at r) < Osv.cacheTTL p
                    /\ judged (has_prefix (v_value r) "vulnerable|" = true))
         \/ (forall r, Osv.has_deps p = true -> pc_db_read ctx = true -> row = Some r ->
                       Osv.cacheTTL p <= time_sub (pc_now ctx) (v_checked_at r))
            /\ match pc_osv ctx e n v with
               | Some advisories => judged (exists id, (id, "") ∈ advisories)
               | None => Osv.failOpen p = true
               end).

Lemma query_judged ctx e n v r : Osv.query ctx e n v = Some r ->
  exists advisories, pc_osv ctx e n v = Some advisories /\ (r.1 = true <-> exists id, (id, "") ∈ advisories).
Proof.
  unfold Osv.query. destruct (pc_osv ctx e n v) as [l|]; [|done]. intros [= <-]. exists l. split; [done|]. simpl.
  rewrite bool_decide_eq_true. assert (forall x : list string, x <> [] <-> exists id, id ∈ x) as Hne.
  { intros [|y x]; [|set_solver]. split; [done|]. by intros [? ?%elem_of_nil]. }
  rewrite Hne. apply exist_proper. intros id. rewrite sort_strings_perm, list_elem_of_fmap. split.
  - intros ([i w] & -> & [Hw Hin]%list_elem_of_filter). simpl in *. by subst.
  - intros Hin. exists (id, ""). split; [done|]. by apply list_elem_of_filter.
Qed.

Lemma osv_allows p ctx st a : d_allow (Osv.check p ctx a st).2 = true -> osv_clear p ctx st a.
Proof.
  unfold Osv.check, osv_clear. set (e := Meta a MetaEcosystem). set (n := c_name (a_coord a)). set (v := c_version (a_coord a)).
  case_decide as Hb; [tauto|]. destruct (Osv.verdict p ctx e n v st) as [st1 r] eqn:E. cbn [snd]. intros Ha.
  assert (forall w i, r = Some (w, i) -> Osv.enforce p = true -> w <> true) as Hj.
  { intros w i -> He. rewrite He in Ha. by destruct w. }
  right. right. right. revert E. unfold Osv.verdict. destruct (Osv.local st !! _) as [x|] eqn:El; [case_decide as Hx|].
  { intros [= <- <-]. left. exists x. by eauto. }
  all: intros E; right; (split; [intros y ?; simplify_eq; lia|]).
  all: revert E; unfold Osv.db_verdict, GetVerdict.
  all: destruct (Osv.has_deps p); [destruct (pc_db_read ctx);
         [destruct (Osv.verdicts st !! _) as [row|] eqn:Er; [case_decide as Hr|]|]|].
  all: try (intros [= <- <-]; left; exists row; split_and!; [done..|]; intros He Hv;
            apply (Hj true (trim_prefix (v_value row) "vulnerable|")); [unfold Osv.decodeVerdict; by rewrite Hv|done|done]).
  all: intros E; right; (split; [intros; simplify_eq; lia|]).
  all: revert E; destruct (Osv.query ctx e n v) as [[w ids]|] eqn:Q;
       [apply query_judged in Q as (l & -> & Hl)|]; intros [= <- <-].
  all: try (intros He Hv%Hl; by eapply Hj).
  all: unfold Osv.query in Q; destruct (pc_osv ctx e n v); [done|]; by destruct (Osv.failOpen p).
Qed.

(** ** The gate a feed's configuration builds *)

(** What a configured policy demands of an artifact that is served, in the
    state it is asked in. *)
Definition demands (deps : bool) (ctx : PolicyCtx) (st : Osv.State) (a : Artifact) (cfg : string * options) : Prop :=
  let '(name, o) := cfg in
  if decide (name = "allowlist") then
    exists ps pat, Allowlist.New o = Ok ps /\ pat ∈ ps /\ path_match pat (c_name (a_coord a)) = Some true
  else if decide (name = "license") then exists p, License.New o = Ok p /\ license_clear p a
  else if decide (name = "quarantine") then exists p, Quarantine.New o = Ok p /\ old_enough p (pc_now ctx) a
  else if decide (name = "osv") then exists p, Osv.New deps o = Ok p /\ osv_clear p ctx st a
  else False.

(** A chain's entries are what the registry makes of the configuration. *)
Lemma NewChain_entries {Ctx St} (r : registry (Ctx := Ctx) (St := St)) cfgs c :
  NewChain r cfgs = Ok c ->
  Forall2 (fun cfg np => np.1 = cfg.1 /\ NewPolicy r cfg.1 cfg.2 = Ok np.2) cfgs c.
Proof.
  revert c. induction cfgs as [|[name o] cfgs IH]; intros c; simpl; [by intros [= <-]|].
  intros (p & Hp & (c' & Hc & [= <-])%rbind_Ok)%rbind_Ok. constructor; [done|]. by apply IH.
Qed.

Lemma path_matches_true pat name : path_matches pat name = true <-> path_match pat name = Some true.
Proof. unfold path_matches. destruct (path_match pat name) as [[]|]; simpl; naive_solver. Qed.

Lemma builtin_demands deps name o p ctx id a st :
  NewPolicy (builtin deps) name o = Ok p ->
  d_allow (OnServe p ctx id a st).2 = true -> demands deps ctx st a (name, o).
Proof.
  unfold NewPolicy, builtin, demands. intros Hp Ha.
  destruct (decide (name = "allowlist")) as [->|H1]; [|destruct (decide (name = "license")) as [->|H2];
    [|destruct (decide (name = "quarantine")) as [->|H3]; [|destruct (decide (name = "osv")) as [->|H4]]]].
  1-4: simplify_map_eq; apply rbind_Ok in Hp as (q & Hq & [= <-]).
  - apply allowlist_allows in Ha as (pat & Hin & Hm). exists q, pat. by rewrite <- path_matches_true.
  - exists q. by rewrite <- license_allows.
  - exists q. by rewrite <- quarantine_allows.
  - exists q. split; [done|]. by apply osv_allows.
  - unfold registry in Hp. destruct (_ !! name) as [f|] eqn:E in Hp; [|done].
    repeat (apply lookup_insert_Some in E as [[E _]|[_ E]]; [done|]). by apply lookup_singleton_Some in E as [E _].
Qed.

Lemma NewChain_app {Ctx St} (r : registry (Ctx := Ctx) (St := St)) l1 l2 c :
  NewChain r (l1 ++ l2) = Ok c -> exists c1 c2, NewChain r l1 = Ok c1 /\ NewChain r l2 = Ok c2 /\ c = c1 ++ c2.
Proof.
  revert c. induction l1 as [|[name o] l1 IH]; intros c; simpl; [by eauto 6|].
  intros (p & Hp & (c' & (c1 & c2 & H1 & H2 & ->)%IH & [= <-])%rbind_Ok)%rbind_Ok.
  exists ((name, p) :: c1), c2. by rewrite Hp, H1.
Qed.


(** A feed with all four policies, and an artifact. *)
Definition demo_cfgs : list (string * options) :=
  [("allowlist", {[ "allow" := VList [VString "@acme/*"] ]});
   ("license", {[ "deny" := VList [VString "agpl-*"] ]});
   ("quarantine", {[ "min_age" := VString "24h" ]});
   ("osv", {[ "mode" := VString "enforce" ]})].
Definition demo_chain : Chain PolicyCtx Osv.State :=
  match NewChain (builtin true) demo_cfgs with Ok c => c | Err _ => [] end.
Definition demo_ctx : PolicyCtx := mkCtx (3 * 24 * Hour) true true (fun _ _ _ => Some []).
Definition demo_artifact (published : string) : Artifact :=
  mkArtifact (mkCoord "npm" "@acme/lib" "1.0.0") 1 no_checksum
    {[ MetaPublishedAt := published; MetaLicense := "MIT"; MetaEcosystem := "npm" ]}.
Definition osv_empty : Osv.State := Osv.mkState ∅ ∅.


(** The license check splits on the text " OR ": an expression in parentheses,
    the form the npm documentation gives, hides a denied license. *)
Theorem license_parentheses_evade :
  let p := License.mkCfg ["GPL-3.0"] true in
  let a l := mkArtifact (mkCoord "npm" "x" "1") 1 no_checksum {[ MetaLicense := l ]} in
  d_allow (License.check p (a "MIT OR GPL-3.0")) = false
  /\ d_allow (License.check p (a "(MIT OR GPL-3.0)")) = true
  /\ d_allow (License.check p (a "MIT AND GPL-3.0")) = true.
Proof. by vm_compute. Qed.

(** ** OSV verdicts *)


Lemma decode_encode_verdict v ids :
  Osv.decodeVerdict (Osv.encodeVerdict v ids) = (v, if v then ids else "").
Proof.
  unfold Osv.decodeVerdict, Osv.encodeVerdict. destruct v; [|done].
  by rewrite has_prefix_app_r, trim_prefix_app.
Qed.

(** A query's answer that is clean names no advisory. *)
Lemma query_clean ctx e pk v r : Osv.query ctx e pk v = Some r -> r = (r.1, if r.1 then r.2 else "").
Proof.
  unfold Osv.query. destruct (pc_osv ctx e pk v) as [l|]; [|done]. intros [= <-]. simpl.
  destruct (sort_strings _) as [|x xs]; [done|]. by rewrite bool_decide_eq_true_2.
Qed.

(** Texts without the separators the keys use. *)
Definition plain (ecosystem pkg version : string) : Prop :=
  contains_char ecosystem Ascii.zero = false /\ contains_char pkg Ascii.zero = false
  /\ contains_char ecosystem "/"%char = false /\ contains_char version "@"%char = false.

Lemma app_sep_inj a b a' b' c :
  contains_char a c = false -> contains_char a' c = false ->
  a +:+ String c b = a' +:+ String c b' -> a = a' /\ b = b'.
Proof.
  intros Ha Ha' H. pose proof (Cut_char_app a c b Ha) as H1.
  rewrite H, (Cut_char_app a' c b' Ha') in H1. by simplify_eq.
Qed.

Lemma app_last_sep_inj a b a' b' c :
  contains_char b c = false -> contains_char b' c = false ->
  a +:+ String c b = a' +:+ String c b' -> a = a' /\ b = b'.
Proof.
  intros Hb Hb'. revert a'. induction a as [|x a IH]; intros [|x' a'] H; simplify_eq/=.
  - done.
  - exfalso. clear -Hb. induction a' as [|y a' IH]; simpl in Hb.
    + by rewrite bool_decide_eq_true_2 in Hb by done.
    + apply orb_false_iff in Hb as [_ Hb]. by apply IH.
  - exfalso. clear -Hb'. induction a as [|y a' IH]; simpl in Hb'.
    + by rewrite bool_decide_eq_true_2 in Hb' by done.
    + apply orb_false_iff in Hb' as [_ Hb']. by apply IH.
  - destruct (IH a') as [-> ->]; done.
Qed.

Lemma localKey_inj e p v e' p' v' :
  plain e p v -> plain e' p' v' ->
  Osv.localKey e p v = Osv.localKey e' p' v' -> e = e' /\ p = p' /\ v = v'.
Proof.
  intros (?&?&_) (?&?&_) Hk. apply app_sep_inj in Hk as [-> Hk]; [|done..].
  by apply app_sep_inj in Hk as [-> ->].
Qed.

Lemma cacheKey_inj e p v e' p' v' :
  plain e p v -> plain e' p' v' ->
  Osv.cacheKey e p v = Osv.cacheKey e' p' v' -> e = e' /\ p = p' /\ v = v'.
Proof.
  intros (_&_&?&?) (_&_&?&?) Hk. apply app_sep_inj in Hk as [-> Hk]; [|done..].
  by apply app_last_sep_inj in Hk as [-> ->].
Qed.

(** *** Freshness *)

Section osv.
Context (p : Osv.Cfg) (deps : Osv.has_deps p = true).
Context (ttl_range : 0 < Osv.cacheTTL p < 2 ^ 63).
(** What the OSV service says of a package version at a time. *)
Context (truth : Z -> string -> string -> string -> option (bool * string)).
Context (truth_clean : forall t e pk v r, truth t e pk v = Some r -> r = (r.1, if r.1 then r.2 else "")).

(** A call sees the service as it is at its time, or not at all. *)
Definition honest (ctx : PolicyCtx) : Prop :=
  forall e pk v r, Osv.query ctx e pk v = Some r -> truth (pc_now ctx) e pk v = Some r.

(** The states a process can be in: verdicts are asked for, other processes
    store theirs in the database, and rows are removed. *)
Inductive osv_reach : Osv.State -> Prop :=
| osv_init db : db = ∅ -> osv_reach (Osv.mkState ∅ db)
| osv_ask st ctx e pk v :
    osv_reach st -> honest ctx -> plain e pk v ->
    osv_reach (Osv.verdict p ctx e pk v st).1
| osv_other st now e pk v r :
    osv_reach st -> plain e pk v -> truth now e pk v = Some r ->
    osv_reach (Osv.mkState (Osv.local st)
      (PutVerdict true now Osv.verdictNamespace (Osv.cacheKey e pk v) (Osv.encodeVerdict r.1 r.2)
         (Osv.verdicts st)))
| osv_forget st k :
    osv_reach st -> osv_reach (Osv.mkState (Osv.local st) (delete k (Osv.verdicts st)))
| osv_restart st : osv_reach st -> osv_reach (Osv.mkState ∅ (Osv.verdicts st)).

(** Every cached verdict is one the service gave, at the time the row says,
    or less than two lifetimes before the entry expires. *)
Definition row_ok (vs : verdict_table) (e pk v : string) : Prop :=
  forall row, vs !! (Osv.verdictNamespace, Osv.cacheKey e pk v) = Some row ->
    truth (v_checked_at row) e pk v = Some (Osv.decodeVerdict (v_value row)).
Definition entry_ok (l : gmap string Osv.localEntry) (e pk v : string) : Prop :=
  forall en, l !! Osv.localKey e pk v = Some en ->
    exists t, Osv.e_expires en < t + 2 * Osv.cacheTTL p
      /\ truth t e pk v = Some (Osv.e_vulnerable en, Osv.e_ids en).
Definition osv_ok (st : Osv.State) : Prop :=
  forall e pk v, plain e pk v -> row_ok (Osv.verdicts st) e pk v /\ entry_ok (Osv.local st) e pk v.

Lemma put_row_ok vs now e pk v r e' pk' v' :
  plain e pk v -> plain e' pk' v' -> truth now e pk v = Some r ->
  row_ok vs e' pk' v' ->
  row_ok (PutVerdict true now Osv.verdictNamespace (Osv.cacheKey e pk v)
            (Osv.encodeVerdict r.1 r.2) vs) e' pk' v'.
Proof.
  intros Hp Hp' Hr Hok row. unfold PutVerdict. simpl.
  destruct (decide (Osv.cacheKey e pk v = Osv.cacheKey e' pk' v')) as [Heq|Hne].
  - apply cacheKey_inj in Heq as (<- & <- & <-); [|done..].
    rewrite lookup_insert_eq. intros [= <-]. simpl. rewrite decode_encode_verdict, Hr.
    f_equal. by eapply truth_clean.
  - rewrite lookup_insert_ne by congruence. apply Hok.
Qed.

Lemma remember_ok now st e pk v r t :
  plain e pk v -> truth t e pk v = Some r -> now < t + Osv.cacheTTL p -> osv_ok st ->
  osv_ok (Osv.remember p now (Osv.localKey e pk v) r st).
Proof.
  intros Hp Hr Ht Hok e' pk' v' Hp'. destruct (Hok e' pk' v' Hp') as [H1 H2].
  split; [exact H1|]. intros en. simpl.
  destruct (decide (Osv.localKey e pk v = Osv.localKey e' pk' v')) as [Heq|Hne].
  - apply localKey_inj in Heq as (<- & <- & <-); [|done..].
    rewrite lookup_insert_eq. intros [= <-]. simpl. exists t. split; [lia|]. by destruct r.
  - rewrite lookup_insert_ne by done. apply H2.
Qed.

(** One call: the state stays well, and the answer is the service's of less
    than two lifetimes ago. *)
Lemma verdict_ok st ctx e pk v st' r :
  osv_ok st -> honest ctx -> plain e pk v -> Osv.verdict p ctx e pk v st = (st', r) ->
  osv_ok st'
  /\ forall a, r = Some a -> exists t, pc_now ctx < t + 2 * Osv.cacheTTL p /\ truth t e pk v = Some a.
Proof.
  intros Hok Hh Hp. unfold Osv.verdict.
  set (asked := match Osv.db_verdict p ctx _ st with Some _ => _ | None => _ end).
  assert (asked = (st', r) -> osv_ok st'
    /\ forall a, r = Some a -> exists t, pc_now ctx < t + 2 * Osv.cacheTTL p /\ truth t e pk v = Some a)
    as Hasked.
  { subst asked. destruct (Osv.db_verdict _ _ _ _) as [d|] eqn:Ed.
    - unfold Osv.db_verdict in Ed. rewrite deps in Ed. unfold GetVerdict in Ed.
      destruct (pc_db_read ctx); [|done].
      destruct (Osv.verdicts st !! _) as [row|] eqn:Er; [|done].
      case_decide as Hage; [|done]. simplify_eq. apply (Hok e pk v Hp) in Er.
      assert (pc_now ctx < v_checked_at row + Osv.cacheTTL p)
        by (unfold time_sub in Hage; lia).
      intros [= <- <-]. split; [by eapply remember_ok|]. intros a [= <-].
      exists (v_checked_at row). split; [lia|done].
    - destruct (Osv.query ctx e pk v) as [q|] eqn:Eq; [|by intros [= <- <-]].
      pose proof (Hh _ _ _ _ Eq) as Ht. intros [= <- <-]. split.
      + eapply remember_ok; [done..|lia|]. rewrite deps. destruct (pc_db_write ctx); [|by destruct st].
        intros e' pk' v' Hp'. destruct (Hok e' pk' v' Hp') as [H1 H2]. split; [|exact H2].
        simpl. by apply put_row_ok.
      + intros a [= <-]. exists (pc_now ctx). split; [lia|done]. }
  destruct (Osv.local st !! Osv.localKey e pk v) as [en|] eqn:El; [|exact Hasked].
  case_decide as Hexp; [|exact Hasked]. intros [= <- <-]. split; [done|].
  intros a [= <-]. destruct (Hok e pk v Hp) as [_ He]. destruct (He _ El) as (t & Ht & Htr).
  exists t. split; [lia|done].
Qed.

Lemma osv_reach_ok st : osv_reach st -> osv_ok st.
Proof.
  induction 1 as [db ->|st ctx e pk v _ IH Hh Hp|st now e pk v r _ IH Hp Hr|st k _ IH|st _ IH].
  - intros e pk v _. split; intros x Hx; simpl in Hx; by rewrite lookup_empty in Hx.
  - destruct (Osv.verdict p ctx e pk v st) as [st' r] eqn:E. by eapply verdict_ok in E as [? _].
  - intros e' pk' v' Hp'. destruct (IH e' pk' v' Hp') as [H1 H2]. split; [|exact H2].
    by apply put_row_ok.
  - intros e pk v Hp. destruct (IH e pk v Hp) as [H1 H2]. split; [|exact H2].
    intros row Hrow. simpl in Hrow. apply lookup_delete_Some in Hrow as [_ Hrow]. by apply H1.
  - intros e pk v Hp. destruct (IH e pk v Hp) as [H1 H2]. split; [exact H1|].
    intros en Hen. simpl in Hen. by rewrite lookup_empty in Hen.
Qed.
End osv.

(** Through the process cache, the shared database cache, other processes'
    writes and restarts, a vulnerability verdict is always one the OSV service
    gave for that very package version, less than two cache lifetimes ago. *)
Theorem osv_verdict_fresh p (truth : Z -> string -> string -> string -> option (bool * string)) st ctx e pk v a :
  Osv.has_deps p = true -> 0 < Osv.cacheTTL p < 2 ^ 63 ->
  (forall t e pk v r, truth t e pk v = Some r -> r = (r.1, if r.1 then r.2 else "")) ->
  osv_reach p truth st -> honest truth ctx -> plain e pk v ->
  (Osv.verdict p ctx e pk v st).2 = Some a ->
  exists t, pc_now ctx < t + 2 * Osv.cacheTTL p /\ truth t e pk v = Some a.
Proof.
  intros Hd Ht Hc Hr Hh Hp Ha. destruct (Osv.verdict p ctx e pk v st) as [st' r] eqn:E.
  apply (verdict_ok p Hd Ht truth Hc) in E as [_ E]; [by apply E|by apply osv_reach_ok|done|done].
Qed.

(** A service that learns of an advisory at time 100; a lifetime of 24 hours. *)
Definition demo_truth (t : Z) (e pk v : string) : option (bool * string) :=
  if decide (t < 100) then Some (false, "") else Some (true, "CVE-1").
Definition demo_osv : Osv.Cfg := Osv.mkCfg true false (24 * Hour) Osv.defaultAPIURL true.
Definition demo_at (t : Z) : PolicyCtx :=
  mkCtx t true true (fun _ _ _ => Some (if decide (t < 100) then [] else [("CVE-1", "")])).
(** Another process asked at time 0; this one reads its row just before the
    row ages out. *)
Definition demo_other : Osv.State :=
  Osv.mkState ∅ (PutVerdict true 0 Osv.verdictNamespace (Osv.cacheKey "npm" "x" "1")
                   (Osv.encodeVerdict false "") ∅).
Definition demo_late : Osv.State := (Osv.verdict demo_osv (demo_at (24 * Hour - 1)) "npm" "x" "1" demo_other).1.

Lemma demo_at_honest t : honest demo_truth (demo_at t).
Proof.
  intros e pk v r. unfold Osv.query, demo_at, demo_truth. cbn [pc_osv pc_now].
  case_decide; intros Hq; exact Hq.
Qed.

Lemma demo_late_reach : osv_reach demo_osv demo_truth demo_late.
Proof.
  apply osv_ask; [|apply demo_at_honest|by vm_compute].
  apply (osv_other demo_osv demo_truth (Osv.mkState ∅ ∅) 0 "npm" "x" "1" (false, "")).
  - by apply osv_init.
  - by vm_compute.
  - reflexivity.
Qed.

Lemma osv_verdict_fresh_witness :
  (Osv.verdict demo_osv (demo_at (48 * Hour - 2)) "npm" "x" "1" demo_late).2 = Some (false, "")
  /\ exists t, 48 * Hour - 2 < t + 2 * (24 * Hour) /\ demo_truth t "npm" "x" "1" = Some (false, "").
Proof.
  split; [vm_compute; reflexivity|].
  apply (osv_verdict_fresh demo_osv demo_truth demo_late (demo_at (48 * Hour - 2)) "npm" "x" "1").
  - reflexivity.
  - split; vm_compute; reflexivity.
  - intros t e pk v r. unfold demo_truth. case_decide; intros [= <-]; reflexivity.
  - apply demo_late_reach.
  - apply demo_at_honest.
  - repeat split; reflexivity.
  - vm_compute. reflexivity.
Defined.

(** The bound is reached: with a lifetime of 24 hours, a verdict is still
    served from the caches almost 48 hours after the service gave it, because
    a row read from the database is remembered for another whole lifetime. *)
Theorem osv_cache_doubles_ttl :
  (Osv.verdict demo_osv (demo_at (48 * Hour - 2)) "npm" "x" "1" demo_late).2 = Some (false, "")
  /\ (Osv.verdict demo_osv (demo_at (48 * Hour - 2)) "npm" "x" "1" osv_empty).2 = Some (true, "CVE-1").
Proof. split; vm_compute; reflexivity. Qed.
End Policies.
