(* ===== verification/Auth.v ===== *)
(** * Authentication ([core/auth], identities of [core/api/types.go])

    Resolving a request's credentials to an identity: static tokens looked up
    by hash behind a cache, OIDC id_tokens verified against an issuer's keys,
    and the textual form identities travel in between sites.

    The token verifier is a step relation, because what matters about it is
    how requests, the revocation sweep and revocations interleave: a request
    that misses the cache reads the database and later finishes with what it
    saw. Time is in nanoseconds. *)

From S2P Require Import Prelude GoLib Access Pipeline.
Open Scope Z_scope.

Module Auth.

(** ** Identities ([core/api/types.go]) *)

Definition IdentityAnonymous : string := "anonymous".
Definition IdentityToken : string := "token".
Definition IdentityOIDC : string := "oidc".

Definition Anonymous : Identity := mkIdentity IdentityAnonymous "anonymous" "" "" "".

(** [ParseIdentity] reverses [Identity.String]. *)
Definition ParseIdentity (s : string) : Identity :=
  match Cut s ":" with
  | None => mkIdentity IdentityAnonymous s "" "" ""
  | Some (kind, subject) =>
      mkIdentity (if decide (kind = IdentityToken) then IdentityToken
                  else if decide (kind = IdentityOIDC) then IdentityOIDC
                  else IdentityAnonymous) subject "" "" ""
  end.

(** An identity and whether it was verified only before an outage ([Stale]). *)
Record Authed := mkAuthed { au_id : Identity; au_stale : bool }.

Inductive auth_error :=
| Unauthorized
| Unavailable
| LookupFailed.

(** ** Publishers ([core/auth/permissions.go]) *)

Inductive publishers_error :=
| PublisherEmpty (i : nat)
| PublisherPattern (i : nat) (pattern : string).

Fixpoint NewPublishers (i : nat) (patterns : list string) : result publishers_error (list string) :=
  match patterns with
  | [] => Ok []
  | raw :: rest =>
      if decide (raw = "") then Err (PublisherEmpty i)
      else match path_match raw "probe" with
           | None => Err (PublisherPattern i raw)
           | Some _ => let? ps := NewPublishers (S i) rest in Ok (raw :: ps)
           end
  end.

Definition identitySubjects (id : Identity) : list string :=
  [id_kind id +:+ ":" +:+ id_subject id]
  ++ (if decide (id_project_path id <> "") then ["project:" +:+ id_project_path id] else [])
  ++ (if decide (id_ref id <> "" /\ id_project_path id <> "")
      then ["project:" +:+ id_project_path id +:+ "@" +:+ id_ref id] else []).

Definition publishers_allowed (patterns : list string) (id : Identity) : bool :=
  if bool_decide (patterns = []) || IsAnonymous id then false
  else existsb (fun subject => existsb (fun pat =>
         bool_decide (pat = "*") || path_matches pat subject) patterns) (identitySubjects id).

(** ** The token store ([Tokens], [RevokeTx]) *)

Record token_row := mkRow { r_name : string; r_revoked_at : option Z }.
(** The table, by hash. *)
Notation token_table := (gmap string token_row).

Definition TokenPrefix : string := "reg_".

(** What a lookup can answer. *)
Inductive lookup_result :=
| Found (name : string)
| NotFound
| Unreachable
| Failed.

(** [Tokens.Lookup] against a database that answers. *)
Definition Lookup (t : token_table) (hash : string) : lookup_result :=
  match t !! hash with
  | Some (mkRow name None) => Found name
  | _ => NotFound
  end.

(** [RevokeTx]: the first revocation's time is kept. [None] when no token has
    the name. *)
Definition RevokeTx (now : Z) (name : string) (t : token_table) : option token_table :=
  if bool_decide (map_Exists (fun _ row => r_name row = name) t) then
    Some ((fun row => if decide (r_name row = name)
                      then mkRow name (Some (default now (r_revoked_at row))) else row) <$> t)
  else None.

(** [Tokens.RecentlyRevoked]: whole seconds of the period. *)
Definition RecentlyRevoked (now since : Z) (t : token_table) (hash : string) : bool :=
  match t !! hash with
  | Some (mkRow _ (Some r)) => bool_decide (now - since / Second * Second < r)
  | _ => false
  end.

(** [Tokens.Create]: names and hashes are unique. *)
Definition Create (name hash : string) (t : token_table) : option token_table :=
  if decide (name = "" \/ is_Some (t !! hash)
             \/ map_Exists (fun _ row => r_name row = name) t) then None
  else Some (<[hash := mkRow name None]> t).

(** ** The verifier ([TokenVerifier]) *)

Record tokenCacheEntry := mkEntry { e_name : string; e_expires : Z; e_stale_until : Z }.

Record TokenVerifier := mkVerifier {
  ttl : Z;
  staleFor : Z;
  cache : gmap string tokenCacheEntry;
}.

Definition defaultStaleWindow : Z := 6 * Hour.
Definition NewTokenVerifier (t : Z) : TokenVerifier := mkVerifier t defaultStaleWindow ∅.
Definition SetStaleWindow (v : TokenVerifier) (d : Z) : TokenVerifier := mkVerifier (ttl v) d (cache v).

Definition token_identity (name : string) : Identity := mkIdentity IdentityToken name "" "" "".
Definition set_cache (v : TokenVerifier) (c : gmap string tokenCacheEntry) : TokenVerifier :=
  mkVerifier (ttl v) (staleFor v) c.

(** The first half of [Authenticate]: a live cache entry answers. *)
Definition authenticate_cached (v : TokenVerifier) (now : Z) (hash : string) : option Authed :=
  match cache v !! hash with
  | Some e => if decide (now < e_expires e) then Some (mkAuthed (token_identity (e_name e)) false) else None
  | None => None
  end.

(** The second half, with the entry seen before the lookup: the three arms of
    the switch on the lookup's outcome. *)
Definition authenticate_finish (v : TokenVerifier) (now : Z) (hash : string)
  (e : option tokenCacheEntry) (r : lookup_result) : TokenVerifier * result auth_error Authed :=
  match r with
  | Found name =>
      (set_cache v (<[hash := mkEntry name (now + ttl v) (now + staleFor v)]> (cache v)),
       Ok (mkAuthed (token_identity name) false))
  | NotFound => (set_cache v (delete hash (cache v)), Err Unauthorized)
  | Failed => (v, Err LookupFailed)
  | Unreachable =>
      (v, match e with
          | Some e => if decide (0 < staleFor v /\ now < e_stale_until e)
                      then Ok (mkAuthed (token_identity (e_name e)) true) else Err Unavailable
          | None => Err Unavailable
          end)
  end.

(** [Authenticate] without interleaving: [t0] before the lookup, [t1] after. *)
Definition Authenticate (hashHex : string -> string) (v : TokenVerifier) (t0 t1 : Z)
  (lookup : string -> lookup_result) (secret : string) : TokenVerifier * result auth_error Authed :=
  let hash := hashHex secret in
  match authenticate_cached v t0 hash with
  | Some id => (v, Ok id)
  | None => authenticate_finish v t1 hash (cache v !! hash) (lookup hash)
  end.

(** [Revoke]: the cache without the hashes, and how many were evicted. *)
Definition Revoke (v : TokenVerifier) (hashes : list string) : TokenVerifier * nat :=
  foldl (fun '(v, n) h => match cache v !! h with
                          | Some _ => (set_cache v (delete h (cache v)), S n)
                          | None => (v, n)
                          end) (v, 0%nat) hashes.

(** The period a sweep looks back: four lifetimes, at least a minute. *)
Definition lookback (v : TokenVerifier) : Z := if decide (ttl v * 4 < Minute) then Minute else ttl v * 4.

(** One tick of [WatchRevocations] against a database that answers. *)
Definition sweep (v : TokenVerifier) (now : Z) (t : token_table) : TokenVerifier :=
  (Revoke v (filter (fun h => RecentlyRevoked now (lookback v) t h = true)
               (map fst (map_to_list t)))).1.

(** ** Reading the Authorization header *)

Definition b64_val (c : Ascii.ascii) : option N :=
  let n := Ascii.N_of_ascii c in
  if ((65 <=? n) && (n <=? 90))%N then Some (n - 65)%N
  else if ((97 <=? n) && (n <=? 122))%N then Some (n - 71)%N
  else if ((48 <=? n) && (n <=? 57))%N then Some (n + 4)%N
  else if (n =? 43)%N then Some 62%N
  else if (n =? 47)%N then Some 63%N
  else None.

(** [base64.StdEncoding.DecodeString], padding included. *)
Fixpoint b64_decode (s : string) : option string :=
  match s with
  | EmptyString => Some ""
  | String a (String b (String c (String d r))) =>
      x ← b64_val a; y ← b64_val b;
      let c1 := Ascii.ascii_of_N (x * 4 + y / 16) in
      if decide (c = "="%char) then
        (if decide (d = "="%char /\ r = "") then Some (String c1 "") else None)
      else
        z ← b64_val c;
        let c2 := Ascii.ascii_of_N ((y mod 16) * 16 + z / 4) in
        if decide (d = "="%char) then
          (if decide (r = "") then Some (String c1 (String c2 "")) else None)
        else
          w ← b64_val d;
          rest ← b64_decode r;
          Some (String c1 (String c2 (String (Ascii.ascii_of_N ((z mod 4) * 64 + w)) rest)))
  | _ => None
  end.

(** [Request.BasicAuth]: user and password of a Basic header. *)
Definition BasicAuth (header : string) : option (string * string) :=
  if EqualFold (String.substring 0 6 header) "Basic " then
    c ← b64_decode (String.substring 6 (String.length header) header);
    Cut c ":"
  else None.

(** The credential a header carries: [None] when it is malformed. *)
Definition credential (header : string) : option string :=
  match Cut header " " with
  | None => None
  | Some (scheme, rest) =>
      if decide (rest = "") then None
      else if EqualFold scheme "Bearer" then Some (TrimSpace rest)
      else if EqualFold scheme "Basic" then
        match BasicAuth header with
        | None => None
        | Some (_, password) =>
            let cred := TrimSpace password in
            if decide (cred = "") then None else Some cred
        end
      else None
  end.

(** [Identify]: the backends are arguments; [None] is a backend that is not
    configured. *)
Definition Identify {St} (tokens oidc : option (string -> St -> St * result auth_error Authed))
  (header : string) (st : St) : St * result auth_error Authed :=
  if decide (header = "") then (st, Ok (mkAuthed Anonymous false)) else
  match credential header with
  | None => (st, Err Unauthorized)
  | Some cred =>
      if has_prefix cred TokenPrefix then
        match tokens with None => (st, Err Unauthorized) | Some f => f cred st end
      else if decide (count_char cred "."%char = 2%nat) then
        match oidc with None => (st, Err Unauthorized) | Some f => f cred st end
      else (st, Err Unauthorized)
  end.

(** ** The running verifier as a step relation *)

(** A request between its lookup and its answer: what it saw in the cache and
    in the database, and when. *)
Record pending := mkPending {
  p_hash : string;
  p_entry : option tokenCacheEntry;
  p_start : Z;
  p_result : lookup_result;
}.

Record World := mkWorld {
  w_now : Z;
  w_tokens : token_table;
  w_v : TokenVerifier;
  w_pending : list pending;
}.

Section steps.
(** A lookup is answered, or fails, within [d]. *)
Context (d : Z).

(** One step, with the identity it hands out, if any, for a token's hash. *)
Inductive step : World -> option (string * Authed) -> World -> Prop :=
| step_tick now dt t v ps :
    0 <= dt -> Forall (fun p => now + dt <= p_start p + d) ps ->
    step (mkWorld now t v ps) None (mkWorld (now + dt) t v ps)
| step_revoke now t v ps name t' :
    RevokeTx now name t = Some t' ->
    step (mkWorld now t v ps) None (mkWorld now t' v ps)
| step_create now t v ps name hash t' :
    Create name hash t = Some t' ->
    step (mkWorld now t v ps) None (mkWorld now t' v ps)
| step_hit now t v ps h id :
    authenticate_cached v now h = Some id ->
    step (mkWorld now t v ps) (Some (h, id)) (mkWorld now t v ps)
| step_lookup now t v ps h r :
    authenticate_cached v now h = None ->
    r = Lookup t h \/ r = Unreachable \/ r = Failed ->
    step (mkWorld now t v ps) None (mkWorld now t v (mkPending h (cache v !! h) now r :: ps))
| step_answer now t v ps1 p ps2 v' id :
    authenticate_finish v now (p_hash p) (p_entry p) (p_result p) = (v', Ok id) ->
    step (mkWorld now t v (ps1 ++ p :: ps2)) (Some (p_hash p, id)) (mkWorld now t v' (ps1 ++ ps2))
| step_refuse now t v ps1 p ps2 v' e :
    authenticate_finish v now (p_hash p) (p_entry p) (p_result p) = (v', Err e) ->
    step (mkWorld now t v (ps1 ++ p :: ps2)) None (mkWorld now t v' (ps1 ++ ps2))
| step_sweep now t v ps :
    step (mkWorld now t v ps) None (mkWorld now t (sweep v now t) ps).

Inductive steps : World -> World -> Prop :=
| steps_refl w : steps w w
| steps_next w1 w2 w3 o : steps w1 w2 -> step w2 o w3 -> steps w1 w3.

(** A process starts with an empty cache. *)
Definition initial (w : World) : Prop := cache (w_v w) = ∅ /\ w_pending w = [] /\ 0 < ttl (w_v w).
Definition reachable (w : World) : Prop := exists w0, initial w0 /\ steps w0 w.

(** *** The table: names stay, revocation is one-way *)

(** The token had this name and was not yet revoked at [u]. *)
Definition active_at (t : token_table) (h name : string) (u : Z) : Prop :=
  exists row, t !! h = Some row /\ r_name row = name /\ forall r, r_revoked_at row = Some r -> u <= r.

Lemma Lookup_active t h name now :
  Lookup t h = Found name -> active_at t h name now.
Proof.
  unfold Lookup. destruct (t !! h) as [[n [r|]]|] eqn:E; try done. intros [= <-].
  exists (mkRow n None). by split; [|split].
Qed.

Lemma RevokeTx_row now name t t' h row :
  RevokeTx now name t = Some t' -> t !! h = Some row ->
  exists row', t' !! h = Some row' /\ r_name row' = r_name row
    /\ (forall r, r_revoked_at row = Some r -> r_revoked_at row' = Some r)
    /\ (forall r, r_revoked_at row' = Some r -> r_revoked_at row = Some r \/ r = now).
Proof.
  unfold RevokeTx. case_bool_decide; [|done]. intros [= <-] E.
  rewrite lookup_fmap, E. simpl. eexists. split; [done|].
  case_decide as Hn; simpl; [|by eauto]. split; [done|].
  destruct (r_revoked_at row) as [r0|]; simpl; split; naive_solver.
Qed.

Lemma RevokeTx_active now name t t' h n u :
  RevokeTx now name t = Some t' -> u <= now -> active_at t h n u -> active_at t' h n u.
Proof.
  intros Ht Hu (row & Hrow & Hn & Hr).
  destruct (RevokeTx_row _ _ _ _ _ _ Ht Hrow) as (row' & Hrow' & Hn' & _ & Hr').
  exists row'. split; [done|]. split; [congruence|]. intros r Hr0.
  destruct (Hr' _ Hr0) as [H1| ->]; [by apply Hr|done].
Qed.

Lemma Create_row name hash t t' h row :
  Create name hash t = Some t' -> t !! h = Some row -> t' !! h = Some row.
Proof.
  unfold Create. case_decide as Hd; [done|]. intros [= <-] Hrow.
  rewrite lookup_insert_ne; [done|]. intros ->. apply Hd. right. left. by rewrite Hrow.
Qed.

Lemma Create_active name hash t t' h n u :
  Create name hash t = Some t' -> active_at t h n u -> active_at t' h n u.
Proof. intros Ht (row & Hrow & H). exists row. split; [by eapply Create_row|done]. Qed.

(** *** The sweep *)

(** Evicting one hash. *)
Definition evict (v : TokenVerifier) (x : string) : TokenVerifier :=
  match cache v !! x with Some _ => set_cache v (delete x (cache v)) | None => v end.

Lemma evict_cache v x h :
  cache (evict v x) !! h = (if decide (h = x) then None else cache v !! h)
  /\ ttl (evict v x) = ttl v /\ staleFor (evict v x) = staleFor v.
Proof.
  unfold evict. destruct (cache v !! x) eqn:E; (split; [|done]); case_decide; subst; simpl;
    [by rewrite lookup_delete_eq|by rewrite lookup_delete_ne|done|done].
Qed.

Lemma Revoke_cons v x hs n :
  exists n', foldl (fun '(v, n) h => match cache v !! h with
                          | Some _ => (set_cache v (delete h (cache v)), S n)
                          | None => (v, n)
                          end) (v, n) (x :: hs)
  = foldl (fun '(v, n) h => match cache v !! h with
                          | Some _ => (set_cache v (delete h (cache v)), S n)
                          | None => (v, n)
                          end) (evict v x, n') hs.
Proof. cbn [foldl]. unfold evict. destruct (cache v !! x); by eexists. Qed.

Lemma Revoke_cache v hs h :
  cache (Revoke v hs).1 !! h = (if decide (h ∈ hs) then None else cache v !! h)
  /\ ttl (Revoke v hs).1 = ttl v /\ staleFor (Revoke v hs).1 = staleFor v.
Proof.
  unfold Revoke. generalize 0%nat. revert v. induction hs as [|x hs IH]; intros v n; [done|].
  destruct (Revoke_cons v x hs n) as [n' ->].
  destruct (IH (evict v x) n') as (-> & -> & ->).
  destruct (evict_cache v x h) as (-> & -> & ->). split; [|done].
  repeat case_decide; set_solver.
Qed.

Lemma sweep_cache v now t h :
  cache (sweep v now t) !! h
    = (if RecentlyRevoked now (lookback v) t h then None else cache v !! h)
  /\ ttl (sweep v now t) = ttl v /\ staleFor (sweep v now t) = staleFor v.
Proof.
  unfold sweep. destruct (Revoke_cache v (filter (fun h => RecentlyRevoked now (lookback v) t h = true)
    (map fst (map_to_list t))) h) as (H1 & H2 & H3).
  rewrite H1, H2, H3. split; [|done].
  destruct (RecentlyRevoked now (lookback v) t h) eqn:E.
  - rewrite decide_True; [done|]. apply list_elem_of_filter. split; [done|].
    unfold RecentlyRevoked in E. destruct (t !! h) as [row|] eqn:Er; [|done].
    apply list_elem_of_fmap. exists (h, row). by rewrite elem_of_map_to_list.
  - rewrite decide_False; [done|]. intros [Hc _]%list_elem_of_filter. congruence.
Qed.

(** *** The invariant *)

(** A cache entry for [h] dates from a time the token was active, and its two
    limits are the lifetimes counted from there, plus the lookup's delay. *)
Definition entry_ok (w : World) (h : string) (e : tokenCacheEntry) : Prop :=
  exists u, u <= w_now w /\ active_at (w_tokens w) h (e_name e) u
    /\ e_expires e <= u + d + ttl (w_v w) /\ e_stale_until e <= u + d + staleFor (w_v w).

Definition pending_ok (w : World) (p : pending) : Prop :=
  p_start p <= w_now w <= p_start p + d
  /\ (forall name, p_result p = Found name -> active_at (w_tokens w) (p_hash p) name (p_start p))
  /\ (forall e, p_entry p = Some e -> entry_ok w (p_hash p) e).

Definition world_inv (w : World) : Prop :=
  0 < ttl (w_v w)
  /\ (forall h e, cache (w_v w) !! h = Some e -> entry_ok w h e)
  /\ Forall (pending_ok w) (w_pending w).

(** Entries stay well when time passes and the table only moves forward. *)
Lemma entry_ok_mono w w' h e :
  w_now w <= w_now w' -> ttl (w_v w') = ttl (w_v w) -> staleFor (w_v w') = staleFor (w_v w) ->
  (forall h n u, u <= w_now w -> active_at (w_tokens w) h n u -> active_at (w_tokens w') h n u) ->
  entry_ok w h e -> entry_ok w' h e.
Proof.
  intros Hn Ht Hs Ha (u & Hu & Hact & H1 & H2). exists u. rewrite Ht, Hs.
  split; [lia|]. split; [by apply Ha|done].
Qed.

Lemma pending_ok_mono w w' p :
  w_now w <= w_now w' -> w_now w' <= p_start p + d ->
  ttl (w_v w') = ttl (w_v w) -> staleFor (w_v w') = staleFor (w_v w) ->
  (forall h n u, u <= w_now w -> active_at (w_tokens w) h n u -> active_at (w_tokens w') h n u) ->
  pending_ok w p -> pending_ok w' p.
Proof.
  intros Hn Hd Ht Hs Ha (H1 & H2 & H3). split; [lia|]. split.
  - intros name Hr. apply Ha; [lia|]. by apply H2.
  - intros e He. eapply entry_ok_mono; eauto.
Qed.

(** A step that leaves the cache's entries among the old ones, moves the table
    forward and keeps only old requests keeps the invariant. *)
Lemma world_inv_mono w w' :
  w_now w <= w_now w' -> ttl (w_v w') = ttl (w_v w) -> staleFor (w_v w') = staleFor (w_v w) ->
  (forall h n u, u <= w_now w -> active_at (w_tokens w) h n u -> active_at (w_tokens w') h n u) ->
  (forall h e, cache (w_v w') !! h = Some e -> cache (w_v w) !! h = Some e) ->
  Forall (fun p => p ∈ w_pending w /\ w_now w' <= p_start p + d) (w_pending w') ->
  world_inv w -> world_inv w'.
Proof.
  intros Hn Ht Hs Ha Hc Hp (H1 & H2 & H3). split; [by rewrite Ht|]. split.
  - intros h e He. eapply entry_ok_mono; eauto.
  - rewrite Forall_forall in H3, Hp |- *. intros p Hin. destruct (Hp p Hin) as [Hin' Hd].
    eapply pending_ok_mono; eauto.
Qed.

Lemma pending_in_time now t v ps : world_inv (mkWorld now t v ps) ->
  Forall (fun p => p ∈ ps /\ now <= p_start p + d) ps.
Proof.
  intros (_ & _ & H). rewrite Forall_forall in H |- *. intros p Hp. split; [done|].
  apply (H p Hp).
Qed.

(** Answering a request. *)
Lemma finish_inv now t v ps1 p ps2 v' r :
  world_inv (mkWorld now t v (ps1 ++ p :: ps2)) ->
  authenticate_finish v now (p_hash p) (p_entry p) (p_result p) = (v', r) ->
  world_inv (mkWorld now t v' (ps1 ++ ps2)).
Proof.
  intros Hinv Hf. pose proof (pending_in_time _ _ _ _ Hinv) as Hps.
  assert (Forall (fun q => q ∈ ps1 ++ p :: ps2 /\ now <= p_start q + d) (ps1 ++ ps2)) as Hrest.
  { rewrite Forall_forall in Hps |- *. intros q Hq. apply Hps. set_solver. }
  assert (forall c, (forall h e, c !! h = Some e -> cache v !! h = Some e) ->
    world_inv (mkWorld now t (set_cache v c) (ps1 ++ ps2))) as Hsub.
  { intros c Hc. eapply (world_inv_mono (mkWorld now t v (ps1 ++ p :: ps2))); simpl; eauto; lia. }
  destruct Hinv as (Httl & Hcache & Hpend). simpl in *.
  assert (pending_ok (mkWorld now t v (ps1 ++ p :: ps2)) p) as (Ht & Hfound & _)
    by (rewrite Forall_forall in Hpend; apply Hpend; set_solver).
  unfold authenticate_finish in Hf. destruct (p_result p) as [name| | |]; simplify_eq/=.
  - destruct (Hsub (cache v)) as (_ & Hc0 & Hp0); [done|]. split; [done|]. split; [|exact Hp0].
    simpl. intros h e. rewrite lookup_insert_Some. intros [[<- <-]|[_ He]].
    + exists (p_start p). simpl. split; [lia|]. split; [by apply Hfound|lia].
    + by apply Hc0.
  - apply Hsub. intros h e. rewrite lookup_delete_Some. by intros [_ ?].
  - destruct v'. by apply (Hsub cache0).
  - destruct v'. by apply (Hsub cache0).
Qed.

Context (d_nonneg : 0 <= d).

Lemma step_inv w o w' : world_inv w -> step w o w' -> world_inv w'.
Proof.
  intros Hinv Hs. destruct Hs as [now dt t v ps Hdt Hps|now t v ps name t' Ht|now t v ps name hash t' Ht
    |now t v ps h id Hhit|now t v ps h r Hmiss Hr|now t v ps1 p ps2 v' id Hf|now t v ps1 p ps2 v' e Hf
    |now t v ps].
  - eapply (world_inv_mono (mkWorld now t v ps)); simpl; eauto; [lia|].
    rewrite Forall_forall in Hps |- *. eauto.
  - pose proof (pending_in_time _ _ _ _ Hinv).
    eapply (world_inv_mono (mkWorld now t v ps)); simpl; eauto; [lia|].
    intros h n u Hu. by eapply RevokeTx_active.
  - pose proof (pending_in_time _ _ _ _ Hinv).
    eapply (world_inv_mono (mkWorld now t v ps)); simpl; eauto; [lia|].
    intros h n u Hu. by eapply Create_active.
  - done.
  - destruct Hinv as (H1 & H2 & H3). split; [done|]. split; [exact H2|].
    simpl. constructor; [|exact H3]. split; [simpl|split; simpl].
    + lia.
    + intros name ->. destruct Hr as [Hr|[|]]; [|done|done]. symmetry in Hr. by eapply Lookup_active.
    + intros e He. by apply H2.
  - by eapply finish_inv.
  - by eapply finish_inv.
  - pose proof (pending_in_time _ _ _ _ Hinv). destruct (sweep_cache v now t "") as (_ & Ht & Hs').
    eapply (world_inv_mono (mkWorld now t v ps)); simpl; eauto; [lia|].
    intros h e. destruct (sweep_cache v now t h) as (-> & _). by destruct (RecentlyRevoked _ _ _ _).
Qed.

Lemma steps_inv w w' : steps w w' -> world_inv w -> world_inv w'.
Proof. induction 1 as [|w1 w2 w3 o _ IH Hs]; intros Hw; [done|]. by apply (step_inv w2 o w3); [apply IH|]. Qed.

Lemma reachable_inv w : reachable w -> world_inv w.
Proof.
  intros (w0 & (Hc & Hp & Ht) & Hs). eapply steps_inv; [done|]. split; [done|].
  rewrite Hc, Hp. split; [|done]. intros h e He. by rewrite lookup_empty in He.
Qed.

(** What an identity handed out for [h] rests on. *)
Lemma answer_bound w h id w' :
  world_inv w -> step w (Some (h, id)) w' ->
  exists u name, active_at (w_tokens w) h name u /\ au_id id = token_identity name
    /\ w_now w < u + d + (if au_stale id then staleFor (w_v w) else ttl (w_v w)).
Proof.
  intros (Httl & Hcache & Hpend) Hs. inversion Hs as [| | |now t v ps h' id' Hhit| |
    now t v ps1 p ps2 v' id' Hf| |]; subst; simpl in *.
  - unfold authenticate_cached in Hhit. destruct (cache v !! h) as [e|] eqn:E; [|done].
    case_decide; [|done]. simplify_eq/=. destruct (Hcache _ _ E) as (u & Hu & Ha & He & _).
    exists u, (e_name e). simpl in *. split; [done|]. split; [done|lia].
  - assert (pending_ok (mkWorld now t v (ps1 ++ p :: ps2)) p) as (Ht & Hfound & Hentry)
      by (rewrite Forall_forall in Hpend; apply Hpend; set_solver). simpl in *.
    unfold authenticate_finish in Hf.
    destruct (p_result p) as [name| | |]; [|done| |done]; simplify_eq/=.
    + exists (p_start p), name. split; [by apply Hfound|]. split; [done|lia].
    + destruct (p_entry p) as [e|]; [|done]. case_decide as Hst; [|done]. simplify_eq/=.
      destruct (Hentry e eq_refl) as (u & Hu & Ha & _ & He). simpl in *.
      exists u, (e_name e). split; [done|]. split; [done|lia].
Qed.

(** *** After the sweep *)

(** Nothing about [h] is left that could make an identity later than [s + d]. *)
Definition swept (h : string) (s : Z) (w : World) : Prop :=
  s <= w_now w
  /\ (exists row, w_tokens w !! h = Some row /\ is_Some (r_revoked_at row))
  /\ cache (w_v w) !! h = None
  /\ Forall (fun p => p_hash p = h ->
       (forall name, p_result p <> Found name) /\ (p_start p <= s \/ p_entry p = None)) (w_pending w).

Lemma revoked_stays now t v ps o w' h row :
  step (mkWorld now t v ps) o w' -> t !! h = Some row -> is_Some (r_revoked_at row) ->
  exists row', w_tokens w' !! h = Some row' /\ is_Some (r_revoked_at row').
Proof.
  intros Hs Hrow [r Hr]. inversion Hs; subst; simpl; eauto.
  - edestruct RevokeTx_row as (row' & Hrow' & _ & Hkeep & _); [done|done|].
    exists row'. split; [done|]. rewrite (Hkeep r Hr). eauto.
  - exists row. split; [by eapply Create_row|]. rewrite Hr. eauto.
Qed.

(** Answering a request about a swept token keeps it swept. *)
Lemma finish_swept h s now t v ps1 p ps2 v' r :
  swept h s (mkWorld now t v (ps1 ++ p :: ps2)) ->
  authenticate_finish v now (p_hash p) (p_entry p) (p_result p) = (v', r) ->
  swept h s (mkWorld now t v' (ps1 ++ ps2)).
Proof.
  intros (Hn & Hrow & Hc & Hp) Hf. split; [done|]. split; [done|]. simpl in *. split.
  - unfold authenticate_finish in Hf. destruct (p_result p) as [name| | |] eqn:Er; simplify_eq/=; try done.
    + rewrite lookup_insert_ne; [done|]. intros Hph. rewrite Forall_forall in Hp.
      destruct (Hp p) as [Hne _]; [set_solver|done|]. by destruct (Hne name).
    + rewrite lookup_delete_None. by right.
  - rewrite Forall_forall in Hp |- *. intros q Hq. apply Hp. set_solver.
Qed.

Lemma step_swept h s w o w' : swept h s w -> step w o w' -> swept h s w'.
Proof.
  intros Hw Hs. pose proof Hw as (Hn & (row & Hrow & Hr) & Hc & Hp). destruct w as [now t v ps].
  simpl in *. pose proof (revoked_stays _ _ _ _ _ _ _ _ Hs Hrow Hr) as Hkeep.
  inversion Hs as [? dt|? ? ? ? name t' Ht|? ? ? ? name hash t' Ht| |? ? ? ? h' r Hmiss Hres
    |? ? ? ps1 p ps2 v' id Hf|? ? ? ps1 p ps2 v' e Hf|]; subst; simpl in *.
  - split; [simpl; lia|]. by split.
  - by split.
  - by split.
  - by split.
  - split; [done|]. split; [done|]. split; [done|]. constructor; [|done]. simpl. intros ->.
    split; [|by right]. intros name ->. destruct Hres as [Hres|[|]]; [|done|done].
    unfold Lookup in Hres. rewrite Hrow in Hres. destruct row as [n [x|]]; [done|].
    by destruct Hr.
  - by eapply finish_swept.
  - by eapply finish_swept.
  - split; [done|]. split; [done|]. split; [|done]. simpl.
    destruct (sweep_cache v now t h) as (-> & _). by destruct (RecentlyRevoked _ _ _ _).
Qed.

Lemma steps_swept h s w w' : steps w w' -> swept h s w -> swept h s w'.
Proof. induction 1 as [|w1 w2 w3 o _ IH Hs]; intros Hw; [done|]. by apply (step_swept h s w2 o w3); [apply IH|]. Qed.

Lemma swept_silent h s w id w' :
  world_inv w -> swept h s w -> s + d < w_now w -> ~ step w (Some (h, id)) w'.
Proof.
  intros (_ & _ & Hpend) (Hn & _ & Hc & Hp) Hs Hstep.
  inversion Hstep as [| | |now t v ps h' id' Hhit| |now t v ps1 p ps2 v' id' Hf| |]; subst; simpl in *.
  - unfold authenticate_cached in Hhit. by rewrite Hc in Hhit.
  - rewrite Forall_forall in Hp, Hpend. destruct (Hp p) as [Hne Hold]; [set_solver|done|].
    destruct (Hpend p) as [Ht _]; [set_solver|]. simpl in Ht.
    unfold authenticate_finish in Hf.
    destruct (p_result p) as [name| | |]; [by destruct (Hne name)|done| |done].
    destruct Hold as [Hold|Hold]; [lia|]. by rewrite Hold in Hf.
Qed.

(** A sweep that sees a revocation older than the lookup delay. *)
Lemma sweep_swept now t v ps h name r :
  world_inv (mkWorld now t v ps) -> t !! h = Some (mkRow name (Some r)) ->
  r + d < now -> now - r < lookback v / Second * Second ->
  swept h now (mkWorld now t (sweep v now t) ps).
Proof.
  intros (_ & _ & Hpend) Hrow Hold Hback. split; [done|].
  split; [exists (mkRow name (Some r)); by split|].
  simpl in *. split.
  - destruct (sweep_cache v now t h) as (-> & _). unfold RecentlyRevoked. rewrite Hrow.
    rewrite bool_decide_eq_true_2; [done|lia].
  - rewrite Forall_forall in Hpend |- *. intros p Hp Hh.
    destruct (Hpend p Hp) as (Ht & Hf & _). simpl in *. split; [|left; lia].
    intros n Hn. destruct (Hf n Hn) as (row & Hrow' & _ & Hlast).
    rewrite Hh, Hrow in Hrow'. simplify_eq/=. specialize (Hlast r eq_refl). lia.
Qed.
End steps.

(** ** Theorems on tokens *)

(** C19. Every identity the token verifier hands out, in any interleaving of
    requests, slow lookups, outages, sweeps and revocations, is that of a
    token that was active recently: a fresh one less than a cache lifetime and
    a lookup's delay ago, one marked stale less than the stale window ago. A
    revoked token therefore yields no fresh identity a lifetime later. *)
Theorem identity_recently_active d w h id w' :
  0 <= d -> reachable d w -> step d w (Some (h, id)) w' ->
  exists u name, active_at (w_tokens w) h name u /\ au_id id = token_identity name
    /\ w_now w < u + d + (if au_stale id then staleFor (w_v w) else ttl (w_v w)).
Proof. intros Hd Hr Hs. by eapply (answer_bound d Hd); [apply (reachable_inv d Hd)|]. Qed.

(** C18. Revocation takes effect at the first sweep that follows it by more
    than a lookup's delay and sees it within the sweep's period: from one
    delay after that sweep no step of any kind, a stale answer during an
    outage included, hands out an identity for the token again. *)
Theorem revocation_takes_effect d now t v ps h name r w id w' :
  0 <= d -> reachable d (mkWorld now t v ps) -> t !! h = Some (mkRow name (Some r)) ->
  r + d < now -> now - r < lookback v / Second * Second ->
  steps d (mkWorld now t (sweep v now t) ps) w -> now + d < w_now w ->
  ~ step d w (Some (h, id)) w'.
Proof.
  intros Hd Hr Hrow Hold Hback Hs Hlate. pose proof (reachable_inv d Hd _ Hr) as Hinv.
  pose proof (sweep_swept d _ _ _ _ _ _ _ Hinv Hrow Hold Hback) as Hsw.
  eapply (swept_silent d Hd); [|by eapply (steps_swept d Hd)|done].
  eapply (steps_inv d Hd); [done|]. eapply (step_inv d Hd); [exact Hinv|constructor].
Qed.

(** A token used once and then revoked. *)
Definition demo_table : token_table := {[ "h" := mkRow "ci" None ]}.
Definition demo_revoked (r : Z) : token_table := {[ "h" := mkRow "ci" (Some r) ]}.
Definition demo_verifier : TokenVerifier :=
  mkVerifier (5 * Minute) defaultStaleWindow
    {[ "h" := mkEntry "ci" (5 * Minute) defaultStaleWindow ]}.

Lemma demo_cached : reachable Second (mkWorld 0 demo_table demo_verifier []).
Proof.
  exists (mkWorld 0 demo_table (NewTokenVerifier (5 * Minute)) []). split; [done|].
  eapply (steps_next _ _ (mkWorld 0 demo_table (NewTokenVerifier (5 * Minute))
    [mkPending "h" None 0 (Found "ci")])); [eapply steps_next; [apply steps_refl|]|].
  - apply (step_lookup Second 0 demo_table (NewTokenVerifier (5 * Minute)) [] "h" (Found "ci")); [done|].
    left. reflexivity.
  - apply (step_answer Second 0 demo_table (NewTokenVerifier (5 * Minute)) []
      (mkPending "h" None 0 (Found "ci")) [] demo_verifier (mkAuthed (token_identity "ci") false)).
    reflexivity.
Qed.

Lemma demo_revoked_reach r :
  0 <= r -> reachable Second (mkWorld (r + 2 * Second) (demo_revoked r) demo_verifier []).
Proof.
  intros Hr. destruct demo_cached as (w0 & Hi & Hs). exists w0. split; [done|].
  eapply (steps_next _ _ (mkWorld r (demo_revoked r) demo_verifier []));
    [|apply (step_tick Second r (2 * Second)); [done|constructor]].
  eapply (steps_next _ _ (mkWorld (0 + r) demo_table demo_verifier []));
    [eapply steps_next; [exact Hs|apply (step_tick Second 0 r); [done|constructor]]|].
  rewrite Z.add_0_l. apply (step_revoke Second r demo_table _ _ "ci").
  unfold RevokeTx. rewrite bool_decide_eq_true_2; [reflexivity|].
  exists "h", (mkRow "ci" None). by split.
Qed.

Lemma identity_recently_active_witness :
  exists u name, active_at demo_table "h" name u /\ token_identity "ci" = token_identity name
    /\ 0 < u + Second + 5 * Minute.
Proof.
  apply (identity_recently_active Second (mkWorld 0 demo_table demo_verifier []) "h"
    (mkAuthed (token_identity "ci") false) (mkWorld 0 demo_table demo_verifier [])).
  - unfold Second. lia.
  - apply demo_cached.
  - apply step_hit. reflexivity.
Defined.

Definition demo_swept : World :=
  mkWorld (1 + 2 * Second) (demo_revoked 1) (sweep demo_verifier (1 + 2 * Second) (demo_revoked 1)) [].

Lemma revocation_takes_effect_witness :
  ~ step Second (mkWorld (1 + 2 * Second + 10 * Second) (demo_revoked 1) (w_v demo_swept) [])
      (Some ("h", mkAuthed (token_identity "ci") true))
      (mkWorld (1 + 2 * Second + 10 * Second) (demo_revoked 1) (w_v demo_swept) []).
Proof.
  apply (revocation_takes_effect Second (1 + 2 * Second) (demo_revoked 1) demo_verifier [] "h" "ci" 1).
  - unfold Second. lia.
  - apply demo_revoked_reach. lia.
  - reflexivity.
  - unfold Second. lia.
  - vm_compute. reflexivity.
  - eapply steps_next; [apply steps_refl|]. apply step_tick; [unfold Second; lia|constructor].
  - simpl. unfold Second. lia.
Defined.

(** The comment in [Authenticate] says that revocation is unaffected by an
    outage, because the sweeper evicts revoked hashes and a database that is
    down cannot accept new ones. The database can be down for this process
    only: a token revoked elsewhere while it is cut off for longer than the
    sweep's period is missed by every later sweep, and the next outage makes
    its cached identity usable again, for up to six hours after its last
    verification. *)
Theorem revocation_missed_after_partition :
  let v := sweep demo_verifier (30 * Minute) (demo_revoked 1) in
  Authenticate (fun _ => "h") v (5 * Hour) (5 * Hour) (fun _ => Unreachable) "reg_x"
  = (demo_verifier, Ok (mkAuthed (token_identity "ci") true))
  /\ Lookup (demo_revoked 1) "h" = NotFound.
Proof. by vm_compute. Qed.

(** ** Identities as text *)

(** An authenticated identity that crosses to another site as text comes back
    with its kind and subject, and with nothing else: issuer, project and ref
    are not carried. *)
Lemma parse_identity_string id :
  id_kind id = IdentityToken \/ id_kind id = IdentityOIDC ->
  ParseIdentity (identity_string id) = mkIdentity (id_kind id) (id_subject id) "" "" "".
Proof.
  unfold ParseIdentity, identity_string. intros Hk.
  change (id_kind id +:+ ":" +:+ id_subject id) with (id_kind id +:+ String ":"%char (id_subject id)).
  rewrite Cut_char_app by (destruct Hk as [-> | ->]; done).
  by destruct Hk as [-> | ->].
Qed.

(** Text of another kind parses as an anonymous identity. *)
Lemma parse_identity_kinds s :
  id_kind (ParseIdentity s) = IdentityToken \/ id_kind (ParseIdentity s) = IdentityOIDC
  \/ IsAnonymous (ParseIdentity s) = true.
Proof. unfold ParseIdentity. destruct (Cut s ":") as [[k sub]|]; simpl; repeat case_decide; auto. Qed.

(** ** OIDC id_tokens ([core/auth/oidc.go]) *)

Record OIDCIssuer := mkIssuer {
  o_issuer : string;
  o_audience : string;
  o_client_id : string;
  o_jwks_url : string;
}.

Record discoveryDoc := mkDoc {
  dd_issuer : string;
  dd_authorization_endpoint : string;
  dd_token_endpoint : string;
  dd_jwks_uri : string;
}.

Definition acceptableAudiences (cfg : OIDCIssuer) : list string :=
  (if decide (o_audience cfg <> "") then [o_audience cfg] else [])
  ++ (if decide (o_client_id cfg <> "" /\ o_client_id cfg <> o_audience cfg)
      then [o_client_id cfg] else []).

Definition hasAudience (have want : list string) : bool :=
  existsb (fun w => existsb (fun h => bool_decide (h = w)) have) want.

(** A verified token, as the JWT library gives it: claims that are not texts
    are [None]. *)
Record jwt := mkJwt {
  jwt_issuer : string;
  jwt_subject : string;
  jwt_audience : list string;
  jwt_claims : gmap string (option string);
}.

Definition stringClaim (tok : jwt) (name : string) : option string :=
  match jwt_claims tok !! name with Some (Some s) => Some s | _ => None end.

(** Per issuer: the key set, once its endpoint was resolved, and the discovery
    document, once it was read. *)
Record issuerVerifier := mkIssuerV {
  iv_cfg : OIDCIssuer;
  iv_set : option string;          (** the endpoint the key set comes from *)
  iv_doc : option discoveryDoc;
}.
Notation OIDC := (gmap string issuerVerifier).

(** [NewOIDC]: by issuer, a later entry replacing an earlier one. *)
Definition NewOIDC (issuers : list OIDCIssuer) : OIDC :=
  foldl (fun o iss => <[o_issuer iss := mkIssuerV iss None None]> o) ∅ issuers.
Definition Enabled (o : OIDC) : bool := bool_decide (o <> ∅).

Inductive oidc_error := JWKSUnavailable | Rejected (e : auth_error).

Section oidc.
(** The JWT library: the issuer an unverified token names ([ParseInsecure]);
    the token, verified against the key set of an endpoint and validated for
    an issuer and the current time ([Parse]). *)
Context (peek : string -> option string).
Context (verify : string -> string -> string -> option jwt).
(** The network: the discovery document at a URL, and whether a key set could
    be fetched from an endpoint. *)
Context (get_doc : string -> option discoveryDoc) (refresh : string -> bool).

Definition fetchDiscovery (issuer : string) : option discoveryDoc :=
  match get_doc (trim_suffix issuer "/" +:+ "/.well-known/openid-configuration") with
  | None => None
  | Some doc =>
      if decide (dd_issuer doc <> "" /\ trim_suffix (dd_issuer doc) "/" <> trim_suffix issuer "/")
      then None else Some doc
  end.

Definition discoverLocked (v : issuerVerifier) : issuerVerifier * option discoveryDoc :=
  match iv_doc v with
  | Some doc => (v, Some doc)
  | None => match fetchDiscovery (o_issuer (iv_cfg v)) with
            | None => (v, None)
            | Some doc => (mkIssuerV (iv_cfg v) (iv_set v) (Some doc), Some doc)
            end
  end.

Definition keySet (v : issuerVerifier) : issuerVerifier * option string :=
  match iv_set v with
  | Some u => (v, Some u)
  | None =>
      let '(v1, url) :=
        if decide (o_jwks_url (iv_cfg v) = "") then
          let '(v1, doc) := discoverLocked v in
          (v1, match doc with
               | Some doc => if decide (dd_jwks_uri doc = "") then None else Some (dd_jwks_uri doc)
               | None => None
               end)
        else (v, Some (o_jwks_url (iv_cfg v))) in
      match url with
      | None => (v1, None)
      | Some u => if refresh u then (mkIssuerV (iv_cfg v1) (Some u) (iv_doc v1), Some u) else (v1, None)
      end
  end.

(** [OIDC.Authenticate]. *)
Definition oidc_authenticate (o : OIDC) (raw : string) : OIDC * result oidc_error Identity :=
  match peek raw with
  | None => (o, Err (Rejected Unauthorized))
  | Some iss =>
      match o !! iss with
      | None => (o, Err (Rejected Unauthorized))
      | Some v =>
          let '(v1, set) := keySet v in
          let o1 := <[iss := v1]> o in
          match set with
          | None => (o1, Err JWKSUnavailable)
          | Some u =>
              match verify u (o_issuer (iv_cfg v)) raw with
              | None => (o1, Err (Rejected Unauthorized))
              | Some tok =>
                  if hasAudience (jwt_audience tok) (acceptableAudiences (iv_cfg v)) then
                    (o1, Ok (mkIdentity IdentityOIDC (jwt_subject tok) (o_issuer (iv_cfg v))
                               (default "" (stringClaim tok "project_path"))
                               (default "" (stringClaim tok "ref"))))
                  else (o1, Err (Rejected Unauthorized))
              end
          end
      end
  end.

(** A key set endpoint this issuer vouches for: the configured one, or the one
    of a discovery document that does not name another issuer. *)
Definition endpoint_of (cfg : OIDCIssuer) (u : string) : Prop :=
  (o_jwks_url cfg <> "" /\ u = o_jwks_url cfg)
  \/ (o_jwks_url cfg = "" /\ exists doc,
        get_doc (trim_suffix (o_issuer cfg) "/" +:+ "/.well-known/openid-configuration") = Some doc
        /\ dd_jwks_uri doc = u
        /\ (dd_issuer doc = "" \/ trim_suffix (dd_issuer doc) "/" = trim_suffix (o_issuer cfg) "/")).

(** The states of the validator: what it cached, it got from the issuer. *)
Definition verifier_ok (cfg : OIDCIssuer) (v : issuerVerifier) : Prop :=
  iv_cfg v = cfg
  /\ (forall u, iv_set v = Some u -> endpoint_of cfg u)
  /\ (forall doc, iv_doc v = Some doc -> fetchDiscovery (o_issuer cfg) = Some doc).
Definition oidc_ok (issuers : list OIDCIssuer) (o : OIDC) : Prop :=
  forall iss v, o !! iss = Some v ->
    exists cfg, cfg ∈ issuers /\ o_issuer cfg = iss /\ verifier_ok cfg v.

Lemma NewOIDC_ok issuers : oidc_ok issuers (NewOIDC issuers).
Proof.
  unfold NewOIDC.
  assert (forall done o, oidc_ok done o ->
    oidc_ok (done ++ issuers) (foldl (fun o iss => <[o_issuer iss := mkIssuerV iss None None]> o) o issuers))
    as H.
  { induction issuers as [|c issuers IH]; intros l o Ho; simpl; [by rewrite app_nil_r|].
    replace (l ++ c :: issuers) with ((l ++ [c]) ++ issuers) by by rewrite <- app_assoc.
    apply IH. intros iss v. rewrite lookup_insert_Some. intros [[<- <-]|[_ Hv]].
    - exists c. split; [set_solver|]. by split.
    - destruct (Ho _ _ Hv) as (cfg & Hin & ?). exists cfg. split; [set_solver|done]. }
  apply (H [] ∅). intros iss v Hv. by rewrite lookup_empty in Hv.
Qed.

Lemma fetchDiscovery_endpoint cfg doc :
  o_jwks_url cfg = "" -> fetchDiscovery (o_issuer cfg) = Some doc -> endpoint_of cfg (dd_jwks_uri doc).
Proof.
  unfold fetchDiscovery. intros Hj Hd. destruct (get_doc _) as [doc'|] eqn:E; [|done].
  case_decide as Hc; [done|]. simplify_eq. right. split; [done|]. exists doc.
  split; [done|]. split; [done|]. destruct (decide (dd_issuer doc = "")); [by left|].
  right. destruct (decide (trim_suffix (dd_issuer doc) "/" = trim_suffix (o_issuer cfg) "/")); tauto.
Qed.

Lemma keySet_ok cfg v v' r :
  verifier_ok cfg v -> keySet v = (v', r) ->
  verifier_ok cfg v' /\ (forall u, r = Some u -> endpoint_of cfg u).
Proof.
  intros (<- & Hset & Hdoc). unfold keySet. destruct (iv_set v) as [u|] eqn:Es.
  { intros [= <- <-]. split; [|intros u' [= <-]; by apply Hset].
    split; [done|]. split; [|done]. intros u' Hu'. rewrite Es in Hu'. by apply Hset. }
  case_decide as Hj.
  - unfold discoverLocked. destruct (iv_doc v) as [doc|] eqn:Ed.
    + pose proof (fetchDiscovery_endpoint _ _ Hj (Hdoc doc eq_refl)) as He.
      destruct (decide (dd_jwks_uri doc = "")); [intros [= <- <-]|destruct (refresh _); intros [= <- <-]];
        (split; [|intros ?; naive_solver]); (split; [done|]);
        (split; simpl; [naive_solver|intros ?; rewrite Ed; naive_solver]).
    + destruct (fetchDiscovery _) as [doc|] eqn:Ef; [|intros [= <- <-]; by repeat split; naive_solver].
      pose proof (fetchDiscovery_endpoint _ _ Hj Ef) as He.
      destruct (decide (dd_jwks_uri doc = "")); [intros [= <- <-]|destruct (refresh _); intros [= <- <-]];
        (split; [|intros ?; naive_solver]); (split; [done|]); (split; simpl; naive_solver).
  - assert (endpoint_of (iv_cfg v) (o_jwks_url (iv_cfg v))) as He by (left; done).
    destruct (refresh _); intros [= <- <-];
      (split; [|intros ?; naive_solver]); (split; [done|]); (split; simpl; naive_solver).
Qed.

(** One call: the validator stays well, and an identity is vouched for. *)
Lemma oidc_authenticate_ok issuers o raw o' r :
  oidc_ok issuers o -> oidc_authenticate o raw = (o', r) ->
  oidc_ok issuers o'
  /\ forall id, r = Ok id -> exists cfg u tok, cfg ∈ issuers /\ peek raw = Some (o_issuer cfg)
       /\ endpoint_of cfg u /\ verify u (o_issuer cfg) raw = Some tok
       /\ (exists aud, aud ∈ jwt_audience tok /\ aud <> "" /\ (aud = o_audience cfg \/ aud = o_client_id cfg))
       /\ id_kind id = IdentityOIDC /\ id_subject id = jwt_subject tok /\ id_issuer id = o_issuer cfg.
Proof.
  intros Ho. unfold oidc_authenticate. destruct (peek raw) as [iss|] eqn:Ep; [|by intros [= <- <-]].
  destruct (o !! iss) as [v|] eqn:Ev; [|by intros [= <- <-]].
  destruct (Ho _ _ Ev) as (cfg & Hin & <- & Hv). destruct (keySet v) as [v1 set] eqn:Ek.
  pose proof Hv as (Hcfg & _ & _). destruct (keySet_ok _ _ _ _ Hv Ek) as [Hv1 Hu].
  assert (oidc_ok issuers (<[o_issuer cfg := v1]> o)) as Ho1.
  { intros iss' v'. rewrite lookup_insert_Some. intros [[<- <-]|[_ H']]; [by exists cfg|by apply Ho]. }
  rewrite Hcfg. destruct set as [u|]; [|by intros [= <- <-]].
  destruct (verify u (o_issuer cfg) raw) as [tok|] eqn:Et; [|by intros [= <- <-]].
  destruct (hasAudience _ _) eqn:Ha; [|by intros [= <- <-]].
  intros [= <- <-]. split; [done|]. intros id [= <-]. exists cfg, u, tok.
  split; [done|]. split; [done|]. split; [by apply Hu|]. split; [done|]. split; [|done].
  apply existsb_exists in Ha as (aud & Haud & (h & Hh & Heq)%existsb_exists).
  apply bool_decide_eq_true in Heq as ->. rewrite <- list_elem_of_In in Hh, Haud.
  exists aud. split; [done|]. unfold acceptableAudiences in Haud.
  apply elem_of_app in Haud as [Haud|Haud]; case_decide as Hc; [| |destruct Hc|]; set_solver.
Qed.

(** Any sequence of calls. *)
Definition oidc_run (o : OIDC) (raws : list string) : OIDC :=
  foldl (fun o raw => (oidc_authenticate o raw).1) o raws.

Lemma oidc_run_ok issuers o raws : oidc_ok issuers o -> oidc_ok issuers (oidc_run o raws).
Proof.
  revert o. induction raws as [|raw raws IH]; intros o Ho; simpl; [done|]. apply IH.
  destruct (oidc_authenticate o raw) as [o' r] eqn:E. by apply (oidc_authenticate_ok _ _ _ _ _ Ho E).
Qed.
End oidc.

(** C20. After any sequence of sign-ins, an OIDC identity is given only for a
    token that names a configured issuer, verified for that issuer against a
    key set endpoint the issuer vouches for (the configured one, or the one of
    a discovery document that names no other issuer), and addressed to one of
    that issuer's audiences; its subject is the token's and its issuer the
    configured one. *)
Theorem oidc_identity_sound peek verify get_doc refresh issuers raws raw id :
  (oidc_authenticate peek verify get_doc refresh
     (oidc_run peek verify get_doc refresh (NewOIDC issuers) raws) raw).2 = Ok id ->
  exists cfg u tok, cfg ∈ issuers /\ peek raw = Some (o_issuer cfg)
    /\ endpoint_of get_doc cfg u /\ verify u (o_issuer cfg) raw = Some tok
    /\ (exists aud, aud ∈ jwt_audience tok /\ aud <> "" /\ (aud = o_audience cfg \/ aud = o_client_id cfg))
    /\ id_kind id = IdentityOIDC /\ id_subject id = jwt_subject tok /\ id_issuer id = o_issuer cfg.
Proof.
  destruct (oidc_authenticate _ _ _ _ _ raw) as [o' r] eqn:E. simpl. intros ->.
  edestruct (oidc_authenticate_ok peek verify get_doc refresh issuers) as [_ Hok]; [|exact E|by apply Hok].
  apply oidc_run_ok, (NewOIDC_ok peek verify get_doc refresh).
Qed.

(** One issuer, found by discovery, and a signed token. *)
Definition demo_issuer : OIDCIssuer := mkIssuer "https://idp" "fondaco" "" "".
Definition demo_jwt : jwt :=
  mkJwt "https://idp" "alice" ["other"; "fondaco"] {[ "project_path" := Some "acme/lib" ]}.
Definition demo_get_doc (u : string) : option discoveryDoc :=
  if decide (u = "https://idp/.well-known/openid-configuration")
  then Some (mkDoc "https://idp/" "" "" "https://idp/keys") else None.
Definition demo_verify (keys iss raw : string) : option jwt :=
  if decide (keys = "https://idp/keys" /\ iss = "https://idp" /\ raw = "a.b.c") then Some demo_jwt else None.

Lemma oidc_identity_sound_witness :
  exists cfg u tok, cfg ∈ [demo_issuer] /\ Some "https://idp" = Some (o_issuer cfg)
    /\ endpoint_of demo_get_doc cfg u /\ demo_verify u (o_issuer cfg) "a.b.c" = Some tok
    /\ (exists aud, aud ∈ jwt_audience tok /\ aud <> "" /\ (aud = o_audience cfg \/ aud = o_client_id cfg))
    /\ IdentityOIDC = IdentityOIDC /\ "alice" = jwt_subject tok /\ "https://idp" = o_issuer cfg.
Proof.
  apply (oidc_identity_sound (fun _ => Some "https://idp") demo_verify demo_get_doc (fun _ => true)
    [demo_issuer] ["x.y.z"] "a.b.c" (mkIdentity IdentityOIDC "alice" "https://idp" "acme/lib" "")).
  vm_compute. reflexivity.
Defined.
End Auth.
