(* ===== verification/Config.v ===== *)
(** * Configuration ([core/config])

    The configuration document: defaults, validation, the access engine it
    compiles to ([access.go]), the group graph and its flattening by the server
    ([core/server/group.go], [resolveMembers]), sign-in methods
    ([authmethods.go]), the document's source and the manager that swaps
    snapshots ([source.go], [blobsource.go], [manager.go]).

    A violation names a section, an index and the complaint; the source's
    messages also quote the offending values. URL and address parsing, file
    access and the registered formats are arguments. *)

From S2P Require Import Prelude GoLib Access Store Pipeline Policies Auth.
Open Scope Z_scope.

Module Config.

(** ** The document *)

Record SiteConfig := mkSite { site_name : string; site_external_url : string }.
Record ServerConfig := mkServer {
  sc_listen : string;
  sc_shutdown_timeout : Z;
  sc_reload_interval : Z;
  sc_projection_repair : Z;
  sc_usage_scan : Z;
  sc_usage_flush : Z;
}.
Record S3Config := mkS3 {
  s3_endpoint : string;
  s3_bucket : string;
  s3_region : string;
  s3_access_key : string;
  s3_access_key_file : string;
  s3_secret_key : string;
  s3_secret_key_file : string;
  s3_use_ssl : bool;
}.
Record StorageConfig := mkStorage { st_type : string; st_fs_path : string; st_s3 : S3Config }.

Record OIDCIssuer := mkOIDC {
  oi_issuer : string;
  oi_audience : string;
  oi_jwks_url : string;
  oi_client_id : string;
  oi_client_secret_env : string;
  oi_scopes : list string;
  oi_authorization_endpoint : string;
  oi_token_endpoint : string;
}.
Definition BrowserSignIn (i : OIDCIssuer) : bool := bool_decide (oi_client_id i <> "").
Definition ScopesOrDefault (i : OIDCIssuer) : list string :=
  match oi_scopes i with [] => ["openid"] | s => s end.

Record AuthMethodConfig := mkMethod {
  am_type : string;
  am_label : string;
  am_issuer : string;
  am_help : string;
  am_hidden : bool;
}.
Record AuthConfig := mkAuth {
  ac_revocation_sweep : Z;
  ac_stale_window : Z;
  ac_stale_window_set : bool;
  ac_token_cache_ttl : Z;
  ac_oidc : list OIDCIssuer;
  ac_methods : list AuthMethodConfig;
}.

Record FeedConfig := mkFeedCfg {
  fc_name : string;
  fc_format : string;
  fc_upstream : string;
  fc_anonymous : bool;
  fc_hosted : bool;
  fc_publishers : list string;
  fc_upstream_rps : Z;                   (** sign is all the code looks at *)
  fc_redirect : bool;
  fc_redirect_ttl : Z;
  fc_publish_policy : string;
  fc_replication_mode : string;
  fc_peer_fallback : bool;
  fc_policies : list (string * Policies.options);
  fc_members : list string;
}.
Definition IsGroup (f : FeedConfig) : bool := bool_decide (fc_members f <> []).

Record PeerConfig := mkPeer {
  pc_name : string;
  pc_url : string;
  pc_public_url : string;
  pc_pull_interval : Z;
}.
Record ReplicationConfig := mkRepl {
  rc_enabled : bool;
  rc_internal_listen : string;
  rc_auth_type : string;
  rc_ca_file : string;
  rc_cert_file : string;
  rc_key_file : string;
  rc_token_file : string;
  rc_topology : string;
  rc_peers : list PeerConfig;
  rc_journal_retention : Z;
  rc_max_clock_skew : Z;
}.

Record AccessRuleConfig := mkRuleCfg { ar_path : string; ar_capabilities : list string }.
Record AccessPolicyConfig := mkPolicyCfg { ap_name : string; ap_rules : list AccessRuleConfig }.
Record BindingConfig := mkBindingCfg { b_name : string; b_policies : list string; b_match : Match }.

Record Config := mkConfig {
  cfg_site : SiteConfig;
  cfg_server : ServerConfig;
  cfg_storage : StorageConfig;
  cfg_dsn : string;
  cfg_auth : AuthConfig;
  cfg_feeds : list FeedConfig;
  cfg_replication : ReplicationConfig;
  cfg_admins : list string;
  cfg_source_type : string;
  cfg_access_policies : list AccessPolicyConfig;
  cfg_bindings : list BindingConfig;
}.

(** ** Defaults *)

Definition or_default (v d : Z) : Z := if decide (v = 0) then d else v.

Definition applyDefaults (c : Config) : Config :=
  let s := cfg_server c in
  let a := cfg_auth c in
  mkConfig
    (mkSite (if decide (site_name (cfg_site c) = "") then "default" else site_name (cfg_site c))
       (site_external_url (cfg_site c)))
    (mkServer (if decide (sc_listen s = "") then ":8080" else sc_listen s)
       (or_default (sc_shutdown_timeout s) (10 * Second))
       (or_default (sc_reload_interval s) (30 * Second))
       (sc_projection_repair s) (sc_usage_scan s) (sc_usage_flush s))
    (cfg_storage c) (cfg_dsn c)
    (mkAuth (or_default (ac_revocation_sweep a) (5 * Second))
       (if ac_stale_window_set a then ac_stale_window a else 6 * Hour)
       (ac_stale_window_set a)
       (or_default (ac_token_cache_ttl a) (5 * Minute))
       (ac_oidc a) (ac_methods a))
    (cfg_feeds c) (cfg_replication c) (cfg_admins c) (cfg_source_type c)
    (cfg_access_policies c) (cfg_bindings c).

Definition ProjectionRepairOrDefault (s : ServerConfig) : Z :=
  if decide (0 < sc_projection_repair s) then sc_projection_repair s else 5 * Minute.
Definition UsageScanOrDefault (s : ServerConfig) : Z := or_default (sc_usage_scan s) Hour.
Definition UsageFlushOrDefault (s : ServerConfig) : Z := or_default (sc_usage_flush s) (30 * Second).
Definition RevocationSweepOrDefault (a : AuthConfig) : Z :=
  if decide (0 < ac_revocation_sweep a) then ac_revocation_sweep a else 5 * Second.
Definition RedirectTTLOrDefault (f : FeedConfig) : Z :=
  if decide (0 < fc_redirect_ttl f) then fc_redirect_ttl f else 15 * Minute.
Definition RetentionOrDefault (r : ReplicationConfig) : Z :=
  if decide (0 < rc_journal_retention r) then rc_journal_retention r else 30 * 24 * Hour.
Definition SkewOrDefault (r : ReplicationConfig) : Z :=
  if decide (0 < rc_max_clock_skew r) then rc_max_clock_skew r else 5 * Minute.
Definition SourceTypeOrDefault (c : Config) : string :=
  if decide (cfg_source_type c = "") then "file" else cfg_source_type c.

(** ** Where a feed is published ([FeedConfig.Publish]) *)

Record PublishPolicy := mkPP { pp_home : string; pp_local : bool; pp_active_active : bool }.

Definition Publish (f : FeedConfig) (siteName : string) : PublishPolicy :=
  let p := fc_publish_policy f in
  if decide (p = "" \/ p = "local") then mkPP "" true (bool_decide (p = "local"))
  else if has_prefix p "forward:" then
    let home := trim_prefix p "forward:" in
    if decide (home = siteName) then mkPP home true false else mkPP home false false
  else mkPP "" true false.

(** ** Access ([access.go]) *)

Definition FeedPathPrefix : string := "feed/".
Definition SysPathPrefix : string := "sys/".
Definition FeedPath (feed coordinate : string) : string :=
  if decide (coordinate = "") then FeedPathPrefix +:+ feed
  else FeedPathPrefix +:+ feed +:+ "/" +:+ coordinate.

Definition sysAreas : list string :=
  ["sys/config"; "sys/tokens"; "sys/quarantine"; "sys/conflicts"; "sys/replication"; "sys/status"; "sys/feeds"].
Definition operationalAreas : list string :=
  ["sys/status"; "sys/feeds"; "sys/replication"; "sys/conflicts"; "sys/quarantine"].

Definition authenticated_match (b : bool) : Match := mkMatch "" "" "" "" "" b.
Definition none_match : Match := mkMatch "none" "" "" "" "" false.

(** [matchFromPattern]. *)
Definition matchFromPattern (pattern : string) : Match :=
  if decide (pattern = "*") then authenticated_match true else
  match Cut pattern ":" with
  | None => none_match
  | Some (kind, rest) =>
      if decide (kind = "token" \/ kind = "oidc") then mkMatch kind "" rest "" "" false
      else if decide (kind = "project") then
        match Cut rest "@" with
        | Some (project, ref) => mkMatch "oidc" "" "" project ref false
        | None => mkMatch "oidc" "" "" rest "" false
        end
      else none_match
  end.

Definition readName (f : FeedConfig) : string := "feed:" +:+ fc_name f +:+ ":read".
Definition publishName (f : FeedConfig) : string := "feed:" +:+ fc_name f +:+ ":publish".

(** The policies and bindings one feed's older fields imply. *)
Definition feed_policies (f : FeedConfig) : list Access.Policy :=
  Access.mkPolicy (readName f) [mkRule (FeedPath (fc_name f) "*") [CapRead; CapList] ""]
  :: (if decide (fc_publishers f = []) then []
      else [Access.mkPolicy (publishName f) [mkRule (FeedPath (fc_name f) "*") [CapPublish] ""]]).
Definition feed_bindings (f : FeedConfig) : list Binding :=
  mkBinding "" [readName f] (authenticated_match (negb (fc_anonymous f)))
  :: map (fun p => mkBinding "" [publishName f] (matchFromPattern p)) (fc_publishers f).

Definition everything : list Capability := [CapRead; CapList; CapCreate; CapUpdate; CapDelete].

(** [compileLegacy]. *)
Definition compileLegacy (c : Config) : list Access.Policy * list Binding :=
  let admins := cfg_admins c in
  (mjoin (map feed_policies (cfg_feeds c))
   ++ (if decide (admins = []) then []
       else [Access.mkPolicy "sys:admin" (mkRule (SysPathPrefix +:+ "*") everything ""
               :: map (fun area => mkRule area everything "") sysAreas)])
   ++ [Access.mkPolicy "sys:read" (map (fun area => mkRule area [CapRead; CapList] "") operationalAreas)],
   mjoin (map feed_bindings (cfg_feeds c))
   ++ map (fun p => mkBinding "" ["sys:admin"] (matchFromPattern p)) admins
   ++ [mkBinding "" ["sys:read"] (authenticated_match true)]).

(** [AccessEngine]: the generated policies and the declared ones, compiled. *)
Definition AccessEngine (c : Config) : result new_error Engine :=
  let '(ps, bs) := compileLegacy c in
  New (ps ++ map (fun p => Access.mkPolicy (ap_name p)
                    (map (fun r => mkRule (ar_path r) (ar_capabilities r) "") (ap_rules p)))
                 (cfg_access_policies c))
      (bs ++ map (fun b => mkBinding (b_name b) (b_policies b) (b_match b)) (cfg_bindings c)).

(** ** Validation *)

Inductive violation := Violation (section : string) (index : nat) (what : string).

Definition complain (b : bool) (section : string) (i : nat) (what : string) : list violation :=
  if b then [Violation section i what] else [].

(** [imap] over a section with the list of names seen so far. *)
Fixpoint each {A T} (f : nat -> A -> T -> T * list violation) (i : nat) (l : list A) (s : T) : list violation :=
  match l with
  | [] => []
  | x :: l' => let '(s', vs) := f i x s in vs ++ each f (S i) l' s'
  end.

Definition validateAccessRule (at_ : nat) (r : AccessRuleConfig) : list violation :=
  (if decide (ar_path r = "") then [Violation "access_policies" at_ "path is required"]
   else if negb (has_prefix (ar_path r) FeedPathPrefix) && negb (has_prefix (ar_path r) SysPathPrefix)
   then [Violation "access_policies" at_ "path must start with feed/ or sys/"]
   else if contains_char (trim_suffix (ar_path r) "*") "*"%char
   then [Violation "access_policies" at_ "star is only allowed at the end"]
   else [])
  ++ complain (bool_decide (ar_capabilities r = [])) "access_policies" at_ "grants no capabilities"
  ++ mjoin (map (fun raw => complain (negb (Known raw)) "access_policies" at_ "is not a capability")
              (ar_capabilities r)).

(** The names of [validateAccess] that were accepted. *)
Definition policy_names (c : Config) : list string :=
  map ap_name (filter (fun p => ap_name p <> "" /\ has_prefix (ap_name p) "feed:" = false
                                /\ has_prefix (ap_name p) "sys:" = false) (cfg_access_policies c)).

Definition validateAccess (c : Config) : list violation :=
  each (fun i p (names : list string) =>
    let '(names', vs) :=
      if decide (ap_name p = "") then (names, [Violation "access_policies" i "name is required"])
      else if has_prefix (ap_name p) "feed:" || has_prefix (ap_name p) "sys:"
      then (names, [Violation "access_policies" i "reserved prefix"])
      else if decide (ap_name p ∈ names) then (names, [Violation "access_policies" i "duplicate policy name"])
      else (ap_name p :: names, []) in
    (names', vs ++ complain (bool_decide (ap_rules p = [])) "access_policies" i "has no rules"
             ++ mjoin (map (validateAccessRule i) (ap_rules p)))) 0 (cfg_access_policies c) []
  ++ each (fun i b (names : list string) =>
    let '(names', vs) :=
      if decide (b_name b = "") then (names, [Violation "bindings" i "name is required"])
      else if decide (b_name b ∈ names) then (names, [Violation "bindings" i "duplicate binding name"])
      else (b_name b :: names, []) in
    (names', vs ++ complain (bool_decide (b_policies b = [])) "bindings" i "names no policies"
      ++ mjoin (map (fun n => complain (bool_decide (n ∉ policy_names c)) "bindings" i "policy is not defined")
                  (b_policies b))
      ++ complain (bool_decide (m_kind (b_match b) ∉ [""; "token"; "oidc"; "anonymous"]))
           "bindings" i "match.kind is not an identity kind")) 0 (cfg_bindings c) [].

(** ** Groups *)

Notation feed_map := (gmap string FeedConfig).

(** A later feed of the same name replaces an earlier one. *)
Definition by_name (feeds : list FeedConfig) : feed_map :=
  foldl (fun m f => <[fc_name f := f]> m) ∅ feeds.

Definition maxGroupDepth : nat := 5.

Inductive walk_error := TooDeep (path : list string) | Cycle (path : list string) | WalkFuel.

(** [walkGroup]: a cycle or excessive nesting below a group. The depth bound
    keeps the recursion within [maxGroupDepth + 2] levels. *)
Fixpoint walkGroup (fuel : nat) (m : feed_map) (feed : FeedConfig) (path : list string) (depth : nat)
  : option walk_error :=
  match fuel with
  | O => Some WalkFuel
  | S n =>
      if decide (maxGroupDepth < depth)%nat then Some (TooDeep (path ++ [fc_name feed]))
      else if decide (fc_name feed ∈ path) then Some (Cycle (path ++ [fc_name feed]))
      else
        (fix members (ms : list string) : option walk_error :=
           match ms with
           | [] => None
           | member :: rest =>
               match m !! member with
               | None => members rest
               | Some target =>
                   if IsGroup target then
                     match walkGroup n m target (path ++ [fc_name feed]) (S depth) with
                     | Some e => Some e
                     | None => members rest
                     end
                   else members rest
               end
           end) (fc_members feed)
  end.
Definition walk_fuel : nat := maxGroupDepth + 2.

(** One member of a group; [seen] are the members already listed. *)
Definition validateMember (m : feed_map) (i : nat) (feed : FeedConfig) (member : string) (seen : list string)
  : list string * list violation :=
  if decide (member = fc_name feed) then (seen, [Violation "feeds" i "a group cannot contain itself"])
  else if decide (member ∈ seen) then (seen, [Violation "feeds" i "member is listed twice"])
  else (member :: seen,
        match m !! member with
        | None => [Violation "feeds" i "no feed of that name"]
        | Some target => complain (bool_decide (fc_format target <> fc_format feed)) "feeds" i
                           "a group can only contain its own format"
        end).

(** [validateGroups]; [mergeable format] is [None] for a format that is not
    registered. *)
Definition validateGroups (mergeable : string -> option bool) (c : Config) : list violation :=
  let m := by_name (cfg_feeds c) in
  each (fun i feed (_ : unit) =>
    (tt,
     if negb (IsGroup feed) then [] else
     complain (bool_decide (fc_upstream feed <> "")) "feeds" i "a group cannot have an upstream"
     ++ complain (fc_hosted feed) "feeds" i "a group cannot be hosted"
     ++ complain (bool_decide (fc_publishers feed <> [])) "feeds" i "a group cannot have publishers"
     ++ match mergeable (fc_format feed) with
        | Some false => [Violation "feeds" i "format does not support groups"]
        | _ => []
        end
     ++ each (fun _ member seen => validateMember m i feed member seen) 0 (fc_members feed) []
     ++ match walkGroup walk_fuel m feed [] 0 with
        | Some _ => [Violation "feeds" i "groups nest too deep or form a cycle"]
        | None => []
        end)) 0 (cfg_feeds c) tt.

(** *** Flattening ([resolveMembers] of [core/server/group.go])

    [specs] are the groups' member lists, [leaf] tells which feeds are served.
    [None] when the recursion does not end within the fuel. *)
Fixpoint resolveMembers (fuel : nat) (specs : gmap string (list string)) (leaf : string -> bool)
  (name : string) (seen out : list string) : option (list string * list string) :=
  match fuel with
  | O => None
  | S n =>
      match specs !! name with
      | None => Some (seen, out)
      | Some members =>
          (fix loop (ms seen out : list string) : option (list string * list string) :=
             match ms with
             | [] => Some (seen, out)
             | member :: rest =>
                 if decide (member ∈ seen) then loop rest seen out
                 else match specs !! member with
                      | Some (_ :: _) =>
                          match resolveMembers n specs leaf member seen out with
                          | Some (seen', out') => loop rest seen' out'
                          | None => None
                          end
                      | _ => if leaf member then loop rest (member :: seen) (out ++ [member])
                             else loop rest seen out
                      end
             end) members seen out
      end
  end.

(** The specs and leaves of a configuration, as [mountGroups] sees them. *)
Definition specs_of (c : Config) : gmap string (list string) :=
  foldl (fun m f => if IsGroup f then <[fc_name f := fc_members f]> m else m) ∅ (cfg_feeds c).
Definition leaf_of (c : Config) (name : string) : bool :=
  existsb (fun f => negb (IsGroup f) && bool_decide (fc_name f = name)) (cfg_feeds c).

(** ** Sign-in methods ([authmethods.go]) *)

Record AuthMethod := mkAM {
  m_type : string;
  m_label : string;
  m_issuer_url : string;
  m_help : string;
  m_flow : string;
}.

Definition issuerSignsInBrowsers (c : Config) (issuer : string) : bool :=
  match filter (fun o => oi_issuer o = issuer) (ac_oidc (cfg_auth c)) with
  | o :: _ => BrowserSignIn o
  | [] => false
  end.

Definition shortIssuer (issuer : string) : string :=
  trim_suffix (trim_prefix (trim_prefix issuer "https://") "http://") "/".

Definition present (c : Config) (m : AuthMethodConfig) : AuthMethod :=
  let or_ (s d : string) := if decide (s = "") then d else s in
  if decide (am_type m = "token") then
    mkAM (am_type m) (or_ (am_label m) "Registry token") (am_issuer m)
      (or_ (am_help m) "The token your CI uses. Paste it as-is.") "token"
  else if decide (am_type m = "oidc") then
    let browser := issuerSignsInBrowsers c (am_issuer m) in
    let name := if decide (am_issuer m = "") then "your identity provider" else shortIssuer (am_issuer m) in
    mkAM (am_type m)
      (or_ (am_label m) (if browser then "Sign in with " +:+ name
                         else if decide (am_issuer m <> "") then "id_token from " +:+ name
                         else "OIDC id_token"))
      (am_issuer m)
      (or_ (am_help m) (if browser then "Opens " +:+ name +:+ " and comes back signed in. "
                          +:+ "A pipeline still presents its own id_token."
                        else "A JWT from a trusted issuer — the same one a pipeline presents. "
                          +:+ "Paste it as-is."))
      (if browser then "browser" else "token")
  else mkAM (am_type m) (am_label m) (am_issuer m) (am_help m) "token".

Definition AuthMethods (c : Config) : list AuthMethod :=
  match ac_methods (cfg_auth c) with
  | [] =>
      (if decide (cfg_dsn c = "") then [] else [present c (mkMethod "token" "" "" "" false)])
      ++ map (fun o => present c (mkMethod "oidc" "" (oi_issuer o) "" false)) (ac_oidc (cfg_auth c))
  | ms =>
      map (fun m =>
        present c (match ac_oidc (cfg_auth c) with
                   | [o] => if decide (am_type m = "oidc" /\ am_issuer m = "")
                            then mkMethod (am_type m) (am_label m) (oi_issuer o) (am_help m) (am_hidden m)
                            else m
                   | _ => m
                   end))
        (filter (fun m => am_hidden m = false) ms)
  end.

Definition validateAuthMethods (c : Config) : list violation :=
  let issuers := map oi_issuer (ac_oidc (cfg_auth c)) in
  each (fun i m (_ : unit) =>
    (tt,
     if decide (am_type m = "token") then
       complain (bool_decide (am_issuer m <> "")) "auth.methods" i "a token method has no issuer"
     else if decide (am_type m = "oidc") then
       complain (bool_decide (am_issuer m <> "" /\ am_issuer m ∉ issuers)) "auth.methods" i "issuer is not trusted"
       ++ complain (bool_decide (am_issuer m = "" /\ issuers = [])) "auth.methods" i "needs a trusted issuer"
     else if decide (am_type m = "") then [Violation "auth.methods" i "type is required"]
     else [Violation "auth.methods" i "type is not supported"])) 0 (ac_methods (cfg_auth c)) tt.

(** ** The whole document ([Validate]) *)

Definition name_char (c : Ascii.ascii) : bool :=
  let n := Ascii.N_of_ascii c in
  (((97 <=? n) && (n <=? 122)) || ((48 <=? n) && (n <=? 57)))%N.
Fixpoint all_chars (f : Ascii.ascii -> bool) (s : string) : bool :=
  match s with EmptyString => true | String c s' => f c && all_chars f s' end.

(** [^[a-z0-9]([a-z0-9-]*[a-z0-9])?$]. *)
Fixpoint name_tail (s : string) : bool :=
  match s with
  | EmptyString => true
  | String c EmptyString => name_char c
  | String c s' => (name_char c || bool_decide (c = "-"%char)) && name_tail s'
  end.
Definition feedNameRE (s : string) : bool :=
  match s with EmptyString => false | String c s' => name_char c && name_tail s' end.
(** [^[a-z0-9]+$]. *)
Definition formatRE (s : string) : bool := bool_decide (s <> "") && all_chars name_char s.

Section validate.
(** [url.Parse]: scheme and host; [net.SplitHostPort]; [os.Stat]. *)
Context (url_parse : string -> option (string * string)).
Context (host_port : string -> bool) (file_exists : string -> bool).
Context (mergeable : string -> option bool).

Definition validateHTTPURL (raw : string) : bool :=
  if decide (raw = "") then false else
  match url_parse raw with
  | None => false
  | Some (scheme, host) => bool_decide ((scheme = "http" \/ scheme = "https") /\ host <> "")
  end.

Definition validateReplication (r : ReplicationConfig) (siteName : string) : list violation :=
  if negb (rc_enabled r) then [] else
  complain (bool_decide (rc_internal_listen r = "")) "replication" 0 "internal_listen is required"
  ++ complain (bool_decide (rc_topology r ∉ [""; "mesh"])) "replication" 0 "topology is not supported"
  ++ (if decide (rc_auth_type r = "mtls") then
        mjoin (map (fun path => complain (bool_decide (path = "") || negb (file_exists path))
                                  "replication.auth" 0 "file is required for mtls")
                 [rc_ca_file r; rc_cert_file r; rc_key_file r])
      else if decide (rc_auth_type r = "bearer") then
        complain (bool_decide (rc_token_file r = "")) "replication.auth" 0 "token_file is required"
      else [Violation "replication.auth" 0 "type is not supported"])
  ++ each (fun i p seen =>
       (pc_name p :: seen,
        complain (bool_decide (pc_name p = "")) "replication.peers" i "name is required"
        ++ complain (bool_decide (pc_name p = siteName)) "replication.peers" i "a site cannot peer with itself"
        ++ complain (bool_decide (pc_name p ∈ seen)) "replication.peers" i "duplicate peer name"
        ++ complain (negb (validateHTTPURL (pc_url p))) "replication.peers" i "url"
        ++ complain (bool_decide (pc_public_url p <> "") && negb (validateHTTPURL (pc_public_url p)))
             "replication.peers" i "public_url"
        ++ complain (bool_decide (pc_pull_interval p < 0)) "replication.peers" i "pull_interval is negative"))
       0 (rc_peers r) []
  ++ complain (bool_decide (rc_journal_retention r < 0)) "replication" 0 "journal_retention is negative"
  ++ complain (bool_decide (rc_max_clock_skew r < 0)) "replication" 0 "max_clock_skew is negative".

Definition validateIssuer (i : nat) (o : OIDCIssuer) : list violation :=
  let at_ := "auth.oidc_issuers" in
  complain (negb (validateHTTPURL (oi_issuer o))) at_ i "issuer"
  ++ complain (bool_decide (oi_audience o = "")) at_ i "audience is required"
  ++ mjoin (map (fun u => complain (bool_decide (u <> "") && negb (validateHTTPURL u)) at_ i "endpoint URL")
              [oi_jwks_url o; oi_authorization_endpoint o; oi_token_endpoint o])
  ++ complain (bool_decide (oi_client_secret_env o <> "") && negb (BrowserSignIn o)) at_ i
       "client_secret_env without client_id"
  ++ complain (contains_char (oi_client_secret_env o) "="%char || contains_char (oi_client_secret_env o) "$"%char
               || contains_char (oi_client_secret_env o) " "%char) at_ i "client_secret_env is a name".

Definition validateStorage (s : StorageConfig) : list violation :=
  if decide (st_type s = "") then [Violation "storage" 0 "type is required"]
  else if decide (st_type s = "fs") then complain (bool_decide (st_fs_path s = "")) "storage" 0 "fs.path is required"
  else if decide (st_type s = "s3") then
    complain (bool_decide (s3_endpoint (st_s3 s) = "")) "storage" 0 "s3.endpoint is required"
    ++ complain (bool_decide (s3_bucket (st_s3 s) = "")) "storage" 0 "s3.bucket is required"
  else [Violation "storage" 0 "type is not supported"].

(** One feed; [seen] are the accepted names so far. *)
Definition validateFeed (i : nat) (f : FeedConfig) (seen : list string) : list string * list violation :=
  let '(seen', vs) :=
    if decide (fc_name f = "") then (seen, [Violation "feeds" i "name is required"])
    else if negb (feedNameRE (fc_name f)) then (seen, [Violation "feeds" i "name is malformed"])
    else if decide (fc_name f ∈ seen) then (seen, [Violation "feeds" i "duplicate feed name"])
    else (fc_name f :: seen, []) in
  (seen',
   vs
   ++ (if decide (fc_format f = "") then [Violation "feeds" i "format is required"]
       else complain (negb (formatRE (fc_format f))) "feeds" i "format is malformed")
   ++ complain (bool_decide (fc_upstream f <> "") && negb (validateHTTPURL (fc_upstream f))) "feeds" i "upstream"
   ++ complain (bool_decide (fc_redirect_ttl f < 0)) "feeds" i "redirect_ttl is negative"
   ++ complain (bool_decide (fc_upstream_rps f < 0)) "feeds" i "upstream_rps is negative"
   ++ complain (bool_decide (fc_publishers f <> []) && negb (fc_hosted f)) "feeds" i "publishers require hosted"
   ++ complain (bool_decide (fc_upstream f = "") && negb (fc_hosted f) && negb (IsGroup f)) "feeds" i
        "a feed needs an upstream, hosted or members"
   ++ (if decide (fc_publish_policy f = "" \/ fc_publish_policy f = "local") then []
       else if has_prefix (fc_publish_policy f) "forward:" then
         complain (bool_decide (trim_prefix (fc_publish_policy f) "forward:" = "")) "feeds" i "forward needs a site"
       else [Violation "feeds" i "publish_policy is not supported"])
   ++ complain (bool_decide (fc_replication_mode f ∉ [""; "lazy"; "eager"])) "feeds" i
        "replication_mode is not supported"
   ++ mjoin (map (fun p => complain (bool_decide (p.1 = "")) "feeds" i "policy name is required") (fc_policies f))).

(** A feed homed elsewhere needs a peer with a public URL. *)
Definition validateHome (c : Config) (f : FeedConfig) : list violation :=
  let p := Publish f (site_name (cfg_site c)) in
  if decide (pp_home p = "" \/ pp_local p = true) then []
  else complain (negb (existsb (fun q => bool_decide (pc_name q = pp_home p /\ pc_public_url q <> ""))
                         (rc_peers (cfg_replication c)))) "feeds" 0 "no peer declares the home site's public_url".

Definition Validate (c : Config) : list violation :=
  complain (negb (feedNameRE (site_name (cfg_site c)))) "site" 0 "name is malformed"
  ++ complain (bool_decide (site_external_url (cfg_site c) <> "")
               && negb (validateHTTPURL (site_external_url (cfg_site c)))) "site" 0 "external_url"
  ++ complain (negb (host_port (sc_listen (cfg_server c)))) "server" 0 "listen is not host:port"
  ++ complain (bool_decide (sc_shutdown_timeout (cfg_server c) < 0)) "server" 0 "shutdown_timeout is negative"
  ++ complain (bool_decide (sc_reload_interval (cfg_server c) < 0)) "server" 0 "reload_interval is negative"
  ++ complain (bool_decide (ac_token_cache_ttl (cfg_auth c) < 0)) "auth" 0 "token_cache_ttl is negative"
  ++ validateReplication (cfg_replication c) (site_name (cfg_site c))
  ++ complain (bool_decide (SourceTypeOrDefault c ∉ ["file"; "store"])) "config_source" 0 "type is not supported"
  ++ complain (bool_decide (SourceTypeOrDefault c = "store" /\ st_type (cfg_storage c) = "fs"))
       "config_source" 0 "store requires shared storage"
  ++ each (fun i p (_ : unit) => (tt, complain (bool_decide (TrimSpace p = "")) "admins" i "empty pattern"))
       0 (cfg_admins c) tt
  ++ mjoin (map (validateHome c) (cfg_feeds c))
  ++ each (fun i o (_ : unit) => (tt, validateIssuer i o)) 0 (ac_oidc (cfg_auth c)) tt
  ++ validateStorage (cfg_storage c)
  ++ each validateFeed 0 (cfg_feeds c) []
  ++ validateGroups mergeable c
  ++ validateAccess c
  ++ validateAuthMethods c
  ++ match AccessEngine c with
     | Ok _ => []
     | Err _ => [Violation "access rules" 0 "do not compile"]
     end.
End validate.

(** ** The group graph *)

Section groups.
Context (m : feed_map) (specs : gmap string (list string)) (leaf : string -> bool).
Context (specs_ok : forall n, specs !! n = (m !! n) ≫= (fun f => if IsGroup f then Some (fc_members f) else None)).
Context (names_ok : forall n f, m !! n = Some f -> fc_name f = n).

(** The leaves a group reaches through nested groups. *)
Inductive reaches : string -> string -> Prop :=
| reach_leaf g ms x : specs !! g = Some ms -> x ∈ ms -> specs !! x = None -> leaf x = true -> reaches g x
| reach_group g ms h x : specs !! g = Some ms -> h ∈ ms -> is_Some (specs !! h) -> reaches h x -> reaches g x.

Lemma specs_nonempty n ms : specs !! n = Some ms -> ms <> [].
Proof.
  rewrite specs_ok. destruct (m !! n) as [f|]; simpl; [|done]. unfold IsGroup.
  case_bool_decide; [|done]. by intros [= <-].
Qed.

(** A walk that found nothing bounds the flattening's recursion. *)
Lemma resolve_terminates fuel f path depth seen out :
  walkGroup fuel m f path depth = None -> m !! fc_name f = Some f -> IsGroup f = true ->
  is_Some (resolveMembers fuel specs leaf (fc_name f) seen out).
Proof.
  revert f path depth seen out. induction fuel as [|n IH]; intros f path depth seen out; [done|].
  cbn [walkGroup resolveMembers]. case_decide; [done|]. case_decide; [done|].
  intros Hwalk Hf Hg. rewrite specs_ok, Hf. cbn [mbind option_bind]. rewrite Hg.
  revert seen out Hwalk. generalize (path ++ [fc_name f]). intros path'.
  induction (fc_members f) as [|x ms IHms]; intros seen out Hwalk; [eauto|].
  destruct (m !! x) as [t|] eqn:Et.
  - destruct (IsGroup t) eqn:Eg.
    + destruct (walkGroup n m t path' (S depth)) eqn:Ew; [done|]. specialize (IHms).
      case_decide; [by apply IHms|]. rewrite specs_ok, Et. cbn [mbind option_bind]. rewrite Eg.
      pose proof Eg as Eg'. unfold IsGroup in Eg'. apply bool_decide_eq_true in Eg'.
      destruct (fc_members t) as [|y ys] eqn:Ey; [done|].
      pose proof (names_ok _ _ Et) as <-.
      destruct (IH t path' (S depth) seen out) as [[seen' out'] ->]; [done..|]. by apply IHms.
    + case_decide; [by apply IHms|]. rewrite specs_ok, Et. cbn [mbind option_bind]. rewrite Eg.
      destruct (leaf x); by apply IHms.
  - case_decide; [by apply IHms|]. rewrite specs_ok, Et. cbn [mbind option_bind].
    destruct (leaf x); by apply IHms.
Qed.

(** The names seen are the leaves listed, once each. *)
Definition listed (seen out : list string) : Prop :=
  NoDup out /\ (forall x, x ∈ seen <-> x ∈ out) /\ (forall x, x ∈ out -> leaf x = true /\ specs !! x = None).

(** What one member contributes. *)
Definition gives (y x : string) : Prop :=
  (y = x /\ specs !! x = None /\ leaf x = true) \/ (is_Some (specs !! y) /\ reaches y x).

Lemma reaches_members g ms x : specs !! g = Some ms -> reaches g x <-> Exists (fun y => gives y x) ms.
Proof.
  intros Hms. rewrite Exists_exists. split.
  - inversion 1; subst; simplify_eq; unfold gives; eauto 10.
  - intros (y & Hy & [(-> & H1 & H2)|[H1 H2]]); [by eapply reach_leaf|by eapply reach_group].
Qed.

Lemma gives_leaf y x : specs !! y = None -> gives y x <-> y = x /\ leaf y = true.
Proof.
  intros Hy. unfold gives. rewrite Hy. split; [intros [(-> & ? & ?)|[[] ?]]; done|].
  intros [<- ?]. by left.
Qed.
Lemma gives_group y x : is_Some (specs !! y) -> gives y x <-> reaches y x.
Proof. intros Hy. unfold gives. split; [intros [(-> & H1 & _)|[_ ?]]; [|done]|by right]. by rewrite H1 in Hy; destruct Hy. Qed.

Lemma listed_snoc seen out y :
  listed seen out -> y ∉ seen -> specs !! y = None -> leaf y = true -> listed (y :: seen) (out ++ [y]).
Proof.
  intros (Hn & Hseen & Hleaf) Hy Hsp Hlf. rewrite Hseen in Hy. split; [|split].
  - apply NoDup_app. split; [done|]. split; [|apply NoDup_singleton].
    by intros x Hx ->%list_elem_of_singleton.
  - intros x. rewrite elem_of_cons, elem_of_app, list_elem_of_singleton, Hseen. tauto.
  - intros x [Hx| ->%list_elem_of_singleton]%elem_of_app; [by apply Hleaf|done].
Qed.

Lemma resolve_spec fuel g seen out seen' out' :
  listed seen out -> is_Some (specs !! g) -> resolveMembers fuel specs leaf g seen out = Some (seen', out') ->
  listed seen' out' /\ (forall x, x ∈ out' <-> x ∈ out \/ reaches g x).
Proof.
  revert g seen out seen' out'. induction fuel as [|n IH]; intros g seen out seen' out' Hl Hsp; [done|].
  destruct Hsp as [ms Hms]. cbn [resolveMembers]. rewrite Hms.
  setoid_rewrite (reaches_members g ms); [|done]. clear Hms.
  revert seen out Hl. induction ms as [|y ms IHms]; intros seen out Hl.
  { intros [= <- <-]. split; [done|]. intros x. rewrite Exists_nil. tauto. }
  setoid_rewrite Exists_cons. case_decide as Hy.
  { intros H. destruct (IHms _ _ Hl H) as (H1 & H3). split; [done|].
    intros x. rewrite H3. destruct Hl as (_ & Hseen & Hleaf). apply Hseen in Hy.
    destruct (Hleaf y Hy) as [_ Hn]. rewrite (gives_leaf y x Hn). split; [tauto|].
    intros [?|[[<- _]|?]]; tauto. }
  destruct (specs !! y) as [l|] eqn:Ey.
  - pose proof (specs_nonempty _ _ Ey). destruct l as [|z l]; [done|].
    destruct (resolveMembers n specs leaf y seen out) as [[s1 o1]|] eqn:Er; [|done]. intros H'.
    destruct (IH _ _ _ _ _ Hl (mk_is_Some _ _ Ey) Er) as (Hl1 & Hx1).
    destruct (IHms _ _ Hl1 H') as (Hl2 & Hx2). split; [done|].
    intros x. rewrite Hx2, Hx1, (gives_group y x) by eauto. tauto.
  - destruct (leaf y) eqn:Elf.
    + intros H'. destruct (IHms _ _ (listed_snoc _ _ _ Hl Hy Ey Elf) H') as (Hl2 & Hx2). split; [done|].
      intros x. rewrite Hx2, elem_of_app, list_elem_of_singleton, (gives_leaf y x Ey), Elf.
      intuition congruence.
    + intros H'. destruct (IHms _ _ Hl H') as (Hl2 & Hx2). split; [done|].
      intros x. rewrite Hx2, (gives_leaf y x Ey), Elf. intuition congruence.
Qed.
End groups.

(** *** Reading a validated document *)

Lemma each_nil {A T} (f : nat -> A -> T -> T * list violation) i l s x :
  each f i l s = [] -> x ∈ l -> exists j t, (f j x t).2 = [].
Proof.
  revert i s. induction l as [|y l IH]; intros i s; simpl; [set_solver|].
  destruct (f i y s) as [s' vs] eqn:E. intros [-> Hr]%app_eq_nil [->|Hx]%elem_of_cons; [|by eapply IH].
  exists i, s. by rewrite E.
Qed.

Lemma complain_nil b sec i w : complain b sec i w = [] <-> b = false.
Proof. by destruct b. Qed.

Lemma validateFeed_names url i l seen :
  each (validateFeed url) i l seen = [] ->
  NoDup (map fc_name l) /\ Forall (fun f => feedNameRE (fc_name f) = true /\ fc_name f ∉ seen) l.
Proof.
  revert i seen. induction l as [|f l IH]; intros i seen; simpl; [split; constructor|].
  unfold validateFeed at 1. case_decide; [done|].
  destruct (feedNameRE (fc_name f)) eqn:Ef; simpl; [|done]. case_decide; [done|].
  intros [_ Hr]%app_eq_nil. destruct (IH _ _ Hr) as [Hn Hf]. split.
  - constructor; [|done]. intros (g & Hg & Hin)%list_elem_of_fmap.
    rewrite Forall_forall in Hf. destruct (Hf g Hin) as [_ Hs]. apply Hs. rewrite <- Hg. set_solver.
  - constructor; [done|]. eapply Forall_impl; [exact Hf|]. intros g [? ?]. split; [done|]. set_solver.
Qed.

(** Looking feeds up by name. *)
Lemma by_name_lookup feeds n f :
  NoDup (map fc_name feeds) -> by_name feeds !! n = Some f <-> f ∈ feeds /\ fc_name f = n.
Proof.
  intros Hn. unfold by_name. assert (forall acc : feed_map,
    (foldl (fun m f => <[fc_name f := f]> m) acc feeds) !! n = Some f <->
    (f ∈ feeds /\ fc_name f = n) \/ (n ∉ map fc_name feeds /\ acc !! n = Some f)) as H.
  { clear -Hn. induction feeds as [|g feeds IH]; intros acc; simpl in *; [set_solver|].
    apply NoDup_cons in Hn as [Hg Hn]. rewrite IH by done. rewrite lookup_insert_Some.
    rewrite not_elem_of_cons, elem_of_cons. split.
    - intros [[??]|[? [[<- <-]|[? ?]]]]; [tauto|tauto|right]. split; [|done]. split; congruence.
    - intros [[[->|?] <-]|[[? ?] ?]]; [right|tauto|right].
      + split; [done|]. tauto.
      + split; [done|]. right. split; congruence. }
  rewrite H, lookup_empty. naive_solver.
Qed.

Lemma specs_of_lookup c n :
  NoDup (map fc_name (cfg_feeds c)) ->
  specs_of c !! n = (by_name (cfg_feeds c) !! n) ≫= (fun f => if IsGroup f then Some (fc_members f) else None).
Proof.
  unfold specs_of, by_name. generalize (cfg_feeds c). intros feeds Hn.
  assert (forall (acc : gmap string (list string)) (macc : feed_map), acc !! n = (macc !! n) ≫= (fun f => if IsGroup f then Some (fc_members f) else None) ->
    (n ∈ map fc_name feeds -> acc !! n = None) ->
    foldl (fun m f => if IsGroup f then <[fc_name f := fc_members f]> m else m) acc feeds !! n
    = (foldl (fun m f => <[fc_name f := f]> m) macc feeds !! n) ≫= (fun f => if IsGroup f then Some (fc_members f) else None))
    as H; [|by apply H].
  clear c. induction feeds as [|g feeds IH]; intros acc macc Hacc Hno; simpl in *; [done|].
  apply NoDup_cons in Hn as [Hg Hn]. apply IH; [done| |].
  - destruct (decide (fc_name g = n)) as [<-|Hne].
    + rewrite lookup_insert_eq. simpl. destruct (IsGroup g); [by rewrite lookup_insert_eq|].
      apply Hno. set_solver.
    + rewrite lookup_insert_ne by done. destruct (IsGroup g); [|done]. by rewrite lookup_insert_ne.
  - intros Hin. destruct (decide (fc_name g = n)) as [<-|Hne]; [done|].
    destruct (IsGroup g); [rewrite lookup_insert_ne by done|]; apply Hno; set_solver.
Qed.

Lemma leaf_of_spec c x :
  leaf_of c x = true <-> exists f, f ∈ cfg_feeds c /\ IsGroup f = false /\ fc_name f = x.
Proof.
  unfold leaf_of. rewrite existsb_exists. setoid_rewrite <- list_elem_of_In.
  setoid_rewrite andb_true_iff. setoid_rewrite negb_true_iff. setoid_rewrite bool_decide_eq_true.
  naive_solver.
Qed.

(** More fuel changes nothing once there is an answer. *)
Lemma resolve_more fuel fuel' specs leaf g seen out r :
  (fuel <= fuel')%nat -> resolveMembers fuel specs leaf g seen out = Some r ->
  resolveMembers fuel' specs leaf g seen out = Some r.
Proof.
  revert fuel' g seen out r. induction fuel as [|n IH]; intros [|n'] g seen out r Hle; [done|done|lia|].
  cbn [resolveMembers]. destruct (specs !! g) as [ms|]; [|done].
  revert seen out. induction ms as [|y ms IHms]; intros seen out; [done|].
  case_decide; [apply IHms|]. destruct (specs !! y) as [[|z l]|]; [destruct (leaf y); apply IHms| |destruct (leaf y); apply IHms].
  destruct (resolveMembers n specs leaf y seen out) as [[s1 o1]|] eqn:E; [|done].
  rewrite (IH n' _ _ _ _ ltac:(lia) E). apply IHms.
Qed.

Section validated.
Context (url : string -> option (string * string)) (hp fe : string -> bool) (mg : string -> option bool).
Context (c : Config) (valid : Validate url hp fe mg c = []).

Lemma valid_parts :
  NoDup (map fc_name (cfg_feeds c)) /\ Forall (fun f => feedNameRE (fc_name f) = true) (cfg_feeds c)
  /\ validateGroups mg c = [] /\ validateAccess c = [] /\ exists e, AccessEngine c = Ok e.
Proof.
  pose proof valid as H. unfold Validate in H.
  repeat (apply app_eq_nil in H as [? H]).
  destruct (AccessEngine c) as [e|]; [|done].
  match goal with H : each (validateFeed _) _ _ _ = [] |- _ => apply validateFeed_names in H as [Hn Hf] end.
  split; [done|]. split; [eapply Forall_impl; [exact Hf|]; by intros f [? _]|].
  split; [done|]. split; [done|]. by exists e.
Qed.

Lemma valid_group f :
  f ∈ cfg_feeds c -> IsGroup f = true ->
  walkGroup walk_fuel (by_name (cfg_feeds c)) f [] 0 = None
  /\ forall member, member ∈ fc_members f -> exists t, t ∈ cfg_feeds c /\ fc_name t = member /\ fc_format t = fc_format f.
Proof.
  intros Hin Hg. destruct valid_parts as (Hn & _ & Hv & _). unfold validateGroups in Hv.
  destruct (each_nil _ _ _ _ _ Hv Hin) as (j & [] & Hj). cbn [snd] in Hj. rewrite Hg in Hj. cbn [negb] in Hj.
  repeat (apply app_eq_nil in Hj as [? Hj]). split; [by destruct (walkGroup _ _ _ _ _)|].
  intros member Hm. match goal with H : each _ _ (fc_members f) _ = [] |- _ =>
    destruct (each_nil _ _ _ _ _ H Hm) as (k & seen & Hk) end.
  unfold validateMember in Hk. case_decide; [done|]. case_decide; [done|]. simpl in Hk.
  destruct (by_name (cfg_feeds c) !! member) as [t|] eqn:Et; [|done].
  apply by_name_lookup in Et as [Ht1 Ht2]; [|done]. apply complain_nil in Hk.
  apply bool_decide_eq_false in Hk. exists t. split; [done|]. split; [done|].
  destruct (decide (fc_format t = fc_format f)); [done|by destruct Hk].
Qed.

Lemma valid_specs n : specs_of c !! n =
  (by_name (cfg_feeds c) !! n) ≫= (fun f => if IsGroup f then Some (fc_members f) else None).
Proof. apply specs_of_lookup, valid_parts. Qed.

Lemma valid_names n f : by_name (cfg_feeds c) !! n = Some f -> fc_name f = n.
Proof. intros H. apply by_name_lookup in H as [_ ?]; [done|apply valid_parts]. Qed.

Lemma valid_feed f : f ∈ cfg_feeds c -> by_name (cfg_feeds c) !! fc_name f = Some f.
Proof. intros H. by apply by_name_lookup; [apply valid_parts|]. Qed.

(** A leaf reached from a group has the group's format. *)
Lemma reaches_format g x f :
  reaches (specs_of c) (leaf_of c) g x -> f ∈ cfg_feeds c -> fc_name f = g ->
  exists fx, fx ∈ cfg_feeds c /\ fc_name fx = x /\ IsGroup fx = false /\ fc_format fx = fc_format f.
Proof.
  assert (forall g ms f, specs_of c !! g = Some ms -> f ∈ cfg_feeds c -> fc_name f = g ->
    IsGroup f = true /\ ms = fc_members f) as Hspec.
  { intros g' ms' f' Hs Hin <-. rewrite valid_specs, (valid_feed _ Hin) in Hs. simpl in Hs.
    destruct (IsGroup f'); [|done]. by simplify_eq. }
  intros Hr. revert f. induction Hr as [g ms x Hs Hx Hsx Hlf|g ms h x Hs Hh Hsh Hr IH]; intros f Hin Hn.
  - destruct (Hspec _ _ _ Hs Hin Hn) as [Hg ->]. destruct (valid_group f Hin Hg) as [_ Hm].
    destruct (Hm x Hx) as (t & Ht & Htn & Htf). exists t. split; [done|]. split; [done|]. split; [|done].
    rewrite valid_specs, <- Htn, (valid_feed _ Ht) in Hsx. simpl in Hsx. by destruct (IsGroup t).
  - destruct (Hspec _ _ _ Hs Hin Hn) as [Hg ->]. destruct (valid_group f Hin Hg) as [_ Hm].
    destruct (Hm h Hh) as (t & Ht & Htn & <-). by apply IH.
Qed.
End validated.

Lemma flatten_valid url hp fe mg c f more :
  Validate url hp fe mg c = [] -> f ∈ cfg_feeds c -> IsGroup f = true ->
  exists seen out,
    resolveMembers (more + walk_fuel) (specs_of c) (leaf_of c) (fc_name f) [] [] = Some (seen, out)
    /\ NoDup out
    /\ (forall x, x ∈ out <-> reaches (specs_of c) (leaf_of c) (fc_name f) x)
    /\ (forall x, x ∈ out -> exists fx, fx ∈ cfg_feeds c /\ fc_name fx = x /\ IsGroup fx = false
          /\ fc_format fx = fc_format f).
Proof.
  intros Hv Hin Hg. pose proof (valid_specs _ _ _ _ _ Hv) as Hsp.
  pose proof (valid_feed _ _ _ _ _ Hv f Hin) as Hf.
  destruct (resolve_terminates _ _ (leaf_of c) Hsp (valid_names _ _ _ _ _ Hv) walk_fuel f [] 0 [] [])
    as [[seen out] Hr]; [by eapply valid_group|done|done|].
  assert (is_Some (specs_of c !! fc_name f)) as Hs by (rewrite Hsp, Hf; simpl; rewrite Hg; eauto).
  assert (listed (specs_of c) (leaf_of c) [] []) as Hl by (split; [constructor|set_solver]).
  exists seen, out. split.
  { by apply (resolve_more walk_fuel); [lia|]. }
  destruct (resolve_spec _ _ _ Hsp _ _ _ _ _ _ Hl Hs Hr) as [(Hnd & _) Hx].
  split; [done|]. split; [intros x; rewrite Hx; set_solver|].
  intros x [Hx'%not_elem_of_nil|Hx']%Hx; [done|]. by eapply (reaches_format _ _ _ _ _ Hv).
Qed.

(** Flattening asks of a leaf only whether it is served. *)
Lemma resolve_ext n specs leaf leaf' g seen out :
  (forall x, leaf x = leaf' x) -> resolveMembers n specs leaf g seen out = resolveMembers n specs leaf' g seen out.
Proof.
  intros Hl. revert g seen out. induction n as [|n IH]; intros g seen out; [done|]. cbn [resolveMembers].
  destruct (specs !! g) as [ms|]; [|done]. revert seen out.
  induction ms as [|x ms IHms]; intros seen out; [done|]. rewrite <- Hl.
  case_decide; [apply IHms|]. destruct (specs !! x) as [[|y l]|]; [by destruct (leaf x); apply IHms| |by destruct (leaf x); apply IHms].
  rewrite IH. destruct (resolveMembers n specs leaf' x seen out) as [[s1 o1]|]; [apply IHms|done].
Qed.

(** A validated group reaches some leaf. *)
Lemma walk_reaches m specs leaf n f path depth :
  (forall x, specs !! x = (m !! x) ≫= (fun f => if IsGroup f then Some (fc_members f) else None)) ->
  (forall x t, m !! x = Some t -> fc_name t = x) ->
  (forall x t, m !! x = Some t -> IsGroup t = true -> forall y, y ∈ fc_members t -> is_Some (m !! y)) ->
  (forall x t, m !! x = Some t -> IsGroup t = false -> leaf x = true) ->
  walkGroup n m f path depth = None -> m !! fc_name f = Some f -> IsGroup f = true ->
  exists x, reaches specs leaf (fc_name f) x.
Proof.
  intros Hsp Hnm Hmem Hleaf. revert f path depth. induction n as [|n IH]; intros f path depth; [done|].
  cbn [walkGroup]. case_decide; [done|]. case_decide; [done|]. intros Hw Hf Hg.
  pose proof Hg as Hg'. unfold IsGroup in Hg'. apply bool_decide_eq_true in Hg'.
  destruct (fc_members f) as [|y ys] eqn:Em; [done|].
  destruct (Hmem _ _ Hf Hg y) as [t Ht]; [rewrite Em; apply list_elem_of_here|].
  assert (specs !! fc_name f = Some (y :: ys)) as Hs by (rewrite Hsp, Hf; simpl; by rewrite Hg, Em).
  rewrite Ht in Hw. destruct (IsGroup t) eqn:Eg.
  - destruct (walkGroup n m t _ _) eqn:Ew; [done|]. pose proof (Hnm _ _ Ht) as <-.
    destruct (IH _ _ _ Ew Ht Eg) as [x Hx]. exists x. eapply reach_group; [done|apply list_elem_of_here| |done].
    rewrite Hsp, Ht. simpl. rewrite Eg. eauto.
  - exists y. eapply reach_leaf; [done|apply list_elem_of_here| |by eapply Hleaf]. rewrite Hsp, Ht. simpl. by rewrite Eg.
Qed.

Lemma group_nonempty url hp fe mg c f :
  Validate url hp fe mg c = [] -> f ∈ cfg_feeds c -> IsGroup f = true ->
  exists x, reaches (specs_of c) (leaf_of c) (fc_name f) x.
Proof.
  intros Hv Hin Hg. pose proof (valid_parts _ _ _ _ _ Hv) as (Hn & _).
  apply (walk_reaches (by_name (cfg_feeds c)) _ _ walk_fuel f [] 0).
  - by eapply valid_specs.
  - by eapply valid_names.
  - intros x t Ht Htg y Hy. apply by_name_lookup in Ht as [Ht _]; [|done].
    destruct (valid_group _ _ _ _ _ Hv t Ht Htg) as [_ Hm]. destruct (Hm y Hy) as (u & Hu & <- & _).
    rewrite (valid_feed _ _ _ _ _ Hv u Hu). eauto.
  - intros x t Ht Htg. apply by_name_lookup in Ht as [Ht Htn]; [|done]. unfold leaf_of. apply existsb_exists.
    exists t. split; [by apply list_elem_of_In|]. rewrite Htg. simpl. by apply bool_decide_eq_true.
  - by eapply valid_group.
  - by eapply valid_feed.
  - done.
Qed.

(** C24. In a validated document the server's flattening of a group ends, within
    the nesting the validation allows and so with the same result for any
    more, and lists each leaf feed the group reaches through nested groups
    exactly once, all of them of the group's own format. *)
Theorem group_flattening url hp fe mg c f more :
  Validate url hp fe mg c = [] -> f ∈ cfg_feeds c -> IsGroup f = true ->
  exists seen out,
    resolveMembers (more + walk_fuel) (specs_of c) (leaf_of c) (fc_name f) [] [] = Some (seen, out)
    /\ NoDup out
    /\ (forall x, x ∈ out <-> reaches (specs_of c) (leaf_of c) (fc_name f) x)
    /\ (forall x, x ∈ out -> exists fx, fx ∈ cfg_feeds c /\ fc_name fx = x /\ IsGroup fx = false
          /\ fc_format fx = fc_format f).
Proof. apply flatten_valid. Qed.

(** ** What the older access fields mean *)

Lemma split_sep a b c : contains_char a c = false -> split (a +:+ String c b) c = a :: split b c.
Proof.
  induction a as [|x a IH]; simpl; [by rewrite decide_True|].
  intros [Hx Ha]%orb_false_iff. apply bool_decide_eq_false in Hx.
  rewrite decide_False by done. by rewrite IH.
Qed.

Lemma name_chars s c : all_chars (fun d => name_char d || bool_decide (d = "-"%char)) s = true ->
  name_char c || bool_decide (c = "-"%char) = false -> contains_char s c = false.
Proof.
  intros Hs Hc. induction s as [|d s IH]; simpl in *; [done|].
  apply andb_true_iff in Hs as [Hd Hs]. rewrite IH by done. rewrite orb_false_r.
  apply bool_decide_eq_false. intros ->. congruence.
Qed.

Lemma feedNameRE_chars s :
  feedNameRE s = true -> all_chars (fun d => name_char d || bool_decide (d = "-"%char)) s = true.
Proof.
  destruct s as [|x s]; [done|]. simpl. intros [-> Hs]%andb_true_iff. simpl.
  revert Hs. induction s as [|y s IH]; [done|]. cbn [name_tail all_chars].
  destruct s as [|z s]; [by intros ->|]. intros [-> Hs]%andb_true_iff. simpl. by apply IH.
Qed.

(** A feed name holds no slash, and is not a plus. *)
Lemma feed_name_no_slash s : feedNameRE s = true -> contains_char s "/"%char = false.
Proof. intros H. by apply name_chars; [apply feedNameRE_chars|]. Qed.
Lemma feed_name_no_plus s : feedNameRE s = true -> s <> "+".
Proof. by intros H ->. Qed.

(** The generated path of a feed matches every coordinate of that feed, and of
    no other. *)
Lemma feed_pattern_matches f co :
  feedNameRE f = true -> co <> "" -> is_Some (match_path (FeedPath f "*") (FeedPath f co)).
Proof.
  intros Hf Hco. unfold FeedPath. rewrite decide_False by done. rewrite decide_False by done.
  assert (cut_suffix (FeedPathPrefix +:+ f +:+ "/" +:+ "*") "*" = (FeedPathPrefix +:+ f +:+ "/", true)) as E.
  { replace (FeedPathPrefix +:+ f +:+ "/" +:+ "*") with ((FeedPathPrefix +:+ f +:+ "/") +:+ "*")
      by by rewrite <- !str_app_assoc. by apply cut_suffix_app. }
  apply (match_path_segs _ _ _ _ E).
  change (FeedPathPrefix +:+ f +:+ "/") with ("feed" +:+ String "/"%char (f +:+ String "/"%char "")).
  change (FeedPathPrefix +:+ f +:+ "/" +:+ co) with ("feed" +:+ String "/"%char (f +:+ String "/"%char co)).
  rewrite !split_sep by (done || by apply feed_name_no_slash).
  apply sm_literal; [done|done|]. apply sm_literal; [by apply feed_name_no_plus|done|].
  simpl. destruct (split co _) as [|q qs] eqn:Eq; [by apply split_nonempty in Eq|].
  apply sm_star_prefix; [done|]. by destruct q.
Qed.

Lemma plus_free_feed f : feedNameRE f = true -> plus_free (FeedPath f "*").
Proof.
  intros Hf. unfold plus_free, FeedPath, trim_suffix. rewrite decide_False by done.
  replace (FeedPathPrefix +:+ f +:+ "/" +:+ "*") with ((FeedPathPrefix +:+ f +:+ "/") +:+ "*")
    by by rewrite <- !str_app_assoc.
  rewrite cut_suffix_app by done. cbn [fst].
  change (FeedPathPrefix +:+ f +:+ "/") with ("feed" +:+ String "/"%char (f +:+ String "/"%char "")).
  rewrite !split_sep by (done || by apply feed_name_no_slash). simpl.
  apply feed_name_no_plus in Hf. set_solver.
Qed.

Lemma feed_pattern_only f g co :
  feedNameRE f = true -> feedNameRE g = true -> co <> "" ->
  is_Some (match_path (FeedPath g "*") (FeedPath f co)) -> g = f.
Proof.
  intros Hf Hg Hco [s Hs]. apply match_path_no_plus in Hs; [|by apply plus_free_feed].
  unfold FeedPath, trim_suffix in Hs. rewrite decide_False in Hs by done. rewrite decide_False in Hs by done.
  replace (FeedPathPrefix +:+ g +:+ "/" +:+ "*") with ((FeedPathPrefix +:+ g +:+ "/") +:+ "*") in Hs
    by by rewrite <- !str_app_assoc.
  rewrite cut_suffix_app in Hs by done. cbn [fst] in Hs.
  assert (exists r r', f +:+ String "/"%char r = g +:+ String "/"%char r') as (r & r' & Heq).
  { destruct Hs as [[r Hs]%has_prefix_spec|Hs]; rewrite <- !str_app_assoc in Hs; apply str_app_inj_l in Hs.
    - by exists co, r.
    - by exists (co +:+ "/"), "". }
  apply Policies.app_sep_inj in Heq as [-> _]; [done|by apply feed_name_no_slash..].
Qed.

(** No administrative rule matches a feed's path. *)
Lemma sys_pattern_never area f co :
  area ∈ (SysPathPrefix +:+ "*") :: sysAreas ++ operationalAreas ->
  match_path area (FeedPath f co) = None.
Proof.
  intros Ha. destruct (match_path area (FeedPath f co)) as [s|] eqn:E; [|done]. exfalso.
  assert (plus_free area /\ exists t, trim_suffix area "*" = String "s"%char t) as [Hp (t & Ht)].
  { unfold sysAreas, operationalAreas in Ha. cbn [app] in Ha.
    repeat (apply elem_of_cons in Ha as [->|Ha];
      [split; [apply (bool_decide_unpack (plus_free _)); by vm_compute|by eexists]|]).
    by apply not_elem_of_nil in Ha. }
  apply match_path_no_plus in E; [|done]. rewrite Ht in E.
  assert (exists u, FeedPath f co = String "f"%char u) as [u Hu]
    by (unfold FeedPath; case_decide; by eexists).
  rewrite Hu in E. destruct E as [[r E]%has_prefix_spec|E]; done.
Qed.

(** The rules bound to an identity. *)
Lemma boundVia_elem bs id acc name :
  name ∈ (foldl (fun acc b => if matches (binding_match b) id then
             (append_unseen acc.1 (binding_policies b),
              if decide (binding_name b = "") then acc.2 else acc.2 ++ [binding_name b]) else acc)
          acc bs).1
  <-> name ∈ acc.1 \/ exists b, b ∈ bs /\ matches (binding_match b) id = true /\ name ∈ binding_policies b.
Proof.
  revert acc. induction bs as [|b bs IH]; intros acc; simpl; [set_solver|].
  rewrite IH. destruct (matches (binding_match b) id) eqn:E; simpl.
  - rewrite append_unseen_elem. split.
    + intros [[?|?]|(b' & ? & ?)]; [by left|right; exists b|right; exists b']; set_solver.
    + intros [?|(b' & [->|?]%elem_of_cons & ? & ?)]; [tauto|tauto|]. right. by exists b'.
  - split; [intros [?|(b' & ? & ?)]; [by left|right; exists b'; set_solver]|].
    intros [?|(b' & [->|?]%elem_of_cons & ? & ?)]; [tauto|congruence|]. right. by exists b'.
Qed.

Lemma candidates_elem e id r :
  r ∈ candidates e id <-> exists b name p, b ∈ bindings e /\ matches (binding_match b) id = true
    /\ name ∈ binding_policies b /\ policies e !! name = Some p /\ r ∈ policy_rules p.
Proof.
  unfold candidates. rewrite list_elem_of_join. split.
  - intros (rs & Hr & (name & -> & Hn)%list_elem_of_fmap).
    unfold PoliciesFor, boundVia in Hn. apply boundVia_elem in Hn as [?%not_elem_of_nil|(b & ? & ? & ?)]; [done|].
    unfold rules_of in Hr. destruct (policies e !! name) as [p|] eqn:E; [|by apply not_elem_of_nil in Hr].
    exists b, name, p. auto.
  - intros (b & name & p & Hb & Hm & Hn & Hp & Hr). exists (rules_of e name). split.
    + unfold rules_of. by rewrite Hp.
    + apply list_elem_of_fmap. exists name. split; [done|]. unfold PoliciesFor, boundVia.
      apply boundVia_elem. right. by exists b.
Qed.

Lemma New_spec ps bs e :
  New ps bs = Ok e -> bindings e = bs /\
  forall p, p ∈ ps -> exists p', policies e !! policy_name p = Some p'
    /\ rule_body <$> policy_rules p' = rule_body <$> policy_rules p.
Proof.
  unfold New. rewrite rbind_Ok. intros (m & Hc & (u & _ & [= <-])%rbind_Ok).
  apply compilePolicies_ok in Hc as (_ & _ & Hall); [done|by intros ?? ?%lookup_empty_Some].
Qed.

Lemma matches_authenticated b id : matches (authenticated_match b) id = negb (b && IsAnonymous id).
Proof. unfold matches, authenticated_match. simpl. by destruct (b && IsAnonymous id). Qed.

(** Who may read a feed, and who may publish, by the older fields. *)
Definition may_read (f : FeedConfig) (id : Identity) : Prop := fc_anonymous f = true \/ IsAnonymous id = false.
Definition may_publish (f : FeedConfig) (id : Identity) : Prop :=
  exists p, p ∈ fc_publishers f /\ matches (matchFromPattern p) id = true.

Section legacy.
Context (url : string -> option (string * string)) (hp fe : string -> bool) (mg : string -> option bool).
Context (c : Config) (valid : Validate url hp fe mg c = []) (e : Engine) (engine : AccessEngine c = Ok e).
Context (no_policies : cfg_access_policies c = []) (no_bindings : cfg_bindings c = []).

Lemma legacy_engine :
  bindings e = (compileLegacy c).2 /\
  forall p, p ∈ (compileLegacy c).1 -> exists p', policies e !! policy_name p = Some p'
    /\ rule_body <$> policy_rules p' = rule_body <$> policy_rules p.
Proof.
  pose proof engine as H. unfold AccessEngine in H. destruct (compileLegacy c) as [ps bs].
  rewrite no_policies, no_bindings in H. simpl in H. rewrite !app_nil_r in H. by apply New_spec.
Qed.

(** The rules a generated policy contributes, by its body. *)
Lemma legacy_rules p r name p' :
  p ∈ (compileLegacy c).1 -> policy_name p = name -> policies e !! name = Some p' -> r ∈ policy_rules p' ->
  exists r0, r0 ∈ policy_rules p /\ rule_path r = rule_path r0 /\ rule_capabilities r = rule_capabilities r0.
Proof.
  intros Hp <- Hp' Hr. destruct legacy_engine as [_ Hall]. destruct (Hall p Hp) as (q & Hq & Hb). simplify_eq.
  assert (rule_body r ∈ rule_body <$> policy_rules p) as Hin by (rewrite <- Hb; by apply list_elem_of_fmap_2).
  apply list_elem_of_fmap in Hin as (r0 & Heq & Hr0). exists r0. by injection Heq as -> ->.
Qed.

Lemma feed_policies_in f : f ∈ cfg_feeds c -> forall p, p ∈ feed_policies f -> p ∈ (compileLegacy c).1.
Proof.
  intros Hf p Hp. simpl. apply elem_of_app. left. apply list_elem_of_join. exists (feed_policies f).
  split; [done|]. by apply list_elem_of_fmap_2.
Qed.

(** The bindings of the generated engine, by kind. *)
Lemma legacy_bindings b :
  b ∈ bindings e ->
  (exists f, f ∈ cfg_feeds c /\ binding_policies b = [readName f]
     /\ binding_match b = authenticated_match (negb (fc_anonymous f)))
  \/ (exists f p, f ∈ cfg_feeds c /\ p ∈ fc_publishers f /\ binding_policies b = [publishName f]
     /\ binding_match b = matchFromPattern p)
  \/ (exists name, binding_policies b = [name] /\ (name = "sys:admin" /\ cfg_admins c <> [] \/ name = "sys:read")).
Proof.
  destruct legacy_engine as [-> _]. simpl. rewrite !elem_of_app, list_elem_of_join.
  intros [(l & Hb & (f & -> & Hf)%list_elem_of_fmap)|[(p & -> & Hp)%list_elem_of_fmap| ->%list_elem_of_singleton]].
  - unfold feed_bindings in Hb. apply elem_of_cons in Hb as [->|(p & -> & Hp)%list_elem_of_fmap]; [left|right; left]; eauto 10.
  - right. right. exists "sys:admin". split; [done|]. left. split; [done|]. intros Hn. rewrite Hn in Hp. by apply not_elem_of_nil in Hp.
  - right. right. exists "sys:read". split; [done|]. by right.
Qed.

(** The bound rules that match a coordinate of a feed. *)
Lemma legacy_matching f co id r :
  f ∈ cfg_feeds c -> co <> "" -> r ∈ candidates e id ->
  is_Some (match_path (rule_path r) (FeedPath (fc_name f) co)) ->
  rule_path r = FeedPath (fc_name f) "*"
  /\ ((rule_capabilities r = [CapRead; CapList] /\ may_read f id)
      \/ (rule_capabilities r = [CapPublish] /\ may_publish f id)).
Proof.
  destruct (valid_parts _ _ _ _ _ valid) as (Hnd & Hre & _). rewrite Forall_forall in Hre.
  assert (forall g, g ∈ cfg_feeds c -> fc_name g = fc_name f -> f ∈ cfg_feeds c -> g = f) as Huniq.
  { intros g Hg Hn Hf. pose proof (valid_feed _ _ _ _ _ valid g Hg) as H1.
    rewrite Hn, (valid_feed _ _ _ _ _ valid f Hf) in H1. by simplify_eq. }
  intros Hf Hco (b & name & p' & Hb & Hm & Hn & Hp' & Hr)%candidates_elem Hmatch.
  destruct (legacy_bindings b Hb) as [(g & Hg & Hbp & Hbm)|[(g & pat & Hg & Hpat & Hbp & Hbm)|(n & Hbp & Hsys)]];
    rewrite Hbp in Hn; apply list_elem_of_singleton in Hn as ->.
  - destruct (legacy_rules (Access.mkPolicy (readName g) [mkRule (FeedPath (fc_name g) "*") [CapRead; CapList] ""])
      r (readName g) p') as (r0 & Hr0 & Hpath & Hcap); [|done|done|done|].
    { apply (feed_policies_in g Hg). unfold feed_policies. set_solver. }
    apply list_elem_of_singleton in Hr0 as ->. simpl in *. rewrite Hpath in Hmatch |- *.
    apply feed_pattern_only in Hmatch; [|by apply Hre|by apply Hre|done].
    apply (Huniq g Hg) in Hmatch as ->; [|done]. split; [done|]. left. split; [done|].
    rewrite Hbm, matches_authenticated in Hm. unfold may_read.
    destruct (fc_anonymous f), (IsAnonymous id); simpl in *; auto.
  - assert (fc_publishers g <> []) as Hne by (intros Hn; rewrite Hn in Hpat; by apply not_elem_of_nil in Hpat).
    destruct (legacy_rules (Access.mkPolicy (publishName g) [mkRule (FeedPath (fc_name g) "*") [CapPublish] ""])
      r (publishName g) p') as (r0 & Hr0 & Hpath & Hcap); [|done|done|done|].
    { apply (feed_policies_in g Hg). unfold feed_policies. rewrite decide_False by done. set_solver. }
    apply list_elem_of_singleton in Hr0 as ->. simpl in *. rewrite Hpath in Hmatch |- *.
    apply feed_pattern_only in Hmatch; [|by apply Hre|by apply Hre|done].
    apply (Huniq g Hg) in Hmatch as ->; [|done]. split; [done|]. right. split; [done|].
    exists pat. by rewrite <- Hbm.
  - exfalso. assert (exists p, p ∈ (compileLegacy c).1 /\ policy_name p = n
      /\ forall r0, r0 ∈ policy_rules p -> rule_path r0 ∈ (SysPathPrefix +:+ "*") :: sysAreas ++ operationalAreas)
      as (p & Hp & Hpn & Hpaths).
    { destruct Hsys as [[-> Hadm]| ->].
      - exists (Access.mkPolicy "sys:admin" (mkRule (SysPathPrefix +:+ "*") everything ""
          :: map (fun area => mkRule area everything "") sysAreas)). split; [|split; [done|]].
        + simpl. rewrite decide_False by done. apply elem_of_app. right. apply elem_of_app. left. set_solver.
        + cbn [policy_rules]. intros r0 [->|(a & -> & Ha)%(list_elem_of_fmap _ _ _)]%elem_of_cons; cbn [rule_path]; set_solver.
      - exists (Access.mkPolicy "sys:read" (map (fun area => mkRule area [CapRead; CapList] "") operationalAreas)).
        split; [|split; [done|]].
        + simpl. apply elem_of_app. right. apply elem_of_app. right. set_solver.
        + cbn [policy_rules]. intros r0 (a & -> & Ha)%(list_elem_of_fmap _ _ _). cbn [rule_path]. set_solver. }
    destruct (legacy_rules p r n p' Hp Hpn Hp' Hr) as (r0 & Hr0 & Hpath & _).
    rewrite Hpath, sys_pattern_never in Hmatch by by apply Hpaths. by destruct Hmatch.
Qed.

(** Conversely, who may read or publish has the rule bound. *)
Lemma legacy_bound f id name match_ caps :
  f ∈ cfg_feeds c -> mkBinding "" [name] match_ ∈ feed_bindings f -> matches match_ id = true ->
  Access.mkPolicy name [mkRule (FeedPath (fc_name f) "*") caps ""] ∈ feed_policies f ->
  exists r, r ∈ candidates e id /\ rule_path r = FeedPath (fc_name f) "*" /\ rule_capabilities r = caps.
Proof.
  intros Hf Hb Hm Hp. destruct legacy_engine as [Hbs Hall].
  destruct (Hall _ (feed_policies_in f Hf _ Hp)) as (p' & Hp' & Hbody). simpl in Hp', Hbody.
  destruct (policy_rules p') as [|r rs] eqn:Er; [done|]. injection Hbody as Hpath Hcaps _.
  exists r. split; [|done]. apply candidates_elem.
  exists (mkBinding "" [name] match_), name, p'. split; [|split; [done|]].
  - rewrite Hbs. simpl. apply elem_of_app. left. apply list_elem_of_join. exists (feed_bindings f).
    split; [done|]. by apply list_elem_of_fmap_2.
  - simpl. rewrite Er. split; [set_solver|]. split; [done|]. set_solver.
Qed.

Lemma legacy_granted f co id want :
  f ∈ cfg_feeds c -> co <> "" ->
  granted e id (FeedPath (fc_name f) co) want <->
  (want ∈ [CapRead; CapList] /\ may_read f id) \/ (want = CapPublish /\ may_publish f id).
Proof.
  intros Hf Hco. destruct (valid_parts _ _ _ _ _ valid) as (_ & Hre & _). rewrite Forall_forall in Hre.
  destruct (feed_pattern_matches (fc_name f) co) as [sc Hsc]; [by apply Hre|done|].
  assert (forall r, r ∈ candidates e id -> rule_path r = FeedPath (fc_name f) "*" ->
    most_specific (FeedPath (fc_name f) co) (candidates e id) r) as Hbest.
  { intros r Hr Hpath. split; [done|]. exists sc. rewrite Hpath. split; [done|]. intros r' s' Hr' Hs'.
    destruct (legacy_matching f co id r' Hf Hco Hr') as [Hp' _]; [by eauto|].
    rewrite Hp', Hsc in Hs'. simplify_eq. apply beats_irrefl. }
  split.
  - intros [(r & (Hr & s & Hs & _) & Hw) _].
    destruct (legacy_matching f co id r Hf Hco Hr (mk_is_Some _ _ Hs)) as [_ [[Hc ?]|[Hc ?]]];
      rewrite Hc in Hw; [by left|right]. by apply list_elem_of_singleton in Hw.
  - intros Hcase. split.
    + destruct Hcase as [[Hw Hmay]|[-> (p & Hp & Hm)]].
      * destruct (legacy_bound f id (readName f) (authenticated_match (negb (fc_anonymous f))) [CapRead; CapList])
          as (r & Hr & Hpath & Hcaps); [done|unfold feed_bindings; set_solver| |unfold feed_policies; set_solver|].
        { rewrite matches_authenticated. unfold may_read in Hmay.
          destruct (fc_anonymous f), (IsAnonymous id); simpl; naive_solver. }
        exists r. split; [by apply Hbest|by rewrite Hcaps].
      * assert (fc_publishers f <> []) by (intros Hn; rewrite Hn in Hp; by apply not_elem_of_nil in Hp).
        destruct (legacy_bound f id (publishName f) (matchFromPattern p) [CapPublish])
          as (r & Hr & Hpath & Hcaps); [done| |done| |].
        { unfold feed_bindings. apply elem_of_cons. right.
          apply (list_elem_of_fmap_2 (fun p => mkBinding "" [publishName f] (matchFromPattern p))). done. }
        { unfold feed_policies. rewrite decide_False by done. set_solver. }
        exists r. split; [by apply Hbest|rewrite Hcaps; set_solver].
    + intros r (Hr & s & Hs & _).
      destruct (legacy_matching f co id r Hf Hco Hr (mk_is_Some _ _ Hs)) as [_ [[-> ?]|[-> ?]]];
        by apply (bool_decide_unpack (CapDeny ∉ _)).
Qed.
End legacy.

(** *** Publisher patterns

    The patterns are documented to have [path.Match]'s meaning
    ([Auth.publishers_allowed]); the generated bindings read them with a star that
    crosses slashes and counts only at the end. *)

(** Text without the characters a pattern gives a meaning. *)
Definition plain_text (s : string) : Prop := forall c, c ∈ ["*"; "?"; "["; "\"]%char -> contains_char s c = false.
Fixpoint lits (s : string) : list pat_term :=
  match s with EmptyString => [] | String c s' => PLit c :: lits s' end.

Lemma parse_lits s rest n :
  plain_text s -> parse_pattern (String.length s + n) (s +:+ rest) = app (lits s) <$> parse_pattern n rest.
Proof.
  induction s as [|c s IH]; intros Hs; [simpl; by destruct (parse_pattern n rest)|].
  assert (c ∉ ["*"; "?"; "["; "\"]%char /\ plain_text s) as [Hc Hs'].
  { split; [intros Hin; specialize (Hs c Hin)|intros d Hd; specialize (Hs d Hd)]; simpl in Hs; apply orb_false_iff in Hs as [Hs ?];
      apply bool_decide_eq_false in Hs; congruence. }
  specialize (IH Hs').
  assert (parse_pattern (S (String.length s + n)) (String c (s +:+ rest)) = cons (PLit c) <$> parse_pattern (String.length s + n) (s +:+ rest)) as H.
  { destruct c as [[] [] [] [] [] [] [] []]; try reflexivity; destruct Hc; set_solver. }
  change (parse_pattern (S (String.length s + n)) (String c (s +:+ rest)) = app (PLit c :: lits s) <$> parse_pattern n rest).
  rewrite H, IH. by destruct (parse_pattern n rest).
Qed.
Lemma match_lits s p v : match_terms (lits s ++ p) v = true <-> exists r, v = s +:+ r /\ match_terms p r = true.
Proof.
  revert v. induction s as [|c s IH]; intros v; simpl; [naive_solver|].
  destruct v as [|d v]; [naive_solver|]. rewrite andb_true_iff, bool_decide_eq_true, IH. naive_solver.
Qed.
Lemma match_star r : match_terms [PStar] r = negb (contains_char r "/"%char).
Proof.
  induction r as [|c r IH]; [done|]. simpl in *. destruct (decide (c = "/"%char)) as [->|Hc]; [done|].
  rewrite IH. by rewrite bool_decide_eq_false_2.
Qed.

Definition tail (star : bool) : string := if star then "*" else "".
Lemma path_matches_lit lit star v :
  plain_text lit -> path_matches (lit +:+ tail star) v = true <->
    exists r, v = lit +:+ r /\ if star then contains_char r "/"%char = false else r = "".
Proof.
  intros Hp. unfold path_matches, path_match. rewrite str_length_app.
  replace (S (String.length lit + String.length (tail star))) with (String.length lit + S (String.length (tail star)))%nat by lia.
  rewrite (parse_lits lit) by done. destruct star; simpl; rewrite match_lits; apply exist_proper; intros r.
  - rewrite match_star, negb_true_iff. done.
  - simpl. by rewrite bool_decide_eq_true.
Qed.
Lemma glob_lit lit star v :
  plain_text lit -> glob (lit +:+ tail star) v = true <-> exists r, v = lit +:+ r /\ (star = false -> r = "").
Proof.
  intros Hp. unfold glob. destruct star; simpl.
  - rewrite cut_suffix_app, has_prefix_spec by done. naive_solver.
  - rewrite str_app_nil_r. destruct (cut_suffix lit "*") as [q []] eqn:E.
    + apply cut_suffix_true in E as ->. specialize (Hp "*"%char ltac:(set_solver)). by rewrite contains_char_app, orb_true_r in Hp.
    + rewrite bool_decide_eq_true. split; [intros <-; exists ""; by rewrite str_app_nil_r|].
      intros (r & -> & ->); [|done]. by rewrite str_app_nil_r.
Qed.

(** An identity as the verifiers make them. *)
Definition identity_ok (id : Identity) : Prop :=
  id_kind id ∈ [""; "anonymous"; "token"; "oidc"] /\ (id_project_path id <> "" -> id_kind id = "oidc").

(** The pattern means the same to both for this identity: it is a star, or a
    kind and a text, perhaps with a star at its end that need not cross a slash. *)
Definition uncontested (p : string) (id : Identity) : Prop :=
  p = "*" \/ exists kind lit star, p = kind +:+ String ":" (lit +:+ tail star) /\ kind ∈ ["token"; "oidc"; "project"]
    /\ lit <> "" /\ plain_text lit /\ (kind = "project" -> contains_char lit "@"%char = false)
    /\ (star = true -> forall r, id_subject id = lit +:+ r \/ id_project_path id = lit +:+ r -> contains_char r "/"%char = false).

(** The documented reading of one pattern. *)
Definition documented (p : string) (id : Identity) : Prop :=
  IsAnonymous id = false /\ exists subject, subject ∈ Auth.identitySubjects id /\ (p = "*" \/ path_matches p subject = true).
Lemma publishers_allowed_spec ps id : Auth.publishers_allowed ps id = true <-> exists p, p ∈ ps /\ documented p id.
Proof.
  unfold Auth.publishers_allowed, documented. destruct (decide (ps = [])) as [->|Hne].
  { simpl. split; [done|]. by intros (p & ?%elem_of_nil & _). }
  rewrite bool_decide_eq_false_2 by done. generalize (Auth.identitySubjects id). intros subjects.
  destruct (IsAnonymous id); simpl; [naive_solver|]. rewrite existsb_exists. setoid_rewrite existsb_exists. setoid_rewrite orb_true_iff. setoid_rewrite bool_decide_eq_true.
  setoid_rewrite <-list_elem_of_In. naive_solver.
Qed.

Lemma plain_kind kind lit : kind ∈ ["token"; "oidc"; "project"] -> plain_text lit -> plain_text (kind +:+ ":" +:+ lit).
Proof.
  intros Hk Hp c Hc. rewrite !contains_char_app, (Hp c Hc). clear Hp.
  repeat (apply elem_of_cons in Hk as [->|Hk]); [..|by apply elem_of_nil in Hk];
    repeat (apply elem_of_cons in Hc as [->|Hc]); try done; by apply elem_of_nil in Hc.
Qed.
Lemma str_app_inj a b c : a +:+ b = a +:+ c -> b = c.
Proof. induction a as [|x a IH]; simpl; [done|]. intros [= H]. auto. Qed.
(** A text without "@" that begins [path@ref] begins [path]. *)
Lemma before_at lit path ref r : contains_char lit "@"%char = false -> path +:+ String "@" ref = lit +:+ r -> exists r', path = lit +:+ r'.
Proof.
  revert path. induction lit as [|c lit IH]; intros path Hl; [by exists path|].
  simpl in Hl. apply orb_false_iff in Hl as [Hc Hl]. apply bool_decide_eq_false in Hc.
  destruct path as [|d path]; simpl; [intros [= <- _]; congruence|]. intros [= -> H]. destruct (IH path Hl H) as [r' ->]. by exists r'.
Qed.

(** The two kinds of generated matches. *)
Lemma matches_subject kind rest id : kind ∈ ["token"; "oidc"] -> rest <> "" ->
  matches (mkMatch kind "" rest "" "" false) id = true <-> id_kind id = kind /\ glob rest (id_subject id) = true.
Proof.
  intros Hk Hr. unfold matches. simpl. rewrite (bool_decide_eq_false_2 (rest = "")) by done. simpl. rewrite andb_true_r.
  apply elem_of_cons in Hk as [->|Hk]; [|apply list_elem_of_singleton in Hk as ->]; rewrite andb_true_iff; unfold glob at 1; simpl;
    rewrite bool_decide_eq_true; naive_solver.
Qed.
Lemma matches_project rest id : rest <> "" ->
  matches (mkMatch "oidc" "" "" rest "" false) id = true <-> id_kind id = "oidc" /\ glob rest (id_project_path id) = true.
Proof.
  intros Hr. unfold matches. simpl. rewrite (bool_decide_eq_false_2 (rest = "")) by done. simpl. rewrite andb_true_r.
  rewrite andb_true_iff. unfold glob at 1. simpl. rewrite bool_decide_eq_true. naive_solver.
Qed.
Lemma subjects_spec id subject : subject ∈ Auth.identitySubjects id <->
  subject = id_kind id +:+ ":" +:+ id_subject id
  \/ (id_project_path id <> "" /\ subject = "project:" +:+ id_project_path id)
  \/ (id_ref id <> "" /\ id_project_path id <> "" /\ subject = "project:" +:+ id_project_path id +:+ "@" +:+ id_ref id).
Proof. unfold Auth.identitySubjects. rewrite !elem_of_app. repeat case_decide; set_solver. Qed.

(** The subject an identity's own kind gives it matches [kind:lit...] only for
    that kind. *)
Lemma own_subject id kind x :
  id_kind id ∈ [""; "anonymous"; "token"; "oidc"] -> kind ∈ ["token"; "oidc"; "project"] ->
  id_kind id +:+ ":" +:+ id_subject id = kind +:+ ":" +:+ x -> id_kind id = kind /\ id_subject id = x.
Proof.
  generalize (id_kind id) as k. intros k Hk Hkind. repeat (apply elem_of_cons in Hk as [->|Hk]); [..|by apply elem_of_nil in Hk];
    (repeat (apply elem_of_cons in Hkind as [->|Hkind]); [..|by apply elem_of_nil in Hkind]); simpl; by intros [= ->].
Qed.

Section agreement.
Context (id : Identity) (Hid : identity_ok id) (lit : string) (star : bool).
Context (Hne : lit <> "") (Hp : plain_text lit).
Context (Hsl : star = true -> forall r, id_subject id = lit +:+ r \/ id_project_path id = lit +:+ r -> contains_char r "/"%char = false).
(** What [lit], with its star if it has one, leaves of a value. *)
Notation rest_ok r := (if star then contains_char r "/"%char = false else r = "").

Lemma glob_agrees v : id_subject id = v \/ id_project_path id = v ->
  glob (lit +:+ tail star) v = true <-> exists r, v = lit +:+ r /\ rest_ok r.
Proof.
  intros Hv. rewrite glob_lit by done. apply exist_proper. intros r. destruct star; [|naive_solver].
  split; [intros [-> _]; split; [done|]; by apply Hsl|naive_solver].
Qed.
Lemma match_agrees kind subject : kind ∈ ["token"; "oidc"; "project"] ->
  path_matches (kind +:+ String ":" (lit +:+ tail star)) subject = true <->
  exists r, subject = kind +:+ ":" +:+ lit +:+ r /\ rest_ok r.
Proof.
  intros Hk. assert (kind +:+ String ":" (lit +:+ tail star) = (kind +:+ ":" +:+ lit) +:+ tail star) as ->
    by by rewrite <-!str_app_assoc.
  rewrite path_matches_lit by by apply plain_kind. apply exist_proper. intros r. by rewrite <-!str_app_assoc.
Qed.

Lemma subject_agrees kind : kind ∈ ["token"; "oidc"] ->
  matches (mkMatch kind "" (lit +:+ tail star) "" "" false) id = true <->
  IsAnonymous id = false /\ exists subject, subject ∈ Auth.identitySubjects id
    /\ path_matches (kind +:+ String ":" (lit +:+ tail star)) subject = true.
Proof.
  intros Hk. rewrite matches_subject, (glob_agrees (id_subject id)) by (auto; by destruct lit).
  setoid_rewrite match_agrees; [|set_solver]. setoid_rewrite subjects_spec. split.
  - intros [<- (r & Hs & Hr)]. split.
    + unfold IsAnonymous. apply elem_of_cons in Hk as [->|Hk]; [done|]. by apply list_elem_of_singleton in Hk as ->.
    + eexists. split; [by left|]. exists r. by rewrite Hs.
  - intros [_ (subject & [->|[(_ & ->)|(_ & _ & ->)]] & r & Hs & Hr)].
    + apply own_subject in Hs as [-> ->]; [|apply Hid|set_solver]. eauto.
    + apply elem_of_cons in Hk as [->|Hk]; [done|]. by apply list_elem_of_singleton in Hk as ->.
    + apply elem_of_cons in Hk as [->|Hk]; [done|]. by apply list_elem_of_singleton in Hk as ->.
Qed.
Lemma project_agrees : contains_char lit "@"%char = false ->
  matches (mkMatch "oidc" "" "" (lit +:+ tail star) "" false) id = true <->
  IsAnonymous id = false /\ exists subject, subject ∈ Auth.identitySubjects id
    /\ path_matches ("project" +:+ String ":" (lit +:+ tail star)) subject = true.
Proof.
  intros Hat. destruct Hid as [Hkind Hproj].
  rewrite matches_project, (glob_agrees (id_project_path id)) by (auto; by destruct lit).
  setoid_rewrite match_agrees; [|set_solver]. setoid_rewrite subjects_spec. split.
  - intros [Hk (r & Hs & Hr)]. split; [unfold IsAnonymous; by rewrite Hk|]. exists ("project:" +:+ id_project_path id). split.
    + right. left. split; [|done]. rewrite Hs. by destruct lit.
    + exists r. by rewrite Hs.
  - intros [_ (subject & [->|[(Hn & ->)|(_ & Hn & ->)]] & r & Hs & Hr)].
    + apply own_subject in Hs as [Hk _]; [|done|set_solver]. rewrite Hk in Hkind. set_solver.
    + split; [by apply Hproj|]. exists r. injection Hs as Hs. done.
    + split; [by apply Hproj|]. injection Hs as Hs. destruct (before_at _ _ _ _ Hat Hs) as [r' Hr'].
      exists r'. split; [done|]. destruct star; [by apply Hsl; auto|]. subst r. rewrite Hr', str_app_nil_r in Hs. exfalso.
      rewrite <-(str_app_nil_r lit) in Hs at 2. rewrite <-str_app_assoc in Hs. apply str_app_inj in Hs. by destruct r'.
Qed.
End agreement.

Lemma pattern_agrees p id :
  identity_ok id -> uncontested p id -> matches (matchFromPattern p) id = true <-> documented p id.
Proof.
  intros Hid [->|(kind & lit & star & -> & Hk & Hne & Hp & Hat & Hsl)].
  { change (matchFromPattern "*") with (authenticated_match true). rewrite matches_authenticated. unfold documented.
    split; [|intros [-> _]; done]. destruct (IsAnonymous id); [done|]. intros _. split; [done|]. eexists. split; [by left|by left]. }
  assert (kind +:+ String ":" (lit +:+ tail star) <> "*") as Hstar.
  { repeat (apply elem_of_cons in Hk as [->|Hk]); [done..|by apply elem_of_nil in Hk]. }
  assert (documented (kind +:+ String ":" (lit +:+ tail star)) id <-> IsAnonymous id = false /\ exists subject,
    subject ∈ Auth.identitySubjects id /\ path_matches (kind +:+ String ":" (lit +:+ tail star)) subject = true) as ->
    by (unfold documented; naive_solver).
  unfold matchFromPattern. rewrite decide_False by done.
  assert (Cut (kind +:+ String ":" (lit +:+ tail star)) ":" = Some (kind, lit +:+ tail star)) as ->.
  { apply Cut_char_app. repeat (apply elem_of_cons in Hk as [->|Hk]); [done..|by apply elem_of_nil in Hk]. }
  case_decide as Hd; [by apply subject_agrees; auto; set_solver|].
  assert (kind = "project") as -> by set_solver. rewrite decide_True by done.
  assert (Cut (lit +:+ tail star) "@" = None) as ->; [|by apply project_agrees; auto].
  apply Cut_char_none. rewrite contains_char_app, Hat by done. by destruct star.
Qed.


(** ** A document *)

Module Demo.
Definition url (s : string) : option (string * string) :=
  if has_prefix s "https://" then Some ("https", trim_prefix s "https://") else None.
Definition leaf_feed (name : string) (publishers : list string) (hosted : bool) (upstream : string) : FeedConfig :=
  mkFeedCfg name "npm" upstream false hosted publishers 0 false 0 "" "" false [] [].
Definition group_feed (name : string) (members : list string) : FeedConfig :=
  mkFeedCfg name "npm" "" true false [] 0 false 0 "" "" false [] members.
Definition releases : FeedConfig := leaf_feed "releases" ["project:team/*"] true "".
Definition proxy : FeedConfig := leaf_feed "npmjs" [] false "https://registry.npmjs.org".
Definition inner : FeedConfig := group_feed "internal" ["releases"].
Definition outer : FeedConfig := group_feed "all" ["internal"; "npmjs"; "releases"].
Definition doc : Config := applyDefaults (mkConfig (mkSite "" "") (mkServer "" 0 0 0 0 0)
  (mkStorage "fs" "/var/lib/fondaco" (mkS3 "" "" "" "" "" "" "" false)) "postgres://" (mkAuth 0 0 false 0 [] [])
  [releases; proxy; inner; outer] (mkRepl false "" "" "" "" "" "" "" [] 0 0) ["token:root"] "" [] []).
Definition validate : Config -> list violation :=
  Validate url (fun _ => true) (fun _ => true) (fun _ => Some true).
Definition dev : Identity := mkIdentity "oidc" "sub" "https://gitlab" "team/lib" "main".
Definition ci : Identity := mkIdentity "oidc" "sub" "https://gitlab" "team/sub/lib" "main".
Definition engine : Engine :=
  match AccessEngine doc with Ok e => e | Err _ => mkEngine ∅ [] end.
End Demo.

Lemma group_flattening_witness :
  resolveMembers walk_fuel (specs_of Demo.doc) (leaf_of Demo.doc) "all" [] [] = Some (["npmjs"; "releases"], ["releases"; "npmjs"])
  /\ exists seen out, resolveMembers (3 + walk_fuel) (specs_of Demo.doc) (leaf_of Demo.doc) "all" [] [] = Some (seen, out)
     /\ NoDup out.
Proof.
  split; [by vm_compute|].
  destruct (group_flattening Demo.url (fun _ => true) (fun _ => true) (fun _ => Some true) Demo.doc Demo.outer 3)
    as (seen & out & H1 & H2 & _); [by vm_compute|do 3 apply list_elem_of_further; apply list_elem_of_here|done|].
  by exists seen, out.
Defined.


(** The comment on [Publishers] says its patterns have [path.Match]'s meaning,
    where a star stops at a slash and may stand anywhere. The patterns are
    enforced through the generated bindings, whose star crosses slashes and
    counts only at the end: the same list admits an identity under one reading and
    refuses it under the other, both ways round. *)
Theorem publisher_patterns_read_two_ways :
  let may p id := matches (matchFromPattern p) id in
  let bot := mkIdentity "token" "deploy-bot" "" "" "" in
  (Auth.publishers_allowed ["project:team/*"] Demo.ci = false /\ may "project:team/*" Demo.ci = true)
  /\ (Auth.publishers_allowed ["token:*-bot"] bot = true /\ may "token:*-bot" bot = false).
Proof. vm_compute. done. Qed.

(** An interval of zero is documented to disable the loop; the defaults turn
    it into the ordinary interval, so only a negative one would, and for the
    reload a negative one is refused. *)
Theorem zero_interval_does_not_disable (c : Config) :
  sc_reload_interval (cfg_server c) = 0 ->
  sc_reload_interval (cfg_server (applyDefaults c)) = 30 * Second.
Proof. intros H. unfold applyDefaults, or_default. cbn -[Z.mul]. by rewrite H. Qed.
Theorem zero_usage_scan_is_hourly (s : ServerConfig) : sc_usage_scan s = 0 -> UsageScanOrDefault s = Hour.
Proof. intros H. unfold UsageScanOrDefault, or_default. by rewrite H. Qed.
End Config.
