(* ===== verification/ConfigManager.v ===== *)
(** * Loading and replacing the configuration ([core/config])

    [Parse] (with the expansion of environment references and the secret
    files), the sources a document lives in ([source.go], [blobsource.go]:
    a file, an object of the blob store) behind one interface, and the
    [Manager] of [manager.go] that holds the active snapshot. YAML itself,
    the environment, the file system and the hash are parameters.

    Replicas of a site share one source. A replica's update of it is one step
    (the admin API holds the site-wide lock around it); other steps are
    reloads and edits of the document by other hands. *)

From S2P Require Import Prelude GoLib Access Store Pipeline Policies Auth Config.
Open Scope Z_scope.

Module ConfigManager.
Import Config.

(** ** Parsing *)

(** A parsed document, as [yaml.Node] holds it: a mapping's content lists its
    keys and values in turn. Tags, styles and comments are left out. *)
Inductive node_kind := NoNode | DocumentNode | SequenceNode | MappingNode | ScalarNode | AliasNode.
#[export] Instance node_kind_dec : EqDecision node_kind.
Proof. solve_decision. Defined.
Inductive node := Node (kind : node_kind) (value : string) (content : list node).
Definition n_kind (n : node) : node_kind := let 'Node k _ _ := n in k.
Definition n_value (n : node) : string := let 'Node _ v _ := n in v.
Definition n_content (n : node) : list node := let 'Node _ _ cs := n in cs.
Definition Scalar (v : string) : node := Node ScalarNode v [].

(** [envRef]: the name of a reference that starts the text, and what follows. *)
Definition name_start (c : Ascii.ascii) : bool :=
  let n := Ascii.N_of_ascii c in ((65 <=? n) && (n <=? 90) || (97 <=? n) && (n <=? 122) || (n =? 95))%N.
Definition name_rest (c : Ascii.ascii) : bool :=
  let n := Ascii.N_of_ascii c in (name_start c || (48 <=? n) && (n <=? 57))%N.

Fixpoint take_name (s : string) : string * string :=
  match s with
  | String c s' => if name_rest c then let '(n, r) := take_name s' in (String c n, r) else ("", s)
  | EmptyString => ("", "")
  end.

Definition env_ref (s : string) : option (string * string) :=
  match s with
  | String d (String b (String c s')) =>
      if decide (d = "$"%char /\ b = "{"%char /\ name_start c = true) then
        match take_name s' with
        | (n, String e rest) => if decide (e = "}"%char) then Some (String c n, rest) else None
        | _ => None
        end
      else None
  | _ => None
  end.

(** The substitution inside one scalar, left to right; a substituted value is
    not looked at again. The names without a value are collected. Each turn
    consumes text, so the length is fuel enough. *)
Fixpoint expand_fuel (fuel : nat) (env : string -> option string) (s : string) : string * list string :=
  match fuel with
  | O => ("", [])
  | S k =>
      match env_ref s with
      | Some (name, rest) =>
          let '(out, missing) := expand_fuel k env rest in
          match env name with
          | Some v => (v +:+ out, missing)
          | None => ("${" +:+ name +:+ "}" +:+ out, name :: missing)
          end
      | None =>
          match s with
          | EmptyString => ("", [])
          | String c s' => let '(out, missing) := expand_fuel k env s' in (String c out, missing)
          end
      end
  end.
Definition expand (env : string -> option string) (s : string) : string * list string :=
  expand_fuel (S (String.length s)) env s.

(** [expandNode]. *)
Fixpoint expandNode (env : string -> option string) (n : node) : node * list string :=
  let 'Node k v cs := n in
  if decide (k = ScalarNode) then let '(v', m) := expand env v in (Node k v' cs, m)
  else let rs := map (expandNode env) cs in (Node k v (map fst rs), mjoin (map snd rs)).

Inductive parse_error := BadYAML | Unset (names : list string) | BadSecret | Invalid (vs : list violation).

(** [resolveSecrets]: one credential, then the other. *)
Definition resolve_secret (file : string -> option string) (path value : string) : option string :=
  if decide (path = "") then Some value
  else if decide (value <> "") then None
  else match file path with
       | None => None
       | Some raw => if decide (TrimSpace raw = "") then None else Some (TrimSpace raw)
       end.
Definition resolveSecrets (file : string -> option string) (s : S3Config) : option S3Config :=
  match resolve_secret file (s3_access_key_file s) (s3_access_key s) with
  | None => None
  | Some ak =>
      match resolve_secret file (s3_secret_key_file s) (s3_secret_key s) with
      | None => None
      | Some sk => Some (mkS3 (s3_endpoint s) (s3_bucket s) (s3_region s) ak (s3_access_key_file s) sk
                           (s3_secret_key_file s) (s3_use_ssl s))
      end
  end.

Definition with_s3 (c : Config) (s : S3Config) : Config :=
  mkConfig (cfg_site c) (cfg_server c) (mkStorage (st_type (cfg_storage c)) (st_fs_path (cfg_storage c)) s)
    (cfg_dsn c) (cfg_auth c) (cfg_feeds c) (cfg_replication c) (cfg_admins c) (cfg_source_type c)
    (cfg_access_policies c) (cfg_bindings c).

Definition doc_limit : Z := 8 * 2 ^ 20.

Section parsing.
(** The YAML decoder (a tree; a tree read strictly as a document), the
    environment, the file system, and what [Validate] takes. *)
Context (yaml : string -> option node) (strict : node -> option Config).
Context (env : string -> option string) (file : string -> option string).
Context (validate : Config -> list violation).

Definition Parse (raw : string) : result parse_error Config :=
  match yaml (limit_read doc_limit raw) with
  | None => Err BadYAML
  | Some doc =>
      let '(doc, missing) := expandNode env doc in
      if decide (missing <> []) then Err (Unset missing)
      else match strict doc with
           | None => Err BadYAML
           | Some c =>
               let c := applyDefaults c in
               match resolveSecrets file (st_s3 (cfg_storage c)) with
               | None => Err BadSecret
               | Some s3 =>
                   let c := with_s3 c s3 in
                   match validate c with [] => Ok c | vs => Err (Invalid vs) end
               end
           end
  end.
End parsing.

(** ** Sources *)

Inductive source_error := NoDocument | VersionConflict (have expected : string) | ReadOnly | SourceFailed (e : api_error).

(** [Source]. [src_doc] is the document a reader finds; versions are hashes. *)
Class ConfigSource (Version : string -> string) (Src : Type) := {
  src_doc : Src -> option string;
  src_read : Src -> result source_error string;
  src_write : Src -> string -> string -> Src * result source_error string;
  read_sound : forall s raw, src_read s = Ok raw -> src_doc s = Some raw;
  write_ok : forall s raw ifMatch s' v,
    src_write s raw ifMatch = (s', Ok v) ->
    v = Version raw /\ (Z.of_nat (String.length raw) <= doc_limit -> src_doc s' = Some raw)
    /\ (ifMatch <> "" -> default "" (Version <$> src_doc s) = ifMatch);
  write_err : forall s raw ifMatch s' e, src_write s raw ifMatch = (s', Err e) -> src_doc s' = src_doc s;
}.

(** *** A file *)

Record FileSource := mkFile { fi_content : option string; fi_readable : bool; fi_writable : bool }.

Section file_source.
Context (Version : string -> string).

Definition file_read (f : FileSource) : result source_error string :=
  match fi_content f with
  | None => Err NoDocument
  | Some raw => if fi_readable f then Ok raw else Err (SourceFailed (ErrOther "read config"))
  end.

(** The precondition, by what a read gives. *)
Definition check_version (r : result source_error string) (ifMatch : string) : option source_error :=
  if decide (ifMatch = "") then None
  else match r with
       | Err NoDocument => Some (VersionConflict "" ifMatch)
       | Err e => Some e
       | Ok raw => if decide (Version raw = ifMatch) then None else Some (VersionConflict (Version raw) ifMatch)
       end.

Definition file_write (f : FileSource) (raw ifMatch : string) : FileSource * result source_error string :=
  match check_version (file_read f) ifMatch with
  | Some e => (f, Err e)
  | None => if fi_writable f then (mkFile (Some raw) (fi_readable f) (fi_writable f), Ok (Version raw))
            else (f, Err ReadOnly)
  end.

Lemma check_version_ok r ifMatch doc :
  (forall raw, r = Ok raw -> doc = Some raw) -> check_version r ifMatch = None -> ifMatch <> "" ->
  default "" (Version <$> doc) = ifMatch.
Proof.
  intros Hr. unfold check_version. case_decide; [done|]. destruct r as [raw|[]]; try done.
  case_decide; [|done]. intros _ _. by rewrite (Hr raw).
Qed.

#[export] Program Instance file_source : ConfigSource Version FileSource :=
  {| src_doc := fi_content; src_read := file_read; src_write := file_write |}.
Next Obligation. intros f raw. unfold file_read. destruct (fi_content f); [|done]. by destruct (fi_readable f); [intros [= ->]|]. Qed.
Next Obligation.
  intros f raw m f' v. unfold file_write. destruct (check_version _ _) eqn:E; [done|].
  destruct (fi_writable f); [|done]. intros [= <- <-]. split; [done|]. split; [done|]. intros Hm.
  eapply check_version_ok; [|done..]. intros raw'. unfold file_read.
  destruct (fi_content f); [|done]. by destruct (fi_readable f); [intros [= ->]|].
Qed.
Next Obligation.
  intros f raw m f' e. unfold file_write. destruct (check_version _ _); [by intros [= <- _]|].
  destruct (fi_writable f); [done|]. by intros [= <- _].
Qed.
End file_source.

(** *** An object of the blob store *)

Definition ConfigObjectKey : string := "config/registry.yaml".

Section store_source.
Context (Version : string -> string) {St : Type} `{BS : !BlobStore Version St} (now : Z) (key : string).

Definition object_doc (st : St) : option string :=
  (fun o => limit_read doc_limit (o_body o)) <$> found (Get key st).

Definition object_read (st : St) : result source_error string :=
  match Get key st with
  | Ok o => Ok (limit_read doc_limit (o_body o))
  | Err ErrNotFound => Err NoDocument
  | Err e => Err (SourceFailed e)
  end.

(** [blobObjectStore.Put] behind [StoreSource.Write]. *)
Definition object_write (st : St) (raw ifMatch : string) : St * result source_error string :=
  match check_version Version (object_read st) ifMatch with
  | Some e => (st, Err e)
  | None =>
      match Put now key raw (mkPutOpts "" (Z.of_nat (String.length raw)) "") st with
      | (st, Some e) => (st, Err (SourceFailed e))
      | (st, None) => (st, Ok (Version raw))
      end
  end.

Lemma object_read_doc st raw : object_read st = Ok raw -> object_doc st = Some raw.
Proof. unfold object_read, object_doc. destruct (Get key st) as [o|[]]; try done. by intros [= <-]. Qed.

#[export] Program Instance store_source : ConfigSource Version St :=
  {| src_doc := object_doc; src_read := object_read; src_write := object_write |}.
Next Obligation. apply object_read_doc. Qed.
Next Obligation.
  intros st raw m st' v. unfold object_write. destruct (check_version _ _ _) eqn:E; [done|].
  destruct (Put _ _ _ _ _) as [st1 [e|]] eqn:Ep; [done|]. intros [= <- <-]. split; [done|].
  apply put_stores in Ep as [_ Hf]. split.
  - intros Hlen. unfold object_doc. rewrite Hf. simpl. unfold limit_read. by rewrite decide_True.
  - intros Hm. eapply check_version_ok; [|done..]. intros raw'. apply object_read_doc.
Qed.
Next Obligation.
  intros st raw m st' e. unfold object_write. destruct (check_version _ _ _); [by intros [= <- _]|].
  destruct (Put _ _ _ _ _) as [st1 [e1|]] eqn:Ep; [|done]. intros [= <- _]. apply put_atomic in Ep.
  unfold object_doc. destruct (found (Get key st1)), (found (Get key st)); simplify_eq/=; congruence.
Qed.
End store_source.

(** ** The manager *)

Record Manager := mkManager {
  m_version : string;
  m_cur : Config;
  m_told : list Config;           (** the snapshots the subscribers were given *)
}.

Inductive manager_error := FromSource (e : source_error) | FromParse (e : parse_error) | Refused.

Section manager.
Context (Version : string -> string) {Src : Type} `{CS : !ConfigSource Version Src}.
(** [Parse], and the semantic checks the manager was given. *)
Context (parse : string -> result parse_error Config) (semantic : Config -> bool).

(** [Parse] and the checks, as every entry of a document runs them. *)
Definition accept (raw : string) : result manager_error Config :=
  match parse raw with
  | Err e => Err (FromParse e)
  | Ok c => if semantic c then Ok c else Err Refused
  end.

(** [NewSourceManager]. *)
Definition NewSourceManager (s : Src) : result manager_error Manager :=
  match src_read s with
  | Err e => Err (FromSource e)
  | Ok raw => let? c := accept raw in Ok (mkManager (Version raw) c [])
  end.

(** [Update]: validation before the write. *)
Definition Update (m : Manager) (s : Src) (raw ifMatch : string)
  : Manager * Src * result manager_error (Config * string) :=
  match accept raw with
  | Err e => (m, s, Err e)
  | Ok c =>
      match src_write s raw ifMatch with
      | (s, Err e) => (m, s, Err (FromSource e))
      | (s, Ok v) => (mkManager v c (m_told m ++ [c]), s, Ok (c, v))
      end
  end.

(** [Reload]: [None] when the document is unchanged or was taken over. *)
Definition Reload (m : Manager) (s : Src) : Manager * option manager_error :=
  match src_read s with
  | Err e => (m, Some (FromSource e))
  | Ok raw =>
      if decide (Version raw = m_version m) then (m, None)
      else match accept raw with
           | Err e => (m, Some e)
           | Ok c => (mkManager (Version raw) c (m_told m ++ [c]), None)
           end
  end.

(** *** Replicas of a site *)

Record Fleet := mkFleet { fl_src : Src; fl_managers : gmap nat Manager }.

Inductive fleet_step : Fleet -> Fleet -> Prop :=
| step_start fl i m :
    NewSourceManager (fl_src fl) = Ok m ->
    fleet_step fl (mkFleet (fl_src fl) (<[i := m]> (fl_managers fl)))
| step_stop fl i : fleet_step fl (mkFleet (fl_src fl) (delete i (fl_managers fl)))
| step_update fl i m raw ifMatch m' s' r :
    fl_managers fl !! i = Some m -> Update m (fl_src fl) raw ifMatch = (m', s', r) ->
    fleet_step fl (mkFleet s' (<[i := m']> (fl_managers fl)))
| step_reload fl i m :
    fl_managers fl !! i = Some m ->
    fleet_step fl (mkFleet (fl_src fl) (<[i := (Reload m (fl_src fl)).1]> (fl_managers fl)))
| step_edited fl s' : fleet_step fl (mkFleet s' (fl_managers fl)).

Definition fleet_reach (fl : Fleet) : Prop := exists s, rtc fleet_step (mkFleet s ∅) fl.

(** The snapshot is an accepted document's, under its version, and so is
    everything the subscribers were given, the latest being the active one. *)
Definition snapshot_ok (m : Manager) : Prop :=
  (exists raw, m_version m = Version raw /\ accept raw = Ok (m_cur m))
  /\ (forall c, c ∈ m_told m -> exists raw, accept raw = Ok c)
  /\ (forall c, last (m_told m) = Some c -> c = m_cur m).

Lemma snapshot_told v c m raw :
  snapshot_ok m -> v = Version raw -> accept raw = Ok c -> snapshot_ok (mkManager v c (m_told m ++ [c])).
Proof.
  intros (_ & Ht & _) -> Ha. split; [by exists raw|]. split; simpl.
  - intros c' [Hc| ->%list_elem_of_singleton]%elem_of_app; [by apply Ht|by exists raw].
  - intros c'. rewrite last_snoc. by intros [= <-].
Qed.

Lemma NewSourceManager_ok s m : NewSourceManager s = Ok m -> snapshot_ok m.
Proof.
  unfold NewSourceManager. destruct (src_read s) as [raw|]; [|done]. rewrite rbind_Ok. intros (c & Ha & [= <-]).
  split; [by exists raw|]. by split; simpl; [intros c' ?%not_elem_of_nil|].
Qed.

Lemma Update_ok m s raw ifMatch m' s' r :
  Update m s raw ifMatch = (m', s', r) -> snapshot_ok m -> snapshot_ok m'.
Proof.
  unfold Update. destruct (accept raw) as [c|e] eqn:Ea; [|by intros [= <- _ _]].
  destruct (src_write s raw ifMatch) as [s1 [v|e]] eqn:Ew; [|by intros [= <- _ _]].
  intros [= <- _ _] Hm. apply write_ok in Ew as (Hv & _). by eapply snapshot_told.
Qed.

Lemma Reload_ok m s : snapshot_ok m -> snapshot_ok (Reload m s).1.
Proof.
  intros Hm. unfold Reload. destruct (src_read s) as [raw|]; [|done]. case_decide; [done|].
  destruct (accept raw) as [c|] eqn:Ea; [|done]. by eapply snapshot_told.
Qed.

Lemma fleet_step_ok fl fl' :
  fleet_step fl fl' -> map_Forall (fun _ m => snapshot_ok m) (fl_managers fl) ->
  map_Forall (fun _ m => snapshot_ok m) (fl_managers fl').
Proof.
  intros Hstep Hall. destruct Hstep as [fl i m Hn|fl i|fl i m raw im m' s' r Hi Hu|fl i m Hi|fl s']; simpl in *.
  - apply map_Forall_insert_2; [by eapply NewSourceManager_ok|done].
  - by apply map_Forall_delete.
  - apply map_Forall_insert_2; [|done]. eapply Update_ok; [done|]. by eapply Hall.
  - apply map_Forall_insert_2; [|done]. apply Reload_ok. by eapply Hall.
  - done.
Qed.

Lemma fleet_reach_ok fl : fleet_reach fl -> map_Forall (fun _ m => snapshot_ok m) (fl_managers fl).
Proof.
  intros [s Hr]. revert fl Hr. apply rtc_ind_r; [apply map_Forall_empty|].
  intros f1 f2 _ Hs IH. by eapply fleet_step_ok.
Qed.
End manager.

(** C25. Whatever is written to the source, by whichever hands, and however
    updates, reloads, restarts and failures of the source interleave over the
    replicas, the snapshot a replica serves from is always one whole document
    that parsed and passed every check, under that document's own version;
    subscribers were only ever given such snapshots, last the active one. *)
Theorem active_snapshot_valid (Version : string -> string) {Src} `{CS : !ConfigSource Version Src} parse semantic
  (fl : Fleet (Src := Src)) i m :
  fleet_reach Version parse semantic fl -> fl_managers fl !! i = Some m ->
  (exists raw, m_version m = Version raw /\ parse raw = Ok (m_cur m) /\ semantic (m_cur m) = true)
  /\ (forall c, c ∈ m_told m -> semantic c = true)
  /\ (forall c, last (m_told m) = Some c -> c = m_cur m).
Proof.
  assert (forall raw c, accept parse semantic raw = Ok c -> parse raw = Ok c /\ semantic c = true) as Hacc.
  { intros raw c. unfold accept. destruct (parse raw) as [c'|]; [|done].
    destruct (semantic c') eqn:E; [|done]. by intros [= <-]. }
  intros Hr Hi. pose proof (fleet_reach_ok _ _ _ _ Hr) as Hall.
  destruct (Hall i m Hi) as ((raw & Hv & Ha) & Ht & Hl). split; [exists raw; split; [done|by apply Hacc]|].
  split; [|done]. intros c Hc. destruct (Ht c Hc) as [raw' Ha']. by eapply Hacc.
Qed.

(** C26. A conditional update is a compare-and-swap. When it succeeds, the
    document it replaced had the version the caller named, the source now
    holds the new document and the replica serves it; of two updates from
    the same version the later one is refused and changes nothing, and any
    replica that then reloads serves the first one's document. An update
    that fails leaves the document and the snapshot as they were. *)
Theorem update_compare_and_swap (Version : string -> string) {Src} `{CS : !ConfigSource Version Src} parse semantic
  m (s : Src) raw v m' s' r :
  Update Version parse semantic m s raw v = (m', s', r) -> v <> "" -> Z.of_nat (String.length raw) <= doc_limit ->
  (forall e, r = Err e -> m' = m /\ src_doc s' = src_doc s)
  /\ (forall c v', r = Ok (c, v') ->
        default "" (Version <$> src_doc s) = v /\ src_doc s' = Some raw /\ v' = Version raw
        /\ m_cur m' = c /\ m_version m' = v' /\ parse raw = Ok c
        /\ (Version raw <> v -> forall m2 raw2, exists e s2,
              Update Version parse semantic m2 s' raw2 v = (m2, s2, Err e) /\ src_doc s2 = Some raw)
        /\ (forall m3 x, src_read s' = Ok x ->
              m_version (Reload Version parse semantic m3 s').1 = v'
              /\ (m_version m3 <> v' -> m_cur (Reload Version parse semantic m3 s').1 = c))).
Proof.
  unfold Update at 1. destruct (accept parse semantic raw) as [c|e] eqn:Ea;
    [|intros [= <- <- <-] _ _; split; [intros; auto|done]].
  destruct (src_write s raw v) as [s1 [v1|e]] eqn:Ew; intros [= <- <- <-] Hne Hlen.
  2: { split; [|done]. intros e' _. split; [done|]. by eapply write_err. }
  split; [done|]. intros c' v' [= <- <-]. apply write_ok in Ew as (-> & Hdoc & Hpre).
  specialize (Hdoc Hlen). specialize (Hpre Hne).
  assert (parse raw = Ok c) as Hparse.
  { unfold accept in Ea. destruct (parse raw) as [c0|]; [|done]. destruct (semantic c0); [|done]. by injection Ea as ->. }
  split; [done|]. split; [done|]. split; [done|]. split; [done|]. split; [done|]. split; [done|]. split.
  - intros Hd m2 raw2. unfold Update. destruct (accept parse semantic raw2) as [c2|e2]; [|by eauto].
    destruct (src_write s1 raw2 v) as [s2 [v2|e2]] eqn:Ew2.
    + apply write_ok in Ew2 as (_ & _ & Hp2). specialize (Hp2 Hne). rewrite Hdoc in Hp2. done.
    + exists (FromSource e2), s2. split; [done|]. by apply write_err in Ew2 as ->.
  - intros m3 x Hx. unfold Reload. rewrite Hx. apply read_sound in Hx. rewrite Hdoc in Hx. injection Hx as <-.
    case_decide as Hv; [by split|]. rewrite Ea. by split.
Qed.

(** Expansion never changes a document's structure: a substituted value stays
    one scalar. *)
Fixpoint shape (n : node) : node :=
  let 'Node k v cs := n in Node k (if decide (k = ScalarNode) then "" else v) (map shape cs).

Theorem expansion_keeps_structure env n : shape (expandNode env n).1 = shape n.
Proof.
  revert n. fix expansion_keeps_structure 1. intros [k v cs]. cbn [expandNode]. case_decide as Hk; [destruct (expand env v); by subst k|].
  cbn [shape fst]. f_equal. induction cs as [|c cs IH]; cbn [map]; [done|]. f_equal; [apply expansion_keeps_structure|exact IH].
Qed.

(** ** A fleet on a file *)

Module Demo.
(** Every text is a document of one feed list, but for the word nonsense. *)
Definition yaml (s : string) : option node := if decide (s = "nonsense") then None else Some (Scalar s).
Definition parse : string -> result parse_error Config :=
  Parse yaml (fun _ => Some Config.Demo.doc) (fun _ => None) (fun _ => None) Config.Demo.validate.
Definition semantic (c : Config) : bool := true.
#[global] Instance source : ConfigSource toy_sha256 FileSource := file_source toy_sha256.
Definition first : FileSource := mkFile (Some "a") true true.
Definition manager : Manager := mkManager "1a" Config.Demo.doc [].
End Demo.

Lemma active_snapshot_valid_witness :
  exists fl, fleet_reach toy_sha256 Demo.parse Demo.semantic fl
    /\ src_doc (fl_src fl) = Some "nonsense" /\ exists m, fl_managers fl !! 0%nat = Some m /\ m_version m = "1a"
    /\ exists raw, m_version m = toy_sha256 raw /\ Demo.parse raw = Ok (m_cur m).
Proof.
  set (s0 := mkFleet Demo.first (∅ : gmap nat Manager)).
  set (s1 := mkFleet Demo.first {[ 0%nat := Demo.manager ]}).
  set (bad := mkFile (Some "nonsense") true true).
  set (s2 := mkFleet bad {[ 0%nat := Demo.manager ]}).
  assert (fleet_reach toy_sha256 Demo.parse Demo.semantic s2) as Hr.
  { exists Demo.first. apply (rtc_l _ _ s1).
    - refine (step_start toy_sha256 Demo.parse Demo.semantic s0 0 Demo.manager _). vm_compute. reflexivity.
    - apply rtc_once. exact (step_edited toy_sha256 Demo.parse Demo.semantic s1 bad). }
  exists s2. split; [exact Hr|]. split; [reflexivity|]. exists Demo.manager. split; [reflexivity|]. split; [reflexivity|].
  destruct (active_snapshot_valid toy_sha256 Demo.parse Demo.semantic s2 0 Demo.manager Hr eq_refl)
    as ((raw & H1 & H2 & _) & _). exists raw. split; [exact H1|exact H2].
Defined.

Lemma update_compare_and_swap_witness :
  let '(m', s', r) := Update toy_sha256 Demo.parse Demo.semantic Demo.manager Demo.first "bb" "1a" in
  src_doc s' = Some "bb" /\
  exists e s2, Update toy_sha256 Demo.parse Demo.semantic Demo.manager s' "ccc" "1a" = (Demo.manager, s2, Err e)
    /\ src_doc s2 = Some "bb".
Proof.
  destruct (Update toy_sha256 Demo.parse Demo.semantic Demo.manager Demo.first "bb" "1a") as [[m' s'] r] eqn:E.
  assert (exists x, r = Ok x) as [[c v] ->].
  { apply (f_equal snd) in E. vm_compute in E. inversion E. eexists. reflexivity. }
  destruct (update_compare_and_swap toy_sha256 Demo.parse Demo.semantic _ _ "bb" "1a" m' s' (Ok (c, v)) E)
    as [_ H]; [discriminate|vm_compute; discriminate|].
  destruct (H c v eq_refl) as (_ & Hd & _ & _ & _ & _ & Hx & _). split; [exact Hd|].
  apply Hx. vm_compute. discriminate.
Defined.
End ConfigManager.
