(* ===== verification/YamlEdit.v ===== *)
(** * Surgery on the configuration document ([core/adminapi/resources.go])

    The admin API edits the parsed tree of the document rather than a
    re-marshalled structure, so that what an edit does not name stays as the
    operator wrote it. This file holds the functions that find and change
    parts of the tree, and the theory of them: each edit does what it says to
    the list it names and nothing to the rest.

    The source changes nodes in place through pointers; here each function
    returns the changed tree. A pointer into a list or a section becomes a
    write-back along the path it was found by ([set_root], [set_section]). *)

From S2P Require Import Prelude GoLib Access Store Config ConfigManager.

Module YamlEdit.
Import ConfigManager.

(** Why an edit fails. *)
Inductive edit_error := NotMapping | ParentMissing | NotList (key : string) | BadValue.

Definition with_content (n : node) (cs : list node) : node := Node (n_kind n) (n_value n) cs.

(** The value of the first pair with this key, as each of the loops over a
    mapping's content finds it; a trailing key without a value is not a pair. *)
Fixpoint pair_value (cs : list node) (key : string) : option node :=
  match cs with
  | k :: v :: rest => if decide (n_value k = key) then Some v else pair_value rest key
  | _ => None
  end.

(** Replacing that value, or appending a pair. *)
Fixpoint set_pair (cs : list node) (key : string) (v : node) : list node :=
  match cs with
  | k :: w :: rest => if decide (n_value k = key) then k :: v :: rest else k :: w :: set_pair rest key v
  | _ => cs ++ [Scalar key; v]
  end.

(** [documentRoot]. *)
Definition documentRoot (doc : node) : option node :=
  let top := if decide (n_kind doc = DocumentNode) then head (n_content doc) else Some doc in
  match top with
  | Some n => if decide (n_kind n = MappingNode) then Some n else None
  | None => None
  end.

(** The document with the content of its root replaced. *)
Definition set_root (doc : node) (cs : list node) : node :=
  if decide (n_kind doc = DocumentNode) then
    match n_content doc with
    | r :: rest => with_content doc (with_content r cs :: rest)
    | [] => doc
    end
  else with_content doc cs.

(** [findMapping]. *)
Definition findMapping (doc : node) (key : string) : option node :=
  match documentRoot doc with
  | None => None
  | Some root => pair_value (n_content root) key
  end.

(** [ensureMapping]: the section found, or the one about to be appended. *)
Definition ensureMapping (doc : node) (key : string) : option node :=
  match findMapping doc key with
  | Some n => Some n
  | None =>
      match documentRoot doc with
      | None => None
      | Some _ => Some (Node MappingNode "" [])
      end
  end.

Definition set_section (doc : node) (key : string) (n : node) : node :=
  match documentRoot doc with
  | None => doc
  | Some root => set_root doc (set_pair (n_content root) key n)
  end.

(** [childValue] and [mappingField]. *)
Definition childValue (mapping : node) (key : string) : option node :=
  if decide (n_kind mapping = MappingNode) then pair_value (n_content mapping) key else None.

Definition mappingField (n : node) (field : string) : string :=
  match childValue n field with None => "" | Some v => n_value v end.

(** [setMappingKey]; the value is what [yamlDocument] made of it. *)
Definition setMappingKey (doc : node) (key : string) (value : option node) : result edit_error node :=
  match documentRoot doc with
  | None => Err NotMapping
  | Some root =>
      match value with
      | None => Err BadValue
      | Some v => Ok (set_root doc (set_pair (n_content root) key v))
      end
  end.

(** A parent whose child of that key is [n]: the child was found in it, or is
    appended to its content whatever its kind is. *)
Definition put_child (parent : node) (key : string) (n : node) : node :=
  with_content parent
    (if decide (n_kind parent = MappingNode) then set_pair (n_content parent) key n
     else n_content parent ++ [Scalar key; n]).

Definition empty_list : node := Node SequenceNode "" [].

(** The loop that replaces the first matching item, or appends. *)
Fixpoint upsert_item (field value : string) (n : node) (items : list node) : list node * bool :=
  match items with
  | [] => ([n], true)
  | item :: rest =>
      if decide (mappingField item field = value) then (n :: rest, false)
      else let '(rest', created) := upsert_item field value n rest in (item :: rest', created)
  end.

(** [upsertSequenceItemIn]. *)
Definition upsertSequenceItemIn (parent : option node) (key field value : string) (v : option node)
  : result edit_error (node * bool) :=
  match parent with
  | None => Err ParentMissing
  | Some parent =>
      match v with
      | None => Err BadValue
      | Some n =>
          let seq := default empty_list (childValue parent key) in
          if decide (n_kind seq = SequenceNode) then
            let '(items, created) := upsert_item field value n (n_content seq) in
            Ok (put_child parent key (with_content seq items), created)
          else Err (NotList key)
      end
  end.

(** [upsertSequenceItem]. *)
Definition upsertSequenceItem (doc : node) (key field value : string) (v : option node)
  : result edit_error (node * bool) :=
  match documentRoot doc with
  | None => Err NotMapping
  | Some root =>
      let? (root', created) := upsertSequenceItemIn (Some root) key field value v in
      Ok (set_root doc (n_content root'), created)
  end.

(** The loop that drops the first item a test picks. *)
Fixpoint drop_item (pick : node -> bool) (items : list node) : list node * bool :=
  match items with
  | [] => ([], false)
  | item :: rest =>
      if pick item then (rest, true)
      else let '(rest', found) := drop_item pick rest in (item :: rest', found)
  end.
Definition field_is (field value : string) (n : node) : bool := bool_decide (mappingField n field = value).
Definition value_is (value : string) (n : node) : bool := bool_decide (n_value n = value).

(** The common part of the removals: nothing to do without a list. *)
Definition remove_in (parent : node) (key : string) (pick : node -> bool) : node * bool :=
  match childValue parent key with
  | Some seq =>
      if decide (n_kind seq = SequenceNode) then
        let '(items, found) := drop_item pick (n_content seq) in
        if found then (put_child parent key (with_content seq items), true) else (parent, false)
      else (parent, false)
  | None => (parent, false)
  end.

(** [removeSequenceItemIn], [removeSequenceItem]. *)
Definition removeSequenceItemIn (parent : node) (key field value : string) : node * bool :=
  remove_in parent key (field_is field value).

Definition removeSequenceItem (doc : node) (key field value : string) : result edit_error (node * bool) :=
  match documentRoot doc with
  | None => Err NotMapping
  | Some root =>
      let '(root', found) := removeSequenceItemIn root key field value in
      Ok (set_root doc (n_content root'), found)
  end.

(** [addScalarToSequence]. *)
Definition addScalarToSequence (doc : node) (key value : string) : result edit_error (node * bool) :=
  match documentRoot doc with
  | None => Err NotMapping
  | Some root =>
      let seq := default empty_list (childValue root key) in
      if decide (n_kind seq = SequenceNode) then
        let there := existsb (value_is value) (n_content seq) in
        let items := if there then n_content seq else n_content seq ++ [Scalar value] in
        Ok (set_root doc (n_content (put_child root key (with_content seq items))), negb there)
      else Err (NotList key)
  end.

(** [removeScalarFromSequence]. *)
Definition removeScalarFromSequence (doc : node) (key value : string) : result edit_error (node * bool) :=
  match documentRoot doc with
  | None => Err NotMapping
  | Some root =>
      let '(root', found) := remove_in root key (value_is value) in
      Ok (set_root doc (n_content root'), found)
  end.

(** *** The lists the API edits *)

(** A list of items: a key of the root or of one of its sections, and the field
    that names an item. *)
Record Place := mkPlace { pl_section : option string; pl_key : string; pl_field : string }.
#[export] Instance place_dec : EqDecision Place.
Proof. solve_decision. Defined.

(** The edit a handler asks for, in the root or in a section. *)
Definition upsert_at (pl : Place) (name : string) (v : option node) (doc : node) : result edit_error (node * bool) :=
  match pl_section pl with
  | None => upsertSequenceItem doc (pl_key pl) (pl_field pl) name v
  | Some s =>
      let? (section, created) :=
        upsertSequenceItemIn (ensureMapping doc s) (pl_key pl) (pl_field pl) name v in
      Ok (set_section doc s section, created)
  end.

Definition remove_at (pl : Place) (name : string) (doc : node) : result edit_error (node * bool) :=
  match pl_section pl with
  | None => removeSequenceItem doc (pl_key pl) (pl_field pl) name
  | Some s =>
      match findMapping doc s with
      | None => Ok (doc, false)
      | Some section =>
          let '(section', found) := removeSequenceItemIn section (pl_key pl) (pl_field pl) name in
          Ok (set_section doc s section', found)
      end
  end.

(** ** Reading the tree *)

(** What a path of keys leads to. *)
Definition below (o : option node) (key : string) : option node := n ← o; childValue n key.
Definition at_path (doc : node) (path : list string) : option node := foldl below (documentRoot doc) path.
Definition items (o : option node) : list node :=
  match o with
  | Some n => if decide (n_kind n = SequenceNode) then n_content n else []
  | None => []
  end.
Definition place_path (pl : Place) : list string := option_list (pl_section pl) ++ [pl_key pl].
Definition entries (doc : node) (pl : Place) : list node := items (at_path doc (place_path pl)).
Definition find_item (field name : string) (l : list node) : option node := List.find (field_is field name) l.
Definition entry (doc : node) (pl : Place) (name : string) : option node := find_item (pl_field pl) name (entries doc pl).

(** The trees the parser makes: a mapping's content is pairs, a scalar has none. *)
Fixpoint wf (n : node) : bool :=
  let 'Node k v cs := n in
  (negb (bool_decide (k = MappingNode)) || Nat.even (length cs))
  && (negb (bool_decide (k = ScalarNode)) || bool_decide (length cs = 0%nat))
  && forallb wf cs.

(** A whole document, as the parser returns it. *)
Definition is_document (n : node) : bool :=
  bool_decide (n_kind n = DocumentNode) && bool_decide (length (n_content n) = 1%nat).

(** The section an item list lives in is a mapping, or is not there yet. *)
Definition section_ok (doc : node) (pl : Place) : Prop :=
  forall s n, pl_section pl = Some s -> findMapping doc s = Some n -> n_kind n = MappingNode.

(** ** Theory *)

Lemma wf_mapping n : wf n = true -> n_kind n = MappingNode -> Nat.even (length (n_content n)) = true.
Proof. destruct n as [k v cs]; simpl. intros H ->. by destruct (Nat.even _). Qed.

Lemma wf_content n c : wf n = true -> c ∈ n_content n -> wf c = true.
Proof.
  destruct n as [k v cs]; simpl. rewrite !andb_true_iff, forallb_forall. intros [_ H] Hc. apply H. by apply list_elem_of_In.
Qed.

(** Induction on a list two elements at a time. *)
Lemma pairs_ind (P : list node -> Prop) :
  P [] -> (forall k, P [k]) -> (forall k v cs, P cs -> P (k :: v :: cs)) -> forall cs, P cs.
Proof. intros H0 H1 H2. fix IH 1. intros [|k [|v cs]]; [done|done|]. apply H2, IH. Qed.

Lemma pair_value_elem cs key v : pair_value cs key = Some v -> v ∈ cs.
Proof.
  induction cs as [|k|k w cs IH] using pairs_ind; simpl; [done..|].
  case_decide; [intros [= ->]; set_solver|]. intros Hv%IH. set_solver.
Qed.

Lemma wf_pair_value n key v : wf n = true -> pair_value (n_content n) key = Some v -> wf v = true.
Proof. intros Hn Hv%pair_value_elem. by eapply wf_content. Qed.

Lemma set_pair_value cs key v key' :
  Nat.even (length cs) = true ->
  pair_value (set_pair cs key v) key' = if decide (key' = key) then Some v else pair_value cs key'.
Proof.
  induction cs as [|k|k w cs IH] using pairs_ind; simpl; [|done|].
  - intros _. repeat case_decide; congruence.
  - intros He. repeat case_decide; simpl; repeat case_decide; try congruence; by rewrite IH; repeat case_decide; try congruence.
Qed.

Lemma set_pair_even cs key v : Nat.even (length cs) = true -> Nat.even (length (set_pair cs key v)) = true.
Proof. induction cs as [|k|k w cs IH] using pairs_ind; simpl; [done|done|]. intros He. case_decide; simpl; [done|]. by apply IH. Qed.

Lemma set_pair_wf cs key v :
  forallb wf cs = true -> wf v = true -> forallb wf (set_pair cs key v) = true.
Proof.
  induction cs as [|k|k w cs IH] using pairs_ind; simpl; rewrite ?andb_true_iff; intros H Hv; [done|by destruct H|].
  case_decide; simpl; rewrite ?andb_true_iff; naive_solver.
Qed.

Lemma documentRoot_kind doc root : documentRoot doc = Some root -> n_kind root = MappingNode.
Proof. unfold documentRoot. destruct (if decide _ then _ else _); [|done]. case_decide; [|done]. by intros [= <-]. Qed.

Lemma documentRoot_set doc root cs :
  documentRoot doc = Some root -> documentRoot (set_root doc cs) = Some (with_content root cs).
Proof.
  unfold documentRoot, set_root. destruct doc as [k v ds]; simpl. case_decide as Hk.
  - destruct ds as [|[k1 v1 ds1] ds]; simpl; [done|]. case_decide; [|done]. intros [= <-].
    rewrite (decide_True _ _ Hk). simpl. by rewrite decide_True.
  - case_decide; [|done]. intros [= <-]. simpl. rewrite (decide_False _ _ Hk). simpl. by rewrite decide_True.
Qed.

Lemma documentRoot_wf doc root : wf doc = true -> documentRoot doc = Some root -> wf root = true.
Proof.
  intros Hd. unfold documentRoot. case_decide.
  - destruct (n_content doc) as [|r rs] eqn:E; simpl; [done|]. case_decide; [|done]. intros [= <-].
    eapply wf_content; [done|]. rewrite E. set_solver.
  - case_decide; [|done]. by intros [= <-].
Qed.

Lemma with_content_id n : with_content n (n_content n) = n.
Proof. by destruct n. Qed.

Lemma set_root_id doc root : documentRoot doc = Some root -> set_root doc (n_content root) = doc.
Proof.
  unfold documentRoot, set_root. destruct doc as [k v ds]; simpl. case_decide.
  - destruct ds as [|r ds]; simpl; [done|]. case_decide; [|done]. intros [= <-]. by rewrite with_content_id.
  - case_decide; [|done]. by intros [= <-].
Qed.

Lemma set_pair_id cs key v : pair_value cs key = Some v -> set_pair cs key v = cs.
Proof.
  induction cs as [|k|k w cs IH] using pairs_ind; simpl; [done..|]. case_decide; [by intros [= ->]|]. by intros ->%IH.
Qed.

Lemma with_content_wf n cs :
  wf n = true -> n_kind n <> ScalarNode -> (n_kind n = MappingNode -> Nat.even (length cs) = true) ->
  forallb wf cs = true -> wf (with_content n cs) = true.
Proof.
  destruct n as [k v ds]; simpl. intros _ Hs Hm ->. rewrite andb_true_r.
  rewrite (bool_decide_false (k = ScalarNode)) by done. rewrite andb_true_r.
  destruct (decide (k = MappingNode)) as [->|]; [by rewrite Hm|]. by rewrite bool_decide_false.
Qed.

Lemma wf_all n : wf n = true -> forallb wf (n_content n) = true.
Proof. destruct n; simpl. rewrite !andb_true_iff. by intros [_ ?]. Qed.

Lemma set_root_wf doc root cs :
  wf doc = true -> documentRoot doc = Some root -> Nat.even (length cs) = true -> forallb wf cs = true ->
  wf (set_root doc cs) = true.
Proof.
  intros Hd Hr He Hc. pose proof (documentRoot_wf _ _ Hd Hr) as Hrw. pose proof (documentRoot_kind _ _ Hr) as Hk.
  unfold documentRoot in Hr. unfold set_root. case_decide as Hdoc.
  - destruct (n_content doc) as [|r rs] eqn:E; simpl in Hr; [done|]. case_decide; [|done]. injection Hr as ->.
    apply with_content_wf; [done|by rewrite Hdoc|by rewrite Hdoc|]. cbn [forallb].
    rewrite with_content_wf; [|done|congruence|done..].
    pose proof (wf_all _ Hd) as Ha. rewrite E in Ha. simpl in Ha. by apply andb_true_iff in Ha as [_ ?].
  - case_decide; [|done]. injection Hr as ->. apply with_content_wf; [done|congruence|done..].
Qed.

(** A section replaced is found again, and every path that leads elsewhere
    leads where it did. *)
Lemma set_section_path doc root s n k p :
  wf doc = true -> documentRoot doc = Some root ->
  at_path (set_section doc s n) (k :: p)
  = if decide (k = s) then foldl below (Some n) p else at_path doc (k :: p).
Proof.
  intros Hd Hr. pose proof (documentRoot_wf _ _ Hd Hr) as Hw. pose proof (documentRoot_kind _ _ Hr) as Hk.
  unfold at_path. simpl. unfold set_section. rewrite Hr, (documentRoot_set _ _ _ Hr). simpl. unfold childValue. simpl.
  rewrite !(decide_True _ _ Hk). rewrite set_pair_value by (by apply wf_mapping). by case_decide.
Qed.

Lemma set_section_root doc root s n :
  documentRoot doc = Some root -> documentRoot (set_section doc s n) = Some (with_content root (set_pair (n_content root) s n)).
Proof. intros Hr. unfold set_section. rewrite Hr. by apply documentRoot_set. Qed.

Lemma set_section_wf doc s n : wf doc = true -> wf n = true -> wf (set_section doc s n) = true.
Proof.
  intros Hd Hn. unfold set_section. destruct (documentRoot doc) as [root|] eqn:Hr; [|done].
  pose proof (documentRoot_wf _ _ Hd Hr) as Hw. eapply set_root_wf; [done..| |].
  - apply set_pair_even, wf_mapping; [done|]. by eapply documentRoot_kind.
  - apply set_pair_wf; [|done]. by apply wf_all.
Qed.

Lemma set_section_document doc s n : is_document (set_section doc s n) = is_document doc.
Proof.
  unfold set_section. destruct (documentRoot doc) as [root|]; [|done]. unfold set_root. case_decide as Hk.
  - destruct (n_content doc) eqn:E; [done|]. unfold is_document. simpl. by rewrite E.
  - unfold is_document. simpl. by rewrite (bool_decide_false (n_kind doc = DocumentNode)).
Qed.

Lemma set_section_id doc s n : findMapping doc s = Some n -> set_section doc s n = doc.
Proof.
  unfold findMapping, set_section. destruct (documentRoot doc) as [root|] eqn:Hr; [|done].
  intros H. rewrite set_pair_id by done. by apply set_root_id.
Qed.

Lemma childValue_root doc root k : documentRoot doc = Some root -> childValue root k = findMapping doc k.
Proof. intros H. unfold childValue, findMapping. rewrite H. by rewrite decide_True by (by eapply documentRoot_kind). Qed.

Lemma put_child_value n key c k :
  wf n = true -> n_kind n = MappingNode ->
  childValue (put_child n key c) k = if decide (k = key) then Some c else childValue n k.
Proof.
  intros Hw Hk. unfold childValue, put_child. simpl. rewrite !(decide_True _ _ Hk).
  apply set_pair_value. by apply wf_mapping.
Qed.

Lemma put_child_wf n key c : wf n = true -> n_kind n = MappingNode -> wf c = true -> wf (put_child n key c) = true.
Proof.
  intros Hw Hk Hc. apply with_content_wf; [done|congruence| |]; rewrite decide_True by done.
  - intros _. by apply set_pair_even, wf_mapping.
  - apply set_pair_wf; [|done]. by apply wf_all.
Qed.

Lemma put_child_id n key c : childValue n key = Some c -> put_child n key c = n.
Proof.
  unfold childValue, put_child. case_decide; [|done]. intros Hc. rewrite set_pair_id by done. apply with_content_id.
Qed.

(** *** Edits of a list *)

(** The document with the list of a place replaced. *)
Definition set_place (pl : Place) (doc seq : node) : node :=
  match pl_section pl with
  | None => set_section doc (pl_key pl) seq
  | Some s => set_section doc s (put_child (default (Node MappingNode "" []) (findMapping doc s)) (pl_key pl) seq)
  end.

(** Two paths that part before either ends. *)
Definition apart (p q : list string) : Prop := ~ p `prefix_of` q /\ ~ q `prefix_of` p.

(** What an edit of a list does to the document. *)
Record edited (pl : Place) (doc doc' : node) (l : list node) : Prop := {
  ed_wf : wf doc' = true;
  ed_entries : entries doc' pl = l;
  ed_frame : forall q, apart (place_path pl) q -> at_path doc' q = at_path doc q;
  ed_root : is_Some (documentRoot doc');
  ed_section : section_ok doc' pl;
  ed_document : is_document doc' = is_document doc;
}.

Lemma apart_cons k p q : apart (k :: p) (k :: q) <-> apart p q.
Proof.
  unfold apart. split; intros [H1 H2]; split; intros H;
    [apply H1|apply H2|apply H1|apply H2]; (by apply prefix_cons) || by eapply prefix_cons_inv_2.
Qed.

Lemma apart_single k q : apart [k] q -> exists k' p, q = k' :: p /\ k' <> k.
Proof.
  intros [H1 H2]. destruct q as [|k' p]; [by destruct H2; apply prefix_nil|]. exists k', p. split; [done|].
  intros ->. apply H1. by exists p.
Qed.

Lemma set_place_edited pl doc seq :
  wf doc = true -> is_Some (documentRoot doc) -> section_ok doc pl -> wf seq = true -> n_kind seq = SequenceNode ->
  edited pl doc (set_place pl doc seq) (n_content seq).
Proof.
  intros Hd [root Hr] Hsec Hw Hk.
  assert (Nat.even (length (n_content root)) = true) as Hev
    by (apply wf_mapping; [by apply (documentRoot_wf doc)|by eapply documentRoot_kind]).
  destruct pl as [[s|] key field]; unfold set_place, section_ok in *; simpl in *.
  - set (sec := default _ _) in *.
    assert (wf sec = true /\ n_kind sec = MappingNode) as [Hsw Hsk].
    { subst sec. destruct (findMapping doc s) as [n|] eqn:En; simpl; [|done]. split; [|by eapply Hsec].
      unfold findMapping in En. rewrite Hr in En. eapply wf_pair_value; [|done]. by apply (documentRoot_wf doc). }
    split.
    + by apply set_section_wf, put_child_wf.
    + unfold entries, place_path. simpl. rewrite (set_section_path _ _ _ _ _ _ Hd Hr), decide_True by done. simpl.
      rewrite put_child_value, decide_True by done. simpl. by rewrite decide_True.
    + intros q Hq. destruct q as [|k q]; [by destruct Hq as [_ []]; apply prefix_nil|].
      rewrite (set_section_path _ _ _ _ _ _ Hd Hr). case_decide as Hks; [subst k|done].
      apply apart_cons, apart_single in Hq as (k & p & -> & Hne). unfold at_path. simpl. rewrite Hr. simpl.
      rewrite put_child_value, decide_False by done. rewrite (childValue_root _ _ s Hr).
      subst sec. destruct (findMapping doc s) as [n|] eqn:En; simpl; [done|]. by unfold childValue.
    + eexists. by apply set_section_root.
    + intros s' n [= <-] Hf. erewrite <-childValue_root in Hf by (by apply set_section_root).
      unfold childValue in Hf. simpl in Hf. rewrite decide_True in Hf by (by eapply documentRoot_kind).
      rewrite set_pair_value, decide_True in Hf by done.
      injection Hf as <-. done.
    + apply set_section_document.
  - split.
    + by apply set_section_wf.
    + unfold entries, place_path. simpl. rewrite (set_section_path _ _ _ _ _ _ Hd Hr), decide_True by done. simpl.
      by rewrite decide_True.
    + intros q (k & p & -> & Hne)%apart_single. by rewrite (set_section_path _ _ _ _ _ _ Hd Hr), decide_False.
    + eexists. by apply set_section_root.
    + done.
    + apply set_section_document.
Qed.

(** The list a section of the document holds, where an edit looks for it. *)
Lemma entries_section doc root pl s :
  documentRoot doc = Some root -> pl_section pl = Some s ->
  entries doc pl = items (n ← findMapping doc s; childValue n (pl_key pl)).
Proof.
  intros Hr Hs. unfold entries, place_path, at_path. rewrite Hs. simpl. rewrite Hr. simpl.
  by rewrite (childValue_root _ _ _ Hr).
Qed.

Lemma entries_top doc root pl :
  documentRoot doc = Some root -> pl_section pl = None -> entries doc pl = items (childValue root (pl_key pl)).
Proof. intros Hr Hs. unfold entries, place_path, at_path. rewrite Hs. simpl. by rewrite Hr. Qed.

Lemma upsert_item_wf field name n l :
  wf n = true -> forallb wf l = true -> forallb wf (upsert_item field name n l).1 = true.
Proof.
  intros Hn. induction l as [|x l IH]; simpl; [by rewrite Hn|]. rewrite andb_true_iff. intros [Hx Hl].
  case_decide; simpl; [by rewrite Hn|]. destruct (upsert_item _ _ _ _). simpl in *. by rewrite Hx, IH.
Qed.

Lemma drop_item_wf pick l : forallb wf l = true -> forallb wf (drop_item pick l).1 = true.
Proof.
  induction l as [|x l IH]; simpl; [done|]. rewrite andb_true_iff. intros [Hx Hl].
  destruct (pick x); simpl; [done|]. destruct (drop_item _ _). simpl in *. by rewrite Hx, IH.
Qed.

Lemma child_wf n key c : wf n = true -> childValue n key = Some c -> wf c = true.
Proof. intros Hn. unfold childValue. case_decide; [|done]. by apply wf_pair_value. Qed.

Lemma list_wf seq l : wf seq = true -> n_kind seq = SequenceNode -> forallb wf l = true -> wf (with_content seq l) = true.
Proof. intros Hs Hk Hl. apply with_content_wf; [done|by rewrite Hk|by rewrite Hk|done]. Qed.

(** What [upsertSequenceItemIn] makes of its parent. *)
Lemma upsertIn_ok parent key field name n p' created :
  wf parent = true -> wf n = true ->
  upsertSequenceItemIn (Some parent) key field name (Some n) = Ok (p', created) ->
  exists seq, wf seq = true /\ n_kind seq = SequenceNode /\ n_content seq = (upsert_item field name n (items (childValue parent key))).1
    /\ created = (upsert_item field name n (items (childValue parent key))).2 /\ p' = put_child parent key seq.
Proof.
  intros Hp Hn. simpl. set (seq := default empty_list _).
  assert (wf seq = true) as Hw.
  { subst seq. destruct (childValue parent key) as [c|] eqn:E; [|done]. exact (child_wf _ _ _ Hp E). }
  case_decide as Hk; [|done].
  assert (items (childValue parent key) = n_content seq) as ->.
  { subst seq. revert Hk. destruct (childValue parent key); simpl; [by intros; rewrite decide_True|done]. }
  pose proof (upsert_item_wf field name n (n_content seq) Hn (wf_all _ Hw)) as Hl.
  destruct (upsert_item _ _ _ _) as [l c]. intros [= <- <-]. exists (with_content seq l).
  split; [by apply list_wf|done].
Qed.

Lemma set_root_put_child doc root key c :
  documentRoot doc = Some root -> set_root doc (n_content (put_child root key c)) = set_section doc key c.
Proof.
  intros Hr. unfold set_section, put_child. rewrite Hr. simpl. by rewrite decide_True by (by eapply documentRoot_kind).
Qed.

(** An upsert replaces the first item of that name, or appends. *)
Lemma upsert_at_edited pl name n doc doc' created :
  wf doc = true -> wf n = true -> section_ok doc pl -> upsert_at pl name (Some n) doc = Ok (doc', created) ->
  edited pl doc doc' (upsert_item (pl_field pl) name n (entries doc pl)).1
  /\ created = (upsert_item (pl_field pl) name n (entries doc pl)).2.
Proof.
  intros Hd Hn Hsec. unfold upsert_at. destruct (pl_section pl) as [s|] eqn:Hs.
  - unfold ensureMapping. destruct (documentRoot doc) as [root|] eqn:Hr.
    2: { unfold findMapping. by rewrite Hr. }
    set (sec := default (Node MappingNode "" []) (findMapping doc s)).
    assert ((match findMapping doc s with Some x => Some x | None => Some (Node MappingNode "" []) end) = Some sec) as ->
      by (subst sec; by destruct (findMapping doc s)).
    assert (wf sec = true) as Hw.
    { subst sec. destruct (findMapping doc s) as [x|] eqn:E; [|done]. unfold findMapping in E. rewrite Hr in E.
      eapply wf_pair_value; [|done]. by apply (documentRoot_wf doc). }
    rewrite rbind_Ok. intros ([p' c] & Hu & [= <- <-]).
    apply upsertIn_ok in Hu as (seq & Hws & Hk & Hc & -> & ->); [|done..].
    assert (entries doc pl = items (childValue sec (pl_key pl))) as ->.
    { rewrite (entries_section _ _ _ _ Hr Hs). subst sec. by destruct (findMapping doc s). }
    split; [|done]. rewrite <-Hc.
    assert (set_section doc s (put_child sec (pl_key pl) seq) = set_place pl doc seq) as ->
      by (unfold set_place; by rewrite Hs).
    by apply set_place_edited.
  - unfold upsertSequenceItem. destruct (documentRoot doc) as [root|] eqn:Hr; [|done].
    rewrite rbind_Ok. intros ([p' c] & Hu & [= <- <-]).
    apply upsertIn_ok in Hu as (seq & Hws & Hk & Hc & -> & ->); [|by apply (documentRoot_wf doc)|done].
    rewrite (entries_top _ _ _ Hr Hs). split; [|done]. rewrite <-Hc, (set_root_put_child _ _ _ _ Hr).
    assert (set_section doc (pl_key pl) seq = set_place pl doc seq) as -> by (unfold set_place; by rewrite Hs).
    by apply set_place_edited.
Qed.

Lemma edited_refl pl doc :
  wf doc = true -> is_Some (documentRoot doc) -> section_ok doc pl -> edited pl doc doc (entries doc pl).
Proof. by split. Qed.

Lemma drop_item_none pick l : (drop_item pick l).2 = false -> (drop_item pick l).1 = l.
Proof.
  induction l as [|x l IH]; simpl; [done|]. destruct (pick x); simpl; [done|].
  destruct (drop_item pick l); simpl in *. by intros ->%IH.
Qed.

Lemma remove_in_ok parent key pick p' found :
  wf parent = true -> remove_in parent key pick = (p', found) ->
  found = (drop_item pick (items (childValue parent key))).2
  /\ if found then n_kind parent = MappingNode
       /\ exists seq, wf seq = true /\ n_kind seq = SequenceNode
            /\ n_content seq = (drop_item pick (items (childValue parent key))).1 /\ p' = put_child parent key seq
     else p' = parent.
Proof.
  intros Hp. unfold remove_in. destruct (childValue parent key) as [seq|] eqn:E; simpl; [|by intros [= <- <-]].
  case_decide as Hk; [|by intros [= <- <-]].
  pose proof (drop_item_wf pick _ (wf_all _ (child_wf _ _ _ Hp E))) as Hl.
  destruct (drop_item pick (n_content seq)) as [l [|]] eqn:Ed; intros [= <- <-]; [|done]. split; [done|].
  split; [unfold childValue in E; by case_decide|]. exists (with_content seq l).
  split; [apply list_wf; [by eapply (child_wf parent)|done..]|done].
Qed.

(** Removal of an item of the root's list, by whatever test. *)
Lemma remove_top_edited key field pick doc root p' found (pl := mkPlace None key field) :
  wf doc = true -> documentRoot doc = Some root -> remove_in root key pick = (p', found) ->
  edited pl doc (set_root doc (n_content p')) (drop_item pick (entries doc pl)).1
  /\ found = (drop_item pick (entries doc pl)).2.
Proof.
  intros Hd Hr Hrm. pose proof (entries_top doc root pl Hr eq_refl : _ = items (childValue root key)) as He. rewrite He.
  apply remove_in_ok in Hrm as [-> Hif]; [|by apply (documentRoot_wf doc)].
  split; [|done]. destruct (drop_item _ _).2 eqn:E.
  - destruct Hif as (_ & seq & Hw & Hk & Hc & ->). rewrite <-Hc, (set_root_put_child _ _ _ _ Hr).
    by apply (set_place_edited pl).
  - subst p'. rewrite drop_item_none by done. rewrite set_root_id by done.
    rewrite <-He. by apply edited_refl.
Qed.

(** A removal drops the first item of that name, or nothing. *)
Lemma remove_at_edited pl name doc doc' found :
  wf doc = true -> is_Some (documentRoot doc) -> section_ok doc pl -> remove_at pl name doc = Ok (doc', found) ->
  edited pl doc doc' (drop_item (field_is (pl_field pl) name) (entries doc pl)).1
  /\ found = (drop_item (field_is (pl_field pl) name) (entries doc pl)).2.
Proof.
  intros Hd [root Hr] Hsec. unfold remove_at. destruct (pl_section pl) as [s|] eqn:Hs.
  - rewrite (entries_section _ _ _ _ Hr Hs). destruct (findMapping doc s) as [sec|] eqn:Ef; simpl.
    2: { intros [= <- <-]. split; [|done].
         assert (entries doc pl = []) as <- by (rewrite (entries_section _ _ _ _ Hr Hs); by rewrite Ef). by apply edited_refl. }
    assert (wf sec = true) as Hw.
    { unfold findMapping in Ef. rewrite Hr in Ef. eapply wf_pair_value; [|done]. by apply (documentRoot_wf doc). }
    unfold removeSequenceItemIn. destruct (remove_in _ _ _) as [p' c] eqn:Erm. intros [= <- <-].
    apply remove_in_ok in Erm as [-> Hif]; [|done]. split; [|done]. destruct (drop_item _ _).2 eqn:E.
    + destruct Hif as (_ & seq & Hws & Hk & Hc & ->). rewrite <-Hc.
      assert (set_section doc s (put_child sec (pl_key pl) seq) = set_place pl doc seq) as ->
        by (unfold set_place; rewrite Hs; by rewrite Ef).
      by apply set_place_edited.
    + subst p'. rewrite drop_item_none by done. rewrite set_section_id by done.
      assert (items (childValue sec (pl_key pl)) = entries doc pl) as ->
        by (rewrite (entries_section _ _ _ _ Hr Hs); by rewrite Ef). by apply edited_refl.
  - unfold removeSequenceItem. rewrite Hr. unfold removeSequenceItemIn. destruct (remove_in _ _ _) as [p' c] eqn:Erm.
    intros [= <- <-]. destruct pl as [? key field]. simpl in Hs. subst. by eapply remove_top_edited.
Qed.

Lemma removeScalar_edited key value doc doc' found (pl := mkPlace None key "") :
  wf doc = true -> removeScalarFromSequence doc key value = Ok (doc', found) ->
  edited pl doc doc' (drop_item (value_is value) (entries doc pl)).1
  /\ found = (drop_item (value_is value) (entries doc pl)).2.
Proof.
  intros Hd. unfold removeScalarFromSequence. destruct (documentRoot doc) as [root|] eqn:Hr; [|done].
  destruct (remove_in _ _ _) as [p' c] eqn:Erm. intros [= <- <-]. by eapply remove_top_edited.
Qed.

Lemma addScalar_edited key value doc doc' created (pl := mkPlace None key "") :
  wf doc = true -> addScalarToSequence doc key value = Ok (doc', created) ->
  let there := existsb (value_is value) (entries doc pl) in
  edited pl doc doc' (if there then entries doc pl else entries doc pl ++ [Scalar value]) /\ created = negb there.
Proof.
  intros Hd. unfold addScalarToSequence. destruct (documentRoot doc) as [root|] eqn:Hr; [|done].
  pose proof (entries_top doc root pl Hr eq_refl : _ = items (childValue root key)) as He. cbv zeta. rewrite He.
  set (seq := default empty_list _).
  assert (wf seq = true) as Hw.
  { subst seq. destruct (childValue root key) as [c|] eqn:E; [|done]. eapply child_wf; [|done]. by apply (documentRoot_wf doc). }
  case_decide as Hk; [|done].
  assert (items (childValue root key) = n_content seq) as ->.
  { subst seq. revert Hk. destruct (childValue root key); simpl; [by intros; rewrite decide_True|done]. }
  intros [= <- <-]. split; [|done]. rewrite decide_True by (by eapply documentRoot_kind).
  set (l := if existsb _ _ then _ else _).
  assert (set_root doc (set_pair (n_content root) key (with_content seq l)) = set_place pl doc (with_content seq l)) as ->
    by (unfold set_place, set_section; simpl; by rewrite Hr).
  apply (set_place_edited pl doc (with_content seq l)); try done.
  apply list_wf; [done..|]. subst l. destruct (existsb _ _); [by apply wf_all|]. by rewrite forallb_app, wf_all.
Qed.

(** Replacing a key of the root. *)
Lemma setMappingKey_edited key v doc doc' :
  wf doc = true -> wf v = true -> n_kind v = SequenceNode -> setMappingKey doc key (Some v) = Ok doc' ->
  edited (mkPlace None key "") doc doc' (n_content v).
Proof.
  intros Hd Hv Hk. unfold setMappingKey. destruct (documentRoot doc) as [root|] eqn:Hr; [|done]. intros [= <-].
  assert (set_root doc (set_pair (n_content root) key v) = set_place (mkPlace None key "") doc v) as ->
    by (unfold set_place, set_section; simpl; by rewrite Hr).
  by apply set_place_edited.
Qed.

(** A key of the root as a path. *)
Lemma findMapping_path doc s : findMapping doc s = at_path doc [s].
Proof.
  unfold at_path. simpl. destruct (documentRoot doc) as [root|] eqn:Hr; simpl.
  - by rewrite (childValue_root _ _ _ Hr).
  - unfold findMapping. by rewrite Hr.
Qed.

(** An edit keeps every path that starts with another key. *)
Lemma edited_elsewhere pl doc doc' l k p :
  edited pl doc doc' l -> head (place_path pl) <> Some k -> at_path doc' (k :: p) = at_path doc (k :: p).
Proof.
  intros He Hk. apply (ed_frame _ _ _ _ He).
  destruct (place_path pl) as [|k' q] eqn:E; [by unfold place_path in E; destruct (pl_section pl)|].
  split; intros H%prefix_cons_inv_1; subst; by apply Hk.
Qed.

(** *** Looking items up *)

#[local] Arguments mappingField : simpl never.

Lemma find_upsert field name n l name' :
  mappingField n field = name ->
  find_item field name' (upsert_item field name n l).1 = if decide (name' = name) then Some n else find_item field name' l.
Proof.
  intros Hn. unfold find_item, field_is. induction l as [|x l IH]; simpl.
  - rewrite Hn. repeat (case_bool_decide || case_decide); congruence.
  - destruct (decide (mappingField x field = name)) as [Hx|Hx]; simpl.
    + rewrite Hn, Hx. repeat (case_bool_decide || case_decide); congruence.
    + destruct (upsert_item _ _ _ _). simpl in *. rewrite IH. repeat (case_bool_decide || case_decide); congruence.
Qed.

Lemma upsert_created field name n l :
  (upsert_item field name n l).2 = bool_decide (find_item field name l = None).
Proof.
  unfold find_item, field_is. induction l as [|x l IH]; simpl; [done|]. case_decide; simpl.
  - by rewrite (bool_decide_true (mappingField x field = name)).
  - rewrite (bool_decide_false (mappingField x field = name)) by done. by destruct (upsert_item _ _ _ _).
Qed.

Lemma find_drop field name l name' :
  name' <> name -> find_item field name' (drop_item (field_is field name) l).1 = find_item field name' l.
Proof.
  intros Hne. unfold find_item, field_is. induction l as [|x l IH]; simpl; [done|].
  case_bool_decide as Hx; simpl; [by rewrite bool_decide_false by congruence|].
  destruct (drop_item _ _). simpl in *. by rewrite IH.
Qed.

Lemma drop_found field name l :
  (drop_item (field_is field name) l).2 = bool_decide (find_item field name l <> None).
Proof.
  unfold find_item. induction l as [|x l IH]; simpl; [done|]. destruct (field_is field name x); simpl; [done|].
  by destruct (drop_item _ _).
Qed.

(** No two items of the list have this name. *)
Definition named_once (field name : string) (l : list node) : Prop :=
  (length (List.filter (field_is field name) l) <= 1)%nat.

Lemma find_dropped field name l :
  named_once field name l -> find_item field name (drop_item (field_is field name) l).1 = None.
Proof.
  unfold named_once, find_item. induction l as [|x l IH]; simpl; [done|].
  destruct (field_is field name x) eqn:Ex; simpl.
  - intros Hl. destruct (List.find _ l) as [y|] eqn:Ef; [|done]. exfalso. apply List.find_some in Ef as [Hy Hf].
    assert (In y (List.filter (field_is field name) l)) as Hi by (by apply filter_In).
    destruct (List.filter _ l); simpl in *; [done|lia].
  - intros Hl. specialize (IH Hl). destruct (drop_item _ _). simpl in *. by rewrite Ex.
Qed.

Lemma named_once_upsert field name n l name' :
  mappingField n field = name -> named_once field name' l -> named_once field name' (upsert_item field name n l).1.
Proof.
  intros Hn. unfold named_once. enough (length (List.filter (field_is field name') (upsert_item field name n l).1)
    <= (length (List.filter (field_is field name') l))
       `max` (if decide (name' = name) then 1 else 0))%nat by (case_decide; lia).
  unfold field_is. induction l as [|x l IH]; simpl.
  - rewrite Hn. repeat (case_bool_decide || case_decide); simpl; try lia; congruence.
  - destruct (decide (mappingField x field = name)) as [Hx|Hx]; simpl.
    + rewrite Hn, Hx. repeat (case_bool_decide || case_decide); simpl; lia.
    + destruct (upsert_item _ _ _ _). simpl in *. repeat (case_bool_decide || case_decide); simpl in *; try lia; congruence.
Qed.

Lemma named_once_drop field name pick l : named_once field name l -> named_once field name (drop_item pick l).1.
Proof.
  unfold named_once. enough (length (List.filter (field_is field name) (drop_item pick l).1)
    <= length (List.filter (field_is field name) l))%nat by lia.
  induction l as [|x l IH]; simpl; [done|]. destruct (pick x); simpl.
  - destruct (field_is field name x); simpl; lia.
  - destruct (drop_item pick l). simpl in *. destruct (field_is field name x); simpl; lia.
Qed.

(** ** Environment references and the tree *)

Section expansion.
Context (env : string -> option string).
Definition expanded (n : node) : node := (expandNode env n).1.

Fixpoint keys_plain (cs : list node) : Prop :=
  match cs with
  | k :: _ :: rest => n_value (expanded k) = n_value k /\ keys_plain rest
  | _ => True
  end.

(** No references in the keys that lead to a list, nor in the list. *)
Record plain_place (doc : node) (pl : Place) : Prop := {
  pp_root : forall root, documentRoot doc = Some root -> keys_plain (n_content root);
  pp_section : forall s n, pl_section pl = Some s -> findMapping doc s = Some n -> keys_plain (n_content n);
  pp_entries : Forall (fun n => expanded n = n) (entries doc pl);
}.

Lemma expanded_kind n : n_kind (expanded n) = n_kind n.
Proof. destruct n as [k v cs]. unfold expanded. simpl. case_decide; [by destruct (expand env v)|done]. Qed.

Lemma expanded_content n : n_kind n <> ScalarNode -> n_content (expanded n) = map expanded (n_content n).
Proof.
  destruct n as [k v cs]. unfold expanded. simpl. intros Hk. rewrite decide_False by done. simpl.
  rewrite map_map. by apply map_ext.
Qed.

Lemma pair_value_expanded cs key :
  keys_plain cs -> pair_value (map expanded cs) key = expanded <$> pair_value cs key.
Proof.
  induction cs as [|k|k v cs IH] using pairs_ind; simpl; [done..|]. intros [Hk Hcs]. rewrite Hk.
  case_decide; [done|]. by apply IH.
Qed.

Lemma childValue_expanded n key :
  (n_kind n = MappingNode -> keys_plain (n_content n)) -> childValue (expanded n) key = expanded <$> childValue n key.
Proof.
  intros Hp. unfold childValue. rewrite expanded_kind. case_decide as Hk; [|done].
  rewrite expanded_content by congruence. apply pair_value_expanded. auto.
Qed.

Lemma documentRoot_expanded doc : documentRoot (expanded doc) = expanded <$> documentRoot doc.
Proof.
  unfold documentRoot. rewrite expanded_kind. case_decide as Hk.
  - rewrite expanded_content by congruence. destruct (n_content doc) as [|r rs]; simpl; [done|].
    rewrite expanded_kind. by case_decide.
  - rewrite expanded_kind. by case_decide.
Qed.

Lemma items_expanded o : items (expanded <$> o) = map expanded (items o).
Proof.
  destruct o as [n|]; simpl; [|done]. rewrite expanded_kind. case_decide as Hk; [|done]. apply expanded_content. congruence.
Qed.

(** Expansion leaves such a list as it is. *)
Lemma entries_expanded doc pl : plain_place doc pl -> entries (expanded doc) pl = entries doc pl.
Proof.
  intros [Hr Hs He].
  assert (entries (expanded doc) pl = map expanded (entries doc pl)) as ->.
  2: { by induction He as [|n l Hn _ IH]; simpl; [|rewrite Hn, IH]. }
  unfold entries. rewrite <-items_expanded. f_equal. clear He.
  unfold at_path, place_path. rewrite documentRoot_expanded.
  destruct (documentRoot doc) as [root|] eqn:Ed; simpl.
  2: { by destruct (pl_section pl). }
  specialize (Hr root eq_refl). destruct (pl_section pl) as [s|]; simpl.
  - rewrite childValue_expanded by auto. rewrite (childValue_root _ _ _ Ed).
    destruct (findMapping doc s) as [n|] eqn:Ef; simpl; [|done]. apply childValue_expanded. intros _. by eapply Hs.
  - by apply childValue_expanded.
Qed.
End expansion.

(** Decoding a list item by item finds what looking an item up finds. *)
Lemma find_decoded {A} (dec : node -> option A) (name_of : A -> string) field name l l' :
  (forall n a, dec n = Some a -> name_of a = mappingField n field) -> mapM dec l = Some l' ->
  List.find (fun a => bool_decide (name_of a = name)) l' = n ← find_item field name l; dec n.
Proof.
  intros Hn. revert l'. unfold find_item, field_is. induction l as [|n l IH]; simpl.
  - by intros l' [= <-].
  - intros l'. rewrite bind_Some. intros (a & Ha & Hl). rewrite bind_Some in Hl. destruct Hl as (l1 & Hl1 & [= <-]).
    simpl. rewrite (Hn _ _ Ha). case_bool_decide; [done|]. by apply IH.
Qed.
End YamlEdit.
