(* ===== verification/Server.v ===== *)
(** * The HTTP server's read path ([core/server])

    [http.go] (the handler of one feed), [access.go], [quarantine.go] (the
    cache of takedowns), [group.go] (feeds made of other feeds), the dispatch
    of routed protocols and the authenticator's place in front of them. The
    pipeline is reached through the class [Pipe], which [Pipeline.Serve]
    implements; the format modules are records of their capabilities.

    A response is a value that says how it was produced: an error, an answer
    a module synthesised, a stored result streamed or redirected to, a merged
    document. Logs, metrics and the broken-connection paths are left out; the
    usage records of a request are part of the state. *)

From S2P Require Import Prelude GoLib Access State Store Pipeline Policies Auth Config.
Open Scope Z_scope.

Module Server.

(** ** Requests, responses, modules *)

Record HttpReq := mkHttp {
  rq_method : string;
  rq_path : string;
  rq_header : gmap string string;
  rq_body : string;
  rq_query : string;
}.
Notation headers := (gmap string string).

Definition header_get (h : headers) (k : string) : string := default "" (h !! k).

Record SyntheticResponse := mkSynthetic {
  sy_status : Z;
  sy_header : headers;
  sy_body : string;
}.

Inductive response :=
| RError (status : Z) (h : headers) (msg : string)
| RSynthetic (status : Z) (h : headers) (body : string)
| RStream (h : headers) (res : Result)
| RRedirect (h : headers) (url : string) (res : Result)
| RMerged (h : headers) (parts : list (string * string)) (body : string).

(** A format module: [Parse] and the optional capabilities, absent as [None].
    Errors of [Parse] and [Synthesize] carry the text meant for the client. *)
Record FormatModule (St : Type) := mkModule {
  fm_parse : HttpReq -> result (api_error * string) Intent;
  fm_credential_headers : option (list string);
  fm_challenge : option (Feed -> string);
  fm_synthesize : option (Feed -> Intent -> result (api_error * string) SyntheticResponse);
  fm_search : option (Feed -> Intent -> St -> result api_error SyntheticResponse);
  fm_redirect_safe : option (Intent -> bool);
  fm_response_headers : option (Feed -> Intent -> string -> headers);
  fm_metadata : option ((Feed -> PackageCoordinate -> option Intent)
                        * (PackageCoordinate -> string -> option (gmap string string)));
  fm_merger : option ((Intent -> bool)
                      * (Feed -> Intent -> list (string * string) -> result api_error string));
}.
Arguments mkModule {St}.
Arguments fm_parse {St}. Arguments fm_credential_headers {St}. Arguments fm_challenge {St}.
Arguments fm_synthesize {St}. Arguments fm_search {St}. Arguments fm_redirect_safe {St}.
Arguments fm_response_headers {St}. Arguments fm_metadata {St}. Arguments fm_merger {St}.

(** What the server asks of the pipeline. *)
Class Pipe (St : Type) := pipe_serve : Request -> St -> St * result api_error Result.

(** What the pipeline promises: an invariant of the store, kept by every
    request, under which the content of an artifact has the digest its result
    states. *)
Class PipeLaws (sha256 : string -> string) (St : Type) `{Pipe St} := {
  pipe_ok : St -> Prop;
  pipe_law : forall q st st' r, pipe_ok st -> pipe_serve q st = (st', r) ->
    pipe_ok st' /\
    (forall res, r = Ok res -> i_kind (q_intent q) = IntentArtifact -> i_want (q_intent q) = "" ->
       sha256 (r_body res) = r_sha256 res);
}.

(** ** The quarantine cache ([quarantine.go]) *)

Definition maxQuarantineEntries : nat := Z.to_nat 8192.

Record quarantineEntry := mkQEntry { qe_blocked : bool; qe_reason : string; qe_expires : Z }.

Record quarantineCache := mkQCache {
  qc_db : bool;                          (** a database is configured *)
  qc_ttl : Z;
  qc_entries : gmap string quarantineEntry;
}.

Definition newQuarantineCache (db : bool) (ttl : Z) : quarantineCache :=
  mkQCache db (if decide (ttl <= 0) then 30 * Second else ttl) ∅.

Definition quarantine_key (feed coordinate : string) : string :=
  feed +:+ String Ascii.zero "" +:+ coordinate.

(** [Blocked] up to the query: the verdict when none is needed, else the entry
    found, if any, whatever its age. *)
Definition Blocked_lookup (q : quarantineCache) (now : Z) (feed coordinate : string)
  : (bool * string) + option quarantineEntry :=
  if negb (qc_db q) then inl (false, "") else
  match qc_entries q !! quarantine_key feed coordinate with
  | Some e => if decide (now < qe_expires e) then inl (qe_blocked e, qe_reason e) else inr (Some e)
  | None => inr None
  end.
(** [Blocked] from the query on, which runs without the lock: the cache and the
    clock are those of its end. [active] is what [ActiveQuarantine] answers: an
    error, no row, or a row's reason and detail. *)
Definition Blocked_answer (q : quarantineCache) (now : Z) (found : option quarantineEntry)
  (active : option (option (string * string))) (feed coordinate : string) : quarantineCache * (bool * string) :=
  match active with
  | None => (q, match found with Some e => (qe_blocked e, qe_reason e) | None => (false, "") end)
  | Some row =>
      let next := match row with
                  | Some (reason, detail) =>
                      mkQEntry true (if decide (detail = "") then reason
                                     else reason +:+ ": " +:+ detail) (now + qc_ttl q)
                  | None => mkQEntry false "" (now + qc_ttl q)
                  end in
      let entries := if decide (maxQuarantineEntries <= size (qc_entries q))%nat
                     then ∅ else qc_entries q in
      (mkQCache (qc_db q) (qc_ttl q) (<[quarantine_key feed coordinate := next]> entries),
       (qe_blocked next, qe_reason next))
  end.
(** [Blocked], for a caller during whose query no other request is served;
    queries in flight are the steps of [q_step] below. *)
Definition Blocked (q : quarantineCache) (now : Z) (active : option (option (string * string)))
  (feed coordinate : string) : quarantineCache * (bool * string) :=
  match Blocked_lookup q now feed coordinate with
  | inl verdict => (q, verdict)
  | inr found => Blocked_answer q now found active feed coordinate
  end.

(** ** Errors ([errorStatus], [finishError]) *)

Definition errorStatus (e : api_error) : Z * string :=
  match e with
  | ErrNotFound => (404, "not found")
  | ErrUnauthorized => (401, "unauthorized")
  | ErrForbidden => (403, "forbidden")
  | ErrChecksumMismatch => (502, "upstream artifact failed checksum verification")
  | ErrUpstreamUnavailable => (502, "upstream unavailable and no cached copy")
  | ErrUnavailable => (503, "temporarily unavailable")
  | ErrImmutable => (409, "published release is immutable")
  | ErrQuarantined => (409, "coordinate is quarantined")
  | ErrBadRequest => (400, "bad request")
  | ErrOther _ => (500, "internal error")
  end.

Definition SourceHeader : string := "X-Registry-Source".
Definition SiteHeader : string := "X-Registry-Site".
Definition GroupMemberHeader : string := "X-Registry-Member".
Definition GroupMergedHeader : string := "X-Registry-Merged".

Definition source_string (s : Source) : string :=
  match s with
  | SourceCache => "cache" | SourceUpstream => "upstream" | SourceStale => "stale"
  | SourceLocal => "local" | SourcePeer => "peer"
  end.

Definition quoted (s : string) : string :=
  String (Ascii.ascii_of_N 34) (s +:+ String (Ascii.ascii_of_N 34) "").
Definition default_challenge : string :=
  "Basic realm=" +:+ quoted "fondaco" +:+ ", Bearer realm=" +:+ quoted "fondaco".

Definition finishError (site : string) (h : headers) (status : Z) (msg : string) : response :=
  let h := if decide (header_get h SourceHeader = "")
           then <[SourceHeader := source_string SourceLocal]> h else h in
  let h := if decide (header_get h SiteHeader = "") then <[SiteHeader := site]> h else h in
  let h := if decide (status = 401) then <["WWW-Authenticate" := default_challenge]> h else h in
  RError status (<["Content-Type" := "text/plain; charset=utf-8"]> h) (msg +:+ String (Ascii.ascii_of_N 10) "").

Definition writeError (site : string) (h : headers) (e : api_error) (detail : string) : response :=
  let '(status, msg) := errorStatus e in
  finishError site h status (if decide (detail = "") then msg else msg +:+ ": " +:+ detail).

Definition writeErrorText (site : string) (h : headers) (e : api_error) (text : string) : response :=
  let '(status, msg) := errorStatus e in
  finishError site h status (if decide (text = "") then msg else text).

(** Errors of the authenticator, as the sentinel they wrap. *)
Definition auth_api_error (e : Auth.auth_error) : api_error :=
  match e with
  | Auth.Unauthorized => ErrUnauthorized
  | Auth.Unavailable => ErrUnavailable
  | Auth.LookupFailed => ErrOther "token lookup failed"
  end.

(** [writeAccessError]. *)
Definition writeAccessError (site : string) (h : headers) (id : Identity) (d : Access.Decision) : response :=
  if IsAnonymous id then writeError site h ErrUnauthorized (Access.d_reason d)
  else writeError site h ErrForbidden (Access.d_reason d).

Definition status_of (r : response) : Z :=
  match r with
  | RError s _ _ | RSynthetic s _ _ => s
  | RStream _ _ | RMerged _ _ _ => 200
  | RRedirect _ _ _ => 302
  end.
Definition headers_of (r : response) : headers :=
  match r with
  | RError _ h _ | RSynthetic _ h _ | RStream h _ | RRedirect h _ _ | RMerged h _ _ => h
  end.
Definition with_headers (r : response) (f : headers -> headers) : response :=
  match r with
  | RError s h m => RError s (f h) m
  | RSynthetic s h b => RSynthetic s (f h) b
  | RStream h x => RStream (f h) x
  | RRedirect h u x => RRedirect (f h) u x
  | RMerged h ps b => RMerged (f h) ps b
  end.

(** ** Access ([access.go], [Config.FeedPath] for the paths) *)

Definition capabilityFor (i : Intent) : Capability :=
  match i_kind i with IntentSearch => CapList | _ => CapRead end.

Definition mayServe (e : Engine) (id : Identity) (feed : string) (i : Intent) : Access.Decision :=
  Explain e id (Config.FeedPath feed (coord_string (i_coord i))) (capabilityFor i).
Definition mayPublish (e : Engine) (id : Identity) (feed coordinate : string) : Access.Decision :=
  Explain e id (Config.FeedPath feed coordinate) CapPublish.
Definition mayPublishSomething (e : Engine) (id : Identity) (feed : string) : bool :=
  MayReach e id (Config.FeedPath feed "") CapPublish.

(** [adoptDeclaredCredential]: the first declared header that is not blank. *)
Fixpoint first_declared (names : list string) (h : headers) : option string :=
  match names with
  | [] => None
  | n :: rest => let v := TrimSpace (header_get h n) in
                 if decide (v = "") then first_declared rest h else Some v
  end.
Definition adoptDeclaredCredential {St} (m : FormatModule St) (r : HttpReq) : HttpReq :=
  if decide (header_get (rq_header r) "Authorization" <> "") then r else
  match fm_credential_headers m with
  | None => r
  | Some names =>
      match first_declared names (rq_header r) with
      | None => r
      | Some v => mkHttp (rq_method r) (rq_path r)
                    (<["Authorization" := "Bearer " +:+ v]> (rq_header r)) (rq_body r) (rq_query r)
      end
  end.

(** [withChallenge]: the module's challenge replaces the default on a 401. *)
Definition withChallenge {St} (m : FormatModule St) (f : Feed) (r : response) : response :=
  match fm_challenge m with
  | None => r
  | Some ch =>
      if decide (ch f <> "" /\ status_of r = 401)
      then with_headers r (<["WWW-Authenticate" := ch f]>) else r
  end.

Definition responseContentType (i : Intent) (res : option Result) : string :=
  if decide (i_content_type i <> "") then i_content_type i
  else match res with
       | Some r => if decide (r_content_type r <> "") then r_content_type r else "application/octet-stream"
       | None => "application/octet-stream"
       end.

Definition is_synthetic (i : Intent) : bool :=
  match i_kind i with IntentSynthetic => true | _ => false end.

(** [downloadedCoordinate]. *)
Definition downloadedCoordinate (i : Intent) : string :=
  match i_kind i with
  | IntentArtifact => if decide (i_want i <> "") then "" else coord_string (i_coord i)
  | _ => ""
  end.

(** What the handlers report to the usage recorder. *)
Inductive usage_event :=
| Served (feed source coordinate : string) (bytes : Z)
| GroupServed (group member source coordinate : string) (bytes : Z).

(** ** Handlers *)

Section handlers.
(** The store the pipeline works on, the policies' context and state, the
    authenticator's state. *)
Context {St Ctx Ps As : Type} `{PI : !Pipe St}.

(** What one request sees of the outside. *)
Record ReqEnv := mkEnv {
  en_now : Z;
  en_ctx : Ctx;                                            (** the policies' context *)
  en_identify : string -> As -> As * result Auth.auth_error Auth.Authed;
  en_active : string -> string -> option (option (string * string));   (** [ActiveQuarantine] *)
  en_presign : option (string -> option string);           (** the storage's [PresignGet] *)
}.

Record feedRuntime := mkFeedRt {
  fr_feed : Feed;
  fr_module : FormatModule St;
  fr_chain : Policies.Chain Ctx Ps;
  fr_upstream : bool;
  fr_hosted : bool;
  fr_redirect : bool;
  fr_peer_fallback : bool;
}.
Definition fr_name (fr : feedRuntime) : string := f_name (fr_feed fr).

Record Srv := mkSrv {
  sv_store : St;
  sv_quar : quarantineCache;
  sv_pol : Ps;
  sv_auth : As;
  sv_usage : list usage_event;
}.
Definition set_store (s : Srv) (x : St) : Srv := mkSrv x (sv_quar s) (sv_pol s) (sv_auth s) (sv_usage s).
Definition set_quar (s : Srv) (x : quarantineCache) : Srv := mkSrv (sv_store s) x (sv_pol s) (sv_auth s) (sv_usage s).
Definition set_pol (s : Srv) (x : Ps) : Srv := mkSrv (sv_store s) (sv_quar s) x (sv_auth s) (sv_usage s).
Definition set_auth (s : Srv) (x : As) : Srv := mkSrv (sv_store s) (sv_quar s) (sv_pol s) x (sv_usage s).
Definition add_usage (s : Srv) (es : list usage_event) : Srv :=
  mkSrv (sv_store s) (sv_quar s) (sv_pol s) (sv_auth s) (sv_usage s ++ es).

Context (site : string) (engine : Engine) (env : ReqEnv).

(** [quarantine.Blocked] on the server's cache. *)
Definition blocked (feed : string) (co : PackageCoordinate) (s : Srv) : Srv * (bool * string) :=
  let '(q, r) := Blocked (sv_quar s) (en_now env) (en_active env feed (coord_string co)) feed (coord_string co) in
  (set_quar s q, r).

Definition on_resolve (fr : feedRuntime) (id : Identity) (co : PackageCoordinate) (s : Srv)
  : Srv * Policies.Decision :=
  let '(p, d) := Policies.chain_OnResolve (fr_chain fr) (en_ctx env) id co (sv_pol s) in (set_pol s p, d).
Definition on_serve (fr : feedRuntime) (id : Identity) (a : Policies.Artifact) (s : Srv)
  : Srv * Policies.Decision :=
  let '(p, d) := Policies.chain_OnServe (fr_chain fr) (en_ctx env) id a (sv_pol s) in (set_pol s p, d).

Definition request_for (fr : feedRuntime) (i : Intent) : Request :=
  mkRequest (fr_feed fr) i (fr_upstream fr) (fr_peer_fallback fr).
Definition pipe (q : Request) (s : Srv) : Srv * result api_error Result :=
  let '(st, r) := pipe_serve q (sv_store s) in (set_store s st, r).

(** [artifactMetadata]: failures degrade to no metadata. *)
Definition artifactMetadata (fr : feedRuntime) (i : Intent) (s : Srv) : Srv * gmap string string :=
  match i_kind i, fm_metadata (fr_module fr) with
  | IntentArtifact, Some (metadata_intent, extract) =>
      if decide (i_want i <> "") then (s, ∅) else
      match metadata_intent (fr_feed fr) (i_coord i) with
      | None => (s, ∅)
      | Some mi =>
          match pipe (request_for fr mi) s with
          | (s1, Ok res) => (s1, default ∅ (extract (i_coord i) (limit_read (4 * 2 ^ 20) (r_body res))))
          | (s1, Err _) => (s1, ∅)
          end
      end
  | _, _ => (s, ∅)
  end.

(** The artifact a result is shown to the policies as. *)
Definition artifact_of (i : Intent) (res : Result) (meta : gmap string string) : Policies.Artifact :=
  Policies.mkArtifact (i_coord i) (r_size res) (mkChecksum "sha256" (r_sha256 res)) meta.

(** [writeSynthetic]. *)
Definition writeSynthetic (h : headers) (r : SyntheticResponse) : response :=
  let h := <[SiteHeader := site]> (<[SourceHeader := source_string SourceLocal]> (sy_header r ∪ h)) in
  RSynthetic (if decide (sy_status r = 0) then 200 else sy_status r) h (sy_body r).

(** [serveSynthetic]. *)
Definition serveSynthetic (fr : feedRuntime) (i : Intent) (h : headers) : response :=
  match fm_synthesize (fr_module fr) with
  | None => writeError site h (ErrOther "module misconfigured") ""
  | Some f => match f (fr_feed fr) i with
              | Err (e, text) => writeErrorText site h e text
              | Ok r => writeSynthetic h r
              end
  end.

(** [serveSearch]: [None] when the feed does not answer its own searches. *)
Definition serveSearch (fr : feedRuntime) (i : Intent) (h : headers) (s : Srv) : option response :=
  match i_kind i, fm_search (fr_module fr) with
  | IntentSearch, Some f =>
      if fr_hosted fr && negb (fr_upstream fr) then
        Some (match f (fr_feed fr) i (sv_store s) with
              | Err e => writeError site h e ""
              | Ok r => writeSynthetic h r
              end)
      else None
  | _, _ => None
  end.

(** [tryRedirect]: the pre-signed URL to send the client to. *)
Definition tryRedirect (method : string) (fr : feedRuntime) (i : Intent) (res : Result) : option string :=
  if decide (fr_redirect fr = false \/ r_blob_key res = "" \/ method <> "GET") then None else
  match fm_redirect_safe (fr_module fr), en_presign env with
  | Some safe, Some presign => if safe i then presign (r_blob_key res) else None
  | _, _ => None
  end.

(** [setProtocolHeaders]: the module's headers that have a value. *)
Definition setProtocolHeaders (fr : feedRuntime) (i : Intent) (sha : string) (h : headers) : headers :=
  match fm_response_headers (fr_module fr) with
  | None => h
  | Some f => filter (fun kv => kv.2 <> "") (f (fr_feed fr) i sha) ∪ h
  end.

(** The headers and the body of a result ([streamResult], and the end of the
    feed handler). *)
Definition streamResult (fr : feedRuntime) (i : Intent) (res : Result) (h : headers) : response :=
  let h := <[SiteHeader := site]> (<[SourceHeader := source_string (r_source res)]> h) in
  let h := if decide (0 <= r_size res) then <["Content-Length" := format_int (r_size res)]> h else h in
  let h := <["Content-Type" := responseContentType i (Some res)]> h in
  RStream (setProtocolHeaders fr i (r_sha256 res) h) res.

Definition redirect_response (res : Result) (url : string) (h : headers) : response :=
  RRedirect (<["X-Registry-Site" := site]> (<[SourceHeader := source_string (r_source res)]> h)) url res.

Definition served (feed : string) (i : Intent) (res : Result) : usage_event :=
  Served feed (source_string (r_source res)) (downloadedCoordinate i) (r_size res).
Definition groupServed (group member : string) (i : Intent) (res : Result) : usage_event :=
  GroupServed group member (source_string (r_source res)) (downloadedCoordinate i) (r_size res).

(** The feed handler from the access check on: [fr]'s whole chain for an
    identified caller and a parsed intent. *)
Definition serveIntent (fr : feedRuntime) (method : string) (id : Identity) (i : Intent) (s : Srv)
  : Srv * response :=
  let d := mayServe engine id (fr_name fr) i in
  if negb (d_allowed d) then (s, writeAccessError site ∅ id d) else
  let '(s, (b, reason)) := blocked (fr_name fr) (i_coord i) s in
  if b then
    let h : headers := if has_prefix reason "cross_site_conflict"
             then {[ "X-Registry-Conflict" := coord_string (i_coord i) ]} else ∅ in
    (s, writeError site h ErrQuarantined reason)
  else
  let '(s, d) := on_resolve fr id (i_coord i) s in
  if negb (Policies.d_allow d) then (s, writeError site ∅ ErrForbidden (Policies.d_reason d)) else
  if is_synthetic i then (s, serveSynthetic fr i ∅) else
  match serveSearch fr i ∅ s with
  | Some r => (s, r)
  | None =>
      match pipe (request_for fr i) s with
      | (s, Err e) => (s, writeError site ∅ e "")
      | (s, Ok res) =>
          let '(s, meta) := artifactMetadata fr i s in
          let '(s, d) := on_serve fr id (artifact_of i res meta) s in
          if negb (Policies.d_allow d) then (s, writeError site ∅ ErrForbidden (Policies.d_reason d)) else
          let s := add_usage s [served (fr_name fr) i res] in
          match tryRedirect method fr i res with
          | Some url => (s, redirect_response res url ∅)
          | None => (s, streamResult fr i res ∅)
          end
      end
  end.

(** Authentication and parsing, in front of both handlers. *)
Definition identify (m : FormatModule St) (r : HttpReq) (s : Srv)
  : Srv * result Auth.auth_error Auth.Authed :=
  let '(a, res) := en_identify env (header_get (rq_header (adoptDeclaredCredential m r)) "Authorization") (sv_auth s) in
  (set_auth s a, res).

(** [feedHandler]. *)
Definition feedHandler (fr : feedRuntime) (r : HttpReq) (s : Srv) : Srv * response :=
  let m := fr_module fr in
  let '(s, resp) :=
    match identify m r s with
    | (s, Err e) => (s, writeError site ∅ (auth_api_error e) "")
    | (s, Ok id) =>
        match fm_parse m (adoptDeclaredCredential m r) with
        | Err (e, text) => (s, writeErrorText site ∅ e text)
        | Ok i => serveIntent fr (rq_method r) (Auth.au_id id) i s
        end
    end in
  (s, withChallenge m (fr_feed fr) resp).

(** ** Groups ([group.go]) *)

Record groupRuntime := mkGroupRt {
  gr_self : feedRuntime;                 (** the group's own feed, module and policies *)
  gr_members : list feedRuntime;
}.
Definition gr_name (g : groupRuntime) : string := fr_name (gr_self g).

Inductive memberOutcome :=
| memberAnswered (res : Result)
| memberMissing (err : option api_error)
| memberBlocked (reason : string).

(** The digest a module put in its own response headers (of several, Go's map
    order decides; here the first in the map's order). *)
Definition digestOf (h : headers) : string :=
  match filter (fun v => has_prefix v "sha256:" = true /\ String.length (trim_prefix v "sha256:") = 64%nat)
          (map snd (map_to_list h)) with
  | v :: _ => trim_prefix v "sha256:"
  | [] => ""
  end.

(** A search answer as a result: a 404 is "not here", another refusal an error. *)
Definition search_result (r : SyntheticResponse) : result api_error Result :=
  if decide (sy_status r = 404) then Err ErrNotFound
  else if decide (400 <= sy_status r) then Err (ErrOther "refused")
  else Ok (mkResult (sy_body r) (Z.of_nat (String.length (sy_body r))) (digestOf (sy_header r)) 0
             SourceLocal "" (header_get (sy_header r) "Content-Type")).

(** [answerFromMember]. *)
Definition answerFromMember (m : feedRuntime) (i : Intent) (s : Srv) : Srv * result api_error Result :=
  match i_kind i with
  | IntentSearch =>
      if fr_hosted m && negb (fr_upstream m) then
        match fm_search (fr_module m) with
        | None => (s, Err ErrNotFound)
        | Some f => (s, rbind (f (fr_feed m) i (sv_store s)) search_result)
        end
      else pipe (request_for m i) s
  | _ => pipe (request_for m i) s
  end.

(** [askMember]: the member's own access rule, quarantine, policies, pipeline. *)
Definition askMember (m : feedRuntime) (id : Identity) (i : Intent) (s : Srv) : Srv * memberOutcome :=
  if negb (d_allowed (mayServe engine id (fr_name m) i)) then (s, memberMissing None) else
  let '(s, (b, reason)) := blocked (fr_name m) (i_coord i) s in
  if b then (s, memberBlocked reason) else
  let '(s, d) := on_resolve m id (i_coord i) s in
  if negb (Policies.d_allow d) then (s, memberBlocked (Policies.d_reason d)) else
  match answerFromMember m i s with
  | (s, Err e) => (s, memberMissing (if decide (e = ErrNotFound) then None else Some e))
  | (s, Ok res) =>
      let '(s, meta) := artifactMetadata m i s in
      let '(s, d) := on_serve m id (artifact_of i res meta) s in
      if negb (Policies.d_allow d) then (s, memberBlocked (Policies.d_reason d))
      else (s, memberAnswered res)
  end.

(** [answerEmptyGroup]: blocked members speak first, then failures. *)
Definition answerEmptyGroup (g : groupRuntime) (blocked : list (string * string)) (failures : list api_error)
  : response :=
  match blocked, failures with
  | _ :: _, _ => writeError site ∅ ErrQuarantined (join (map (fun b => b.1 +:+ ": " +:+ b.2) blocked) "; ")
  | [], e :: _ => writeError site ∅ e ""
  | [], [] => writeError site ∅ ErrNotFound ("no member of " +:+ gr_name g +:+ " has it")
  end.

(** [serveFirstHit]: the first member that has it. *)
Fixpoint serveFirstHit (g : groupRuntime) (method : string) (id : Identity) (i : Intent)
  (members : list feedRuntime) (blocked : list (string * string)) (failures : list api_error) (s : Srv)
  : Srv * response :=
  match members with
  | [] => (s, answerEmptyGroup g blocked failures)
  | m :: rest =>
      match askMember m id i s with
      | (s, memberAnswered res) =>
          let h : headers := {[ GroupMemberHeader := fr_name m ]} in
          let s := add_usage s [groupServed (gr_name g) (fr_name m) i res; served (fr_name m) i res] in
          match tryRedirect method m i res with
          | Some url => (s, redirect_response res url h)
          | None => (s, streamResult m i res h)
          end
      | (s, memberBlocked reason) =>
          serveFirstHit g method id i rest (blocked ++ [(fr_name m, reason)]) failures s
      | (s, memberMissing e) =>
          serveFirstHit g method id i rest blocked (failures ++ option_list e) s
      end
  end.

Definition maxMergePart : Z := 32 * 2 ^ 20.
Definition mergedMember : string := "(merged)".

(** [readPart]: a document too large to merge is an error. *)
Definition readPart (res : Result) : result api_error string :=
  if decide (maxMergePart < Z.of_nat (String.length (r_body res)))
  then Err (ErrOther "index document exceeds bound") else Ok (r_body res).

(** The loop of [serveMerged]: parts, blocked members, failures. *)
Fixpoint askAll (id : Identity) (i : Intent) (members : list feedRuntime)
  (parts blocked : list (string * string)) (failures : list api_error) (s : Srv)
  : Srv * list (string * string) * list (string * string) * list api_error :=
  match members with
  | [] => (s, parts, blocked, failures)
  | m :: rest =>
      match askMember m id i s with
      | (s, memberAnswered res) =>
          match readPart res with
          | Ok body => askAll id i rest (parts ++ [(fr_name m, body)]) blocked failures s
          | Err e => askAll id i rest parts blocked (failures ++ [e]) s
          end
      | (s, memberBlocked reason) => askAll id i rest parts (blocked ++ [(fr_name m, reason)]) failures s
      | (s, memberMissing e) => askAll id i rest parts blocked (failures ++ option_list e) s
      end
  end.

Definition serveMerged (g : groupRuntime) (merge : Feed -> Intent -> list (string * string) -> result api_error string)
  (id : Identity) (i : Intent) (s : Srv) : Srv * response :=
  let '(s, parts, blocked, failures) := askAll id i (gr_members g) [] [] [] s in
  match parts with
  | [] => (s, answerEmptyGroup g blocked failures)
  | _ =>
      match merge (fr_feed (gr_self g)) i parts with
      | Err e => (s, writeError site ∅ e "")
      | Ok body =>
          let n := Z.of_nat (String.length body) in
          let h := <["Content-Length" := format_int n]>
                     (<["Content-Type" := responseContentType i None]>
                       (<[GroupMergedHeader := join (map fst parts) ","]>
                         (<[SiteHeader := site]> {[ SourceHeader := source_string SourceLocal ]}))) in
          (add_usage s [GroupServed (gr_name g) mergedMember "merged" "" n], RMerged h parts body)
      end
  end.

(** The group handler from the access check on. *)
Definition groupIntent (g : groupRuntime) (method : string) (id : Identity) (i : Intent) (s : Srv)
  : Srv * response :=
  let d := mayServe engine id (gr_name g) i in
  if negb (d_allowed d) then (s, writeAccessError site ∅ id d) else
  let '(s, (b, reason)) := blocked (gr_name g) (i_coord i) s in
  if b then (s, writeError site ∅ ErrQuarantined reason) else
  let '(s, d) := on_resolve (gr_self g) id (i_coord i) s in
  if negb (Policies.d_allow d) then (s, writeError site ∅ ErrForbidden (Policies.d_reason d)) else
  if is_synthetic i then (s, serveSynthetic (gr_self g) i ∅) else
  match fm_merger (fr_module (gr_self g)) with
  | Some (mergeable, merge) =>
      if mergeable i then serveMerged g merge id i s
      else serveFirstHit g method id i (gr_members g) [] [] s
  | None => serveFirstHit g method id i (gr_members g) [] [] s
  end.

(** [groupHandler]. *)
Definition groupHandler (g : groupRuntime) (r : HttpReq) (s : Srv) : Srv * response :=
  let m := fr_module (gr_self g) in
  match identify m r s with
  | (s, Err e) => (s, writeError site ∅ (auth_api_error e) "")
  | (s, Ok id) =>
      match fm_parse m (adoptDeclaredCredential m r) with
      | Err (e, text) => (s, writeErrorText site ∅ e text)
      | Ok i => groupIntent g (rq_method r) (Auth.au_id id) i s
      end
  end.

(** [groupPublishHandler]: a group takes no writes and says where to send them. *)
Definition groupPublishHandler (g : groupRuntime) : response :=
  let targets := map fr_name (filter (fun m => fr_hosted m = true) (gr_members g)) in
  let message := "a group is read-only; publish to a hosted feed" +:+
    match targets with
    | [] => ". No member of " +:+ gr_name g +:+ " accepts publishing."
    | [t] => ": " +:+ t
    | _ => ", one of: " +:+ join targets ", "
    end in
  finishError site {[ "Allow" := "GET, HEAD" ]} 405 message.

(** [routedFeedDispatcher]: a protocol that names the feed in the path. *)
Record routedHandlers := mkRouted {
  rh_read : HttpReq -> Srv -> Srv * response;
  rh_write : option (HttpReq -> Srv -> Srv * response);
}.
Definition routedFeedDispatcher (route : string -> option (string * string))
  (handlers : gmap string routedHandlers) (r : HttpReq) (s : Srv) : Srv * response :=
  match route (rq_path r) with
  | None => (s, finishError site ∅ 404 "no feed at this path")
  | Some (feedName, feedPath) =>
      match handlers !! feedName with
      | None => (s, finishError site ∅ 404 ("no feed named " +:+ feedName +:+ " for this protocol"))
      | Some h =>
          let routed := mkHttp (rq_method r) feedPath (rq_header r) (rq_body r) (rq_query r) in
          if decide (rq_method r = "GET" \/ rq_method r = "HEAD") then rh_read h routed s
          else match rh_write h with
               | None => (s, finishError site ∅ 405 ("feed " +:+ feedName +:+ " does not accept writes"))
               | Some f => f routed s
               end
      end
  end.
End handlers.

(** ** The quarantine cache over time *)

(** A query in flight: the coordinate, the entry found, when it was begun. *)
Record inflight := mkLookup { lk_feed : string; lk_coord : string; lk_found : option quarantineEntry; lk_start : Z }.
Record QState := mkQ { q_cache : quarantineCache; q_now : Z; q_flight : list inflight }.
(** A verdict given to a request; [an_fallback] when the query failed. *)
Record verdict := mkVerdict { an_feed : string; an_coord : string; an_blocked : bool; an_fallback : bool }.

Section quarantine.
Context (ttl : Z) (ttl_pos : 0 < ttl).
(** How long a query may take. *)
Context (delay : Z) (delay_pos : 0 <= delay).
(** What the database says of a coordinate at a time: the active record's
    reason and detail. *)
Context (truth : Z -> string -> string -> option (string * string)).

(** Requests ask about coordinates at any time, any number of them at once;
    the database answers a query as of some instant while it runs, or fails. *)
Inductive q_step : QState -> option verdict -> QState -> Prop :=
| q_tick q now now' flight :
    now <= now' -> (forall l, l ∈ flight -> now' <= lk_start l + delay) ->
    q_step (mkQ q now flight) None (mkQ q now' flight)
| q_hit q now flight f c v :
    contains_char f Ascii.zero = false -> Blocked_lookup q now f c = inl v ->
    q_step (mkQ q now flight) (Some (mkVerdict f c v.1 false)) (mkQ q now flight)
| q_ask q now flight f c found :
    contains_char f Ascii.zero = false -> Blocked_lookup q now f c = inr found ->
    q_step (mkQ q now flight) None (mkQ q now (mkLookup f c found now :: flight))
| q_answer q now l1 l2 f c found start asof active :
    start <= asof <= now -> active = None \/ active = Some (truth asof f c) ->
    let out := Blocked_answer q now found active f c in
    q_step (mkQ q now (l1 ++ mkLookup f c found start :: l2))
      (Some (mkVerdict f c out.2.1 (match active with None => true | Some _ => false end)))
      (mkQ out.1 now (l1 ++ l2)).
Inductive q_reach : QState -> Prop :=
| q_start now : q_reach (mkQ (newQuarantineCache true ttl) now [])
| q_then s v s' : q_reach s -> q_step s v s' -> q_reach s'.

(** An entry is what the database said at most a query's duration before it
    was stored; a query in flight was begun no longer ago than that. *)
Definition q_ok (s : QState) : Prop :=
  let q := q_cache s in
  qc_db q = true /\ qc_ttl q = ttl /\ (size (qc_entries q) <= maxQuarantineEntries)%nat
  /\ (forall f c e, contains_char f Ascii.zero = false -> qc_entries q !! quarantine_key f c = Some e ->
       exists asof, qe_expires e <= asof + delay + ttl /\ qe_blocked e = bool_decide (is_Some (truth asof f c)))
  /\ forall l, l ∈ q_flight s -> contains_char (lk_feed l) Ascii.zero = false /\ q_now s <= lk_start l + delay.

Lemma quarantine_key_inj f c f' c' :
  contains_char f Ascii.zero = false -> contains_char f' Ascii.zero = false ->
  quarantine_key f c = quarantine_key f' c' -> f = f' /\ c = c'.
Proof. intros Hf Hf' Hk. by apply Policies.app_sep_inj in Hk. Qed.

(** The end of a query. *)
Lemma Blocked_answer_ok q now flight f c found start asof active (out := Blocked_answer q now found active f c) :
  q_ok (mkQ q now flight) -> contains_char f Ascii.zero = false -> start <= asof <= now -> now <= start + delay ->
  active = None \/ active = Some (truth asof f c) ->
  q_ok (mkQ out.1 now flight) /\ (active <> None -> out.2.1 = bool_decide (is_Some (truth asof f c))).
Proof.
  intros Hq Hf Has Hd Hactive. subst out. destruct Hactive as [->| ->]; [split; [exact Hq|done]|].
  destruct Hq as (Hdb & Httl & Hsize & Hok & Hfl). cbn [q_cache q_flight q_now] in *. unfold Blocked_answer.
  set (next := match truth asof f c with Some _ => _ | None => _ end).
  assert (qe_expires next = now + ttl /\ qe_blocked next = bool_decide (is_Some (truth asof f c))) as [He Hb].
  { subst next. destruct (truth asof f c) as [[reason detail]|]; simpl; by rewrite Httl. }
  cbn [fst snd]. split; [|intros _; exact Hb]. split_and!; [done|done| | |done]; cbn [q_cache qc_entries].
  - case_decide as Hfull.
    + rewrite map_size_insert, lookup_empty, map_size_empty. unfold maxQuarantineEntries. lia.
    + rewrite map_size_insert. destruct (qc_entries q !! _); simpl; lia.
  - intros f' c' e Hf' He'. apply lookup_insert_Some in He' as [[Hk <-]|[_ He']].
    + apply quarantine_key_inj in Hk as [<- <-]; [|done..]. exists asof. rewrite He, Hb. split; [lia|done].
    + apply (Hok f' c' e); [done|]. by case_decide; [rewrite lookup_empty in He'|].
Qed.

(** Every step keeps this, and a verdict that is not a fallback is what the
    database said a lifetime and a query's duration ago at most. *)
Lemma q_step_ok s v s' : q_ok s -> q_step s v s' ->
  q_ok s' /\ forall a, v = Some a -> an_fallback a = false -> exists asof,
    q_now s < asof + delay + ttl /\ an_blocked a = bool_decide (is_Some (truth asof (an_feed a) (an_coord a))).
Proof.
  intros Hok Hs. revert Hok. destruct Hs as [q now now' flight Hle Hfl|q now flight f c w Hf Hl|q now flight f c found Hf Hl
    |q now l1 l2 f c found start asof active Has Ha out]; intros Hok.
  - split; [|done]. destruct Hok as (? & ? & ? & ? & Hf). split_and!; try done. intros l Hin. by split; [apply Hf|apply Hfl].
  - split; [done|]. intros a [= <-] _. destruct Hok as (Hdb & _ & _ & He & _). cbn [q_cache q_now] in *.
    unfold Blocked_lookup in Hl. rewrite Hdb in Hl. cbn [negb] in Hl.
    destruct (qc_entries q !! _) as [e|] eqn:Ee; [|done]. case_decide as Hnow; [|done]. injection Hl as <-.
    destruct (He f c e Hf Ee) as (asof & Hx & Hb). exists asof. split; [lia|exact Hb].
  - split; [|done]. destruct Hok as (? & ? & ? & ? & Hfl). split_and!; try done. cbn [q_now q_flight] in *.
    intros l [->|Hin]%elem_of_cons; [|by apply Hfl]. cbn. split; [done|lia].
  - pose proof Hok as (_ & _ & _ & _ & Hfl). cbn [q_now q_flight] in *.
    destruct (Hfl (mkLookup f c found start)) as [Hf Hd]; [set_solver|]. cbn in Hf, Hd.
    assert (q_ok (mkQ q now (l1 ++ l2))) as Hok'.
    { destruct Hok as (? & ? & ? & ? & _). split_and!; try done. cbn [q_flight]. intros l Hin. apply Hfl. set_solver. }
    destruct (Blocked_answer_ok q now (l1 ++ l2) f c found start asof active Hok' Hf Has Hd Ha) as [H1 H2].
    split; [exact H1|]. intros a [= <-] Hfb. cbn in Hfb |- *. exists asof. split; [lia|]. apply H2. by destruct active.
Qed.

Lemma q_reach_ok s : q_reach s -> q_ok s.
Proof.
  induction 1 as [now|s v s' _ IH Hs]; [|by eapply q_step_ok].
  unfold newQuarantineCache. rewrite decide_False by lia. split_and!; [done|done| | |].
  - cbn. rewrite map_size_empty. lia.
  - intros f c e _ He. cbn in He. by rewrite lookup_empty in He.
  - by intros l ?%elem_of_nil.
Qed.
End quarantine.

(** C34. The takedown cache never exceeds its bound, and a takedown takes effect
    within the cache's lifetime and the duration of a query: however requests
    and their queries overlap, once a coordinate has been blocked in the
    database for that long, every verdict on it is that it is blocked, except
    one given because the query failed. *)
Theorem takedown_effective ttl delay truth s v s' t0 f c :
  0 < ttl -> 0 <= delay -> q_reach ttl delay truth s ->
  (size (qc_entries (q_cache s)) <= maxQuarantineEntries)%nat
  /\ (q_step delay truth s (Some v) s' -> an_feed v = f -> an_coord v = c -> an_fallback v = false ->
      (forall t, t0 <= t -> is_Some (truth t f c)) -> t0 + ttl + delay <= q_now s -> an_blocked v = true).
Proof.
  intros Httl Hd Hq. pose proof (q_reach_ok ttl Httl delay Hd truth s Hq) as Hok. split; [apply Hok|].
  intros Hs <- <- Hfb Hblocked Hlate.
  destruct (q_step_ok ttl Httl delay Hd truth s (Some v) s' Hok Hs) as [_ Hans].
  destruct (Hans v eq_refl Hfb) as (asof & Hx & ->). apply bool_decide_eq_true_2, Hblocked. lia.
Qed.

(** A coordinate taken down at time 10, while a query about it is in flight
    that was begun before and is answered as of before: its verdict is cached
    at 12, and still given just under a lifetime later. *)
Definition demo_takedown (t : Z) (f c : string) : option (string * string) :=
  if decide (10 <= t) then Some ("manual", "malware") else None.
Definition demo_cache : quarantineCache :=
  (Blocked_answer (newQuarantineCache true 30) 12 None (Some None) "hub" "npm:x@1").1.
Lemma takedown_demo_reach now : 12 <= now -> q_reach 30 5 demo_takedown (mkQ demo_cache now []).
Proof.
  intros Hn. eapply q_then; [|apply (q_tick 5 demo_takedown demo_cache 12 now); [lia|by intros l ?%elem_of_nil]].
  eapply q_then; [|apply (q_answer 5 demo_takedown (newQuarantineCache true 30) 12 [] [] "hub" "npm:x@1" None 8 9 (Some None));
                   [lia|by right]].
  eapply q_then; [|apply (q_tick 5 demo_takedown (newQuarantineCache true 30) 8 12 [mkLookup "hub" "npm:x@1" None 8]); [lia|]].
  2: { intros l ->%list_elem_of_singleton. simpl. lia. }
  eapply q_then; [|by apply (q_ask 5 demo_takedown (newQuarantineCache true 30) 8 [] "hub" "npm:x@1" None)].
  apply q_start.
Qed.
(** A lifetime alone is not enough. *)
Theorem takedown_later_than_lifetime :
  q_reach 30 5 demo_takedown (mkQ demo_cache 41 [])
  /\ q_step 5 demo_takedown (mkQ demo_cache 41 []) (Some (mkVerdict "hub" "npm:x@1" false false)) (mkQ demo_cache 41 []).
Proof. split; [by apply takedown_demo_reach|]. by apply (q_hit 5 demo_takedown demo_cache 41 [] "hub" "npm:x@1" (false, "")). Qed.

Lemma takedown_effective_witness :
  (size (qc_entries demo_cache) <= maxQuarantineEntries)%nat
  /\ forall v s', q_step 5 demo_takedown (mkQ demo_cache 45 []) (Some v) s' -> an_feed v = "hub" -> an_coord v = "npm:x@1" ->
      an_fallback v = false -> an_blocked v = true.
Proof.
  split; [apply (takedown_effective 30 5 demo_takedown (mkQ demo_cache 45 []) (mkVerdict "hub" "npm:x@1" false false)
                   (mkQ demo_cache 45 []) 10 "hub" "npm:x@1"); [lia|lia|apply takedown_demo_reach; lia]|].
  intros v s' Hs Hf Hc Hfb.
  apply (proj2 (takedown_effective 30 5 demo_takedown (mkQ demo_cache 45 []) v s' 10 "hub" "npm:x@1"
           ltac:(lia) ltac:(lia) (takedown_demo_reach 45 ltac:(lia)))); try assumption.
  - intros t Ht. unfold demo_takedown. rewrite decide_True by done. eauto.
  - simpl. lia.
Defined.

(** ** What a served content has passed *)

(** The result a response hands to the client. *)
Definition content_of (r : response) : option Result :=
  match r with RStream _ res | RRedirect _ _ res => Some res | _ => None end.

Lemma content_withChallenge {St} (m : FormatModule St) f r : content_of (withChallenge m f r) = content_of r.
Proof.
  unfold withChallenge. destruct (fm_challenge m) as [ch|]; [|done].
  case_decide as Hd; [|done]. by destruct r.
Qed.
Lemma content_finishError site h status msg : content_of (finishError site h status msg) = None.
Proof. done. Qed.
Lemma content_writeError site h e detail : content_of (writeError site h e detail) = None.
Proof. unfold writeError. by destruct (errorStatus e). Qed.
Lemma content_writeErrorText site h e text : content_of (writeErrorText site h e text) = None.
Proof. unfold writeErrorText. by destruct (errorStatus e). Qed.
Lemma content_writeAccessError site h id d : content_of (writeAccessError site h id d) = None.
Proof. unfold writeAccessError. destruct (IsAnonymous id); apply content_writeError. Qed.
Create HintDb content.
#[local] Hint Rewrite @content_withChallenge content_finishError content_writeError
  content_writeErrorText content_writeAccessError : content.

(** The parts of a merged response. *)
Definition merged_of (r : response) : option (list (string * string)) :=
  match r with RMerged _ ps _ => Some ps | _ => None end.

(** A response that shows no stored content: errors, synthesised answers. *)
Definition quiet (r : response) : Prop := content_of r = None /\ merged_of r = None.

Lemma quiet_writeError site h e detail : quiet (writeError site h e detail).
Proof. unfold writeError. by destruct (errorStatus e). Qed.
Lemma quiet_writeErrorText site h e text : quiet (writeErrorText site h e text).
Proof. unfold writeErrorText. by destruct (errorStatus e). Qed.
Lemma quiet_writeAccessError site h id d : quiet (writeAccessError site h id d).
Proof. unfold writeAccessError. destruct (IsAnonymous id); apply quiet_writeError. Qed.
#[local] Hint Resolve quiet_writeError quiet_writeErrorText quiet_writeAccessError : content.

Section gates.
Context {St Ctx Ps As : Type} `{PI : !Pipe St}.
Context (site : string) (engine : Engine) (env : ReqEnv (Ctx := Ctx) (As := As)).
Implicit Types (fr m : feedRuntime (St := St) (Ctx := Ctx) (Ps := Ps)).
Implicit Types (s : Srv (St := St) (Ps := Ps) (As := As)).
Implicit Types (g : groupRuntime (St := St) (Ctx := Ctx) (Ps := Ps)).

(** The gates of a feed, passed in order from the state [s] by a caller for an
    intent, with the result [res]: the access engine, the takedowns, the
    policies before and after the content is known. *)
Inductive cleared fr (id : Identity) (i : Intent) s (res : Result) : Prop :=
| cleared_intro s1 reason s2 d s3 s4 meta s5 d' :
    d_allowed (mayServe engine id (fr_name fr) i) = true ->
    blocked env (fr_name fr) (i_coord i) s = (s1, (false, reason)) ->
    on_resolve env fr id (i_coord i) s1 = (s2, d) -> Policies.d_allow d = true ->
    answerFromMember fr i s2 = (s3, Ok res) \/ pipe (request_for fr i) s2 = (s3, Ok res) ->
    artifactMetadata fr i s3 = (s4, meta) ->
    on_serve env fr id (artifact_of i res meta) s4 = (s5, d') -> Policies.d_allow d' = true ->
    cleared fr id i s res.

(** Content the handler gives has cleared the feed's gates. *)
Lemma serveIntent_cleared fr method id i s s' r res :
  serveIntent site engine env fr method id i s = (s', r) -> content_of r = Some res ->
  cleared fr id i s res.
Proof.
  unfold serveIntent.
  destruct (d_allowed (mayServe engine id (fr_name fr) i)) eqn:Ha; simpl.
  2: { intros [= <- <-]. autorewrite with content. done. }
  destruct (blocked env (fr_name fr) (i_coord i) s) as [s1 [b reason]] eqn:Eb.
  destruct b; [intros [= <- <-]; by autorewrite with content|].
  destruct (on_resolve env fr id (i_coord i) s1) as [s2 d] eqn:Er.
  destruct (Policies.d_allow d) eqn:Ed; simpl; [|intros [= <- <-]; by autorewrite with content].
  destruct (is_synthetic i).
  { intros [= <- <-]. unfold serveSynthetic. destruct (fm_synthesize _) as [f|];
      [|by autorewrite with content]. destruct (f _ i) as [y|[e t]]; by autorewrite with content. }
  destruct (serveSearch site fr i ∅ s2) as [y|] eqn:Es.
  { intros [= <- <-]. unfold serveSearch in Es.
    destruct (i_kind i), (fm_search (fr_module fr)) as [f|]; try done.
    destruct (fr_hosted fr && negb (fr_upstream fr)); [|done]. simplify_eq.
    destruct (f _ i _) as [y'|e]; by autorewrite with content. }
  destruct (pipe (request_for fr i) s2) as [s3 [res'|e]] eqn:Ep;
    [|intros [= <- <-]; by autorewrite with content].
  destruct (artifactMetadata fr i s3) as [s4 meta] eqn:Em.
  destruct (on_serve env fr id (artifact_of i res' meta) s4) as [s5 d'] eqn:Eo.
  destruct (Policies.d_allow d') eqn:Ed'; simpl; [|intros [= <- <-]; by autorewrite with content].
  intros Hr Hc. assert (res' = res) as ->.
  { destruct (tryRedirect _ _ _ _ _); simplify_eq/=; done. }
  econstructor; eauto.
Qed.

(** Conversely, a feed whose gates are passed gives the result. *)
Lemma cleared_serves fr method id i s res :
  is_synthetic i = false -> i_kind i <> IntentSearch -> cleared fr id i s res ->
  exists s' r, serveIntent site engine env fr method id i s = (s', r) /\ content_of r = Some res.
Proof.
  intros Hsyn Hkind [s1 reason s2 d s3 s4 meta s5 d' Ha Eb Er Ed Eans Em Eo Ed'].
  unfold serveIntent. rewrite Ha. simpl. rewrite Eb, Er, Ed. simpl. rewrite Hsyn.
  assert (serveSearch site fr i ∅ s2 = None) as -> by (unfold serveSearch; by destruct (i_kind i)).
  assert (pipe (request_for fr i) s2 = (s3, Ok res)) as -> by
    (destruct Eans as [Eans|Eans]; rewrite <- Eans; [|done]; unfold answerFromMember; by destruct (i_kind i)).
  rewrite Em, Eo, Ed'. simpl. destruct (tryRedirect _ _ _ _ _); eauto.
Qed.

(** A member that answers a group has cleared its own gates. *)
Lemma askMember_cleared m id i s s' res :
  askMember engine env m id i s = (s', memberAnswered res) -> cleared m id i s res.
Proof.
  unfold askMember. destruct (d_allowed _) eqn:Ha; simpl; [|done].
  destruct (blocked _ _ _ s) as [s1 [[] reason]] eqn:Eb; [done|].
  destruct (on_resolve _ _ _ _ s1) as [s2 d] eqn:Er.
  destruct (Policies.d_allow d) eqn:Ed; simpl; [|done].
  destruct (answerFromMember m i s2) as [s3 [res'|e]] eqn:Ea; [|done].
  destruct (artifactMetadata m i s3) as [s4 meta] eqn:Em.
  destruct (on_serve _ _ _ _ s4) as [s5 d'] eqn:Eo.
  destruct (Policies.d_allow d') eqn:Ed'; simpl; [|done].
  intros [= <- <-]. econstructor; eauto.
Qed.

(** ** Groups *)

(** The state in which a member is asked: the members before it have been. *)
Definition asked (id : Identity) (i : Intent) (before : list feedRuntime) s : Srv :=
  foldl (fun s m => (askMember engine env m id i s).1) s before.
Definition asked_cleared (members : list feedRuntime) (id : Identity) (i : Intent) s (m : feedRuntime) (res : Result) : Prop :=
  exists before after, members = before ++ m :: after /\ cleared m id i (asked id i before s) res.
Lemma asked_cleared_cons m0 members id i s m res :
  asked_cleared members id i (askMember engine env m0 id i s).1 m res -> asked_cleared (m0 :: members) id i s m res.
Proof. intros (before & after & -> & Hc). by exists (m0 :: before), after. Qed.

Lemma serveFirstHit_cleared g method id i members bl fl s s' r res :
  serveFirstHit site engine env g method id i members bl fl s = (s', r) -> content_of r = Some res ->
  exists m, asked_cleared members id i s m res.
Proof.
  revert bl fl s. induction members as [|m members IH]; intros bl fl s; simpl.
  { intros [= <- <-]. unfold answerEmptyGroup. destruct bl, fl; by autorewrite with content. }
  destruct (askMember engine env m id i s) as [s1 [res'|e|reason]] eqn:E.
  - intros Hr Hc. assert (res' = res) as -> by (destruct (tryRedirect _ _ _ _ _); by simplify_eq/=).
    exists m, [], members. split; [done|]. by eapply askMember_cleared.
  - intros Hr Hc. destruct (IH _ _ _ Hr Hc) as (m' & Hin). exists m'. apply asked_cleared_cons. by rewrite E.
  - intros Hr Hc. destruct (IH _ _ _ Hr Hc) as (m' & Hin). exists m'. apply asked_cleared_cons. by rewrite E.
Qed.

(** Where a merged document's part comes from. *)
Definition part_cleared (members : list feedRuntime) (id : Identity) (i : Intent) s (part : string * string) : Prop :=
  exists m res, fr_name m = part.1 /\ r_body res = part.2 /\ asked_cleared members id i s m res.

Lemma askAll_cleared id i members parts bl fl s s' ps bl' fl' :
  askAll engine env id i members parts bl fl s = (s', ps, bl', fl') ->
  exists more, ps = parts ++ more /\ Forall (part_cleared members id i s) more.
Proof.
  revert parts bl fl s. induction members as [|m members IH]; intros parts bl fl s; simpl.
  { intros [= <- <- <- <-]. exists []. by rewrite app_nil_r. }
  assert (forall more, Forall (part_cleared members id i (askMember engine env m id i s).1) more ->
                       Forall (part_cleared (m :: members) id i s) more) as Hcons.
  { intros more Hmore. eapply Forall_impl; [exact Hmore|]. intros p (m' & res & ? & ? & Hc). exists m', res. split_and!; [done..|]. by apply asked_cleared_cons. }
  destruct (askMember engine env m id i s) as [s1 [res|e|reason]] eqn:E; cbn [fst] in Hcons;
    [|by intros (more & -> & ?)%IH; eauto..].
  unfold readPart. case_decide; [by intros (more & -> & ?)%IH; eauto|]. intros (more & -> & ?)%IH.
  exists ((fr_name m, r_body res) :: more). split; [by rewrite <-app_assoc|]. constructor; [|by apply Hcons].
  exists m, res. split_and!; [done..|]. exists [], members. split; [done|]. by eapply askMember_cleared.
Qed.

(** What a group may show: results its members cleared for the caller when
    they were asked, and merged documents made of such. *)
Definition group_shows (members : list feedRuntime) (id : Identity) (i : Intent) s (r : response) : Prop :=
  (forall res, content_of r = Some res -> is_synthetic i = false /\ exists m, asked_cleared members id i s m res)
  /\ (forall parts, merged_of r = Some parts -> Forall (part_cleared members id i s) parts).

Lemma quiet_shows members id i s r : quiet r -> group_shows members id i s r.
Proof. intros [H1 H2]. split; intros x Hx; congruence. Qed.

Lemma quiet_empty g bl fl : quiet (answerEmptyGroup site g bl fl).
Proof. unfold answerEmptyGroup. destruct bl, fl; auto with content. Qed.

Lemma quiet_synthetic fr i : quiet (serveSynthetic site fr i ∅).
Proof.
  unfold serveSynthetic. destruct (fm_synthesize _) as [f|]; [|auto with content].
  destruct (f _ i) as [y|[e t]]; [done|auto with content].
Qed.

Lemma merged_serveFirstHit g method id i members bl fl s s' r :
  serveFirstHit site engine env g method id i members bl fl s = (s', r) -> merged_of r = None.
Proof.
  revert bl fl s. induction members as [|m members IH]; intros bl fl s; simpl.
  { intros [= <- <-]. apply quiet_empty. }
  destruct (askMember engine env m id i s) as [s1 [res'|e|reason]]; [|apply IH|apply IH].
  by destruct (tryRedirect _ _ _ _ _); intros [= <- <-].
Qed.

Lemma serveFirstHit_shows g method id i bl fl s s' r :
  is_synthetic i = false -> serveFirstHit site engine env g method id i (gr_members g) bl fl s = (s', r) ->
  group_shows (gr_members g) id i s r.
Proof.
  intros Hi Hr. split; [intros res Hc; split; [done|]; by eapply serveFirstHit_cleared|].
  rewrite (merged_serveFirstHit _ _ _ _ _ _ _ _ _ _ Hr). done.
Qed.

Lemma serveMerged_shows g merge id i s s' r :
  serveMerged site engine env g merge id i s = (s', r) -> group_shows (gr_members g) id i s r.
Proof.
  unfold serveMerged. destruct (askAll _ _ _ _ _ _ _ _ _) as [[[s3 ps] bl] fl] eqn:E.
  apply askAll_cleared in E as (more & -> & E). cbn [app]. rename more into ps.
  destruct ps as [|p0 ps]; [intros [= <- <-]; apply quiet_shows, quiet_empty|].
  destruct (merge _ i _) as [body|e]; intros [= <- <-]; [|apply quiet_shows; auto with content].
  split; [done|]. by intros parts [= <-].
Qed.

(** The state in which a group asks its first member. *)
Definition group_gates g (id : Identity) (i : Intent) s : Srv :=
  (on_resolve env (gr_self g) id (i_coord i) (blocked env (gr_name g) (i_coord i) s).1).1.

Lemma groupIntent_shows g method id i s s' r :
  groupIntent site engine env g method id i s = (s', r) ->
  group_shows (gr_members g) id i (group_gates g id i s) r
  /\ (quiet r \/ d_allowed (mayServe engine id (gr_name g) i) = true).
Proof.
  unfold groupIntent, group_gates. destruct (d_allowed _) eqn:Ha; simpl.
  2: { intros [= <- <-]. split; [apply quiet_shows|left]; auto with content. }
  intros Hr. split; [|by right]. revert Hr.
  destruct (blocked _ _ _ s) as [s1 [[] reason]]; cbn [fst];
    [intros [= <- <-]; apply quiet_shows; auto with content|].
  destruct (on_resolve _ _ _ _ s1) as [s2 d]; cbn [fst].
  destruct (Policies.d_allow d); simpl; [|intros [= <- <-]; apply quiet_shows; auto with content].
  destruct (is_synthetic i) eqn:Hi; [intros [= <- <-]; apply quiet_shows, quiet_synthetic|].
  destruct (fm_merger _) as [[mergeable merge]|]; [|by apply serveFirstHit_shows].
  destruct (mergeable i); [apply serveMerged_shows|by apply serveFirstHit_shows].
Qed.

Lemma groupHandler_shows g r s s' resp :
  groupHandler site engine env g r s = (s', resp) ->
  quiet resp \/ exists s0 id i,
    identify env (fr_module (gr_self g)) r s = (s0, Ok id)
    /\ fm_parse (fr_module (gr_self g)) (adoptDeclaredCredential (fr_module (gr_self g)) r) = Ok i
    /\ d_allowed (mayServe engine (Auth.au_id id) (gr_name g) i) = true
    /\ group_shows (gr_members g) (Auth.au_id id) i (group_gates g (Auth.au_id id) i s0) resp.
Proof.
  unfold groupHandler. destruct (identify _ _ r s) as [s0 [id|e]];
    [|intros [= <- <-]; left; auto with content].
  destruct (fm_parse _ _) as [i|[e t]] eqn:Ei; [|intros [= <- <-]; left; auto with content].
  intros Hr. apply groupIntent_shows in Hr as [Hs [Hq|Ha]]; [by left|].
  right. exists s0, id, i. auto.
Qed.

Lemma feedHandler_cleared fr r s s' resp res :
  feedHandler site engine env fr r s = (s', resp) -> content_of resp = Some res ->
  exists s0 id i, identify env (fr_module fr) r s = (s0, Ok id)
    /\ fm_parse (fr_module fr) (adoptDeclaredCredential (fr_module fr) r) = Ok i
    /\ cleared fr (Auth.au_id id) i s0 res.
Proof.
  unfold feedHandler. destruct (identify _ _ r s) as [s0 [id|e]].
  2: { intros [= <- <-]. by autorewrite with content. }
  destruct (fm_parse _ _) as [i|[e t]] eqn:Ei.
  2: { intros [= <- <-]. by autorewrite with content. }
  destruct (serveIntent _ _ _ _ _ _ _ s0) as [s1 r1] eqn:E. intros [= <- <-].
  autorewrite with content. intros Hc. exists s0, id, i. split; [done|]. split; [done|].
  by eapply serveIntent_cleared.
Qed.

Lemma cleared_granted fr id i s res :
  cleared fr id i s res ->
  granted engine id (Config.FeedPath (fr_name fr) (coord_string (i_coord i))) (capabilityFor i).
Proof. intros [? ? ? ? ? ? ? ? ? Ha]. by apply explain_decides_aux. Qed.

(** Up to the pipeline no gate touches the store. *)
Lemma blocked_store f co s s1 x : blocked env f co s = (s1, x) -> sv_store s1 = sv_store s.
Proof. unfold blocked. destruct (Blocked _ _ _ _ _). by intros [= <- <-]. Qed.
Lemma on_resolve_store fr id co s s1 d : on_resolve env fr id co s = (s1, d) -> sv_store s1 = sv_store s.
Proof. unfold on_resolve. destruct (Policies.chain_OnResolve _ _ _ _ _). by intros [= <- <-]. Qed.
Lemma identify_store (mo : FormatModule St) r s s1 x : identify env mo r s = (s1, x) -> sv_store s1 = sv_store s.
Proof. unfold identify. destruct (en_identify _ _ _). by intros [= <- <-]. Qed.

Lemma cleared_digest sha256 `{PL : !PipeLaws sha256 St} fr id i s res :
  cleared fr id i s res -> pipe_ok (PipeLaws := PL) (sv_store s) ->
  i_kind i = IntentArtifact -> i_want i = "" -> sha256 (r_body res) = r_sha256 res.
Proof.
  intros [s1 reason s2 d s3 s4 meta s5 d' _ Eb Er _ Ea _ _ _] Hok Hk Hw.
  assert (pipe (request_for fr i) s2 = (s3, Ok res)) as Ep.
  { destruct Ea as [Ea|Ea]; [|done]. unfold answerFromMember in Ea. by rewrite Hk in Ea. }
  unfold pipe in Ep. destruct (pipe_serve (request_for fr i) (sv_store s2)) as [st' r0] eqn:E.
  simplify_eq/=. rewrite (on_resolve_store _ _ _ _ _ _ Er), (blocked_store _ _ _ _ _ Eb) in E.
  apply (pipe_law (PipeLaws := PL)) in E as [_ E]; [|done]. by apply E.
Qed.
End gates.

(** ** Theorems of the read path *)

(** C11. Content leaves a feed only after every gate: the caller was
    authenticated (or is anonymous), the access engine's most specific rules
    grant the capability on that coordinate of that feed and none denies it,
    the coordinate was not found blocked, the feed's policies allowed both the
    coordinate and the artifact, whose checksum they were shown; and an
    artifact's content has the digest that was stated. *)
Theorem feed_content_cleared {St Ctx Ps As} `{PI : !Pipe St} sha256 `{PL : !PipeLaws sha256 St}
  site engine (env : ReqEnv (Ctx := Ctx) (As := As)) (fr : feedRuntime (Ps := Ps)) r s s' resp res :
  feedHandler site engine env fr r s = (s', resp) -> content_of resp = Some res ->
  exists s0 id i,
    identify env (fr_module fr) r s = (s0, Ok id)
    /\ fm_parse (fr_module fr) (adoptDeclaredCredential (fr_module fr) r) = Ok i
    /\ granted engine (Auth.au_id id) (Config.FeedPath (fr_name fr) (coord_string (i_coord i))) (capabilityFor i)
    /\ cleared engine env fr (Auth.au_id id) i s0 res
    /\ (pipe_ok (PipeLaws := PL) (sv_store s) -> i_kind i = IntentArtifact -> i_want i = "" ->
        sha256 (r_body res) = r_sha256 res).
Proof.
  intros Hr Hc. destruct (feedHandler_cleared _ _ _ _ _ _ _ _ _ Hr Hc) as (s0 & id & i & Hid & Hi & Hcl).
  exists s0, id, i. split; [done|]. split; [done|]. split; [by eapply cleared_granted|].
  split; [done|]. intros Hok. rewrite <- (identify_store _ _ _ _ _ _ Hid) in Hok.
  by eapply cleared_digest.
Qed.

(** C12. A group never widens access: content answered through it is content
    the access rules grant the same caller on the group and on the member it
    came from, which cleared that member's own gates, takedowns and policies
    included, in the state in which the group asked it: after the group's own
    gates and the members before it. Except for searches, which a feed answers
    in its own way, the member asked directly in that state gives the same
    result. Every part of a merged document cleared its member's gates for the
    caller in the state in which that member was asked too. *)
Theorem group_never_widens {St Ctx Ps As} `{PI : !Pipe St}
  site engine (env : ReqEnv (Ctx := Ctx) (As := As)) (g : groupRuntime (Ps := Ps)) r s s' resp :
  groupHandler site engine env g r s = (s', resp) ->
  quiet resp \/ exists s0 id i, let caller := Auth.au_id id in
    let path f := Config.FeedPath f (coord_string (i_coord i)) in
    let start := group_gates env g caller i s0 in
    identify env (fr_module (gr_self g)) r s = (s0, Ok id)
    /\ fm_parse (fr_module (gr_self g)) (adoptDeclaredCredential (fr_module (gr_self g)) r) = Ok i
    /\ granted engine caller (path (gr_name g)) (capabilityFor i)
    /\ (forall res, content_of resp = Some res -> exists before m after, gr_members g = before ++ m :: after
          /\ granted engine caller (path (fr_name m)) (capabilityFor i)
          /\ let sm := asked engine env caller i before start in
             cleared engine env m caller i sm res
             /\ (i_kind i <> IntentSearch ->
                 exists sm' direct, serveIntent site engine env m (rq_method r) caller i sm = (sm', direct)
                   /\ content_of direct = Some res))
    /\ (forall parts, merged_of resp = Some parts ->
          Forall (part_cleared engine env (gr_members g) caller i start) parts).
Proof.
  intros Hr. destruct (groupHandler_shows _ _ _ _ _ _ _ _ Hr) as [Hq|(s0 & id & i & Hid & Hi & Ha & Hc & Hm)];
    [by left|right]. exists s0, id, i. split; [done|]. split; [done|]. split; [by apply explain_decides_aux|].
  split; [|exact Hm]. intros res Hres. destruct (Hc res Hres) as (Hsyn & m & before & after & Hin & Hcl).
  exists before, m, after. split; [done|]. split; [by eapply cleared_granted|].
  split; [done|]. intros Hk. by apply cleared_serves.
Qed.

(** ** The read pipeline implements the interface *)

Section pipeline.
Context (digest : string -> string -> string) {St : Type}.
Context `{BS : !BlobStore (digest "sha256") St} `{MC : !ManifestCodec} (w : World St).

(** Two levels of nesting are enough ([serve_fuel_enough]). *)
Definition pipeline_pipe : Pipe St := Serve digest w 2.

Lemma pipeline_laws : world_ok digest w -> PipeLaws (digest "sha256") St (H := pipeline_pipe).
Proof.
  intros Hw. unshelve econstructor; [exact (blobs_ok digest)|].
  intros q st st' r Hst E. unfold pipe_serve, pipeline_pipe in E.
  apply Serve_ok in E as [Hst' Ha]; [|done..]. split; [done|].
  intros res Hr Hk Hwant. by destruct (Ha Hk res Hr Hwant).
Defined.
End pipeline.

(** ** A server on the directory store *)

Module Demo.
Definition env : ReqEnv (Ctx := unit) (As := unit) :=
  mkEnv 0 tt (fun h st => (st, if decide (h = "Bearer ci") then Ok (Auth.mkAuthed ci false)
                               else Ok (Auth.mkAuthed Auth.Anonymous false)))
    (fun _ _ => Some None) None.
#[global] Instance pipe : Pipe FS :=
  pipeline_pipe PipelineDemo.digest (PipelineDemo.world (Ok ("body", ""))).
#[global] Instance laws : PipeLaws (PipelineDemo.digest "sha256") FS :=
  pipeline_laws PipelineDemo.digest _ (PipelineDemo.world_good _).

(** A module that reads every request as one artifact of a GPL-licensed
    package, and challenges for Basic credentials only. *)
Definition metadata : option ((Feed -> PackageCoordinate -> option Intent)
    * (PackageCoordinate -> string -> option (gmap string string))) :=
  Some (fun _ _ => Some (PipelineDemo.intent IntentMetadata (mkChecksum "" "")),
        fun _ _ => Some {[ Policies.MetaLicense := "GPL-3.0" ]}).
Definition module : FormatModule FS :=
  mkModule (fun _ => Ok (PipelineDemo.intent IntentArtifact (mkChecksum "sha256" "4b")))
    (Some ["X-Api-Key"]) (Some (fun _ => "Basic realm=fondaco")) None None None None metadata None.
Definition license : Policies.Chain unit unit :=
  [("license", Policies.License.policy (Policies.License.mkCfg ["GPL-*"] false))].
Definition feed (name : string) (chain : Policies.Chain unit unit) : feedRuntime :=
  mkFeedRt (mkFeed name false) module chain true false false false.
Definition engine : Engine :=
  engine_of [mkPolicy "read" [mkRule "feed/*" [CapRead] "read"]]
            [mkBinding "ci" ["read"] (mkMatch "oidc" "" "" "" "" true)].
Definition get (auth : string) : HttpReq := mkHttp "GET" "/lib/1.0/lib.jar" {[ "Authorization" := auth ]} "" "".
Definition start : Srv (St := FS) (Ps := unit) (As := unit) :=
  mkSrv empty_fs (newQuarantineCache true (30 * Second)) tt tt [].
Definition group (chain : Policies.Chain unit unit) : groupRuntime :=
  mkGroupRt (feed "all" chain) [feed "proxy" []].
End Demo.

Lemma feed_content_cleared_witness :
  exists s' resp res,
    feedHandler "a" Demo.engine Demo.env (Demo.feed "proxy" []) (Demo.get "Bearer ci") Demo.start = (s', resp)
    /\ content_of resp = Some res /\ r_body res = "body"
    /\ PipelineDemo.digest "sha256" (r_body res) = r_sha256 res.
Proof.
  destruct (feedHandler "a" Demo.engine Demo.env (Demo.feed "proxy" []) (Demo.get "Bearer ci") Demo.start)
    as [s' resp] eqn:E.
  assert (exists res, content_of resp = Some res /\ r_body res = "body") as (res & Hc & Hb).
  { apply (f_equal snd) in E. simpl in E. rewrite <- E. eexists. split; vm_compute; reflexivity. }
  exists s', resp, res. split; [reflexivity|]. split; [exact Hc|]. split; [exact Hb|].
  destruct (feed_content_cleared (PipelineDemo.digest "sha256") "a" Demo.engine Demo.env (Demo.feed "proxy" [])
    (Demo.get "Bearer ci") Demo.start s' resp res E Hc) as (s0 & id & i & _ & Hi & _ & _ & Hd).
  injection Hi as <-. apply Hd; [exact PipelineDemo.empty_blobs_ok|reflexivity|reflexivity].
Defined.

Lemma group_never_widens_witness :
  exists s' resp res, groupHandler "a" Demo.engine Demo.env (Demo.group []) (Demo.get "Bearer ci") Demo.start = (s', resp)
    /\ content_of resp = Some res
    /\ exists m, m ∈ gr_members (Demo.group [])
       /\ granted Demo.engine ci (Config.FeedPath (fr_name m) "maven:lib@1.0") CapRead.
Proof.
  destruct (groupHandler "a" Demo.engine Demo.env (Demo.group []) (Demo.get "Bearer ci") Demo.start)
    as [s' resp] eqn:E.
  assert (exists res, content_of resp = Some res) as (res & Hc).
  { apply (f_equal snd) in E. simpl in E. rewrite <- E. eexists. vm_compute; reflexivity. }
  exists s', resp, res. split; [reflexivity|]. split; [exact Hc|].
  destruct (group_never_widens "a" Demo.engine Demo.env (Demo.group []) (Demo.get "Bearer ci") Demo.start s' resp E)
    as [[Hq _]|(s0 & id & i & Hid & Hi & _ & Hm & _)]; [congruence|].
  destruct (Hm res Hc) as (before & m & after & Hin & Hg & _). exists m. split; [rewrite Hin; apply elem_of_app; right; left|].
  injection Hid as _ <-. injection Hi as <-. exact Hg.
Defined.

(** A group's own policies are asked before its members are, never about what
    is served: a license policy on the group has no effect, while the same
    policy on the feed refuses the package. *)
Theorem group_policies_skip_serve :
  status_of (feedHandler "a" Demo.engine Demo.env (Demo.feed "proxy" Demo.license) (Demo.get "Bearer ci") Demo.start).2 = 403
  /\ status_of (groupHandler "a" Demo.engine Demo.env (Demo.group Demo.license) (Demo.get "Bearer ci") Demo.start).2 = 200.
Proof. split; vm_compute; reflexivity. Qed.

(** A feed's refusal carries the challenge its protocol's clients understand;
    a group's carries the default one. *)
Theorem group_challenge_is_default :
  header_get (headers_of (feedHandler "a" Demo.engine Demo.env (Demo.feed "proxy" []) (Demo.get "") Demo.start).2)
    "WWW-Authenticate" = "Basic realm=fondaco"
  /\ header_get (headers_of (groupHandler "a" Demo.engine Demo.env (Demo.group []) (Demo.get "") Demo.start).2)
    "WWW-Authenticate" = default_challenge.
Proof. split; vm_compute; reflexivity. Qed.
End Server.
