(* ===== verification/WriteRoutes.v ===== *)
(** * The write routes ([core/server/publish.go])

    Publishing over HTTP: the handler of a hosting feed, the decorated
    services a format module publishes through ([publishDeps]), the
    forwarding of writes to a feed's home site ([forwardPublish], the
    replication client and server in between) and the home site's side
    ([ApplyForwardedPublish]).

    A hosting module is code of its own that reaches the core only through
    [CoreServices]. It is a program tree over those calls: what the core
    guarantees is proved for every such program. The publisher itself is
    that of Publisher.v, on the database tables and the blob store. *)

From S2P Require Import Prelude GoLib Access State Events ReplSql Applier Store Pipeline Publisher Policies Auth Config Server.
Open Scope Z_scope.

Module WriteRoutes.
Import Server.

(** ** Module programs *)

Section programs.
Context {A : Type}.

(** The calls of [CoreServices]. [Site] is a constant a module is built with;
    [Stat] reports what [Get] would open. *)
Inductive prog : Type :=
| Ret (a : A)
| BlobGet (key : string) (k : result api_error Obj -> prog)
| BlobPut (key body : string) (o : PutOpts) (k : option api_error -> prog)
| BlobDelete (key : string) (k : option api_error -> prog)
| BlobList (prefix : string) (k : result api_error (list (string * Z)) -> prog)
| CorePublish (r : PublishRequest) (k : result (api_error * string) bool -> prog)
| CoreManifests (f : Feed) (prefix : string)
    (k : result api_error (list (string * PackageCoordinate * HostedRow)) -> prog)
| CorePutIndex (f : Feed) (path body : string) (k : option api_error -> prog).

(** Every publish of the program satisfies [P], whatever its calls answer. *)
Fixpoint publishes (P : PublishRequest -> Prop) (p : prog) : Prop :=
  match p with
  | Ret _ => True
  | BlobGet _ k => forall x, publishes P (k x)
  | BlobPut _ _ _ k => forall x, publishes P (k x)
  | BlobDelete _ k => forall x, publishes P (k x)
  | BlobList _ k => forall x, publishes P (k x)
  | CorePublish r k => P r /\ forall x, publishes P (k x)
  | CoreManifests _ _ k => forall x, publishes P (k x)
  | CorePutIndex _ _ _ k => forall x, publishes P (k x)
  end.
End programs.
Arguments prog : clear implicits.

(** What a module answers a publish with: the response it wrote itself
    ([PublishResponder]) or nothing. *)
Definition own_response : Type := Z * gmap string string * string.

(** [api.Hoster] and [api.PublishResponder]. *)
Record Hoster := mkHoster {
  ho_responds : bool;
  ho_publish : Feed -> HttpReq -> prog (result (api_error * string) own_response);
  ho_reindex : Feed -> prog (option api_error);
}.

(** What a hosting module owes the core: it publishes into the feed it was
    called for, and rebuilding its indexes publishes nothing. *)
Class HosterLaws (h : Hoster) : Prop := {
  ho_scoped : forall f r, publishes (fun q => pr_feed q = f) (ho_publish h f r);
  ho_index_only : forall f, publishes (fun _ => False) (ho_reindex h f);
}.

(** ** The routes of a module ([publishRoutes]) *)

Definition publishRoutes (declared : option (list (string * string))) : list (string * string) :=
  match declared with
  | Some rs => rs
  | None => [("PUT", "/*"); ("POST", "/*")]
  end.

(** ** Headers that travel with a forwarded write *)

Definition payload_names : list string :=
  ["Content-Type"; "Content-Range"; "Content-Encoding"; "Content-Disposition"; "Accept"].

Definition payloadHeaders (src : gmap string string) : gmap string string :=
  foldl (fun out name => if decide (header_get src name <> "") then <[name := header_get src name]> out else out)
    ∅ payload_names.

Definition hop_headers : list string := ["Content-Length"; "Transfer-Encoding"; "Connection"; "Date"].

Definition copyForwardedHeaders (dst src : gmap string string) : gmap string string :=
  dst ∪ filter (fun kv => kv.1 ∉ hop_headers) src.

(** ** The handler *)

Section routes.
Context (digest : string -> string -> string) {St Ctx Ps As : Type}.
Context `{BS : !BlobStore (digest "sha256") St} `{MC : !ManifestCodec}.
(** The store's listing, the text of a core error. *)
Context (blob_list : string -> St -> result api_error (list (string * Z))) (error_text : api_error -> string).
Context (site : string) (engine : Engine) (env : ReqEnv (Ctx := Ctx) (As := As)).
(** Whether the journal is on, whether the database answers. *)
Context (journal db_up : bool).

Notation feedRuntime := (feedRuntime (St := St) (Ctx := Ctx) (Ps := Ps)).

(** What a write works on; no database is [None]. *)
Record W := mkW { w_db : option DB; w_store : St; w_pol : Ps }.

(** [Publisher.Publish] as the modules see it. *)
Definition core_publish (r : PublishRequest) (w : W) : W * result (api_error * string) bool :=
  let '(db, st, res) := Publisher.Publish digest (en_now env) site journal db_up r (w_db w) (w_store w) in
  (mkW db st (w_pol w),
   match res with Ok created => Ok created | Err e => Err (e, error_text e) end).

Definition with_identity (id : Identity) (r : PublishRequest) : PublishRequest :=
  mkPublish (pr_feed r) (pr_coord r) (pr_path r) (pr_sha256 r) (pr_size r) (pr_checksums r)
    (identity_string id) (pr_mutable r) (pr_metadata r).

(** The artifact a publish is shown to the policies as. *)
Definition publish_artifact (r : PublishRequest) : Policies.Artifact :=
  Policies.mkArtifact (pr_coord r) (pr_size r) (mkChecksum "sha256" (pr_sha256 r)) (default ∅ (pr_metadata r)).

(** [publishDeps.Publish]. *)
Definition deps_publish (fr : feedRuntime) (id : Identity) (r : PublishRequest) (w : W)
  : W * result (api_error * string) bool :=
  let r := with_identity id r in
  let d := mayPublish engine id (fr_name fr) (coord_string (pr_coord r)) in
  if negb (d_allowed d) then (w, Err (ErrForbidden, Access.d_reason d +:+ ": " +:+ error_text ErrForbidden)) else
  let '(pol, d) := Policies.chain_OnPublish (fr_chain fr) (en_ctx env) id (publish_artifact r) (w_pol w) in
  let w := mkW (w_db w) (w_store w) pol in
  if negb (Policies.d_allow d)
  then (w, Err (ErrForbidden, Policies.d_reason d +:+ ": " +:+ error_text ErrForbidden))
  else core_publish r w.

(** A program run against a publish function. *)
Fixpoint run {A} (pub : PublishRequest -> W -> W * result (api_error * string) bool) (p : prog A) (w : W)
  : W * A :=
  match p with
  | Ret a => (w, a)
  | BlobGet key k => run pub (k (Get key (w_store w))) w
  | BlobPut key body o k =>
      let '(st, e) := Put (en_now env) key body o (w_store w) in run pub (k e) (mkW (w_db w) st (w_pol w))
  | BlobDelete key k =>
      let '(st, e) := Delete key (w_store w) in run pub (k e) (mkW (w_db w) st (w_pol w))
  | BlobList prefix k => run pub (k (blob_list prefix (w_store w))) w
  | CorePublish r k => let '(w, res) := pub r w in run pub (k res) w
  | CoreManifests f prefix k =>
      run pub (k (match w_db w with
                  | Some db => if db_up then Ok (Manifests f prefix db) else Err ErrUnavailable
                  | None => Err ErrUnavailable
                  end)) w
  | CorePutIndex f path body k =>
      let '(st, e) := PutIndex digest (en_now env) f path body (w_store w) in
      run pub (k e) (mkW (w_db w) st (w_pol w))
  end.

(** [Publisher.Reindex]; its advisory lock makes it one step. *)
Definition Reindex (f : Feed) (h : option Hoster) (w : W) : W * option api_error :=
  match h with
  | Some h => if f_hosted f then run core_publish (ho_reindex h f) w else (w, None)
  | None => (w, None)
  end.

(** [Server.ReindexFeed]: after replication changed a feed. *)
Definition ReindexFeed (feeds : gmap string (Feed * option Hoster)) (name : string) (w : W) : W * option api_error :=
  match feeds !! name with
  | Some (f, h) => Reindex f h w
  | None => (w, None)
  end.

(** A hosting feed at run time. *)
Record pubRuntime := mkPubRt {
  pu_feed : feedRuntime;
  pu_policy : Config.PublishPolicy;
  pu_hoster : option Hoster;
}.

(** [ForwardFunc]: to a site, about a feed; [None] when the site could not be
    reached. *)
Definition ForwardFunc : Type :=
  string -> string -> string -> string -> string -> gmap string string -> Identity -> option own_response.

Notation Srv := (Srv (St := St) (Ps := Ps) (As := As)).
Record Site := mkSite { si_srv : Srv; si_db : option DB }.
Definition world_of (s : Site) : W := mkW (si_db s) (sv_store (si_srv s)) (sv_pol (si_srv s)).
Definition put_world (s : Site) (w : W) : Site :=
  mkSite (set_pol (set_store (si_srv s) (w_store w)) (w_pol w)) (w_db w).

(** [forwardPublish]. *)
Definition forwardPublish (forward : option ForwardFunc) (pu : pubRuntime) (r : HttpReq) (id : Identity) : response :=
  let home := Config.pp_home (pu_policy pu) in
  let name := fr_name (pu_feed pu) in
  let unreachable := <["X-Registry-Home-Site" := home]> {[ "Retry-After" := "30" ]} in
  match forward with
  | None => finishError site unreachable 503
              ("feed " +:+ name +:+ " is published at site " +:+ home +:+ "; this site cannot forward writes")
  | Some fwd =>
      match fwd home name (trim_prefix (rq_path r) "/") (rq_method r) (rq_body r) (payloadHeaders (rq_header r)) id with
      | None => finishError site unreachable 503
                  ("home site " +:+ home +:+ " for feed " +:+ name +:+ " is unreachable")
      | Some (status, header, body) =>
          RSynthetic status (<[SiteHeader := home]> (copyForwardedHeaders ∅ header)) body
      end
  end.

(** The module's turn: its publish program through [publishDeps], then the
    rebuild of the indexes, whose failure is only logged. *)
Definition host_publish (fr : feedRuntime) (h : Hoster) (id : Identity) (r : HttpReq) (s : Site)
  : Site * result (api_error * string) own_response :=
  let '(w, res) := run (deps_publish fr id) (ho_publish h (fr_feed fr) r) (world_of s) in
  match res with
  | Err e => (put_world s w, Err e)
  | Ok resp => (put_world s (Reindex (fr_feed fr) (Some h) w).1, Ok resp)
  end.

(** [publishHandler]. *)
Definition publishHandler (forward : option ForwardFunc) (pu : pubRuntime) (h : Hoster) (r0 : HttpReq) (s : Site)
  : Site * response :=
  let fr := pu_feed pu in
  let r := adoptDeclaredCredential (fr_module fr) r0 in
  let '(srv, who) := identify env (fr_module fr) r0 (si_srv s) in
  let s := mkSite srv (si_db s) in
  let '(s, resp) :=
    match who with
    | Err e => (s, writeError site ∅ (auth_api_error e) "")
    | Ok a =>
        let id := Auth.au_id a in
        if IsAnonymous id then (s, writeError site ∅ ErrUnauthorized "authentication required to publish")
        else if Auth.au_stale a then
          (s, writeError site ∅ ErrUnavailable
                "the token backend is unavailable, so this credential cannot be verified for a write")
        else if negb (mayPublishSomething engine id (fr_name fr)) then
          (s, writeAccessError site ∅ id (mayPublish engine id (fr_name fr) ""))
        else if negb (Config.pp_local (pu_policy pu)) then (s, forwardPublish forward pu r id)
        else if bool_decide (si_db s = None) then
          (s, writeError site ∅ ErrUnavailable "publishing is unavailable: no database")
        else
          let hd : gmap string string := <[SiteHeader := site]> {[ SourceHeader := source_string SourceLocal ]} in
          match host_publish fr h id r s with
          | (s, Err (e, text)) => (s, writeErrorText site hd e text)
          | (s, Ok (status, header, body)) =>
              (s, if ho_responds h then RSynthetic status (header ∪ hd) body else RSynthetic 201 hd "")
          end
    end in
  (s, withChallenge (fr_module fr) (fr_feed fr) resp).

(** [ApplyForwardedPublish]: the home site's side. *)
Definition ApplyForwardedPublish (feeds : gmap string pubRuntime) (feed path method body : string)
  (header : gmap string string) (identity projectPath : string) (s : Site) : Site * own_response :=
  let nl := String (Ascii.ascii_of_N 10) "" in
  let refuse (status : Z) (text : string) : Site * own_response := (s, (status, ∅, text +:+ nl)) in
  match feeds !! feed with
  | None => refuse 404 ("unknown feed " +:+ feed)
  | Some pu =>
      let fr := pu_feed pu in
      if negb (Config.pp_local (pu_policy pu)) then refuse 421 ("this site is not the home of feed " +:+ feed)
      else match (if fr_hosted fr then pu_hoster pu else None) with
      | None => refuse 405 ("feed " +:+ feed +:+ " does not accept publishes")
      | Some h =>
          if bool_decide (si_db s = None) then refuse 503 "publishing is unavailable: no database" else
          let id0 := Auth.ParseIdentity identity in
          let id := mkIdentity (id_kind id0) (id_subject id0) (id_issuer id0) projectPath (id_ref id0) in
          if decide (id_kind id = Auth.IdentityAnonymous) then
            refuse 403 "forwarded identity is not a token or OIDC subject"
          else if negb (mayPublishSomething engine id feed) then
            refuse 403 (Access.d_reason (mayPublish engine id feed ""))
          else
            let r := mkHttp (if decide (method = "") then "PUT" else method) ("/" +:+ trim_prefix path "/")
                       (payloadHeaders header) body "" in
            match host_publish fr h id r s with
            | (s, Err (e, text)) =>
                let failed := writeErrorText site ∅ e text in
                (s, (status_of failed, headers_of failed,
                     match failed with RError _ _ m => m | _ => "" end))
            | (s, Ok resp) => (s, if ho_responds h then resp else (201, ∅, "published" +:+ nl))
            end
      end
  end.

(** The replication hop: the client's request ([Client.ForwardPublish]) as the
    home site's handler ([handlePublish]) reads it. A write at the feed's root
    is refused there. *)
Definition forwarded (feeds : gmap string pubRuntime) (feed path method body : string) (header : gmap string string)
  (id : Identity) (s : Site) : Site * own_response :=
  let identity := identity_string id in
  if decide (feed = "" \/ path = "" \/ identity = "") then
    (s, (400, ∅, "feed, path and X-Registry-On-Behalf-Of are required" +:+ String (Ascii.ascii_of_N 10) ""))
  else ApplyForwardedPublish feeds feed path method body
         (<["X-Registry-Forwarded-Method" := method]> (<["X-Registry-On-Behalf-Of" := identity]> header))
         identity (id_project_path id) s.

(** ** What a write leaves in the database *)

Implicit Types (w : W) (s : Site) (db : option DB).

Definition row_at (db : option DB) (key : string * string) : option HostedRow :=
  db ≫= fun d => hosted_manifests d !! key.

(** [fr]'s gates let [id] publish [r]: the most specific rules grant it on the
    coordinate and none denies it, and the feed's policies allowed the artifact. *)
Definition may_commit (fr : feedRuntime) (id : Identity) (r : PublishRequest) : Prop :=
  granted engine id (Config.FeedPath (fr_name fr) (coord_string (pr_coord r))) CapPublish
  /\ exists pol, Policies.d_allow (Policies.chain_OnPublish (fr_chain fr) (en_ctx env) id (publish_artifact r) pol).2 = true.

(** Every row is as before, or was put there by a request the gates let [id]
    make, under its name; releases are as before in any case. *)
Definition authorized (fr : feedRuntime) (id : Identity) (db db' : option DB) : Prop :=
  forall key,
    (row_at db' key = row_at db key
     \/ exists r row, key = (f_name (pr_feed r), pr_path r) /\ pr_feed r = fr_feed fr /\ may_commit fr id r
          /\ row_at db' key = Some row /\ h_sha256 row = pr_sha256 r
          /\ h_published_by row = identity_string id /\ h_site row = site)
    /\ (forall row, row_at db key = Some row -> h_mutable row = false -> row_at db' key = Some row).

#[export] Instance authorized_pre fr id : PreOrder (authorized fr id).
Proof.
  split; [intros db key; auto|]. intros a b c Hab Hbc key.
  destruct (Hab key) as [H1 H2], (Hbc key) as [H3 H4]. split; [|by auto].
  destruct H3 as [H3|H3]; [|by right]. rewrite H3. by apply H1.
Qed.

Lemma insert_row now feed path r d d' created m key :
  InsertHostedTx now feed path r d = Ok (d', created, m) ->
  (hosted_manifests d' !! key = hosted_manifests d !! key
   \/ exists row, key = (feed, path) /\ hosted_manifests d' !! key = Some row
        /\ h_sha256 row = h_sha256 r /\ h_published_by row = h_published_by r /\ h_site row = h_site r)
  /\ (forall row, hosted_manifests d !! key = Some row -> h_mutable row = false -> hosted_manifests d' !! key = Some row).
Proof.
  unfold InsertHostedTx. simpl. destruct (decide (key = (feed, path))) as [->|Hk].
  - destruct (hosted_manifests d !! (feed, path)) as [old|] eqn:E.
    + case_decide as Hs; [intros [= <- <- <-]; simpl; rewrite E; auto|].
      destruct (h_mutable old) eqn:Em; simpl; [|done]. destruct (h_mutable r); simpl; [|done].
      intros [= <- <- <-]. simpl. rewrite lookup_insert_eq. split; [|by intros row [= ->]; congruence].
      right. by eexists.
    + intros [= <- <- <-]. simpl. rewrite lookup_insert_eq. split; [|done]. right. by eexists.
  - destruct (hosted_manifests d !! (feed, path)) as [old|] eqn:E.
    + case_decide as Hs; [intros [= <- <- <-]; simpl; auto|].
      case_match; [done|]. intros [= <- <- <-]. simpl. rewrite lookup_insert_ne by done. auto.
    + intros [= <- <- <-]. simpl. rewrite lookup_insert_ne by done. auto.
Qed.

Lemma append_hosted now e d : hosted_manifests (AppendManifestPut now site e d) = hosted_manifests d.
Proof. done. Qed.

Lemma core_publish_rows r w w' x key :
  core_publish r w = (w', x) ->
  (row_at (w_db w') key = row_at (w_db w) key
   \/ exists row, key = (f_name (pr_feed r), pr_path r) /\ row_at (w_db w') key = Some row
        /\ h_sha256 row = pr_sha256 r /\ h_published_by row = pr_identity r /\ h_site row = site)
  /\ (forall row, row_at (w_db w) key = Some row -> h_mutable row = false -> row_at (w_db w') key = Some row).
Proof.
  unfold core_publish, Publisher.Publish. destruct (w_db w) as [d|]; [|intros [= <- <-]; auto].
  case_decide; [intros [= <- <-]; auto|]. destruct (negb (validRemotePath _)); [intros [= <- <-]; auto|].
  destruct (Stat _ _); [|intros [= <- <-]; auto]. destruct db_up; simpl; [|intros [= <- <-]; auto].
  unfold insertWithJournal.
  destruct (InsertHostedTx _ _ _ _ _) as [[[d1 c] m]|e] eqn:Ei; [|intros [= <- <-]; auto].
  intros [= <- <-]. cbn [w_db row_at mbind option_bind].
  destruct (c && journal); [rewrite append_hosted|]; by apply (insert_row _ _ _ _ _ _ _ _ key) in Ei.
Qed.

Lemma deps_publish_authorized fr id r w w' x :
  pr_feed r = fr_feed fr -> deps_publish fr id r w = (w', x) -> authorized fr id (w_db w) (w_db w').
Proof.
  intros Hf. unfold deps_publish.
  destruct (d_allowed (mayPublish _ _ _ _)) eqn:Ha; simpl; [|by intros [= <- <-]].
  destruct (Policies.chain_OnPublish _ _ _ _ _) as [pol d] eqn:Ec.
  destruct (Policies.d_allow d) eqn:Ed; simpl; [|by intros [= <- <-]].
  intros Hp key. destruct (core_publish_rows _ _ _ _ key Hp) as [[Hsame|(row & Hkey & Hrow & Hsha & Hby & Hs)] Him];
    (split; [|done]); [by left|right].
  exists (with_identity id r), row. split; [exact Hkey|]. split; [done|]. split; [|done].
  split; [by apply explain_decides_aux|]. exists (w_pol w). by rewrite Ec.
Qed.

(** A publish changes at most the row it names. *)
Lemma deps_publish_rows fr id r w w' x key :
  deps_publish fr id r w = (w', x) ->
  row_at (w_db w') key = row_at (w_db w) key
  \/ exists row, key = (f_name (pr_feed r), pr_path r) /\ row_at (w_db w') key = Some row /\ h_sha256 row = pr_sha256 r.
Proof.
  unfold deps_publish. destruct (negb _); [intros [= <- <-]; auto|].
  destruct (Policies.chain_OnPublish _ _ _ _ _) as [pol d]. destruct (negb _); [intros [= <- <-]; auto|].
  intros Hp. destruct (core_publish_rows _ _ _ _ key Hp) as [[?|(row & ? & ? & ? & _)] _]; [by left|right; by exists row].
Qed.

(** An accepted publish leaves its digest at its path, and writes nothing to
    the store but a projection. *)
Lemma deps_publish_row fr id r w w' created :
  deps_publish fr id r w = (w', Ok created) ->
  exists row, row_at (w_db w') (f_name (pr_feed r), pr_path r) = Some row /\ h_sha256 row = pr_sha256 r.
Proof.
  unfold deps_publish. destruct (negb _); [done|].
  destruct (Policies.chain_OnPublish _ _ _ _ _) as [pol d]. destruct (negb _); [done|].
  unfold core_publish, Publisher.Publish. simpl. destruct (w_db w) as [db|]; [|done].
  case_decide; [done|]. destruct (negb _); [done|]. destruct (Stat _ _); [|done]. destruct db_up; simpl; [|done].
  unfold insertWithJournal, InsertHostedTx. simpl.
  destruct (hosted_manifests db !! (f_name (pr_feed r), pr_path r)) as [old|] eqn:Eo.
  - case_decide as Hs; [|destruct (_ || _); [done|]]; intros [= <- <-]; cbn [w_db row_at mbind option_bind].
    + exists old. by destruct journal.
    + eexists. destruct journal; cbn [andb]; [rewrite append_hosted|]; simpl; rewrite lookup_insert_eq; by split.
  - intros [= <- <-]. cbn [w_db row_at mbind option_bind]. eexists.
    destruct journal; cbn [andb]; [rewrite append_hosted|]; simpl; rewrite lookup_insert_eq; by split.
Qed.
Lemma deps_publish_store fr id r w w' x k :
  deps_publish fr id r w = (w', x) -> has_prefix k "manifests/" = false ->
  found (Get k (w_store w')) = found (Get k (w_store w)).
Proof.
  unfold deps_publish. destruct (negb _); [by intros [= <- <-]|].
  destruct (Policies.chain_OnPublish _ _ _ _ _) as [pol d]. destruct (negb _); [by intros [= <- <-]|].
  unfold core_publish, Publisher.Publish. simpl. destruct (w_db w) as [db|]; [|by intros [= <- <-]].
  case_decide; [by intros [= <- <-]|]. destruct (negb _); [by intros [= <- <-]|].
  destruct (Stat _ _); [|by intros [= <- <-]]. destruct db_up; simpl; [|by intros [= <- <-]].
  destruct (insertWithJournal _ _ _ _ _) as [[[d1 c] r1]|e]; [|by intros [= <- <-]].
  intros [= <- <-] Hk. simpl. unfold writeProjection. apply put_local. intros ->. revert Hk. unfold projectionKey. by rewrite has_prefix_app_r.
Qed.

(** Programs change the database only through their publish function. *)
Lemma run_database {A} (R : relation (option DB)) `{!PreOrder R} (P : PublishRequest -> Prop) pub :
  (forall r w w' x, P r -> pub r w = (w', x) -> R (w_db w) (w_db w')) ->
  forall (p : prog A) w w' a, publishes P p -> run pub p w = (w', a) -> R (w_db w) (w_db w').
Proof.
  intros Hpub p. induction p as [a|key k IH|key body o k IH|key k IH|pre k IH|r k IH|f pre k IH|f path body k IH];
    intros w w' x Hp; simpl in Hp |- *; try by apply IH.
  - by intros [= <- <-].
  - destruct (Put _ _ _ _ _) as [st e]. by apply (IH e (mkW (w_db w) st (w_pol w))).
  - destruct (Delete _ _) as [st e]. by apply (IH e (mkW (w_db w) st (w_pol w))).
  - destruct Hp as [Hr Hk]. destruct (pub r w) as [w1 res] eqn:E. intros H.
    etrans; [by eapply Hpub|]. by eapply IH.
  - destruct (PutIndex _ _ _ _ _ _) as [st e]. by apply (IH e (mkW (w_db w) st (w_pol w))).
Qed.

Context (h : Hoster) `{HL : !HosterLaws h}.

Lemma host_publish_authorized fr id r s s' x :
  host_publish fr h id r s = (s', x) -> authorized fr id (si_db s) (si_db s').
Proof.
  unfold host_publish. destruct (run _ _ _) as [w res] eqn:E.
  apply (run_database (authorized fr id) (fun q => pr_feed q = fr_feed fr)) in E;
    [|by intros; eapply deps_publish_authorized|by apply ho_scoped]. simpl in E.
  destruct res as [resp|e]; [|by intros [= <- <-]]. intros [= <- <-]. simpl.
  unfold Reindex. destruct (f_hosted (fr_feed fr)); [|done].
  destruct (run core_publish _ _) as [w2 y] eqn:E2.
  apply (run_database (authorized fr id) (fun _ => False)) in E2; [|done|by apply ho_index_only].
  by etrans.
Qed.

(** The matching of bindings that look at neither issuer nor ref. *)
Lemma matches_crossed m id p :
  m_issuer m = "" -> m_ref m = "" -> p = id_project_path id ->
  matches m (mkIdentity (id_kind id) (id_subject id) "" p "") = matches m id.
Proof. intros H1 H2 ->. unfold matches. simpl. rewrite H1, H2. by destruct id. Qed.

Lemma boundVia_ext e id id' :
  (forall b, b ∈ bindings e -> matches (binding_match b) id = matches (binding_match b) id') ->
  boundVia e id = boundVia e id'.
Proof.
  intros H. unfold boundVia. generalize (@nil string, @nil string). induction (bindings e) as [|b bs IH]; [done|].
  intros acc. simpl. rewrite (H b) by apply list_elem_of_here. apply IH. intros b' Hb'. apply H. by apply list_elem_of_further.
Qed.
End routes.

(** ** Theorems *)

(** C13. A write through the HTTP route changes a hosted row only for a caller
    who was authenticated then and there (neither anonymous nor from a stale
    cache entry), at a feed homed here, with the access rules granting
    publication of that very coordinate and the feed's policies allowing the
    artifact; the row carries the caller's name and the published digest, and
    a release is never changed. This holds for every format module that
    publishes only into the feed it was called for and publishes nothing while
    it rebuilds indexes ([HosterLaws], shown for Maven, npm, OCI, Helm, Composer
    and Terraform): the route checks the rules for its own feed, and takes the
    feed that is written from the module. *)
Theorem publish_authorized {St Ctx Ps As} (digest : string -> string -> string)
  `{BS : !BlobStore (digest "sha256") St} `{MC : !ManifestCodec} blob_list error_text site engine
  (env : ReqEnv (Ctx := Ctx) (As := As)) journal db_up (h : Hoster) `{HL : !HosterLaws h} forward
  (pu : pubRuntime (St := St) (Ctx := Ctx) (Ps := Ps)) r s s' resp key :
  publishHandler digest blob_list error_text site engine env journal db_up forward pu h r s = (s', resp) ->
  (row_at (si_db s') key = row_at (si_db s) key
   \/ exists a q row,
        (identify env (fr_module (pu_feed pu)) r (si_srv s)).2 = Ok a
        /\ IsAnonymous (Auth.au_id a) = false /\ Auth.au_stale a = false
        /\ Config.pp_local (pu_policy pu) = true
        /\ key = (fr_name (pu_feed pu), pr_path q) /\ may_commit engine env (pu_feed pu) (Auth.au_id a) q
        /\ row_at (si_db s') key = Some row /\ h_sha256 row = pr_sha256 q
        /\ h_published_by row = identity_string (Auth.au_id a))
  /\ (forall row, row_at (si_db s) key = Some row -> h_mutable row = false -> row_at (si_db s') key = Some row).
Proof.
  unfold publishHandler. destruct (identify env _ r (si_srv s)) as [srv who] eqn:Ei. simpl.
  destruct who as [a|e]; [|intros [= <- _]; auto].
  destruct (IsAnonymous (Auth.au_id a)) eqn:Ean; [intros [= <- _]; auto|].
  destruct (Auth.au_stale a) eqn:Est; [intros [= <- _]; auto|].
  destruct (mayPublishSomething _ _ _); simpl; [|intros [= <- _]; auto].
  destruct (Config.pp_local (pu_policy pu)) eqn:El; simpl; [|intros [= <- _]; auto].
  case_bool_decide; [intros [= <- _]; auto|].
  destruct (host_publish _ _ _ _ _ _ _ _ _ _ _ _ _) as [s1 res] eqn:Eh.
  apply host_publish_authorized in Eh; [|done]. simpl in Eh.
  destruct (Eh key) as [Hrow Him].
  intros Heq. assert (s' = s1) as -> by (destruct res as [[[? ?] ?]|[? ?]]; by injection Heq as <- _).
  split; [|done]. destruct Hrow as [Hrow|(q & row & -> & Hf & Hmay & Hrow & Hsha & Hby & _)]; [by left|right].
  exists a, q, row. unfold fr_name. rewrite <- Hf. by repeat (split; [done|]).
Qed.

(** Bindings that look at neither the issuer nor the ref of an identity. *)
Definition crossing (e : Engine) : Prop :=
  forall b, b ∈ bindings e -> m_issuer (binding_match b) = "" /\ m_ref (binding_match b) = "".


(** ** A home site *)

Module Demo.
(** A module that stages the body and publishes it as one coordinate, the
    version taken from the path. *)
Definition request (f : Feed) (r : HttpReq) : PublishRequest :=
  mkPublish f (mkCoord "maven" "lib" (trim_prefix (rq_path r) "/")) (trim_prefix (rq_path r) "/")
    (toy_sha256 (rq_body r)) (Z.of_nat (String.length (rq_body r))) ∅ "" false None.
Definition hoster : Hoster :=
  mkHoster false
    (fun f r => BlobPut (blobKey (toy_sha256 (rq_body r))) (rq_body r) no_opts (fun e =>
       match e with
       | Some e => Ret (Err (e, ""))
       | None => CorePublish (request f r) (fun x =>
           Ret (match x with Ok _ => Ok (0, ∅, "") | Err e => Err e end))
       end))
    (fun f => CoreManifests f "" (fun x => CorePutIndex f "index" "" (fun e => Ret e))).
#[global] Instance laws : HosterLaws hoster.
Proof.
  split; [|by intros f ? ?]. intros f r [e|]; [done|]. by split.
Qed.
Definition feed : feedRuntime (St := FS) (Ctx := unit) (Ps := unit) :=
  mkFeedRt (mkFeed "releases" true) Server.Demo.module [] false true false false.
Definition home : pubRuntime := mkPubRt feed (Config.mkPP "" true false) (Some hoster).
(** Publication for the projects of a team, refused from feature branches. *)
Definition engine : Engine :=
  engine_of [mkPolicy "write" [mkRule "feed/releases/*" [CapPublish] "write"];
             mkPolicy "frozen" [mkRule "feed/releases/*" [CapDeny] "frozen"]]
            [mkBinding "team" ["write"] (mkMatch "oidc" "" "" "acme/*" "" true);
             mkBinding "branches" ["frozen"] (mkMatch "oidc" "" "" "" "feature/*" true)].
Definition open_engine : Engine :=
  engine_of [mkPolicy "write" [mkRule "feed/releases/*" [CapPublish] "write"]]
            [mkBinding "team" ["write"] (mkMatch "oidc" "" "" "acme/*" "" true)].
Definition dev (ref : string) : Identity := mkIdentity "oidc" "dev" "https://gitlab" "acme/lib" ref.
Definition env (id : Identity) : ReqEnv (Ctx := unit) (As := unit) :=
  mkEnv 100 tt (fun _ st => (st, Ok (Auth.mkAuthed id false))) (fun _ _ => Some None) None.
Definition start : Site (St := FS) (Ps := unit) (As := unit) := mkSite Server.Demo.start (Some empty_db).
Definition put : HttpReq := mkHttp "PUT" "/1.0" ∅ "body" "".
Definition list_none (prefix : string) (st : FS) : result api_error (list (string * Z)) :=
  Ok ((fun k => (k, 0)) <$> fs_list prefix st).
Definition local (e : Engine) (id : Identity) :=
  publishHandler PipelineDemo.digest list_none (fun _ => "") "a" e (env id) true true None home hoster put start.
Definition from_peer (e : Engine) (id : Identity) :=
  forwarded PipelineDemo.digest list_none (fun _ => "") "a" e (env id) true true {[ "releases" := home ]}
    "releases" "1.0" "PUT" "body" ∅ id start.
End Demo.

Lemma publish_authorized_witness :
  let '(s', resp) := Demo.local Demo.engine (Demo.dev "main") in
  status_of resp = 201
  /\ exists q row, may_commit Demo.engine (Demo.env (Demo.dev "main")) Demo.feed (Demo.dev "main") q
       /\ row_at (si_db s') ("releases", "1.0") = Some row /\ h_published_by row = "oidc:dev".
Proof.
  destruct (Demo.local Demo.engine (Demo.dev "main")) as [s' resp] eqn:E.
  assert (status_of resp = 201 /\ exists row, row_at (si_db s') ("releases", "1.0") = Some row) as [Hst (row & Hrow)].
  { assert (s' = (Demo.local Demo.engine (Demo.dev "main")).1 /\ resp = (Demo.local Demo.engine (Demo.dev "main")).2)
      as [-> ->] by by rewrite E.
    split; [vm_compute; reflexivity|]. eexists. vm_compute. reflexivity. }
  split; [exact Hst|].
  destruct (publish_authorized PipelineDemo.digest Demo.list_none (fun _ => "") "a" Demo.engine
    (Demo.env (Demo.dev "main")) true true Demo.hoster None Demo.home Demo.put Demo.start s' resp ("releases", "1.0") E)
    as [[Hsame|(a & q & row' & Ha & _ & _ & _ & _ & Hm & Hr & _ & Hby)] _].
  - rewrite Hrow in Hsame. vm_compute in Hsame. discriminate.
  - injection Ha as <-. exists q, row'. split; [exact Hm|]. split; [exact Hr|exact Hby].
Defined.


(** Issuer and ref do not travel with a forwarded write, so a rule that denies
    by them does not hold at the home site: the same caller, refused when
    publishing there directly, publishes by going through another site. *)
Theorem forwarding_drops_ref :
  let direct := Demo.local Demo.engine (Demo.dev "feature/x") in
  let through := Demo.from_peer Demo.engine (Demo.dev "feature/x") in
  status_of direct.2 = 403 /\ row_at (si_db direct.1) ("releases", "1.0") = None
  /\ through.2.1.1 = 201 /\ is_Some (row_at (si_db through.1) ("releases", "1.0")).
Proof. split_and!; [vm_compute; reflexivity..|]. eexists. vm_compute. reflexivity. Qed.

(** The home site's handler refuses a forwarded write at the feed's root. *)
Theorem forwarding_refuses_root :
  (forwarded PipelineDemo.digest Demo.list_none (fun _ => "") "a" Demo.open_engine (Demo.env (Demo.dev "main")) true true
     {[ "releases" := Demo.home ]} "releases" (trim_prefix "/" "/") "PUT" "body" ∅ (Demo.dev "main") Demo.start).2.1.1 = 400.
Proof. vm_compute. reflexivity. Qed.
End WriteRoutes.
