(* ===== verification/Runtime.v ===== *)
(** * Building what is served ([core/server/server.go], [group.go])

    From a configuration document to the running feeds: the semantic checks
    the configuration manager is given ([ValidateConfig]), the construction of
    the leaf feeds ([buildRuntime]) and of the groups ([mountGroups]), and the
    handlers of protocols that route themselves ([mountRoutedFeeds]). The
    registered formats are a table of modules with their capabilities. Routers
    and background work are not modelled. *)

From S2P Require Import Prelude GoLib Access State Store Pipeline Publisher Policies Auth Config ConfigManager Server WriteRoutes.
Open Scope Z_scope.

Module Runtime.
Import Config Server WriteRoutes.

Section runtime.
Context {St Ctx Ps : Type}.

(** A registered format: the module, whether it hosts, its check of all its
    feeds together (with the site's URL) and its routing by path. *)
Record format := mkFormat {
  fo_module : FormatModule St;
  fo_hoster : option Hoster;
  fo_feedset : option (list FeedConfig -> string -> bool);
}.

(** What is registered, whether the storage can pre-sign, [url.Parse]. *)
Context (formats : gmap string format) (policies : Policies.registry (Ctx := Ctx) (St := Ps)).
Context (presigns : bool) (url_ok : string -> bool).

Definition reservedPrefixes : list string := ["api"; "ui"].

(** [ValidateConfig], one feed. *)
Definition validate_feed (fc : FeedConfig) : list string :=
  (if decide (fc_format fc ∈ reservedPrefixes) then ["format is reserved"] else [])
  ++ (if decide (fc_name fc ∈ reservedPrefixes) then ["name is reserved"] else [])
  ++ (if decide (formats !! fc_format fc = None) then ["format is not registered"] else [])
  ++ (match Policies.NewChain policies (fc_policies fc) with Ok _ => [] | Err _ => ["policies"] end)
  ++ (if url_ok (fc_upstream fc) then [] else ["upstream"])
  ++ (match formats !! fc_format fc with
      | Some fo => if fc_hosted fc && bool_decide (fo_hoster fo = None) then ["format cannot host packages"] else []
      | None => []
      end)
  ++ (match Auth.NewPublishers 0 (fc_publishers fc) with Ok _ => [] | Err _ => ["publishers"] end).

Definition external_url (c : Config) : string := trim_suffix (site_external_url (cfg_site c)) "/".

Definition ValidateConfig (c : Config) : list string :=
  mjoin (map validate_feed (cfg_feeds c))
  ++ mjoin (map (fun kv => match fo_feedset kv.2 with
                           | Some ok => let feeds := filter (fun fc => fc_format fc = kv.1) (cfg_feeds c) in
                                        if bool_decide (feeds = []) || ok feeds (external_url c) then []
                                        else ["format refuses its feeds"]
                           | None => []
                           end) (map_to_list formats)).

(** The feeds selected from a list, built one after the other, by name; the
    first that fails ends the construction. *)
Fixpoint build_each {B} (sel : FeedConfig -> bool) (build : FeedConfig -> result string B)
  (fcs : list FeedConfig) (acc : gmap string B) : result string (gmap string B) :=
  match fcs with
  | [] => Ok acc
  | fc :: rest =>
      if sel fc then let? b := build fc in build_each sel build rest (<[fc_name fc := b]> acc)
      else build_each sel build rest acc
  end.

(** [FeedConfig.API]: what of a declaration the modules are shown. *)
Definition API (fc : FeedConfig) : Feed := mkFeed (fc_name fc) (fc_hosted fc).

(** One leaf feed of [buildRuntime]. *)
Definition build_leaf (c : Config) (fc : FeedConfig) : result string (pubRuntime (St := St) (Ctx := Ctx) (Ps := Ps)) :=
  match formats !! fc_format fc with
  | None => Err "format is not registered"
  | Some fo =>
      match Policies.NewChain policies (fc_policies fc) with
      | Err _ => Err "policies"
      | Ok chain =>
          match Auth.NewPublishers 0 (fc_publishers fc) with
          | Err _ => Err "publishers"
          | Ok _ =>
              if bool_decide (fc_upstream fc <> "") && negb (url_ok (fc_upstream fc)) then Err "upstream" else
              let redirect := fc_redirect fc && presigns && bool_decide (fm_redirect_safe (fo_module fo) <> None) in
              let fr := mkFeedRt (API fc) (fo_module fo) chain (bool_decide (fc_upstream fc <> "")) (fc_hosted fc)
                          redirect (fc_peer_fallback fc) in
              Ok (mkPubRt fr (Publish fc (site_name (cfg_site c))) (if fc_hosted fc then fo_hoster fo else None))
          end
      end
  end.

(** One group of [mountGroups], over the leaves. *)
Definition build_group (c : Config) (leaves : gmap string (pubRuntime (St := St) (Ctx := Ctx) (Ps := Ps)))
  (fc : FeedConfig) : result string (groupRuntime (St := St) (Ctx := Ctx) (Ps := Ps)) :=
  match formats !! fc_format fc with
  | None => Err "format is not registered"
  | Some fo =>
      match Policies.NewChain policies (fc_policies fc) with
      | Err _ => Err "policies"
      | Ok chain =>
          match resolveMembers walk_fuel (specs_of c) (fun n => bool_decide (is_Some (leaves !! n))) (fc_name fc) [] [] with
          | None => Err "groups nest for ever"
          | Some (_, names) =>
              match omap (fun n => pu_feed <$> leaves !! n) names with
              | [] => Err "none of its members resolve to a servable feed"
              | members => Ok (mkGroupRt (mkFeedRt (API fc) (fo_module fo) chain false false false false) members)
              end
          end
      end
  end.

Record runtime := mkRuntime {
  rt_access : Engine;
  rt_leaves : gmap string (pubRuntime (St := St) (Ctx := Ctx) (Ps := Ps));
  rt_groups : gmap string (groupRuntime (St := St) (Ctx := Ctx) (Ps := Ps));
}.

(** [buildRuntime]. *)
Definition buildRuntime (c : Config) : result string runtime :=
  match AccessEngine c with
  | Err _ => Err "access rules"
  | Ok engine =>
      let? leaves := build_each (fun fc => negb (IsGroup fc)) (build_leaf c) (cfg_feeds c) ∅ in
      let? groups := build_each IsGroup (build_group c leaves) (cfg_feeds c) ∅ in
      Ok (mkRuntime engine leaves groups)
  end.

(** The subscription of [New]: a snapshot that cannot be built leaves the
    runtime as it is. *)
Definition apply_snapshot (c : Config) (rt : runtime) : runtime :=
  match buildRuntime c with Ok next => next | Err _ => rt end.

(** [EagerFeed], [PublishableFeeds]. *)
Definition EagerFeed (c : Config) (name : string) : bool :=
  match list_find (fun fc => fc_name fc = name) (cfg_feeds c) with
  | Some (_, fc) => bool_decide (fc_replication_mode fc = "eager")
  | None => false
  end.
Definition PublishableFeeds (rt : runtime) (id : Identity) : list string :=
  sort_strings (filter (fun n => mayPublishSomething (rt_access rt) id n = true)
    ((map_to_list (rt_leaves rt)).*1 ++ (map_to_list (rt_groups rt)).*1)).

(** *** Construction *)

Lemma build_each_ok {B} sel (build : FeedConfig -> result string B) fcs acc :
  NoDup (map fc_name fcs) -> (forall fc, fc ∈ fcs -> sel fc = true -> exists b, build fc = Ok b) ->
  exists m, build_each sel build fcs acc = Ok m
    /\ (forall fc, fc ∈ fcs -> sel fc = true -> exists b, build fc = Ok b /\ m !! fc_name fc = Some b)
    /\ (forall n, (forall fc, fc ∈ fcs -> sel fc = true -> fc_name fc <> n) -> m !! n = acc !! n).
Proof.
  revert acc. induction fcs as [|fc fcs IH]; intros acc Hnd Hb; cbn [build_each].
  { exists acc. split; [done|]. split; [|done]. by intros fc ?%not_elem_of_nil. }
  apply NoDup_cons in Hnd as [Hni Hnd]. destruct (sel fc) eqn:Es.
  - destruct (Hb fc) as [b Eb]; [apply list_elem_of_here|done|]. rewrite Eb. cbn [rbind].
    destruct (IH (<[fc_name fc := b]> acc)) as (m & Hm & Hin & Hout); [done|intros; apply Hb; [by right|done]|].
    exists m. split; [done|]. split.
    + intros f [->|Hf]%elem_of_cons Hs; [|by apply Hin]. exists b. split; [done|]. rewrite Hout, lookup_insert_eq; [done|].
      intros g Hg _ Heq. apply Hni. rewrite <- Heq. by apply list_elem_of_fmap_2.
    + intros n Hn. rewrite Hout by (intros; apply Hn; [by right|done]).
      apply lookup_insert_ne. apply Hn; [apply list_elem_of_here|done].
  - destruct (IH acc) as (m & Hm & Hin & Hout); [done|intros; apply Hb; [by right|done]|].
    exists m. split; [done|]. split.
    + intros f [->|Hf]%elem_of_cons Hs; [congruence|by apply Hin].
    + intros n Hn. apply Hout. intros; apply Hn; [by right|done].
Qed.

Lemma validate_feed_ok c fc :
  ValidateConfig c = [] -> fc ∈ cfg_feeds c ->
  exists fo chain ps, formats !! fc_format fc = Some fo /\ Policies.NewChain policies (fc_policies fc) = Ok chain
    /\ Auth.NewPublishers 0 (fc_publishers fc) = Ok ps /\ url_ok (fc_upstream fc) = true
    /\ (fc_hosted fc = true -> fo_hoster fo <> None).
Proof.
  intros [Hv _]%app_eq_nil Hin.
  assert (validate_feed fc = []) as H.
  { revert Hv. generalize (cfg_feeds c), Hin. clear. induction 1 as [l|y l Hl IH]; simpl; intros [H1 H2]%app_eq_nil; auto. }
  unfold validate_feed in H. repeat (apply app_eq_nil in H as [? H]).
  destruct (formats !! fc_format fc) as [fo|]; [|by rewrite decide_True in *].
  destruct (Policies.NewChain policies (fc_policies fc)) as [chain|]; [|done].
  destruct (Auth.NewPublishers 0 (fc_publishers fc)) as [ps|]; [|done].
  destruct (url_ok (fc_upstream fc)); [|done].
  exists fo, chain, ps. repeat (split; [done|]). intros Hh Hn. rewrite Hh, bool_decide_true in * by done. done.
Qed.

Lemma build_leaf_ok c fc :
  ValidateConfig c = [] -> fc ∈ cfg_feeds c ->
  exists pu, build_leaf c fc = Ok pu /\ fr_feed (pu_feed pu) = API fc /\ pu_policy pu = Publish fc (site_name (cfg_site c))
    /\ Policies.NewChain policies (fc_policies fc) = Ok (fr_chain (pu_feed pu))
    /\ fo_module <$> formats !! fc_format fc = Some (fr_module (pu_feed pu))
    /\ fr_hosted (pu_feed pu) = fc_hosted fc /\ (fc_hosted fc = true -> is_Some (pu_hoster pu)).
Proof.
  intros Hv Hin. destruct (validate_feed_ok c fc Hv Hin) as (fo & chain & ps & Hfo & Hch & Hps & Hu & Hho).
  unfold build_leaf. rewrite Hfo, Hch, Hps, Hu, andb_false_r. eexists. split; [reflexivity|].
  repeat (split; [done|]). simpl. intros Hh. rewrite Hh. destruct (fo_hoster fo); [eauto|by destruct Hho].
Qed.

Lemma leaves_of c (leaves : gmap string (pubRuntime (St := St) (Ctx := Ctx) (Ps := Ps))) :
  (forall fc, fc ∈ cfg_feeds c -> negb (IsGroup fc) = true -> exists b, build_leaf c fc = Ok b /\ leaves !! fc_name fc = Some b) ->
  (forall n, (forall fc, fc ∈ cfg_feeds c -> negb (IsGroup fc) = true -> fc_name fc <> n) -> leaves !! n = None) ->
  forall n, bool_decide (is_Some (leaves !! n)) = leaf_of c n.
Proof.
  intros Hin Hout n. unfold leaf_of. destruct (existsb _ _) eqn:E.
  - apply existsb_exists in E as (fc & Hfc & [Hg Hn]%andb_prop). apply bool_decide_eq_true in Hn as <-.
    apply list_elem_of_In in Hfc. destruct (Hin fc Hfc Hg) as (b & _ & ->). by apply bool_decide_eq_true.
  - rewrite Hout; [by apply bool_decide_eq_false; intros []|]. intros fc Hfc Hg <-.
    assert (existsb (fun f => negb (IsGroup f) && bool_decide (fc_name f = fc_name fc)) (cfg_feeds c) = true) as Ht;
      [|by rewrite Ht in E]. apply existsb_exists. exists fc. split; [by apply list_elem_of_In|].
    rewrite Hg. by apply bool_decide_eq_true.
Qed.

(** The feeds of a list of leaf names. *)
Lemma members_of (leaves : gmap string (pubRuntime (St := St) (Ctx := Ctx) (Ps := Ps))) names :
  (forall n, n ∈ names -> exists pu, leaves !! n = Some pu /\ fr_name (pu_feed pu) = n) ->
  map fr_name (omap (fun n => pu_feed <$> leaves !! n) names) = names.
Proof.
  induction names as [|n names IH]; [done|]. intros H. cbn [omap list_omap].
  destruct (H n) as (pu & Hn & Hname); [apply list_elem_of_here|]. rewrite Hn. cbn [fmap option_fmap option_map map].
  rewrite Hname. f_equal. apply IH. intros x Hx. apply H. by right.
Qed.

Lemma build_group_ok url hp fe mg c (leaves : gmap string (pubRuntime (St := St) (Ctx := Ctx) (Ps := Ps))) fc :
  Validate url hp fe mg c = [] -> ValidateConfig c = [] -> fc ∈ cfg_feeds c -> IsGroup fc = true ->
  (forall fc, fc ∈ cfg_feeds c -> negb (IsGroup fc) = true ->
     exists b, build_leaf c fc = Ok b /\ leaves !! fc_name fc = Some b) ->
  (forall n, (forall fc, fc ∈ cfg_feeds c -> negb (IsGroup fc) = true -> fc_name fc <> n) -> leaves !! n = None) ->
  exists g, build_group c leaves fc = Ok g /\ gr_name g = fc_name fc
    /\ Policies.NewChain policies (fc_policies fc) = Ok (fr_chain (gr_self g))
    /\ gr_members g <> [] /\ NoDup (map fr_name (gr_members g))
    /\ (forall n, n ∈ map fr_name (gr_members g) <-> reaches (specs_of c) (leaf_of c) (fc_name fc) n)
    /\ (forall m, m ∈ gr_members g -> exists pu, leaves !! fr_name m = Some pu /\ m = pu_feed pu).
Proof.
  intros Hv Hvc Hin Hg Hlin Hlout.
  destruct (flatten_valid url hp fe mg c fc 0 Hv Hin Hg) as (seen & names & Hr & Hnd & Hreach & Hleaf).
  destruct (group_nonempty url hp fe mg c fc Hv Hin Hg) as [x0 Hx0].
  destruct (validate_feed_ok c fc Hvc Hin) as (fo & chain & ps & Hfo & Hch & _).
  unfold build_group. rewrite Hfo, Hch, (resolve_ext _ _ _ (leaf_of c)) by (by apply leaves_of).
  cbn [Nat.add] in Hr. rewrite Hr.
  assert (forall n, n ∈ names -> exists pu, leaves !! n = Some pu /\ fr_name (pu_feed pu) = n) as Hall.
  { intros n Hn. destruct (Hleaf n Hn) as (fx & Hfx & <- & Hgx & _).
    destruct (Hlin fx Hfx) as (b & Hb & Hlb); [by rewrite Hgx|]. exists b. split; [done|].
    destruct (build_leaf_ok c fx Hvc Hfx) as (pu & Hpu & Hf & _). rewrite Hb in Hpu. injection Hpu as ->.
    unfold fr_name. by rewrite Hf. }
  pose proof (members_of leaves names Hall) as Hnames.
  destruct (omap _ names) as [|m0 ms] eqn:Em.
  { exfalso. apply Hreach in Hx0. rewrite <- Hnames in Hx0. by apply not_elem_of_nil in Hx0. }
  eexists. split; [reflexivity|]. split; [done|]. split; [done|]. cbn [gr_members]. split; [done|].
  rewrite Hnames. split; [done|]. split; [done|]. intros m Hm. rewrite <- Em in Hm.
  apply list_elem_of_omap in Hm as (n & Hn & Hx). destruct (Hall n Hn) as (pu & Hpu & Hname).
  rewrite Hpu in Hx. injection Hx as <-. exists pu. by rewrite Hname.
Qed.
End runtime.

(** C33. A document that passes the checks can always be served: the runtime is
    built, under the document's own access rules; every leaf feed is there
    under its name with its format's module, its own policy chain and its
    publishing policy, and takes writes exactly when it is hosted; every group
    has members, the leaf feeds it reaches, each once; and nothing else is
    served. A configuration change that validates is therefore applied. *)
Theorem validated_is_served {St Ctx Ps} (formats : gmap string (format (St := St)))
  (policies : Policies.registry (Ctx := Ctx) (St := Ps)) presigns url_ok url hp fe mg c rt0 :
  Validate url hp fe mg c = [] -> ValidateConfig formats policies url_ok c = [] ->
  let rt := apply_snapshot formats policies presigns url_ok c rt0 in
  buildRuntime formats policies presigns url_ok c = Ok rt /\ AccessEngine c = Ok (rt_access rt)
  /\ (forall fc, fc ∈ cfg_feeds c -> IsGroup fc = false ->
        exists pu, rt_leaves rt !! fc_name fc = Some pu /\ fr_name (pu_feed pu) = fc_name fc
          /\ fo_module <$> formats !! fc_format fc = Some (fr_module (pu_feed pu))
          /\ Policies.NewChain policies (fc_policies fc) = Ok (fr_chain (pu_feed pu))
          /\ pu_policy pu = Publish fc (site_name (cfg_site c))
          /\ fr_hosted (pu_feed pu) = fc_hosted fc /\ (fc_hosted fc = true -> is_Some (pu_hoster pu)))
  /\ (forall fc, fc ∈ cfg_feeds c -> IsGroup fc = true ->
        exists g, rt_groups rt !! fc_name fc = Some g /\ gr_name g = fc_name fc /\ gr_members g <> []
          /\ NoDup (map fr_name (gr_members g))
          /\ (forall n, n ∈ map fr_name (gr_members g) <-> reaches (specs_of c) (leaf_of c) (fc_name fc) n)
          /\ (forall m, m ∈ gr_members g -> exists pu, rt_leaves rt !! fr_name m = Some pu /\ m = pu_feed pu))
  /\ (forall n, n ∉ map fc_name (cfg_feeds c) -> rt_leaves rt !! n = None /\ rt_groups rt !! n = None).
Proof.
  intros Hv Hvc. destruct (valid_parts _ _ _ _ _ Hv) as (Hnd & _ & _ & _ & e & He).
  destruct (build_each_ok (fun fc => negb (IsGroup fc)) (build_leaf formats policies presigns url_ok c) (cfg_feeds c) ∅ Hnd)
    as (leaves & Hl & Hlin & Hlout).
  { intros fc Hin _. destruct (build_leaf_ok formats policies presigns url_ok c fc Hvc Hin) as (pu & Hpu & _). eauto. }
  destruct (build_each_ok IsGroup (build_group formats policies c leaves) (cfg_feeds c) ∅ Hnd)
    as (groups & Hgr & Hgin & Hgout).
  { intros fc Hin Hg. destruct (build_group_ok formats policies presigns url_ok url hp fe mg c leaves fc) as (g & Hb & _);
      [done..|intros n Hn; by rewrite Hlout|]. eauto. }
  assert (buildRuntime formats policies presigns url_ok c = Ok (mkRuntime e leaves groups)) as Hb
    by (unfold buildRuntime; rewrite He, Hl; cbn [rbind]; by rewrite Hgr).
  unfold apply_snapshot. rewrite Hb. cbv zeta. split; [done|]. split; [done|]. split; [|split].
  - intros fc Hin Hg. destruct (Hlin fc Hin) as (pu & Hpu & Hlk); [by rewrite Hg|]. exists pu. split; [done|].
    destruct (build_leaf_ok formats policies presigns url_ok c fc Hvc Hin) as (pu' & Hpu' & Hf & Hpp & Hch & Hmo & Hho).
    rewrite Hpu in Hpu'. injection Hpu' as <-. unfold fr_name. rewrite Hf. by repeat (split; [done|]).
  - intros fc Hin Hg. destruct (Hgin fc Hin Hg) as (g & Hbg & Hlk). exists g. split; [done|].
    destruct (build_group_ok formats policies presigns url_ok url hp fe mg c leaves fc) as (g' & Hb' & Hn & _ & Hrest);
      [done..|intros n Hn; by rewrite Hlout|]. rewrite Hbg in Hb'. injection Hb' as <-. done.
  - intros n Hn. cbn [rt_leaves rt_groups]. rewrite Hlout, Hgout; [done|..];
      intros fc Hin _ <-; apply Hn; by apply list_elem_of_fmap_2.
Qed.

Module Demo.
Definition formats : gmap string (format (St := FS)) :=
  {[ "npm" := mkFormat Server.Demo.module (Some WriteRoutes.Demo.hoster) None ]}.
Definition policies : Policies.registry (Ctx := Policies.PolicyCtx) (St := Policies.Osv.State) := Policies.builtin true.
Definition empty : runtime (St := FS) (Ctx := Policies.PolicyCtx) (Ps := Policies.Osv.State) :=
  mkRuntime (mkEngine ∅ []) ∅ ∅.
End Demo.

Lemma validated_is_served_witness :
  let rt := apply_snapshot Demo.formats Demo.policies false (fun _ => true) Config.Demo.doc Demo.empty in
  exists g, rt_groups rt !! "all" = Some g /\ gr_members g <> []
    /\ (forall n, n ∈ map fr_name (gr_members g) <->
          reaches (specs_of Config.Demo.doc) (leaf_of Config.Demo.doc) "all" n).
Proof.
  destruct (validated_is_served Demo.formats Demo.policies false (fun _ => true) Config.Demo.url (fun _ => true)
    (fun _ => true) (fun _ => Some true) Config.Demo.doc Demo.empty) as (_ & _ & _ & Hg & _);
    [by vm_compute|by vm_compute|].
  destruct (Hg Config.Demo.outer) as (g & H1 & _ & H2 & _ & H3 & _);
    [do 3 apply list_elem_of_further; apply list_elem_of_here|reflexivity|].
  exists g. split; [exact H1|]. split; [exact H2|exact H3].
Defined.
End Runtime.
