(* ===== verification/ModLib.v ===== *)
(** * What the format modules share

    Sorting and map iteration as Go defines them (any permutation that is
    ordered when the order is one; any order at all), so that theorems about
    generated indexes hold for every run; writing a list of index documents;
    XML text; a few library functions. *)

From S2P Require Import Prelude GoLib Store Listing Pipeline Publisher Server WriteRoutes.
From Stdlib Require Import Sorting.Sorted.
Import Server WriteRoutes.
Open Scope Z_scope.

(** ** Order of execution *)

(** [less] orders the elements of a list strictly and totally. *)
Record total_less {A} (less : A -> A -> bool) (l : list A) : Prop := {
  tl_trans : forall x y z, x ∈ l -> y ∈ l -> z ∈ l -> less x y = true -> less y z = true -> less x z = true;
  tl_irrefl : forall x, x ∈ l -> less x x = false;
  tl_total : forall x y, x ∈ l -> y ∈ l -> less x y = false -> less y x = false -> x = y;
}.

(** No element is less than one before it. *)
Notation ascending less := (StronglySorted (fun x y => less y x = false)).

(** A Go process: the order in which it visits the keys of a map, and what its
    sort does with a list ([sort.Sort] is not stable, and promises an ordered
    result only for an order). *)
Class GoRuntime := {
  visit : forall {A}, list A -> list A;
  gosort : forall {A}, (A -> A -> bool) -> list A -> list A;
  visit_perm : forall A (l : list A), visit l ≡ₚ l;
  gosort_perm : forall A less (l : list A), gosort less l ≡ₚ l;
  gosort_sorted : forall A less (l : list A), total_less less l -> ascending less (gosort less l);
}.

(** Two ascending orders of the same elements are the same. *)
Lemma sorted_unique {A} (less : A -> A -> bool) (l1 l2 : list A) :
  total_less less l1 -> l1 ≡ₚ l2 -> ascending less l1 -> ascending less l2 -> l1 = l2.
Proof.
  revert l2. induction l1 as [|x l1 IH]; intros l2 Ht Hp S1 S2.
  { by apply Permutation_nil in Hp as ->. }
  destruct l2 as [|y l2]; [by apply Permutation_sym, Permutation_nil in Hp|].
  apply StronglySorted_inv in S1 as [S1 F1]. apply StronglySorted_inv in S2 as [S2 F2].
  rewrite List.Forall_forall in F1, F2. setoid_rewrite <-list_elem_of_In in F1. setoid_rewrite <-list_elem_of_In in F2.
  assert (x = y) as ->.
  { assert (x ∈ y :: l2) as Hx by (rewrite <-Hp; by left). assert (y ∈ x :: l1) as Hy by (rewrite Hp; by left).
    apply elem_of_cons in Hx as [|Hx]; [done|]. apply elem_of_cons in Hy as [|Hy]; [done|].
    apply (tl_total _ _ Ht); [by left|by right|by apply F2|by apply F1]. }
  f_equal. apply Permutation_cons_inv in Hp. apply IH; [|done..].
  destruct Ht as [T I To]. split; intros; [eapply (T x y0)|apply I|apply To]; try done; by right.
Qed.

Lemma total_less_perm {A} (less : A -> A -> bool) l l' : l ≡ₚ l' -> total_less less l -> total_less less l'.
Proof.
  intros Hp [T I To]. split; intros.
  - eapply (T x y); try done; by rewrite Hp.
  - apply I. by rewrite Hp.
  - apply To; try done; by rewrite Hp.
Qed.

(** Whatever the process, sorting the same elements by an order gives the same list. *)
Lemma gosort_same {A} (G1 G2 : GoRuntime) (less : A -> A -> bool) l1 l2 :
  total_less less l1 -> l1 ≡ₚ l2 ->
  @gosort G1 A less l1 = @gosort G2 A less l2.
Proof.
  intros Ht Hp. pose proof (@gosort_perm G1 A less l1) as P1. pose proof (@gosort_perm G2 A less l2) as P2.
  apply (sorted_unique less).
  - by apply (total_less_perm less l1).
  - by rewrite P1, P2.
  - by apply (@gosort_sorted G1).
  - apply (@gosort_sorted G2). by apply (total_less_perm less l1).
Qed.

(** *** Orders on a whole type *)

Record strict_total {A} (less : A -> A -> bool) : Prop := {
  st_trans : forall x y z, less x y = true -> less y z = true -> less x z = true;
  st_irrefl : forall x, less x x = false;
  st_total : forall x y, less x y = false -> less y x = false -> x = y;
}.
Lemma strict_total_less {A} (less : A -> A -> bool) l : strict_total less -> total_less less l.
Proof. intros [T I To]. split; eauto. Qed.
Lemma str_ltb_total : strict_total str_ltb.
Proof.
  split.
  - intros x y z. rewrite !str_ltb_lt. apply str_lt_trans.
  - intros x. apply str_ltb_ge, str_lt_irrefl.
  - intros x y. rewrite !str_ltb_ge. destruct (str_lt_total x y) as [?|[?|?]]; naive_solver.
Qed.
Lemma Z_ltb_total : strict_total Z.ltb.
Proof. split; intros; lia. Qed.
(** Lexicographic order by two keys that determine the element. *)
Lemma lex_total {A B C} `{EqDecision B} (f : A -> B) (g : A -> C) lessB lessC :
  strict_total lessB -> strict_total lessC -> (forall x y, f x = f y -> g x = g y -> x = y) ->
  strict_total (fun a b => if decide (f a = f b) then lessC (g a) (g b) else lessB (f a) (f b)).
Proof.
  intros [TB IB ToB] [TC IC ToC] Hinj. split.
  - intros x y z. destruct (decide (f x = f y)) as [E1|E1], (decide (f y = f z)) as [E2|E2]; intros L1 L2.
    + rewrite decide_True by congruence. eauto.
    + rewrite decide_False by congruence. congruence.
    + rewrite decide_False by congruence. congruence.
    + assert (lessB (f x) (f z) = true) as L by eauto. rewrite decide_False; [done|].
      intros E. rewrite E, IB in L. discriminate L.
  - intros x. by rewrite decide_True.
  - intros x y. destruct (decide (f x = f y)) as [E|E].
    + rewrite decide_True by done. auto.
    + rewrite decide_False by congruence. intros L1 L2. by destruct E; apply ToB.
Qed.
#[export] Hint Resolve str_ltb_total Z_ltb_total : fondaco.

(** The same elements without duplicates, in any order of visiting. *)
Lemma visit_same {A} `{EqDecision A} (G1 G2 : GoRuntime) (l1 l2 : list A) :
  l1 ≡ₚ l2 -> @visit G1 A (remove_dups l1) ≡ₚ @visit G2 A (remove_dups l2).
Proof.
  intros Hp. rewrite !visit_perm. apply NoDup_Permutation; [apply NoDup_remove_dups..|].
  intros x. by rewrite !elem_of_remove_dups, Hp.
Qed.

(** Go sorts short slices by insertion; ties keep their order. *)
Section insertion.
Context {A : Type} (less : A -> A -> bool).
Fixpoint insert_sorted (x : A) (l : list A) : list A :=
  match l with
  | [] => [x]
  | y :: l' => if less x y then x :: l else y :: insert_sorted x l'
  end.
(** The slice is extended from the left: each element moves left past greater ones. *)
Definition insertion_sort (l : list A) : list A := foldl (fun acc x => insert_sorted x acc) [] l.

Lemma insert_sorted_perm x l : insert_sorted x l ≡ₚ x :: l.
Proof.
  induction l as [|y l IH]; [done|]. simpl. destruct (less x y); [done|]. rewrite IH. apply Permutation_swap.
Qed.
Lemma insertion_sort_perm l : insertion_sort l ≡ₚ l.
Proof.
  unfold insertion_sort. assert (forall acc, foldl (fun acc x => insert_sorted x acc) acc l ≡ₚ acc ++ l) as H; [|by apply H].
  induction l as [|x l IH]; intros acc; simpl; [by rewrite app_nil_r|]. rewrite IH, insert_sorted_perm.
  simpl. by rewrite Permutation_middle.
Qed.
Lemma insert_sorted_sorted x l :
  total_less less (x :: l) -> ascending less l -> ascending less (insert_sorted x l).
Proof.
  intros Ht Hs. induction Hs as [|y l Hs IH Hall]; simpl; [repeat constructor|].
  rewrite List.Forall_forall in Hall. setoid_rewrite <-list_elem_of_In in Hall.
  assert (total_less less (x :: l)) as Ht'.
  { destruct Ht as [T I To]. split; intros; [eapply (T x0 y0)|apply I|apply To]; try done; set_solver. }
  destruct (less x y) eqn:E.
  - constructor; [by constructor; [done|]; apply List.Forall_forall; setoid_rewrite <-list_elem_of_In|].
    apply List.Forall_forall. intros z Hz%list_elem_of_In. apply not_true_iff_false. intros Hzx.
    assert (less z y = true) as Hzy by (eapply (tl_trans _ _ Ht z x y); set_solver).
    apply elem_of_cons in Hz as [->|Hz]; [rewrite (tl_irrefl _ _ Ht) in Hzy; set_solver|].
    rewrite Hall in Hzy by done. discriminate Hzy.
  - constructor; [by apply IH|]. apply List.Forall_forall. intros z Hz%list_elem_of_In.
    rewrite insert_sorted_perm in Hz. apply elem_of_cons in Hz as [->|Hz]; [done|by apply Hall].
Qed.
Lemma insertion_sort_sorted l : total_less less l -> ascending less (insertion_sort l).
Proof.
  intros Ht. unfold insertion_sort.
  assert (forall acc, total_less less (acc ++ l) -> ascending less acc ->
    ascending less (foldl (fun acc x => insert_sorted x acc) acc l)) as H.
  2: { apply H; [done..|constructor]. }
  clear. induction l as [|x l IH]; intros acc Ht Hs; [done|]. simpl.
  assert (insert_sorted x acc ++ l ≡ₚ acc ++ x :: l) as Hp by (rewrite insert_sorted_perm; by rewrite <-Permutation_middle).
  apply IH; [by eapply total_less_perm; [symmetry; exact Hp|]|]. apply insert_sorted_sorted; [|done].
  destruct Ht as [T I To]. split; intros; [eapply (T x0 y)|apply I|apply To]; try done; set_solver.
Qed.
End insertion.

(** A run that visits map keys in the order given. *)
#[global] Program Instance plain_runtime : GoRuntime := {
  visit := fun _ l => l; gosort := fun _ => insertion_sort }.
Next Obligation. done. Qed.
Next Obligation. intros. apply insertion_sort_perm. Qed.
Next Obligation. intros. by apply insertion_sort_sorted. Qed.
(** And one that visits them backwards. *)
Program Definition backward_runtime : GoRuntime := {|
  visit := fun _ l => rev l; gosort := fun _ => insertion_sort |}.
Next Obligation. intros. simpl. by rewrite <-Permutation_rev. Qed.
Next Obligation. intros. apply insertion_sort_perm. Qed.
Next Obligation. intros. by apply insertion_sort_sorted. Qed.

(** ** Index documents *)

(** Writing documents one after the other, up to the first failure. *)
Fixpoint put_all (f : Feed) (docs : list (string * string)) : prog (option api_error) :=
  match docs with
  | [] => Ret None
  | (path, body) :: docs => CorePutIndex f path body (fun e => match e with
                                                              | Some e => Ret (Some e)
                                                              | None => put_all f docs
                                                              end)
  end.
Lemma put_all_publishes P f docs : publishes P (put_all f docs).
Proof. induction docs as [|[path body] docs IH]; simpl; [done|]. by intros [e|]. Qed.

(** ** Sequencing programs *)

Fixpoint pbind {A B} (p : prog A) (k : A -> prog B) : prog B :=
  match p with
  | Ret a => k a
  | BlobGet key c => BlobGet key (fun x => pbind (c x) k)
  | BlobPut key body o c => BlobPut key body o (fun x => pbind (c x) k)
  | BlobDelete key c => BlobDelete key (fun x => pbind (c x) k)
  | BlobList prefix c => BlobList prefix (fun x => pbind (c x) k)
  | CorePublish r c => CorePublish r (fun x => pbind (c x) k)
  | CoreManifests f prefix c => CoreManifests f prefix (fun x => pbind (c x) k)
  | CorePutIndex f path body c => CorePutIndex f path body (fun x => pbind (c x) k)
  end.

Lemma publishes_bind {A B} P (p : prog A) (k : A -> prog B) :
  publishes P p -> (forall a, publishes P (k a)) -> publishes P (pbind p k).
Proof. induction p; simpl; auto. intros [? ?] ?; eauto. Qed.
Lemma publishes_mono {A} (P Q : PublishRequest -> Prop) (p : prog A) :
  (forall q, P q -> Q q) -> publishes P p -> publishes Q p.
Proof. intros HPQ. induction p; simpl; eauto. intros [??]; eauto. Qed.

Section run_bind.
Context (digest : string -> string -> string) {St Ctx Ps As : Type} `{BS : !BlobStore (digest "sha256") St}.
Context (blob_list : string -> St -> result api_error (list (string * Z))) (env : ReqEnv (Ctx := Ctx) (As := As)) (db_up : bool).
Lemma run_bind {A B} pub (p : prog A) (k : A -> prog B) (w : W (St := St) (Ps := Ps)) :
  run digest blob_list env db_up pub (pbind p k) w
  = let '(w1, a) := run digest blob_list env db_up pub p w in run digest blob_list env db_up pub (k a) w1.
Proof.
  revert w. induction p as [a|key c IH|key body o c IH|key c IH|pre c IH|r c IH|f pre c IH|f path body c IH];
    intros w; simpl; [done|by rewrite IH|..].
  - destruct (Put _ _ _ _ _). by rewrite IH.
  - destruct (Delete _ _). by rewrite IH.
  - by rewrite IH.
  - destruct (pub r w). by rewrite IH.
  - by rewrite IH.
  - destruct (PutIndex _ _ _ _ _ _). by rewrite IH.
Qed.

(** What a program makes of the world, from worlds [P] holds of. *)
Context (pub : PublishRequest -> W (St := St) (Ps := Ps) -> W (St := St) (Ps := Ps) * result (api_error * string) bool).
Definition triple {A} (P : W (St := St) (Ps := Ps) -> Prop) (p : prog A) (Q : A -> W (St := St) (Ps := Ps) -> Prop) : Prop :=
  forall w w' a, P w -> run digest blob_list env db_up pub p w = (w', a) -> Q a w'.
Lemma triple_ret {A} (Q : A -> W -> Prop) a : triple (Q a) (Ret a) Q.
Proof. intros w w' b HQ [= <- <-]. done. Qed.
Lemma triple_bind {A B} P (p : prog A) (Q : A -> W -> Prop) (k : A -> prog B) R :
  triple P p Q -> (forall a, triple (Q a) (k a) R) -> triple P (pbind p k) R.
Proof.
  intros Hp Hk w w' b HP. rewrite run_bind. destruct (run _ _ _ _ _ p w) as [w1 a] eqn:E.
  apply Hk. by eapply Hp.
Qed.
Lemma triple_mono {A} (P P' : W -> Prop) (p : prog A) (Q Q' : A -> W -> Prop) :
  triple P' p Q' -> (forall w, P w -> P' w) -> (forall a w, Q' a w -> Q a w) -> triple P p Q.
Proof. intros H HP HQ w w' a Hw Hr. eapply HQ, H; [by apply HP|done]. Qed.
End run_bind.

(** Programs that stop at their first error. *)
Definition presult (A : Type) : Type := prog (result (api_error * string) A).
Definition pok {A} (a : A) : presult A := Ret (Ok a).
Definition perr {A} (e : api_error) (text : string) : presult A := Ret (Err (e, text)).
Definition ptry {A B} (p : presult A) (k : A -> presult B) : presult B :=
  pbind p (fun r => match r with Ok a => k a | Err e => Ret (Err e) end).
(** A call whose error stops the program. *)
Definition refused {A} (e : option api_error) (k : presult A) : presult A :=
  match e with Some e => perr e "" | None => k end.

Lemma publishes_try {A B} P (p : presult A) (k : A -> presult B) :
  publishes P p -> (forall a, publishes P (k a)) -> publishes P (ptry p k).
Proof. intros Hp Hk. apply publishes_bind; [done|]. by intros [a|e]; [apply Hk|]. Qed.
Lemma triple_try {St Ctx Ps As} digest `{BS : !BlobStore (digest "sha256") St} blob_list
  (env : ReqEnv (Ctx := Ctx) (As := As)) db_up pub {A B} (P : W (St := St) (Ps := Ps) -> Prop)
  (p : presult A) (Q : A -> W -> Prop) (k : A -> presult B) (R : result (api_error * string) B -> W -> Prop) :
  triple digest blob_list env db_up pub P p (fun r w => match r with Ok a => Q a w | Err e => R (Err e) w end) ->
  (forall a, triple digest blob_list env db_up pub (Q a) (k a) R) ->
  triple digest blob_list env db_up pub P (ptry p k) R.
Proof. intros Hp Hk. eapply triple_bind; [exact Hp|]. intros [a|e]; [apply Hk|apply triple_ret]. Qed.
Lemma publishes_refused {A} P e (k : presult A) : publishes P k -> publishes P (refused e k).
Proof. by destruct e. Qed.

(** ** Text *)

(** [xml.EscapeText] on ASCII text. *)
Fixpoint xml_escape (s : string) : string :=
  match s with
  | EmptyString => ""
  | String c s' =>
      (if decide (c = "034"%char) then "&#34;"
       else if decide (c = "'"%char) then "&#39;"
       else if decide (c = "&"%char) then "&amp;"
       else if decide (c = "<"%char) then "&lt;"
       else if decide (c = ">"%char) then "&gt;"
       else if decide (c = "009"%char) then "&#x9;"
       else if decide (c = "010"%char) then "&#xA;"
       else if decide (c = "013"%char) then "&#xD;"
       else String c "") +:+ xml_escape s'
  end.
Definition nl : string := String "010"%char "".

(** An element: text, or elements inside; [xml.MarshalIndent] with two spaces. *)
Inductive xml := Text (name value : string) | Elem (name : string) (children : list xml).
Definition open_tag (name : string) : string := "<" +:+ name +:+ ">".
Definition close_tag (name : string) : string := "</" +:+ name +:+ ">".
Fixpoint marshal (indent : string) (x : xml) : string :=
  match x with
  | Text name value => indent +:+ open_tag name +:+ xml_escape value +:+ close_tag name
  | Elem name [] => indent +:+ open_tag name +:+ close_tag name
  | Elem name children =>
      indent +:+ open_tag name +:+ nl
      +:+ (fix go (l : list xml) : string :=
             match l with [] => "" | c :: l' => marshal (indent +:+ "  ") c +:+ nl +:+ go l' end) children
      +:+ indent +:+ close_tag name
  end.
Definition xml_header : string := "<?xml version=" +:+ String "034"%char "1.0" +:+ String "034"%char " encoding="
  +:+ String "034"%char "UTF-8" +:+ String "034"%char "?>" +:+ nl.

(** [strings.ReplaceAll] of one byte by another. *)
Definition swap_char (s : string) (a b : Ascii.ascii) : string := replace_char s a (String b "").

(** What follows the last occurrence of a byte, or the whole text. *)
Definition after_last (s : string) (c : Ascii.ascii) : string := List.last (split s c) "".

(** The date of a number of days from 1970-01-01. *)
Definition civil_from_days (z : Z) : Z * Z * Z :=
  let z := z + 719468 in
  let era := z / 146097 in
  let doe := z - era * 146097 in
  let yoe := (doe - doe / 1460 + doe / 36524 - doe / 146096) / 365 in
  let doy := doe - (365 * yoe + yoe / 4 - yoe / 100) in
  let mp := (5 * doy + 2) / 153 in
  let d := doy - (153 * mp + 2) / 5 + 1 in
  let m := if mp <? 10 then mp + 3 else mp - 9 in
  (yoe + era * 400 + (if m <=? 2 then 1 else 0), m, d).

(** A number with at least [n] digits. *)
Definition pad (n : nat) (z : Z) : string :=
  let s := format_int z in String.concat "" (repeat "0" (n - String.length s)) +:+ s.
(** [Time.UTC().Format("20060102150405")], of seconds since the epoch. *)
Definition format_compact (t : Z) : string :=
  let '(y, m, d) := civil_from_days (t / 86400) in
  let s := t mod 86400 in
  pad 4 y +:+ pad 2 m +:+ pad 2 d +:+ pad 2 (s / 3600) +:+ pad 2 (s / 60 mod 60) +:+ pad 2 (s mod 60).
Example format_compact_examples :
  format_compact 0 = "19700101000000" /\ format_compact 1785061500 = "20260726102500"
  /\ format_compact 951827696 = "20000229123456".
Proof. vm_compute. done. Qed.
(** The zero [time.Time]: the first of January of the year 1. *)
Definition zero_time : Z := -62135596800.

(** ** URL queries *)

Definition hex_digit (c : Ascii.ascii) : option N :=
  let n := Ascii.N_of_ascii c in
  if decide (48 <= n <= 57)%N then Some (n - 48)%N
  else if decide (97 <= n <= 102)%N then Some (n - 87)%N
  else if decide (65 <= n <= 70)%N then Some (n - 55)%N
  else None.

(** [url.QueryUnescape]. *)
Fixpoint query_unescape (s : string) : option string :=
  match s with
  | EmptyString => Some ""
  | String c s' =>
      if decide (c = "%"%char) then
        match s' with
        | String h (String l s'') =>
            match hex_digit h, hex_digit l with
            | Some h, Some l => String (Ascii.ascii_of_N (16 * h + l)) <$> query_unescape s''
            | _, _ => None
            end
        | _ => None
        end
      else String (if decide (c = "+"%char) then " "%char else c) <$> query_unescape s'
  end.

(** One pair of a query; [None] when it is malformed. *)
Definition query_pair (pair : string) : option (string * string) :=
  if contains_char pair ";"%char then None
  else let '(k, v) := default (pair, "") (Cut pair "=") in
       k ← query_unescape k; v ← query_unescape v; Some (k, v).
(** [URL.Query().Get]: the first value of a key; malformed pairs are skipped. *)
Definition query_get (query key : string) : string :=
  default "" (head (omap (fun pair =>
    if decide (pair = "") then None
    else '(k, v) ← query_pair pair; if decide (k = key) then Some v else None) (split query "&"%char))).
Example query_get_examples :
  query_get "from=a%2Fb&digest=sha256%3Aab&digest=x" "digest" = "sha256:ab"
  /\ query_get "from=a%2Fb" "from" = "a/b" /\ query_get "a=%zz" "a" = "".
Proof. split_and!; vm_compute; reflexivity. Qed.

(** Splitting at the last occurrence of a separator ([strings.LastIndex]). *)
Fixpoint cut_last (sep s : string) : option (string * string) :=
  match s with
  | EmptyString => if decide (sep = "") then Some ("", "") else None
  | String c s' =>
      match cut_last sep s' with
      | Some (a, b) => Some (String c a, b)
      | None => if has_prefix s sep
                then Some ("", trim_prefix s sep) else None
      end
  end.

(** [%0*d] of a number that is not negative. *)
Fixpoint decimal_digits (n : nat) (z : Z) : string :=
  match n with
  | O => ""
  | S n => decimal_digits n (z / 10) +:+ String (Ascii.ascii_of_N (Z.to_N (48 + z mod 10))) ""
  end.
Definition zero_padded (n : nat) (z : Z) : string :=
  if decide (0 <= z < 10 ^ Z.of_nat n) then decimal_digits n z else format_int z.
Example zero_padded_examples :
  zero_padded 16 0 = "0000000000000000" /\ zero_padded 16 1234567890123456 = "1234567890123456"
  /\ zero_padded 4 12345 = "12345" /\ zero_padded 4 42 = pad 4 42.
Proof. split_and!; vm_compute; reflexivity. Qed.

(** *** Splitting at the last separator *)

Lemma cut_last_Some sep s a b : cut_last sep s = Some (a, b) -> s = a +:+ sep +:+ b.
Proof.
  revert a. induction s as [|c s IH]; intros a; cbn [cut_last].
  - case_decide; [|done]. intros [= <- <-]. by subst.
  - destruct (cut_last sep s) as [[a' b']|]; [intros [= <- <-]; simpl; by rewrite (IH a')|].
    destruct (has_prefix (String c s) sep) eqn:E; [|done]. intros [= <- <-].
    apply has_prefix_spec in E as [r Hr]. by rewrite Hr, trim_prefix_app.
Qed.
Lemma cut_last_app sep x s a b : cut_last sep s = Some (a, b) -> cut_last sep (x +:+ s) = Some (x +:+ a, b).
Proof. intros H. induction x as [|c x IH]; [done|]. simpl. by rewrite IH. Qed.

Lemma count_char_app s t c : count_char (s +:+ t) c = (count_char s c + count_char t c)%nat.
Proof. induction s as [|d s IH]; simpl; [done|]. rewrite IH. destruct (decide _); lia. Qed.
Lemma count_char_zero s c : contains_char s c = false -> count_char s c = 0%nat.
Proof. induction s as [|d s IH]; simpl; [done|]. case_bool_decide; simpl; [done|]. rewrite decide_False by done. auto. Qed.

Lemma cut_last_none sep s c : (count_char s c < count_char sep c)%nat -> cut_last sep s = None.
Proof.
  intros Hc. destruct (cut_last sep s) as [[a b]|] eqn:E; [|done]. apply cut_last_Some in E as ->.
  rewrite !count_char_app in Hc. lia.
Qed.
Lemma cut_last_here sep c s b : sep = String c s ->
  (count_char (s +:+ b) c < count_char sep c)%nat -> cut_last sep (sep +:+ b) = Some ("", b).
Proof.
  intros -> Hc. cbn [String.append cut_last]. rewrite (cut_last_none _ _ c Hc).
  change (String c (s +:+ b)) with (String c s +:+ b). rewrite has_prefix_app_r.
  by rewrite trim_prefix_app.
Qed.

(** *** Zero-padded numbers sort like numbers *)

Lemma decimal_digits_length n z : String.length (decimal_digits n z) = n.
Proof. revert z. induction n as [|n IH]; intros z; simpl; [done|]. rewrite str_length_app, IH. simpl. lia. Qed.

Lemma str_lt_app_l a b x y : String.length a = String.length b -> str_lt a b -> str_lt (a +:+ x) (b +:+ y).
Proof.
  revert b. induction a as [|c a IH]; intros [|d b]; simpl; try done. unfold str_lt in *. simpl.
  intros [= Hl]. destruct (Ascii.compare c d); try done. by apply IH.
Qed.

Lemma decimal_digits_lt n z z' : 0 <= z < z' -> z' < 10 ^ Z.of_nat n -> str_lt (decimal_digits n z) (decimal_digits n z').
Proof.
  revert z z'. induction n as [|n IH]; intros z z' Hz Hz'; [simpl in Hz'; lia|].
  cbn [decimal_digits]. rewrite Nat2Z.inj_succ, Z.pow_succ_r in Hz' by lia.
  pose proof (Z.div_mod z 10 ltac:(lia)). pose proof (Z.div_mod z' 10 ltac:(lia)).
  pose proof (Z.mod_pos_bound z 10 ltac:(lia)). pose proof (Z.mod_pos_bound z' 10 ltac:(lia)).
  destruct (decide (z / 10 = z' / 10)) as [He|Hne].
  - rewrite He. apply str_lt_app. unfold str_lt. simpl.
    assert (Ascii.compare (Ascii.ascii_of_N (Z.to_N (48 + z mod 10))) (Ascii.ascii_of_N (Z.to_N (48 + z' mod 10))) = Lt) as ->; [|done].
    unfold Ascii.compare. rewrite !Ascii.N_ascii_embedding by lia. apply N.compare_lt_iff. lia.
  - apply str_lt_app_l; [by rewrite !decimal_digits_length|]. apply IH; [|apply Z.div_lt_upper_bound; lia].
    split; [apply Z.div_pos; lia|]. assert (z / 10 <= z' / 10) by (apply Z.div_le_mono; lia). lia.
Qed.
Lemma zero_padded_lt n z z' : 0 <= z < z' -> z' < 10 ^ Z.of_nat n -> str_lt (zero_padded n z) (zero_padded n z').
Proof. intros. unfold zero_padded. rewrite !decide_True by lia. by apply decimal_digits_lt. Qed.

Lemma decimal_digits_flat n z : 0 <= z -> contains_char (decimal_digits n z) "/"%char = false.
Proof.
  revert z. induction n as [|n IH]; intros z Hz; cbn [decimal_digits]; [done|].
  rewrite contains_char_app, IH by (apply Z.div_pos; lia). cbn [contains_char orb]. rewrite bool_decide_false; [done|].
  intros He%(f_equal Ascii.N_of_ascii). pose proof (Z.mod_pos_bound z 10).
  rewrite Ascii.N_ascii_embedding in He by lia. change (Ascii.N_of_ascii "/") with 47%N in He. lia.
Qed.
