(* ===== verification/Oci.v ===== *)
(** * The OCI module ([modules/format/oci])

    The registry protocol of container images: the path grammar, how the
    protocol's own URLs reach a feed, reads, uploads as sessions of staged
    chunks, publication of manifests and tags, listings with their pages and
    their merge in groups.

    The module is a program over the core's services (WriteRoutes.v). JSON
    decoding and the random session names are parameters; the texts of errors
    are shortened. *)

From S2P Require Import Prelude GoLib Access State StateTheory Store Listing Pipeline Publisher Policies Auth Config Server WriteRoutes ModLib.
From Stdlib Require Import Sorting.Sorted.
Open Scope Z_scope.

Module Oci.
Import Server WriteRoutes.

Definition formatName : string := "oci".
Definition apiRoot : string := "v2".
Definition tagTTL : Z := 2 * Minute.
Definition mediaTypeDockerManifest : string := "application/vnd.docker.distribution.manifest.v2+json".
Definition mediaTypeDockerList : string := "application/vnd.docker.distribution.manifest.list.v2+json".
Definition mediaTypeOCIManifest : string := "application/vnd.oci.image.manifest.v1+json".
Definition mediaTypeOCIIndex : string := "application/vnd.oci.image.index.v1+json".
Definition mediaTypeJSON : string := "application/json".
Definition mediaTypeOctetStream : string := "application/octet-stream".
Definition manifestAccept : string :=
  join [mediaTypeOCIIndex; mediaTypeOCIManifest; mediaTypeDockerList; mediaTypeDockerManifest] ", ".

(** ** The path grammar *)

Inductive refKind := refManifest | refBlob | refUpload | refTags.
Record parsedRef := mkRef { pf_repo : string; pf_kind : refKind; pf_reference : string }.

Definition sepManifests : string := "/manifests/".
Definition sepBlobs : string := "/blobs/".
Definition sepUploads : string := "/blobs/uploads/".
Definition sepTagsList : string := "/tags/list".

Definition lower_or_digit (c : Ascii.ascii) : bool :=
  let n := Ascii.N_of_ascii c in ((97 <=? n) && (n <=? 122) || (48 <=? n) && (n <=? 57))%N.

(** The loop of [validRepoSegment]; [previous] tells that the byte before was a
    separator. *)
Fixpoint segment_loop (previous : bool) (s : string) : bool :=
  match s with
  | EmptyString => negb previous
  | String c s' =>
      if lower_or_digit c then segment_loop false s'
      else if decide (c = "."%char \/ c = "_"%char \/ c = "-"%char) then
        if previous && negb (bool_decide (c = "-"%char \/ c = "_"%char)) then false else segment_loop true s'
      else false
  end.
Definition validRepoSegment (s : string) : bool := if decide (s = "") then false else segment_loop true s.

Definition validRepo (name : string) : option (api_error * string) :=
  if decide (name = "") then Some (ErrNotFound, "repository name is not usable")
  else if decide (255 < String.length name)%nat then Some (ErrNotFound, "repository name is not usable")
  else if forallb validRepoSegment (split name "/"%char) then None
  else Some (ErrBadRequest, "repository name is not lowercase alphanumeric with separators").

Definition with_repo (repo : string) (k : result (api_error * string) parsedRef) : result (api_error * string) parsedRef :=
  match validRepo repo with Some e => Err e | None => k end.
(** A reference is one segment. *)
Definition one_segment (repo : string) (kind : refKind) (reference : string) : result (api_error * string) parsedRef :=
  if decide (reference = "") then Err (ErrNotFound, "not a reference")
  else if contains_char reference "/"%char then Err (ErrNotFound, "not a reference")
  else Ok (mkRef repo kind reference).

Definition parseRef (rest : string) : result (api_error * string) parsedRef :=
  if has_suffix rest sepTagsList then
    let repo := trim_suffix rest sepTagsList in with_repo repo (Ok (mkRef repo refTags ""))
  else match cut_last sepUploads rest with
  | Some (repo, reference) => with_repo repo (Ok (mkRef repo refUpload reference))
  | None =>
  match cut_last sepManifests rest with
  | Some (repo, reference) => with_repo repo (one_segment repo refManifest reference)
  | None =>
  match cut_last sepBlobs rest with
  | Some (repo, reference) => with_repo repo (one_segment repo refBlob reference)
  | None => Err (ErrNotFound, "unsupported registry path")
  end end end.

Definition lower_hex (c : Ascii.ascii) : bool :=
  let n := Ascii.N_of_ascii c in ((48 <=? n) && (n <=? 57) || (97 <=? n) && (n <=? 102))%N.
Fixpoint all_chars (P : Ascii.ascii -> bool) (s : string) : bool :=
  match s with EmptyString => true | String c s' => P c && all_chars P s' end.

Definition digest_length (algo : string) : nat :=
  if decide (algo = "sha256") then 64%nat else if decide (algo = "sha512") then 128%nat else 0%nat.
Definition parseDigest (reference : string) : option Checksum :=
  match Cut reference ":" with
  | None => None
  | Some (algo, hexDigest) =>
      if decide (digest_length algo = 0%nat \/ String.length hexDigest <> digest_length algo) then None
      else if all_chars lower_hex hexDigest then Some (mkChecksum algo hexDigest) else None
  end.

Definition alphanumeric (c : Ascii.ascii) : bool :=
  let n := Ascii.N_of_ascii c in (lower_or_digit c || (65 <=? n) && (n <=? 90))%N.
Definition validTag (tag : string) : bool :=
  match tag with
  | EmptyString => false
  | String first rest =>
      if decide (128 < String.length tag)%nat then false
      else if negb (alphanumeric first) && negb (bool_decide (first = "_"%char)) then false
      else all_chars (fun c => alphanumeric c || bool_decide (c = "."%char \/ c = "_"%char \/ c = "-"%char)) rest
  end.

Definition isManifestPath (remotePath : string) : bool := Contains remotePath sepManifests.
Definition isBlobPath (remotePath : string) : bool :=
  Contains remotePath sepBlobs && negb (Contains remotePath sepUploads).
Definition manifestPath (repo reference : string) : string := apiRoot +:+ "/" +:+ repo +:+ sepManifests +:+ reference.
Definition blobPath (repo digest : string) : string := apiRoot +:+ "/" +:+ repo +:+ sepBlobs +:+ digest.
Definition feedURL (f : Feed) : string := "/" +:+ apiRoot +:+ "/" +:+ formatName +:+ "/" +:+ f_name f.

(** [strings.CutPrefix]. *)
Definition cut_prefix (s p : string) : option string := if has_prefix s p then Some (trim_prefix s p) else None.

(** [RouteToFeed]. *)
Definition RouteToFeed (path : string) : option (string * string) :=
  rest ← cut_prefix path ("/" +:+ apiRoot +:+ "/");
  '(format, rest) ← Cut rest "/";
  if decide (format <> formatName) then None else
  '(feed, rest) ← Cut rest "/";
  if decide (feed = "") then None
  else if Contains feed ".." then None
  else Some (feed, "/" +:+ apiRoot +:+ "/" +:+ rest).

(** What both directions start with: the path below the API root. *)
Definition api_path (r : HttpReq) : result (api_error * string) string :=
  let p := trim_prefix (rq_path r) "/" in
  if Contains p ".." then Err (ErrNotFound, "invalid path")
  else match cut_prefix p (apiRoot +:+ "/") with
       | None => Err (ErrNotFound, "not a registry API path")
       | Some rest => Ok rest
       end.

Definition oci_coord (name version : string) : PackageCoordinate := mkCoord formatName name version.

Definition Parse (r : HttpReq) : result (api_error * string) Intent :=
  let? rest := api_path r in
  let intent kind coord ttl path checksum ct query accept :=
    mkIntent kind coord ttl path checksum (mkSource "" "") "" false "" ct query accept in
  if decide (rest = "_catalog") then
    Ok (intent IntentSearch (oci_coord "" "") tagTTL (apiRoot +:+ "/_catalog") no_checksum mediaTypeJSON (rq_query r) "")
  else
  let? ref := parseRef rest in
  let remotePath := apiRoot +:+ "/" +:+ rest in
  match pf_kind ref with
  | refTags =>
      Ok (intent IntentSearch (oci_coord (pf_repo ref) "") tagTTL remotePath no_checksum mediaTypeJSON (rq_query r) "")
  | refManifest =>
      let coord := oci_coord (pf_repo ref) (pf_reference ref) in
      match parseDigest (pf_reference ref) with
      | Some digest => Ok (intent IntentArtifact coord 0 remotePath digest "" "" manifestAccept)
      | None => Ok (intent IntentMetadata coord tagTTL remotePath no_checksum "" "" manifestAccept)
      end
  | refBlob =>
      match parseDigest (pf_reference ref) with
      | None => Err (ErrNotFound, "blob reference is not a digest")
      | Some digest =>
          Ok (intent IntentArtifact (oci_coord (pf_repo ref) "") 0 remotePath digest mediaTypeOctetStream "" "")
      end
  | refUpload => Err (ErrNotFound, "unsupported registry path")
  end.

(** ** Reads *)

Definition RedirectSafeIntent (i : Intent) : bool :=
  match i_kind i with IntentArtifact => negb (isManifestPath (i_path i)) | _ => false end.

Definition ResponseHeaders (f : Feed) (i : Intent) (sha256hex : string) : gmap string string :=
  let headers : gmap string string := {[ "Docker-Distribution-API-Version" := "registry/2.0" ]} in
  if bool_decide (sha256hex <> "") && (isManifestPath (i_path i) || isBlobPath (i_path i))
  then <["Docker-Content-Digest" := "sha256:" +:+ sha256hex]> headers else headers.

Definition AuthChallenge (f : Feed) : string := "Basic realm=" +:+ quoted "fondaco".

(** [RewriteMetadata]: the bytes are kept; what is not a JSON object is refused. *)
Definition RewriteMetadata (f : Feed) (upstreamBody : string) : result api_error string :=
  if has_prefix (TrimSpace upstreamBody) "{" then Ok upstreamBody else Err ErrBadRequest.

(** [ServeRoot]: the probe. *)
Definition ServeRoot (r : HttpReq) : own_response :=
  (200, <["Docker-Distribution-API-Version" := "registry/2.0"]> {[ "Content-Type" := mediaTypeJSON ]},
   if decide (rq_method r <> "HEAD") then "{}" else "").

(** The routes: below a feed, at the root of the site, and the probe. *)
Definition Routes : list (string * string) := [("GET", "/*"); ("HEAD", "/*")].
Definition FeedRoutes : list (string * string) :=
  (fun m => (m, "/" +:+ apiRoot +:+ "/*")) <$> ["GET"; "HEAD"; "POST"; "PATCH"; "PUT"; "DELETE"].
Definition RootRoutes : list (string * string) := (fun m => (m, "/" +:+ apiRoot +:+ "/")) <$> ["GET"; "HEAD"].
Definition PublishRoutes : list (string * string) := (fun m => (m, "/*")) <$> ["POST"; "PATCH"; "PUT"; "DELETE"].

(** ** Uploads *)

Definition maxManifestSize : Z := 2 ^ 23.
Definition partWidth : nat := 16.

Definition upload_char (c : Ascii.ascii) : bool :=
  let n := Ascii.N_of_ascii c in
  (lower_hex c || (65 <=? n) && (n <=? 70) || bool_decide (c = "-"%char))%N.
Definition validUploadID (id : string) : option (api_error * string) :=
  if decide (String.length id < 8 \/ 64 < String.length id)%nat then Some (ErrNotFound, "upload is not a session")
  else if all_chars upload_char id then None else Some (ErrNotFound, "upload is not a session").

Definition StagingPrefix : string := "uploads/".
Definition uploadKeyPrefix (f : Feed) (repo uploadID : string) : string :=
  StagingPrefix +:+ f_name f +:+ "/" +:+ repo +:+ "/" +:+ uploadID +:+ "/".
Definition blobStoreKey (sha256hex : string) : string := "blobs/sha256/" +:+ sha256hex.
Definition part_key (prefix : string) (offset : Z) : string := prefix +:+ zero_padded partWidth offset.

Definition size_of (body : string) : Z := Z.of_nat (String.length body).

(** [stagePart]: a chunk at its offset. *)
Definition stagePart (f : Feed) (repo uploadID : string) (offset : Z) (body : string) : presult Z :=
  BlobPut (part_key (uploadKeyPrefix f repo uploadID) offset) body no_opts (fun e =>
    refused e (pok (size_of body))).

(** [stagedParts]: the keys in the order listed, and their total size. *)
Definition stagedParts (prefix : string) : presult (list string * Z) :=
  BlobList prefix (fun res =>
    match res with
    | Err e => perr e "list staged chunks"
    | Ok infos => pok (infos.*1, foldl (fun n info => n + info.2) 0 infos)
    end).
Definition stagedSize (f : Feed) (repo uploadID : string) : presult Z :=
  ptry (stagedParts (uploadKeyPrefix f repo uploadID)) (fun res => pok res.2).

Fixpoint delete_keys (keys : list string) : presult () :=
  match keys with
  | [] => pok ()
  | key :: keys => BlobDelete key (fun e => refused e (delete_keys keys))
  end.
Definition deleteParts (prefix : string) : presult () :=
  ptry (stagedParts prefix) (fun res => delete_keys res.1).

(** [partsReader]: the chunks as one stream. *)
Fixpoint read_parts (keys : list string) : presult string :=
  match keys with
  | [] => pok ""
  | key :: keys => BlobGet key (fun res =>
      match res with
      | Err e => perr e "read staged chunk"
      | Ok o => ptry (read_parts keys) (fun rest => pok (o_body o +:+ rest))
      end)
  end.

(** ** Responses *)

Definition lastByte (written : Z) : Z := if decide (written <= 0) then 0 else written - 1.

Definition uploadAccepted (f : Feed) (repo uploadID : string) (written : Z) : own_response :=
  (202, list_to_map [("Location", feedURL f +:+ "/" +:+ repo +:+ "/blobs/uploads/" +:+ uploadID);
                     ("Docker-Upload-UUID", uploadID);
                     ("Range", "0-" +:+ format_int (lastByte written));
                     ("Content-Length", "0")], "").
Definition blobLocation (f : Feed) (repo digest : string) : own_response :=
  (201, list_to_map [("Location", feedURL f +:+ "/" +:+ repo +:+ "/blobs/" +:+ digest);
                     ("Docker-Content-Digest", digest); ("Content-Length", "0")], "").

(** [rangeStart]: the first offset of a [Content-Range]. *)
Definition rangeStart (header : string) : option Z :=
  let header := TrimSpace header in
  if decide (header = "") then None
  else match Cut (trim_prefix header "bytes ") "-" with
       | None => None
       | Some (start, _) => parse_int (TrimSpace start)
       end.

(** ** Writes *)

(** As much of a manifest as the module reads. *)
Record layer := mkLayer { la_digest : string; la_mediaType : string }.
Record manifestDoc := mkDoc {
  md_mediaType : string;
  md_config : string;
  md_layers : list layer;
  md_manifests : list string;
}.

Definition publishBlob (f : Feed) (repo sha256hex : string) (size : Z) : presult () :=
  CorePublish (mkPublish f (oci_coord repo "") (blobPath repo ("sha256:" +:+ sha256hex)) sha256hex size
                 {[ "sha256" := sha256hex ]} "" false (Some {[ MetaContentType := mediaTypeOctetStream ]}))
    (fun res => match res with Ok _ => pok () | Err e => Ret (Err e) end).

(** [commitUpload]. *)
Definition commitUpload (f : Feed) (repo uploadID digest : string) : presult own_response :=
  match parseDigest digest with
  | None => perr ErrBadRequest "digest is not a digest"
  | Some want =>
      if decide (Algo want <> "sha256") then perr ErrBadRequest "this registry addresses content by sha256" else
      let prefix := uploadKeyPrefix f repo uploadID in
      ptry (stagedParts prefix) (fun res =>
      let '(parts, total) := res in
      if decide (parts = []) then perr ErrBadRequest "upload has nothing staged" else
      ptry (read_parts parts) (fun body =>
      BlobPut (blobStoreKey (Hex want)) body (mkPutOpts (Hex want) total mediaTypeOctetStream) (fun e =>
      refused e (
      ptry (publishBlob f repo (Hex want) total) (fun _ =>
      ptry (deleteParts prefix) (fun _ =>
      pok (blobLocation f repo digest)))))))
  end.

(** [appendChunk]. *)
Definition appendChunk (f : Feed) (r : HttpReq) (repo uploadID : string) : presult own_response :=
  match validUploadID uploadID with
  | Some e => Ret (Err e)
  | None =>
      ptry (stagedSize f repo uploadID) (fun offset =>
      let start := rangeStart (header_get (rq_header r) "Content-Range") in
      if bool_decide (is_Some start /\ start <> Some offset)
      then pok (416, {[ "Range" := "0-" +:+ format_int (lastByte offset) ]}, "")
      else ptry (stagePart f repo uploadID offset (rq_body r)) (fun written =>
           pok (uploadAccepted f repo uploadID (offset + written))))
  end.

(** [finishUpload]; a server's request always has a body. *)
Definition finishUpload (f : Feed) (r : HttpReq) (repo uploadID : string) : presult own_response :=
  match validUploadID uploadID with
  | Some e => Ret (Err e)
  | None =>
      let digest := query_get (rq_query r) "digest" in
      if decide (digest = "") then perr ErrBadRequest "a completed upload must name the digest it produced" else
      ptry (stagedSize f repo uploadID) (fun offset =>
      ptry (stagePart f repo uploadID offset (rq_body r)) (fun _ =>
      commitUpload f repo uploadID digest))
  end.

Section writes.
Context (sha256 : string -> string).
(** [json.Unmarshal] of a manifest, and the name of a session begun by a
    request ([None]: no randomness). *)
Context (unmarshal : string -> option manifestDoc) (newUploadID : HttpReq -> option string).

(** [startUpload]: a mount, a monolithic upload or a new session. *)
Definition new_session (f : Feed) (r : HttpReq) (repo : string) : presult own_response :=
  match newUploadID r with
  | None => perr (ErrOther "rand") "generate an upload id"
  | Some uploadID =>
      let digest := query_get (rq_query r) "digest" in
      if decide (digest <> "") then
        ptry (stagePart f repo uploadID 0 (rq_body r)) (fun _ => commitUpload f repo uploadID digest)
      else pok (uploadAccepted f repo uploadID 0)
  end.
Definition startUpload (f : Feed) (r : HttpReq) (repo : string) : presult own_response :=
  let mount := query_get (rq_query r) "mount" in
  if decide (mount <> "") then
    match parseDigest mount with
    | None => perr ErrBadRequest "mount digest is not a digest"
    | Some digest =>
        BlobGet (blobStoreKey (Hex digest)) (fun res =>
          match res with
          | Ok info => ptry (publishBlob f repo (Hex digest) (size_of (o_body info))) (fun _ =>
                       pok (blobLocation f repo ("sha256:" +:+ Hex digest)))
          | Err _ => new_session f r repo
          end)
    end
  else new_session f r repo.

(** [referencedBlobs]: what a manifest needs from its own repository. *)
Definition referencedBlobs (doc : manifestDoc) : list string :=
  (if decide (md_config doc <> "") then [md_config doc] else [])
  ++ omap (fun l => if decide (la_digest l = "") then None
                    else if has_suffix (la_mediaType l) ".foreign.diff.tar.gzip" then None
                    else Some (la_digest l)) (md_layers doc).

Definition requirePublished (f : Feed) (path : string) : presult () :=
  CoreManifests f path (fun res =>
    match res with
    | Err e => perr e "check"
    | Ok ms => if bool_decide (Exists (fun m => m.1.1 = path) ms) then pok ()
               else perr ErrBadRequest "the manifest references what has not been uploaded"
    end).
Fixpoint require_all (f : Feed) (paths : list string) : presult () :=
  match paths with
  | [] => pok ()
  | path :: paths => ptry (requirePublished f path) (fun _ => require_all f paths)
  end.
(** [checkReferences]: blobs, then the manifests of an index. *)
Definition checkReferences (f : Feed) (repo : string) (doc : manifestDoc) : presult () :=
  require_all f ((blobPath repo <$> referencedBlobs doc)
                 ++ (manifestPath repo <$> filter (fun d => d <> "") (md_manifests doc))).

Definition acceptableMediaType (mediaType : string) : bool :=
  bool_decide (default mediaType (fst <$> Cut mediaType ";")
               ∈ [mediaTypeDockerManifest; mediaTypeDockerList; mediaTypeOCIManifest; mediaTypeOCIIndex]).

(** A publication of the manifest's bytes under a reference. *)
Definition publish_manifest (f : Feed) (repo reference digest : string) (size : Z) (mediaType : string) (mutable : bool)
  : presult bool :=
  CorePublish (mkPublish f (oci_coord repo reference) (manifestPath repo reference) digest size
                 {[ "sha256" := digest ]} "" mutable (Some {[ MetaContentType := mediaType ]}))
    (fun res => Ret res).

(** [putManifest]. *)
Definition putManifest (f : Feed) (r : HttpReq) (repo reference : string) : presult own_response :=
  let body := limit_read (maxManifestSize + 1) (rq_body r) in
  if decide (maxManifestSize < size_of body) then perr ErrBadRequest "manifest is too large" else
  match unmarshal body with
  | None => perr ErrBadRequest "manifest is not a JSON document"
  | Some doc =>
      let declared := TrimSpace (header_get (rq_header r) "Content-Type") in
      let mediaType := if decide (declared = "") then md_mediaType doc else declared in
      if negb (acceptableMediaType mediaType) then perr ErrBadRequest "media type is not an image manifest or index" else
      let digest := sha256 body in
      let named := parseDigest reference in
      let bad : option (api_error * string) :=
        match named with
        | Some want => if bool_decide (Algo want <> "sha256") || negb (EqualFold (Hex want) digest)
                       then Some (ErrChecksumMismatch, "manifest digest differs") else None
        | None => if validTag reference then None else Some (ErrBadRequest, "tag is not a tag")
        end in
      match bad with
      | Some e => Ret (Err e)
      | None =>
          ptry (checkReferences f repo doc) (fun _ =>
          BlobPut (blobStoreKey digest) body (mkPutOpts digest (size_of body) mediaType) (fun e =>
          refused e (
          ptry (publish_manifest f repo ("sha256:" +:+ digest) digest (size_of body) mediaType false) (fun _ =>
          ptry (match named with
                | Some _ => pok false
                | None => publish_manifest f repo reference digest (size_of body) mediaType true
                end) (fun _ =>
          pok (201, list_to_map [("Location", feedURL f +:+ "/" +:+ repo +:+ "/manifests/sha256:" +:+ digest);
                                 ("Docker-Content-Digest", "sha256:" +:+ digest)], ""))))))
      end
  end.

(** [HandlePublishHTTP]. *)
Definition HandlePublishHTTP (f : Feed) (r : HttpReq) : presult own_response :=
  match api_path r with
  | Err e => Ret (Err e)
  | Ok rest =>
  match parseRef rest with
  | Err e => Ret (Err e)
  | Ok ref =>
      let repo := pf_repo ref in
      let reference := pf_reference ref in
      if decide (rq_method r = "POST") then
        match pf_kind ref with
        | refUpload => startUpload f r repo
        | _ => perr ErrNotFound "nothing is written by POST"
        end
      else if decide (rq_method r = "PATCH") then
        match pf_kind ref with
        | refUpload => if decide (reference = "") then perr ErrNotFound "not an upload session"
                       else appendChunk f r repo reference
        | _ => perr ErrNotFound "not an upload session"
        end
      else if decide (rq_method r = "PUT") then
        match pf_kind ref with
        | refUpload => if decide (reference = "") then perr ErrNotFound "not an upload session"
                       else finishUpload f r repo reference
        | refManifest => putManifest f r repo reference
        | _ => perr ErrNotFound "nothing is written by PUT"
        end
      else if decide (rq_method r = "DELETE") then
        match pf_kind ref with
        | refUpload => if decide (reference = "") then perr ErrForbidden "a published image is immutable"
                       else ptry (deleteParts (uploadKeyPrefix f repo reference)) (fun _ => pok (204, ∅, ""))
        | _ => perr ErrForbidden "a published image is immutable"
        end
      else perr ErrBadRequest "method is not part of this protocol"
  end end.

(** [Reindex]: nothing is generated. *)
Definition Reindex (f : Feed) : prog (option api_error) := Ret None.
Definition hoster : Hoster := mkHoster true HandlePublishHTTP Reindex.
End writes.

(** ** Paths *)

Lemma split_path repo kind last :
  contains_char kind "/"%char = false -> contains_char last "/"%char = false ->
  split (repo +:+ "/" +:+ kind +:+ "/" +:+ last) "/"%char = split repo "/"%char ++ [kind; last].
Proof.
  intros Hk Hl. change (repo +:+ "/" +:+ kind +:+ "/" +:+ last)
    with (repo +:+ String "/" (kind +:+ String "/" last)). by rewrite !split_app, (split_single kind), (split_single last).
Qed.

Lemma path_inj repo kind last repo' kind' last' :
  contains_char kind "/"%char = false -> contains_char last "/"%char = false ->
  contains_char kind' "/"%char = false -> contains_char last' "/"%char = false ->
  repo +:+ "/" +:+ kind +:+ "/" +:+ last = repo' +:+ "/" +:+ kind' +:+ "/" +:+ last' ->
  repo = repo' /\ kind = kind' /\ last = last'.
Proof.
  intros H1 H2 H3 H4 He%(f_equal (fun s => split s "/"%char)). rewrite !split_path in He by done.
  change [kind; last] with ([kind] ++ [last]) in He. change [kind'; last'] with ([kind'] ++ [last']) in He.
  rewrite !(assoc_L (++)) in He. apply app_inj_tail in He as [He ->]. apply app_inj_tail in He as [He ->].
  by apply split_inj in He as ->.
Qed.
Lemma manifestPath_inj repo ref repo' ref' :
  contains_char ref "/"%char = false -> contains_char ref' "/"%char = false ->
  manifestPath repo ref = manifestPath repo' ref' -> repo = repo' /\ ref = ref'.
Proof.
  intros H1 H2 He. assert (repo +:+ "/" +:+ "manifests" +:+ "/" +:+ ref = repo' +:+ "/" +:+ "manifests" +:+ "/" +:+ ref') as Hp
    by by injection He.
  by apply path_inj in Hp as (? & _ & ?).
Qed.
Lemma blobPath_inj repo d repo' d' :
  contains_char d "/"%char = false -> contains_char d' "/"%char = false ->
  blobPath repo d = blobPath repo' d' -> repo = repo' /\ d = d'.
Proof.
  intros H1 H2 He. assert (repo +:+ "/" +:+ "blobs" +:+ "/" +:+ d = repo' +:+ "/" +:+ "blobs" +:+ "/" +:+ d') as Hp
    by by injection He.
  by apply path_inj in Hp as (? & _ & ?).
Qed.
Lemma blob_manifest_path repo d repo' ref :
  contains_char d "/"%char = false -> contains_char ref "/"%char = false -> blobPath repo d <> manifestPath repo' ref.
Proof.
  intros H1 H2 He. assert (repo +:+ "/" +:+ "blobs" +:+ "/" +:+ d = repo' +:+ "/" +:+ "manifests" +:+ "/" +:+ ref) as Hp
    by by injection He.
  by apply path_inj in Hp as (_ & ? & _).
Qed.

Lemma all_chars_flat P s : P "/"%char = false -> all_chars P s = true -> contains_char s "/"%char = false.
Proof.
  intros HP. induction s as [|c s IH]; simpl; [done|]. intros [Hc Hs]%andb_true_iff. rewrite IH by done.
  rewrite bool_decide_false; [done|]. intros ->. congruence.
Qed.
Lemma parseDigest_hex reference c : parseDigest reference = Some c ->
  reference = Algo c +:+ ":" +:+ Hex c /\ all_chars lower_hex (Hex c) = true.
Proof.
  unfold parseDigest. destruct (Cut reference ":") as [[algo hex]|] eqn:E; [|done]. apply Cut_app in E as ->.
  case_decide; [done|]. destruct (all_chars lower_hex hex) eqn:Ea; [|done]. by intros [= <-].
Qed.
Lemma hex_flat c reference : parseDigest reference = Some c -> contains_char (Hex c) "/"%char = false.
Proof. intros [_ H]%parseDigest_hex. by apply (all_chars_flat lower_hex). Qed.
Lemma one_segment_Ok repo kind reference p : one_segment repo kind reference = Ok p ->
  p = mkRef repo kind reference /\ contains_char reference "/"%char = false.
Proof. unfold one_segment. case_decide; [done|]. destruct (contains_char _ _); [done|]. by intros [= <-]. Qed.
Lemma parseRef_manifest rest p : parseRef rest = Ok p -> pf_kind p = refManifest ->
  contains_char (pf_reference p) "/"%char = false.
Proof.
  unfold parseRef, with_repo. destruct (has_suffix _ _); [destruct (validRepo _); [done|]; by intros [= <-]|].
  destruct (cut_last _ _) as [[? ?]|]; [destruct (validRepo _); [done|]; by intros [= <-]|].
  destruct (cut_last _ _) as [[? ?]|]; [destruct (validRepo _); [done|]; by intros [-> ?]%one_segment_Ok|].
  destruct (cut_last _ _) as [[? ?]|]; [destruct (validRepo _); [done|]; by intros [-> ?]%one_segment_Ok|done].
Qed.
Lemma validTag_chars tag : validTag tag = true -> contains_char tag ":"%char = false.
Proof.
  unfold validTag. destruct tag as [|c s]; [done|]. case_decide; [done|]. destruct (_ && _) eqn:Ec; [done|]. intros Hs.
  simpl. rewrite bool_decide_false; [|intros ->; vm_compute in Ec; done]. simpl. revert Hs. clear. induction s as [|c s IH]; simpl; [done|].
  intros [Hc Hs]%andb_true_iff. rewrite IH by done. rewrite bool_decide_false; [done|]. intros ->. vm_compute in Hc. done.
Qed.

(** *** Names without parent segments *)

(** Two dots in a row, after a byte that was or was not a dot. *)
Fixpoint dots (previous : bool) (s : string) : bool :=
  match s with
  | EmptyString => false
  | String c s' => previous && bool_decide (c = "."%char) || dots (bool_decide (c = "."%char)) s'
  end.
Lemma dots_found p a b : dots p (a +:+ ".." +:+ b) = true.
Proof. revert p. induction a as [|c a IH]; intros p; simpl; [by rewrite orb_true_r|]. by rewrite IH, orb_true_r. Qed.
Lemma dots_slash p s t : dots p (s +:+ "/" +:+ t) = dots p s || dots false t.
Proof.
  revert p. induction s as [|c s IH]; intros p; simpl.
  - by destruct p, (dots false t).
  - by rewrite IH, orb_assoc.
Qed.
Lemma no_dots s : dots false s = false -> Contains s ".." = false.
Proof.
  intros Hd. unfold Contains. destruct (Cut s "..") as [[a b]|] eqn:E; [|done]. apply Cut_app in E as ->.
  by rewrite dots_found in Hd.
Qed.
Lemma dots_chars P p s : P "."%char = false -> all_chars P s = true -> dots p s = false.
Proof.
  intros HP. revert p. induction s as [|c s IH]; intros p; simpl; [done|]. intros [Hc Hs]%andb_true_iff.
  rewrite (bool_decide_false (c = "."%char)) by (intros ->; congruence). destruct p; by apply IH.
Qed.

Lemma segment_dots previous d s : segment_loop previous s = true -> (d = true -> previous = true) -> dots d s = false.
Proof.
  revert previous d. induction s as [|c s IH]; intros previous d; cbn [segment_loop dots]; [done|].
  destruct (lower_or_digit c) eqn:Ec.
  { intros Hs _. rewrite (bool_decide_false (c = "."%char)) by (intros ->; discriminate Ec).
    destruct d; by apply (IH false). }
  case_decide as Hsep; [|done]. destruct (previous && _) eqn:Ep; [done|]. intros Hs Hd. rewrite (IH true) by done.
  rewrite orb_false_r. destruct (bool_decide_reflect (c = "."%char)) as [Hc|Hc]; [|by destruct d]. subst c. destruct d; [|done].
  rewrite Hd in Ep by done. discriminate Ep.
Qed.
Lemma repo_dots repo : validRepo repo = None -> dots false repo = false.
Proof.
  unfold validRepo. case_decide; [done|]. case_decide; [done|]. destruct (forallb _ _) eqn:E; [|done]. intros _.
  rewrite <-(join_split repo "/"%char). revert E. generalize (split repo "/"%char). intros l.
  induction l as [|w l IH]; [done|]. cbn [forallb]. intros [Hw Hl]%andb_true_iff.
  assert (dots false w = false) as Hd.
  { unfold validRepoSegment in Hw. case_decide; [done|]. by eapply segment_dots. }
  destruct l as [|w' l]; [done|]. rewrite join_cons by done. rewrite dots_slash, Hd. by apply IH.
Qed.

(** *** Requests at the paths the module hands out *)

Lemma api_path_root rest method header body query :
  dots false rest = false -> api_path (mkHttp method ("/" +:+ apiRoot +:+ "/" +:+ rest) header body query) = Ok rest.
Proof.
  intros Hd. unfold api_path. cbn [rq_path].
  change ("/" +:+ apiRoot +:+ "/" +:+ rest) with ("/" +:+ ((apiRoot +:+ "/") +:+ rest)). rewrite trim_prefix_app, no_dots.
  - unfold cut_prefix. by rewrite has_prefix_app_r, trim_prefix_app.
  - change ((apiRoot +:+ "/") +:+ rest) with (apiRoot +:+ "/" +:+ rest). by rewrite dots_slash.
Qed.

Lemma not_tags repo kind reference :
  kind <> "tags" -> contains_char kind "/"%char = false -> contains_char reference "/"%char = false ->
  has_suffix (repo +:+ "/" +:+ kind +:+ "/" +:+ reference) sepTagsList = false.
Proof.
  intros Hk Hf Hr. unfold has_suffix. destruct (cut_suffix _ _) as [p [|]] eqn:E; [|done]. exfalso.
  apply cut_suffix_true in E. change (p +:+ sepTagsList) with (p +:+ "/" +:+ "tags" +:+ "/" +:+ "list") in E.
  by apply path_inj in E as (_ & ? & _).
Qed.

(** Whole segments [segs] in a name, not at its start. *)
Definition has_run (segs : list string) (repo : string) : Prop :=
  exists l1 l2, l1 <> [] /\ split repo "/"%char = l1 ++ segs ++ l2.
Lemma no_run sep segs x repo kind reference :
  (forall a b, split (a +:+ sep +:+ b) "/"%char = split a "/"%char ++ (segs ++ [x]) ++ split b "/"%char) ->
  kind <> x -> contains_char kind "/"%char = false -> contains_char reference "/"%char = false ->
  ~ has_run (segs ++ [x]) repo -> cut_last sep (repo +:+ "/" +:+ kind +:+ "/" +:+ reference) = None.
Proof.
  intros Hsep Hx Hk Hr Hn. destruct (cut_last _ _) as [[a b]|] eqn:E; [|done]. exfalso.
  apply cut_last_Some, (f_equal (fun s => split s "/"%char)) in E. rewrite split_path, Hsep in E by done.
  destruct (exists_last (split_nonempty b "/"%char)) as (l & y & Hb). rewrite Hb in E.
  change [kind; reference] with ([kind] ++ [reference]) in E. rewrite !(assoc_L (++)) in E.
  apply app_inj_tail in E as [E _]. destruct (decide (l = [])) as [->|Hl].
  - rewrite app_nil_r in E. by apply app_inj_tail in E as [_ ?].
  - destruct (exists_last Hl) as (l' & z & ->). rewrite !(assoc_L (++)) in E. apply app_inj_tail in E as [E _].
    apply Hn. exists (split a "/"%char), l'. split; [apply split_nonempty|]. by rewrite E, !(assoc_L (++)).
Qed.
Lemma split_uploads a b : split (a +:+ sepUploads +:+ b) "/"%char = split a "/"%char ++ (["blobs"] ++ ["uploads"]) ++ split b "/"%char.
Proof.
  change (a +:+ sepUploads +:+ b) with (a +:+ String "/" ("blobs" +:+ String "/" ("uploads" +:+ String "/" b))).
  by rewrite !split_app.
Qed.
Lemma split_manifests a b : split (a +:+ sepManifests +:+ b) "/"%char = split a "/"%char ++ ([] ++ ["manifests"]) ++ split b "/"%char.
Proof.
  change (a +:+ sepManifests +:+ b) with (a +:+ String "/" ("manifests" +:+ String "/" b)). by rewrite !split_app.
Qed.

Lemma parseRef_upload repo uploadID : validRepo repo = None -> contains_char uploadID "/"%char = false ->
  parseRef (repo +:+ sepUploads +:+ uploadID) = Ok (mkRef repo refUpload uploadID).
Proof.
  intros Hv Hf. unfold parseRef.
  assert (has_suffix (repo +:+ sepUploads +:+ uploadID) sepTagsList = false) as ->.
  { change sepUploads with ("/blobs" +:+ "/" +:+ "uploads" +:+ "/"). rewrite <-!str_app_assoc, str_app_assoc. by apply not_tags. }
  rewrite (cut_last_app _ repo _ "" uploadID), str_app_nil_r.
  - unfold with_repo. by rewrite Hv.
  - apply (cut_last_here _ "/"%char "blobs/uploads/"); [done|]. rewrite count_char_app, (count_char_zero uploadID) by done. vm_compute. lia.
Qed.
Lemma parseRef_manifests repo reference :
  validRepo repo = None -> reference <> "" -> contains_char reference "/"%char = false -> ~ has_run ["blobs"; "uploads"] repo ->
  parseRef (repo +:+ sepManifests +:+ reference) = Ok (mkRef repo refManifest reference).
Proof.
  intros Hv Hne Hf Hn. unfold parseRef.
  assert (repo +:+ sepManifests +:+ reference = repo +:+ "/" +:+ "manifests" +:+ "/" +:+ reference) as Hr by done.
  rewrite Hr, not_tags, (no_run sepUploads ["blobs"] "uploads") by (done || apply split_uploads). rewrite <-Hr.
  rewrite (cut_last_app _ repo _ "" reference), str_app_nil_r.
  - unfold with_repo, one_segment. rewrite Hv, decide_False, Hf by done. done.
  - apply (cut_last_here _ "/"%char "manifests/"); [done|]. rewrite count_char_app, (count_char_zero reference) by done. vm_compute. lia.
Qed.
Lemma parseRef_blobs repo reference :
  validRepo repo = None -> reference <> "" -> contains_char reference "/"%char = false ->
  ~ has_run ["blobs"; "uploads"] repo -> ~ has_run ["manifests"] repo ->
  parseRef (repo +:+ sepBlobs +:+ reference) = Ok (mkRef repo refBlob reference).
Proof.
  intros Hv Hne Hf Hn Hm. unfold parseRef.
  assert (repo +:+ sepBlobs +:+ reference = repo +:+ "/" +:+ "blobs" +:+ "/" +:+ reference) as Hr by done.
  rewrite Hr, not_tags, (no_run sepUploads ["blobs"] "uploads") by (done || apply split_uploads).
  rewrite (no_run sepManifests [] "manifests") by (done || apply split_manifests). rewrite <-Hr.
  rewrite (cut_last_app _ repo _ "" reference), str_app_nil_r.
  - unfold with_repo, one_segment. rewrite Hv, decide_False, Hf by done. done.
  - apply (cut_last_here _ "/"%char "blobs/"); [done|]. rewrite count_char_app, (count_char_zero reference) by done. vm_compute. lia.
Qed.

(** The site's root leads to the feed. *)
Lemma route_feed f rest :
  f_name f <> "" -> contains_char (f_name f) "/"%char = false -> Contains (f_name f) ".." = false ->
  RouteToFeed (feedURL f +:+ "/" +:+ rest) = Some (f_name f, "/" +:+ apiRoot +:+ "/" +:+ rest).
Proof.
  intros Hne Hf Hd. unfold RouteToFeed, cut_prefix, feedURL.
  assert (("/" +:+ apiRoot +:+ "/" +:+ formatName +:+ "/" +:+ f_name f) +:+ "/" +:+ rest
          = "/v2/" +:+ (formatName +:+ String "/" (f_name f +:+ String "/" rest))) as -> by done.
  change ("/" +:+ apiRoot +:+ "/") with "/v2/". rewrite has_prefix_app_r, trim_prefix_app. cbn [mbind option_bind].
  rewrite Cut_char_app by done. cbn [mbind option_bind]. rewrite decide_False by (intros H; by apply H).
  rewrite Cut_char_app by done. cbn [mbind option_bind]. by rewrite decide_False, Hd.
Qed.

(** ** Images are complete *)

(** The path is one a manifest needs in its repository: its config, a layer that
    is not hosted elsewhere, a manifest of its index. *)
Definition needs (repo : string) (doc : manifestDoc) (path : string) : Prop :=
  (md_config doc <> "" /\ path = blobPath repo (md_config doc))
  \/ (exists l, l ∈ md_layers doc /\ la_digest l <> "" /\ has_suffix (la_mediaType l) ".foreign.diff.tar.gzip" = false
        /\ path = blobPath repo (la_digest l))
  \/ (exists d, d ∈ md_manifests doc /\ d <> "" /\ path = manifestPath repo d).
Lemma needs_checked repo doc path : needs repo doc path ->
  path ∈ (blobPath repo <$> referencedBlobs doc) ++ (manifestPath repo <$> filter (fun d => d <> "") (md_manifests doc)).
Proof.
  rewrite elem_of_app. intros [[Hc ->]|[(l & Hl & Hd & Hm & ->)|(d & Hd & Hne & ->)]]; [left|left|right].
  - apply list_elem_of_fmap_2. unfold referencedBlobs. rewrite decide_True by done. by left.
  - apply list_elem_of_fmap_2. unfold referencedBlobs. apply elem_of_app. right. apply list_elem_of_omap.
    exists l. split; [done|]. by rewrite decide_False, Hm.
  - apply list_elem_of_fmap_2. by apply list_elem_of_filter.
Qed.

Section images.
Context (digest : string -> string -> string) {St Ctx Ps As : Type}.
Context `{BS : !BlobStore (digest "sha256") St} `{MC : !ManifestCodec}.
Context (blob_list : string -> St -> result api_error (list (string * Z))) (error_text : api_error -> string).
Context (site : string) (engine : Engine) (env : ReqEnv (Ctx := Ctx) (As := As)) (journal db_up : bool).
Context (unmarshal : string -> option manifestDoc) (newUploadID : HttpReq -> option string).
Notation sha256 := (digest "sha256").
Notation W := (W (St := St) (Ps := Ps)).

(** A manifest row holds the bytes of a document whose references are rows of
    the feed, and a row at a digest holds that digest. *)
Definition complete (f : Feed) (db : option DB) (repo : string) (row : HostedRow) : Prop :=
  exists body doc, sha256 body = h_sha256 row /\ unmarshal body = Some doc
    /\ forall p, needs repo doc p -> is_Some (row_at db (f_name f, p)).
Record images (f : Feed) (db : option DB) : Prop := {
  im_complete : forall repo ref row, contains_char ref "/"%char = false ->
    row_at db (f_name f, manifestPath repo ref) = Some row -> complete f db repo row;
  im_manifest : forall repo hex row, contains_char hex "/"%char = false ->
    row_at db (f_name f, manifestPath repo ("sha256:" +:+ hex)) = Some row -> h_sha256 row = hex;
  im_blob : forall repo hex row, contains_char hex "/"%char = false ->
    row_at db (f_name f, blobPath repo ("sha256:" +:+ hex)) = Some row -> h_sha256 row = hex;
}.

(** Rows are only added or replaced. *)
Definition grows (db db' : option DB) : Prop := forall key, is_Some (row_at db key) -> is_Some (row_at db' key).

Lemma complete_grows f db db' repo row : grows db db' -> complete f db repo row -> complete f db' repo row.
Proof. intros Hg (body & doc & H1 & H2 & H3). exists body, doc. split_and!; auto. Qed.

(** [db'] has one row more or one row replaced, at a path of the feed. *)
Definition one_row (f : Feed) (path sha : string) (db db' : option DB) : Prop := forall key,
  row_at db' key = row_at db key
  \/ exists row, key = (f_name f, path) /\ row_at db' key = Some row /\ h_sha256 row = sha.
Lemma one_row_grows f path sha db db' : one_row f path sha db db' -> grows db db'.
Proof. intros H key Hk. destruct (H key) as [->|(row & _ & -> & _)]; eauto. Qed.

Lemma images_one f path sha db db' :
  one_row f path sha db db' -> images f db ->
  (forall repo ref row, contains_char ref "/"%char = false -> path = manifestPath repo ref -> h_sha256 row = sha ->
     complete f db' repo row) ->
  (forall repo hex, contains_char hex "/"%char = false ->
     path = manifestPath repo ("sha256:" +:+ hex) \/ path = blobPath repo ("sha256:" +:+ hex) -> sha = hex) ->
  images f db'.
Proof.
  intros Ho [H1 H2 H3] Hc Ha. pose proof (one_row_grows _ _ _ _ _ Ho) as Hg. split; intros repo x row Hx Hrow.
  - destruct (Ho (f_name f, manifestPath repo x)) as [He|(row' & [= Hk] & Hr & Hs)].
    + rewrite He in Hrow. eapply complete_grows; [done|]. by eapply H1.
    + rewrite Hr in Hrow. injection Hrow as ->. by eapply Hc.
  - destruct (Ho (f_name f, manifestPath repo ("sha256:" +:+ x))) as [He|(row' & [= Hk] & Hr & Hs)].
    + rewrite He in Hrow. by eapply H2.
    + rewrite Hr in Hrow. injection Hrow as ->. rewrite Hs. eapply Ha; eauto.
  - destruct (Ho (f_name f, blobPath repo ("sha256:" +:+ x))) as [He|(row' & [= Hk] & Hr & Hs)].
    + rewrite He in Hrow. by eapply H3.
    + rewrite Hr in Hrow. injection Hrow as ->. rewrite Hs. eapply Ha; eauto.
Qed.

Lemma sha_flat hex : contains_char hex "/"%char = false -> contains_char ("sha256:" +:+ hex) "/"%char = false.
Proof. done. Qed.

Lemma images_blob f db db' repo hex :
  contains_char hex "/"%char = false -> one_row f (blobPath repo ("sha256:" +:+ hex)) hex db db' ->
  images f db -> images f db'.
Proof.
  intros Hx Ho Hi. eapply images_one; [done..| |].
  - intros repo' ref row Hr He. exfalso. revert He. by apply blob_manifest_path.
  - intros repo' hex' Hh [He|He]; [exfalso; revert He; by apply blob_manifest_path|].
    by apply blobPath_inj in He as [_ [= ->]].
Qed.

Lemma images_manifest f db db' repo ref body doc :
  contains_char ref "/"%char = false -> unmarshal body = Some doc ->
  (forall p, needs repo doc p -> is_Some (row_at db (f_name f, p))) ->
  ref = "sha256:" +:+ sha256 body \/ contains_char ref ":"%char = false ->
  one_row f (manifestPath repo ref) (sha256 body) db db' -> images f db -> images f db'.
Proof.
  intros Hf Hu Hp Href Ho Hi. eapply images_one; [done..| |].
  - intros repo' ref' row Hr He Hs. apply manifestPath_inj in He as [<- <-]; [|done..].
    exists body, doc. split_and!; [done..|]. intros p Hin. eapply one_row_grows; eauto.
  - intros repo' hex' Hh [He|He]; [|exfalso; symmetry in He; revert He; by apply blob_manifest_path].
    apply manifestPath_inj in He as [_ ->]; [|done..]. by destruct Href as [[= ->]|].
Qed.

(** The publish function a module runs with, for a feed that has a name. *)
Context (fr : feedRuntime (St := St) (Ctx := Ctx) (Ps := Ps)) (id : Identity).
Notation pub := (deps_publish digest error_text site engine env journal db_up fr id).
Notation triple := (triple digest blob_list env db_up pub).
Notation feed := (fr_feed fr).
Definition ok (w : W) : Prop := images feed (w_db w).

Lemma publish_one r w w' x : pr_feed r = feed -> pub r w = (w', x) -> one_row feed (pr_path r) (pr_sha256 r) (w_db w) (w_db w').
Proof. intros Hf Hp key. apply deps_publish_rows with (key := key) in Hp. by rewrite Hf in Hp. Qed.

Lemma publishBlob_ok repo hex size :
  contains_char hex "/"%char = false -> triple ok (publishBlob feed repo hex size) (fun _ => ok).
Proof.
  intros Hx w w' a Hw. unfold publishBlob. cbn [run]. destruct (pub _ w) as [w1 x] eqn:E. intros Hr.
  assert (w' = w1) as -> by (destruct x; by injection Hr as <- _).
  apply publish_one in E; [|done]. by apply (images_blob _ (w_db w) _ repo hex).
Qed.

Lemma store_only {A} (p : prog A) : publishes (fun _ => False) p -> triple ok p (fun _ => ok).
Proof.
  intros Hp w w' a Hw Hr. unfold ok in *.
  by rewrite <-(run_database digest blob_list env db_up eq (fun _ => False) pub ltac:(done) p w w' a Hp Hr).
Qed.

Create HintDb oci.
Definition keeps {A} (p : prog A) : Prop := triple ok p (fun _ => ok).
Lemma keeps_ret {A} (a : A) : keeps (Ret a).
Proof. apply (triple_ret digest blob_list env db_up pub (fun _ => ok)). Qed.
Lemma keeps_try {A B} (p : presult A) (k : A -> presult B) : keeps p -> (forall a, keeps (k a)) -> keeps (ptry p k).
Proof. intros Hp Hk. eapply triple_try; [|exact Hk]. eapply triple_mono; [exact Hp|done|]. by intros [?|?] ? ?. Qed.
Lemma keeps_get {A} key (k : _ -> prog A) : (forall x, keeps (k x)) -> keeps (BlobGet key k).
Proof. intros Hk w w' a Hw Hr. by eapply Hk. Qed.
Lemma keeps_put {A} key body o (k : _ -> prog A) : (forall x, keeps (k x)) -> keeps (BlobPut key body o k).
Proof.
  intros Hk w w' a Hw. cbn [run]. destruct (Put _ _ _ _ _) as [st e]. by apply (Hk e (mkW (w_db w) st (w_pol w))).
Qed.
Lemma keeps_refused {A} e (k : presult A) : keeps k -> keeps (refused e k).
Proof. destruct e; [intros _; apply keeps_ret|done]. Qed.
#[local] Hint Resolve keeps_ret keeps_try keeps_get keeps_put keeps_refused publishBlob_ok : oci.

Lemma keeps_listed prefix : keeps (stagedParts prefix).
Proof. apply store_only. by intros [?|?]. Qed.
Lemma delete_keys_quiet P keys : publishes P (delete_keys keys).
Proof. induction keys as [|key keys IH]; [done|]. by intros [?|]. Qed.
Lemma keeps_deleted prefix : keeps (deleteParts prefix).
Proof. apply store_only, publishes_try; [by intros [?|?]|]. intros a. apply delete_keys_quiet. Qed.
Lemma keeps_read keys : keeps (read_parts keys).
Proof.
  apply store_only. induction keys as [|key keys IH]; [done|]. intros [o|e]; [|done].
  by apply publishes_try.
Qed.
#[local] Hint Resolve keeps_listed keeps_deleted keeps_read : oci.

Lemma keeps_commit repo uploadID d : keeps (commitUpload feed repo uploadID d).
Proof.
  unfold commitUpload. destruct (parseDigest d) as [want|] eqn:E; [|apply keeps_ret]. apply hex_flat in E.
  case_decide; [apply keeps_ret|]. apply keeps_try; [auto with oci|]. intros [parts total].
  case_decide; [apply keeps_ret|]. apply keeps_try; [auto with oci|]. intros body.
  apply keeps_put. intros e. apply keeps_refused. apply keeps_try; [by apply publishBlob_ok|]. intros _.
  apply keeps_try; auto with oci. intros. apply keeps_ret.
Qed.
Lemma keeps_stage repo uploadID offset body : keeps (stagePart feed repo uploadID offset body).
Proof. apply keeps_put. intros e. apply keeps_refused, keeps_ret. Qed.
Lemma keeps_size repo uploadID : keeps (stagedSize feed repo uploadID).
Proof. apply keeps_try; [auto with oci|]. intros. apply keeps_ret. Qed.
#[local] Hint Resolve keeps_commit keeps_stage keeps_size : oci.

Lemma keeps_append r repo uploadID : keeps (appendChunk feed r repo uploadID).
Proof.
  unfold appendChunk. destruct (validUploadID _); [apply keeps_ret|]. apply keeps_try; [auto with oci|]. intros offset.
  case_bool_decide; [apply keeps_ret|]. apply keeps_try; [auto with oci|]. intros. apply keeps_ret.
Qed.
Lemma keeps_finish r repo uploadID : keeps (finishUpload feed r repo uploadID).
Proof.
  unfold finishUpload. destruct (validUploadID _); [apply keeps_ret|]. case_decide; [apply keeps_ret|]. auto with oci.
Qed.
Lemma keeps_session r repo : keeps (new_session newUploadID feed r repo).
Proof.
  unfold new_session. destruct (newUploadID r); [|apply keeps_ret]. case_decide; [|apply keeps_ret]. auto with oci.
Qed.
Lemma keeps_start r repo : keeps (startUpload newUploadID feed r repo).
Proof.
  unfold startUpload. case_decide; [|apply keeps_session]. destruct (parseDigest _) as [d|] eqn:E; [|apply keeps_ret].
  apply hex_flat in E. apply keeps_get. intros [info|e]; [|apply keeps_session].
  apply keeps_try; [by apply publishBlob_ok|]. intros. apply keeps_ret.
Qed.

Context (named : f_name feed <> "").
(** What [requirePublished] found is a row of the feed. *)
Lemma run_required path w w' a :
  run digest blob_list env db_up pub (requirePublished feed path) w = (w', a) ->
  w' = w /\ (a = Ok () -> is_Some (row_at (w_db w) (f_name feed, path))).
Proof.
  unfold requirePublished. cbn [run]. destruct (w_db w) as [db|]; [|by intros [= <- <-]].
  destruct db_up; [|by intros [= <- <-]]. case_bool_decide as He; [|by intros [= <- <-]].
  intros [= <- <-]. split; [done|]. intros _. apply Exists_exists in He as ([[p c] row] & Hin & Hp). simpl in Hp. subst p.
  unfold Manifests in Hin. apply list_elem_of_fmap in Hin as ([[f p] row'] & [= Hpath _ _] & Hin). simpl in Hpath. subst p.
  apply elem_of_ListHosted in Hin. simpl in Hin. destruct Hin as (Hl & Hf & _). exists row'. simpl. 
  rewrite <-Hl. f_equal. f_equal. by destruct Hf as [|<-].
Qed.
Lemma run_references paths w w' a :
  run digest blob_list env db_up pub (require_all feed paths) w = (w', a) ->
  w' = w /\ (a = Ok () -> forall p, p ∈ paths -> is_Some (row_at (w_db w) (f_name feed, p))).
Proof.
  revert w w' a. induction paths as [|path paths IH]; intros w w' a; cbn [require_all].
  { intros [= <- <-]. split; [done|]. by intros _ p ?%elem_of_nil. }
  unfold ptry. rewrite run_bind. destruct (run _ _ _ _ _ (requirePublished _ _) w) as [w1 x] eqn:E.
  apply run_required in E as [-> Hx]. destruct x as [[]|e]; [|by intros [= <- <-]].
  intros H. apply IH in H as [-> Hr]. split; [done|]. intros Ha p [->|Hin]%elem_of_cons; [by apply Hx|by apply Hr].
Qed.

(** Digests are printed in hex. *)
Context (hex_digest : forall body, contains_char (sha256 body) "/"%char = false).

Lemma publish_manifest_ok repo ref size mt mutable body doc :
  contains_char ref "/"%char = false -> unmarshal body = Some doc ->
  ref = "sha256:" +:+ sha256 body \/ contains_char ref ":"%char = false ->
  let there (w : W) := forall p, needs repo doc p -> is_Some (row_at (w_db w) (f_name feed, p)) in
  triple (fun w => ok w /\ there w) (publish_manifest feed repo ref (sha256 body) size mt mutable)
    (fun _ w => ok w /\ there w).
Proof.
  intros Hf Hu Href there w w' a [Hw Hn]. unfold publish_manifest. cbn [run]. destruct (pub _ w) as [w1 x] eqn:E.
  intros [= <- <-]. apply publish_one in E; [|done]. simpl in E. split; [by eapply images_manifest|].
  intros p Hp. eapply one_row_grows; [exact E|]. by apply Hn.
Qed.

Lemma keeps_manifest r repo reference :
  contains_char reference "/"%char = false -> keeps (putManifest sha256 unmarshal feed r repo reference).
Proof.
  intros Hflat. unfold putManifest. set (body := limit_read _ _). case_decide; [apply keeps_ret|].
  destruct (unmarshal body) as [doc|] eqn:Hu; [|apply keeps_ret]. set (mt := if decide _ then _ else _).
  destruct (negb (acceptableMediaType mt)); [apply keeps_ret|].
  destruct (match parseDigest reference with Some _ => _ | None => _ end) as [e|] eqn:Eb; [apply keeps_ret|].
  set (there := fun w : W => forall p, needs repo doc p -> is_Some (row_at (w_db w) (f_name feed, p))).
  eapply triple_try with (Q := fun _ w => ok w /\ there w).
  { intros w w' a Hw Hr. apply run_references in Hr as [-> Hr]. destruct a as [[]|e]; [|done].
    split; [done|]. intros p Hp. by apply (Hr eq_refl), needs_checked. }
  intros _ w w' a [Hw Hn]. cbn [run]. destruct (Put _ _ _ _ _) as [st [e|]]; [by intros [= <- <-]|]. cbn [refused].
  assert (ok (mkW (w_db w) st (w_pol w)) /\ there (mkW (w_db w) st (w_pol w))) as Hw1 by done. revert Hw1.
  generalize (mkW (w_db w) st (w_pol w)). clear w Hw Hn. intros w Hw. revert w w' a Hw.
  eapply triple_try with (Q := fun _ w => ok w /\ there w).
  { eapply triple_mono; [apply (publish_manifest_ok repo _ (size_of body) mt false body doc)|done|];
      [by apply sha_flat|done|by left|].
    intros [?|?] ? [? ?]; done. }
  intros _. eapply triple_try with (Q := fun _ => ok); [|intros _; apply keeps_ret].
  destruct (parseDigest reference) as [want|] eqn:Ed.
  { intros w w' a [Hw _] [= <- <-]. done. }
  destruct (validTag reference) eqn:Et; [|done]. apply validTag_chars in Et.
  eapply triple_mono; [apply (publish_manifest_ok repo reference (size_of body) mt true body doc)|done|];
    [done|done|by right|].
  intros [?|?] ? [? ?]; done.
Qed.

Lemma keeps_request r : keeps (HandlePublishHTTP sha256 unmarshal newUploadID feed r).
Proof.
  unfold HandlePublishHTTP. destruct (api_path r) as [rest|e]; [|apply keeps_ret].
  destruct (parseRef rest) as [ref|e] eqn:Er; [|apply keeps_ret].
  case_decide; [destruct (pf_kind ref); [apply keeps_ret..|apply keeps_start|apply keeps_ret]|].
  case_decide; [destruct (pf_kind ref); try apply keeps_ret; case_decide; [apply keeps_ret|apply keeps_append]|].
  case_decide.
  { destruct (pf_kind ref) eqn:Ek; try apply keeps_ret.
    - apply keeps_manifest. by eapply parseRef_manifest.
    - case_decide; [apply keeps_ret|apply keeps_finish]. }
  case_decide; [|apply keeps_ret]. destruct (pf_kind ref); try apply keeps_ret. case_decide; [apply keeps_ret|].
  apply keeps_try; [apply keeps_deleted|]. intros _. apply keeps_ret.
Qed.

Lemma keeps_host_publish r (s s' : Site (St := St) (Ps := Ps) (As := As)) x :
  host_publish digest blob_list error_text site engine env journal db_up fr
    (hoster sha256 unmarshal newUploadID) id r s = (s', x) ->
  images feed (si_db s) -> images feed (si_db s').
Proof.
  unfold host_publish. destruct (run _ _ _ _ _ _ _) as [w res] eqn:E. intros H Hi.
  apply (keeps_request r) in E; [|exact Hi]. destruct res as [resp|e]; [|by injection H as <- _].
  injection H as <- _. unfold Reindex. by destruct (f_hosted feed).
Qed.
End images.

(** ** The module keeps to its feed *)

Lemma staged_quiet P prefix : publishes P (stagedParts prefix).
Proof. by intros [?|?]. Qed.
Lemma read_quiet P keys : publishes P (read_parts keys).
Proof. induction keys as [|key keys IH]; [done|]. intros [o|e]; [|done]. by apply publishes_try. Qed.
Lemma deleted_quiet P prefix : publishes P (deleteParts prefix).
Proof. apply publishes_try; [by intros [?|?]|]. intros a. induction a.1 as [|key keys IH]; [done|]. by intros [?|]. Qed.
Lemma size_quiet P f repo uploadID : publishes P (stagedSize f repo uploadID).
Proof. apply publishes_try; [apply staged_quiet|done]. Qed.
Lemma stage_quiet P f repo uploadID offset body : publishes P (stagePart f repo uploadID offset body).
Proof. by intros [?|]. Qed.

Lemma scoped_blob f repo hex size : publishes (fun q => pr_feed q = f) (publishBlob f repo hex size).
Proof. split; [done|]. by intros [?|?]. Qed.
Lemma scoped_commit f repo uploadID d : publishes (fun q => pr_feed q = f) (commitUpload f repo uploadID d).
Proof.
  unfold commitUpload. destruct (parseDigest d); [|done]. case_decide; [done|].
  apply publishes_try; [apply staged_quiet|]. intros [parts total]. case_decide; [done|].
  apply publishes_try; [apply read_quiet|]. intros body e. apply publishes_refused, publishes_try; [apply scoped_blob|].
  intros _. apply publishes_try; [apply deleted_quiet|done].
Qed.
Lemma scoped_session newUploadID f r repo : publishes (fun q => pr_feed q = f) (new_session newUploadID f r repo).
Proof.
  unfold new_session. destruct (newUploadID r); [|done]. case_decide; [|done].
  apply publishes_try; [apply stage_quiet|]. intros. apply scoped_commit.
Qed.
Lemma scoped_start newUploadID f r repo : publishes (fun q => pr_feed q = f) (startUpload newUploadID f r repo).
Proof.
  unfold startUpload. case_decide; [|apply scoped_session]. destruct (parseDigest _); [|done].
  intros [info|e]; [|apply scoped_session]. by apply publishes_try; [apply scoped_blob|].
Qed.
Lemma required_quiet P f paths : publishes P (require_all f paths).
Proof.
  induction paths as [|path paths IH]; [done|]. apply publishes_try; [|done].
  intros [ms|e]; [|done]. by case_bool_decide.
Qed.
Lemma scoped_manifest sha256 unmarshal f r repo reference :
  publishes (fun q => pr_feed q = f) (putManifest sha256 unmarshal f r repo reference).
Proof.
  unfold putManifest. case_decide; [done|]. destruct (unmarshal _); [|done]. destruct (negb _); [done|].
  destruct (match parseDigest reference with Some _ => _ | None => _ end); [done|].
  apply publishes_try; [apply required_quiet|]. intros _ e. apply publishes_refused, publishes_try; [done|].
  intros _. apply publishes_try; [by destruct (parseDigest reference)|done].
Qed.

#[global] Instance oci_laws sha256 unmarshal newUploadID : HosterLaws (hoster sha256 unmarshal newUploadID).
Proof.
  split; [|done]. intros f r. simpl. unfold HandlePublishHTTP. destruct (api_path r) as [rest|]; [|done].
  destruct (parseRef rest) as [ref|]; [|done].
  case_decide; [destruct (pf_kind ref); try done; apply scoped_start|].
  case_decide; [destruct (pf_kind ref); try done; case_decide; [done|]|].
  { unfold appendChunk. destruct (validUploadID _); [done|]. apply publishes_try; [apply size_quiet|]. intros offset.
    case_bool_decide; [done|]. by apply publishes_try; [apply stage_quiet|]. }
  case_decide; [destruct (pf_kind ref); try done; [apply scoped_manifest|case_decide; [done|]]|].
  { unfold finishUpload. destruct (validUploadID _); [done|]. case_decide; [done|].
    apply publishes_try; [apply size_quiet|]. intros offset. apply publishes_try; [apply stage_quiet|].
    intros _. apply scoped_commit. }
  case_decide; [|done]. destruct (pf_kind ref); try done. case_decide; [done|].
  by apply publishes_try; [apply deleted_quiet|].
Qed.

(** ** Theorems *)

(** C16. No push leaves an image incomplete. Call a feed complete when every
    manifest row, at a digest or under a tag, holds a document whose config,
    layers other than foreign ones (which are hosted elsewhere) and, for an
    index, manifests are rows of the same repository, and a row at a digest
    holds that digest. Whoever pushes and whatever the request, what this site's
    publish handler writes into a complete feed leaves it complete. (Rows that
    replication brings are not checked, and not covered.) *)
Theorem images_stay_complete {St Ctx Ps As} (digest : string -> string -> string)
  `{BS : !BlobStore (digest "sha256") St} `{MC : !ManifestCodec} blob_list error_text site engine
  (env : ReqEnv (Ctx := Ctx) (As := As)) journal db_up unmarshal newUploadID forward
  (pu : pubRuntime (St := St) (Ctx := Ctx) (Ps := Ps)) r s s' resp :
  fr_name (pu_feed pu) <> "" -> (forall body, contains_char (digest "sha256" body) "/"%char = false) ->
  images digest unmarshal (fr_feed (pu_feed pu)) (si_db s) ->
  publishHandler digest blob_list error_text site engine env journal db_up forward pu
    (hoster (digest "sha256") unmarshal newUploadID) r s = (s', resp) ->
  images digest unmarshal (fr_feed (pu_feed pu)) (si_db s').
Proof.
  intros Hn Hx Hi. unfold publishHandler. destruct (identify env _ r (si_srv s)) as [srv who].
  destruct who as [a|e]; [|by intros [= <- _]].
  destruct (IsAnonymous _); [by intros [= <- _]|]. destruct (Auth.au_stale a); [by intros [= <- _]|].
  destruct (negb _); [by intros [= <- _]|]. destruct (negb _); [by intros [= <- _]|].
  case_bool_decide; [by intros [= <- _]|]. destruct (host_publish _ _ _ _ _ _ _ _ _ _ _ _ _) as [s1 res] eqn:Eh.
  apply keeps_host_publish in Eh; [|done..]. intros Heq.
  assert (s' = s1) as -> by (destruct res as [[[? ?] ?]|[? ?]]; by injection Heq as <- _). done.
Qed.

(** What a read at a URL of the site reaches: the feed and the object. *)
Definition reached (url : string) : option (string * result (api_error * string) Intent) :=
  '(name, path) ← RouteToFeed url; Some (name, Parse (mkHttp "GET" path ∅ "" "")).

Lemma parse_reference f repo sep reference kind :
  f_name f <> "" -> contains_char (f_name f) "/"%char = false -> Contains (f_name f) ".." = false ->
  dots false (repo +:+ sep +:+ reference) = false -> repo +:+ sep +:+ reference <> "_catalog" ->
  parseRef (repo +:+ sep +:+ reference) = Ok (mkRef repo kind reference) ->
  reached (feedURL f +:+ "/" +:+ repo +:+ sep +:+ reference)
  = Some (f_name f, Parse (mkHttp "GET" ("/" +:+ apiRoot +:+ "/" +:+ repo +:+ sep +:+ reference) ∅ "" ""))
  /\ api_path (mkHttp "GET" ("/" +:+ apiRoot +:+ "/" +:+ repo +:+ sep +:+ reference) ∅ "" "") = Ok (repo +:+ sep +:+ reference).
Proof. intros H1 H2 H3 Hd Hc Hp. split; [unfold reached; by rewrite route_feed|by apply api_path_root]. Qed.

Lemma not_catalog repo sep reference : contains_char sep "/"%char = true -> repo +:+ sep +:+ reference <> "_catalog".
Proof.
  intros Hs H%(f_equal (fun s => contains_char s "/"%char)). rewrite !contains_char_app, Hs, orb_true_r in H. discriminate H.
Qed.
Lemma digest_chars d c : parseDigest d = Some c ->
  dots false d = false /\ contains_char d "/"%char = false /\ d <> "".
Proof.
  unfold parseDigest. destruct (Cut d ":") as [[algo hex]|] eqn:E; [|done]. apply Cut_app in E as ->.
  case_decide as Hd; [done|]. destruct (all_chars lower_hex hex) eqn:Hx; [|done]. intros _.
  assert (algo = "sha256" \/ algo = "sha512") as Ha.
  { unfold digest_length in Hd. do 2 (case_decide; [by auto|]). naive_solver. }
  split_and!; destruct Ha as [-> | ->]; simpl; try done; first [by apply (dots_chars lower_hex) | by apply (all_chars_flat lower_hex)].
Qed.

(** A read of [reference]: [parsed] reads the path, [digest] the reference. *)
Ltac read_at f repo sep word reference kind parsed Hall digest :=
  let Hq := fresh in let Hp := fresh in
  destruct (parse_reference f repo sep reference kind) as [Hq Hp];
    [done..|by apply (Hall word)|by apply not_catalog|by apply parsed|];
  eexists; split; [etrans; [exact Hq|]; unfold Parse; rewrite Hp; cbn [rbind];
                   rewrite decide_False by (by apply not_catalog); rewrite parsed by done;
                   cbn [rbind pf_kind pf_reference]; rewrite digest; done | done].

(** Every URL the module hands out leads back, from the root of the site, to
    the feed, the repository and the object it was given for: a manifest or a
    blob at its digest is read with that digest as its checksum, a tag as the
    moving document it is, an upload session is that session. Names in which a
    protocol word is a segment of its own are set apart. *)
Theorem locations_lead_back f repo :
  f_name f <> "" -> contains_char (f_name f) "/"%char = false -> Contains (f_name f) ".." = false ->
  validRepo repo = None -> ~ has_run ["blobs"; "uploads"] repo ->
  (forall d c, parseDigest d = Some c -> exists i,
     reached (feedURL f +:+ "/" +:+ repo +:+ "/manifests/" +:+ d) = Some (f_name f, Ok i)
     /\ i_kind i = IntentArtifact /\ i_coord i = oci_coord repo d /\ i_path i = manifestPath repo d /\ i_checksum i = c)
  /\ (forall d c, parseDigest d = Some c -> ~ has_run ["manifests"] repo -> exists i,
     reached (feedURL f +:+ "/" +:+ repo +:+ "/blobs/" +:+ d) = Some (f_name f, Ok i)
     /\ i_kind i = IntentArtifact /\ i_coord i = oci_coord repo "" /\ i_path i = blobPath repo d /\ i_checksum i = c)
  /\ (forall tag, validTag tag = true -> contains_char tag "/"%char = false -> dots false tag = false -> exists i,
     reached (feedURL f +:+ "/" +:+ repo +:+ "/manifests/" +:+ tag) = Some (f_name f, Ok i)
     /\ i_kind i = IntentMetadata /\ i_coord i = oci_coord repo tag /\ i_path i = manifestPath repo tag)
  /\ (forall uploadID, validUploadID uploadID = None -> exists path rest,
     RouteToFeed (feedURL f +:+ "/" +:+ repo +:+ "/blobs/uploads/" +:+ uploadID) = Some (f_name f, path)
     /\ api_path (mkHttp "PATCH" path ∅ "" "") = Ok rest /\ parseRef rest = Ok (mkRef repo refUpload uploadID)).
Proof.
  intros Hn Hs Hd Hv Hr. pose proof (repo_dots repo Hv) as Hdots.
  assert (forall kind x, dots false kind = false -> dots false x = false ->
            dots false (repo +:+ ("/" +:+ kind +:+ "/") +:+ x) = false) as Hall.
  { intros kind x Hk Hx. assert (repo +:+ ("/" +:+ kind +:+ "/") +:+ x = repo +:+ "/" +:+ kind +:+ "/" +:+ x) as ->.
    { by rewrite <-!str_app_assoc. } by rewrite !dots_slash, Hdots, Hk. }
  split_and!.
  - intros d c Hc. destruct (digest_chars d c Hc) as (H1 & H2 & H3).
    read_at f repo sepManifests "manifests" d refManifest parseRef_manifests Hall Hc.
  - intros d c Hc Hm. destruct (digest_chars d c Hc) as (H1 & H2 & H3).
    read_at f repo sepBlobs "blobs" d refBlob parseRef_blobs Hall Hc.
  - intros tag Ht Hf Hx. assert (tag <> "") as Hne by (by intros ->).
    assert (parseDigest tag = None) as Hp0.
    { apply validTag_chars, Cut_char_none in Ht. unfold parseDigest. by rewrite Ht. }
    read_at f repo sepManifests "manifests" tag refManifest parseRef_manifests Hall Hp0.
  - intros uploadID Hid. assert (all_chars upload_char uploadID = true) as Hx.
    { revert Hid. unfold validUploadID. case_decide; [done|]. by destruct (all_chars _ _). }
    eexists _, (repo +:+ sepUploads +:+ uploadID). split; [by apply route_feed|]. split.
    + apply api_path_root. change sepUploads with ("/" +:+ "blobs/uploads" +:+ "/"). apply Hall; [done|].
      by apply (dots_chars upload_char).
    + apply parseRef_upload; [done|]. by apply (all_chars_flat upload_char).
Qed.
End Oci.
