(* ===== verification/OciUploads.v ===== *)
(** * Upload sessions of the OCI module

    A push sends a layer as a sequence of chunks. The module keeps a session
    nowhere but in the store: a chunk is an object named after its offset, the
    offset to continue from is the total size listed, and the layer is the
    chunks in listing order. Here that is shown to be a buffer: chunks are
    appended, and a finished upload publishes exactly the bytes appended when
    their digest is the one the client named. *)

From S2P Require Import Prelude GoLib Access State StateTheory Store Listing Pipeline Publisher Policies Auth Config Server WriteRoutes ModLib Oci.
From Stdlib Require Import Sorting.Sorted.
Open Scope Z_scope.

Module OciUploads.
Import Server WriteRoutes Oci.

(** ** Chunks and their keys *)

Lemma size_app a b : size_of (a +:+ b) = size_of a + size_of b.
Proof. unfold size_of. rewrite str_length_app. lia. Qed.
Lemma size_pos a : 0 <= size_of a.
Proof. unfold size_of. lia. Qed.
Lemma size_nonempty a : a <> "" -> 0 < size_of a.
Proof. unfold size_of. destruct a; [done|]. simpl. lia. Qed.

Fixpoint cat (cs : list string) : string := match cs with [] => "" | c :: cs => c +:+ cat cs end.
Lemma cat_app cs ds : cat (cs ++ ds) = cat cs +:+ cat ds.
Proof. induction cs as [|c cs IH]; simpl; [done|]. by rewrite IH, str_app_assoc. Qed.

(** The chunks from an offset on, each under its key. *)
Fixpoint laid (prefix : string) (offset : Z) (cs : list string) : list (string * string) :=
  match cs with
  | [] => []
  | c :: cs => (part_key prefix offset, c) :: laid prefix (offset + size_of c) cs
  end.
Lemma laid_app prefix off cs ds : laid prefix off (cs ++ ds) = laid prefix off cs ++ laid prefix (off + size_of (cat cs)) ds.
Proof.
  revert off. induction cs as [|c cs IH]; intros off; simpl.
  - by rewrite Z.add_0_r.
  - rewrite IH, size_app. do 3 f_equal. lia.
Qed.

(** Sixteen digits hold every offset below this. *)
Definition capacity : Z := 10 ^ 16.

Lemma part_key_lt prefix a b : 0 <= a < b -> b < capacity -> str_lt (part_key prefix a) (part_key prefix b).
Proof. intros Ha Hb. apply str_lt_app. by apply zero_padded_lt. Qed.
Lemma part_key_flat prefix a : 0 <= a < capacity ->
  exists r, part_key prefix a = prefix +:+ r /\ contains_char r "/"%char = false.
Proof.
  intros Ha. exists (zero_padded partWidth a). split; [done|]. unfold zero_padded.
  rewrite decide_True by exact Ha. apply decimal_digits_flat. lia.
Qed.

Lemma laid_keys prefix off cs k c : (k, c) ∈ laid prefix off cs ->
  exists a, k = part_key prefix a /\ off <= a /\ a + size_of c <= off + size_of (cat cs).
Proof.
  revert off. induction cs as [|d cs IH]; intros off; simpl; [by intros ?%elem_of_nil|].
  rewrite size_app. pose proof (size_pos d). pose proof (size_pos (cat cs)).
  intros [[= -> ->]|Hin]%elem_of_cons; [exists off; split; [done|lia]|].
  destruct (IH _ Hin) as (a & -> & ? & ?). exists a. split; [done|lia].
Qed.

(** A session: chunks that are not empty, and perhaps one more that is (its key
    is where the next chunk goes). *)
Definition entries (prefix : string) (cs : list string) (open : bool) : list (string * string) :=
  laid prefix 0 (cs ++ if open then [""] else []).

Lemma laid_sorted prefix off cs d :
  0 <= off -> Forall (fun c => c <> "") cs -> off + size_of (cat cs) + size_of (cat d) < capacity -> (length d <= 1)%nat ->
  StronglySorted (fun a b => str_lt a.1 b.1) (laid prefix off (cs ++ d)).
Proof.
  intros Hoff Hcs. revert off Hoff. induction Hcs as [|c cs Hc Hcs IH]; intros off Hoff Hcap Hd; simpl.
  { destruct d as [|x [|y d]]; simpl in *; [constructor|repeat constructor|lia]. }
  simpl in Hcap. rewrite size_app in Hcap. pose proof (size_nonempty c Hc). pose proof (size_pos (cat cs)).
  pose proof (size_pos (cat d)). constructor; [apply IH; [lia|lia|done]|].
  apply List.Forall_forall. intros [k b] Hin%list_elem_of_In. apply laid_keys in Hin as (a & -> & Ha & Hb). simpl.
  rewrite cat_app, size_app in Hb. pose proof (size_pos b). apply part_key_lt; lia.
Qed.
Lemma entries_sorted prefix cs open :
  Forall (fun c => c <> "") cs -> size_of (cat cs) < capacity ->
  StronglySorted (fun a b => str_lt a.1 b.1) (entries prefix cs open).
Proof. intros Hcs Hcap. apply laid_sorted; [done..| |]; destruct open; simpl; try lia; change (size_of "") with 0; lia. Qed.

(** Two strictly sorted lists with the same elements. *)
Lemma sorted_same {A} (R : A -> A -> Prop) (l1 l2 : list A) :
  (forall x y, R x y -> R y x -> False) -> StronglySorted R l1 -> StronglySorted R l2 ->
  (forall x, x ∈ l1 <-> x ∈ l2) -> l1 = l2.
Proof.
  intros Ha. assert (forall x, ~ R x x) as Hi by (intros x Hx; by apply (Ha x x)).
  revert l2. induction l1 as [|x l1 IH]; intros l2 S1 S2 He.
  { destruct l2 as [|y l2]; [done|]. by assert (y ∈ []) as ?%elem_of_nil by (apply He; left). }
  destruct l2 as [|y l2]; [by assert (x ∈ []) as ?%elem_of_nil by (apply He; left)|].
  apply StronglySorted_inv in S1 as [S1 F1]. apply StronglySorted_inv in S2 as [S2 F2].
  rewrite List.Forall_forall in F1, F2. setoid_rewrite <-list_elem_of_In in F1. setoid_rewrite <-list_elem_of_In in F2.
  assert (x = y) as <-.
  { assert (x ∈ y :: l2) as [|Hx]%elem_of_cons by (apply He; left); [done|].
    assert (y ∈ x :: l1) as [|Hy]%elem_of_cons by (apply He; left); [done|].
    exfalso. by apply (Ha x y); auto. }
  f_equal. apply IH; [done..|]. intros z. split; intros Hz.
  - assert (z ∈ x :: l2) as [->|]%elem_of_cons by (apply He; by right); [|done]. exfalso. apply (Hi x). auto.
  - assert (z ∈ x :: l1) as [->|]%elem_of_cons by (apply He; by right); [|done]. exfalso. apply (Hi x). auto.
Qed.

Section sessions.
Context (digest : string -> string -> string) {St Ctx Ps As : Type}.
Context `{BS : !BlobStore (digest "sha256") St} `{MC : !ManifestCodec} {BL : BlobLister BS}.
Context (error_text : api_error -> string) (site : string) (engine : Engine) (env : ReqEnv (Ctx := Ctx) (As := As)).
Context (journal db_up : bool) (fr : feedRuntime (St := St) (Ctx := Ctx) (Ps := Ps)) (id : Identity).

(** The listing a module sees: keys and sizes. *)
Definition listing (prefix : string) (st : St) : result api_error (list (string * Z)) :=
  match List prefix st with
  | Ok infos => Ok ((fun ko => (ko.1, size_of (o_body ko.2))) <$> infos)
  | Err e => Err e
  end.
Notation pub := (deps_publish digest error_text site engine env journal db_up fr id).
Notation run := (run digest listing env db_up pub).
Notation feed := (fr_feed fr).

(** What is under the prefix are the chunks that make up [buf]. *)
Definition holds (prefix : string) (cs : list string) (open : bool) (st : St) : Prop :=
  Forall (fun c => c <> "") cs
  /\ forall k c, has_prefix k prefix = true -> o_body <$> found (Get k st) = Some c <-> (k, c) ∈ entries prefix cs open.
Definition session (prefix buf : string) (st : St) : Prop := exists cs open, holds prefix cs open st /\ cat cs = buf.

Lemma entries_prefix prefix cs open k c : (k, c) ∈ entries prefix cs open -> has_prefix k prefix = true.
Proof. intros (a & -> & _)%laid_keys. apply has_prefix_app_r. Qed.
Lemma entries_offset prefix cs open k c : (k, c) ∈ entries prefix cs open ->
  exists a, k = part_key prefix a /\ 0 <= a <= size_of (cat cs).
Proof.
  intros (a & -> & H1 & H2)%laid_keys. exists a. split; [done|]. pose proof (size_pos c). rewrite cat_app, size_app in H2.
  destruct open; simpl in H2; change (size_of "") with 0 in H2; lia.
Qed.

Lemma list_session prefix cs open st infos :
  holds prefix cs open st -> size_of (cat cs) < capacity -> List prefix st = Ok infos ->
  (fun ko => (ko.1, o_body ko.2)) <$> infos = entries prefix cs open.
Proof.
  intros [Hcs Hh] Hcap Hl. pose proof (list_objects prefix st infos) as Ho.
  assert (forall k c, (k, c) ∈ (fun ko : string * Obj => (ko.1, o_body ko.2)) <$> infos <-> (k, c) ∈ entries prefix cs open) as He.
  { intros k c. split.
    - intros ([k' o] & [= -> ->] & [Hp Hf]%(Ho _ _ Hl))%list_elem_of_fmap. apply Hh; [done|]. by rewrite Hf.
    - intros Hin. pose proof (entries_prefix _ _ _ _ _ Hin) as Hp. apply Hh in Hin; [|done].
      destruct (found (Get k st)) as [o|] eqn:Ef; [|done]. injection Hin as <-.
      apply list_elem_of_fmap. exists (k, o). split; [done|]. by apply (Ho _ _ Hl). }
  apply (sorted_same (fun a b => str_lt a.1 b.1)).
  - intros x y H1 H2. by apply (str_lt_asym _ _ H1).
  - assert (StronglySorted str_lt infos.*1) as Hs.
    { apply (list_ordered prefix st); [done|]. intros k o Hin.
      assert ((k, o_body o) ∈ entries prefix cs open) as (a & -> & Ha)%entries_offset.
      { apply He, list_elem_of_fmap. by exists (k, o). }
      apply part_key_flat. lia. }
    clear -Hs. induction infos as [|[k o] infos IH]; [constructor|]. apply StronglySorted_inv in Hs as [Hs Hf].
    constructor; [by apply IH|]. rewrite List.Forall_forall in Hf |- *. setoid_rewrite <-list_elem_of_In in Hf.
    setoid_rewrite <-list_elem_of_In. intros kc ([k' o'] & -> & Hin)%list_elem_of_fmap. simpl. apply Hf.
    apply list_elem_of_fmap. by exists (k', o').
  - by apply entries_sorted.
  - intros [k c]. apply He.
Qed.

Lemma fold_sizes (l : list (string * Z)) n : foldl (fun n info => n + info.2) n l = n + foldl (fun n info => n + info.2) 0 l.
Proof. revert n. induction l as [|x l IH]; intros n; cbn [foldl]; [lia|]. rewrite (IH (n + x.2)), (IH (0 + x.2)). lia. Qed.
Lemma laid_size prefix off cs :
  foldl (fun n info => n + info.2) 0 ((fun kc => (kc.1, size_of kc.2)) <$> laid prefix off cs) = size_of (cat cs).
Proof. revert off. induction cs as [|c cs IH]; intros off; simpl; [done|]. by rewrite fold_sizes, IH, size_app. Qed.

(** The staged keys and their total, or the error of the listing. *)
Lemma run_staged prefix cs open w w' x :
  holds prefix cs open (w_store w) -> size_of (cat cs) < capacity -> run (stagedParts prefix) w = (w', x) ->
  w' = w /\ ((exists e, x = Err e) \/ x = Ok ((entries prefix cs open).*1, size_of (cat cs))).
Proof.
  intros Hh Hcap. unfold stagedParts. cbn [WriteRoutes.run]. unfold listing.
  destruct (List prefix (w_store w)) as [infos|e] eqn:E; intros [= <- <-]; split; [done| |done|eauto]. right.
  pose proof (list_session _ _ _ _ _ Hh Hcap E) as He.
  assert ((fun ko : string * Obj => (ko.1, size_of (o_body ko.2))) <$> infos
          = (fun kc => (kc.1, size_of kc.2)) <$> entries prefix cs open) as Hs.
  { rewrite <-He, <-list_fmap_compose. done. }
  rewrite Hs. f_equal. f_equal.
  - rewrite <-list_fmap_compose. done.
  - unfold entries. rewrite laid_size, cat_app, size_app. destruct open; simpl; change (size_of "") with 0; lia.
Qed.

(** The chunks read back. *)
Lemma run_read_keys keys w :
  (forall k c, (k, c) ∈ keys -> o_body <$> found (Get k (w_store w)) = Some c) ->
  run (read_parts keys.*1) w = (w, Ok (cat keys.*2)).
Proof.
  induction keys as [|[k c] keys IH]; intros Hk; [done|]. cbn [fmap list_fmap read_parts fst]. cbn [WriteRoutes.run].
  assert (o_body <$> found (Get k (w_store w)) = Some c) as Hf by (apply Hk; left).
  destruct (Get k (w_store w)) as [o|e]; [|done]. injection Hf as <-. unfold ptry. rewrite run_bind.
  rewrite IH; [done|]. intros k' c' Hin. apply Hk. by right.
Qed.
Lemma laid_chunks prefix off cs : (laid prefix off cs).*2 = cs.
Proof. revert off. induction cs as [|c cs IH]; intros off; simpl; [done|]. by rewrite IH. Qed.
Lemma run_read prefix cs open w :
  holds prefix cs open (w_store w) -> run (read_parts (entries prefix cs open).*1) w = (w, Ok (cat cs)).
Proof.
  intros [_ Hh]. rewrite run_read_keys.
  - unfold entries. rewrite laid_chunks, cat_app. destruct open; simpl; by rewrite str_app_nil_r.
  - intros k c Hin. apply Hh; [by eapply entries_prefix|done].
Qed.

(** *** Staging *)

Lemma holds_frame prefix cs open st st' :
  (forall k, has_prefix k prefix = true -> o_body <$> found (Get k st') = o_body <$> found (Get k st)) ->
  holds prefix cs open st -> holds prefix cs open st'.
Proof. intros Hk [Hcs Hh]. split; [done|]. intros k c Hp. rewrite Hk by done. by apply Hh. Qed.

Lemma laid_in prefix off cs k c : (k, c) ∈ laid prefix off cs -> c ∈ cs.
Proof.
  revert off. induction cs as [|d cs IH]; intros off; simpl; [by intros ?%elem_of_nil|].
  intros [[= _ ->]|Hin]%elem_of_cons; [left|right; by eapply IH].
Qed.
(** The next key is new but for the empty chunk that may be there. *)
Lemma next_key prefix cs c :
  Forall (fun c => c <> "") cs -> size_of (cat cs) < capacity -> (part_key prefix (size_of (cat cs)), c) ∈ laid prefix 0 cs -> False.
Proof.
  intros Hcs Hcap Hin. pose proof (laid_in _ _ _ _ _ Hin) as Hc. rewrite Forall_forall in Hcs.
  pose proof (size_nonempty c (Hcs c Hc)). apply laid_keys in Hin as (a & Hk & Ha & Hb).
  assert (str_lt (part_key prefix a) (part_key prefix (size_of (cat cs)))) as Hlt by (apply part_key_lt; lia).
  rewrite Hk in Hlt. by apply str_lt_irrefl in Hlt.
Qed.

Definition add_chunk (cs : list string) (body : string) : list string := if decide (body = "") then cs else cs ++ [body].
Lemma cat_add cs body : cat (add_chunk cs body) = cat cs +:+ body.
Proof.
  unfold add_chunk. case_decide as Hb; [by rewrite Hb, str_app_nil_r|]. rewrite cat_app. simpl. by rewrite str_app_nil_r.
Qed.
Lemma entries_add prefix cs body :
  entries prefix (add_chunk cs body) (bool_decide (body = "")) = laid prefix 0 cs ++ [(part_key prefix (size_of (cat cs)), body)].
Proof.
  unfold entries, add_chunk. case_decide as Hb.
  - rewrite bool_decide_true, laid_app by done. by rewrite Hb.
  - rewrite bool_decide_false, app_nil_r, laid_app by done. done.
Qed.

Lemma holds_staged prefix cs open now body st st' :
  holds prefix cs open st -> size_of (cat cs) < capacity ->
  Put now (part_key prefix (size_of (cat cs))) body no_opts st = (st', None) ->
  holds prefix (add_chunk cs body) (bool_decide (body = "")) st'.
Proof.
  intros [Hcs Hh] Hcap Hput. set (key := part_key prefix _) in Hput. split.
  { unfold add_chunk. case_decide; [done|]. apply Forall_app. split; [done|]. by repeat constructor. }
  intros k c Hp. rewrite entries_add, elem_of_app, list_elem_of_singleton. destruct (decide (k = key)) as [->|Hne].
  - apply put_stores in Hput as [_ ->]. simpl. split.
    + intros [= <-]. by right.
    + intros [Hin|[= ->]]; [|done]. exfalso. by eapply next_key.
  - assert (found (Get k st') = found (Get k st)) as ->.
    { change st' with (st', @None api_error).1. rewrite <-Hput. by apply put_local. }
    rewrite Hh by done. unfold entries. rewrite laid_app, elem_of_app. split.
    + intros [Hin|Hin]; [by left|]. destruct open; simpl in Hin; [|by apply elem_of_nil in Hin].
      apply list_elem_of_singleton in Hin as [= -> ->]. done.
    + intros [Hin|[= -> ->]]; [by left|done].
Qed.
Lemma holds_failed prefix cs open now key body o e st st' :
  Put now key body o st = (st', Some e) -> holds prefix cs open st -> holds prefix cs open st'.
Proof.
  intros Hput. apply holds_frame. intros k _. destruct (decide (k = key)) as [->|Hne].
  - by eapply put_atomic.
  - change st' with (st', Some e).1. rewrite <-Hput. f_equal. by apply put_local.
Qed.

Lemma run_stage repo uploadID cs open body w w' x :
  let prefix := uploadKeyPrefix feed repo uploadID in
  holds prefix cs open (w_store w) -> size_of (cat cs) < capacity ->
  run (stagePart feed repo uploadID (size_of (cat cs)) body) w = (w', x) ->
  w_db w' = w_db w
  /\ ((exists e, x = Err e /\ holds prefix cs open (w_store w'))
      \/ (x = Ok (size_of body) /\ holds prefix (add_chunk cs body) (bool_decide (body = "")) (w_store w'))).
Proof.
  intros prefix Hh Hcap. unfold stagePart. cbn [WriteRoutes.run]. destruct (Put _ _ _ _ _) as [st [e|]] eqn:Ep;
    cbn [refused]; intros [= <- <-]; (split; [done|]).
  - left. eexists. split; [done|]. by eapply holds_failed.
  - right. split; [done|]. by eapply holds_staged.
Qed.

(** *** Discarding *)

Lemma run_delete keys w w' x : run (delete_keys keys) w = (w', x) ->
  w_db w' = w_db w /\ (forall k, k ∉ keys -> found (Get k (w_store w')) = found (Get k (w_store w)))
  /\ (x = Ok () -> forall k, k ∈ keys -> found (Get k (w_store w')) = None).
Proof.
  revert w. induction keys as [|key keys IH]; intros w; cbn [delete_keys WriteRoutes.run].
  { intros [= <- <-]. split_and!; [done..|]. by intros _ k ?%elem_of_nil. }
  destruct (Delete key (w_store w)) as [st e] eqn:Ed. pose proof (fun k => delete_local key k (w_store w)) as Hl.
  rewrite Ed in Hl. simpl in Hl. destruct e as [e|]; cbn [refused].
  - intros [= <- <-]. split_and!; [done| |done]. intros k Hk. apply Hl. set_solver.
  - intros (H1 & H2 & H3)%(IH (mkW (w_db w) st (w_pol w))). simpl in H1, H2. split_and!; [done| |].
    + intros k [Hne Hk]%not_elem_of_cons. rewrite H2 by done. by apply Hl.
    + intros Hx k [->|Hk]%elem_of_cons; [|by apply H3].
      destruct (decide (key ∈ keys)) as [Hin|Hin]; [by apply H3|]. rewrite H2 by done. by eapply delete_removes.
Qed.
Lemma run_discard prefix cs open w w' x :
  holds prefix cs open (w_store w) -> size_of (cat cs) < capacity -> run (deleteParts prefix) w = (w', x) ->
  w_db w' = w_db w /\ (forall k, has_prefix k prefix = false -> found (Get k (w_store w')) = found (Get k (w_store w)))
  /\ (x = Ok () -> session prefix "" (w_store w')).
Proof.
  intros Hh Hcap. unfold deleteParts, ptry. rewrite run_bind.
  destruct (WriteRoutes.run _ _ _ _ _ (stagedParts prefix) w) as [w1 y] eqn:Es.
  apply (run_staged _ _ _ _ _ _ Hh Hcap) in Es as [-> [[e ->] | ->]].
  { intros [= <- <-]. by split_and!. }
  simpl. intros (H1 & H2 & H3)%run_delete. split; [done|]. split.
  - intros k Hk. apply H2. intros ([k' c] & -> & Hin)%list_elem_of_fmap. apply entries_prefix in Hin. simpl in Hk. congruence.
  - intros Hx. exists [], false. split; [|done]. split; [constructor|]. intros k c Hp. split; [|by intros ?%elem_of_nil].
    intros Hf. exfalso. destruct (decide (k ∈ (entries prefix cs open).*1)) as [Hin|Hin].
    + by rewrite H3 in Hf.
    + rewrite H2 in Hf by done. destruct Hh as [_ Hh]. apply Hh in Hf; [|done]. apply Hin.
      apply list_elem_of_fmap. by exists (k, c).
Qed.

(** *** Committing *)

Lemma staging_only repo uploadID k : has_prefix k (uploadKeyPrefix feed repo uploadID) = true ->
  has_prefix k "manifests/" = false /\ forall hex, k <> blobStoreKey hex.
Proof. intros [r ->]%has_prefix_spec. done. Qed.

(** [buf] has the digest [d] the client named. *)
Definition verified (d buf hex : string) : Prop :=
  parseDigest d = Some (mkChecksum "sha256" hex) /\ ToLower hex = ToLower (digest "sha256" buf).
(** [buf] is stored and published under it. *)
Definition committed (repo hex buf : string) (w : W (St := St) (Ps := Ps)) : Prop :=
  o_body <$> found (Get (blobStoreKey hex) (w_store w)) = Some buf
  /\ exists row, row_at (w_db w) (f_name feed, blobPath repo ("sha256:" +:+ hex)) = Some row /\ h_sha256 row = hex.

Lemma digest_nonempty d c : parseDigest d = Some c -> Hex c <> "".
Proof.
  unfold parseDigest. destruct (Cut d ":") as [[algo hex]|]; [|done]. case_decide as Hd; [done|].
  destruct (all_chars _ _); [|done]. intros [= <-]. simpl. intros ->. apply Hd. simpl. lia.
Qed.

Lemma run_publishBlob repo hex size w w' x :
  run (publishBlob feed repo hex size) w = (w', x) ->
  (forall k, has_prefix k "manifests/" = false -> found (Get k (w_store w')) = found (Get k (w_store w)))
  /\ (x = Ok () -> exists row, row_at (w_db w') (f_name feed, blobPath repo ("sha256:" +:+ hex)) = Some row /\ h_sha256 row = hex).
Proof.
  unfold publishBlob. cbn [WriteRoutes.run]. destruct (deps_publish _ _ _ _ _ _ _ _ _ _ w) as [w1 y] eqn:E. intros Hr.
  assert (w' = w1) as -> by (destruct y; by injection Hr as <- _). split.
  - intros k Hk. by eapply deps_publish_store.
  - intros ->. destruct y as [created|e]; [|by injection Hr]. by apply deps_publish_row in E.
Qed.

Lemma run_commit repo uploadID d cs open w w' x :
  let prefix := uploadKeyPrefix feed repo uploadID in
  holds prefix cs open (w_store w) -> size_of (cat cs) < capacity ->
  run (commitUpload feed repo uploadID d) w = (w', x) ->
  (exists e, x = Err e /\ (w_db w' = w_db w \/ exists hex, verified d (cat cs) hex))
  \/ (exists hex, x = Ok (blobLocation feed repo d) /\ verified d (cat cs) hex /\ committed repo hex (cat cs) w'
         /\ session prefix "" (w_store w')).
Proof.
  intros prefix Hh Hcap. unfold commitUpload. fold prefix.
  destruct (parseDigest d) as [want|] eqn:Ed; [|intros [= <- <-]; left; eauto].
  case_decide as Ha; [intros [= <- <-]; left; eauto|]. unfold ptry at 1. rewrite run_bind.
  destruct (WriteRoutes.run _ _ _ _ _ (stagedParts prefix) w) as [w1 y] eqn:Es.
  apply (run_staged _ _ _ _ _ _ Hh Hcap) in Es as [-> [[e ->] | ->]]; [intros [= <- <-]; left; eauto|].
  case_decide; [intros [= <- <-]; left; eauto|]. unfold ptry at 1. rewrite run_bind, (run_read prefix cs open w Hh).
  cbn [WriteRoutes.run]. destruct (Put _ _ _ _ _) as [st [e|]] eqn:Ep; cbn [refused]; [intros [= <- <-]; left; eauto|].
  pose proof (put_stores _ _ _ _ _ _ Ep) as [[_ Hv] Hst]. simpl in Hv, Hst. pose proof (digest_nonempty _ _ Ed) as Hne.
  assert (verified d (cat cs) (Hex want)) as Hver.
  { split; [rewrite Ed, <-Ha; by destruct want|]. by apply Hv. }
  set (w1 := mkW (w_db w) st (w_pol w)). unfold ptry at 1. rewrite run_bind.
  destruct (WriteRoutes.run _ _ _ _ _ (publishBlob _ _ _ _) w1) as [w2 y] eqn:Eb. apply run_publishBlob in Eb as [Hs2 Hrow].
  destruct y as [[]|e]; [|intros [= <- <-]; left; eauto 6].
  assert (holds prefix cs open (w_store w2)) as Hh2.
  { apply (holds_frame _ _ _ (w_store w)); [|done]. intros k Hk. pose proof (staging_only _ _ _ Hk) as [Hm Hb].
    rewrite Hs2 by done. simpl. f_equal. change st with (st, @None api_error).1. rewrite <-Ep. apply put_local, Hb. }
  unfold ptry. rewrite run_bind. destruct (WriteRoutes.run _ _ _ _ _ (deleteParts prefix) w2) as [w3 y] eqn:Edel.
  apply (run_discard _ _ _ _ _ _ Hh2 Hcap) in Edel as (Hdb & Hs3 & Hses). destruct y as [[]|e]; intros [= <- <-]; [|left; eauto 6].
  right. exists (Hex want). split_and!; [done|done| |by apply Hses]. split.
  - rewrite Hs3, Hs2 by done. simpl. by rewrite Hst.
  - rewrite Hdb. by apply Hrow.
Qed.

(** ** Requests *)

Lemma run_append r repo uploadID buf w w' x :
  let prefix := uploadKeyPrefix feed repo uploadID in
  session prefix buf (w_store w) -> size_of buf < capacity -> validUploadID uploadID = None ->
  run (appendChunk feed r repo uploadID) w = (w', x) ->
  let start := rangeStart (header_get (rq_header r) "Content-Range") in
  w_db w' = w_db w
  /\ ((exists e, x = Err e /\ session prefix buf (w_store w'))
      \/ (exists n, start = Some n /\ n <> size_of buf /\ w' = w
            /\ x = Ok (416, {[ "Range" := "0-" +:+ format_int (lastByte (size_of buf)) ]}, ""))
      \/ (start = None \/ start = Some (size_of buf))
         /\ x = Ok (uploadAccepted feed repo uploadID (size_of (buf +:+ rq_body r)))
         /\ session prefix (buf +:+ rq_body r) (w_store w')).
Proof.
  intros prefix (cs & open & Hh & <-) Hcap Hid. unfold appendChunk. rewrite Hid. unfold stagedSize, ptry. rewrite !run_bind.
  destruct (WriteRoutes.run _ _ _ _ _ (stagedParts _) w) as [w1 y] eqn:Es.
  apply (run_staged _ _ _ _ _ _ Hh Hcap) in Es as [-> [[e ->] | ->]].
  { intros [= <- <-]. split; [done|]. left. eexists. split; [done|]. by exists cs, open. }
  cbn [WriteRoutes.run snd pok]. case_bool_decide as Hr.
  { intros [= <- <-]. split; [done|]. right; left. destruct Hr as [[n Hn] Hne]. exists n. split_and!; [exact Hn|congruence|done..]. }
  rewrite run_bind. destruct (WriteRoutes.run _ _ _ _ _ (stagePart _ _ _ _ _) w) as [w1 y] eqn:Ep.
  apply (run_stage repo uploadID cs open (rq_body r)) in Ep as [Hdb [(e & -> & Hh1) | [-> Hh1]]]; [| |done..].
  { intros [= <- <-]. split; [done|]. left. eexists. split; [done|]. by exists cs, open. }
  intros [= <- <-]. split; [done|]. right; right. split_and!.
  - destruct (rangeStart _) as [n|]; [|by left]. right. destruct (decide (n = size_of (cat cs))) as [->|]; [done|].
    destruct Hr. split; [eauto|congruence].
  - by rewrite size_app.
  - exists (add_chunk cs (rq_body r)), (bool_decide (rq_body r = "")). by rewrite cat_add.
Qed.

Lemma run_finish r repo uploadID buf w w' x :
  let prefix := uploadKeyPrefix feed repo uploadID in
  let d := query_get (rq_query r) "digest" in
  session prefix buf (w_store w) -> size_of (buf +:+ rq_body r) < capacity ->
  run (finishUpload feed r repo uploadID) w = (w', x) ->
  (exists e, x = Err e /\ (w_db w' = w_db w \/ exists hex, verified d (buf +:+ rq_body r) hex))
  \/ (exists hex, x = Ok (blobLocation feed repo d) /\ verified d (buf +:+ rq_body r) hex
         /\ committed repo hex (buf +:+ rq_body r) w' /\ session prefix "" (w_store w')).
Proof.
  intros prefix d (cs & open & Hh & <-) Hcap. pose proof Hcap as Hcap'. rewrite size_app in Hcap'.
  pose proof (size_pos (rq_body r)). unfold finishUpload.
  destruct (validUploadID _) as [e|]; [intros [= <- <-]; left; eauto|]. fold d.
  case_decide; [intros [= <- <-]; left; eauto|]. unfold stagedSize, ptry. rewrite !run_bind.
  destruct (WriteRoutes.run _ _ _ _ _ (stagedParts _) w) as [w1 y] eqn:Es.
  apply (run_staged _ _ _ _ _ _ Hh) in Es as [-> [[e ->] | ->]]; [intros [= <- <-]; left; eauto| |lia].
  cbn [WriteRoutes.run snd pok]. rewrite run_bind.
  destruct (WriteRoutes.run _ _ _ _ _ (stagePart _ _ _ _ _) w) as [w1 y] eqn:Ep.
  apply (run_stage repo uploadID cs open (rq_body r)) in Ep as [Hdb [(e & -> & Hh1) | [-> Hh1]]];
    [intros [= <- <-]; left; eauto| |done|lia].
  intros Hc. apply run_commit with (cs := add_chunk cs (rq_body r)) (open := bool_decide (rq_body r = "")) in Hc;
    [|done|by rewrite cat_add]. rewrite cat_add, Hdb in Hc. exact Hc.
Qed.

Lemma dispatch r unmarshal newUploadID repo uploadID :
  validRepo repo = None -> validUploadID uploadID = None -> rq_path r = "/" +:+ apiRoot +:+ "/" +:+ repo +:+ sepUploads +:+ uploadID ->
  HandlePublishHTTP (digest "sha256") unmarshal newUploadID feed r =
    if decide (rq_method r = "POST") then startUpload newUploadID feed r repo
    else if decide (rq_method r = "PATCH") then appendChunk feed r repo uploadID
    else if decide (rq_method r = "PUT") then finishUpload feed r repo uploadID
    else if decide (rq_method r = "DELETE")
         then ptry (deleteParts (uploadKeyPrefix feed repo uploadID)) (fun _ => pok (204, ∅, ""))
    else perr ErrBadRequest "method is not part of this protocol".
Proof.
  intros Hv Hid Hpath. assert (all_chars upload_char uploadID = true /\ uploadID <> "") as [Hx Hne].
  { revert Hid. unfold validUploadID. case_decide as Hl; [done|]. destruct (all_chars _ _); [|done].
    intros _. split; [done|]. intros ->. apply Hl. simpl. lia. }
  destruct r as [method path header body query]. cbn [rq_path] in Hpath. subst path. unfold HandlePublishHTTP.
  rewrite api_path_root.
  2: { change (repo +:+ sepUploads +:+ uploadID) with (repo +:+ "/" +:+ "blobs" +:+ "/" +:+ "uploads" +:+ "/" +:+ uploadID).
       rewrite !dots_slash, repo_dots by done. by apply (dots_chars upload_char). }
  rewrite parseRef_upload by (done || by apply (all_chars_flat upload_char)). cbn [pf_repo pf_reference pf_kind rq_method].
  repeat (case_decide; [try done; by rewrite ?decide_False|]). done.
Qed.
End sessions.

(** ** Theorems *)

(** C17. An upload session is a buffer kept in the store. While the chunks under
    a session's prefix spell [buf]: a chunk is accepted where the buffer ends
    (or refused with the place to continue from) and the answer names the new
    length; finishing succeeds only when the named digest is that of the whole
    buffer with the last chunk, and then the bytes are stored and published
    under it and the session is empty; nothing is published otherwise;
    cancelling empties the session. A failed append keeps the buffer. The buffer
    may hold up to 10^16 bytes, the width of an offset. *)
Theorem upload_refines_buffer {St Ctx Ps As} (digest : string -> string -> string)
  `{BS : !BlobStore (digest "sha256") St} `{MC : !ManifestCodec} {BL : BlobLister BS} error_text site engine
  (env : ReqEnv (Ctx := Ctx) (As := As)) journal db_up (fr : feedRuntime (St := St) (Ctx := Ctx) (Ps := Ps)) id
  unmarshal newUploadID r repo uploadID buf w w' x :
  let f := fr_feed fr in
  let prefix := uploadKeyPrefix f repo uploadID in
  let whole := buf +:+ rq_body r in
  let start := rangeStart (header_get (rq_header r) "Content-Range") in
  let d := query_get (rq_query r) "digest" in
  validRepo repo = None -> validUploadID uploadID = None ->
  rq_path r = "/" +:+ apiRoot +:+ "/" +:+ repo +:+ sepUploads +:+ uploadID ->
  session digest prefix buf (w_store w) -> size_of whole < capacity ->
  run digest (listing digest) env db_up (deps_publish digest error_text site engine env journal db_up fr id)
    (HandlePublishHTTP (digest "sha256") unmarshal newUploadID f r) w = (w', x) ->
  (rq_method r = "PATCH" ->
     w_db w' = w_db w
     /\ ((exists e, x = Err e /\ session digest prefix buf (w_store w'))
         \/ (exists n, start = Some n /\ n <> size_of buf /\ w' = w
               /\ x = Ok (416, {[ "Range" := "0-" +:+ format_int (lastByte (size_of buf)) ]}, ""))
         \/ (start = None \/ start = Some (size_of buf))
            /\ x = Ok (uploadAccepted f repo uploadID (size_of whole)) /\ session digest prefix whole (w_store w')))
  /\ (rq_method r = "PUT" ->
       (exists e, x = Err e /\ (w_db w' = w_db w \/ exists hex, verified digest d whole hex))
       \/ (exists hex, x = Ok (blobLocation f repo d) /\ verified digest d whole hex
              /\ committed digest fr repo hex whole w' /\ session digest prefix "" (w_store w')))
  /\ (rq_method r = "DELETE" ->
       w_db w' = w_db w /\ ((exists e, x = Err e) \/ x = Ok (204, ∅, "") /\ session digest prefix "" (w_store w'))).
Proof.
  intros f prefix whole start d Hv Hid Hpath Hs Hcap. assert (size_of buf < capacity) as Hcap'.
  { unfold whole in Hcap. rewrite size_app in Hcap. pose proof (size_pos (rq_body r)). lia. }
  unfold f. rewrite (dispatch digest fr r unmarshal newUploadID repo uploadID Hv Hid Hpath). intros Hrun.
  split_and!; intros Hm; rewrite Hm in Hrun.
  - by eapply run_append in Hrun.
  - by eapply run_finish in Hrun.
  - destruct Hs as (cs & open & Hh & <-). unfold ptry in Hrun. cbn [decide] in Hrun.
    rewrite !decide_False in Hrun by done. rewrite decide_True, run_bind in Hrun by done.
    destruct (run _ _ _ _ _ (deleteParts _) w) as [w1 y] eqn:E.
    eapply run_discard in E as (Hdb & _ & Hses); [|done..]. destruct y as [[]|e]; injection Hrun as <- <-; (split; [done|]).
    + right. split; [done|]. by apply Hses.
    + left. eauto.
Qed.
End OciUploads.

(** ** A registry *)

Module OciDemo.
Import Server WriteRoutes Oci OciUploads.

(** Sixty-four digits for a short body. *)
Fixpoint code (n : Z) (s : string) : Z :=
  match s with
  | EmptyString => n
  | String c s' => code ((256 * n + Z.of_N (Ascii.N_of_ascii c)) mod 1000000000000000003) s'
  end.
Definition digest (algo body : string) : string := decimal_digits 64 (Z.abs (code 1 body)).
Definition sha (body : string) : string := "sha256:" +:+ digest "sha256" body.

(** One image: its config is the only layer pushed. *)
Definition image : string := "{image}".
Definition unmarshal (body : string) : option manifestDoc :=
  if decide (body = image) then Some (mkDoc mediaTypeOCIManifest (sha "layer") [] []) else None.
Definition uploadID : string := "0123456789abcdef".
Definition registry : Hoster := hoster (digest "sha256") unmarshal (fun _ => Some uploadID).

Definition module : FormatModule FS := mkModule Parse None (Some AuthChallenge) None None (Some RedirectSafeIntent)
  (Some ResponseHeaders) None None.
Definition feed : feedRuntime (St := FS) (Ctx := unit) (Ps := unit) :=
  mkFeedRt (mkFeed "hub" true) module [] false true false false.
Definition home : pubRuntime := mkPubRt feed (Config.mkPP "" true false) (Some registry).
(** A team publishes everything in the feed, a guest one repository. *)
Definition engine : Engine :=
  engine_of [mkPolicy "all" [mkRule "feed/hub/*" [CapPublish] "all"];
             mkPolicy "one" [mkRule "feed/hub/oci:guest" [CapPublish] "one"]]
            [mkBinding "team" ["all"] (mkMatch "oidc" "" "" "acme/*" "" true);
             mkBinding "guest" ["one"] (mkMatch "oidc" "" "" "guest/*" "" true)].
Definition who (project : string) : Identity := mkIdentity "oidc" "dev" "https://gitlab" project "".
Definition team : Identity := who "acme/app".
Definition guest : Identity := who "guest/app".
Definition env (id : Identity) : ReqEnv (Ctx := unit) (As := unit) :=
  mkEnv 100 tt (fun _ st => (st, Ok (Auth.mkAuthed id false))) (fun _ _ => Some None) None.
Notation S := (Site (St := FS) (Ps := unit) (As := unit)).
Definition start : S := mkSite Server.Demo.start (Some empty_db).

Definition request (db_up : bool) (id : Identity) (r : HttpReq) (s : S) : S * Z :=
  let '(s, resp) := publishHandler digest (listing digest) (fun _ => "") "a" engine (env id) true db_up None home registry r s in
  (s, status_of resp).
Fixpoint requests (id : Identity) (rs : list HttpReq) (s : S) : S * list Z :=
  match rs with
  | [] => (s, [])
  | r :: rs => let '(s, n) := request true id r s in let '(s, ns) := requests id rs s in (s, n :: ns)
  end.
Definition upload (method repo name header body query : string) : HttpReq :=
  mkHttp method ("/v2/" +:+ repo +:+ "/blobs/uploads/" +:+ name) {[ "Content-Range" := header ]} body query.
Definition tag (repo name : string) : HttpReq :=
  mkHttp "PUT" ("/v2/" +:+ repo +:+ "/manifests/" +:+ name) {[ "Content-Type" := mediaTypeOCIManifest ]} image "".

Definition push (repo : string) : list HttpReq :=
  [upload "POST" repo "" "" "" "";
   upload "PATCH" repo uploadID "" "lay" "";
   upload "PATCH" repo uploadID "7-8" "xx" "";
   upload "PATCH" repo uploadID "3-4" "er" "";
   upload "PUT" repo uploadID "" "" ("digest=" +:+ sha "layer");
   tag repo "latest"].
Definition row (s : S) (path : string) : option HostedRow := row_at (si_db s) ("hub", path).
Definition stored (s : S) (key : string) : option string := o_body <$> found (fs_get key (sv_store (si_srv s))).

(** A push from beginning to end: a chunk out of place is refused, the layer is
    stored, and the tag and the manifest it points at carry the same digest. A
    manifest pushed before its layer is refused. *)
Example push_works :
  let '(s, statuses) := requests team (push "team/app") start in
  statuses = [202; 202; 416; 202; 201; 201]
  /\ stored s (blobStoreKey (digest "sha256" "layer")) = Some "layer"
  /\ h_sha256 <$> row s (manifestPath "team/app" "latest") = Some (digest "sha256" image)
  /\ h_sha256 <$> row s (manifestPath "team/app" (sha image)) = Some (digest "sha256" image)
  /\ stored s (part_key (uploadKeyPrefix (mkFeed "hub" true) "team/app" uploadID) 0) = None
  /\ (request true team (tag "team/app" "latest") start).2 = 400.
Proof. vm_compute. repeat split. Qed.

Lemma nothing_stored k : found (fs_get k empty_fs) = None.
Proof.
  unfold fs_get. destruct (keyPath "data" k) as [p|]; [|done].
  change (files empty_fs) with (∅ : gmap string file). rewrite lookup_empty. by destruct (existsb _ _).
Qed.

Definition first_chunk := run digest (listing digest) (env team) true
  (deps_publish digest (fun _ => "") "a" engine (env team) true true feed team)
  (HandlePublishHTTP (digest "sha256") unmarshal (fun _ => Some uploadID) (fr_feed feed) (upload "PATCH" "team/app" uploadID "" "lay" ""))
  (mkW (Some empty_db) empty_fs tt).
Lemma upload_refines_buffer_witness :
  session digest (uploadKeyPrefix (mkFeed "hub" true) "team/app" uploadID) "lay" (w_store first_chunk.1).
Proof.
  destruct first_chunk as [w' x] eqn:E.
  destruct (upload_refines_buffer digest (fun _ => "") "a" engine (env team) true true feed team unmarshal (fun _ => Some uploadID)
    (upload "PATCH" "team/app" uploadID "" "lay" "") "team/app" uploadID "" (mkW (Some empty_db) empty_fs tt) w' x) as [Hp _];
    [reflexivity|reflexivity|reflexivity| |reflexivity|exact E|].
  - clear E. exists [], false. split; [|reflexivity]. split; [constructor|]. intros k c _. cbn [w_store].
    change (Get k empty_fs) with (fs_get k empty_fs). rewrite nothing_stored.
    split; [discriminate|]. intros H. apply elem_of_nil in H. destruct H.
  - assert (match x with Ok _ => True | Err _ => False end) as Hx.
    { assert (x = first_chunk.2) as -> by (rewrite E; reflexivity). clear. vm_compute. exact I. }
    destruct (Hp eq_refl) as [_ [(e & He & _)|[(n & Hn & _)|(_ & _ & Hs)]]]; [|vm_compute in Hn; discriminate Hn|exact Hs].
    rewrite He in Hx. destruct Hx.
Defined.

Lemma digest_hex algo body : contains_char (digest algo body) "/"%char = false.
Proof. apply decimal_digits_flat. lia. Qed.
Lemma images_stay_complete_witness :
  let s := (requests team (push "team/app") start).1 in
  images digest unmarshal (mkFeed "hub" true) (si_db s) /\ is_Some (row s (manifestPath "team/app" "latest")).
Proof.
  split; [|eexists; vm_compute; reflexivity].
  assert (forall rs s, images digest unmarshal (mkFeed "hub" true) (si_db s) ->
            images digest unmarshal (mkFeed "hub" true) (si_db (requests team rs s).1)) as Hall.
  { intros rs. induction rs as [|r rs IH]; intros s Hs; [exact Hs|]. cbn [requests]. unfold request.
    destruct (publishHandler _ _ _ _ _ _ _ _ _ _ _ r s) as [s1 resp] eqn:E.
    specialize (IH s1). destruct (requests team rs s1) as [s2 ns]. apply IH.
    apply (images_stay_complete digest (listing digest) (fun _ => "") "a" engine (env team) true true unmarshal
      (fun _ => Some uploadID) None home r s s1 resp); [discriminate|apply digest_hex|exact Hs|exact E]. }
  apply Hall. split; intros ? ? ? _ H; discriminate H.
Defined.

Lemma locations_lead_back_witness :
  exists i, reached (feedURL (mkFeed "hub" true) +:+ "/" +:+ "team/app" +:+ "/manifests/" +:+ sha "layer") = Some ("hub", Ok i)
    /\ i_path i = manifestPath "team/app" (sha "layer").
Proof.
  destruct (locations_lead_back (mkFeed "hub" true) "team/app") as [H _]; [discriminate|reflexivity|reflexivity|reflexivity| |].
  - intros (l1 & l2 & Hne & He). apply (f_equal length) in He. rewrite !length_app in He. destruct l1; [done|]. simpl in He. lia.
  - destruct (H (sha "layer") (mkChecksum "sha256" (digest "sha256" "layer"))) as (i & Hr & _ & _ & Hp & _);
      [vm_compute; reflexivity|]. exists i. split; [exact Hr|exact Hp].
Defined.

(** *** Where the code does otherwise than it says *)

(** Cancelling does not look at the session's name, and a session's prefix is
    the prefix of the sessions of repositories below: a caller who may publish
    only [guest] discards what the team has staged for [team/app]. *)
Theorem cancel_crosses_repositories :
  let s := (requests team (take 2 (push "team/app")) start).1 in
  let key := part_key (uploadKeyPrefix (mkFeed "hub" true) "team/app" uploadID) 0 in
  let '(s', status) := request true guest (upload "DELETE" "team" "app" "" "" "") s in
  stored s key = Some "lay" /\ status = 204 /\ stored s' key = None
  /\ d_allowed (mayPublish engine guest "hub" (coord_string (oci_coord "team/app" ""))) = false.
Proof. vm_compute. repeat split. Qed.

(** A finish that fails after its chunk was staged (here the database is away)
    cannot be tried again: the chunk is appended a second time. *)
Theorem finish_retry_appends_again :
  let finish := upload "PUT" "team/app" uploadID "" "layer" ("digest=" +:+ sha "layer") in
  let '(s, first) := request false team finish start in
  first = 503 /\ (request true team finish s).2 <> 201 /\ (request true team finish start).2 = 201.
Proof. vm_compute. repeat split. discriminate. Qed.

(** Mounting asks neither where the blob comes from nor whether the caller may
    read it: any blob of the store becomes part of the caller's repository. *)
Theorem mount_takes_any_blob :
  let s := (requests team (push "team/app") start).1 in
  let '(s', status) := request true guest (upload "POST" "guest" "" "" "" ("mount=" +:+ sha "layer" +:+ "&from=nowhere")) s in
  status = 201 /\ h_sha256 <$> row s' (blobPath "guest" (sha "layer")) = Some (digest "sha256" "layer")
  /\ d_allowed (Explain engine guest (Config.FeedPath "hub" (coord_string (oci_coord "team/app" ""))) CapRead) = false.
Proof. vm_compute. repeat split. Qed.

(** A finish forwarded to the feed's home arrives without its query and so
    without the digest: through another site no upload can be finished. *)
Theorem forwarded_finish_refused :
  let finish := upload "PUT" "team/app" uploadID "" "layer" ("digest=" +:+ sha "layer") in
  (request true team finish start).2 = 201
  /\ (forwarded digest (listing digest) (fun _ => "") "a" engine (env team) true true {[ "hub" := home ]}
        "hub" (trim_prefix (rq_path finish) "/") "PUT" "layer" (rq_header finish) team start).2.1.1 = 400.
Proof. vm_compute. split; reflexivity. Qed.

(** A repository may be named with a protocol word; its blobs are then never
    found. Names may begin with a separator, and a tag with two dots is valid
    and refused. *)
Theorem names_out_of_reach :
  validRepo "app/manifests" = None
  /\ (exists e, Parse (mkHttp "GET" ("/" +:+ blobPath "app/manifests" (sha "layer")) ∅ "" "") = Err e)
  /\ validRepoSegment "-app" = true /\ validRepoSegment "__app" = true
  /\ validTag "1..2" = true /\ (request true team (tag "team/app" "1..2") (requests team (push "team/app") start).1).2 = 404.
Proof. split_and!; [vm_compute; reflexivity|eexists; vm_compute; reflexivity|vm_compute; reflexivity..]. Qed.
End OciDemo.
