(* ===== verification/OciListings.v ===== *)
(** * Listings of the OCI module ([modules/format/oci/search.go], [group.go])

    The tags of a repository and the repositories of a feed, read from the
    hosted rows, cut into pages that name the next one, and merged in groups.
    JSON text is a parameter. *)

From S2P Require Import Prelude GoLib State StateTheory Store Pipeline Publisher Policies Server WriteRoutes ModLib Oci.
From Stdlib Require Import Sorting.Sorted.
Open Scope Z_scope.

Module OciListings.
Import Server WriteRoutes Oci.

Definition defaultPageSize : Z := 100.
Record pageRequest := mkPage { pg_n : Z; pg_last : string }.

(** [url.ParseQuery] without an error. *)
Definition query_ok (query : string) : bool :=
  forallb (fun pair => bool_decide (pair = "") || bool_decide (is_Some (query_pair pair))) (split query "&"%char).

Definition parsePage (rawQuery : string) : pageRequest :=
  if query_ok rawQuery then
    let n := match query_get rawQuery "n" with
             | EmptyString => defaultPageSize
             | raw => match parse_int raw with
                      | Some n => if decide (0 <= n) then n else defaultPageSize
                      | None => defaultPageSize
                      end
             end in
    mkPage n (query_get rawQuery "last")
  else mkPage defaultPageSize "".

(** [sort.SearchStrings]: how many come before, in a sorted list. *)
Fixpoint search_strings (all : list string) (x : string) : nat :=
  match all with
  | [] => O
  | y :: all => if str_ltb y x then S (search_strings all x) else O
  end.

Definition apply (p : pageRequest) (all : list string) : list string * bool :=
  let start :=
    if decide (pg_last p <> "") then
      let i := search_strings all (pg_last p) in
      if bool_decide (all !! i = Some (pg_last p)) then S i else i
    else O in
  let rest := drop start all in
  if decide (0 < pg_n p < Z.of_nat (length rest)) then (take (Z.to_nat (pg_n p)) rest, true) else (rest, false).

(** [url.QueryEscape]. *)
Definition hex_upper (n : N) : Ascii.ascii := Ascii.ascii_of_N (if decide (n < 10)%N then 48 + n else 55 + n)%N.
Definition unreserved (c : Ascii.ascii) : bool :=
  alphanumeric c || bool_decide (c = "-"%char \/ c = "_"%char \/ c = "."%char \/ c = "~"%char).
Fixpoint query_escape (s : string) : string :=
  match s with
  | EmptyString => ""
  | String c s' =>
      if unreserved c then String c (query_escape s')
      else if decide (c = " "%char) then String "+" (query_escape s')
      else let n := Ascii.N_of_ascii c in
           String "%" (String (hex_upper (n / 16)) (String (hex_upper (n mod 16)) (query_escape s')))
  end.

(** The query of the next page ([url.Values.Encode] sorts the keys). *)
Definition next_query (p : pageRequest) (last : string) : string :=
  "last=" +:+ query_escape last +:+ "&n=" +:+ query_escape (format_int (pg_n p)).
Definition link (p : pageRequest) (shown : list string) (truncated : bool) : option string :=
  match last shown with
  | Some x => if truncated then Some (next_query p x) else None
  | None => None
  end.

Section search.
Context (marshal : json -> string).

(** [listing]. *)
Definition listing (body : list (string * json)) (p : pageRequest) (shown : list string) (truncated : bool) : SyntheticResponse :=
  let header : gmap string string := {[ "Content-Type" := mediaTypeJSON ]} in
  mkSynthetic 200
    (match link p shown truncated with
     | Some q => <["Link" := "<?" +:+ q +:+ ">; rel=" +:+ quoted "next"]> header
     | None => header
     end) (marshal (JObj body)).

Definition errorResponse (status : Z) (code message : string) : SyntheticResponse :=
  mkSynthetic status {[ "Content-Type" := mediaTypeJSON ]}
    (marshal (JObj [("errors", JArr [JObj [("code", JStr code); ("message", JStr message)]])])).

Definition tag_of (prefix : string) (m : string * PackageCoordinate * HostedRow) : option string :=
  let reference := trim_prefix m.1.1 prefix in
  if decide (reference = "") then None
  else if contains_char reference "/"%char then None
  else match parseDigest reference with Some _ => None | None => Some reference end.
Definition hostedTags (repo : string) (ms : list (string * PackageCoordinate * HostedRow)) : list string :=
  sort_strings (omap (tag_of (apiRoot +:+ "/" +:+ repo +:+ sepManifests)) ms).

Definition add_repo (repos : list string) (m : string * PackageCoordinate * HostedRow) : list string :=
  match cut_last sepManifests m.1.1 with
  | None => repos
  | Some (before, _) =>
      let repo := trim_prefix before (apiRoot +:+ "/") in
      if decide (repo = "" \/ repo ∈ repos) then repos else repos ++ [repo]
  end.
Definition hostedRepositories (ms : list (string * PackageCoordinate * HostedRow)) : list string :=
  sort_strings (foldl add_repo [] ms).

(** [Search]. *)
Definition Search (f : Feed) (i : Intent) : presult SyntheticResponse :=
  let page := parsePage (i_query i) in
  if has_suffix (i_path i) "/_catalog" then
    CoreManifests f (apiRoot +:+ "/") (fun res =>
      match res with
      | Err e => perr e "list manifests"
      | Ok ms => let '(shown, truncated) := apply page (hostedRepositories ms) in
                 pok (listing [("repositories", JArr (JStr <$> shown))] page shown truncated)
      end)
  else
    let repo := c_name (i_coord i) in
    CoreManifests f (apiRoot +:+ "/" +:+ repo +:+ sepManifests) (fun res =>
      match res with
      | Err e => perr e "list manifests"
      | Ok ms =>
          let tags := hostedTags repo ms in
          if decide (tags = []) then pok (errorResponse 404 "NAME_UNKNOWN" ("repository " +:+ repo +:+ " is not in this feed"))
          else let '(shown, truncated) := apply page tags in
               pok (listing [("name", JStr repo); ("tags", JArr (JStr <$> shown))] page shown truncated)
      end).

(** ** Groups *)

Definition MergeableIntent (i : Intent) : bool := match i_kind i with IntentSearch => true | _ => false end.

(** A member's answer: not a document at all, or the list under a field when
    there is one. *)
Context (decode : string -> option (string -> option (list string))).

Definition add_value (out : list string) (v : string) : list string :=
  if decide (v = "" \/ v ∈ out) then out else out ++ [v].
Fixpoint merge_values (parts : list (string * string)) (field : string) (out : list string) : result api_error (list string) :=
  match parts with
  | [] => Ok out
  | (_, body) :: parts =>
      if decide (body = "") then merge_values parts field out
      else match decode body with
           | None => Err (ErrOther "parse listing")
           | Some doc => merge_values parts field (foldl add_value out (default [] (doc field)))
           end
  end.
Definition mergeStrings (parts : list (string * string)) (field : string) : result api_error (list string) :=
  let? out := merge_values parts field [] in Ok (sort_strings out).

Definition Merge (f : Feed) (i : Intent) (parts : list (string * string)) : result api_error string :=
  if has_suffix (i_path i) "/_catalog" then
    let? repos := mergeStrings parts "repositories" in Ok (marshal (JObj [("repositories", JArr (JStr <$> repos))]))
  else
    let? tags := mergeStrings parts "tags" in
    Ok (marshal (JObj [("name", JStr (c_name (i_coord i))); ("tags", JArr (JStr <$> tags))])).
End search.

(** ** Sorting *)

Lemma insert_string_sorted x l : x ∉ l -> StronglySorted str_lt l -> StronglySorted str_lt (insert_string x l).
Proof.
  intros Hx Hs. induction Hs as [|y l Hs IH Hy]; simpl; [repeat constructor|].
  rewrite List.Forall_forall in Hy. destruct (str_ltb y x) eqn:E.
  - apply str_ltb_lt in E. constructor; [apply IH; set_solver|]. apply List.Forall_forall. intros z Hz%list_elem_of_In.
    rewrite insert_string_perm in Hz. apply elem_of_cons in Hz as [->|Hz]; [done|]. by apply Hy, list_elem_of_In.
  - assert (str_lt x y) as Hlt.
    { apply str_ltb_ge in E. destruct (str_lt_total x y) as [|[->|]]; [done|set_solver|done]. }
    constructor; [by constructor; [|apply List.Forall_forall]|].
    apply List.Forall_forall. intros z [<-|Hz]; [done|]. eapply str_lt_trans; [done|]. by apply Hy.
Qed.
Lemma sort_strings_sorted l : NoDup l -> StronglySorted str_lt (sort_strings l).
Proof.
  induction 1 as [|x l Hx Hn IH]; simpl; [constructor|]. apply insert_string_sorted; [|done].
  by rewrite sort_strings_perm.
Qed.

(** ** Pages *)

Lemma below_sixteen (P : N -> Prop) : Forall P (N.of_nat <$> seq 0 16) -> forall n, (n < 16)%N -> P n.
Proof.
  rewrite Forall_forall. intros HP n Hn. apply HP, list_elem_of_fmap. exists (N.to_nat n).
  split; [by rewrite N2Nat.id|]. apply elem_of_seq. lia.
Qed.
Lemma hex_digit_upper n : (n < 16)%N -> hex_digit (hex_upper n) = Some n.
Proof. apply (below_sixteen (fun n => hex_digit (hex_upper n) = Some n)). repeat constructor. Qed.
Lemma hex_upper_safe n c : (n < 16)%N -> c ∈ ["&"%char; ";"%char; "="%char] -> hex_upper n <> c.
Proof.
  intros Hn Hc. revert n Hn. apply below_sixteen.
  repeat (apply elem_of_cons in Hc as [->|Hc]; [repeat constructor; discriminate|]). by apply elem_of_nil in Hc.
Qed.
Lemma nibbles c : (Ascii.N_of_ascii c / 16 < 16)%N /\ (Ascii.N_of_ascii c mod 16 < 16)%N
  /\ Ascii.ascii_of_N (16 * (Ascii.N_of_ascii c / 16) + Ascii.N_of_ascii c mod 16) = c.
Proof.
  pose proof (Ascii.N_ascii_bounded c). split_and!; [apply N.Div0.div_lt_upper_bound; lia|apply N.mod_lt; lia|].
  rewrite <-N.Div0.div_mod. apply Ascii.ascii_N_embedding.
Qed.
Lemma unreserved_plain c : unreserved c = true -> c <> "%"%char /\ c <> "+"%char /\ c <> "&"%char /\ c <> ";"%char /\ c <> "="%char.
Proof. intros H. split_and!; intros ->; discriminate H. Qed.

Lemma unescape_escape s : query_unescape (query_escape s) = Some s.
Proof.
  induction s as [|c s IH]; [done|]. cbn [query_escape]. destruct (unreserved c) eqn:Eu.
  - apply unreserved_plain in Eu as (H1 & H2 & _). cbn [query_unescape]. rewrite !decide_False, IH by done. done.
  - case_decide as Hs; [subst c; cbn [query_unescape]; by rewrite IH|].
    destruct (nibbles c) as (Hh & Hl & Hc). cbn [query_unescape]. rewrite decide_True by done.
    rewrite !hex_digit_upper, IH, Hc by done. done.
Qed.
Lemma escape_safe s c : c ∈ ["&"%char; ";"%char; "="%char] -> contains_char (query_escape s) c = false.
Proof.
  intros Hc. induction s as [|d s IH]; [done|]. cbn [query_escape]. destruct (unreserved d) eqn:Eu.
  - apply unreserved_plain in Eu as (_ & _ & ? & ? & ?). cbn [contains_char]. rewrite IH, orb_false_r.
    apply bool_decide_false. intros ->. set_solver.
  - case_decide; cbn [contains_char].
    + rewrite IH, orb_false_r. apply bool_decide_false. intros <-. set_solver.
    + destruct (nibbles d) as (Hh & Hl & _). rewrite IH, !(bool_decide_false (hex_upper _ = _)) by by apply hex_upper_safe.
      simpl. rewrite orb_false_r. apply bool_decide_false. intros <-. set_solver.
Qed.

Lemma split_next x n : split ("last=" +:+ query_escape x +:+ "&n=" +:+ query_escape n) "&"%char
  = ["last=" +:+ query_escape x; "n=" +:+ query_escape n].
Proof.
  change ("last=" +:+ query_escape x +:+ "&n=" +:+ query_escape n)
    with (("last=" +:+ query_escape x) +:+ String "&" ("n=" +:+ query_escape n)).
  rewrite split_app, !split_single; [done|..]; rewrite contains_char_app, escape_safe by set_solver; done.
Qed.
Lemma escaped_pair k x : contains_char k "="%char = false -> contains_char k ";"%char = false -> query_unescape k = Some k ->
  query_pair (k +:+ "=" +:+ query_escape x) = Some (k, x).
Proof.
  intros H1 H2 H3. unfold query_pair.
  assert (contains_char (k +:+ "=" +:+ query_escape x) ";"%char = false) as ->.
  { rewrite !contains_char_app, H2, escape_safe by set_solver. done. }
  change (k +:+ "=" +:+ query_escape x) with (k +:+ String "=" (query_escape x)). rewrite Cut_char_app by done.
  simpl. by rewrite H3, unescape_escape.
Qed.

(** The link of a page asks for what comes after it. *)
Lemma parse_next p x : 0 <= pg_n p < 2 ^ 63 -> parsePage (next_query p x) = mkPage (pg_n p) x.
Proof.
  intros Hn. unfold parsePage. set (q := next_query p x).
  assert (query_pair ("last=" +:+ query_escape x) = Some ("last", x)) as H1 by by apply (escaped_pair "last").
  assert (query_pair ("n=" +:+ query_escape (format_int (pg_n p))) = Some ("n", format_int (pg_n p))) as H2
    by by apply (escaped_pair "n").
  assert (query_ok q = true) as ->.
  { unfold query_ok, q, next_query. rewrite split_next. cbn [forallb]. rewrite H1, H2.
    rewrite !(bool_decide_true (is_Some _)) by eauto. by rewrite !orb_true_r. }
  assert (forall key, query_get q key = if decide ("last" = key) then x else if decide ("n" = key) then format_int (pg_n p) else "") as Hq.
  { intros key. unfold query_get, q, next_query. rewrite split_next. unfold omap. cbn [list_omap].
    rewrite !(decide_False (P := _ = "")) by (by intros [=]). rewrite H1, H2. cbn [mbind option_bind].
    by destruct (decide ("last" = key)), (decide ("n" = key)). }
  rewrite !Hq.
  rewrite (decide_False (P := "last" = "n")), !decide_True by done.
  destruct (format_int_head (pg_n p)) as (c & w & Hw & _). pose proof (parse_format_int (pg_n p)) as Hp.
  rewrite Hw in Hp |- *. rewrite Hp by lia. by rewrite decide_True by lia.
Qed.

Lemma search_found pre x rest :
  StronglySorted str_lt (pre ++ x :: rest) -> search_strings (pre ++ x :: rest) x = length pre.
Proof.
  induction pre as [|y pre IH]; simpl; intros Hs.
  - assert (str_ltb x x = false) as -> by (apply str_ltb_ge, str_lt_irrefl). done.
  - apply StronglySorted_inv in Hs as [Hs Hy]. rewrite List.Forall_forall in Hy.
    assert (str_ltb y x = true) as -> by (apply str_ltb_lt, Hy, in_or_app; right; by left). by rewrite IH.
Qed.
Lemma apply_after p pre rest :
  StronglySorted str_lt (pre ++ rest) -> pg_last p = default "" (last pre) -> "" ∉ pre ->
  apply p (pre ++ rest) = if decide (0 < pg_n p < Z.of_nat (length rest)) then (take (Z.to_nat (pg_n p)) rest, true) else (rest, false).
Proof.
  intros Hs Hl Hne. unfold apply.
  assert (forall start, start = length pre -> drop start (pre ++ rest) = rest) as Hd by (intros ? ->; by rewrite drop_app_length).
  rewrite Hd; [done|]. destruct pre as [|y pre _] using rev_ind; [rewrite Hl; by rewrite decide_False by (intros H; by apply H)|].
  rewrite last_snoc in Hl. simpl in Hl. rewrite Hl, decide_True by (intros ->; set_solver).
  rewrite <-(assoc_L (++)) in Hs |- *. simpl in Hs |- *. rewrite search_found by done.
  rewrite bool_decide_true by by rewrite lookup_app_r, Nat.sub_diag by lia. rewrite length_app. simpl. lia.
Qed.

(** A client that follows the links. *)
Fixpoint follow (fuel : nat) (all : list string) (query : string) : list string :=
  match fuel with
  | O => []
  | S fuel =>
      let p := parsePage query in
      let '(shown, truncated) := apply p all in
      shown ++ match link p shown truncated with Some q => follow fuel all q | None => [] end
  end.

Lemma follow_rest fuel pre rest query n :
  StronglySorted str_lt (pre ++ rest) -> "" ∉ pre ++ rest -> 0 <= n < 2 ^ 63 ->
  parsePage query = mkPage n (default "" (last pre)) -> (length rest < fuel)%nat -> follow fuel (pre ++ rest) query = rest.
Proof.
  revert pre rest query. induction fuel as [|fuel IH]; intros pre rest query Hs Hne Hn Hq Hf; [lia|].
  cbn [follow]. rewrite Hq, (apply_after _ pre rest); [|done|done|set_solver]. cbn [pg_n]. case_decide as Hc.
  2: { unfold link. destruct (last rest); by rewrite app_nil_r. }
  set (k := Z.to_nat n). destruct (decide (take k rest = [])) as [He|He].
  { apply (f_equal length) in He. rewrite length_take in He. simpl in He. lia. }
  destruct (exists_last He) as (shown & x & Hx). unfold link. rewrite Hx, last_snoc.
  rewrite <-Hx. etrans; [|apply (take_drop k rest)]. f_equal.
  replace (pre ++ rest) with ((pre ++ take k rest) ++ drop k rest) by by rewrite <-(assoc_L (++)), take_drop.
  apply IH.
  - by rewrite <-(assoc_L (++)), take_drop.
  - by rewrite <-(assoc_L (++)), take_drop.
  - done.
  - rewrite parse_next by done. cbn [pg_n]. by rewrite Hx, (assoc_L (++)), last_snoc.
  - rewrite length_drop. lia.
Qed.

(** *** The tags of a repository *)

Lemma repo_plain repo c : validRepo repo = None -> lower_or_digit c = false ->
  c <> "."%char -> c <> "_"%char -> c <> "-"%char -> c <> "/"%char -> contains_char repo c = false.
Proof.
  intros Hv H1 H2 H3 H4 H5. revert Hv. unfold validRepo. case_decide; [done|]. case_decide; [done|].
  destruct (forallb _ _) eqn:E; [|done]. intros _. rewrite <-(join_split repo "/"%char). revert E.
  generalize (split repo "/"%char). intros l. induction l as [|w l IH]; [done|]. cbn [forallb]. intros [Hw Hl]%andb_true_iff.
  assert (contains_char w c = false) as Hc.
  { unfold validRepoSegment in Hw. case_decide; [done|]. assert (exists b, segment_loop b w = true) as [b Hb] by eauto.
    clear -H1 H2 H3 H4 Hb. revert b Hb. induction w as [|d w IH]; intros b; [done|]. cbn [segment_loop contains_char].
    destruct (lower_or_digit d) eqn:Ed.
    - intros Hw. rewrite (IH _ Hw), orb_false_r. apply bool_decide_false. congruence.
    - case_decide as Hd; [|done]. case_match; [done|]. intros Hw. rewrite (IH _ Hw), orb_false_r.
      apply bool_decide_false. intros ->. naive_solver. }
  destruct l as [|w' l]; [done|]. rewrite join_cons by done. rewrite !contains_char_app, Hc, (IH Hl).
  cbn [contains_char orb]. rewrite !orb_false_r. apply bool_decide_false. congruence.
Qed.

Lemma like_self p r : contains_char p "%"%char = false -> contains_char p "\"%char = false -> like (p +:+ "%") (p +:+ r) = true.
Proof.
  induction p as [|c p IH]; [intros _ _; apply like_any|]. cbn [contains_char]. intros [H1 H2]%orb_false_iff [H3 H4]%orb_false_iff.
  apply bool_decide_eq_false in H1, H3. destruct (decide (c = "_"%char)) as [->|Hu]; [by apply IH|].
  cbn [String.append]. rewrite like_literal by done. by rewrite bool_decide_true, IH.
Qed.

(** A tag: a reference of one segment that is not a digest, with a row. *)
Definition is_tag (f : Feed) (db : DB) (repo v : string) : Prop :=
  v <> "" /\ contains_char v "/"%char = false /\ parseDigest v = None
  /\ is_Some (hosted_manifests db !! (f_name f, manifestPath repo v)).

Notation tags_prefix repo := (apiRoot +:+ "/" +:+ repo +:+ sepManifests).
Lemma prefix_path repo v : tags_prefix repo +:+ v = manifestPath repo v.
Proof. unfold manifestPath. by rewrite <-!str_app_assoc. Qed.
Lemma prefix_like repo v : validRepo repo = None -> like (tags_prefix repo +:+ "%") (manifestPath repo v) = true.
Proof.
  intros Hv. rewrite <-prefix_path. apply like_self; rewrite !contains_char_app, (repo_plain repo) by done; done.
Qed.

Lemma tag_of_Some repo m v : like (tags_prefix repo +:+ "%") m.1.1 = true -> tag_of (tags_prefix repo) m = Some v ->
  m.1.1 = manifestPath repo v /\ v <> "" /\ contains_char v "/"%char = false /\ parseDigest v = None.
Proof.
  intros Hl. unfold tag_of. set (r := trim_prefix _ _). case_decide as Hr; [done|]. destruct (contains_char r _) eqn:Hs; [done|].
  destruct (parseDigest r) eqn:Hd; [done|]. intros [= <-]. split; [|done].
  destruct (has_prefix m.1.1 (tags_prefix repo)) eqn:Hp.
  - apply has_prefix_spec in Hp as [x Hx]. unfold r. rewrite Hx, trim_prefix_app. apply prefix_path.
  - exfalso. unfold r, trim_prefix in Hs. rewrite Hp in Hs. revert Hl Hs. generalize m.1.1. clear. intros path.
    change (tags_prefix repo +:+ "%") with (String "v" (String "2" (String "/" ((repo +:+ sepManifests) +:+ "%")))).
    rewrite like_literal by done. destruct path as [|c1 [|c2 [|c3 path]]]; try done; rewrite ?andb_true_iff;
      (intros [_ Hl] || intros Hl); rewrite like_literal in Hl by done; try done.
    { by rewrite andb_false_r in Hl. }
    apply andb_true_iff in Hl as [_ Hl]. rewrite like_literal in Hl by done. apply andb_true_iff in Hl as [Hc _].
    apply bool_decide_eq_true in Hc as <-. cbn [contains_char]. rewrite (bool_decide_true ("/"%char = "/"%char)) by done.
    by rewrite !orb_true_r.
Qed.
Lemma tag_of_path repo m v : m.1.1 = manifestPath repo v -> v <> "" -> contains_char v "/"%char = false -> parseDigest v = None ->
  tag_of (tags_prefix repo) m = Some v.
Proof.
  intros Hm H1 H2 H3. unfold tag_of. rewrite Hm, <-prefix_path, trim_prefix_app. by rewrite decide_False, H2, H3.
Qed.

Lemma listed_paths f prefix db : f_name f <> "" -> NoDup ((fun m => m.1.1) <$> Manifests f prefix db).
Proof.
  intros Hf. unfold Manifests. rewrite <-list_fmap_compose.
  assert (NoDup ((ListHosted (f_name f) prefix db).*1)) as Hn.
  { unfold ListHosted. rewrite merge_sort_Permutation. apply NoDup_fst_filter, NoDup_fst_map_to_list. }
  pose proof (fun kv => proj1 (elem_of_ListHosted (f_name f) prefix db kv)) as Hin. revert Hn Hin.
  generalize (ListHosted (f_name f) prefix db). intros l. induction l as [|[[g p] row] l IH]; intros Hn Hin; [constructor|].
  apply NoDup_cons in Hn as [Hk Hn]. simpl in Hk |- *. constructor; [|apply IH; [done|]; intros kv Hkv; apply Hin; by right].
  intros ([[g' p'] row'] & Hp & Hl)%list_elem_of_fmap. simpl in Hp. subst p'. apply Hk, list_elem_of_fmap.
  exists (g', p, row'). split; [|done]. simpl. f_equal.
  destruct (Hin (g, p, row)) as (_ & [?|Hg] & _); [by left|done|]. destruct (Hin (g', p, row')) as (_ & [?|Hg'] & _); [by right|done|].
  simpl in *. congruence.
Qed.

Lemma omap_NoDup {A B C} (g : A -> option B) (path : A -> C) (back : B -> C) (l : list A) :
  (forall x y, x ∈ l -> g x = Some y -> path x = back y) -> NoDup (path <$> l) -> NoDup (omap g l).
Proof.
  intros Hg. induction l as [|x l IH]; intros Hn; [constructor|]. apply NoDup_cons in Hn as [Hx Hn].
  unfold omap in *. cbn [list_omap]. destruct (g x) as [y|] eqn:E; [|apply IH; [intros; apply Hg; [by right|done]|done]].
  constructor; [|apply IH; [intros; apply Hg; [by right|done]|done]]. intros (x' & Hx' & Hy)%list_elem_of_omap. apply Hx.
  change (path x ∈ path <$> l). rewrite (Hg x y), <-(Hg x' y) by (done || by left || by right). by apply list_elem_of_fmap_2.
Qed.

Lemma hostedTags_exact f repo db : f_name f <> "" -> validRepo repo = None ->
  let tags := hostedTags repo (Manifests f (tags_prefix repo) db) in
  StronglySorted str_lt tags /\ forall v, v ∈ tags <-> is_tag f db repo v.
Proof.
  intros Hf Hv tags. unfold tags, hostedTags. set (ms := Manifests f (tags_prefix repo) db).
  assert (forall m, m ∈ ms -> hosted_manifests db !! (f_name f, m.1.1) = Some m.2 /\ like (tags_prefix repo +:+ "%") m.1.1 = true) as Hm.
  { intros m ([[g p] row] & -> & Hin)%list_elem_of_fmap. simpl. apply elem_of_ListHosted in Hin as (Hl & [?|Hg] & Hk); [done|].
    simpl in *. by subst g. }
  split.
  - apply sort_strings_sorted, (omap_NoDup _ (fun m => m.1.1) (manifestPath repo)).
    + intros m v Hin Ht. by apply tag_of_Some in Ht as [? _]; [|apply Hm].
    + by apply listed_paths.
  - intros v. rewrite sort_strings_perm, list_elem_of_omap. split.
    + intros (m & Hin & Ht). destruct (Hm m Hin) as [Hr Hl]. apply tag_of_Some in Ht as (Hp & H1 & H2 & H3); [|done].
      split_and!; [done..|]. rewrite <-Hp, Hr. by eexists.
    + intros (H1 & H2 & H3 & row & Hr). exists (manifestPath repo v, parseCoordinate (h_coordinate row), row).
      split; [|by apply tag_of_path]. apply list_elem_of_fmap. exists (f_name f, manifestPath repo v, row). split; [done|].
      apply elem_of_ListHosted. split_and!; [done|by right|]. by apply prefix_like.
Qed.

(** ** Theorems *)

(** A client that asks for the tags of a repository and follows the links,
    whatever page size it starts with, ends after at most one request more
    than there are tags and has then seen every tag of the repository exactly
    once, in order, and nothing else (a size of zero means one page). *)
Theorem tag_pages_complete f repo db query n fuel :
  f_name f <> "" -> validRepo repo = None -> parsePage query = mkPage n "" -> 0 <= n < 2 ^ 63 ->
  let tags := hostedTags repo (Manifests f (tags_prefix repo) db) in
  (length tags < fuel)%nat ->
  let seen := follow fuel tags query in
  StronglySorted str_lt seen /\ forall v, v ∈ seen <-> is_tag f db repo v.
Proof.
  intros Hf Hv Hq Hn tags Hl. destruct (hostedTags_exact f repo db Hf Hv) as [Hs Ht]. fold tags in Hs, Ht. simpl.
  assert (follow fuel tags query = tags) as ->; [|done].
  apply (follow_rest fuel [] tags query n); [done| |done|done|done]. simpl. intros [Hne _]%Ht. by apply Hne.
Qed.

(** *** Merged listings *)

Lemma add_values out vs : NoDup out -> NoDup (foldl add_value out vs)
  /\ forall v, v ∈ foldl add_value out vs <-> v ∈ out \/ (v <> "" /\ v ∈ vs).
Proof.
  revert out. induction vs as [|w vs IH]; intros out Hn; simpl; [set_solver|].
  destruct (IH (add_value out w)) as [Hd He].
  { unfold add_value. case_decide as Hc; [done|]. apply NoDup_app. split; [done|].
    split; [|apply NoDup_singleton]. intros x Hx ->%list_elem_of_singleton. tauto. }
  split; [done|]. intros v. rewrite He. unfold add_value. case_decide as Hc; set_solver.
Qed.
Lemma merge_values_union decode parts field out out' :
  NoDup out -> merge_values decode parts field out = Ok out' ->
  NoDup out' /\ forall v, v ∈ out' <-> v ∈ out \/ (v <> "" /\ exists p doc vs, p ∈ parts /\ p.2 <> ""
      /\ decode p.2 = Some doc /\ doc field = Some vs /\ v ∈ vs).
Proof.
  revert out. induction parts as [|[m body] parts IH]; intros out Hn; cbn [merge_values].
  { intros [= <-]. split; [done|]. intros v. split; [by left|]. intros [|(_ & p & _ & _ & ?%elem_of_nil & _)]; done. }
  case_decide as Hb.
  { intros H. destruct (IH out Hn H) as [H1 H2]. split; [done|]. intros v. rewrite H2. split.
    - intros [?|(? & p & doc & vs & ? & ?)]; [by left|]. right. split; [done|]. exists p, doc, vs. set_solver.
    - intros [?|(? & p & doc & vs & [->|?]%elem_of_cons & ? & ?)]; [by left|done|]. right. split; [done|]. by exists p, doc, vs. }
  destruct (decode body) as [doc|] eqn:Ed; [|done]. intros H. destruct (add_values out (default [] (doc field)) Hn) as [Hd He].
  destruct (IH _ Hd H) as [H1 H2]. split; [done|]. intros v. rewrite H2, He. split.
  - intros [[?|[? Hv]]|(? & p & doc' & vs & ? & ?)]; [by left| |].
    + right. split; [done|]. destruct (doc field) as [vs|] eqn:Ev; [|by apply elem_of_nil in Hv].
      exists (m, body), doc, vs. set_solver.
    + right. split; [done|]. exists p, doc', vs. set_solver.
  - intros [?|(? & p & doc' & vs & [->|?]%elem_of_cons & ? & Hdec & Hf & ?)]; [by left; left| |].
    + simpl in Hdec. rewrite Ed in Hdec. injection Hdec as <-. left; right. by rewrite Hf.
    + right. split; [done|]. by exists p, doc', vs.
Qed.
(** The merged list is the sorted union of what the members answered. *)
Theorem merged_listing decode parts field out :
  mergeStrings decode parts field = Ok out ->
  StronglySorted str_lt out /\ forall v, v ∈ out <-> v <> "" /\ exists p doc vs, p ∈ parts /\ p.2 <> ""
      /\ decode p.2 = Some doc /\ doc field = Some vs /\ v ∈ vs.
Proof.
  unfold mergeStrings. destruct (merge_values _ _ _ _) as [vs|] eqn:E; [|done]. intros [= <-].
  destruct (merge_values_union decode parts field [] vs) as [Hn Hv]; [constructor|done|].
  split; [by apply sort_strings_sorted|]. intros v. rewrite sort_strings_perm, Hv. set_solver.
Qed.

(** A group merges its members' pages and gives no link: of a member with more
    tags than a page, the group shows the first page, as if it were all. *)
Theorem merged_pages_cut :
  let tags := ["1.0"; "1.1"; "1.2"] in
  let page := parsePage "n=2" in
  let '(shown, truncated) := apply page tags in
  truncated = true
  /\ mergeStrings (fun body => Some (fun _ => Some (split body ","%char))) [("hosted", join shown ",")] "tags" = Ok ["1.0"; "1.1"].
Proof. vm_compute. done. Qed.

Lemma tag_pages_complete_witness :
  let db := set_hosted empty_db
    (<[("hub", manifestPath "app" "1.0") := mkHosted "" "" 0 ∅ ∅ true "" "" ""]>
      {[ ("hub", manifestPath "app" "1.1") := mkHosted "" "" 0 ∅ ∅ true "" "" "" ]}) in
  let tags := hostedTags "app" (Manifests (mkFeed "hub" true) (tags_prefix "app") db) in
  follow 3 tags "n=1" = ["1.0"; "1.1"] /\ "1.1" ∈ follow 3 tags "n=1".
Proof.
  split; [vm_compute; reflexivity|]. set (db := set_hosted _ _).
  apply (tag_pages_complete (mkFeed "hub" true) "app" db "n=1" 1 3); [discriminate|vm_compute; reflexivity|vm_compute; reflexivity|lia| |].
  - vm_compute. lia.
  - split; [discriminate|]. split; [reflexivity|]. split; [reflexivity|]. eexists. vm_compute. reflexivity.
Defined.
End OciListings.
