(* ===== verification/Maven.v ===== *)
(** * The Maven module ([modules/format/maven])

    The path grammar of a Maven 2 repository, uploads by [mvn deploy], the
    generated [maven-metadata.xml] documents at artifact and at SNAPSHOT
    version level. The module is a [FormatModule] and a [Hoster]: it meets the
    laws the write routes rely on. XML decoding (of a pom) is a parameter; the
    documents the module writes are printed here. *)

From S2P Require Import Prelude GoLib State Store Pipeline Publisher Policies Server WriteRoutes ModLib.
Open Scope Z_scope.

Module Maven.
Import Server WriteRoutes.

(** ** Paths ([maven.go]) *)

Definition metadataTTL : Z := 5 * Minute.
Definition snapshotMetadataTTL : Z := 1 * Minute.
Definition checksumExts : list string := ["sha512"; "sha256"; "sha1"; "md5"].

Definition snapshotSuffix : string := "-SNAPSHOT".
Definition isSnapshotVersion (v : string) : bool := has_suffix v snapshotSuffix.

(** *** The regular expression of a timestamped build

    [-(\d{8}\.\d{6})-(\d+)(?:[.-]|$)], leftmost. *)

(** The first [n] bytes when they are digits, and the rest. *)
Fixpoint take_digits (n : nat) (s : string) : option (string * string) :=
  match n, s with
  | O, _ => Some ("", s)
  | S n', String c s' =>
      match digit c, take_digits n' s' with
      | Some _, Some (ds, rest) => Some (String c ds, rest)
      | _, _ => None
      end
  | S _, EmptyString => None
  end.
Fixpoint run_digits (s : string) : string * string :=
  match s with
  | String c s' => match digit c with
                   | Some _ => let '(ds, rest) := run_digits s' in (String c ds, rest)
                   | None => ("", s)
                   end
  | EmptyString => ("", "")
  end.

(** A match at the start: the timestamp, the build number, the whole match. *)
Definition stamp_here (s : string) : option (string * string * string) :=
  s ← expect "-"%char s;
  '(day, s) ← take_digits 8 s;
  s ← expect "."%char s;
  '(time, s) ← take_digits 6 s;
  s ← expect "-"%char s;
  let '(build, s) := run_digits s in
  if decide (build = "") then None
  else
    let stamp := day +:+ "." +:+ time in
    let whole := "-" +:+ stamp +:+ "-" +:+ build in
    match s with
    | EmptyString => Some (stamp, build, whole)
    | String c _ => if decide (c = "."%char \/ c = "-"%char) then Some (stamp, build, whole +:+ String c "") else None
    end.
Fixpoint timestampedRE (s : string) : option (string * string * string) :=
  match stamp_here s, s with
  | Some m, _ => Some m
  | None, String _ s' => timestampedRE s'
  | None, EmptyString => None
  end.

(** *** Requests *)

Definition contentTypeFor (file wantChecksum : string) : string :=
  if decide (wantChecksum <> "") then "text/plain"
  else if has_suffix file ".jar" || has_suffix file ".war" || has_suffix file ".ear" then "application/java-archive"
  else if has_suffix file ".pom" || has_suffix file ".xml" then "application/xml"
  else "application/octet-stream".

(** The checksum a path asks for, and the path of what it is of. *)
Definition checksum_of (p : string) : string * string :=
  match list_find (fun ext => has_suffix p ("." +:+ ext) = true) checksumExts with
  | Some (_, ext) => (ext, trim_suffix p ("." +:+ ext))
  | None => ("", p)
  end.

Definition maven_coord (name version : string) : PackageCoordinate := mkCoord "maven" name version.

Definition not_found (why : string) : api_error * string := (ErrNotFound, why).

(** [parseMetadata]; [dirs] are the segments before the file, last first. *)
Definition parseMetadata (segs : list string) (base want : string) : result (api_error * string) Intent :=
  let metadata coord ttl :=
    mkIntent IntentMetadata coord ttl base no_checksum (mkSource "" "") want false ""
      (contentTypeFor "maven-metadata.xml" want) "" "" in
  match reverse segs with
  | [] | [_] => Err (not_found "metadata path has no group")
  | _ :: last :: dirs =>
      match dirs with
      | artifact :: ((_ :: _) as groups) =>
          if isSnapshotVersion last
          then Ok (metadata (maven_coord (join (reverse groups) "." +:+ ":" +:+ artifact) last) snapshotMetadataTTL)
          else Ok (metadata (maven_coord (join (reverse dirs) "." +:+ ":" +:+ last) "") metadataTTL)
      | [] => Ok (metadata (maven_coord last "") metadataTTL)
      | _ => Ok (metadata (maven_coord (join (reverse dirs) "." +:+ ":" +:+ last) "") metadataTTL)
      end
  end.

(** [parseArtifact]: group, artifact, version and file. *)
Definition parseArtifact (segs : list string) (base want : string) : result (api_error * string) Intent :=
  match reverse segs with
  | file :: version :: artifact :: ((_ :: _) as groups) =>
      let coord := maven_coord (join (reverse groups) "." +:+ ":" +:+ artifact) version in
      if isSnapshotVersion version && negb (bool_decide (is_Some (timestampedRE file)))
      then Ok (mkIntent IntentMetadata coord snapshotMetadataTTL base no_checksum (mkSource "" "") want false ""
                 (contentTypeFor file want) "" "")
      else Ok (mkIntent IntentArtifact coord 0 base no_checksum (mkSource "sha1" (base +:+ ".sha1")) want false ""
                 (contentTypeFor file want) "" "")
  | _ => Err (not_found "not a maven artifact path")
  end.

(** [Parse]. *)
Definition Parse (r : HttpReq) : result (api_error * string) Intent :=
  let p := trim_prefix (rq_path r) "/" in
  if decide (p = "") then Err (not_found "empty path")
  else
    let '(want, base) := checksum_of p in
    let segs := split base "/"%char in
    if existsb (fun s => bool_decide (s = "" \/ s = "." \/ s = "..")) segs then Err (not_found "invalid path")
    else if decide (List.last segs "" = "maven-metadata.xml") then parseMetadata segs base want
    else parseArtifact segs base want.

Definition RedirectSafeIntent (i : Intent) : bool :=
  match i_kind i with IntentArtifact => bool_decide (i_want i = "") | _ => false end.

(** ** Uploads ([hoster.go]) *)

Definition maxUploadSize : Z := 2 ^ 31.
Definition defaultSnapshotRetention : nat := 5.

Section uploads.
Context (digest : string -> string -> string).
(** [xml.Unmarshal] of a pom: the names of its licenses. *)
Context (unmarshal_pom : string -> option (list string)).

Definition digestsOf (body : string) : gmap string string :=
  {[ "sha1" := digest "sha1" body; "md5" := digest "md5" body;
     "sha256" := digest "sha256" body; "sha512" := digest "sha512" body ]}.

(** [parsePOM]. *)
Definition parsePOM (body : string) : option (gmap string string) :=
  names ← unmarshal_pom body;
  let names := filter (fun n => n <> "") (TrimSpace <$> names) in
  let meta : gmap string string := {[ Policies.MetaEcosystem := "Maven" ]} in
  Some (match names with [] => meta | _ => <[Policies.MetaLicense := join names " OR "]> meta end).

(** [verifyUploadedChecksum]: of the first row at that very path. *)
Definition verifyUploadedChecksum (f : Feed) (i : Intent) (r : HttpReq) : prog (result (api_error * string) own_response) :=
  match first_field (limit_read 4096 (rq_body r)) with
  | None => Ret (Err (ErrBadRequest, "empty checksum upload"))
  | Some claimed => CoreManifests f (i_path i) (fun res =>
    match res with
    | Err e => Ret (Err (e, ""))
    | Ok ms =>
        match list_find (fun m => m.1.1 = i_path i) ms with
        | None => Ret (Ok (0, ∅, ""))
        | Some (_, (_, _, row)) =>
            let stored := default "" (h_checksums row !! i_want i) in
            let stored := if decide (stored = "" /\ i_want i = "sha256") then h_sha256 row else stored in
            if decide (stored <> "") then
              if EqualFold stored (ToLower claimed) then Ret (Ok (0, ∅, ""))
              else Ret (Err (ErrChecksumMismatch, "uploaded checksum does not match"))
            else Ret (Ok (0, ∅, ""))
        end
    end)
  end.

(** [HandlePublish]. *)
Definition HandlePublish (f : Feed) (r : HttpReq) : prog (result (api_error * string) own_response) :=
  if decide (trim_prefix (rq_path r) "/" = "") then Ret (Err (ErrBadRequest, "empty upload path"))
  else match Parse r with
  | Err e => Ret (Err e)
  | Ok i =>
      if has_suffix (i_path i) "maven-metadata.xml" then Ret (Ok (0, ∅, ""))
      else if decide (i_want i <> "") then verifyUploadedChecksum f i r
      else
        let body := limit_read maxUploadSize (rq_body r) in
        let digests := digestsOf body in
        let sha := digest "sha256" body in
        let size := Z.of_nat (String.length body) in
        BlobPut ("blobs/sha256/" +:+ sha) body (mkPutOpts sha size "") (fun e =>
          match e with
          | Some e => Ret (Err (e, "stage blob"))
          | None =>
              let meta : gmap string string := {[ Policies.MetaEcosystem := "Maven" ]} in
              let meta := if has_suffix (i_path i) ".pom" then default ∅ (parsePOM body) ∪ meta else meta in
              CorePublish (mkPublish f (i_coord i) (i_path i) sha size digests "" false (Some meta))
                (fun res => Ret (match res with Ok _ => Ok (0, ∅, "") | Err e => Err e end))
          end)
  end.
End uploads.

(** ** Versions *)

(** [splitVersion]: the fields between separators, empty ones dropped. *)
Definition is_separator (c : Ascii.ascii) : bool :=
  bool_decide (c = "."%char \/ c = "-"%char \/ c = "_"%char \/ c = "+"%char).
Fixpoint fields (cur : string) (s : string) : list string :=
  match s with
  | EmptyString => if decide (cur = "") then [] else [cur]
  | String c s' => if is_separator c then (if decide (cur = "") then fields "" s' else cur :: fields "" s')
                   else fields (cur +:+ String c "") s'
  end.
Definition splitVersion (v : string) : list string := fields "" v.

(** [atoi]: decimal digits, in int arithmetic. *)
Fixpoint atoi_loop (n : Z) (s : string) : option Z :=
  match s with
  | EmptyString => Some n
  | String c s' => match digit c with
                   | Some d => atoi_loop (wrap64 (n * 10 + d)) s'
                   | None => None
                   end
  end.
Definition atoi (s : string) : option Z := if decide (s = "") then None else atoi_loop 0 s.

(** One position of [compareVersions]; [None] when it does not decide. *)
Definition compare_at (x y : string) : option Z :=
  match atoi x, atoi y with
  | Some xn, Some yn => if decide (xn = yn) then None else Some (if xn <? yn then -1 else 1)
  | xn, yn =>
      if decide (x = y) then None
      else if decide (x = "") then Some (match yn with Some _ => -1 | None => 1 end)
      else if decide (y = "") then Some (match xn with Some _ => 1 | None => -1 end)
      else Some (if str_ltb x y then -1 else 1)
  end.
Fixpoint compare_fields (xs ys : list string) : Z :=
  match xs, ys with
  | [], [] => 0
  | x :: xs', [] => match compare_at x "" with Some c => c | None => compare_fields xs' [] end
  | [], y :: ys' =>
      (fix go (ys : list string) : Z :=
         match ys with [] => 0 | y :: ys' => match compare_at "" y with Some c => c | None => go ys' end end) ys
  | x :: xs', y :: ys' => match compare_at x y with Some c => c | None => compare_fields xs' ys' end
  end.
Definition compareVersions (a b : string) : Z := compare_fields (splitVersion a) (splitVersion b).
Definition version_less (a b : string) : bool := compareVersions a b <? 0.

Definition latestRelease (sorted : list string) : string :=
  default "" (List.find (fun v => negb (has_suffix v "-SNAPSHOT")) (reverse sorted)).

(** [splitCoordinate]. *)
Definition splitCoordinate (c : PackageCoordinate) : option (string * string * string) :=
  if decide (c_version c = "") then None
  else match Cut (c_name c) ":" with
       | None => None
       | Some (group, artifact) => if decide (group = "" \/ artifact = "") then None
                                   else Some (group, artifact, c_version c)
       end.

(** ** Indexes *)

Notation hosted := (string * PackageCoordinate * HostedRow)%type.
Definition group_path (group : string) : string := swap_char group "."%char "/"%char.

Section reindex.
Context {GR : GoRuntime}.
(** When each row was inserted into this site's database, in seconds: the
    column [published_at], which every database fills in with its own clock
    and which no journal event carries. *)
Context (published_at : string -> Z).

Definition pair_less (a b : string * string) : bool :=
  if decide (a.1 = b.1) then str_ltb a.2 b.2 else str_ltb a.1 b.1.
Definition triple_less (a b : string * string * string) : bool :=
  if decide (a.1 = b.1) then str_ltb a.2 b.2 else pair_less a.1 b.1.

(** *** Snapshots ([snapshot.go]) *)

Record snapshotBuild := mkBuild { sb_timestamp : string; sb_build : Z; sb_kind : string }.

(** [kindOf], for a match of the stamp in the file. *)
Definition kindOf (file stamp : string) : string :=
  match Cut file stamp with
  | None => "jar"
  | Some (_, "") => if contains_char file "."%char then after_last file "."%char else "jar"
  | Some (_, rest) =>
      (fix trim (s : string) : string :=
         match s with
         | String c s' => if decide (c = "."%char \/ c = "-"%char) then trim s' else s
         | EmptyString => ""
         end) rest
  end.

(** [splitKind]: classifier and extension at the last dot, unless it is first. *)
Definition splitKind (kind : string) : string * string :=
  if negb (contains_char kind "."%char) then ("", kind)
  else
    let extension := after_last kind "."%char in
    let classifier := String.substring 0 (String.length kind - S (String.length extension)) kind in
    if decide (classifier = "") then ("", kind) else (classifier, extension).

(** The build a hosted file is, with its group, artifact and version. *)
Definition build_of (m : hosted) : option (string * string * string * snapshotBuild) :=
  '(group, artifact, version) ← splitCoordinate m.1.2;
  if negb (isSnapshotVersion version) then None
  else
    let file := after_last m.1.1 "/"%char in
    '(stamp, number, whole) ← timestampedRE file;
    build ← parse_int number;
    Some (group, artifact, version, mkBuild stamp build (kindOf file whole)).

Definition build_less (a b : snapshotBuild) : bool :=
  if decide (sb_timestamp a = sb_timestamp b)
  then if decide (sb_build a = sb_build b) then str_ltb (sb_kind a) (sb_kind b) else sb_build a <? sb_build b
  else str_ltb (sb_timestamp a) (sb_timestamp b).

(** Retention by build number: those from the [keep]-th largest on. *)
Definition retain (keep : nat) (l : list snapshotBuild) : list snapshotBuild :=
  let seen := visit (remove_dups (sb_build <$> l)) in
  if (bool_decide (0 < keep) && bool_decide (keep < length seen))%nat
  then match gosort Z.ltb seen !! (length seen - keep)%nat with
       | Some cutoff => filter (fun b => cutoff <= sb_build b) l
       | None => l
       end
  else l.

(** The last build of each kind. *)
Definition latest_of (kind : string) (l : list snapshotBuild) : option snapshotBuild :=
  last (filter (fun b => sb_kind b = kind) l).

Definition snapshot_version (base kind : string) (b : snapshotBuild) : xml :=
  let '(classifier, extension) := splitKind kind in
  Elem "snapshotVersion"
    ((if decide (classifier = "") then [] else [Text "classifier" classifier])
     ++ [Text "extension" extension;
         Text "value" (base +:+ "-" +:+ sb_timestamp b +:+ "-" +:+ format_int (sb_build b));
         Text "updated" (replace_char (sb_timestamp b) "."%char "")]).

(** The version-level document of one SNAPSHOT, if anything is left of it. *)
Definition snapshot_doc (keep : nat) (k : string * string * string) (builds : list snapshotBuild)
  : option (string * string) :=
  let '(group, artifact, version) := k in
  let l := retain keep (gosort build_less builds) in
  newest ← last l;
  let kinds := gosort str_ltb (visit (remove_dups (sb_kind <$> l))) in
  let base := trim_suffix version snapshotSuffix in
  let doc := Elem "metadata"
    [Text "groupId" group; Text "artifactId" artifact; Text "version" version;
     Elem "versioning"
       [Elem "snapshot" [Text "timestamp" (sb_timestamp newest); Text "buildNumber" (format_int (sb_build newest))];
        Text "lastUpdated" (replace_char (sb_timestamp newest) "."%char "");
        Elem "snapshotVersions"
          (omap (fun kind => snapshot_version base kind <$> latest_of kind l) kinds)]] in
  Some (group_path group +:+ "/" +:+ artifact +:+ "/" +:+ version +:+ "/maven-metadata.xml",
        xml_header +:+ marshal "" doc +:+ nl).

(** [reindexSnapshots]: the documents in the order they are written. *)
Definition snapshot_docs (keep : nat) (ms : list hosted) : list (string * string) :=
  let found := omap build_of ms in
  let keys := gosort triple_less (visit (remove_dups (fst <$> found))) in
  omap (fun k => snapshot_doc keep k (snd <$> filter (fun kb => kb.1 = k) found)) keys.

(** *** Artifacts *)

Definition snapshotVersionOf (version : string) : string := version.

(** A hosted file's group, artifact and version. *)
Definition version_entry (m : hosted) : option (string * string * string) :=
  '(group, artifact, version) ← splitCoordinate m.1.2;
  Some (group, artifact,
        if contains_char m.1.1 "/"%char && bool_decide (is_Some (timestampedRE m.1.1))
        then snapshotVersionOf version else version).

Definition lastUpdatedOf (ms : list hosted) (group artifact : string) : string :=
  let newest := foldl (fun acc (m : hosted) =>
    match splitCoordinate m.1.2 with
    | Some (g, a, _) => if decide (g = group /\ a = artifact) then acc `max` published_at m.1.1 else acc
    | None => acc
    end) zero_time ms in
  if decide (newest = zero_time) then "00000000000000" else format_compact newest.

(** The document of one artifact, for its sorted versions. *)
Definition artifact_index (k : string * string) (l : list string) (lastUpdated : string) : string * string :=
  let doc := Elem "metadata"
    [Text "groupId" k.1; Text "artifactId" k.2;
     Elem "versioning"
       [Text "latest" (List.last l ""); Text "release" (latestRelease l);
        Elem "versions" (Text "version" <$> l);
        Text "lastUpdated" lastUpdated]] in
  (group_path k.1 +:+ "/" +:+ k.2 +:+ "/maven-metadata.xml", xml_header +:+ marshal "" doc +:+ nl).

Definition artifact_doc (ms : list hosted) (k : string * string) (versions : list string) : string * string :=
  artifact_index k (gosort version_less versions) (lastUpdatedOf ms k.1 k.2).

Definition artifact_docs (ms : list hosted) : list (string * string) :=
  let found := omap version_entry ms in
  let keys := gosort pair_less (visit (remove_dups (fst <$> found))) in
  (fun k => artifact_doc ms k (visit (remove_dups (snd <$> filter (fun kv => kv.1 = k) found)))) <$> keys.

(** [Reindex]. *)
Definition Reindex (f : Feed) : prog (option api_error) :=
  CoreManifests f "" (fun res => match res with
    | Err e => Ret (Some e)
    | Ok ms => put_all f (snapshot_docs defaultSnapshotRetention ms ++ artifact_docs ms)
    end).
End reindex.

(** ** Metadata of a coordinate *)

(** [MetadataIntent]: the pom. *)
Definition MetadataIntent (c : PackageCoordinate) : option Intent :=
  match Cut (c_name c) ":" with
  | None => None
  | Some (group, artifact) =>
      if decide (c_version c = "") then None
      else
        let path := group_path group +:+ "/" +:+ artifact +:+ "/" +:+ c_version c
                    +:+ "/" +:+ artifact +:+ "-" +:+ c_version c +:+ ".pom" in
        Some (mkIntent IntentArtifact c 0 path no_checksum (mkSource "sha1" (path +:+ ".sha1")) "" false ""
                "application/xml" "" "")
  end.

(** ** Groups ([group.go]) *)

(** The generated index, as a member's copy of it is read. *)
Record mavenMetadata := mkMetadata {
  md_group : string; md_artifact : string;
  md_latest : string; md_release : string; md_versions : list string; md_updated : string;
}.
Definition metadata_doc (d : mavenMetadata) : string :=
  xml_header +:+ marshal "" (Elem "metadata"
    [Text "groupId" (md_group d); Text "artifactId" (md_artifact d);
     Elem "versioning"
       [Text "latest" (md_latest d); Text "release" (md_release d);
        Elem "versions" (Text "version" <$> md_versions d); Text "lastUpdated" (md_updated d)]]) +:+ nl.

Definition MergeableIntent (i : Intent) : bool :=
  match i_kind i with
  | IntentMetadata => if decide (i_want i <> "") then false else has_suffix (i_path i) "maven-metadata.xml"
  | _ => false
  end.

Section merge.
Context {GR : GoRuntime} (unmarshal_metadata : string -> option mavenMetadata).

Definition isNewerVersion (a b : string) : bool :=
  if decide (b = "") then true
  else bool_decide (gosort version_less [a; b] !! 1%nat = Some a).

(** The versions seen so far, and one more member's. *)
Definition add_version (all : list string) (v : string) : list string :=
  if decide (v = "" \/ v ∈ all) then all else all ++ [v].

(** One member's document, onto the merged fields, versions and newest release. *)
Definition merge_part (acc : mavenMetadata) (d : mavenMetadata) : mavenMetadata :=
  let named := bool_decide (md_group acc <> "") in
  mkMetadata (if named then md_group acc else md_group d) (if named then md_artifact acc else md_artifact d) ""
    (if bool_decide (md_release d <> "") && isNewerVersion (md_release d) (md_release acc)
     then md_release d else md_release acc)
    (foldl add_version (md_versions acc) (md_versions d))
    (if str_ltb (md_updated acc) (md_updated d) then md_updated d else md_updated acc).

Fixpoint merge_parts (parts : list (string * string)) (acc : mavenMetadata) : option mavenMetadata :=
  match parts with
  | [] => Some acc
  | (_, body) :: parts =>
      match unmarshal_metadata body with
      | None => None
      | Some d => merge_parts parts (merge_part acc d)
      end
  end.

Definition finish_merge (acc : mavenMetadata) : mavenMetadata :=
  let all := gosort version_less (md_versions acc) in
  let release := latestRelease all in
  mkMetadata (md_group acc) (md_artifact acc) (List.last all "")
    (if decide (release = "") then md_release acc else release) all (md_updated acc).

Definition no_metadata : mavenMetadata := mkMetadata "" "" "" "" [] "".

Definition Merge (f : Feed) (i : Intent) (parts : list (string * string)) : result api_error string :=
  match merge_parts parts no_metadata with
  | None => Err (ErrOther "parse maven-metadata.xml")
  | Some acc => match md_versions acc with
                | [] => Err ErrNotFound
                | _ => Ok (metadata_doc (finish_merge acc))
                end
  end.
End merge.

(** The module, and the module as a host. *)
Section module.
Context {GR : GoRuntime} (digest : string -> string -> string) (unmarshal_pom : string -> option (list string)).
Context (published_at : string -> Z) (unmarshal_metadata : string -> option mavenMetadata).
Definition maven {St} : FormatModule St :=
  mkModule Parse None None None None (Some RedirectSafeIntent) None
    (Some ((fun _ => MetadataIntent), (fun _ => parsePOM unmarshal_pom)))
    (Some (MergeableIntent, Merge unmarshal_metadata)).
Definition hoster : Hoster :=
  mkHoster false (HandlePublish digest unmarshal_pom) (Reindex published_at).
End module.

(** ** Theorems *)

Lemma publishes_verify P f i r : publishes P (verifyUploadedChecksum f i r).
Proof.
  unfold verifyUploadedChecksum. destruct (first_field _); simpl; [|done].
  intros [ms|e]; [|done]. destruct (list_find _ ms) as [[n [[p c] row]]|]; [|done]. repeat case_match; done.
Qed.

(** What an upload publishes: the bytes sent, at the path and coordinate the
    path grammar reads from the request. *)
Lemma upload_publishes digest unmarshal f r :
  publishes (fun q => exists i, Parse r = Ok i /\ i_want i = "" /\ pr_feed q = f /\ pr_coord q = i_coord i
               /\ pr_path q = i_path i
               /\ pr_sha256 q = digest "sha256" (limit_read maxUploadSize (rq_body r))
               /\ pr_size q = Z.of_nat (String.length (limit_read maxUploadSize (rq_body r)))
               /\ pr_checksums q = digestsOf digest (limit_read maxUploadSize (rq_body r)) /\ pr_mutable q = false)
    (HandlePublish digest unmarshal f r).
Proof.
  unfold HandlePublish. case_decide; [done|]. destruct (Parse r) as [i|e] eqn:E; [|done].
  destruct (has_suffix _ _); [done|]. case_decide as Hw; [apply publishes_verify|].
  intros [e|]; [done|]. split; [|done]. exists i. done.
Qed.

#[global] Instance maven_laws {GR : GoRuntime} digest unmarshal published : HosterLaws (hoster digest unmarshal published).
Proof.
  split; simpl.
  - intros f r. eapply publishes_mono; [|apply upload_publishes]. simpl. by intros q (i & _ & _ & ? & _).
  - intros f [ms|e]; [apply put_all_publishes|done].
Qed.

Lemma pair_less_total : strict_total pair_less.
Proof. apply (lex_total fst snd); auto with fondaco. by intros [] [] ? ?; simplify_eq/=. Qed.
Lemma triple_less_total : strict_total triple_less.
Proof. apply (lex_total fst snd); auto using pair_less_total with fondaco. by intros [] [] ? ?; simplify_eq/=. Qed.
Definition number_less (a b : Z * string) : bool := if decide (a.1 = b.1) then str_ltb a.2 b.2 else a.1 <? b.1.
Lemma number_less_total : strict_total number_less.
Proof. apply (lex_total fst snd); auto with fondaco. by intros [] [] ? ?; simplify_eq/=. Qed.
Lemma build_less_total : strict_total build_less.
Proof.
  apply (lex_total sb_timestamp (fun b => (sb_build b, sb_kind b)) str_ltb number_less);
    auto using number_less_total with fondaco.
  by intros [] [] ? ?; simplify_eq/=.
Qed.

Lemma lastUpdatedOf_perm published ms1 ms2 g a :
  ms1 ≡ₚ ms2 -> lastUpdatedOf published ms1 g a = lastUpdatedOf published ms2 g a.
Proof.
  unfold lastUpdatedOf. set (F := fun (acc : Z) (m : hosted) => _). intros Hp.
  assert (forall z, foldl F z ms1 = foldl F z ms2) as H; [|by rewrite H].
  induction Hp as [|m l1 l2 Hp IH|m1 m2 l|l1 l2 l3 H1 IH1 H2 IH2]; intros z; simpl; [done|apply IH| |by rewrite IH1].
  f_equal. unfold F. repeat case_match; try done; lia.
Qed.

(** Every artifact's versions are comparable. *)
Definition versions_ordered (ms : list hosted) : Prop :=
  forall k, total_less version_less (remove_dups (snd <$> filter (fun kv => kv.1 = k) (omap version_entry ms))).

(** Two databases recorded the same publication times of these files. *)
Definition same_times (pub1 pub2 : string -> Z) (ms : list hosted) : Prop :=
  forall m, m ∈ ms -> pub1 m.1.1 = pub2 m.1.1.
Lemma lastUpdatedOf_times pub1 pub2 ms g a :
  same_times pub1 pub2 ms -> lastUpdatedOf pub1 ms g a = lastUpdatedOf pub2 ms g a.
Proof.
  intros Ht. unfold lastUpdatedOf. set (F1 := fun (acc : Z) (m : hosted) => _). set (F2 := fun (acc : Z) (m : hosted) => _).
  assert (forall z, foldl F1 z ms = foldl F2 z ms) as H; [|by rewrite H].
  induction ms as [|m ms IH]; intros z; [done|]. simpl. unfold F1 at 2, F2 at 2. rewrite (Ht m) by left.
  apply IH. intros m' Hm'. apply Ht. by right.
Qed.

(** Two documents of one artifact that list the same versions and carry the
    publication times their sites recorded. *)
Definition same_but_time (pub1 pub2 : string -> Z) (ms1 ms2 : list hosted) (d1 d2 : string * string) : Prop :=
  exists k l, d1 = artifact_index k l (lastUpdatedOf pub1 ms1 k.1 k.2)
              /\ d2 = artifact_index k l (lastUpdatedOf pub2 ms2 k.1 k.2).

Lemma artifact_docs_same (G1 G2 : GoRuntime) pub1 pub2 ms1 ms2 :
  ms1 ≡ₚ ms2 -> versions_ordered ms1 ->
  Forall2 (same_but_time pub1 pub2 ms1 ms2) (@artifact_docs G1 pub1 ms1) (@artifact_docs G2 pub2 ms2).
Proof.
  intros Hp Ho. unfold artifact_docs. pose proof (omap_Permutation version_entry _ _ Hp) as Hf.
  rewrite (gosort_same G1 G2 pair_less _ (@visit G2 _ (remove_dups (fst <$> omap version_entry ms2)))).
  2: apply strict_total_less, pair_less_total. 2: apply visit_same; by rewrite Hf.
  apply Forall2_fmap, Forall_Forall2_diag, Forall_forall. intros k _. unfold artifact_doc.
  rewrite (gosort_same G1 G2 version_less _
    (@visit G2 _ (remove_dups (snd <$> filter (fun kv => kv.1 = k) (omap version_entry ms2))))); [by eexists k, _| |].
  - eapply total_less_perm; [symmetry; apply visit_perm|apply Ho].
  - apply visit_same. by rewrite Hf.
Qed.

Lemma retain_same (G1 G2 : GoRuntime) keep l : @retain G1 keep l = @retain G2 keep l.
Proof.
  unfold retain. pose proof (visit_same G1 G2 (sb_build <$> l) _ (reflexivity _)) as Hv.
  rewrite (Permutation_length Hv). destruct (_ && _); [|done].
  rewrite (gosort_same G1 G2 Z.ltb _ _ (strict_total_less _ _ Z_ltb_total) Hv). done.
Qed.
Lemma snapshot_doc_same (G1 G2 : GoRuntime) keep k l1 l2 :
  l1 ≡ₚ l2 -> @snapshot_doc G1 keep k l1 = @snapshot_doc G2 keep k l2.
Proof.
  intros Hp. unfold snapshot_doc. destruct k as [[g a] v].
  rewrite (gosort_same G1 G2 build_less _ _ (strict_total_less _ _ build_less_total) Hp), (retain_same G1 G2).
  set (l := @retain G2 keep _). pose proof (visit_same G1 G2 (sb_kind <$> l) _ (reflexivity _)) as Hv.
  by rewrite (gosort_same G1 G2 str_ltb _ _ (strict_total_less _ _ str_ltb_total) Hv).
Qed.
Lemma snapshot_docs_same (G1 G2 : GoRuntime) keep ms1 ms2 :
  ms1 ≡ₚ ms2 -> @snapshot_docs G1 keep ms1 = @snapshot_docs G2 keep ms2.
Proof.
  intros Hp. unfold snapshot_docs. pose proof (omap_Permutation build_of _ _ Hp) as Hf.
  rewrite (gosort_same G1 G2 triple_less _ (@visit G2 _ (remove_dups (fst <$> omap build_of ms2)))).
  2: apply strict_total_less, triple_less_total. 2: apply visit_same; by rewrite Hf.
  generalize (@gosort G2 _ triple_less (@visit G2 _ (remove_dups (fst <$> omap build_of ms2)))). intros keys.
  induction keys as [|k keys IH]; [done|]. unfold omap in *. cbn [list_omap]. rewrite IH.
  rewrite (snapshot_doc_same G1 G2 keep k _ (snd <$> filter (fun kb => kb.1 = k) (omap build_of ms2))); [done|by rewrite Hf].
Qed.

(** *** Merged indexes *)

Lemma add_versions all vs :
  NoDup all -> NoDup (foldl add_version all vs)
  /\ forall v, v ∈ foldl add_version all vs <-> v ∈ all \/ (v <> "" /\ v ∈ vs).
Proof.
  revert all. induction vs as [|w vs IH]; intros all Hn; simpl; [set_solver|].
  destruct (IH (add_version all w)) as [Hd He].
  { unfold add_version. case_decide as Hc; [done|]. apply NoDup_app. split; [done|].
    split; [|apply NoDup_singleton]. intros x Hx ->%list_elem_of_singleton. tauto. }
  split; [done|]. intros v. rewrite He. unfold add_version. case_decide as Hc; set_solver.
Qed.

Lemma merge_parts_same (G1 G2 : GoRuntime) unmarshal parts acc :
  (forall a b, a <> b -> a <> "" -> b <> "" -> (exists p d, p ∈ parts /\ unmarshal p.2 = Some d /\ md_release d = a) ->
     (md_release acc = b \/ exists p d, p ∈ parts /\ unmarshal p.2 = Some d /\ md_release d = b) ->
     total_less version_less [a; b]) ->
  @merge_parts G1 unmarshal parts acc = @merge_parts G2 unmarshal parts acc.
Proof.
  revert acc. induction parts as [|[n body] parts IH]; intros acc Hr; simpl; [done|].
  destruct (unmarshal body) as [d|] eqn:Eu; [|done].
  assert (@merge_part G1 acc d = @merge_part G2 acc d) as ->.
  { unfold merge_part. do 2 f_equal. unfold isNewerVersion.
    destruct (decide (md_release acc = "")); [done|].
    destruct (decide (md_release d = "")) as [->|]; [done|]. destruct (decide (md_release d = md_release acc)) as [->|Hne].
    - case_bool_decide; simpl; [|done]. by destruct (bool_decide _), (bool_decide _).
    - rewrite (gosort_same G1 G2 version_less _ [md_release d; md_release acc]); [done| |done].
      apply Hr; [done..| |by left]. exists (n, body), d. set_solver. }
  apply IH. intros a b Hab Hna Hnb (p & d' & Hp & Hd' & Ha) Hb. apply Hr; [done..| |].
  - exists p, d'. set_solver.
  - destruct Hb as [Hb|(q & d'' & Hq & Hd'' & Hb)]; [|right; exists q, d''; set_solver].
    simpl in Hb. destruct (_ && _); [|by left]. right. exists (n, body), d. set_solver.
Qed.

Lemma merge_parts_versions {GR : GoRuntime} unmarshal parts acc acc' :
  NoDup (md_versions acc) -> merge_parts unmarshal parts acc = Some acc' ->
  NoDup (md_versions acc')
  /\ (forall v, v ∈ md_versions acc' <->
        v ∈ md_versions acc \/ (v <> "" /\ exists p d, p ∈ parts /\ unmarshal p.2 = Some d /\ v ∈ md_versions d))
  /\ (md_group acc <> "" -> md_group acc' = md_group acc /\ md_artifact acc' = md_artifact acc).
Proof.
  revert acc. induction parts as [|[n body] parts IH]; intros acc Hn; simpl.
  { intros [= <-]. split; [done|]. split; [|done]. set_solver. }
  destruct (unmarshal body) as [d|] eqn:Eu; [|done]. intros Hm.
  destruct (add_versions (md_versions acc) (md_versions d) Hn) as [Hd He].
  destruct (IH (merge_part acc d) Hd Hm) as (H1 & H2 & H3). split; [done|]. split.
  - intros v. rewrite H2. unfold merge_part. cbn [md_versions]. rewrite He. split.
    + intros [[?|[??]]|(? & p & d' & ? & ? & ?)]; [by left| |].
      * right. split; [done|]. exists (n, body), d. set_solver.
      * right. split; [done|]. exists p, d'. set_solver.
    + intros [?|(? & p & d' & [->|?]%elem_of_cons & ? & ?)]; [by left; left| |].
      * simplify_eq/=. set_solver.
      * right. split; [done|]. by exists p, d'.
  - intros Hg. simpl in H3. rewrite bool_decide_true in H3 by done. by apply H3.
Qed.

(** The merged [maven-metadata.xml] of a group lists exactly the versions
    its members list, each once, and names the artifact its first member
    names; where those versions (and the members' release fields) are
    comparable it lists them in version order, the newest as the latest, and
    every process builds the same bytes. *)
Theorem maven_merge_union (G1 G2 : GoRuntime) unmarshal f i parts body :
  @Merge G1 unmarshal f i parts = Ok body ->
  let listed v := v <> "" /\ exists p d, p ∈ parts /\ unmarshal p.2 = Some d /\ v ∈ md_versions d in
  exists d, body = metadata_doc d /\ NoDup (md_versions d) /\ (forall v, v ∈ md_versions d <-> listed v)
    /\ (forall n b d0 ps, parts = (n, b) :: ps -> unmarshal b = Some d0 -> md_group d0 <> "" ->
          md_group d = md_group d0 /\ md_artifact d = md_artifact d0)
    /\ (total_less version_less (md_versions d) ->
          ascending version_less (md_versions d) /\ last (md_versions d) = Some (md_latest d)
          /\ ((forall a b, a <> b -> a <> "" -> b <> "" ->
                 (exists p d, p ∈ parts /\ unmarshal p.2 = Some d /\ md_release d = a) ->
                 (exists p d, p ∈ parts /\ unmarshal p.2 = Some d /\ md_release d = b) ->
                 total_less version_less [a; b]) ->
              @Merge G2 unmarshal f i parts = Ok body)).
Proof.
  unfold Merge. destruct (@merge_parts G1 _ _ _) as [acc|] eqn:Em; [|done].
  destruct (merge_parts_versions unmarshal parts no_metadata acc (NoDup_nil_2) Em) as (Hn & Hv & _).
  destruct (md_versions acc) as [|v0 vs] eqn:Ev; [done|]. intros [= <-]. simpl. exists (@finish_merge G1 acc).
  pose proof (@gosort_perm G1 _ version_less (md_versions acc)) as Hp.
  split; [done|]. cbn [finish_merge md_versions md_group md_artifact md_latest]. rewrite Ev in Hp |- *.
  split; [by rewrite Hp|]. split; [intros v; rewrite Hp, Hv; set_solver|]. split.
  { intros n b d0 ps -> Hu Hg. simpl in Em. rewrite Hu in Em.
    destruct (@merge_parts_versions G1 unmarshal ps (@merge_part G1 no_metadata d0) acc) as (_ & _ & H3); [|done|by apply H3].
    simpl. apply add_versions; constructor. }
  intros Ht. pose proof (total_less_perm _ _ _ Hp Ht) as Ht'. split; [by apply gosort_sorted|]. split.
  - destruct (@gosort G1 _ version_less (v0 :: vs)) as [|w ws] eqn:Eg; [by apply Permutation_nil in Hp|].
    destruct (exists_last (l := w :: ws)) as (l & x & ->); [done|]. by rewrite last_snoc, List.last_last.
  - intros Hr. rewrite <-(merge_parts_same G1 G2).
    + rewrite Em, Ev. unfold finish_merge. by rewrite Ev, (gosort_same G2 G1 version_less _ (v0 :: vs)).
    + intros a b Hab Hna Hnb Ha Hb. apply Hr; [done..|]. by destruct Hb as [<-|?].
Qed.

(** *** Dotted numbers *)

(** A numeral as the code reads and Go prints it. *)
Definition numeral (w : string) (n : Z) : Prop := atoi w = Some n /\ format_int n = w.
Definition dotted (v : string) (ns : list Z) : Prop :=
  exists ws, ws <> [] /\ Forall2 numeral ws ns /\ v = join ws ".".

Lemma atoi_digits n w m : atoi_loop n w = Some m -> forall c s t, w = s +:+ String c t -> is_separator c = false.
Proof.
  revert n. induction w as [|d w IH]; intros n Ha c s t Hw; [by destruct s|]. simpl in Ha.
  destruct (digit d) eqn:Ed; [|done]. destruct s as [|d' s]; simpl in Hw; injection Hw as -> ->; [|by eapply IH].
  unfold is_separator. apply bool_decide_eq_false. intros [->|[->|[->| ->]]]; discriminate Ed.
Qed.
Lemma fields_app cur w rest :
  (forall c s t, w = s +:+ String c t -> is_separator c = false) -> fields cur (w +:+ rest) = fields (cur +:+ w) rest.
Proof.
  revert cur. induction w as [|c w IH]; intros cur Hw; simpl; [by rewrite str_app_nil_r|].
  rewrite (Hw c "" w eq_refl). rewrite IH; [|intros d s t ->; by apply (Hw d (String c s) t)].
  by rewrite <-str_app_assoc.
Qed.
Lemma splitVersion_dotted ws ns : Forall2 numeral ws ns -> ws <> [] -> splitVersion (join ws ".") = ws.
Proof.
  unfold splitVersion. induction 1 as [|w n ws ns [Ha Hf] Hr IH]; [done|]. intros _.
  assert (w <> "") as Hne by (intros ->; discriminate Ha).
  assert (forall c s t, w = s +:+ String c t -> is_separator c = false) as Hsep.
  { unfold atoi in Ha. rewrite decide_False in Ha by done. by eapply atoi_digits. }
  destruct ws as [|w' ws].
  - simpl. pose proof (fields_app "" w "" Hsep) as H. rewrite str_app_nil_r in H. rewrite H. simpl.
    by rewrite decide_False.
  - change (join (w :: w' :: ws) ".") with (w +:+ "." +:+ join (w' :: ws) ".").
    rewrite fields_app by done. simpl. rewrite decide_False by done. f_equal. by apply IH.
Qed.

(** Lists of numbers, position by position, a prefix first. *)
Fixpoint numbers_compare (xs ys : list Z) : Z :=
  match xs, ys with
  | [], [] => 0
  | [], _ :: _ => -1
  | _ :: _, [] => 1
  | x :: xs', y :: ys' => if decide (x = y) then numbers_compare xs' ys' else if x <? y then -1 else 1
  end.
Lemma compare_fields_numbers ws vs ns ms :
  Forall2 numeral ws ns -> Forall2 numeral vs ms -> compare_fields ws vs = numbers_compare ns ms.
Proof.
  intros Hw. revert vs ms. induction Hw as [|w n ws ns [Ha Hf] Hw IH]; intros vs ms Hv.
  - destruct Hv as [|v m vs ms [Ha Hf] Hv]; [done|]. simpl. unfold compare_at. rewrite Ha. simpl.
    rewrite decide_False; [done|]. intros <-. discriminate Ha.
  - destruct Hv as [|v m vs ms [Hb Hg] Hv]; simpl; unfold compare_at; rewrite Ha.
    + simpl. rewrite decide_False, decide_False; [done| |]; intros ->; discriminate Ha.
    + rewrite Hb. case_decide; [by apply IH|done].
Qed.
Lemma numbers_total : strict_total (fun xs ys => numbers_compare xs ys <? 0).
Proof.
  assert (forall xs ys, numbers_compare xs ys = - numbers_compare ys xs) as Hopp.
  { induction xs as [|x xs IH]; intros [|y ys]; simpl; try done.
    destruct (decide (x = y)) as [->|Hne]; [rewrite decide_True by done; apply IH|rewrite decide_False by congruence].
    destruct (Z.ltb_spec x y), (Z.ltb_spec y x); lia. }
  assert (forall xs ys, numbers_compare xs ys = 0 -> xs = ys) as Heq.
  { induction xs as [|x xs IH]; intros [|y ys]; simpl; try done. case_decide; [|by case_match].
    intros Hxy%IH. congruence. }
  split.
  - intros xs. induction xs as [|x xs IH]; intros [|y ys] [|z zs]; simpl; try done.
    destruct (decide (x = y)) as [->|H1], (decide (y = z)) as [->|H2].
    + apply IH.
    + by destruct (y <? z).
    + rewrite ?decide_False by done. by destruct (x <? z).
    + destruct (Z.ltb_spec x y), (Z.ltb_spec y z); try done. rewrite decide_False by lia.
      by rewrite (proj2 (Z.ltb_lt x z)) by lia.
  - intros xs. specialize (Hopp xs xs). lia.
  - intros xs ys H1 H2. apply Heq. rewrite (Hopp ys xs) in H2. lia.
Qed.
Lemma numeral_inj ws vs ns : Forall2 numeral ws ns -> Forall2 numeral vs ns -> ws = vs.
Proof.
  intros Hw. revert vs. induction Hw as [|w n ws ns [_ Hf] Hw IH]; intros vs Hv; inversion Hv as [|v m vs' ms [_ Hg]]; subst;
    [done|]. f_equal. by apply IH.
Qed.

(** Versions that are dotted numbers are comparable. *)
Lemma dotted_ordered vs : (forall v, v ∈ vs -> exists ns, dotted v ns) -> total_less version_less vs.
Proof.
  intros Hd. assert (forall v w ns ms, dotted v ns -> dotted w ms -> version_less v w = (numbers_compare ns ms <? 0)) as Hc.
  { intros v w ns ms (ws & Hw & F1 & ->) (us & Hu & F2 & ->). unfold version_less, compareVersions.
    rewrite (splitVersion_dotted _ _ F1 Hw), (splitVersion_dotted _ _ F2 Hu). f_equal. by apply compare_fields_numbers. }
  destruct numbers_total as [T I To]. split.
  - intros x y z [a Ha]%Hd [b Hb]%Hd [c Hz]%Hd. rewrite (Hc x y a b), (Hc y z b c), (Hc x z a c) by done. apply T.
  - intros x [a Ha]%Hd. rewrite (Hc x x a a) by done. apply I.
  - intros x y [a Ha]%Hd [b Hb]%Hd. rewrite (Hc x y a b), (Hc y x b a) by done. intros H1 H2.
    assert (a = b) as <- by by apply To. destruct Ha as (ws & _ & F1 & ->), Hb as (us & _ & F2 & ->).
    by rewrite (numeral_inj _ _ _ F1 F2).
Qed.
Lemma dotted_versions_ordered ms :
  (forall m g a v, m ∈ ms -> version_entry m = Some (g, a, v) -> exists ns, dotted v ns) -> versions_ordered ms.
Proof.
  intros H k. apply dotted_ordered. intros v [[[g a] v'] [-> Hin]]%elem_of_remove_dups%list_elem_of_fmap.
  apply list_elem_of_filter in Hin as [_ (m & Hm & He)%list_elem_of_omap]. eauto.
Qed.


(** *** Paths *)

(** A path the grammar accepts is one the pipeline accepts. *)
Lemma parse_path_valid r i : Parse r = Ok i -> validRemotePath (i_path i) = true.
Proof.
  unfold Parse. case_decide; [done|]. destruct (checksum_of _) as [want base].
  destruct (existsb _ _) eqn:Ex; [done|]. intros Hp. apply valid_remote_path_spec. left.
  assert (i_path i = base) as ->.
  { revert Hp. case_decide; unfold parseMetadata, parseArtifact; repeat case_match; by intros [= <-]. }
  apply Forall_forall. intros s Hs. unfold good_segment.
  assert (~ (s = "" \/ s = "." \/ s = "..")) as Hn; [|tauto]. intros Hb.
  assert (existsb (fun s => bool_decide (s = "" \/ s = "." \/ s = "..")) (split base "/"%char) = true) as Ht.
  { apply existsb_exists. exists s. split; [by apply list_elem_of_In|by apply bool_decide_eq_true]. }
  congruence.
Qed.

Lemma last_char_inj x y c d : x +:+ String c "" = y +:+ String d "" -> c = d.
Proof.
  revert y. induction x as [|a x IH]; intros [|b y]; simpl.
  - by intros [= ->].
  - intros H. apply (f_equal String.length) in H. simpl in H. rewrite str_length_app in H. simpl in H. lia.
  - intros H. apply (f_equal String.length) in H. simpl in H. rewrite str_length_app in H. simpl in H. lia.
  - intros [= _ H]. by eapply IH.
Qed.
Lemma has_suffix_spec s suf : has_suffix s suf = true -> exists p, s = p +:+ suf.
Proof.
  unfold has_suffix. destruct (cut_suffix s suf) as [p b] eqn:E. simpl. intros ->. exists p. by apply cut_suffix_true.
Qed.
Lemma no_checksum_of p c : c <> "1"%char -> c <> "2"%char -> c <> "5"%char -> c <> "6"%char ->
  checksum_of (p +:+ String c "") = ("", p +:+ String c "").
Proof.
  intros. unfold checksum_of. destruct (list_find _ _) as [[n ext]|] eqn:E; [exfalso|done].
  apply list_find_Some in E as (Hl & [q Hq]%has_suffix_spec & _). apply list_elem_of_lookup_2 in Hl.
  assert (exists x d, "." +:+ ext = x +:+ String d "" /\ (d = "1" \/ d = "2" \/ d = "5" \/ d = "6")%char) as (x & d & Hx & Hd).
  { unfold checksumExts in Hl. repeat (apply elem_of_cons in Hl as [->|Hl]); [..|by apply elem_of_nil in Hl].
    - exists ".sha51", "2"%char. auto.
    - exists ".sha25", "6"%char. auto.
    - exists ".sha", "1"%char. auto.
    - exists ".md", "5"%char. auto. }
  rewrite Hx, str_app_assoc in Hq. apply last_char_inj in Hq. naive_solver.
Qed.

Lemma group_path_join gs :
  Forall (fun g => contains_char g "."%char = false) gs -> group_path (join gs ".") = join gs "/".
Proof.
  unfold group_path, swap_char.
  assert (forall a b, replace_char (a +:+ b) "."%char "/" = replace_char a "."%char "/" +:+ replace_char b "."%char "/") as Happ.
  { induction a as [|c a IH]; intros b; simpl; [done|]. by rewrite IH, str_app_assoc. }
  assert (forall a, contains_char a "."%char = false -> replace_char a "."%char "/" = a) as Hid.
  { induction a as [|c a IH]; simpl; [done|]. intros [Hc Ha]%orb_false_iff. apply bool_decide_eq_false in Hc.
    rewrite decide_False, IH by done. done. }
  induction 1 as [|g gs Hg Hgs IH]; [done|]. destruct gs as [|g' gs]; [by apply Hid|].
  change (join (g :: g' :: gs) ".") with (g +:+ "." +:+ join (g' :: gs) ".").
  change (join (g :: g' :: gs) "/") with (g +:+ "/" +:+ join (g' :: gs) "/").
  rewrite Happ, (Hid g Hg), Happ, IH. done.
Qed.

Definition pom_file (a v : string) : string := a +:+ "-" +:+ v +:+ ".pom".
Lemma content_type_pom a v : contentTypeFor (pom_file a v) "" = "application/xml".
Proof.
  unfold contentTypeFor. rewrite decide_False by tauto.
  assert (pom_file a v = (a +:+ "-" +:+ v) +:+ ".pom") as Hf by (unfold pom_file; by rewrite <-!str_app_assoc).
  assert (forall x, has_suffix (pom_file a v) (x +:+ "r") = false) as Hr.
  { intros x. apply not_true_iff_false. intros [q Hq]%has_suffix_spec. rewrite Hf in Hq.
    change ".pom" with (".po" +:+ "m") in Hq. rewrite !str_app_assoc in Hq. by apply last_char_inj in Hq. }
  assert (has_suffix (pom_file a v) ".jar" = false) as -> by apply (Hr ".ja").
  assert (has_suffix (pom_file a v) ".war" = false) as -> by apply (Hr ".wa").
  assert (has_suffix (pom_file a v) ".ear" = false) as -> by apply (Hr ".ea"). simpl. unfold has_suffix. by rewrite Hf, cut_suffix_app.
Qed.

(** What a group segment and a path segment must be. *)
Definition group_segment (g : string) : Prop :=
  g <> "" /\ contains_char g "."%char = false /\ contains_char g "/"%char = false /\ contains_char g ":"%char = false.
Definition path_segment (s : string) : Prop := good_segment s /\ contains_char s "/"%char = false.

Lemma contains_char_join gs sep c :
  Forall (fun g => contains_char g c = false) gs -> contains_char sep c = false -> contains_char (join gs sep) c = false.
Proof.
  intros Hg Hs. induction Hg as [|g gs Hg Hgs IH]; [done|]. destruct gs as [|g' gs]; [done|].
  change (join (g :: g' :: gs) sep) with (g +:+ sep +:+ join (g' :: gs) sep).
  by rewrite !contains_char_app, Hg, Hs, IH.
Qed.

Definition pom_path (gs : list string) (a v : string) : string :=
  join gs "/" +:+ "/" +:+ a +:+ "/" +:+ v +:+ "/" +:+ pom_file a v.

Lemma pom_segments gs a v :
  gs <> [] -> Forall group_segment gs -> path_segment a -> path_segment v ->
  split (pom_path gs a v) "/"%char = gs ++ [a; v; pom_file a v].
Proof.
  intros Hne Hg [_ Ha] [_ Hv]. unfold pom_path.
  change (join gs "/" +:+ "/" +:+ a +:+ "/" +:+ v +:+ "/" +:+ pom_file a v)
    with (join gs "/" +:+ String "/" (a +:+ String "/" (v +:+ String "/" (pom_file a v)))).
  rewrite split_app, split_join. 2: done. 2: { eapply Forall_impl; [exact Hg|]. by intros g (_ & _ & ? & _). }
  f_equal. rewrite !split_app, !split_single; [done| |done|done]. unfold pom_file. rewrite !contains_char_app, Ha, Hv. done.
Qed.

Lemma parse_pom gs a v method header body query :
  gs <> [] -> Forall group_segment gs -> path_segment a -> path_segment v ->
  Parse (mkHttp method ("/" +:+ pom_path gs a v) header body query)
  = parseArtifact (gs ++ [a; v; pom_file a v]) (pom_path gs a v) "".
Proof.
  intros Hne Hg Ha Hv. unfold Parse. cbn [rq_path].
  rewrite trim_prefix_app, decide_False by (unfold pom_path; by destruct (join gs "/")).
  assert (exists q, pom_path gs a v = q +:+ "m" /\ exists q', pom_file a v = q' +:+ "m") as (q & Hq & q' & Hq').
  { exists (join gs "/" +:+ "/" +:+ a +:+ "/" +:+ v +:+ "/" +:+ a +:+ "-" +:+ v +:+ ".po"). split.
    - unfold pom_path, pom_file. by rewrite <-!str_app_assoc.
    - exists (a +:+ "-" +:+ v +:+ ".po"). unfold pom_file. by rewrite <-!str_app_assoc. }
  rewrite Hq, no_checksum_of, <-Hq by done. rewrite pom_segments by done.
  assert (existsb (fun s => bool_decide (s = "" \/ s = "." \/ s = "..")) (gs ++ [a; v; pom_file a v]) = false) as ->.
  { apply not_true_iff_false. rewrite existsb_exists. intros (s & Hs%list_elem_of_In & Hb%bool_decide_eq_true).
    apply elem_of_app in Hs as [Hs|Hs].
    - rewrite Forall_forall in Hg. destruct (Hg s Hs) as (? & Hd & _). by destruct Hb as [->|[->| ->]].
    - destruct Ha as [(? & ? & ?) _], Hv as [(? & ? & ?) _].
      repeat (apply elem_of_cons in Hs as [->|Hs]); [tauto|tauto| |by apply elem_of_nil in Hs].
      destruct Hb as [Hb|[Hb|Hb]]; apply (f_equal String.length) in Hb; unfold pom_file in Hb;
        rewrite !str_length_app in Hb; simpl in Hb; lia. }
  assert (List.last (gs ++ [a; v; pom_file a v]) "" = pom_file a v) as ->.
  { change [a; v; pom_file a v] with ([a; v] ++ [pom_file a v]). by rewrite app_assoc, last_last. }
  rewrite decide_False; [done|].
  rewrite Hq'. change "maven-metadata.xml" with ("maven-metadata.xm" +:+ "l"). by intros ?%last_char_inj.
Qed.

(** A coordinate's pom is found again. The path under which the module
    looks for the pom of a coordinate is one its own grammar reads back as that
    coordinate, for every group of dot-free segments, artifact and version,
    and outside SNAPSHOT versions as the very same request. *)
Theorem maven_pom_roundtrip gs a v method header body query :
  gs <> [] -> Forall group_segment gs -> path_segment a -> path_segment v ->
  let c := maven_coord (join gs "." +:+ ":" +:+ a) v in
  exists i i', MetadataIntent c = Some i /\ Parse (mkHttp method ("/" +:+ i_path i) header body query) = Ok i'
    /\ i_coord i' = c /\ i_path i' = i_path i /\ (isSnapshotVersion v = false -> i' = i).
Proof.
  intros Hne Hg Ha Hv c.
  assert (Cut (c_name c) ":" = Some (join gs ".", a)) as Hcut.
  { apply Cut_char_app. apply contains_char_join; [|done]. eapply Forall_impl; [exact Hg|]. by intros g (_ & _ & _ & ?). }
  assert (v <> "") as Hv0 by (by destruct Hv as [(? & _) _]).
  unfold MetadataIntent. rewrite Hcut, decide_False by done. rewrite group_path_join.
  2: { eapply Forall_impl; [exact Hg|]. by intros g (_ & ? & _ & _). }
  change (join gs "/" +:+ "/" +:+ a +:+ "/" +:+ c_version c +:+ "/" +:+ a +:+ "-" +:+ c_version c +:+ ".pom")
    with (pom_path gs a v).
  assert (exists i', parseArtifact (gs ++ [a; v; pom_file a v]) (pom_path gs a v) "" = Ok i' /\ i_coord i' = c
    /\ i_path i' = pom_path gs a v /\ (isSnapshotVersion v = false -> i' = mkIntent IntentArtifact c 0 (pom_path gs a v)
      no_checksum (mkSource "sha1" (pom_path gs a v +:+ ".sha1")) "" false "" (contentTypeFor (pom_file a v) "") "" ""))
    as (i' & Hp & H1 & H2 & H3).
  { unfold parseArtifact. rewrite reverse_app.
    change (reverse [a; v; pom_file a v]) with [pom_file a v; v; a]. cbn [app].
    destruct (reverse gs) as [|g gs'] eqn:Er; [by apply (f_equal reverse) in Er; rewrite reverse_involutive in Er|].
    rewrite <-Er, reverse_involutive.
    destruct (isSnapshotVersion v && _) eqn:Es; (eexists; split; [done|]); [|done].
    split_and!; [done..|]. intros Hs. by rewrite Hs in Es. }
  eexists _, i'. split; [done|]. cbn [i_path]. rewrite parse_pom by done. split_and!; [done..|].
  intros Hs. by rewrite (H3 Hs), content_type_pom.
Qed.

(** ** Examples and limits *)

Definition demo_row : HostedRow := mkHosted "" "" 0 ∅ ∅ false "" "" "".
Definition demo_file (path version : string) : hosted := (path, maven_coord "org.acme:lib" version, demo_row).
Definition demo_files : list hosted :=
  [demo_file "org/acme/lib/1.9/lib-1.9.jar" "1.9"; demo_file "org/acme/lib/1.10/lib-1.10.jar" "1.10"].

Definition demo_times (path : string) : Z :=
  if decide (path = "org/acme/lib/1.9/lib-1.9.jar") then 1767225600 else 1769904000.


(** Two sites that hold the same files, which one of them received an hour
    later by replication, generate different documents. *)
Theorem maven_index_differs_between_sites :
  @artifact_docs plain_runtime demo_times demo_files
  <> @artifact_docs plain_runtime (fun p => demo_times p + 3600) demo_files.
Proof. vm_compute. discriminate. Qed.

(** A release, its release candidate and a patch release are ordered in a
    cycle, so the index depends on the order in which a map is visited. *)
Definition cyclic_files : list hosted :=
  [demo_file "org/acme/lib/1.9/lib-1.9.jar" "1.9"; demo_file "org/acme/lib/1.9.1/lib-1.9.1.jar" "1.9.1";
   demo_file "org/acme/lib/1.9-rc1/lib-1.9-rc1.jar" "1.9-rc1"].
Theorem maven_versions_cycle :
  compareVersions "1.9" "1.9.1" = -1 /\ compareVersions "1.9.1" "1.9-rc1" = -1 /\ compareVersions "1.9-rc1" "1.9" = -1
  /\ @artifact_docs plain_runtime (fun _ => 0) cyclic_files <> @artifact_docs backward_runtime (fun _ => 0) cyclic_files.
Proof. split_and!; [vm_compute; reflexivity..|]. vm_compute. discriminate. Qed.

Lemma maven_pom_roundtrip_witness :
  exists i i', MetadataIntent (maven_coord "org.acme:lib" "1.0") = Some i
    /\ Parse (mkHttp "GET" ("/" +:+ i_path i) ∅ "" "") = Ok i' /\ i_coord i' = maven_coord "org.acme:lib" "1.0"
    /\ i_path i' = i_path i /\ (isSnapshotVersion "1.0" = false -> i' = i).
Proof.
  apply (maven_pom_roundtrip ["org"; "acme"] "lib" "1.0" "GET" ∅ "" ""); [discriminate|repeat constructor; discriminate|..];
    repeat split; discriminate.
Defined.

(** A group of a hosted feed and a proxy. *)
Definition demo_unmarshal (body : string) : option mavenMetadata :=
  if decide (body = "hosted") then Some (mkMetadata "org.acme" "lib" "1.0" "1.0" ["1.0"] "1")
  else Some (mkMetadata "org.acme" "lib" "1.1" "1.1" ["1.0"; "1.1"] "2").
Definition demo_parts : list (string * string) := [("ours", "hosted"); ("central", "proxied")].
Lemma maven_merge_union_witness :
  exists body d, @Merge plain_runtime demo_unmarshal (mkFeed "group" false)
      (mkIntent IntentMetadata (maven_coord "org.acme:lib" "") 0 "" no_checksum (mkSource "" "") "" false "" "" "" "") demo_parts = Ok body
    /\ body = metadata_doc d /\ NoDup (md_versions d).
Proof.
  set (i := mkIntent _ _ _ _ _ _ _ _ _ _ _ _).
  destruct (@Merge plain_runtime demo_unmarshal (mkFeed "group" false) i demo_parts) as [body|e] eqn:E; [|discriminate E].
  destruct (maven_merge_union plain_runtime backward_runtime _ _ _ _ _ E) as (d & Hb & Hn & _).
  exists body, d. split; [reflexivity|]. by split.
Defined.

(** The pom of a SNAPSHOT is looked up as an immutable artifact, while the
    grammar treats the same path as the moving alias it is. *)
Theorem snapshot_pom_pinned :
  exists i i', MetadataIntent (maven_coord "org.acme:lib" "1.0-SNAPSHOT") = Some i
    /\ Parse (mkHttp "GET" ("/" +:+ i_path i) ∅ "" "") = Ok i' /\ i_kind i = IntentArtifact /\ i_kind i' = IntentMetadata.
Proof. eexists _, _. split; [vm_compute; reflexivity|]. split; [vm_compute; reflexivity|]. done. Qed.

(** An artifact whose file name ends like the index is accepted and dropped. *)
Theorem index_suffix_dropped digest unmarshal f :
  let r := mkHttp "PUT" "/org/acme/lib/1.0/lib-1.0-maven-metadata.xml" ∅ "data" "" in
  HandlePublish digest unmarshal f r = Ret (Ok (0, ∅, "")) /\ exists i, Parse r = Ok i /\ i_kind i = IntentArtifact.
Proof. split; [reflexivity|]. eexists. split; [vm_compute; reflexivity|done]. Qed.
End Maven.
