(* ===== verification/Npm.v ===== *)
(** * The npm module ([modules/format/npm])

    The path grammar of an npm registry, scoped names and percent-encoding
    included; the rewriting of proxied package documents; what a document says
    of a version; publishing and the generated package documents; search;
    merging in groups. JSON text and [url.Parse] are parameters: values of
    type [any] are [json], maps of them [gmap]s. *)

From S2P Require Import Prelude GoLib Semver State Events Store Pipeline Publisher Policies Auth Server WriteRoutes ModLib Oci OciListings.
Open Scope Z_scope.

Module Npm.
Import Server WriteRoutes.
Abbreviation query_ok := OciListings.query_ok.

(** ** Percent-encoding of paths ([net/url]) *)

(** [url.PathUnescape]. *)
Fixpoint path_unescape (s : string) : option string :=
  match s with
  | EmptyString => Some ""
  | String c s' =>
      if decide (c = "%"%char) then
        match s' with
        | String h (String l s'') =>
            match hex_digit h, hex_digit l with
            | Some h, Some l => String (Ascii.ascii_of_N (16 * h + l)) <$> path_unescape s''
            | _, _ => None
            end
        | _ => None
        end
      else String c <$> path_unescape s'
  end.

(** What the encoder leaves alone in a path, and what else it accepts there. *)
Definition path_plain (c : Ascii.ascii) : bool :=
  OciListings.unreserved c
  || bool_decide (c ∈ ["$"; "&"; "+"; ","; "/"; ":"; ";"; "="; "@"]%char).
Definition path_accepted (c : Ascii.ascii) : bool :=
  path_plain c || bool_decide (c ∈ ["!"; "'"; "("; ")"; "*"; "["; "]"; "%"]%char).
Fixpoint path_escape (s : string) : string :=
  match s with
  | EmptyString => ""
  | String c s' =>
      if path_plain c then String c (path_escape s')
      else let n := Ascii.N_of_ascii c in
           String "%" (String (OciListings.hex_upper (n / 16)) (String (OciListings.hex_upper (n mod 16)) (path_escape s')))
  end.

(** [URL.EscapedPath], of the fields [RawPath] and [Path]. *)
Definition EscapedPath (raw path : string) : string :=
  if decide (raw <> "" /\ Oci.all_chars path_accepted raw = true /\ path_unescape raw = Some path) then raw
  else if decide (path = "*") then "*" else path_escape path.

(** ** Paths ([npm.go]) *)

Definition metadataTTL : Z := 5 * Minute.
Definition searchPath : string := "-/v1/search".
Definition searchTTL : Z := Minute.

Definition npm_coord (name version : string) : PackageCoordinate := mkCoord "npm" name version.
Definition not_found (why : string) : api_error * string := (ErrNotFound, why).

Definition shortName (pkg : string) : string :=
  match Cut pkg "/" with Some (_, rest) => rest | None => pkg end.

Definition strip (base prefix : string) : option string :=
  if has_prefix base prefix then
    let version := trim_prefix base prefix in if decide (version = "") then None else Some version
  else None.
Definition versionFromTarball (pkg file : string) : string :=
  let base := trim_suffix file ".tgz" in
  match strip base (pkg +:+ "-") with
  | Some version => version
  | None => default "" (strip base (shortName pkg +:+ "-"))
  end.

Definition validPackageName (name : string) : bool :=
  if decide (name = "" \/ has_prefix name "." = true \/ Contains name ".." = true) then false
  else if has_prefix name "@" then
    match Cut (trim_prefix name "@") "/" with
    | Some (scope, rest) => bool_decide (scope <> "" /\ rest <> "") && negb (contains_char rest "/"%char)
    | None => false
    end
  else negb (contains_char name "/"%char).

Section parse.
(** [URL.RawPath] of a request. *)
Context (raw_path : HttpReq -> string).

(** [Parse]. *)
Definition Parse (r : HttpReq) : result (api_error * string) Intent :=
  let raw := trim_prefix (EscapedPath (raw_path r) (rq_path r)) "/" in
  if decide (raw = "") then Err (not_found "empty path") else
  match path_unescape raw with
  | None => Err (not_found "invalid path")
  | Some decoded =>
      if Contains decoded ".." then Err (not_found "invalid path")
      else if decide (raw = searchPath) then
        Ok (mkIntent IntentSearch (npm_coord "search" "") searchTTL searchPath no_checksum (mkSource "" "") "" false ""
              "application/json" (rq_query r) "")
      else if has_prefix raw "-/package/" then
        match cut_last "/" (trim_prefix raw "-/package/") with
        | Some (name, "dist-tags") =>
            match path_unescape name with
            | None => Err (not_found "invalid package name")
            | Some pkg =>
                Ok (mkIntent IntentMetadata (npm_coord pkg "") metadataTTL ("-/package/" +:+ pkg +:+ "/dist-tags")
                      no_checksum (mkSource "" "") "" false "" "application/json" "" "")
            end
        | _ => Err (not_found "unsupported path")
        end
      else
        let root :=
          if validPackageName decoded
          then Ok (mkIntent IntentMetadata (npm_coord decoded "") metadataTTL decoded no_checksum (mkSource "" "") ""
                     false "" "application/json" "" "")
          else Err (not_found "invalid package name") in
        match Cut decoded "/-/" with
        | Some (pkg, file) =>
            if decide (pkg = "") then root
            else if decide (file = "" \/ contains_char file "/"%char = true \/ validPackageName pkg = false)
            then Err (not_found "invalid tarball path")
            else Ok (mkIntent IntentArtifact (npm_coord pkg (versionFromTarball pkg file)) 0 decoded no_checksum
                       (mkSource "" "") "" false "" "application/octet-stream" "" "")
        | None => root
        end
  end.
End parse.

Definition RedirectSafeIntent (i : Intent) : bool :=
  match i_kind i with IntentArtifact => true | _ => false end.

(** ** JSON values *)

(** A decoded object as a Go map: the last of a repeated key stays. *)
Definition obj_map (fs : list (string * json)) : gmap string json :=
  foldl (fun m kv => <[kv.1 := kv.2]> m) ∅ fs.
Definition of_map (m : gmap string json) : json := JObj (by_key fst (map_to_list m)).
(** The type assertions to [map[string]any] and [string]. *)
Definition as_map (j : json) : option (gmap string json) :=
  match j with JObj fs => Some (obj_map fs) | _ => None end.
Definition as_string (j : json) : option string := match j with JStr s => Some s | _ => None end.
Definition field_of {A} (as_ : json -> option A) (key : string) (m : gmap string json) : option A :=
  m !! key ≫= as_.

(** ** Proxied documents *)

(** What [api.Feed] says of a feed besides its name. *)
Section rewrite.
Context (external_url upstream : Feed -> string).
(** [json.Unmarshal] into [any], [json.Marshal] and [json.MarshalIndent] of it;
    the escaped path [url.Parse] finds. *)
Context (unmarshal : string -> option json) (marshal marshal_indent : json -> string).
Context (url_path : string -> option string).

(** [json.Unmarshal] into a [map[string]any]; null leaves it nil. *)
Definition decode_object (body : string) : option (option (gmap string json)) :=
  j ← unmarshal body;
  match j with
  | JObj fs => Some (Some (obj_map fs))
  | JNull => Some None
  | _ => None
  end.

Definition feedBase (f : Feed) : string :=
  let prefix := "/npm/" +:+ f_name f in
  if decide (external_url f <> "") then trim_suffix (external_url f) "/" +:+ prefix else prefix.

Definition upstreamPathPrefix (f : Feed) : string :=
  if decide (upstream f = "") then ""
  else match url_path (upstream f) with
       | None => ""
       | Some p => let p := Trim p "/"%char in if decide (p = "") then "" else p +:+ "/"
       end.

Definition rewriteTarballURL (base upstreamPrefix tarball : string) : result api_error string :=
  match url_path tarball with
  | None => Err (ErrOther "parse tarball url")
  | Some p =>
      let path := trim_prefix p "/" in
      if decide (path = "") then Err (ErrOther "tarball url has no path")
      else let path := if decide (upstreamPrefix <> "") then trim_prefix path upstreamPrefix else path in
           Ok (base +:+ "/" +:+ path)
  end.

(** The tarball URL a version's entry carries, and the entry with another. *)
Definition tarball_of (version : json) : option string :=
  v ← as_map version; d ← field_of as_map "dist" v; t ← field_of as_string "tarball" d;
  if decide (t = "") then None else Some t.
Definition set_tarball (t : string) (version : json) : json :=
  match as_map version with
  | None => version
  | Some v => match field_of as_map "dist" v with
              | None => version
              | Some d => of_map (<["dist" := of_map (<["tarball" := JStr t]> d)]> v)
              end
  end.

Definition rewrite_version (base prefix : string) (version : json) : result api_error json :=
  match tarball_of version with
  | None => Ok version
  | Some t => let? t' := rewriteTarballURL base prefix t in Ok (set_tarball t' version)
  end.
(** Every entry, the first failure otherwise. *)
Fixpoint rewrite_versions (base prefix : string) (l : list (string * json)) : result api_error (list (string * json)) :=
  match l with
  | [] => Ok []
  | (k, v) :: l => let? v' := rewrite_version base prefix v in
                   let? l' := rewrite_versions base prefix l in Ok ((k, v') :: l')
  end.

(** [RewriteMetadata]. *)
Definition RewriteMetadata (f : Feed) (body : string) : result api_error string :=
  match decode_object body with
  | None => Err (ErrOther "parse npm metadata")
  | Some doc =>
      let doc := default ∅ doc in
      match field_of as_map "versions" doc with
      | None => Ok body
      | Some versions =>
          let? l := rewrite_versions (feedBase f) (upstreamPathPrefix f) (map_to_list versions) in
          Ok (marshal (of_map (<["versions" := of_map (list_to_map l)]> doc)))
      end
  end.

(** ** What a document says of a version ([metadata.go]) *)

Definition MetadataIntent (c : PackageCoordinate) : option Intent :=
  if decide (c_name c = "" \/ c_version c = "") then None
  else Some (mkIntent IntentMetadata (npm_coord (c_name c) "") metadataTTL (c_name c) no_checksum (mkSource "" "") ""
               false "" "application/json" "" "").

Fixpoint licenseString (raw : json) : string :=
  match raw with
  | JStr s => TrimSpace s
  | JObj fs => match field_of as_string "type" (obj_map fs) with Some s => TrimSpace s | None => "" end
  | JArr items => join (filter (fun s => s <> "") ((fix go l := match l with [] => [] | x :: l => licenseString x :: go l end) items)) " OR "
  | _ => ""
  end.

(** [base64.StdEncoding.DecodeString] skips line ends. *)
Definition drop_newlines (s : string) : string := replace_char (replace_char s "010"%char "") "013"%char "".
Definition base64_decode (s : string) : option string := Auth.b64_decode (drop_newlines s).

Definition hex_lower (n : N) : Ascii.ascii := Ascii.ascii_of_N (if decide (n < 10)%N then 48 + n else 87 + n)%N.
Fixpoint hex_encode (s : string) : string :=
  match s with
  | EmptyString => ""
  | String c s' => let n := Ascii.N_of_ascii c in
                   String (hex_lower (n / 16)) (String (hex_lower (n mod 16)) (hex_encode s'))
  end.

Definition checksumFromDist (integrity shasum : string) : string :=
  let legacy := if decide (shasum <> "") then "sha1:" +:+ ToLower shasum else "" in
  if decide (integrity <> "") then
    match Cut integrity "-" with
    | Some (algo, b64) =>
        let b64 := (cut3 b64 " ").1.1 in
        match base64_decode b64 with
        | Some raw => ToLower algo +:+ ":" +:+ hex_encode raw
        | None => legacy
        end
    | None => legacy
    end
  else legacy.

(** [packageRoot]: the license and digests of each version, the times. *)
Record packageRoot := mkRoot { pr_versions : gmap string (json * string * string); pr_time : gmap string string }.

Definition decode_version (j : json) : option (json * string * string) :=
  fs ← object j;
  dist ← object (field "dist" fs);
  integrity ← get_string "integrity" dist;
  shasum ← get_string "shasum" dist;
  Some (field "license" fs, integrity, shasum).
(** An object of values of one kind. *)
Fixpoint decode_map {A} (dec : json -> option A) (fs : list (string * json)) : option (gmap string A) :=
  match fs with
  | [] => Some ∅
  | (k, j) :: fs => m ← decode_map dec fs; a ← dec j;
                    Some (match m !! k with Some _ => m | None => <[k := a]> m end)
  end.
Definition get_map_of {A} (dec : json -> option A) (key : string) (fs : list (string * json)) : option (gmap string A) :=
  fs' ← object (field key fs); decode_map dec fs'.
Definition decode_root (j : json) : option packageRoot :=
  fs ← object j;
  versions ← get_map_of decode_version "versions" fs;
  times ← get_map "time" fs;
  Some (mkRoot versions times).

Definition put_unless_empty (key value : string) (m : gmap string string) : gmap string string :=
  if decide (value = "") then m else <[key := value]> m.

(** [ExtractMetadata]. *)
Definition ExtractMetadata (c : PackageCoordinate) (body : string) : option (gmap string string) :=
  doc ← unmarshal body ≫= decode_root;
  let meta : gmap string string := {[ Policies.MetaEcosystem := "npm" ]} in
  if decide (c_version c = "") then Some meta else
  match pr_versions doc !! c_version c with
  | None => Some meta
  | Some (license, integrity, shasum) =>
      Some (put_unless_empty MetaChecksum (checksumFromDist integrity shasum)
             (put_unless_empty Policies.MetaPublishedAt (default "" (pr_time doc !! c_version c))
               (put_unless_empty Policies.MetaLicense (licenseString license) meta)))
  end.

(** ** Publishing ([hoster.go]) *)

Definition maxPublishSize : Z := 2 ^ 29.

(** [publishDoc]: an attachment is its base64 data. *)
Record publishDoc := mkPublishDoc {
  pd_name : string;
  pd_tags : gmap string string;
  pd_versions : gmap string json;
  pd_attachments : gmap string string;
  pd_revision : string;
}.
Definition decode_attachment (j : json) : option string :=
  fs ← object j;
  _ ← get_string "content_type" fs;
  data ← get_string "data" fs;
  _ ← get_int64 "length" fs;
  Some data.
Definition decode_publish (j : json) : option publishDoc :=
  fs ← object j;
  name ← get_string "name" fs;
  tags ← get_map "dist-tags" fs;
  versions ← get_map_of Some "versions" fs;
  attachments ← get_map_of decode_attachment "_attachments" fs;
  rev ← get_string "_rev" fs;
  Some (mkPublishDoc name tags versions attachments rev).

Definition PublishRoutes : list (string * string) := [("PUT", "/*"); ("POST", "/*"); ("DELETE", "/*")].

Definition hostedPrefix : string := "-/hosted/".
Definition tarballPath (pkg filename : string) : string := pkg +:+ "/-/" +:+ filename.
Definition tarballFile (pkg version : string) : string := shortName pkg +:+ "-" +:+ version +:+ ".tgz".
Definition versionDocPath (pkg version : string) : string :=
  hostedPrefix +:+ pkg +:+ "/versions/" +:+ version +:+ ".json".
Definition distTagPath (pkg tag : string) : string := hostedPrefix +:+ pkg +:+ "/dist-tags/" +:+ tag.

Context {GR : GoRuntime} (digest : string -> string -> string).

Definition digestsOf (body : string) : gmap string string :=
  {[ "sha1" := digest "sha1" body; "sha256" := digest "sha256" body; "sha512" := digest "sha512" body ]}.

Definition blob_key (sha : string) : string := "blobs/sha256/" +:+ sha.
(** Bytes staged under their digest and published. *)
Definition stage_and_publish (f : Feed) (c : PackageCoordinate) (path body : string) (mutable : bool)
  (meta : gmap string string) : presult () :=
  let sha := digest "sha256" body in
  let size := Z.of_nat (String.length body) in
  BlobPut (blob_key sha) body (mkPutOpts sha size "") (fun e =>
    match e with
    | Some e => perr e "stage"
    | None => CorePublish (mkPublish f c path sha size (digestsOf body) "" mutable (Some meta))
                (fun res => match res with Ok _ => pok () | Err e => Ret (Err e) end)
    end).

(** [putMutable]. *)
Definition putMutable (f : Feed) (path : string) (c : PackageCoordinate) (body : string) : presult () :=
  stage_and_publish f c path body true {[ Policies.MetaEcosystem := "npm" ]}.

(** One after the other, up to the first failure. *)
Fixpoint each {A} (act : A -> presult ()) (l : list A) : presult () :=
  match l with
  | [] => pok ()
  | x :: l => ptry (act x) (fun _ => each act l)
  end.

(** [publishState]. *)
Definition put_version (f : Feed) (name : string) (kv : string * json) : presult () :=
  putMutable f (versionDocPath name kv.1) (npm_coord name kv.1) (marshal kv.2).
Definition put_tag (f : Feed) (name : string) (kv : string * string) : presult () :=
  if decide (kv.1 = "" \/ kv.2 = "") then pok ()
  else putMutable f (distTagPath name kv.1) (npm_coord name "") kv.2.
Definition publishState (f : Feed) (doc : publishDoc) : presult () :=
  ptry (each (put_version f (pd_name doc)) (visit (map_to_list (pd_versions doc)))) (fun _ =>
  each (put_tag f (pd_name doc)) (visit (map_to_list (pd_tags doc)))).

(** One attachment. *)
Definition put_attachment (f : Feed) (doc : publishDoc) (kv : string * string) : presult () :=
  match base64_decode kv.2 with
  | None => perr ErrBadRequest "attachment is not valid base64"
  | Some raw =>
      let version := versionFromTarball (pd_name doc) kv.1 in
      if decide (version = "") then perr ErrBadRequest "cannot derive a version from attachment"
      else
        let license := match pd_versions doc !! version ≫= as_map with
                       | Some v => licenseString (default JNull (v !! "license"))
                       | None => ""
                       end in
        stage_and_publish f (npm_coord (pd_name doc) version)
          (tarballPath (pd_name doc) (tarballFile (pd_name doc) version)) raw false
          (put_unless_empty Policies.MetaLicense license {[ Policies.MetaEcosystem := "npm" ]})
  end.

(** [HandlePublish]. *)
Definition nothing_to_say {A} (p : presult A) : presult own_response := ptry p (fun _ => pok (0, ∅, "")).
Definition HandlePublish (f : Feed) (r : HttpReq) : presult own_response :=
  if decide (trim_prefix (rq_path r) "/" = "") then perr ErrBadRequest "empty publish path"
  else if decide (rq_method r = "DELETE") then pok (0, ∅, "")
  else match unmarshal (limit_read maxPublishSize (rq_body r)) ≫= decode_publish with
  | None => perr ErrBadRequest "parse publish document"
  | Some doc =>
      if decide (pd_name doc = "") then perr ErrBadRequest "publish document has no package name"
      else nothing_to_say
             (ptry (each (put_attachment f doc) (visit (map_to_list (pd_attachments doc)))) (fun _ =>
              publishState f doc))
  end.

(** ** Package documents *)

Record pkgState := mkPkg {
  ps_versions : gmap string string;
  ps_tarballs : gmap string HostedRow;
  ps_tags : gmap string string;
}.
Definition empty_pkg : pkgState := mkPkg ∅ ∅ ∅.
Definition upd_pkg (name : string) (g : pkgState -> pkgState) (packages : gmap string pkgState) : gmap string pkgState :=
  <[name := g (default empty_pkg (packages !! name))]> packages.

Notation hosted := (string * PackageCoordinate * HostedRow)%type.

(** What a hosted row is to the package documents. *)
Inductive row_kind := RowVersion | RowTag (tag : string) | RowTarball | RowOther.
Definition kind_of (path : string) : row_kind :=
  if has_prefix path hostedPrefix && Contains path "/versions/" then RowVersion
  else if has_prefix path hostedPrefix && Contains path "/dist-tags/" then RowTag (after_last path "/"%char)
  else if Contains path "/-/" then RowTarball else RowOther.

(** [readBlob]. *)
Definition readBlob {A} (sha : string) (k : string -> prog (result api_error A)) : prog (result api_error A) :=
  BlobGet (blob_key sha) (fun res => match res with
    | Err e => Ret (Err e)
    | Ok o => k (limit_read (2 ^ 23) (o_body o))
    end).

(** The state of every package, from the rows in their order. *)
Fixpoint collect (ms : list hosted) (packages : gmap string pkgState) : prog (result api_error (gmap string pkgState)) :=
  match ms with
  | [] => Ret (Ok packages)
  | (path, c, row) :: ms =>
      match kind_of path with
      | RowVersion => readBlob (h_sha256 row) (fun body =>
          collect ms (upd_pkg (c_name c) (fun st => mkPkg (<[c_version c := body]> (ps_versions st)) (ps_tarballs st) (ps_tags st)) packages))
      | RowTag tag => readBlob (h_sha256 row) (fun body =>
          collect ms (upd_pkg (c_name c) (fun st => mkPkg (ps_versions st) (ps_tarballs st) (<[tag := body]> (ps_tags st))) packages))
      | RowTarball =>
          collect ms (upd_pkg (c_name c) (fun st => mkPkg (ps_versions st) (<[c_version c := row]> (ps_tarballs st)) (ps_tags st)) packages)
      | RowOther => collect ms packages
      end
  end.

(** [hex.DecodeString] and [base64.StdEncoding.EncodeToString]. *)
Fixpoint hex_decode (s : string) : option string :=
  match s with
  | EmptyString => Some ""
  | String h (String l s') =>
      h ← hex_digit h; l ← hex_digit l; rest ← hex_decode s'; Some (String (Ascii.ascii_of_N (16 * h + l)) rest)
  | _ => None
  end.
Definition b64_char (n : N) : Ascii.ascii :=
  Ascii.ascii_of_N (if decide (n < 26) then 65 + n else if decide (n < 52) then 71 + n
                    else if decide (n < 62) then n - 4 else if decide (n = 62) then 43 else 47)%N.
Fixpoint b64_encode (s : string) : string :=
  match s with
  | EmptyString => ""
  | String a EmptyString =>
      let a := Ascii.N_of_ascii a in
      String (b64_char (a / 4)) (String (b64_char (a mod 4 * 16)) "==")
  | String a (String b EmptyString) =>
      let a := Ascii.N_of_ascii a in let b := Ascii.N_of_ascii b in
      String (b64_char (a / 4)) (String (b64_char (a mod 4 * 16 + b / 16)) (String (b64_char (b mod 16 * 4)) "="))
  | String a (String b (String c s')) =>
      let a := Ascii.N_of_ascii a in let b := Ascii.N_of_ascii b in let c := Ascii.N_of_ascii c in
      String (b64_char (a / 4)) (String (b64_char (a mod 4 * 16 + b / 16))
        (String (b64_char (b mod 16 * 4 + c / 64)) (String (b64_char (c mod 64)) (b64_encode s'))))
  end.

Definition integrityFrom (checksums : gmap string string) : string :=
  match hex_decode (default "" (checksums !! "sha512")) with
  | Some (String _ _ as raw) => "sha512-" +:+ b64_encode raw
  | _ => ""
  end.

Definition semver_less (a b : string) : bool := Semver.Compare a b <? 0.
(** [highestVersion], of the keys of a map. *)
Definition highestVersion (versions : gmap string json) : string :=
  default "" (last (gosort semver_less (visit (map_to_list versions).*1))).

Definition dist_of (base name version : string) (row : HostedRow) : json :=
  of_map {[ "tarball" := JStr (base +:+ "/" +:+ tarballPath name (tarballFile name version));
            "shasum" := JStr (default "" (h_checksums row !! "sha1"));
            "integrity" := JStr (integrityFrom (h_checksums row)) ]}.

(** The entries of a package's versions. A stored null leaves the map nil,
    and the assignment panics. *)
Fixpoint version_docs (base name : string) (st : pkgState) (l : list (string * string)) : result api_error (list (string * json)) :=
  match l with
  | [] => Ok []
  | (version, raw) :: l =>
      match ps_tarballs st !! version with
      | None => version_docs base name st l
      | Some row =>
          match decode_object raw with
          | None => Err (ErrOther "decode stored version")
          | Some None => Err (ErrOther "panic: assignment to entry in nil map")
          | Some (Some doc) =>
              let? rest := version_docs base name st l in
              Ok ((version, of_map (<["dist" := dist_of base name version row]> doc)) :: rest)
          end
      end
  end.

(** A package's tags: those that name a listed version, and a latest. *)
Definition package_tags (tags : gmap string string) (versions : gmap string json) : gmap string string :=
  let tags := filter (fun kv => is_Some (versions !! kv.2)) tags in
  match tags !! "latest" with
  | Some _ => tags
  | None => <["latest" := highestVersion versions]> tags
  end.

Definition package_root (name : string) (tags : gmap string string) (versions : gmap string json) : json :=
  of_map {[ "name" := JStr name; "dist-tags" := of_map (JStr <$> tags); "versions" := of_map versions ]}.
(** The two documents of a package; none when no version is installable. *)
Definition package_docs (f : Feed) (name : string) (st : pkgState) : result api_error (list (string * string)) :=
  let? l := version_docs (feedBase f) name st (visit (map_to_list (ps_versions st))) in
  let versions : gmap string json := list_to_map l in
  if decide (versions = ∅) then Ok []
  else
    let tags := package_tags (ps_tags st) versions in
    Ok [(name, marshal_indent (package_root name tags versions) +:+ nl);
        ("-/package/" +:+ name +:+ "/dist-tags", marshal_indent (of_map (JStr <$> tags)) +:+ nl)].

Fixpoint write_packages (f : Feed) (packages : gmap string pkgState) (names : list string) : prog (option api_error) :=
  match names with
  | [] => Ret None
  | name :: names =>
      match package_docs f name (default empty_pkg (packages !! name)) with
      | Err e => Ret (Some e)
      | Ok docs => pbind (put_all f docs) (fun e => match e with
          | Some e => Ret (Some e)
          | None => write_packages f packages names
          end)
      end
  end.

(** [Reindex]. *)
Definition Reindex (f : Feed) : prog (option api_error) :=
  CoreManifests f "" (fun res => match res with
    | Err e => Ret (Some e)
    | Ok ms => pbind (collect ms ∅) (fun res => match res with
        | Err e => Ret (Some e)
        | Ok packages => write_packages f packages (gosort str_ltb (visit (map_to_list packages).*1))
        end)
    end).

(** ** Search ([search.go]) *)

Definition searchDefaultSize : Z := 20.
Definition searchMaxSize : Z := 250.

Definition intParam (raw : string) (def : Z) : Z :=
  if decide (raw = "") then def
  else match parse_int raw with
       | Some v => if decide (v < 0) then def else v
       | None => def
       end.

Definition versionDocOf (path : string) : option (string * string) :=
  if negb (has_prefix path hostedPrefix) then None
  else match Cut (trim_prefix path hostedPrefix) "/versions/" with
       | None => None
       | Some (name, rest) =>
           let version := trim_suffix rest ".json" in
           if decide (name = "" \/ version = "") then None else Some (name, version)
       end.

(** When a row was published, in seconds, and how it is shown. *)
Context (published_at : string -> Z).
Definition format_rfc3339 (t : Z) : string :=
  let '(y, m, d) := civil_from_days (t / 86400) in
  let s := t mod 86400 in
  pad 4 y +:+ "-" +:+ pad 2 m +:+ "-" +:+ pad 2 d +:+ "T" +:+ pad 2 (s / 3600) +:+ ":" +:+ pad 2 (s / 60 mod 60)
  +:+ ":" +:+ pad 2 (s mod 60) +:+ "Z".

Record hostedVersion := mkHV { hv_doc : string; hv_published : Z }.
(** [hostedPackages]. *)
Fixpoint read_packages (ms : list hosted) (out : gmap string (gmap string hostedVersion))
  : prog (result api_error (gmap string (gmap string hostedVersion))) :=
  match ms with
  | [] => Ret (Ok out)
  | (path, _, row) :: ms =>
      match versionDocOf path with
      | None => read_packages ms out
      | Some (name, version) => readBlob (h_sha256 row) (fun body =>
          read_packages ms (<[name := <[version := mkHV body (published_at path)]> (default ∅ (out !! name))]> out))
      end
  end.
Definition hostedPackages (f : Feed) : prog (result api_error (gmap string (gmap string hostedVersion))) :=
  CoreManifests f hostedPrefix (fun res => match res with
    | Err e => Ret (Err e)
    | Ok ms => read_packages ms ∅
    end).

Definition copied_keys : list string := ["description"; "keywords"; "author"; "license"; "homepage"].
(** A key of the version's document, when it is there and not null. *)
Definition copy_key (doc : gmap string json) (pkg : gmap string json) (key : string) : gmap string json :=
  match doc !! key with
  | None | Some JNull => pkg
  | Some value => <[key := value]> pkg
  end.

(** The package entry of [searchObject], of its newest version. *)
Definition search_package (base name : string) (versions : gmap string hostedVersion) : option (gmap string json) :=
  newest ← last (gosort semver_less (visit (map_to_list versions).*1));
  hv ← versions !! newest;
  doc ← decode_object (hv_doc hv);
  Some (foldl (copy_key (default ∅ doc))
    {[ "name" := JStr name; "version" := JStr newest; "description" := JStr "";
       "keywords" := JArr []; "maintainers" := JArr [];
       "date" := JStr (format_rfc3339 (hv_published hv));
       "links" := JObj [("npm", JStr (base +:+ "/" +:+ name))] ]} copied_keys).
Definition search_object (pkg : gmap string json) : json :=
  of_map {[ "package" := of_map pkg;
            "score" := JObj [("detail", JObj [("maintenance", JNum 0); ("popularity", JNum 0); ("quality", JNum 0)]);
                             ("final", JNum 0)];
            "searchScore" := JNum 0 ]}.

Definition text_matches (term : string) (j : json) : bool :=
  match j with JStr s => Contains (ToLower s) term | _ => false end.
Definition matchesTerm (pkg : gmap string json) (term : string) : bool :=
  existsb (fun key => match pkg !! key with Some j => text_matches term j | None => false end) ["name"; "description"]
  || match pkg !! "keywords" with
     | Some (JArr ks) => existsb (text_matches term) ks
     | _ => false
     end.

Definition rank (pkg : gmap string json) (term : string) : Z :=
  let name := ToLower (default "" (field_of as_string "name" pkg)) in
  if decide (term = "") then 1
  else if decide (name = term) then 0
  else if has_prefix name term then 1 else 2.

(** [sort.SliceStable] by rank. *)
Definition by_rank (term : string) (l : list (gmap string json)) : list (gmap string json) :=
  insertion_sort (fun a b => rank a term <? rank b term) l.

(** The results: installable or not, those whose newest document can be read. *)
Definition search_results (f : Feed) (term : string) (packages : gmap string (gmap string hostedVersion))
  : list (gmap string json) :=
  by_rank term (filter (fun pkg => term = "" \/ matchesTerm pkg term = true)
    (omap (fun name => search_package (feedBase f) name (default ∅ (packages !! name)))
       (gosort str_ltb (visit (map_to_list packages).*1)))).

Definition search_page (from size : Z) (l : list (gmap string json)) : list (gmap string json) :=
  let total := Z.of_nat (length l) in
  let from := from `min` total in
  let end_ := (from + size) `min` total in
  take (Z.to_nat (end_ - from)) (drop (Z.to_nat from) l).

(** [Search]. *)
Definition Search (f : Feed) (i : Intent) : presult SyntheticResponse :=
  if negb (query_ok (i_query i)) then perr ErrBadRequest "invalid search query"
  else
    let term := ToLower (TrimSpace (query_get (i_query i) "text")) in
    let from := intParam (query_get (i_query i) "from") 0 in
    let size := intParam (query_get (i_query i) "size") searchDefaultSize `min` searchMaxSize in
    pbind (hostedPackages f) (fun res => match res with
      | Err e => perr e ""
      | Ok packages =>
          let l := search_results f term packages in
          pok (mkSynthetic 200 {[ "Content-Type" := "application/json" ]}
                 (marshal_indent (of_map {[ "objects" := JArr (search_object <$> search_page from size l);
                                            "total" := JNum (Z.of_nat (length l)) ]}) +:+ nl))
      end).

(** ** Groups ([group.go]) *)

Definition MergeableIntent (i : Intent) : bool :=
  match i_kind i with IntentMetadata | IntentSearch => true | _ => false end.

(** One member's result, onto the names seen and the results so far; a null
    one is a nil map. *)
Definition merge_object (acc : list string * list json) (j : json) : list string * list json :=
  let fs := default [] (object j) in
  let name := default "" (field_of as_map "package" (obj_map fs) ≫= field_of as_string "name") in
  if decide (name <> "" /\ name ∈ acc.1) then acc else (name :: acc.1, acc.2 ++ [j]).
(** [objects] of a member's answer: a list of objects. *)
Definition decode_objects (j : json) : option (list json) :=
  fs ← object j;
  match field "objects" fs with
  | JNull => Some []
  | JArr l => if forallb (fun j => bool_decide (is_Some (object j))) l then Some l else None
  | _ => None
  end.
Fixpoint merge_results (parts : list (string * string)) (acc : list string * list json) : option (list json) :=
  match parts with
  | [] => Some acc.2
  | (_, body) :: parts =>
      match unmarshal body ≫= decode_objects with
      | None => None
      | Some objects => merge_results parts (foldl merge_object acc objects)
      end
  end.
(** [mergeSearch]. *)
Definition mergeSearch (parts : list (string * string)) : result api_error string :=
  match merge_results parts ([], []) with
  | None => Err (ErrOther "parse search results")
  | Some objects => Ok (marshal (of_map {[ "objects" := JArr objects; "total" := JNum (Z.of_nat (length objects)) ]}))
  end.

Definition repointTarball (tarball member groupBase : string) : string :=
  if decide (member = "") then tarball
  else match Cut tarball ("/npm/" +:+ member +:+ "/") with
       | None => tarball
       | Some (_, rest) => groupBase +:+ "/" +:+ rest
       end.

(** The merged document so far; a version carries its member. *)
Record packument := mkPackument {
  pk_fields : gmap string json;
  pk_versions : gmap string (json * string);
  pk_times : gmap string json;
  pk_tags : gmap string json;
}.
Definition own_keys : list string := ["versions"; "time"; "dist-tags"].
(** A member adds what earlier ones left out. *)
Definition merge_doc (acc : packument) (member : string) (doc : gmap string json) : packument :=
  let sub key := default ∅ (field_of as_map key doc) in
  mkPackument (pk_fields acc ∪ filter (fun kv => kv.1 ∉ own_keys) doc)
    (pk_versions acc ∪ ((fun v => (v, member)) <$> sub "versions"))
    (pk_times acc ∪ sub "time") (pk_tags acc ∪ sub "dist-tags").
Fixpoint merge_docs (parts : list (string * string)) (acc : packument) : option packument :=
  match parts with
  | [] => Some acc
  | (member, body) :: parts =>
      match decode_object body with
      | None => None
      | Some doc => merge_docs parts (merge_doc acc member (default ∅ doc))
      end
  end.

Definition repoint (groupBase : string) (vm : json * string) : json :=
  match tarball_of vm.1 with
  | None => vm.1
  | Some t => set_tarball (repointTarball t vm.2 groupBase) vm.1
  end.
Definition merged_document (f : Feed) (acc : packument) : json :=
  let versions := repoint (feedBase f) <$> pk_versions acc in
  of_map (<["versions" := of_map versions]> (<["time" := of_map (pk_times acc)]>
          (<["dist-tags" := of_map (<["latest" := JStr (highestVersion versions)]> (pk_tags acc))]> (pk_fields acc)))).

(** [mergePackument] and [Merge]. *)
Definition mergePackument (f : Feed) (parts : list (string * string)) : result api_error string :=
  match merge_docs parts (mkPackument ∅ ∅ ∅ ∅) with
  | None => Err (ErrOther "parse npm package document")
  | Some acc => if decide (pk_versions acc = ∅) then Err ErrNotFound else Ok (marshal (merged_document f acc))
  end.
Definition Merge (f : Feed) (i : Intent) (parts : list (string * string)) : result api_error string :=
  match i_kind i with
  | IntentSearch => mergeSearch parts
  | _ => mergePackument f parts
  end.

(** The module, as a format and as a host; a search is run by the server
    against the store and the database. *)
Definition npm {St} (raw_path : HttpReq -> string) (search : Feed -> Intent -> St -> result api_error SyntheticResponse)
  : FormatModule St :=
  mkModule (Parse raw_path) None None None (Some search) (Some RedirectSafeIntent) None
    (Some ((fun _ => MetadataIntent), ExtractMetadata)) (Some (MergeableIntent, Merge)).
Definition hoster : Hoster := mkHoster false HandlePublish Reindex.
End rewrite.
End Npm.
