(* ===== verification/NpmTheory.v ===== *)
(** * Theorems of the npm module

    Percent-encoded requests, the paths of published tarballs, digests carried
    through package documents, the generated documents, merging in groups. *)

From S2P Require Import Prelude GoLib Semver State StateTheory Events Store Pipeline Publisher Policies Auth Server WriteRoutes ModLib Oci OciListings Npm.
From Stdlib Require Import Sorting.Sorted.
Open Scope Z_scope.

Module NpmTheory.
Import Server WriteRoutes Npm.

(** ** Percent-encoding *)

Lemma path_plain_not_percent c : path_plain c = true -> c <> "%"%char.
Proof. by intros H ->. Qed.
Lemma path_unescape_escape s : path_unescape (path_escape s) = Some s.
Proof.
  induction s as [|c s IH]; [done|]. cbn [path_escape]. destruct (path_plain c) eqn:E.
  - cbn [path_unescape]. rewrite decide_False by by apply path_plain_not_percent. by rewrite IH.
  - destruct (OciListings.nibbles c) as (Hh & Hl & Hc). cbn [path_unescape]. rewrite decide_True by done.
    by rewrite !OciListings.hex_digit_upper, IH, Hc.
Qed.

(** However a path is written on the wire, the module decodes it to the path
    of the request. *)
Lemma escaped_path_decodes raw path : path_unescape (EscapedPath raw path) = Some path.
Proof.
  unfold EscapedPath. case_decide as H; [tauto|]. case_decide; [by subst|]. apply path_unescape_escape.
Qed.

Lemma path_unescape_cons c s d : c <> "%"%char ->
  path_unescape (String c s) = Some d <-> exists d', d = String c d' /\ path_unescape s = Some d'.
Proof.
  intros Hc. cbn [path_unescape]. rewrite decide_False by done. destruct (path_unescape s); naive_solver.
Qed.
(** Text without an escape is decoded to itself. *)
Lemma path_unescape_app p s d : contains_char p "%"%char = false ->
  path_unescape (p +:+ s) = Some d <-> exists d', d = p +:+ d' /\ path_unescape s = Some d'.
Proof.
  revert d. induction p as [|c p IH]; intros d; simpl; [naive_solver|].
  intros [Hc Hp]%orb_false_iff. apply bool_decide_eq_false in Hc. change (path_unescape (String c (p +:+ s)) = Some d <->
    exists d', d = String c (p +:+ d') /\ path_unescape s = Some d').
  rewrite path_unescape_cons by done. setoid_rewrite IH; [|done]. naive_solver.
Qed.

(** ** Requests *)

(** A request for a path, written in any way that starts with a slash. *)
Definition asks (raw_path : HttpReq -> string) (r : HttpReq) (p : string) : Prop :=
  rq_path r = "/" +:+ p /\ (raw_path r = "" \/ has_prefix (raw_path r) "/" = true).

Lemma asks_raw raw_path r p : asks raw_path r p ->
  path_unescape (trim_prefix (EscapedPath (raw_path r) (rq_path r)) "/") = Some p.
Proof.
  intros [Hp Hr]. pose proof (escaped_path_decodes (raw_path r) (rq_path r)) as Hd. rewrite Hp in Hd |- *.
  assert (exists e, EscapedPath (raw_path r) ("/" +:+ p) = "/" +:+ e) as [e He].
  { unfold EscapedPath. case_decide as H; [|by exists (path_escape p)].
    destruct Hr as [Hr|Hr]; [tauto|]. by apply has_prefix_spec. }
  rewrite He in Hd |- *. rewrite trim_prefix_app. by apply (path_unescape_app "/") in Hd as (d & [= <-] & Hd).
Qed.

(** A path outside the reserved ones is read as a tarball or a package. *)
Definition parse_package (p : string) : result (api_error * string) Intent :=
  let root :=
    if validPackageName p
    then Ok (mkIntent IntentMetadata (npm_coord p "") metadataTTL p no_checksum (mkSource "" "") ""
               false "" "application/json" "" "")
    else Err (not_found "invalid package name") in
  match Cut p "/-/" with
  | Some (pkg, file) =>
      if decide (pkg = "") then root
      else if decide (file = "" \/ contains_char file "/"%char = true \/ validPackageName pkg = false)
      then Err (not_found "invalid tarball path")
      else Ok (mkIntent IntentArtifact (npm_coord pkg (versionFromTarball pkg file)) 0 p no_checksum
                 (mkSource "" "") "" false "" "application/octet-stream" "" "")
  | None => root
  end.
Lemma parse_asked raw_path r p :
  asks raw_path r p -> p <> "" -> Contains p ".." = false -> has_prefix p "-/" = false ->
  Parse raw_path r = parse_package p.
Proof.
  intros Ha Hne Hd Hr. pose proof (asks_raw _ _ _ Ha) as Hu. unfold Parse.
  set (raw := trim_prefix _ "/") in *. rewrite Hu, Hd.
  rewrite decide_False by (intros E; rewrite E in Hu; naive_solver).
  rewrite decide_False by (intros E; rewrite E in Hu; injection Hu as <-; discriminate Hr).
  assert (has_prefix raw "-/package/" = false) as ->; [|done].
  apply not_true_iff_false. intros [e He]%has_prefix_spec. rewrite He in Hu.
  apply path_unescape_app in Hu as (d & -> & _); [|done]. discriminate Hr.
Qed.

(** *** Names *)

Lemma Cut_here sep rest : Cut (sep +:+ rest) sep = Some ("", rest).
Proof.
  pose proof (has_prefix_app_r rest sep) as Hp. unfold has_prefix in Hp.
  assert (String.substring (String.length sep) (String.length (sep +:+ rest)) (sep +:+ rest) = rest) as Hs.
  { pose proof (trim_prefix_app sep rest) as H. unfold trim_prefix, has_prefix in H. by rewrite Hp in H. }
  destruct (sep +:+ rest); cbn [Cut]; rewrite Hp; by rewrite Hs.
Qed.
Lemma Cut_cons c s sep : has_prefix (String c s) sep = false ->
  Cut (String c s) sep = '(b, a) ← Cut s sep; Some (String c b, a).
Proof. unfold has_prefix. intros H. cbn [Cut]. rewrite H. by destruct (Cut s sep) as [[]|]. Qed.
Lemma Contains_char s sub c : contains_char sub c = true -> contains_char s c = false -> Contains s sub = false.
Proof.
  intros Hs Hc. unfold Contains. destruct (Cut s sub) as [[b a]|] eqn:E; [|done]. exfalso.
  apply Cut_app in E as ->. rewrite !contains_char_app, Hs, orb_true_r in Hc. simpl in Hc. by rewrite ?orb_true_r in Hc.
Qed.

(** A valid name is one segment, or a scope and one segment. *)
Inductive name_shape : string -> Prop :=
| NamePlain n : n <> "" -> contains_char n "/"%char = false -> has_prefix n "@" = false -> name_shape n
| NameScoped s n : s <> "" -> n <> "" -> contains_char s "/"%char = false -> contains_char n "/"%char = false ->
    name_shape ("@" +:+ s +:+ "/" +:+ n).
Lemma valid_name_shape pkg : validPackageName pkg = true -> name_shape pkg.
Proof.
  unfold validPackageName. case_decide as H; [done|]. destruct (has_prefix pkg "@") eqn:E.
  - apply has_prefix_spec in E as [rest ->]. rewrite trim_prefix_app.
    destruct (Cut rest "/") as [[scope n]|] eqn:Ec; [|done]. intros [[Hs Hn]%bool_decide_eq_true Hf%negb_true_iff]%andb_true_iff.
    pose proof (Cut_char_before _ _ _ _ Ec). apply Cut_app in Ec as ->. by apply NameScoped.
  - intros Hf%negb_true_iff. apply NamePlain; [tauto|done..].
Qed.
Lemma shape_shortName_plain n : contains_char n "/"%char = false -> shortName n = n.
Proof. intros H. unfold shortName. by rewrite (proj2 (Cut_char_none n "/"%char)). Qed.
Lemma shape_shortName_scoped s n : contains_char s "/"%char = false -> shortName ("@" +:+ s +:+ "/" +:+ n) = n.
Proof.
  intros H. unfold shortName. change ("@" +:+ s +:+ "/" +:+ n) with (("@" +:+ s) +:+ String "/" n).
  by rewrite Cut_char_app.
Qed.
Lemma valid_name_facts pkg : validPackageName pkg = true ->
  pkg <> "" /\ Contains pkg ".." = false /\ has_prefix pkg "-/" = false.
Proof.
  intros Hv. pose proof (valid_name_shape _ Hv) as Hs. unfold validPackageName in Hv. case_decide as H; [done|].
  split; [tauto|]. split; [apply not_true_iff_false; tauto|].
  destruct Hs as [n _ Hn _|]; [|done]. apply not_true_iff_false. intros [r ->]%has_prefix_spec. discriminate Hn.
Qed.

Lemma Cut_dash x f : contains_char x "/"%char = false -> Cut (x +:+ "/-/" +:+ f) "/-/" = Some (x, f).
Proof.
  induction x as [|c x IH]; intros H; [exact (Cut_here "/-/" f)|]. simpl in H. apply orb_false_iff in H as [Hc Hx].
  apply bool_decide_eq_false in Hc. change (String c x +:+ "/-/" +:+ f) with (String c (x +:+ "/-/" +:+ f)).
  rewrite Cut_cons, IH by (done || apply not_true_iff_false; intros [r [= E _]]%has_prefix_spec; congruence). done.
Qed.
Lemma Cut_no_dash x sub : contains_char x "/"%char = false -> contains_char sub "/"%char = true -> Cut x sub = None.
Proof. intros Hx Hs. pose proof (Contains_char x sub _ Hs Hx) as H. unfold Contains in H. by destruct (Cut x sub). Qed.

Lemma scoped_not_dash n rest : n <> "" -> n <> "-" -> contains_char n "/"%char = false ->
  has_prefix (String "/" (n +:+ rest)) "/-/" = false.
Proof.
  intros Hne Hd Hf. apply not_true_iff_false. intros [r [= E]]%has_prefix_spec.
  destruct n as [|c [|d n]]; [done| |]; simpl in E, Hf; injection E as -> E; [by destruct Hd|].
  subst. done.
Qed.
(** The first reserved segment of a tarball path ends the package's name. *)
Lemma Cut_tarball pkg f : name_shape pkg -> shortName pkg <> "-" -> Cut (tarballPath pkg f) "/-/" = Some (pkg, f).
Proof.
  unfold tarballPath. intros [n ? Hf ?|s n Hs Hn Hfs Hf] Hd; [by apply Cut_dash|].
  rewrite shape_shortName_scoped in Hd by done.
  assert (forall x, contains_char x "/"%char = false ->
    Cut (x +:+ String "/" (n +:+ "/-/" +:+ f)) "/-/" = Some (x +:+ String "/" n, f)) as H.
  2: { specialize (H ("@" +:+ s)). rewrite <-!str_app_assoc in H |- *. apply H. simpl. done. }
  induction x as [|c x IH]; intros Hx.
  - change ("" +:+ ?x) with x. rewrite Cut_cons by by apply scoped_not_dash. by rewrite Cut_dash.
  - simpl in Hx. apply orb_false_iff in Hx as [Hc Hx]. apply bool_decide_eq_false in Hc.
    change (String c x +:+ ?y) with (String c (x +:+ y)).
    rewrite Cut_cons, IH by (done || apply not_true_iff_false; intros [r [= E _]]%has_prefix_spec; congruence). done.
Qed.
Lemma Cut_package pkg : name_shape pkg -> Cut pkg "/-/" = None.
Proof.
  intros [n ? Hf ?|s n Hs Hn Hfs Hf]; [by apply Cut_no_dash|].
  destruct (Cut _ _) as [[b a]|] eqn:E; [exfalso|done]. apply Cut_app in E.
  assert (count_char ("@" +:+ s +:+ "/" +:+ n) "/"%char = 1%nat) as H1.
  { rewrite !count_char_app, (count_char_zero s), (count_char_zero n) by done. done. }
  rewrite E, !count_char_app in H1. simpl in H1. lia.
Qed.

Lemma strip_app prefix version : version <> "" -> strip (prefix +:+ version) prefix = Some version.
Proof. intros H. unfold strip. rewrite has_prefix_app_r, trim_prefix_app, decide_False; done. Qed.
(** The version is read back from the name of a tarball. *)
Lemma version_of_tarball pkg version : name_shape pkg -> version <> "" -> contains_char version "/"%char = false ->
  versionFromTarball pkg (tarballFile pkg version) = version.
Proof.
  intros Hs Hv Hf. unfold versionFromTarball, tarballFile.
  assert (trim_suffix (shortName pkg +:+ "-" +:+ version +:+ ".tgz") ".tgz" = (shortName pkg +:+ "-") +:+ version) as ->.
  { unfold trim_suffix. rewrite !str_app_assoc. by rewrite cut_suffix_app. }
  rewrite (strip_app (shortName pkg +:+ "-")) by done.
  destruct Hs as [n ? Hn ?|s n Hsn Hnn Hfs Hn]; [rewrite shape_shortName_plain, strip_app by done; done|].
  rewrite shape_shortName_scoped by done. unfold strip at 1.
  assert (has_prefix ((n +:+ "-") +:+ version) (("@" +:+ s +:+ "/" +:+ n) +:+ "-") = false) as ->; [|done].
  apply not_true_iff_false. intros [r E]%has_prefix_spec. apply (f_equal (fun x => contains_char x "/"%char)) in E.
  rewrite !contains_char_app, Hn, Hf, Hfs in E. simpl in E. rewrite ?orb_true_r in E. discriminate E.
Qed.

(** A package is asked for at its name, a scope's separator escaped or not. *)
Theorem npm_package_parsed raw_path r pkg :
  asks raw_path r pkg -> validPackageName pkg = true ->
  Parse raw_path r = Ok (mkIntent IntentMetadata (npm_coord pkg "") metadataTTL pkg no_checksum (mkSource "" "") ""
                           false "" "application/json" "" "").
Proof.
  intros Ha Hv. destruct (valid_name_facts _ Hv) as (H1 & H2 & H3). rewrite (parse_asked _ _ pkg) by done.
  unfold parse_package. by rewrite Cut_package, Hv by by apply valid_name_shape.
Qed.

(** The tarball of a version is asked for where its name puts it. *)
Lemma npm_tarball_parsed raw_path r pkg version :
  let path := tarballPath pkg (tarballFile pkg version) in
  asks raw_path r path -> validPackageName pkg = true -> shortName pkg <> "-" ->
  version <> "" -> contains_char version "/"%char = false -> Contains path ".." = false ->
  Parse raw_path r = Ok (mkIntent IntentArtifact (npm_coord pkg version) 0 path no_checksum (mkSource "" "") "" false ""
                           "application/octet-stream" "" "").
Proof.
  intros path Ha Hv Hd Hne Hf Hp. pose proof (valid_name_shape _ Hv) as Hs.
  destruct (valid_name_facts _ Hv) as (H1 & _ & H3).
  assert (has_prefix path "-/" = false) as Hr.
  { apply not_true_iff_false. intros [x E]%has_prefix_spec. unfold path, tarballPath in E.
    destruct pkg as [|a [|b pkg]]; [done| |]; simpl in E; [injection E as -> _; by destruct Hd|].
    injection E as -> -> _. change (has_prefix ("-/" +:+ pkg) "-/" = false) in H3. by rewrite has_prefix_app_r in H3. }
  rewrite (parse_asked _ _ path) by (done || unfold path, tarballPath; by destruct pkg).
  unfold parse_package. fold path. unfold path at 1. rewrite Cut_tarball by done.
  rewrite decide_False, version_of_tarball by done. rewrite decide_False; [done|].
  intros [E|[E|E]]; [unfold tarballFile in E; by destruct (shortName pkg)| |congruence].
  unfold tarballFile in E. rewrite !contains_char_app, Hf in E. simpl in E. rewrite orb_false_r in E.
  destruct Hs as [n ? Hn ?|s n Hsn Hnn Hfs Hn].
  - rewrite shape_shortName_plain in E by done. congruence.
  - rewrite shape_shortName_scoped in E by done. congruence.
Qed.

(** ** Publishing *)

Section publishing.
Context (unmarshal : string -> option json) (marshal : json -> string) {GR : GoRuntime} (digest : string -> string -> string).

Lemma publishes_each {A} P (act : A -> presult ()) l : (forall x, x ∈ l -> publishes P (act x)) -> publishes P (each act l).
Proof.
  induction l as [|x l IH]; intros H; simpl; [done|]. apply publishes_try; [apply H; by left|].
  intros _. apply IH. intros y Hy. apply H. by right.
Qed.
Lemma publishes_stage (P : PublishRequest -> Prop) f c path body mutable meta :
  P (mkPublish f c path (digest "sha256" body) (Z.of_nat (String.length body)) (digestsOf digest body) "" mutable (Some meta)) ->
  publishes P (stage_and_publish digest f c path body mutable meta).
Proof. intros HP. unfold stage_and_publish. intros [e|]; [done|]. split; [done|]. by intros [?|?]. Qed.

(** What one upload publishes: the bytes of an attachment as a release, a
    version's document and a tag as mutable coordinates. *)
Inductive npm_publishes (f : Feed) (doc : publishDoc) : PublishRequest -> Prop :=
| PubTarball file data raw version meta :
    pd_attachments doc !! file = Some data -> base64_decode data = Some raw ->
    version = versionFromTarball (pd_name doc) file -> version <> "" ->
    npm_publishes f doc (mkPublish f (npm_coord (pd_name doc) version)
      (tarballPath (pd_name doc) (tarballFile (pd_name doc) version))
      (digest "sha256" raw) (Z.of_nat (String.length raw)) (digestsOf digest raw) "" false (Some meta))
| PubVersion version j meta :
    pd_versions doc !! version = Some j ->
    npm_publishes f doc (mkPublish f (npm_coord (pd_name doc) version) (versionDocPath (pd_name doc) version)
      (digest "sha256" (marshal j)) (Z.of_nat (String.length (marshal j))) (digestsOf digest (marshal j)) "" true (Some meta))
| PubTag tag version meta :
    pd_tags doc !! tag = Some version -> tag <> "" -> version <> "" ->
    npm_publishes f doc (mkPublish f (npm_coord (pd_name doc) "") (distTagPath (pd_name doc) tag)
      (digest "sha256" version) (Z.of_nat (String.length version)) (digestsOf digest version) "" true (Some meta)).

Lemma visit_map_elem {A} (m : gmap string A) kv : kv ∈ visit (map_to_list m) -> m !! kv.1 = Some kv.2.
Proof. rewrite visit_perm. destruct kv. apply elem_of_map_to_list. Qed.

Lemma npm_upload_publishes f r :
  publishes (fun q => exists doc, unmarshal (limit_read maxPublishSize (rq_body r)) ≫= decode_publish = Some doc
               /\ pd_name doc <> "" /\ rq_method r <> "DELETE" /\ npm_publishes f doc q)
    (HandlePublish unmarshal marshal digest f r).
Proof.
  unfold HandlePublish. case_decide; [done|]. case_decide as Hm; [done|].
  destruct (unmarshal _ ≫= decode_publish) as [doc|] eqn:E; [|done]. case_decide as Hn; [done|].
  assert (forall q, npm_publishes f doc q -> exists doc', Some doc = Some doc' /\ pd_name doc' <> "" /\ rq_method r <> "DELETE"
            /\ npm_publishes f doc' q) as Hq by eauto 10.
  apply publishes_try; [|done]. apply publishes_try; [|intros _; apply publishes_try; [|intros _]];
    apply publishes_each; intros [k v] Hkv%visit_map_elem; simpl in Hkv.
  - unfold put_attachment. cbn [fst snd]. destruct (base64_decode v) as [raw|] eqn:Eb; [|done]. case_decide; [done|].
    apply publishes_stage, Hq. by eapply PubTarball.
  - apply publishes_stage, Hq. by apply PubVersion.
  - unfold put_tag. cbn [fst snd]. case_decide as Hd; [done|]. apply publishes_stage, Hq. apply PubTag; tauto.
Qed.

Lemma collect_publishes ms packages : publishes (fun _ => False) (collect ms packages).
Proof.
  revert packages. induction ms as [|[[path c] row] ms IH]; intros packages; simpl; [done|].
  destruct (kind_of path); simpl; auto; by intros [o|e]; [apply IH|].
Qed.
Lemma write_packages_publishes external marshal_indent f packages names :
  publishes (fun _ => False) (write_packages external unmarshal marshal_indent f packages names).
Proof.
  induction names as [|name names IH]; simpl; [done|]. destruct (package_docs _ _ _ _ _ _) as [docs|e]; [|done].
  apply publishes_bind; [apply put_all_publishes|]. by intros [e|].
Qed.
#[global] Instance npm_laws external marshal_indent : HosterLaws (hoster external unmarshal marshal marshal_indent digest).
Proof.
  split; simpl.
  - intros f r. eapply publishes_mono; [|apply npm_upload_publishes]. simpl. by intros q (doc & _ & _ & _ & []).
  - intros f [ms|e]; [|done]. apply publishes_bind; [apply collect_publishes|].
    intros [packages|e]; [apply write_packages_publishes|done].
Qed.

(** A published release can be downloaded. Every release an [npm publish]
    makes is the decoded attachment, under its digest, and any request for the
    path it is stored at, however it is escaped, is read as a request for
    exactly the coordinate published, as long as the package's name is one
    that can be asked for. *)
Theorem npm_release_reachable f r :
  publishes (fun q => pr_feed q = f /\ (pr_mutable q = false ->
      exists pkg version raw, pr_coord q = npm_coord pkg version /\ version <> ""
        /\ pr_sha256 q = digest "sha256" raw /\ pr_size q = Z.of_nat (String.length raw)
        /\ (validPackageName pkg = true -> shortName pkg <> "-" -> contains_char version "/"%char = false ->
            Contains (pr_path q) ".." = false ->
            forall raw_path r', asks raw_path r' (pr_path q) ->
              exists i, Parse raw_path r' = Ok i /\ i_kind i = IntentArtifact /\ i_coord i = pr_coord q /\ i_path i = pr_path q)))
    (HandlePublish unmarshal marshal digest f r).
Proof.
  eapply publishes_mono; [|apply npm_upload_publishes]. simpl. intros q (doc & _ & _ & _ & Hq).
  destruct Hq as [file data raw version meta Hd Hb Hv Hne| | ]; (split; [done|]); simpl; [|done..]. intros _.
  exists (pd_name doc), version, raw. do 4 (split; [done|]). intros Hn Hs Hf Hp raw_path r' Ha.
  eexists. split; [by apply npm_tarball_parsed|]. done.
Qed.
End publishing.

(** ** Digests in documents *)

Lemma below (k : nat) (P : N -> Prop) : Forall P (N.of_nat <$> seq 0 k) -> forall n, (n < N.of_nat k)%N -> P n.
Proof.
  rewrite Forall_forall. intros HP n Hn. apply HP, list_elem_of_fmap. exists (N.to_nat n).
  split; [by rewrite N2Nat.id|]. apply elem_of_seq. lia.
Qed.
Lemma b64_val_char n : (n < 64)%N -> Auth.b64_val (b64_char n) = Some n.
Proof. apply (below 64 (fun n => Auth.b64_val (b64_char n) = Some n)). repeat constructor. Qed.
Definition b64_blanks : list Ascii.ascii := [" "; "010"; "013"]%char.
Lemma b64_char_plain n c : (n < 64)%N -> c ∈ "="%char :: b64_blanks -> b64_char n <> c.
Proof.
  intros Hn Hc. revert n Hn. apply (below 64).
  repeat (apply elem_of_cons in Hc as [->|Hc]; [repeat constructor; discriminate|]). by apply elem_of_nil in Hc.
Qed.
Ltac byte_bounds := repeat match goal with
  | |- context [Ascii.N_of_ascii ?c] => let H := fresh in pose proof (Ascii.N_ascii_bounded c) as H;
      let n := fresh "n" in set (n := Ascii.N_of_ascii c) in *; clearbody n
  end.
Ltac bits := byte_bounds; zify; Z.to_euclidean_division_equations; lia.

(** Three bytes at a time. *)
Lemma three_ind (P : string -> Prop) :
  P "" -> (forall a, P (String a "")) -> (forall a b, P (String a (String b ""))) ->
  (forall a b c s, P s -> P (String a (String b (String c s)))) -> forall s, P s.
Proof.
  intros H0 H1 H2 H3. fix IH 1. intros [|a [|b [|c s]]]; [exact H0|apply H1|apply H2|]. apply H3, IH.
Qed.
Lemma ascii_eq n c : n = Ascii.N_of_ascii c -> Ascii.ascii_of_N n = c.
Proof. intros ->. apply Ascii.ascii_N_embedding. Qed.

Lemma b64_roundtrip s : Auth.b64_decode (b64_encode s) = Some s.
Proof.
  assert (forall n, (n < 64)%N -> b64_char n <> "="%char) as Heq by (intros; apply b64_char_plain; [done|by left]).
  induction s as [|a|a b|a b c s IH] using three_ind; [done|..]; cbn [b64_encode Auth.b64_decode];
    rewrite !b64_val_char by bits; cbn [mbind option_bind].
  - rewrite decide_True by done. rewrite decide_True by done. do 2 f_equal. apply ascii_eq. bits.
  - rewrite decide_False by (apply Heq; bits). rewrite decide_True by done. rewrite decide_True by done.
    repeat f_equal; apply ascii_eq; bits.
  - rewrite decide_False by (apply Heq; bits). rewrite decide_False by (apply Heq; bits).
    rewrite IH. cbn [mbind option_bind]. repeat f_equal; apply ascii_eq; bits.
Qed.
Lemma b64_free s c : c ∈ b64_blanks -> contains_char (b64_encode s) c = false.
Proof.
  intros Hc. assert (forall n, (n < 64)%N -> bool_decide (b64_char n = c) = false) as Hn.
  { intros n Hn. apply bool_decide_false. apply b64_char_plain; [done|by right]. }
  assert (bool_decide ("="%char = c) = false) as He by (apply bool_decide_false; intros <-; set_solver).
  induction s as [|a|a b|a b d s IH] using three_ind; [done|..]; cbn [b64_encode contains_char];
    rewrite ?Hn, ?He, ?IH by bits; done.
Qed.
Lemma replace_char_id s c t : contains_char s c = false -> replace_char s c t = s.
Proof.
  induction s as [|d s IH]; simpl; [done|]. intros [Hd Hs]%orb_false_iff. apply bool_decide_eq_false in Hd.
  by rewrite decide_False, IH.
Qed.
Lemma base64_roundtrip s : base64_decode (b64_encode s) = Some s.
Proof.
  unfold base64_decode, drop_newlines. rewrite !replace_char_id; [apply b64_roundtrip|apply b64_free; set_solver..|].
  rewrite replace_char_id; apply b64_free; set_solver.
Qed.

Lemma hex_digit_lower n : (n < 16)%N -> hex_digit (hex_lower n) = Some n.
Proof. apply (below 16 (fun n => hex_digit (hex_lower n) = Some n)). repeat constructor. Qed.
Lemma hex_roundtrip s : hex_decode (hex_encode s) = Some s.
Proof.
  induction s as [|c s IH]; [done|]. destruct (OciListings.nibbles c) as (Hh & Hl & Hc).
  cbn [hex_encode hex_decode]. rewrite !hex_digit_lower, IH by done. simpl. by rewrite Hc.
Qed.

(** The integrity text of a hosted version carries the digest the row holds. *)
Lemma integrity_carries cs raw shasum :
  cs !! "sha512" = Some (hex_encode raw) -> raw <> "" ->
  checksumFromDist (integrityFrom cs) shasum = "sha512:" +:+ hex_encode raw.
Proof.
  intros Hc Hr. unfold integrityFrom. rewrite Hc. cbn [from_option id]. rewrite hex_roundtrip.
  destruct raw as [|c raw]; [done|]. set (s := String c raw). unfold checksumFromDist. rewrite decide_True by done.
  change ("sha512-" +:+ b64_encode s) with ("sha512" +:+ String "-" (b64_encode s)). rewrite Cut_char_app by done.
  unfold cut3. rewrite (proj2 (Cut_char_none _ " "%char)) by (apply b64_free; set_solver). cbn [fst].
  by rewrite base64_roundtrip.
Qed.

(** ** Objects *)

Lemma NoDup_by_key {A} (m : gmap string A) : NoDup (by_key fst (map_to_list m)).*1.
Proof. rewrite by_key_perm. apply NoDup_fst_map_to_list. Qed.
Lemma elem_of_by_key {A} (m : gmap string A) k v : (k, v) ∈ by_key fst (map_to_list m) <-> m !! k = Some v.
Proof. rewrite by_key_perm. apply elem_of_map_to_list. Qed.

Lemma field_none fs k : k ∉ fs.*1 -> field k fs = JNull.
Proof.
  induction fs as [|[k' j'] fs IH]; intros Hn; [done|]. simpl in *. rewrite IH by set_solver.
  rewrite decide_False; [done|]. set_solver.
Qed.
Lemma field_elem fs k j : NoDup fs.*1 -> (k, j) ∈ fs -> field k fs = j.
Proof.
  induction fs as [|[k' j'] fs IH]; [by intros _ ?%elem_of_nil|]. simpl. intros [Hn Hd]%NoDup_cons [[= <- <-]|Hin]%elem_of_cons.
  - by rewrite field_none, decide_True.
  - rewrite (IH Hd Hin). destruct j; try done. rewrite decide_False; [done|]. intros ->. destruct Hn.
    apply list_elem_of_fmap. by exists (k, JNull).
Qed.
(** Reading a field of a printed map. *)
Lemma field_of_map (m : gmap string json) k : field k (by_key fst (map_to_list m)) = default JNull (m !! k).
Proof.
  destruct (m !! k) as [j|] eqn:E.
  - apply field_elem; [apply NoDup_by_key|]. by apply elem_of_by_key.
  - apply field_none. intros ([k' j] & -> & Hin)%list_elem_of_fmap. apply elem_of_by_key in Hin. simpl in E. congruence.
Qed.
Lemma decode_map_ok {A} (dec : json -> option A) fs :
  NoDup fs.*1 -> (forall k j, (k, j) ∈ fs -> is_Some (dec j)) ->
  exists m, decode_map dec fs = Some m /\ forall k j, (k, j) ∈ fs -> m !! k = dec j.
Proof.
  induction fs as [|[k j] fs IH]; simpl; [intros; exists ∅; set_solver|]. intros [Hn Hd]%NoDup_cons Hs.
  assert (forall k, k ∈ dom (default ∅ (decode_map dec fs)) -> k ∈ fs.*1) as Hdom.
  { clear. induction fs as [|[k j] fs IH]; simpl; [set_solver|]. destruct (decode_map dec fs) as [m|]; simpl; [|set_solver].
    destruct (dec j); simpl; [|set_solver]. simpl in IH. case_match; set_solver. }
  destruct (IH Hd) as (m & Hm & Hl); [set_solver|]. rewrite Hm in Hdom |- *. simpl in Hdom |- *.
  destruct (Hs k j) as [a Ha]; [by left|]. rewrite Ha. simpl.
  assert (m !! k = None) as Hk by (apply not_elem_of_dom; set_solver). rewrite Hk. eexists. split; [done|].
  intros k' j' [[= <- <-]|Hin]%elem_of_cons; [by rewrite lookup_insert_eq|].
  rewrite lookup_insert_ne; [by apply Hl|]. intros ->. destruct Hn. apply list_elem_of_fmap. by exists (k', j').
Qed.

(** ** Generated documents *)

(** A version that has both its document and its tarball. *)
Definition installable (st : pkgState) (v : string) : Prop :=
  is_Some (ps_versions st !! v) /\ is_Some (ps_tarballs st !! v).

Section documents.
Context (external : Feed -> string) (unmarshal : string -> option json) (marshal_indent : json -> string).

(** The entry of a version, from its stored document and its tarball's row. *)
Definition entry_of (base name v : string) (row : HostedRow) (doc : gmap string json) : json :=
  of_map (<["dist" := dist_of base name v row]> doc).
Lemma version_docs_spec base name st l out :
  version_docs unmarshal base name st l = Ok out -> NoDup l.*1 ->
  NoDup out.*1 /\ (forall v, v ∈ out.*1 -> v ∈ l.*1)
  /\ forall v raw row, (v, raw) ∈ l -> ps_tarballs st !! v = Some row ->
       exists doc, decode_object unmarshal raw = Some (Some doc) /\ (v, entry_of base name v row doc) ∈ out.
Proof.
  revert out. induction l as [|[v raw] l IH]; intros out; cbn [version_docs].
  { intros [= <-] _. split; [constructor|]. split; [set_solver|]. set_solver. }
  intros Ho [Hn Hd]%NoDup_cons. cbn [fmap list_fmap fst] in *. destruct (ps_tarballs st !! v) as [row|] eqn:Et.
  - destruct (decode_object unmarshal raw) as [[doc|]|] eqn:Ed; [|done..].
    apply rbind_Ok in Ho as (rest & Hr & [= <-]). destruct (IH _ Hr Hd) as (H1 & H2 & H3). split.
    { cbn. apply NoDup_cons. split; [|done]. intros Hin. by apply Hn, H2. }
    split; [cbn; set_solver|]. intros v' raw' row' [[= -> ->]|Hin]%elem_of_cons Ht.
    + rewrite Et in Ht. injection Ht as <-. exists doc. split; [done|]. by left.
    + destruct (H3 _ _ _ Hin Ht) as (doc' & ? & ?). exists doc'. split; [done|]. by right.
  - destruct (IH _ Ho Hd) as (H1 & H2 & H3). split; [done|]. split; [set_solver|].
    intros v' raw' row' [[= -> ->]|Hin]%elem_of_cons Ht; [congruence|by apply H3].
Qed.
Lemma version_docs_tarball base name st l out v j :
  version_docs unmarshal base name st l = Ok out -> (v, j) ∈ out -> is_Some (ps_tarballs st !! v).
Proof.
  revert out. induction l as [|[v' raw] l IH]; intros out; cbn [version_docs]; [intros [= <-]; set_solver|].
  destruct (ps_tarballs st !! v') as [row|] eqn:Et; [|apply IH].
  destruct (decode_object unmarshal raw) as [[doc|]|]; [|done..]. intros (rest & Hr & [= <-])%rbind_Ok.
  intros [[= -> ->]|Hin]%elem_of_cons; [done|by eapply IH].
Qed.

Lemma highest_listed {GR : GoRuntime} (versions : gmap string json) :
  versions <> ∅ -> is_Some (versions !! highestVersion versions).
Proof.
  intros Hne. unfold highestVersion. set (l := gosort _ _). assert (l ≡ₚ (map_to_list versions).*1) as Hp
    by (unfold l; by rewrite gosort_perm, visit_perm).
  destruct (last l) as [x|] eqn:E; simpl.
  - apply last_Some_elem_of in E. rewrite Hp in E. apply list_elem_of_fmap in E as ([k j] & -> & Hin).
    apply elem_of_map_to_list in Hin. by eexists.
  - apply last_None in E. rewrite E in Hp. symmetry in Hp. apply Permutation_nil_r in Hp. apply fmap_nil_inv in Hp.
    by apply map_to_list_empty_iff in Hp.
Qed.
Lemma package_tags_spec {GR : GoRuntime} tags versions :
  versions <> ∅ -> (forall t v, package_tags tags versions !! t = Some v -> is_Some (versions !! v))
    /\ is_Some (package_tags tags versions !! "latest")
    /\ forall t v, tags !! t = Some v -> is_Some (versions !! v) -> package_tags tags versions !! t = Some v.
Proof.
  intros Hne. unfold package_tags. set (kept := filter _ tags).
  assert (forall t v, kept !! t = Some v <-> tags !! t = Some v /\ is_Some (versions !! v)) as Hk
    by (intros; apply map_lookup_filter_Some).
  destruct (kept !! "latest") as [v0|] eqn:E.
  - split_and!; [|by eexists|].
    + intros t v [_ ?]%Hk. done.
    + intros. apply Hk. done.
  - split_and!; [|by rewrite lookup_insert_eq; eexists|].
    + intros t v [[<- <-]|[_ Ht]]%lookup_insert_Some; [by apply highest_listed|]. by apply Hk in Ht as [_ ?].
    + intros t v Ht Hv. rewrite lookup_insert_ne; [by apply Hk|]. intros <-.
      assert (kept !! "latest" = Some v) by by apply Hk. congruence.
Qed.

(** What a reader of a package document finds for a version. *)
Lemma entry_decodes base name v row doc :
  decode_version (entry_of base name v row doc)
  = Some (default JNull (doc !! "license"), integrityFrom (h_checksums row), default "" (h_checksums row !! "sha1")).
Proof.
  unfold entry_of, decode_version, of_map. cbn [object mbind option_bind]. rewrite !field_of_map, lookup_insert_eq.
  rewrite lookup_insert_ne by done. cbn [from_option id]. unfold dist_of, of_map. cbn [object mbind option_bind].
  unfold get_string. by rewrite !field_of_map.
Qed.
Lemma root_decodes name tags (versions : gmap string json) :
  (forall v j, versions !! v = Some j -> is_Some (decode_version j)) ->
  exists m, decode_root (package_root name tags versions) = Some (mkRoot m ∅)
    /\ forall v j, versions !! v = Some j -> m !! v = decode_version j.
Proof.
  intros Hd. destruct (decode_map_ok decode_version (by_key fst (map_to_list versions))) as (m & Hm & Hl).
  { apply NoDup_by_key. } { intros k j Hin%elem_of_by_key. by eapply Hd. }
  exists m. split; [|intros v j Hv; by apply Hl, elem_of_by_key].
  unfold decode_root, package_root, get_map_of, get_map, of_map at 1. cbn [object mbind option_bind].
  rewrite !field_of_map. set (root := {[ _ := _; _ := _; _ := _ ]}).
  assert (root !! "versions" = Some (of_map versions)) as -> by reflexivity.
  assert (root !! "time" = None) as -> by reflexivity.
  cbn [from_option id object mbind option_bind of_map]. by rewrite Hm.
Qed.

(** The versions of a package's documents. *)
Lemma package_versions base name st l out :
  version_docs unmarshal base name st l = Ok out -> l ≡ₚ map_to_list (ps_versions st) ->
  let versions : gmap string json := list_to_map out in
  (forall v, is_Some (versions !! v) <-> installable st v)
  /\ forall v j, versions !! v = Some j -> exists row doc, ps_tarballs st !! v = Some row /\ j = entry_of base name v row doc.
Proof.
  intros Ho Hp versions. assert (NoDup l.*1) as Hd by (rewrite Hp; apply NoDup_fst_map_to_list).
  destruct (version_docs_spec _ _ _ _ _ Ho Hd) as (H1 & H2 & H3).
  assert (forall v j, versions !! v = Some j <-> (v, j) ∈ out) as Hl by (intros; by rewrite elem_of_list_to_map).
  assert (forall v, v ∈ l.*1 -> exists raw, (v, raw) ∈ l /\ ps_versions st !! v = Some raw) as Hr.
  { intros v ([v' raw] & -> & Hin)%list_elem_of_fmap. exists raw. split; [done|]. rewrite Hp in Hin.
    by apply elem_of_map_to_list in Hin. }
  assert (forall v j, (v, j) ∈ out -> exists raw row, (v, raw) ∈ l /\ ps_versions st !! v = Some raw /\ ps_tarballs st !! v = Some row) as Hin.
  { intros v j Hj. destruct (version_docs_tarball _ _ _ _ _ _ _ Ho Hj) as [row Ht].
    destruct (Hr v) as (raw & ? & ?); [apply H2, list_elem_of_fmap; by exists (v, j)|]. eauto. }
  split.
  - intros v. split.
    + intros [j (raw & row & _ & Hv & Ht)%Hl%Hin]. unfold installable. by rewrite Hv, Ht.
    + intros [[raw Hv] [row Ht]]. destruct (H3 v raw row) as (doc & _ & Ho'); [|done|].
      * rewrite Hp. by apply elem_of_map_to_list.
      * apply Hl in Ho'. by eexists.
  - intros v j Hj%Hl. destruct (Hin _ _ Hj) as (raw & row & Hv & _ & Ht). destruct (H3 v raw row Hv Ht) as (doc & _ & Hj').
    exists row, doc. split; [done|]. apply Hl in Hj, Hj'. congruence.
Qed.

(** C31. Generated package documents are right. When a package's documents can be
    built, they list exactly the versions that have both a document and a
    tarball (and there are none when no version has); every tag names a listed
    version, a published tag of a listed version is kept, and there always is
    a latest; and whoever reads the document back learns, for every version,
    the very digest its tarball was stored with, so the bytes are checked
    against what was published. *)
Theorem npm_documents_sound {GR : GoRuntime} f name st docs :
  package_docs external unmarshal marshal_indent f name st = Ok docs ->
  (docs = [] /\ forall v, ~ installable st v) \/
  exists (versions : gmap string json) (tags : gmap string string),
    docs = [(name, marshal_indent (package_root name tags versions) +:+ nl);
            ("-/package/" +:+ name +:+ "/dist-tags", marshal_indent (of_map (JStr <$> tags)) +:+ nl)]
    /\ (forall v, is_Some (versions !! v) <-> installable st v)
    /\ (forall t v, tags !! t = Some v -> installable st v) /\ is_Some (tags !! "latest")
    /\ (forall t v, ps_tags st !! t = Some v -> installable st v -> tags !! t = Some v)
    /\ forall v row raw body, v <> "" -> ps_tarballs st !! v = Some row -> installable st v ->
         h_checksums row !! "sha512" = Some (hex_encode raw) -> raw <> "" ->
         unmarshal body = Some (package_root name tags versions) ->
         exists meta, ExtractMetadata unmarshal (npm_coord name v) body = Some meta
           /\ meta !! MetaChecksum = Some ("sha512:" +:+ hex_encode raw).
Proof.
  unfold package_docs. intros (out & Ho & Hd)%rbind_Ok.
  destruct (package_versions _ _ _ _ _ Ho (visit_perm _ _)) as [Hv He]. set (versions := list_to_map out) in *.
  revert Hd. case_decide as Hne; intros [= <-].
  { left. split; [done|]. intros v Hi%Hv. rewrite Hne in Hi. by destruct Hi. }
  destruct (package_tags_spec (ps_tags st) versions Hne) as (T1 & T2 & T3).
  right. exists versions, (package_tags (ps_tags st) versions). split; [done|]. split; [done|].
  split; [intros t v Ht; by eapply Hv, T1|]. split; [done|]. split; [intros t v Ht Hi%Hv; by apply T3|].
  intros v row raw body Hnv Ht Hi%Hv Hc Hr Hu. destruct Hi as [j Hj]. destruct (He _ _ Hj) as (row' & doc & Ht' & ->).
  assert (row' = row) as -> by congruence.
  edestruct (root_decodes name (package_tags (ps_tags st) versions) versions) as (m & Hm & Hl).
  { intros v' j' (row' & doc' & _ & ->)%He. by rewrite entry_decodes. }
  unfold ExtractMetadata. rewrite Hu. cbn [mbind option_bind]. rewrite Hm. cbn [mbind option_bind pr_versions c_version npm_coord].
  rewrite decide_False by done. rewrite (Hl v _ Hj), entry_decodes, (integrity_carries _ raw) by done.
  eexists. split; [done|]. unfold put_unless_empty at 1. rewrite decide_False by done. by rewrite lookup_insert_eq.
Qed.

(** *** The same documents in every process *)

Lemma version_docs_perm base name st l l' out :
  l ≡ₚ l' -> version_docs unmarshal base name st l = Ok out ->
  exists out', version_docs unmarshal base name st l' = Ok out' /\ out ≡ₚ out'.
Proof.
  intros Hp. revert out. induction Hp as [|[v raw] l l' Hp IH|[v1 r1] [v2 r2] l|l1 l2 l3 H1 IH1 H2 IH2]; intros out; cbn [version_docs].
  - eauto.
  - destruct (ps_tarballs st !! v); [|apply IH]. destruct (decode_object unmarshal raw) as [[doc|]|]; [|done..].
    intros (rest & (out' & -> & Hr)%IH & [= <-])%rbind_Ok. eexists. split; [done|]. by rewrite Hr.
  - destruct (version_docs unmarshal base name st l) as [rest|e].
    + destruct (ps_tarballs st !! v1), (ps_tarballs st !! v2), (decode_object unmarshal r1) as [[]|],
        (decode_object unmarshal r2) as [[]|]; intros [= <-]; eexists; (split; [reflexivity|]); try done; apply Permutation_swap.
    + destruct (ps_tarballs st !! v1), (ps_tarballs st !! v2), (decode_object unmarshal r1) as [[]|],
        (decode_object unmarshal r2) as [[]|]; discriminate.
  - intros (o2 & Ho & Hp2)%IH1. destruct (IH2 _ Ho) as (o3 & ? & Hp3). exists o3. split; [done|]. by rewrite Hp2.
Qed.

Lemma total_less_subset {A} (less : A -> A -> bool) l l' :
  (forall x, x ∈ l' -> x ∈ l) -> total_less less l -> total_less less l'.
Proof. intros Hs [T I To]. split; intros; [eapply (T x y)|apply I|apply To]; auto. Qed.
Lemma highest_same (G1 G2 : GoRuntime) (versions : gmap string json) :
  total_less semver_less (map_to_list versions).*1 -> @highestVersion G1 versions = @highestVersion G2 versions.
Proof.
  intros Ht. unfold highestVersion. rewrite (gosort_same G1 G2 semver_less _ (@visit G2 _ (map_to_list versions).*1)); [done| |].
  - eapply total_less_perm; [|exact Ht]. by rewrite visit_perm.
  - by rewrite !visit_perm.
Qed.
Theorem npm_documents_deterministic (G1 G2 : GoRuntime) f name st docs :
  total_less semver_less (map_to_list (ps_versions st)).*1 ->
  @package_docs external unmarshal marshal_indent G1 f name st = Ok docs ->
  @package_docs external unmarshal marshal_indent G2 f name st = Ok docs.
Proof.
  unfold package_docs. intros Ht (out & Ho & Hd)%rbind_Ok.
  pose proof (@visit_perm G1 _ (map_to_list (ps_versions st))) as P1.
  pose proof (@visit_perm G2 _ (map_to_list (ps_versions st))) as P2.
  destruct (version_docs_perm _ _ _ _ (@visit G2 _ (map_to_list (ps_versions st))) _ (transitivity P1 (symmetry P2)) Ho) as (out' & -> & Hp).
  simpl. destruct (package_versions _ _ _ _ _ Ho P1) as [Hv _].
  assert (NoDup out.*1) as Hn.
  { eapply version_docs_spec; [exact Ho|]. rewrite P1. apply NoDup_fst_map_to_list. }
  rewrite <-(list_to_map_proper _ _ Hn Hp). set (versions := list_to_map out) in *. revert Hd. case_decide as Hne; [done|].
  unfold package_tags. rewrite (highest_same G1 G2); [done|]. eapply total_less_subset; [|exact Ht].
  intros v ([v' j] & -> & Hin%elem_of_map_to_list)%list_elem_of_fmap. destruct (proj1 (Hv v')) as [[raw Hraw] _]; [by eexists|].
  apply list_elem_of_fmap. exists (v', raw). split; [done|]. by apply elem_of_map_to_list.
Qed.
End documents.

(** ** Groups *)

Lemma obj_map_lookup fs k v : NoDup fs.*1 -> obj_map fs !! k = Some v <-> (k, v) ∈ fs.
Proof.
  unfold obj_map. induction fs as [|[k' v'] fs IH] using rev_ind; [set_solver|]. rewrite foldl_app, fmap_app.
  intros (Hd & Hn & _)%NoDup_app. simpl in *. rewrite elem_of_app, list_elem_of_singleton, lookup_insert_Some, (IH Hd).
  split; [naive_solver|]. intros [Hin|[= -> ->]]; [|by left]. right. split; [|done]. intros ->.
  eapply (Hn k); [|by left]. apply list_elem_of_fmap. by exists (k, v).
Qed.
Lemma obj_map_of_map (m : gmap string json) : obj_map (by_key fst (map_to_list m)) = m.
Proof.
  apply map_eq. intros k. destruct (m !! k) as [v|] eqn:E.
  - apply obj_map_lookup; [apply NoDup_by_key|]. by apply elem_of_by_key.
  - destruct (obj_map _ !! k) eqn:E'; [|done]. apply obj_map_lookup in E'; [|apply NoDup_by_key].
    apply elem_of_by_key in E'. congruence.
Qed.
(** Changing an entry's tarball is reading it back. *)
Lemma tarball_set t t' j : tarball_of j = Some t -> t' <> "" -> tarball_of (set_tarball t' j) = Some t'.
Proof.
  unfold tarball_of, set_tarball, field_of. destruct (as_map j) as [v|]; [|done]. cbn [mbind option_bind].
  destruct (v !! "dist") as [d|] eqn:Ed; [|done]. cbn [mbind option_bind]. destruct (as_map d) as [d'|]; [|done].
  cbn [mbind option_bind]. intros _ Hne. cbn [as_map of_map]. rewrite obj_map_of_map. cbn [mbind option_bind].
  rewrite lookup_insert_eq. cbn [as_map of_map mbind option_bind]. rewrite obj_map_of_map, lookup_insert_eq. simpl.
  by rewrite decide_False.
Qed.

Section groups.
Context (external : Feed -> string) (unmarshal : string -> option json) (marshal : json -> string).

(** What a member's document offers under a key of one of its tables. *)
Definition offers (table : string) (part : string * string) (k : string) : option json :=
  doc ← decode_object unmarshal part.2; default ∅ (field_of as_map table (default ∅ doc)) !! k.
(** The first member that offers it, and what it offers. *)
Definition first_offer (table : string) (parts : list (string * string)) (k : string) : option (json * string) :=
  head (omap (fun part => (fun j => (j, part.1)) <$> offers table part k) parts).

Lemma merge_docs_versions parts acc acc' v :
  merge_docs unmarshal parts acc = Some acc' ->
  pk_versions acc' !! v = match pk_versions acc !! v with Some x => Some x | None => first_offer "versions" parts v end
  /\ pk_tags acc' !! v = match pk_tags acc !! v with Some x => Some x | None => fst <$> first_offer "dist-tags" parts v end
  /\ pk_times acc' !! v = match pk_times acc !! v with Some x => Some x | None => fst <$> first_offer "time" parts v end.
Proof.
  revert acc. induction parts as [|[member body] parts IH]; intros acc; cbn [merge_docs].
  { intros [= <-]. by destruct (pk_versions acc !! v), (pk_tags acc !! v), (pk_times acc !! v). }
  destruct (decode_object unmarshal body) as [doc|] eqn:Ed; [|done]. intros (-> & -> & ->)%IH.
  unfold merge_doc. cbn [pk_versions pk_tags pk_times]. rewrite !lookup_union, lookup_fmap.
  assert (forall table, first_offer table ((member, body) :: parts) v
    = match default ∅ (field_of as_map table (default ∅ doc)) !! v with
      | Some j => Some (j, member) | None => first_offer table parts v end) as Hf.
  { intros table. unfold first_offer, offers. cbn [omap list_omap snd]. rewrite Ed. cbn [mbind option_bind].
    by destruct (default ∅ (field_of as_map table (default ∅ doc)) !! v). }
  rewrite !Hf. set (O1 := default ∅ (field_of as_map "versions" _)). set (O2 := default ∅ (field_of as_map "dist-tags" _)).
  set (O3 := default ∅ (field_of as_map "time" _)).
  by destruct (pk_versions acc !! v), (pk_tags acc !! v), (pk_times acc !! v), (O1 !! v), (O2 !! v), (O3 !! v).
Qed.

(** C32. A group's package document keeps the members' order of trust. It lists
    exactly the versions some member lists, each as the first member that has
    it describes it (so a later registry cannot replace what an earlier one
    publishes), with the tarball fetched through the group; tags likewise; and
    latest always names a listed version. *)
Theorem npm_group_precedence {GR : GoRuntime} f parts body :
  mergePackument external unmarshal marshal f parts = Ok body ->
  exists (versions tags fields : gmap string json),
    body = marshal (of_map (<["versions" := of_map versions]> fields))
    /\ fields !! "dist-tags" = Some (of_map tags)
    /\ (forall v, is_Some (versions !! v) <-> is_Some (first_offer "versions" parts v))
    /\ (forall v j member, first_offer "versions" parts v = Some (j, member) ->
          versions !! v = Some (repoint (feedBase external f) (j, member))
          /\ forall t before p, tarball_of j = Some t -> member <> "" -> Cut t ("/npm/" +:+ member +:+ "/") = Some (before, p) ->
               tarball_of (repoint (feedBase external f) (j, member)) = Some (feedBase external f +:+ "/" +:+ p))
    /\ (forall t, t <> "latest" -> tags !! t = fst <$> first_offer "dist-tags" parts t)
    /\ exists v, tags !! "latest" = Some (JStr v) /\ is_Some (versions !! v).
Proof.
  unfold mergePackument. destruct (merge_docs unmarshal parts _) as [acc|] eqn:Em; [|done]. case_decide as Hne; [done|].
  intros [= <-]. unfold merged_document. set (versions := repoint _ <$> pk_versions acc).
  exists versions, (<["latest" := JStr (highestVersion versions)]> (pk_tags acc)).
  eexists (<["time" := _]> (<["dist-tags" := _]> (pk_fields acc))). split; [done|].
  split; [by rewrite lookup_insert_ne, lookup_insert_eq by done|].
  assert (forall v, pk_versions acc !! v = first_offer "versions" parts v) as Hv
    by (intros v; destruct (merge_docs_versions _ _ _ v Em) as (-> & _); cbn [pk_versions]; by rewrite lookup_empty).
  split_and!.
  - intros v. unfold versions. by rewrite lookup_fmap, fmap_is_Some, Hv.
  - intros v j member Hj. split; [unfold versions; by rewrite lookup_fmap, Hv, Hj|]. intros t before p Ht Hm Hc.
    unfold repoint. cbn [fst snd]. rewrite Ht. unfold repointTarball. rewrite decide_False, Hc by done.
    eapply tarball_set; [done|]. by destruct (feedBase external f).
  - intros t Hl. rewrite lookup_insert_ne by done. destruct (merge_docs_versions _ _ _ t Em) as (_ & -> & _).
    cbn [pk_tags]. by rewrite lookup_empty.
  - exists (highestVersion versions). split; [by rewrite lookup_insert_eq|]. apply highest_listed.
    unfold versions. by intros ?%fmap_empty_inv.
Qed.

(** Tags cannot be listed through a group: members' answers to that request
    have no versions, and the merge says there is nothing. *)
Theorem npm_group_hides_tags {GR : GoRuntime} f raw_path r i parts pkg :
  Parse raw_path r = Ok i -> i_path i = "-/package/" +:+ pkg +:+ "/dist-tags" -> i_kind i = IntentMetadata ->
  (forall part, part ∈ parts -> exists tags : gmap string string, decode_object unmarshal part.2 = Some (Some (JStr <$> tags))) ->
  MergeableIntent i = true /\ Merge external unmarshal marshal f i parts = Err ErrNotFound.
Proof.
  intros _ _ Hk Hp. unfold MergeableIntent, Merge. rewrite Hk. split; [done|]. unfold mergePackument. cbn match.
  assert (forall acc, pk_versions acc = ∅ -> exists acc', merge_docs unmarshal parts acc = Some acc' /\ pk_versions acc' = ∅) as H.
  { clear -Hp. induction parts as [|[m body] parts IH]; intros acc Ha; cbn [merge_docs]; [eauto|].
    destruct (Hp (m, body)) as [tags Ht]; [by left|]. simpl in Ht. rewrite Ht. apply IH; [set_solver|].
    unfold merge_doc. cbn [pk_versions default]. unfold field_of. rewrite Ha. simpl. rewrite lookup_fmap.
    by destruct (tags !! "versions"). }
  set (start := mkPackument _ _ _ _). destruct (H start eq_refl) as (acc & -> & Hv). by rewrite decide_True.
Qed.
End groups.

(** ** Search *)

Section by_measure.
Context {A : Type} (measure : A -> Z).
Notation less := (fun a b => measure a <? measure b).
Lemma insert_measure_sorted x l : ascending less l -> ascending less (insert_sorted less x l).
Proof.
  intros Hs. induction Hs as [|y l Hs IH Hy]; simpl; [repeat constructor|]. rewrite List.Forall_forall in Hy.
  destruct (Z.ltb_spec (measure x) (measure y)) as [Hlt|Hge].
  - constructor; [by constructor; [|apply List.Forall_forall]|]. apply List.Forall_forall.
    intros z [<-|Hz]; [lia|]. specialize (Hy z Hz). lia.
  - constructor; [done|]. apply List.Forall_forall. intros z Hz%list_elem_of_In. rewrite insert_sorted_perm in Hz.
    apply elem_of_cons in Hz as [->|Hz%list_elem_of_In]; [lia|by apply Hy].
Qed.
Lemma measure_sorted l : ascending less (insertion_sort less l).
Proof.
  unfold insertion_sort. generalize (SSorted_nil (fun x y : A => less y x = false)). generalize (@nil A).
  induction l as [|x l IH]; intros acc Ha; simpl; [done|]. by apply IH, insert_measure_sorted.
Qed.
End by_measure.

(** A search answers with every package whose newest document can be read and
    matches, each once, exact names first and then prefixes; the pages asked
    for one after the other are the list of all results. *)
Theorem npm_search_complete (external : Feed -> string) unmarshal {GR : GoRuntime} f term packages :
  let results := search_results external unmarshal f term packages in
  (forall pkg, pkg ∈ results <-> exists name versions, packages !! name = Some versions
      /\ search_package unmarshal (feedBase external f) name versions = Some pkg /\ (term = "" \/ matchesTerm pkg term = true))
  /\ (length results <= size packages)%nat
  /\ StronglySorted (fun a b => rank a term <= rank b term) results
  /\ forall n m, 0 <= n -> 0 <= m ->
       search_page 0 n results ++ search_page n m results = search_page 0 (n + m) results.
Proof.
  intros results. set (names := gosort str_ltb (visit (map_to_list packages).*1)).
  assert (names ≡ₚ (map_to_list packages).*1) as Hn by (unfold names; by rewrite gosort_perm, visit_perm).
  set (found := omap (fun name => search_package unmarshal (feedBase external f) name (default ∅ (packages !! name))) names).
  assert (results ≡ₚ filter (fun pkg => term = "" \/ matchesTerm pkg term = true) found) as Hp by apply insertion_sort_perm.
  split_and!.
  - intros pkg. rewrite Hp, list_elem_of_filter. unfold found. rewrite list_elem_of_omap. split.
    + intros [Hm (name & Hin & Hs)]. rewrite Hn in Hin. apply list_elem_of_fmap in Hin as ([name' vs] & -> & Hin%elem_of_map_to_list).
      cbn [fst] in Hs. rewrite Hin in Hs. eauto.
    + intros (name & vs & Hl & Hs & Hm). split; [done|]. exists name. rewrite Hl. split; [|done]. rewrite Hn.
      apply list_elem_of_fmap. exists (name, vs). by rewrite elem_of_map_to_list.
  - rewrite (Permutation_length Hp). etrans; [apply length_filter|]. unfold found.
    assert (forall (g : string -> option (gmap string json)) l, (length (omap g l) <= length l)%nat) as Ho.
    { intros g l. induction l as [|x l IH]; [done|]. unfold omap in *. cbn [list_omap]. destruct (g x); cbn [length]; lia. }
    etrans; [apply Ho|]. by rewrite Hn, length_fmap, length_map_to_list.
  - assert (ascending (fun a b => rank a term <? rank b term) results) as Hs by apply measure_sorted.
    clearbody results. clear -Hs. induction Hs as [|a l Hs IH Ha]; constructor; [done|].
    eapply Forall_impl; [exact Ha|]. cbn. lia.
  - intros n m Hnn Hm. unfold search_page. set (total := Z.of_nat (length results)).
    assert (0 <= total) as H0 by (unfold total; lia). rewrite !(Z.min_l 0 total), Z2Nat.inj_0, !drop_0 by done.
    rewrite !Z.add_0_l, !Z.sub_0_r.
    destruct (Z.le_ge_cases total n).
    + rewrite (Z.min_r n total), (Z.min_r (n + m)) by lia. rewrite (drop_ge _ (Z.to_nat total)) by lia.
      by rewrite take_nil, app_nil_r.
    + rewrite !(Z.min_l n total) by lia.
      rewrite take_take_drop. f_equal. lia.
Qed.
End NpmTheory.
