(* ===== verification/NpmDemo.v ===== *)
(** * An npm feed at work

    Concrete runs of the module behind the publish route, on a directory
    store: what hosting gets right, and the cases where it does not do what
    its comments say. *)

From S2P Require Import Prelude GoLib Semver Access State Events Store Pipeline Publisher Policies Auth Config Server WriteRoutes ModLib Oci OciListings OciUploads Npm NpmTheory.
Open Scope Z_scope.

Module NpmDemo.
Import Server WriteRoutes Npm NpmTheory.

(** Four digits for a short body. *)
Definition digest (algo body : string) : string :=
  decimal_digits 4 (foldl (fun n c => (31 * n + Z.of_N (Ascii.N_of_ascii c)) mod 10000) 7 (String.list_ascii_of_string body)).
Abbreviation S := OciUploads.OciDemo.S.
Abbreviation team := OciUploads.OciDemo.team.
Abbreviation env := OciUploads.OciDemo.env.

(** A printer of JSON text, enough to read and to compare. *)
Fixpoint show (j : json) : string :=
  match j with
  | JNull => "null"
  | JBool b => if b then "true" else "false"
  | JNum z => format_int z
  | JStr s => "'" +:+ s +:+ "'"
  | JObj fs => "{" +:+ (fix go l := match l with [] => "" | (k, v) :: l => k +:+ ":" +:+ show v +:+ ";" +:+ go l end) fs +:+ "}"
  | JArr l => "[" +:+ (fix go l := match l with [] => "" | v :: l => show v +:+ ";" +:+ go l end) l +:+ "]"
  end.

(** The document [npm publish] sends: versions with their documents, the
    versions whose tarball is attached, tags. *)
Definition publication (name : string) (versions : list (string * json)) (attached : list string)
  (tags : list (string * string)) : json :=
  JObj [("name", JStr name); ("dist-tags", JObj (prod_map id JStr <$> tags)); ("versions", JObj versions);
        ("_attachments", JObj ((fun v => (name +:+ "-" +:+ v +:+ ".tgz",
           JObj [("content_type", JStr "application/octet-stream"); ("data", JStr "dGFy"); ("length", JNum 3)])) <$> attached))].
Definition plain : json := JObj [].

(** The request bodies used below, by name. *)
Definition bodies : list (string * json) :=
  [("lib 1", publication "lib" [("1.0.0", plain)] ["1.0.0"] [("latest", "1.0.0")]);
   ("lib 2", publication "lib" [("2.0.0-rc.1", plain)] ["2.0.0-rc.1"] [("next", "2.0.0-rc.1")]);
   ("scoped 1", publication "@acme/lib" [("1.0.0", plain)] ["1.0.0"] [("latest", "1.0.0")]);
   ("scoped 2", publication "@acme/lib" [("2.0.0-rc.1", plain)] ["2.0.0-rc.1"] [("next", "2.0.0-rc.1")]);
   ("unpublish", publication "lib" [("1.0.0", plain)] [] [("latest", "1.0.0")]);
   ("bad", publication "bad" [("1.0.0", JNull)] ["1.0.0"] [("latest", "1.0.0")]);
   ("versions", publication "versions" [("1.0.0", plain); ("2.0.0", plain)] ["1.0.0"; "2.0.0"] [("latest", "1.0.0")]);
   ("bare", publication "ghost" [("9.9.9", plain)] [] [])].
Definition unmarshal (body : string) : option json :=
  match list_find (fun kv => kv.1 = body) bodies with
  | Some (_, (_, j)) => Some j
  | None => if decide (body = "{}") then Some plain else if decide (body = "null") then Some JNull else None
  end.
Definition external (_ : Feed) : string := "".
Definition host : Hoster := hoster external unmarshal show show digest.
Definition the_feed : Feed := mkFeed "npm" true.
Definition raw_path (_ : HttpReq) : string := "".
Definition module : FormatModule FS := npm external unmarshal show raw_path (fun _ _ _ => Err ErrNotFound).
Definition feed : feedRuntime (St := FS) (Ctx := unit) (Ps := unit) := mkFeedRt the_feed module [] false true false false.
Definition home : pubRuntime := mkPubRt feed (Config.mkPP "" true false) (Some host).
Definition engine : Engine :=
  engine_of [mkPolicy "all" [mkRule "feed/npm/*" [CapPublish] "all"]]
            [mkBinding "team" ["all"] (mkMatch "oidc" "" "" "acme/*" "" true)].

Definition request (method body : string) (s : S) : S * Z :=
  let '(s, resp) := publishHandler digest (OciUploads.OciUploads.listing digest) (fun _ => "") "a" engine (env team) false true
                      None home host (mkHttp method "/pkg" ∅ body "") s in
  (s, status_of resp).
Definition publish (bodies : list string) : S * list Z :=
  foldl (fun acc body => let '(s, n) := request "PUT" body acc.1 in (s, acc.2 ++ [n])) (OciUploads.OciDemo.start, []) bodies.
(** A generated document. *)
Definition index (s : S) (path : string) : option string :=
  o_body <$> found (fs_get ("meta/npm/" +:+ path) (sv_store (si_srv s))).
Definition tags_path (name : string) : string := "-/package/" +:+ name +:+ "/dist-tags".
Definition after (bodies : list string) (path : string) : option string := index (publish bodies).1 path.

(** ** Tags of scoped packages *)

(** A tag of a scoped package is stored under a coordinate without a version,
    which is read back as a version of the package without a name. *)
Theorem scoped_tags_misread s n :
  contains_char s "@"%char = false -> contains_char n "@"%char = false ->
  parseCoordinate (coord_string (npm_coord ("@" +:+ s +:+ "/" +:+ n) "")) = mkCoord "npm" "" (s +:+ "/" +:+ n).
Proof.
  intros Hs Hn. unfold parseCoordinate, coord_string, npm_coord. cbn [c_format c_name c_version].
  rewrite decide_True by done.
  change ("npm" +:+ ":" +:+ "@" +:+ s +:+ "/" +:+ n) with ("npm" +:+ String ":" ("" +:+ String "@" (s +:+ "/" +:+ n))).
  rewrite cut_app, lastCut_app by (done || by rewrite !contains_char_app, Hs, Hn). done.
Qed.
(** So a release candidate published under a tag of its own becomes the latest
    of a scoped package, and stays a candidate of any other. *)
Theorem scoped_latest_moves :
  (publish ["lib 1"; "lib 2"]).2 = [201; 201] /\ (publish ["scoped 1"; "scoped 2"]).2 = [201; 201]
  /\ after ["lib 1"; "lib 2"] (tags_path "lib") = Some ("{latest:'1.0.0';next:'2.0.0-rc.1';}" +:+ nl)
  /\ after ["scoped 1"; "scoped 2"] (tags_path "@acme/lib") = Some ("{latest:'2.0.0-rc.1';}" +:+ nl).
Proof. vm_compute. done. Qed.

(** A package named [versions] loses its tags too: their paths look like
    those of version documents. *)
Theorem tags_of_versions_lost :
  (publish ["versions"]).2 = [201] /\ after ["versions"] (tags_path "versions") = Some ("{latest:'2.0.0';}" +:+ nl).
Proof. vm_compute. done. Qed.

(** ** Unpublishing *)

(** [npm unpublish] sends the document without the version, then deletes the
    tarball: both succeed, and the version stays in the index. *)
Theorem unpublish_keeps_version :
  let '(s, codes) := publish ["lib 1"; "lib 2"; "unpublish"] in
  codes = [201; 201; 201] /\ index s "lib" = after ["lib 1"; "lib 2"] "lib"
  /\ let '(s', code) := request "DELETE" "" s in
     code = 201 /\ index s' "lib" = after ["lib 1"; "lib 2"] "lib".
Proof. vm_compute. done. Qed.

(** ** One bad document *)

(** A version whose document is null is accepted, and from then on no package
    that sorts after it gets an index: publishing it is answered as a success
    and it cannot be installed. *)
Theorem bad_document_stops_index :
  (publish ["bad"; "lib 1"]).2 = [201; 201]
  /\ after ["lib 1"; "bad"] "lib" <> None
  /\ after ["bad"; "lib 1"] "lib" = None /\ after ["bad"; "lib 1"] "bad" = None.
Proof. vm_compute. done. Qed.
(** What stops it is an assignment to a nil map, which panics. *)
Theorem null_document_panics base name st version raw row l {GR : GoRuntime} :
  unmarshal raw = Some JNull -> ps_tarballs st !! version = Some row ->
  version_docs unmarshal base name st ((version, raw) :: l) = Err (ErrOther "panic: assignment to entry in nil map").
Proof. intros Hu Ht. cbn [version_docs]. rewrite Ht. unfold decode_object. by rewrite Hu. Qed.

(** ** Search *)

Definition search_after (bodies : list string) (query : string) : result (api_error * string) SyntheticResponse :=
  let s := (publish bodies).1 in
  (run digest (OciUploads.OciUploads.listing digest) (env team) true
     (fun _ w => (w, Err (ErrForbidden, ""))) (Search external unmarshal show (fun _ => 0) the_feed
        (mkIntent IntentSearch (npm_coord "search" "") searchTTL searchPath no_checksum (mkSource "" "") "" false "" ""
           query "")) (world_of s)).2.
(** A search shows what an install does not find: a version recorded without
    its tarball has no package document. *)
Theorem search_shows_uninstallable :
  (publish ["bare"]).2 = [201] /\ after ["bare"] "ghost" = None
  /\ match search_after ["bare"] "text=ghost" with
     | Ok r => Contains (sy_body r) "name:'ghost'" && Contains (sy_body r) "total:1" = true
     | Err _ => False
     end.
Proof. vm_compute. done. Qed.

(** ** Instances of the general theorems *)

Definition one_row : HostedRow := mkHosted "npm:lib@1.0.0" "00" 3 {[ "sha512" := hex_encode "tar" ]} ∅ false "publish" "a" "dev".
Definition one_package : pkgState := mkPkg {[ "1.0.0" := "{}" ]} {[ "1.0.0" := one_row ]} {[ "beta" := "1.0.0" ]}.
Lemma npm_documents_sound_witness :
  exists versions tags, package_docs external unmarshal show the_feed "lib" one_package
    = Ok [("lib", show (package_root "lib" tags versions) +:+ nl);
          (tags_path "lib", show (of_map (JStr <$> tags)) +:+ nl)]
    /\ tags !! "beta" = Some "1.0.0" /\ is_Some (tags !! "latest") /\ is_Some (versions !! "1.0.0").
Proof.
  destruct (package_docs external unmarshal show the_feed "lib" one_package) as [docs|e] eqn:E; [|vm_compute in E; discriminate E].
  assert (installable one_package "1.0.0") as Hi by (split; vm_compute; eauto).
  destruct (npm_documents_sound external unmarshal show the_feed "lib" one_package docs E)
    as [[_ Hn]|(versions & tags & -> & Hv & _ & Hl & Hk & _)]; [by destruct (Hn "1.0.0")|].
  exists versions, tags. split; [done|]. split; [by apply Hk|]. split; [done|]. by apply Hv.
Defined.

(** A private registry before a public one that has the same package. *)
Definition entry (feed version : string) : json :=
  JObj [("dist", JObj [("tarball", JStr ("/npm/" +:+ feed +:+ "/lib/-/lib-" +:+ version +:+ ".tgz"))])].
Definition answers (body : string) : option json :=
  if decide (body = "private") then Some (JObj [("name", JStr "lib"); ("versions", JObj [("1.0.0", entry "private" "1.0.0")])])
  else if decide (body = "public")
  then Some (JObj [("name", JStr "lib"); ("versions", JObj [("1.0.0", entry "public" "1.0.0"); ("2.0.0", entry "public" "2.0.0")])])
  else None.
Definition members : list (string * string) := [("private", "private"); ("public", "public")].
Lemma npm_group_precedence_witness :
  exists body (versions : gmap string json), mergePackument external answers show (mkFeed "all" false) members = Ok body
    /\ is_Some (versions !! "2.0.0")
    /\ versions !! "1.0.0" = Some (repoint "/npm/all" (entry "private" "1.0.0", "private"))
    /\ tarball_of (repoint "/npm/all" (entry "private" "1.0.0", "private")) = Some "/npm/all/lib/-/lib-1.0.0.tgz".
Proof.
  destruct (mergePackument external answers show (mkFeed "all" false) members) as [body|e] eqn:E; [|vm_compute in E; discriminate E].
  destruct (npm_group_precedence external answers show (mkFeed "all" false) members body E)
    as (versions & tags & fields & _ & _ & Hv & Hf & _).
  destruct (Hf "1.0.0" (entry "private" "1.0.0") "private") as [H1 Ht]; [vm_compute; reflexivity|].
  exists body, versions. split; [done|]. split; [apply Hv; vm_compute; eauto|]. split; [exact H1|].
  apply (Ht "/npm/private/lib/-/lib-1.0.0.tgz" ""); [vm_compute; reflexivity|discriminate|vm_compute; reflexivity].
Defined.
End NpmDemo.
