(* ===== verification/Helm.v ===== *)
(** * The Helm module ([modules/format/helm])

    Chart repositories: paths and file names, rewriting a proxied index,
    uploads and what they publish, the generated index, listings, merging in
    groups. YAML and JSON text, multipart forms, tar archives and [url.Parse]
    are parameters; a decoded value is a [json]. *)

From S2P Require Import Prelude GoLib Semver State StateTheory Events Store Pipeline Publisher Policies Auth Server WriteRoutes ModLib Oci OciListings Maven Npm NpmTheory.
From Stdlib Require Import Sorting.Sorted.
Open Scope Z_scope.

Module Helm.
Import Server WriteRoutes.
Abbreviation obj_map := Npm.obj_map.
Abbreviation of_map := Npm.of_map.
Abbreviation format_rfc3339 := Npm.format_rfc3339.
Notation hosted := (string * PackageCoordinate * HostedRow)%type.

(** ** Paths ([helm.go]) *)

Definition indexTTL : Z := 5 * Minute.
Definition indexPath : string := "index.yaml".
Definition chartsPrefix : string := "charts/".
Definition apiPrefix : string := "api/charts".
Definition remotePrefix : string := "remote/".
Definition not_found (why : string) : api_error * string := (ErrNotFound, why).
Definition helm_coord (name version : string) : PackageCoordinate := mkCoord "helm" name version.

(** The first dash before a digit. *)
Fixpoint cut_dash_digit (s : string) : option (string * string) :=
  match s with
  | EmptyString => None
  | String c s' =>
      match s' with
      | String d _ => if decide (c = "-"%char /\ is_Some (digit d)) then Some ("", s')
                      else '(a, b) ← cut_dash_digit s'; Some (String c a, b)
      | EmptyString => None
      end
  end.
Definition splitChartFile (file : string) : string * string :=
  let base := trim_suffix (trim_suffix file ".prov") ".tgz" in
  if decide (base = "") then ("", "") else default (base, "") (cut_dash_digit base).
Definition chartFile (name version : string) : string :=
  if decide (version = "") then name +:+ ".tgz" else name +:+ "-" +:+ version +:+ ".tgz".

Definition chartIntent (requestPath file remoteURL : string) : result (api_error * string) Intent :=
  if decide (file = "" \/ contains_char file "/"%char = true) then Err (not_found "not a chart file")
  else
    let '(name, version) := splitChartFile file in
    if decide (name = "") then Err (not_found "not a chart file name")
    else Ok (mkIntent IntentArtifact (helm_coord name version) 0 requestPath no_checksum (mkSource "" "") "" false remoteURL
               (if has_suffix file ".prov" then "text/plain; charset=utf-8" else "application/gzip") "" "").

(** *** Locations in paths *)

(** [base64.RawURLEncoding]: the other alphabet, without padding. *)
Definition url_char (c : Ascii.ascii) : Ascii.ascii :=
  if decide (c = "+"%char) then "-"%char else if decide (c = "/"%char) then "_"%char else c.
Definition std_char (c : Ascii.ascii) : Ascii.ascii :=
  if decide (c = "-"%char) then "+"%char else if decide (c = "_"%char) then "/"%char else c.
Fixpoint map_chars (f : Ascii.ascii -> Ascii.ascii) (s : string) : string :=
  match s with EmptyString => "" | String c s' => String (f c) (map_chars f s') end.
Definition encodeLocation (raw : string) : string := map_chars url_char (trim_right_char (Npm.b64_encode raw) "="%char).
(** The padding a text of this length lacks. *)
Definition padding (s : string) : option string :=
  match (String.length s mod 4)%nat with
  | 0%nat => Some "" | 2%nat => Some "==" | 3%nat => Some "=" | _ => None
  end.
Definition url_alphabet (c : Ascii.ascii) : bool := Oci.alphanumeric c || bool_decide (c = "-"%char \/ c = "_"%char).
Definition raw_url_decode (s : string) : option string :=
  let s := Npm.drop_newlines s in
  if Oci.all_chars url_alphabet s
  then pad ← padding s; Auth.b64_decode (map_chars std_char s +:+ pad)
  else None.

(** A parsed URL. *)
Record URL := mkURL { u_abs : bool; u_scheme : string; u_path : string; u_escaped : string; u_text : string }.

(** [path.Base]: the last element, after trailing slashes. *)
Definition path_base (p : string) : string :=
  if decide (p = "") then "."
  else let p := trim_right_char p "/"%char in
       if decide (p = "") then "/" else after_last p "/"%char.

Section proxy.
Context (external_url upstream : Feed -> string) (url_parse : string -> option URL).

Definition decodeLocation (encoded : string) : option string :=
  raw ← raw_url_decode encoded; u ← url_parse raw;
  if decide (u_abs u = true /\ (u_scheme u = "http" \/ u_scheme u = "https")) then Some (u_text u) else None.

(** [Parse]. *)
Definition Parse (r : HttpReq) : result (api_error * string) Intent :=
  let p := trim_prefix (rq_path r) "/" in
  if decide (p = "" \/ Contains p ".." = true) then Err (not_found "invalid path")
  else if decide (p = indexPath) then
    Ok (mkIntent IntentMetadata (helm_coord indexPath "") indexTTL indexPath no_checksum (mkSource "" "") "" false ""
          "application/x-yaml" "" "")
  else if decide (p = apiPrefix \/ has_prefix p (apiPrefix +:+ "/") = true) then
    Ok (mkIntent IntentSearch (helm_coord (if decide (p = apiPrefix) then "" else trim_prefix p (apiPrefix +:+ "/")) "") 0 p
          no_checksum (mkSource "" "") "" false "" "application/json" "" "")
  else if has_prefix p chartsPrefix then chartIntent p (trim_prefix p chartsPrefix) ""
  else if has_prefix p remotePrefix then
    match Cut (trim_prefix p remotePrefix) "/" with
    | None => Err (not_found "not a chart location path")
    | Some (encoded, file) =>
        if decide (encoded = "" \/ file = "" \/ contains_char file "/"%char = true)
        then Err (not_found "not a chart location path")
        else match decodeLocation encoded with
             | None => Err (not_found "invalid chart location")
             | Some location => chartIntent p file location
             end
    end
  else Err (not_found "unsupported helm path").

Definition RedirectSafeIntent (i : Intent) : bool :=
  match i_kind i with IntentArtifact => true | _ => false end.

Definition feedBase (f : Feed) : string := trim_suffix (external_url f) "/" +:+ "/helm/" +:+ f_name f.

Definition chartURL (f : Feed) (up raw : string) : string :=
  let base := feedBase f in
  let trimmed := trim_suffix up "/" in
  match url_parse raw with
  | None => raw
  | Some u =>
      if negb (u_abs u) then base +:+ "/" +:+ chartsPrefix +:+ path_base (u_path u)
      else if decide (trimmed <> "" /\ has_prefix raw (trimmed +:+ "/") = true)
      then base +:+ "/" +:+ trim_prefix raw (trimmed +:+ "/")
      else
        let file := path_base (u_escaped u) in
        if decide (file = "" \/ file = "." \/ file = "/") then raw
        else base +:+ "/" +:+ remotePrefix +:+ encodeLocation raw +:+ "/" +:+ file
  end.

(** ** The index ([index.go]) *)

(** [chartIndex]; entries that are absent are nil. *)
Record chartIndex := mkIndex {
  ci_api : string;
  ci_entries : option (gmap string (list (gmap string json)));
  ci_generated : string;
  ci_rest : gmap string json;
}.
Definition str (v : option json) : string := match v with Some (JStr s) => s | _ => "" end.
Definition version_of (entry : gmap string json) : string := str (entry !! "version").

(** [yaml.Unmarshal] and [yaml.Marshal] of an index. *)
Context (unmarshal_index : string -> option chartIndex) (marshal_index : chartIndex -> string).

Definition rewrite_url (f : Feed) (u : json) : json :=
  match u with JStr location => JStr (chartURL f (upstream f) location) | _ => u end.
Definition rewrite_entry (f : Feed) (entry : gmap string json) : gmap string json :=
  match entry !! "urls" with
  | Some (JArr raw) => <["urls" := JArr (rewrite_url f <$> raw)]> entry
  | _ => entry
  end.
Definition rewrite_list (f : Feed) (l : list (gmap string json)) : list (gmap string json) := rewrite_entry f <$> l.
Definition RewriteMetadata (f : Feed) (body : string) : result api_error string :=
  match unmarshal_index body with
  | None => Err (ErrOther "parse helm index")
  | Some index =>
      match ci_entries index with
      | None => Err (ErrOther "helm index has no entries")
      | Some entries =>
          Ok (marshal_index (mkIndex (ci_api index) (Some (rewrite_list f <$> entries)) (ci_generated index) (ci_rest index)))
      end
  end.

(** [storedChart]. *)
Record storedChart := mkChart {
  sc_name : string; sc_version : string; sc_digest : string; sc_created : string; sc_metadata : gmap string json }.

(** What an entry says of a chart, over what the chart says of itself. *)
Definition listingEntry (c : storedChart) : gmap string json :=
  let entry := <["digest" := JStr (sc_digest c)]> (<["version" := JStr (sc_version c)]>
                 (<["name" := JStr (sc_name c)]> (sc_metadata c))) in
  if decide (sc_created c <> "") then <["created" := JStr (sc_created c)]> entry else entry.
Definition index_entry (base : string) (c : storedChart) : gmap string json :=
  let entry := <["digest" := JStr (sc_digest c)]>
                (<["urls" := JArr [JStr (base +:+ "/" +:+ chartsPrefix +:+ chartFile (sc_name c) (sc_version c))]]>
                  (<["version" := JStr (sc_version c)]> (<["name" := JStr (sc_name c)]> (sc_metadata c)))) in
  if decide (sc_created c <> "") then <["created" := JStr (sc_created c)]> entry else entry.

(** Newest first, ties in their order ([sort.SliceStable]). *)
Definition newer (a b : gmap string json) : bool := 0 <? Semver.Compare (version_of a) (version_of b).
Definition sortEntries (l : list (gmap string json)) : list (gmap string json) := insertion_sort newer l.
Definition append_entry {A} (name : string) (e : A) (entries : gmap string (list A)) : gmap string (list A) :=
  <[name := default [] (entries !! name) ++ [e]]> entries.

(** [buildIndex]. *)
Definition index_entries (f : Feed) (charts : list storedChart) : gmap string (list (gmap string json)) :=
  sortEntries <$> foldl (fun m c => append_entry (sc_name c) (index_entry (feedBase f) c) m) ∅ charts.
Definition buildIndex (f : Feed) (charts : list storedChart) (now : Z) : string :=
  marshal_index (mkIndex "v1" (Some (index_entries f charts)) (format_rfc3339 now) ∅).

(** ** Uploads ([hoster.go]) *)

Definition maxChartSize : Z := 100 * 2 ^ 20.
Definition hostedPrefix : string := "-/hosted/".
Definition PublishRoutes : list (string * string) :=
  [("POST", "/api/charts"); ("POST", "/api/charts/"); ("DELETE", "/api/charts/*")].

(** The fields of a multipart form; a tar archive's entries, each a name, the
    content of a regular file ([None] for others), until it ends or breaks. *)
Context (multipart : HttpReq -> option (gmap string string)).
Inductive tar_entry := TarFile (name content : string) | TarOther | TarBroken.
Context (untar : string -> option (list tar_entry)).
(** The name and version in a Chart.yaml; the whole of it as a map. *)
Context (unmarshal_chart : string -> option (string * string)) (unmarshal_map : string -> option (gmap string json)).
Context {GR : GoRuntime} (digest : string -> string -> string).
(** The clock, and when a row was published. *)
Context (now : Z) (published_at : string -> Z).

Definition formFile (form : gmap string string) (field : string) : result (api_error * string) string :=
  match form !! field with
  | None => Err (ErrBadRequest, "no such field in the upload")
  | Some body => let body := limit_read (maxChartSize + 1) body in
                 if decide (maxChartSize < Z.of_nat (String.length body)) then Err (ErrBadRequest, "field is too big")
                 else Ok body
  end.
Definition readUpload (r : HttpReq) : result (api_error * string) (string * string) :=
  if has_prefix (header_get (rq_header r) "Content-Type") "multipart/form-data" then
    match multipart r with
    | None => Err (ErrBadRequest, "reading the upload")
    | Some form => let? chart := formFile form "chart" in
                   Ok (chart, match formFile form "prov" with Ok prov => prov | Err _ => "" end)
    end
  else
    let body := limit_read (maxChartSize + 1) (rq_body r) in
    if decide (maxChartSize < Z.of_nat (String.length body)) then Err (ErrBadRequest, "chart is too big")
    else if decide (body = "") then Err (ErrBadRequest, "empty upload")
    else Ok (body, "").

Record chartMeta := mkMeta { cm_name : string; cm_version : string; cm_raw : string }.
(** The first Chart.yaml at the root of the chart's directory. *)
Fixpoint find_chart (entries : list tar_entry) : result (api_error * string) chartMeta :=
  match entries with
  | [] => Err (ErrBadRequest, "the archive has no Chart.yaml")
  | TarBroken :: _ => Err (ErrBadRequest, "not a tar archive")
  | TarOther :: entries => find_chart entries
  | TarFile name content :: entries =>
      match split (Clean name) "/"%char with
      | [_; file] =>
          if decide (file <> "Chart.yaml") then find_chart entries
          else let raw := limit_read (2 ^ 20) content in
               match unmarshal_chart raw with
               | None => Err (ErrBadRequest, "Chart.yaml is not YAML")
               | Some (name, version) => Ok (mkMeta name version raw)
               end
      | _ => find_chart entries
      end
  end.
Definition chartMetadata (archive : string) : result (api_error * string) chartMeta :=
  match untar archive with
  | None => Err (ErrBadRequest, "not a gzip archive")
  | Some entries => find_chart entries
  end.

Definition stage (body : string) : presult string :=
  let sha := digest "sha256" body in
  BlobPut ("blobs/sha256/" +:+ sha) body (mkPutOpts sha (Z.of_nat (String.length body)) "") (fun e =>
    match e with Some e => perr e "stage chart" | None => pok sha end).
Definition publish_staged (f : Feed) (c : PackageCoordinate) (path body sha : string) (mutable : bool)
  (meta : option (gmap string string)) : presult () :=
  CorePublish (mkPublish f c path sha (Z.of_nat (String.length body)) ∅ "" mutable meta)
    (fun res => match res with Ok _ => pok () | Err e => Ret (Err e) end).
Definition publishMutable (f : Feed) (path : string) (c : PackageCoordinate) (body : string) : presult () :=
  ptry (stage body) (fun sha => publish_staged f c path body sha true None).

(** [readBlob]. *)
Definition readBlob {A} (sha : string) (k : string -> prog (result api_error A)) : prog (result api_error A) :=
  BlobGet ("blobs/sha256/" +:+ sha) (fun res => match res with
    | Err e => Ret (Err e)
    | Ok o => k (limit_read (2 ^ 20) (o_body o))
    end).

Definition chart_key (c : PackageCoordinate) : string := c_name c +:+ "@" +:+ c_version c.
Definition is_archive (path : string) : bool := has_prefix path chartsPrefix && negb (has_suffix path ".prov").
(** The archives and the metadata documents, the last of a key. *)
Fixpoint sort_rows (ms : list hosted) (archives : gmap string hosted) (metadata : gmap string string)
  : prog (result api_error (gmap string hosted * gmap string string)) :=
  match ms with
  | [] => Ret (Ok (archives, metadata))
  | m :: ms =>
      if has_prefix m.1.1 hostedPrefix then
        readBlob (h_sha256 m.2) (fun body => sort_rows ms archives (<[chart_key m.1.2 := body]> metadata))
      else if is_archive m.1.1 then sort_rows ms (<[chart_key m.1.2 := m]> archives) metadata
      else sort_rows ms archives metadata
  end.
Definition stored (m : hosted) (doc : gmap string json) : storedChart :=
  mkChart (c_name m.1.2) (c_version m.1.2) (h_sha256 m.2) (format_rfc3339 (published_at m.1.1)) doc.
Fixpoint stored_charts (metadata : gmap string string) (l : list (string * hosted)) : result api_error (list storedChart) :=
  match l with
  | [] => Ok []
  | (key, m) :: l =>
      let? doc := match metadata !! key with
                  | None => Ok ∅
                  | Some raw => match unmarshal_map raw with
                                | Some doc => Ok doc
                                | None => Err (ErrOther "decode stored Chart.yaml")
                                end
                  end in
      let? rest := stored_charts metadata l in Ok (stored m doc :: rest)
  end.
Definition chart_less (a b : storedChart) : bool :=
  if decide (sc_name a <> sc_name b) then str_ltb (sc_name a) (sc_name b)
  else 0 <? Semver.Compare (sc_version a) (sc_version b).

(** [Reindex]. *)
Definition Reindex (f : Feed) : prog (option api_error) :=
  CoreManifests f "" (fun res => match res with
    | Err e => Ret (Some e)
    | Ok ms => pbind (sort_rows ms ∅ ∅) (fun res => match res with
        | Err e => Ret (Some e)
        | Ok (archives, metadata) =>
            match stored_charts metadata (visit (map_to_list archives)) with
            | Err e => Ret (Some e)
            | Ok charts => CorePutIndex f indexPath (buildIndex f (gosort chart_less charts) now) (fun e => Ret e)
            end
        end)
    end).

(** [HandlePublish]. *)
Definition HandlePublish (f : Feed) (r : HttpReq) : presult own_response :=
  if decide (rq_method r = "DELETE") then perr ErrForbidden "a published chart version is quarantined, not removed"
  else if decide (Trim (trim_prefix (rq_path r) "/") "/"%char <> apiPrefix)
  then perr ErrBadRequest "charts are uploaded to POST /api/charts"
  else match readUpload r with
  | Err e => Ret (Err e)
  | Ok (chart, prov) =>
      match chartMetadata chart with
      | Err e => Ret (Err e)
      | Ok meta =>
          if decide (cm_name meta = "" \/ cm_version meta = "") then perr ErrBadRequest "Chart.yaml has no name or version"
          else
            let c := helm_coord (cm_name meta) (cm_version meta) in
            let path := chartsPrefix +:+ chartFile (cm_name meta) (cm_version meta) in
            ptry (stage chart) (fun sha =>
            ptry (publish_staged f c path chart sha false (Some {[ Policies.MetaEcosystem := "helm" ]})) (fun _ =>
            ptry (publishMutable f (hostedPrefix +:+ cm_name meta +:+ "/" +:+ cm_version meta +:+ ".yaml") c (cm_raw meta)) (fun _ =>
            ptry (if decide (prov = "") then pok ()
                  else ptry (stage prov) (fun sha => publish_staged f c (path +:+ ".prov") prov sha false None)) (fun _ =>
            pbind (Reindex f) (fun e => match e with Some e => perr e "" | None => pok (0, ∅, "") end)))))
      end
  end.
Definition hoster : Hoster := mkHoster false HandlePublish Reindex.

(** ** Listings ([search.go]) *)

Context (marshal : json -> string).

(** [hostedCharts]: a document that cannot be read is left out. *)
Fixpoint read_metadata (ms : list hosted) (metadata : gmap string string) : prog (result api_error (gmap string string)) :=
  match ms with
  | [] => Ret (Ok metadata)
  | m :: ms => if has_prefix m.1.1 hostedPrefix
               then readBlob (h_sha256 m.2) (fun body => read_metadata ms (<[chart_key m.1.2 := body]> metadata))
               else read_metadata ms metadata
  end.
Definition listed (metadata : gmap string string) (m : hosted) : option storedChart :=
  if negb (is_archive m.1.1) then None
  else Some (stored m (default ∅ (metadata !! chart_key m.1.2 ≫= unmarshal_map))).
Definition hostedCharts (f : Feed) : prog (result api_error (list storedChart)) :=
  CoreManifests f "" (fun res => match res with
    | Err e => Ret (Err e)
    | Ok ms => pbind (read_metadata ms ∅) (fun res => match res with
        | Err e => Ret (Err e)
        | Ok metadata => Ret (Ok (omap (listed metadata) ms))
        end)
    end).

Definition jsonResponse (status : Z) (body : json) : SyntheticResponse :=
  mkSynthetic status {[ "Content-Type" := "application/json" ]} (marshal body).
Definition notFound (what : string) : SyntheticResponse :=
  jsonResponse 404 (JObj [("error", JStr ("no chart " +:+ what))]).

Definition entries_json (l : list (gmap string json)) : json := JArr (of_map <$> l).
Definition by_name (charts : list storedChart) : gmap string (list (gmap string json)) :=
  foldl (fun m c => append_entry (sc_name c) (listingEntry c) m) ∅ charts.
(** The answer to what was asked about: the feed, a chart, a version. *)
Definition answer (what : string) (charts : list storedChart) : SyntheticResponse :=
  let rest := Trim what "/"%char in
  let '(name, version, _) := if decide (rest = "") then ("", "", false) else cut3 rest "/" in
  if decide (name = "") then jsonResponse 200 (of_map ((fun l => entries_json (sortEntries l)) <$> by_name charts))
  else if decide (version = "") then
    match filter (fun c => sc_name c = name) charts with
    | [] => notFound name
    | l => jsonResponse 200 (entries_json (sortEntries (listingEntry <$> l)))
    end
  else match list_find (fun c => sc_name c = name /\ sc_version c = version) charts with
       | Some (_, c) => jsonResponse 200 (of_map (listingEntry c))
       | None => notFound (name +:+ "-" +:+ version)
       end.
Definition Search (f : Feed) (i : Intent) : presult SyntheticResponse :=
  pbind (hostedCharts f) (fun res => match res with
    | Err e => perr e ""
    | Ok charts => pok (answer (c_name (i_coord i)) charts)
    end).

(** ** Groups ([group.go]) *)

Definition MergeableIntent (i : Intent) : bool :=
  match i_kind i with IntentMetadata | IntentSearch => true | _ => false end.

(** The entries so far by name, and the keys seen. *)
Abbreviation merged := (gmap string (list (gmap string json)) * gset string)%type.
Definition merge_entry (name : string) (acc : merged) (entry : gmap string json) : merged :=
  let key := name +:+ "@" +:+ version_of entry in
  if decide (key ∈ acc.2) then acc else (append_entry name entry acc.1, {[ key ]} ∪ acc.2).
Definition merge_name (acc : merged) (kv : string * list (gmap string json)) : merged :=
  foldl (merge_entry kv.1) acc kv.2.
Definition merge_entries (acc : merged) (entries : gmap string (list (gmap string json))) : merged :=
  foldl merge_name acc (visit (map_to_list entries)).
Fixpoint merge_indexes (parts : list (string * string)) (acc : merged) : option merged :=
  match parts with
  | [] => Some acc
  | (_, body) :: parts =>
      match unmarshal_index body with
      | None => None
      | Some index => merge_indexes parts (merge_entries acc (default ∅ (ci_entries index)))
      end
  end.
(** [mergeIndex]. *)
Definition mergeIndex (parts : list (string * string)) : result api_error string :=
  match merge_indexes parts (∅, ∅) with
  | None => Err (ErrOther "parse helm index")
  | Some acc => Ok (marshal_index (mkIndex "v1" (Some (sortEntries <$> acc.1)) "" ∅))
  end.

(** A member's listing: a list of entries, or a map from names to lists. *)
Context (unmarshal_list : string -> option (list (gmap string json)))
        (unmarshal_lists : string -> option (gmap string (list (gmap string json)))).
Definition merge_listed (acc : list (gmap string json) * gset string) (entry : gmap string json)
  : list (gmap string json) * gset string :=
  let key := str (entry !! "name") +:+ "@" +:+ version_of entry in
  if decide (key ∈ acc.2) then acc else (acc.1 ++ [entry], {[ key ]} ∪ acc.2).
Record listing := mkListing { ls_map : gmap string (list (gmap string json)); ls_list : list (gmap string json);
                              ls_is_list : bool; ls_seen : gset string }.
Definition merge_part (acc : listing) (body : string) : option listing :=
  if decide (body = "") then Some acc
  else match unmarshal_list body with
  | Some entries => let '(l, seen) := foldl merge_listed (ls_list acc, ls_seen acc) entries in
                    Some (mkListing (ls_map acc) l true seen)
  | None =>
      match unmarshal_lists body with
      | None => None
      | Some entries => let '(m, seen) := merge_entries (ls_map acc, ls_seen acc) entries in
                        Some (mkListing m (ls_list acc) (ls_is_list acc) seen)
      end
  end.
Fixpoint merge_listings (parts : list (string * string)) (acc : listing) : option listing :=
  match parts with
  | [] => Some acc
  | (_, body) :: parts => match merge_part acc body with Some acc => merge_listings parts acc | None => None end
  end.
(** [mergeListing] and [Merge]. *)
Definition mergeListing (parts : list (string * string)) : result api_error string :=
  match merge_listings parts (mkListing ∅ [] false ∅) with
  | None => Err (ErrOther "parse chart listing")
  | Some acc => Ok (marshal (if ls_is_list acc then entries_json (sortEntries (ls_list acc))
                             else of_map ((fun l => entries_json (sortEntries l)) <$> ls_map acc)))
  end.
Definition Merge (f : Feed) (i : Intent) (parts : list (string * string)) : result api_error string :=
  match i_kind i with
  | IntentSearch => mergeListing parts
  | _ => mergeIndex parts
  end.
Definition helm {St} (search : Feed -> Intent -> St -> result api_error SyntheticResponse) : FormatModule St :=
  mkModule Parse None None None (Some search) (Some RedirectSafeIntent) None None (Some (MergeableIntent, Merge)).
End proxy.

(** ** File names *)

Definition starts_with_digit (s : string) : bool :=
  match s with String d _ => bool_decide (is_Some (digit d)) | EmptyString => false end.

Lemma cut_dash_digit_cons c s : cut_dash_digit (String c s)
  = if decide (c = "-"%char /\ starts_with_digit s = true) then Some ("", s)
    else '(a, b) ← cut_dash_digit s; Some (String c a, b).
Proof.
  cbn [cut_dash_digit]. destruct s as [|d s]; [rewrite decide_False; [done|by intros [_ ?]]|]. unfold starts_with_digit.
  destruct (decide (c = "-"%char /\ is_Some (digit d))) as [[-> H]|H].
  - rewrite decide_True; [done|]. split; [done|]. by apply bool_decide_eq_true.
  - rewrite decide_False; [done|]. intros [-> H2%bool_decide_eq_true]. tauto.
Qed.
(** The guess at a file name: the first dash before a digit, wherever it is. *)
Lemma cut_dash_digit_app name version : cut_dash_digit (name +:+ String "-" version)
  = match cut_dash_digit name with
    | Some (a, b) => Some (a, b +:+ String "-" version)
    | None => if starts_with_digit version then Some (name, version)
              else '(a, b) ← cut_dash_digit version; Some (name +:+ String "-" a, b)
    end.
Proof.
  induction name as [|c name IH].
  - change ("" +:+ ?x) with x. rewrite cut_dash_digit_cons. simpl. destruct (starts_with_digit version).
    + by rewrite decide_True.
    + rewrite decide_False by (by intros [_ ?]). by destruct (cut_dash_digit version) as [[]|].
  - change (String c name +:+ ?x) with (String c (name +:+ x)). rewrite !cut_dash_digit_cons, IH.
    assert (starts_with_digit (name +:+ String "-" version) = starts_with_digit name) as -> by by destruct name.
    case_decide; [done|]. destruct (cut_dash_digit name) as [[]|]; [done|]. simpl.
    destruct (starts_with_digit version); [done|]. by destruct (cut_dash_digit version) as [[]|].
Qed.
Lemma cut_dash_digit_some s a b : cut_dash_digit s = Some (a, b) -> s = a +:+ String "-" b.
Proof.
  revert a. induction s as [|c s IH]; intros a; [done|]. rewrite cut_dash_digit_cons. case_decide as H.
  - intros [= <- <-]. by destruct H as [-> _].
  - destruct (cut_dash_digit s) as [[a' b']|]; [|done]. intros [= <- <-]. simpl. by rewrite (IH a').
Qed.

Lemma not_prov s : trim_suffix (s +:+ ".tgz") ".prov" = s +:+ ".tgz".
Proof.
  unfold trim_suffix. destruct (cut_suffix (s +:+ ".tgz") ".prov") as [q [|]] eqn:E; [|by apply cut_suffix_false in E].
  apply cut_suffix_true in E. change ".tgz" with (".tg" +:+ "z") in E. change ".prov" with (".pro" +:+ "v") in E.
  rewrite !str_app_assoc in E. by apply Maven.Maven.last_char_inj in E.
Qed.
(** The base of an archive's file name, with or without its signature's. *)
Lemma chart_base name version sig : version <> "" -> sig = "" \/ sig = ".prov" ->
  trim_suffix (trim_suffix (chartFile name version +:+ sig) ".prov") ".tgz" = name +:+ String "-" version.
Proof.
  intros Hv Hs. unfold chartFile. rewrite decide_False by done.
  assert (name +:+ "-" +:+ version +:+ ".tgz" = (name +:+ String "-" version) +:+ ".tgz") as -> by (by rewrite <-str_app_assoc).
  assert (trim_suffix (((name +:+ String "-" version) +:+ ".tgz") +:+ sig) ".prov" = (name +:+ String "-" version) +:+ ".tgz") as ->.
  { destruct Hs as [->| ->]; [rewrite str_app_nil_r; apply not_prov|]. unfold trim_suffix. by rewrite cut_suffix_app. }
  unfold trim_suffix. by rewrite cut_suffix_app.
Qed.
(** What the file name of a published chart is read as. It is the chart's own
    name and version exactly when the name has no dash before a digit and the
    version starts with a digit. *)
Theorem helm_file_name_read name version sig :
  name <> "" -> version <> "" -> sig = "" \/ sig = ".prov" ->
  splitChartFile (chartFile name version +:+ sig) = (name, version)
  <-> cut_dash_digit name = None /\ starts_with_digit version = true.
Proof.
  intros Hn Hv Hs. unfold splitChartFile. rewrite chart_base by done. rewrite decide_False by (destruct name; discriminate).
  rewrite cut_dash_digit_app. assert (forall a b : string, a = name -> (a +:+ String "-" b) <> name) as Hlen.
  { intros a b -> H%(f_equal String.length). rewrite str_length_app in H. simpl in H. lia. }
  destruct (cut_dash_digit name) as [[a b]|] eqn:E.
  - apply cut_dash_digit_some in E. split; [|by intros [? _]]. intros [= -> _]. exfalso. by eapply (Hlen name b).
  - destruct (starts_with_digit version); [done|]. split; [|by intros [_ ?]].
    destruct (cut_dash_digit version) as [[a b]|]; intros H; apply (f_equal fst) in H; exfalso; exact (Hlen name _ eq_refl H).
Qed.
Lemma splitChartFile_name name version sig : name <> "" -> version <> "" -> sig = "" \/ sig = ".prov" ->
  (forall b, cut_dash_digit name <> Some ("", b)) ->
  (splitChartFile (chartFile name version +:+ sig)).1 <> "".
Proof.
  intros Hn Hv Hs Hb. unfold splitChartFile. rewrite chart_base by done. rewrite decide_False by (destruct name; discriminate).
  rewrite cut_dash_digit_app. destruct (cut_dash_digit name) as [[a b]|] eqn:E.
  - simpl. intros ->. by eapply Hb.
  - destruct (starts_with_digit version); [done|]. destruct (cut_dash_digit version) as [[a b]|]; simpl; by destruct name.
Qed.

(** ** Downloads *)

Section downloads.
Context (external_url upstream : Feed -> string) (url_parse : string -> option URL).

Lemma parse_chart r file : rq_path r = "/" +:+ chartsPrefix +:+ file -> Contains (chartsPrefix +:+ file) ".." = false ->
  Parse url_parse r = chartIntent (chartsPrefix +:+ file) file "".
Proof.
  intros Hr Hd. unfold Parse. rewrite Hr, trim_prefix_app, Hd. rewrite decide_False by (intros [?|?]; done).
  rewrite decide_False by done. rewrite decide_False by (intros [?|?]; done).
  by rewrite has_prefix_app_r, trim_prefix_app.
Qed.
Lemma chart_file_flat name version sig : sig = "" \/ sig = ".prov" ->
  contains_char name "/"%char = false -> contains_char version "/"%char = false ->
  contains_char (chartFile name version +:+ sig) "/"%char = false.
Proof.
  intros Hs Hn Hv. unfold chartFile. case_decide; rewrite !contains_char_app, Hn, ?Hv; by destruct Hs as [->| ->].
Qed.
(** Any file of a published chart is found where it was put; the coordinate
    the request is judged by is the published one exactly when the file name
    is read as the chart's name and version. *)
Lemma chart_found r name version sig :
  let path := chartsPrefix +:+ chartFile name version +:+ sig in
  sig = "" \/ sig = ".prov" -> name <> "" -> version <> "" ->
  contains_char name "/"%char = false -> contains_char version "/"%char = false ->
  (forall b, cut_dash_digit name <> Some ("", b)) -> Contains path ".." = false -> rq_path r = "/" +:+ path ->
  exists i, Parse url_parse r = Ok i /\ i_kind i = IntentArtifact /\ i_path i = path /\ i_url i = ""
    /\ (i_coord i = helm_coord name version <-> cut_dash_digit name = None /\ starts_with_digit version = true).
Proof.
  intros path Hs Hn Hv Hfn Hfv Hb Hd Hr. rewrite (parse_chart r (chartFile name version +:+ sig)) by done.
  unfold chartIntent. rewrite decide_False.
  2: { rewrite chart_file_flat by done. intros [E|E]; [|done]. unfold chartFile in E. rewrite decide_False in E by done. by destruct name. }
  pose proof (helm_file_name_read name version sig Hn Hv Hs) as Hiff.
  pose proof (splitChartFile_name name version sig Hn Hv Hs Hb) as Hne.
  destruct (splitChartFile _) as [n v]. simpl in Hne. rewrite decide_False by done. eexists. do 4 (split; [done|]).
  rewrite <-Hiff. cbn [i_coord]. split; [by intros [= -> ->]|by intros [= -> ->]].
Qed.
End downloads.

(** ** Locations *)

(** The digits of a text are kept by the change of alphabet and back. *)
Lemma url_digit n : (n < 64)%N ->
  let c := url_char (Npm.b64_char n) in
  std_char c = Npm.b64_char n /\ url_alphabet c = true /\ c <> "010"%char /\ c <> "013"%char /\ c <> "/"%char.
Proof.
  apply (NpmTheory.NpmTheory.below 64 (fun n => let c := url_char (Npm.b64_char n) in
    std_char c = Npm.b64_char n /\ url_alphabet c = true /\ c <> "010"%char /\ c <> "013"%char /\ c <> "/"%char)).
  repeat constructor; vm_compute; congruence.
Qed.
(** A text of digits. *)
Fixpoint digits (l : list N) : string := match l with [] => "" | n :: l => String (Npm.b64_char n) (digits l) end.
Definition below_64 (l : list N) : Prop := Forall (fun n => n < 64)%N l.
Lemma digits_free l c : below_64 l -> c ∈ "="%char :: NpmTheory.NpmTheory.b64_blanks -> contains_char (digits l) c = false.
Proof.
  intros Hl Hc. induction Hl as [|n l Hn Hl IH]; [done|]. cbn [digits contains_char]. rewrite IH.
  rewrite bool_decide_false; [done|]. by apply NpmTheory.NpmTheory.b64_char_plain.
Qed.
Lemma digits_url l : below_64 l -> let s := map_chars url_char (digits l) in
  map_chars std_char s = digits l /\ Oci.all_chars url_alphabet s = true /\ String.length s = length l
  /\ contains_char s "010"%char = false /\ contains_char s "013"%char = false /\ contains_char s "/"%char = false.
Proof.
  induction 1 as [|n l Hn Hl IH]; [done|]. simpl in *. destruct IH as (-> & -> & -> & -> & -> & ->).
  destruct (url_digit n Hn) as (-> & -> & ? & ? & ?). rewrite !bool_decide_false by done. done.
Qed.
(** Encoded bytes: digits, and the padding their number calls for. *)
Lemma b64_digits raw : exists l pad, Npm.b64_encode raw = digits l +:+ pad /\ below_64 l
  /\ (forall s, String.length s = length l -> padding s = Some pad) /\ trim_right_char pad "="%char = "".
Proof.
  induction raw as [|a|a b|a b c s (l & pad & E & Hl & Hp & Ht)] using NpmTheory.NpmTheory.three_ind; cbn [Npm.b64_encode].
  - exists [], "". split_and!; [done|constructor| |done]. by intros [|].
  - exists [Ascii.N_of_ascii a / 4; Ascii.N_of_ascii a mod 4 * 16]%N, "==". split_and!; [done| | |done].
    + repeat constructor; NpmTheory.NpmTheory.bits.
    + intros s Hs. unfold padding. by rewrite Hs.
  - eexists [_; _; _], "=". split_and!; [reflexivity| | |done].
    + repeat constructor; NpmTheory.NpmTheory.bits.
    + intros s Hs. unfold padding. by rewrite Hs.
  - rewrite E. eexists (_ :: _ :: _ :: _ :: l), pad. split_and!; [reflexivity| | |done].
    + repeat constructor; try NpmTheory.NpmTheory.bits. done.
    + intros s' Hs. specialize (Hp (digits l)). unfold padding in *. rewrite Hs. clear Hs.
      assert (String.length (digits l) = length l) as Hlen by (clear; induction l; simpl; auto).
      rewrite Hlen in Hp. specialize (Hp eq_refl). cbn [length].
      replace (S (S (S (S (length l))))) with (length l + 1 * 4)%nat by lia. by rewrite Nat.Div0.mod_add.
Qed.
Lemma trim_right_pad s pad c : trim_right_char pad c = "" -> contains_char s c = false -> trim_right_char (s +:+ pad) c = s.
Proof.
  intros Hp. induction s as [|d s IH]; [done|]. intros [Hd Hs]%orb_false_iff. apply bool_decide_eq_false in Hd.
  change (String d s +:+ pad) with (String d (s +:+ pad)). cbn [trim_right_char]. rewrite IH by done.
  destruct s; [by rewrite decide_False|done].
Qed.
(** A location is read back from its encoding, which is one path segment. *)
Lemma location_roundtrip raw :
  raw_url_decode (encodeLocation raw) = Some raw /\ contains_char (encodeLocation raw) "/"%char = false.
Proof.
  unfold encodeLocation. destruct (b64_digits raw) as (l & pad & E & Hl & Hp & Ht). rewrite E.
  rewrite trim_right_pad by (try apply digits_free; done || by left).
  destruct (digits_url l Hl) as (Hs & Ha & Hn & H1 & H2 & H3). split; [|done].
  unfold raw_url_decode, Npm.drop_newlines. rewrite !(NpmTheory.NpmTheory.replace_char_id _ _ _ H1), !(NpmTheory.NpmTheory.replace_char_id _ _ _ H2).
  rewrite Ha, (Hp _ Hn), Hs. cbn [mbind option_bind]. rewrite <-E. apply NpmTheory.NpmTheory.b64_roundtrip.
Qed.

(** A chart that an index puts elsewhere is asked for here, and the request
    leads to the location the index gave. *)
Theorem helm_location_leads_back external_url url_parse f up raw u r :
  raw <> "" -> url_parse raw = Some u -> u_abs u = true -> u_scheme u = "http" \/ u_scheme u = "https" ->
  has_prefix raw (trim_suffix up "/" +:+ "/") = false ->
  let file := path_base (u_escaped u) in
  file <> "." -> contains_char file "/"%char = false -> (splitChartFile file).1 <> "" ->
  exists path, chartURL external_url url_parse f up raw = feedBase external_url f +:+ "/" +:+ path
    /\ (Contains path ".." = false -> rq_path r = "/" +:+ path ->
        exists i, Parse url_parse r = Ok i /\ i_kind i = IntentArtifact /\ i_path i = path /\ i_url i = u_text u).
Proof.
  intros Hraw Hu Ha Hs Hup file Hdot Hflat Hname. exists (remotePrefix +:+ encodeLocation raw +:+ "/" +:+ file).
  assert (file <> "") as Hne by (intros E; rewrite E in Hname; done).
  destruct (location_roundtrip raw) as [Hback Hseg]. split.
  - unfold chartURL. rewrite Hu, Ha. cbn [negb]. rewrite Hup. rewrite decide_False by (by intros [_ ?]).
    rewrite decide_False; [done|]. fold file. intros [?|[?|E]]; [done..|]. by rewrite E in Hflat.
  - intros Hd Hr. unfold Parse. rewrite Hr, trim_prefix_app, Hd. rewrite decide_False by (intros [?|?]; done).
    rewrite decide_False by done. rewrite decide_False by (intros [?|?]; done).
    change (has_prefix (remotePrefix +:+ _) chartsPrefix) with false. rewrite has_prefix_app_r, trim_prefix_app. cbn iota.
    change ("/" +:+ file) with (String "/" file). rewrite Cut_char_app by done. rewrite decide_False.
    2: { intros [E|[E|E]]; [|done|congruence]. rewrite E in Hback. vm_compute in Hback. congruence. }
    unfold decodeLocation. rewrite Hback. cbn [mbind option_bind]. rewrite Hu. cbn [mbind option_bind].
    rewrite decide_True by done. unfold chartIntent. rewrite decide_False by (intros [?|?]; congruence).
    destruct (splitChartFile file) as [n v]. rewrite decide_False by done. eexists. done.
Qed.

(** ** Publishing *)

Section publishing.
Context (external_url : Feed -> string) (marshal_index : chartIndex -> string).
Context (multipart : HttpReq -> option (gmap string string)) (untar : string -> option (list tar_entry)).
Context (unmarshal_chart : string -> option (string * string)) (unmarshal_map : string -> option (gmap string json)).
Context {GR : GoRuntime} (digest : string -> string -> string) (now : Z) (published_at : string -> Z).
Notation HandlePublish := (HandlePublish external_url marshal_index multipart untar unmarshal_chart unmarshal_map digest now published_at).

Lemma sort_rows_publishes ms archives metadata : publishes (fun _ => False) (sort_rows ms archives metadata).
Proof.
  revert archives metadata. induction ms as [|m ms IH]; intros archives metadata; simpl; [done|].
  destruct (has_prefix _ _); [by intros [o|e]; [apply IH|]|]. destruct (is_archive _); apply IH.
Qed.
Lemma reindex_publishes f : publishes (fun _ => False) (Reindex external_url marshal_index unmarshal_map now published_at f).
Proof.
  intros [ms|e]; [|done]. apply publishes_bind; [apply sort_rows_publishes|]. intros [[archives metadata]|e]; [|done].
  destruct (stored_charts _ _ _ _); [|done]. by intros [e|].
Qed.

(** What an upload publishes: the archive, the document in it, a signature. *)
Inductive helm_publishes (f : Feed) (meta : chartMeta) : PublishRequest -> Prop :=
| PubFile sig body m : sig = "" \/ sig = ".prov" ->
    helm_publishes f meta (mkPublish f (helm_coord (cm_name meta) (cm_version meta))
      (chartsPrefix +:+ chartFile (cm_name meta) (cm_version meta) +:+ sig) (digest "sha256" body)
      (Z.of_nat (String.length body)) ∅ "" false m)
| PubDoc :
    helm_publishes f meta (mkPublish f (helm_coord (cm_name meta) (cm_version meta))
      (hostedPrefix +:+ cm_name meta +:+ "/" +:+ cm_version meta +:+ ".yaml") (digest "sha256" (cm_raw meta))
      (Z.of_nat (String.length (cm_raw meta))) ∅ "" true None).

Lemma helm_publishes_stage {A} P body (k : string -> presult A) :
  publishes P (k (digest "sha256" body)) -> publishes P (ptry (stage digest body) k).
Proof. intros Hk. unfold stage, ptry. cbn [pbind publishes]. intros [e|]; done. Qed.
Lemma helm_publishes_staged (P : PublishRequest -> Prop) f c path body sha mutable m :
  P (mkPublish f c path sha (Z.of_nat (String.length body)) ∅ "" mutable m) ->
  publishes P (publish_staged f c path body sha mutable m).
Proof. intros HP. split; [done|]. by intros [?|?]. Qed.

Lemma helm_upload_publishes f r :
  publishes (fun q => exists chart prov meta, readUpload multipart r = Ok (chart, prov)
      /\ chartMetadata untar unmarshal_chart chart = Ok meta
      /\ cm_name meta <> "" /\ cm_version meta <> "" /\ helm_publishes f meta q)
    (HandlePublish f r).
Proof.
  unfold Helm.HandlePublish. case_decide; [done|]. case_decide; [done|]. destruct (readUpload multipart r) as [[chart prov]|e] eqn:Er; [|done].
  destruct (chartMetadata _ _ chart) as [meta|e] eqn:Em; [|done]. case_decide as Hn; [done|].
  set (P := fun q => _). assert (forall q, helm_publishes f meta q -> P q) as HP.
  { intros q Hq. exists chart, prov, meta. split_and!; try done; intros E; apply Hn; auto. }
  assert (chartsPrefix +:+ chartFile (cm_name meta) (cm_version meta)
          = chartsPrefix +:+ chartFile (cm_name meta) (cm_version meta) +:+ "") as Hnil by by rewrite str_app_nil_r.
  apply helm_publishes_stage, publishes_try.
  { apply helm_publishes_staged, HP. rewrite Hnil. apply PubFile. by left. }
  intros _. apply publishes_try.
  { apply helm_publishes_stage, helm_publishes_staged, HP, PubDoc. }
  intros _. apply publishes_try.
  { case_decide; [done|]. apply helm_publishes_stage, helm_publishes_staged, HP. rewrite <-str_app_assoc. apply PubFile. by right. }
  intros _. apply publishes_bind; [eapply publishes_mono; [|apply reindex_publishes]; done|]. by intros [e|].
Qed.
#[global] Instance helm_laws : HosterLaws
  (hoster external_url marshal_index multipart untar unmarshal_chart unmarshal_map digest now published_at).
Proof.
  split; simpl.
  - intros f r. eapply publishes_mono; [|apply helm_upload_publishes]. by intros q (? & ? & ? & _ & _ & _ & _ & []).
  - intros f. apply reindex_publishes.
Qed.

(** A published chart can be downloaded, and what it is judged by. Every file
    an upload publishes as a release is found by a request for its path; the
    coordinate of that request, which takedowns, policies and access rules are
    asked about, is the coordinate published exactly when the chart's name has
    no dash before a digit and its version starts with a digit. *)
Theorem helm_release_found url_parse f r :
  publishes (fun q => pr_feed q = f /\ (pr_mutable q = false ->
      exists name version, pr_coord q = helm_coord name version /\
        (contains_char name "/"%char = false -> contains_char version "/"%char = false ->
         (forall b, cut_dash_digit name <> Some ("", b)) -> Contains (pr_path q) ".." = false ->
         forall r', rq_path r' = "/" +:+ pr_path q ->
           exists i, Parse url_parse r' = Ok i /\ i_kind i = IntentArtifact /\ i_path i = pr_path q
             /\ (i_coord i = pr_coord q <-> cut_dash_digit name = None /\ starts_with_digit version = true))))
    (HandlePublish f r).
Proof.
  eapply publishes_mono; [|apply helm_upload_publishes]. simpl. intros q (chart & prov & meta & _ & _ & Hn & Hv & Hq).
  destruct Hq as [sig body m Hs|]; (split; [done|]); simpl; [|done]. intros _.
  exists (cm_name meta), (cm_version meta). split; [done|]. intros H1 H2 H3 H4 r' Hr.
  destruct (chart_found url_parse r' (cm_name meta) (cm_version meta) sig) as (i & ? & ? & ? & _ & ?); try done. eauto.
Qed.
End publishing.

(** So a takedown or a rule that names a chart as it was published does not
    meet the requests for it: a version with a leading [v], a name with a
    number. *)
Theorem helm_coordinate_differs url_parse :
  let got file := match Parse url_parse (mkHttp "GET" ("/charts/" +:+ file) ∅ "" "") with Ok i => coord_string (i_coord i) | Err _ => "" end in
  got (chartFile "app" "1.0.0") = coord_string (helm_coord "app" "1.0.0")
  /\ got (chartFile "app" "v1.0.0") = "helm:app-v1.0.0" /\ coord_string (helm_coord "app" "v1.0.0") = "helm:app@v1.0.0"
  /\ got (chartFile "game-2048" "1.0.0") = "helm:game@2048-1.0.0"
  /\ coord_string (helm_coord "game-2048" "1.0.0") = "helm:game-2048@1.0.0".
Proof. done. Qed.

(** ** The generated index *)

Lemma append_fold {A B} (name : A -> string) (entry : A -> B) (l : list A) (m : gmap string (list B)) n :
  default [] (foldl (fun m c => append_entry (name c) (entry c) m) m l !! n)
  = default [] (m !! n) ++ (entry <$> filter (fun c => name c = n) l).
Proof.
  revert m. induction l as [|c l IH]; intros m; simpl; [by rewrite app_nil_r|]. rewrite IH, filter_cons.
  unfold append_entry. destruct (decide (name c = n)) as [<-|Hne].
  - rewrite lookup_insert_eq. simpl. by rewrite <-app_assoc.
  - by rewrite lookup_insert_ne.
Qed.
Lemma append_fold_dom {A B} (name : A -> string) (entry : A -> B) (l : list A) (m : gmap string (list B)) n :
  is_Some (foldl (fun m c => append_entry (name c) (entry c) m) m l !! n)
  <-> is_Some (m !! n) \/ exists c, c ∈ l /\ name c = n.
Proof.
  revert m. induction l as [|c l IH]; intros m; simpl; [set_solver|]. rewrite IH. unfold append_entry.
  rewrite lookup_insert_is_Some. split.
  - intros [[<-|[_ ?]]|(c' & ? & ?)]; [right; exists c; set_solver|by left|right; exists c'; set_solver].
  - intros [?|(c' & [->|?]%elem_of_cons & Hc)].
    + left. destruct (decide (name c = n)); [by left|by right].
    + left. by left.
    + right. by exists c'.
Qed.
Lemma sortEntries_perm l : sortEntries l ≡ₚ l.
Proof. apply insertion_sort_perm. Qed.

Section index.
Context (external_url : Feed -> string) (unmarshal_map : string -> option (gmap string json)) (published_at : string -> Z).

(** The charts of the index are the archives, one for one. *)
Lemma stored_charts_spec metadata l charts : stored_charts unmarshal_map published_at metadata l = Ok charts ->
  Forall2 (fun (km : string * hosted) c => sc_name c = c_name km.2.1.2 /\ sc_version c = c_version km.2.1.2
    /\ sc_digest c = h_sha256 km.2.2
    /\ sc_metadata c = match metadata !! km.1 with Some raw => default ∅ (unmarshal_map raw) | None => ∅ end) l charts.
Proof.
  revert charts. induction l as [|[key m] l IH]; intros charts; cbn [stored_charts]; [by intros [= <-]|].
  intros (doc & Hd & (rest & Hr%IH & [= <-])%rbind_Ok)%rbind_Ok. constructor; [|done]. simpl. do 3 (split; [done|]).
  destruct (metadata !! key) as [raw|]; [|by injection Hd as <-]. destruct (unmarshal_map raw); [by injection Hd as <-|done].
Qed.

(** The index is right. It lists every chart that has an archive under its
    name, exactly as many entries as archives; each entry gives the version,
    the digest the archive is stored under, and a URL whose path, where this
    feed is mounted, is the one the archive was published at; whatever else
    the chart said of itself stays, and cannot change these. *)
Theorem helm_index_exact {GR : GoRuntime} f metadata (archives : gmap string hosted) charts :
  stored_charts unmarshal_map published_at metadata (visit (map_to_list archives)) = Ok charts ->
  let entries := index_entries external_url f (gosort chart_less charts) in
  (forall name, is_Some (entries !! name) <-> exists key m, archives !! key = Some m /\ c_name m.1.2 = name)
  /\ (forall name, length (default [] (entries !! name))
       = length (filter (fun km : string * hosted => c_name km.2.1.2 = name) (map_to_list archives)))
  /\ forall key m, archives !! key = Some m -> exists e, e ∈ default [] (entries !! c_name m.1.2)
       /\ version_of e = c_version m.1.2 /\ e !! "digest" = Some (JStr (h_sha256 m.2)) /\ str (e !! "name") = c_name m.1.2
       /\ e !! "urls" = Some (JArr [JStr (feedBase external_url f +:+ "/" +:+ chartsPrefix
                                          +:+ chartFile (c_name m.1.2) (c_version m.1.2))]).
Proof.
  intros Hc entries. pose proof (stored_charts_spec _ _ _ Hc) as F2. set (l := visit (map_to_list archives)) in *.
  assert (l ≡ₚ map_to_list archives) as Hl by apply visit_perm.
  assert (gosort chart_less charts ≡ₚ charts) as Hs by apply gosort_perm.
  assert (forall name, default [] (entries !! name) ≡ₚ index_entry (feedBase external_url f) <$> filter (fun c => sc_name c = name) charts) as He.
  { intros name. unfold entries, index_entries. rewrite lookup_fmap.
    pose proof (append_fold sc_name (index_entry (feedBase external_url f)) (gosort chart_less charts) ∅ name) as Hf.
    rewrite lookup_empty in Hf. simpl in Hf. destruct (foldl _ _ _ !! name); simpl in *; [rewrite sortEntries_perm|]; rewrite Hf; by rewrite Hs. }
  assert (forall key m, archives !! key = Some m <-> (key, m) ∈ l) as Hin by (intros; by rewrite Hl, elem_of_map_to_list).
  split_and!.
  - intros name. unfold entries, index_entries. rewrite lookup_fmap, fmap_is_Some, append_fold_dom, lookup_empty. split.
    + intros [[? ?]|(c & Hin' & <-)]; [done|]. rewrite Hs in Hin'. apply list_elem_of_lookup in Hin' as [i Hi].
      destruct (Forall2_lookup_r _ _ _ _ _ F2 Hi) as ([key m] & Hk & Hn & _). exists key, m. split; [|done].
      apply Hin. by eapply list_elem_of_lookup_2.
    + intros (key & m & Hm%Hin & <-). right. apply list_elem_of_lookup in Hm as [i Hi].
      destruct (Forall2_lookup_l _ _ _ _ _ F2 Hi) as (c & Hk & Hn & _). exists c. rewrite Hs. split; [|done].
      by eapply list_elem_of_lookup_2.
  - intros name. rewrite (He name), length_fmap. rewrite <-Hl. clear -F2.
    induction F2 as [|[key m] c l charts (Hn & _) F2 IH]; [done|]. rewrite !filter_cons. simpl in *.
    destruct (decide (sc_name c = name)), (decide (c_name m.1.2 = name)); simpl; congruence.
  - intros key m Hm%Hin. apply list_elem_of_lookup in Hm as [i Hi].
    destruct (Forall2_lookup_l _ _ _ _ _ F2 Hi) as (c & Hk & Hn & Hv & Hd & _). cbn [fst snd] in *.
    exists (index_entry (feedBase external_url f) c). split.
    { rewrite He. apply list_elem_of_fmap. exists c. split; [done|]. apply list_elem_of_filter. split; [done|].
      by eapply list_elem_of_lookup_2. }
    unfold index_entry, version_of. rewrite <-Hv, <-Hd, <-Hn.
    case_decide; simplify_map_eq; done.
Qed.
End index.

(** ** Groups *)

Abbreviation index_map := (gmap string (list (gmap string json))).
Abbreviation merged := (gmap string (list (gmap string json)) * gset string)%type.
Definition offers (m : index_map) (name : string) (e : gmap string json) : Prop := e ∈ default [] (m !! name).
Definition entry_key (name : string) (e : gmap string json) : string := name +:+ "@" +:+ version_of e.
(** What is merged so far: the keys seen are those of its entries, and a name
    has a version once. *)
Definition merged_ok (acc : merged) : Prop :=
  (forall k, k ∈ acc.2 <-> exists name e, offers acc.1 name e /\ entry_key name e = k)
  /\ forall name, NoDup (version_of <$> default [] (acc.1 !! name)).
(** What merging a source into it does: nothing is lost, what is new comes
    from the source under keys not seen before, every key of the source is seen. *)
Definition merges (src : string -> gmap string json -> Prop) (acc acc' : merged) : Prop :=
  merged_ok acc'
  /\ (forall n e, offers acc.1 n e -> offers acc'.1 n e)
  /\ (forall n e, offers acc'.1 n e -> offers acc.1 n e \/ (src n e /\ entry_key n e ∉ acc.2))
  /\ (forall n e, src n e -> entry_key n e ∈ acc'.2).

Lemma merged_seen acc acc' src k : merged_ok acc -> merges src acc acc' -> k ∈ acc.2 -> k ∈ acc'.2.
Proof. intros [H _] ([H' _] & Hm & _) (n & e & Ho & <-)%H. apply H'. exists n, e. auto. Qed.
Lemma merges_seq src1 src2 acc1 acc2 acc3 : merged_ok acc1 -> merges src1 acc1 acc2 -> merges src2 acc2 acc3 ->
  merges (fun n e => src1 n e \/ src2 n e) acc1 acc3.
Proof.
  intros H1 M1 M2. pose proof M1 as (H2 & Hm1 & Hn1 & Hs1). pose proof M2 as (H3 & Hm2 & Hn2 & Hs2). split_and!; [done|auto| |].
  - intros n e [[?|[? ?]]%Hn1|[? Hk]]%Hn2; [by left|right; auto|]. right. split; [by right|]. intros Hin. apply Hk.
    by eapply (merged_seen acc1 acc2).
  - intros n e [Hs|Hs]; [|by apply Hs2]. by eapply (merged_seen acc2 acc3), Hs1.
Qed.
Lemma merges_none acc : merged_ok acc -> merges (fun _ _ => False) acc acc.
Proof. intros H. split_and!; auto; done. Qed.
Lemma merges_iff (src src' : string -> gmap string json -> Prop) acc acc' :
  (forall n e, src n e <-> src' n e) -> merges src acc acc' -> merges src' acc acc'.
Proof.
  intros Hs (H1 & H2 & H3 & H4). split_and!; [done..| |].
  - intros n e [?|[?%Hs ?]]%H3; [by left|by right].
  - intros n e ?%Hs. by apply H4.
Qed.

Lemma offers_append name e m n e' :
  offers (append_entry name e m) n e' <-> offers m n e' \/ (n = name /\ e' = e).
Proof.
  unfold offers, append_entry. destruct (decide (name = n)) as [<-|Hne].
  - rewrite lookup_insert_eq. simpl. rewrite elem_of_app, list_elem_of_singleton. naive_solver.
  - rewrite lookup_insert_ne by done. naive_solver.
Qed.
Lemma merge_entry_ok name acc e : merged_ok acc -> merges (fun n e' => n = name /\ e' = e) acc (merge_entry name acc e).
Proof.
  intros [Hk Hn]. unfold merge_entry. fold (entry_key name e). case_decide as Hin.
  { split_and!; [done|auto|auto|]. by intros n e' [-> ->]. }
  split_and!.
  - split; cbn [fst snd].
    + intros k. rewrite elem_of_union, elem_of_singleton, Hk. setoid_rewrite offers_append. split.
      * intros [->|(n & e' & ? & ?)]; [exists name, e; auto|exists n, e'; auto].
      * intros (n & e' & [?|[-> ->]] & <-); [right; by exists n, e'|by left].
    + intros n. unfold append_entry. destruct (decide (name = n)) as [<-|Hne]; [|rewrite lookup_insert_ne by done; apply Hn].
      rewrite lookup_insert_eq. simpl. rewrite fmap_app. apply NoDup_app. split; [apply Hn|]. split; [|apply NoDup_singleton].
      intros v (e' & -> & He')%list_elem_of_fmap Hv%list_elem_of_singleton. apply Hin, Hk. exists name, e'. split; [done|].
      unfold entry_key. by rewrite Hv.
  - intros n e' Ho. cbn [fst]. apply offers_append. by left.
  - intros n e' [?|[-> ->]]%offers_append; [by left|]. right. auto.
  - intros n e' [-> ->]. cbn [snd]. set_solver.
Qed.
Lemma merge_name_ok acc name l : merged_ok acc -> merges (fun n e => n = name /\ e ∈ l) acc (merge_name acc (name, l)).
Proof.
  unfold merge_name. cbn [fst snd]. revert acc. induction l as [|e l IH]; intros acc Ha; simpl.
  - eapply merges_iff; [|by apply merges_none]. intros n e. split; [done|]. by intros [_ ?%elem_of_nil].
  - pose proof (merge_entry_ok name acc e Ha) as M. eapply merges_iff; [|eapply merges_seq; [exact Ha|exact M|apply IH; by destruct M]].
    intros n e'. rewrite elem_of_cons. simpl. naive_solver.
Qed.
Lemma merge_entries_ok {GR : GoRuntime} acc (entries : index_map) : merged_ok acc -> merges (offers entries) acc (merge_entries acc entries).
Proof.
  unfold merge_entries. intros Ha. assert (forall n e, offers entries n e <-> exists l, (n, l) ∈ visit (map_to_list entries) /\ e ∈ l) as Ho.
  { intros n e. unfold offers. setoid_rewrite visit_perm. setoid_rewrite elem_of_map_to_list. split.
    - destruct (entries !! n) as [l|]; simpl; [eauto|]. by intros ?%elem_of_nil.
    - by intros (l & -> & ?). }
  eapply merges_iff; [intros n e; symmetry; apply Ho|]. clear Ho. generalize (visit (map_to_list entries)). clear entries.
  intros kvs. revert acc Ha. induction kvs as [|[name l] kvs IH]; intros acc Ha; simpl.
  - eapply merges_iff; [|by apply merges_none]. intros n e. split; [done|]. by intros (? & ?%elem_of_nil & _).
  - pose proof (merge_name_ok acc name l Ha) as M. eapply merges_iff; [|eapply merges_seq; [exact Ha|exact M|apply IH; by destruct M]].
    intros n e. setoid_rewrite elem_of_cons. simpl. split.
    + intros [[-> ?]|(l' & ? & ?)]; eauto.
    + intros (l' & [[= -> ->]|?] & ?); eauto.
Qed.

(** What a member's index offers. *)
Definition part_offers (unmarshal_index : string -> option chartIndex) (part : string * string) (n : string) (e : gmap string json) : Prop :=
  exists index, unmarshal_index part.2 = Some index /\ offers (default ∅ (ci_entries index)) n e.
Lemma merge_indexes_ok unmarshal_index {GR : GoRuntime} parts acc acc' :
  merged_ok acc -> merge_indexes unmarshal_index parts acc = Some acc' ->
  merged_ok acc' /\ (forall k, k ∈ acc.2 -> k ∈ acc'.2)
  /\ (forall p n e, p ∈ parts -> part_offers unmarshal_index p n e -> entry_key n e ∈ acc'.2)
  /\ forall n e, offers acc'.1 n e -> offers acc.1 n e \/ (entry_key n e ∉ acc.2 /\
       exists l1 p l2, parts = l1 ++ p :: l2 /\ part_offers unmarshal_index p n e
         /\ forall p' n' e', p' ∈ l1 -> part_offers unmarshal_index p' n' e' -> entry_key n' e' <> entry_key n e).
Proof.
  revert acc. induction parts as [|[name body] parts IH]; intros acc Ha; cbn [merge_indexes].
  { intros [= <-]. split_and!; [done|done| |by left]. by intros p n e ?%elem_of_nil. }
  destruct (unmarshal_index body) as [index|] eqn:Eu; [|done]. intros Hm.
  pose proof (merge_entries_ok acc (default ∅ (ci_entries index)) Ha) as M. set (acc1 := merge_entries acc _) in *.
  pose proof M as (Ha1 & _ & Hn & Hs). destruct (IH _ Ha1 Hm) as (I1 & I2 & I3 & I4).
  assert (forall n e, part_offers unmarshal_index (name, body) n e <-> offers (default ∅ (ci_entries index)) n e) as Hp.
  { intros n e. unfold part_offers. cbn [snd]. rewrite Eu. split; [by intros (? & [= <-] & ?)|eauto]. }
  split_and!; [done| | |].
  - intros k Hk. by eapply I2, (merged_seen acc acc1).
  - intros p n e [->|Hin]%elem_of_cons Ho; [|by eapply I3]. by apply I2, Hs, Hp.
  - intros n e [Ho|[Hk (l1 & p & l2 & -> & Ho & Hfirst)]]%I4.
    + apply Hn in Ho as [?|[Ho Hk]]; [by left|]. right. split; [done|]. exists [], (name, body), parts.
      split; [done|]. split; [by apply Hp|]. by intros ? ? ? ?%elem_of_nil.
    + right. split; [intros Hin; by eapply Hk, (merged_seen acc acc1)|]. exists ((name, body) :: l1), p, l2. split; [done|]. split; [done|].
      intros p' n' e' [->|Hin]%elem_of_cons Ho'; [|by eapply Hfirst]. intros E. apply Hk. rewrite <-E. by apply Hs, Hp.
Qed.

(** A group's index keeps the members' order of trust: every entry is one a
    member gave, and no earlier member gives one of the same name and version;
    every name and version some member gives is there, once. *)
Theorem helm_group_precedence (unmarshal_index : string -> option chartIndex) (marshal_index : chartIndex -> string) {GR : GoRuntime} parts body :
  mergeIndex unmarshal_index marshal_index parts = Ok body ->
  exists entries : index_map, body = marshal_index (mkIndex "v1" (Some entries) "" ∅)
    /\ (forall name, NoDup (version_of <$> default [] (entries !! name)))
    /\ (forall n e, offers entries n e -> exists l1 p l2, parts = l1 ++ p :: l2 /\ part_offers unmarshal_index p n e
          /\ forall p' n' e', p' ∈ l1 -> part_offers unmarshal_index p' n' e' -> entry_key n' e' <> entry_key n e)
    /\ forall p n e, p ∈ parts -> part_offers unmarshal_index p n e -> exists n' e', offers entries n' e' /\ entry_key n' e' = entry_key n e.
Proof.
  unfold mergeIndex. destruct (merge_indexes unmarshal_index parts (∅, ∅)) as [acc|] eqn:E; [|done]. intros [= <-].
  destruct (merge_indexes_ok unmarshal_index parts (∅, ∅) acc) as ((Hk & Hn) & _ & Hall & Hfirst); [|done|].
  { split; cbn [fst snd].
    - intros k. split; [set_solver|]. intros (n & e & Ho & _). unfold offers in Ho. rewrite lookup_empty in Ho. by apply elem_of_nil in Ho.
    - intros n. rewrite lookup_empty. constructor. }
  assert (forall n, default [] ((sortEntries <$> acc.1) !! n) ≡ₚ default [] (acc.1 !! n)) as Hp.
  { intros n. rewrite lookup_fmap. destruct (acc.1 !! n); [apply sortEntries_perm|done]. }
  exists (sortEntries <$> acc.1). split; [done|]. split_and!.
  - intros name. rewrite (Hp name). apply Hn.
  - intros n e Ho. unfold offers in Ho. rewrite Hp in Ho. apply Hfirst in Ho as [Ho|[_ ?]]; [|done].
    unfold offers in Ho. cbn [fst] in Ho. rewrite lookup_empty in Ho. by apply elem_of_nil in Ho.
  - intros p n e Hin Ho. destruct (proj1 (Hk (entry_key n e)) (Hall p n e Hin Ho)) as (n' & e' & Ho' & He).
    exists n', e'. split; [|done]. unfold offers. by rewrite Hp.
Qed.

(** A group cannot answer for one version of a chart: the member that has it
    answers with an object, which is neither shape the merge reads. *)
Theorem helm_group_version_fails unmarshal_index marshal_index {GR : GoRuntime} (marshal : json -> string)
    (unmarshal_list : string -> option (list (gmap string json)))
    (unmarshal_lists : string -> option (gmap string (list (gmap string json)))) f i member what name version charts c parts :
  (forall j, marshal j <> "") -> (forall fs, unmarshal_list (marshal (JObj fs)) = None) ->
  (forall fs k s, (k, JStr s) ∈ fs -> unmarshal_lists (marshal (JObj fs)) = None) ->
  i_kind i = IntentSearch -> Trim what "/"%char = name +:+ String "/" version ->
  contains_char name "/"%char = false -> name <> "" -> version <> "" ->
  c ∈ charts -> sc_name c = name -> sc_version c = version ->
  let part := answer marshal what charts in
  sy_status part = 200 /\ ((member, sy_body part) ∈ parts ->
    Merge unmarshal_index marshal_index marshal unmarshal_list unmarshal_lists f i parts = Err (ErrOther "parse chart listing")).
Proof.
  intros Hne Hl Hm Hi Hw Hflat Hn Hv Hc Hcn Hcv part.
  assert (exists c', part = jsonResponse marshal 200 (of_map (listingEntry c'))) as [c' ->].
  { subst part. unfold answer. rewrite Hw. rewrite decide_False by (by destruct name). unfold cut3. rewrite Cut_char_app by done.
    rewrite decide_False by done. rewrite decide_False by done.
    destruct (list_find _ charts) as [[n c']|] eqn:E; [by exists c'|]. exfalso.
    apply list_find_None in E. rewrite Forall_forall in E. by eapply E. }
  split; [done|]. intros Hin. unfold Merge. rewrite Hi. unfold mergeListing.
  assert (forall acc, merge_listings unmarshal_list unmarshal_lists parts acc = None) as ->; [|done].
  revert Hin. induction parts as [|[m body] parts IH]; [by intros ?%elem_of_nil|]. intros [[= <- <-]|Hin]%elem_of_cons acc; simpl.
  - unfold merge_part, jsonResponse, Npm.of_map. cbn [sy_body]. rewrite decide_False by apply Hne. rewrite Hl, (Hm _ "name" (sc_name c')); [done|].
    rewrite by_key_perm, elem_of_map_to_list. unfold listingEntry. case_decide; by simplify_map_eq.
  - destruct (merge_part _ _ _ _); [by apply IH|done].
Qed.

(** The generated index is not a function of the rows alone: it carries the
    time it was built at. *)
Theorem helm_index_carries_time external_url (marshal_index : chartIndex -> string) f charts t1 t2 :
  Inj (=) (=) marshal_index -> format_rfc3339 t1 <> format_rfc3339 t2 ->
  buildIndex external_url marshal_index f charts t1 <> buildIndex external_url marshal_index f charts t2.
Proof. intros Hinj Ht E. apply Ht. by apply Hinj in E as [= ->]. Qed.
End Helm.
