(* ===== verification/Composer.v ===== *)
(** * The Composer module ([modules/format/composer])

    The paths of a Composer repository; rewriting a proxied document so that
    archives are fetched here; what a document says of a version; uploads,
    the generated documents, search, merging in groups. JSON text, zip
    archives and [url.Parse] are parameters; a decoded value is a [json]. *)

From S2P Require Import Prelude GoLib Semver State StateTheory Events Store Pipeline Publisher Policies Auth Server WriteRoutes ModLib Oci OciListings Maven Npm NpmTheory Helm.
Open Scope Z_scope.

Module Composer.
Import Server WriteRoutes.
Abbreviation obj_map := Npm.obj_map.
Abbreviation of_map := Npm.of_map.
Abbreviation as_map := Npm.as_map.
Abbreviation as_string := Npm.as_string.
Abbreviation field_of := Npm.field_of.
Abbreviation query_ok := OciListings.query_ok.
Abbreviation URL := Helm.URL.
Notation hosted := (string * PackageCoordinate * HostedRow)%type.

(** ** Paths ([composer.go]) *)

Definition metadataTTL : Z := 5 * Minute.
Definition searchPath : string := "search.json".
Definition searchTTL : Z := Minute.
Definition distPrefix : string := "dists/".
Definition hostedDistPrefix : string := "packages/".
Definition hostedStatePrefix : string := "-hosted/".
Definition not_found (why : string) : api_error * string := (ErrNotFound, why).
Definition composer_coord (name version : string) : PackageCoordinate := mkCoord "composer" name version.

(** [parseUploadPath]. *)
Definition forbidden_chars : list Ascii.ascii := ["\"; ":"; "*"; "?"; "034"; "<"; ">"; "|"]%char.
Definition bad_segment (s : string) : bool :=
  bool_decide (s = "" \/ s = "." \/ s = "..") || existsb (contains_char s) forbidden_chars.
Definition parseUploadPath (p : string) : result (api_error * string) (string * string * string) :=
  let rest := trim_prefix p hostedDistPrefix in
  if decide (rest = p) then Err (ErrBadRequest, "upload path")
  else match split rest "/"%char with
  | [vendor; name; file] =>
      if negb (has_suffix file ".zip") then Err (ErrBadRequest, "upload path")
      else
        let version := trim_suffix file ".zip" in
        if existsb bad_segment [vendor; name; version] then Err (ErrBadRequest, "invalid upload path")
        else Ok (vendor, name, version)
  | _ => Err (ErrBadRequest, "upload path")
  end.

Definition encodeDistLocation (distURL : string) : string := Helm.encodeLocation distURL.
Definition distCoordinateFromFile (file : string) : string :=
  let name := trim_suffix file ".zip" in
  match cut_last "-" name with
  | Some (String _ _ as a, _) => a
  | _ => name
  end.

Section composer.
Context (external_url : Feed -> string) (url_parse : string -> option URL).
(** [json.Unmarshal] into [any], [json.Marshal] and [json.MarshalIndent]. *)
Context (unmarshal : string -> option json) (marshal marshal_indent : json -> string).
Context {GR : GoRuntime}.

Definition decodeDistLocation (encoded : string) : option string :=
  raw ← Helm.raw_url_decode encoded; u ← url_parse raw;
  if decide (Helm.u_abs u = true /\ (Helm.u_scheme u = "http" \/ Helm.u_scheme u = "https")) then Some (Helm.u_text u) else None.

(** [Parse]. *)
Definition Parse (r : HttpReq) : result (api_error * string) Intent :=
  let p := trim_prefix (rq_path r) "/" in
  if decide (p = "" \/ Contains p ".." = true) then Err (not_found "invalid path")
  else if decide (p = searchPath) then
    Ok (mkIntent IntentSearch (composer_coord "search" "") searchTTL searchPath no_checksum (mkSource "" "") "" false ""
          "application/json" (rq_query r) "")
  else if decide (p = "packages.json") then
    Ok (mkIntent IntentMetadata (composer_coord "packages.json" "") metadataTTL p no_checksum (mkSource "" "") "" false ""
          "application/json" "" "")
  else if has_prefix p "p2/" && has_suffix p ".json" then
    let name := trim_suffix (trim_suffix (trim_prefix p "p2/") ".json") "~dev" in
    match Cut name "/" with
    | Some (vendor, pkg) =>
        if decide (vendor = "" \/ pkg = "" \/ contains_char pkg "/"%char = true) then Err (not_found "not a composer package path")
        else Ok (mkIntent IntentMetadata (composer_coord name "") metadataTTL p no_checksum (mkSource "" "") "" false ""
                   "application/json" "" "")
    | None => Err (not_found "not a composer package path")
    end
  else if has_prefix p hostedDistPrefix then
    match parseUploadPath p with
    | Err _ => Err (not_found "not a hosted package path")
    | Ok (vendor, name, version) =>
        Ok (mkIntent IntentArtifact (composer_coord (vendor +:+ "/" +:+ name) version) 0 p no_checksum (mkSource "" "") "" false ""
              "application/zip" "" "")
    end
  else if has_prefix p distPrefix then
    match Cut (trim_prefix p distPrefix) "/" with
    | None => Err (not_found "not a composer dist path")
    | Some (encoded, file) =>
        if decide (encoded = "" \/ file = "" \/ contains_char file "/"%char = true)
        then Err (not_found "not a composer dist path")
        else match decodeDistLocation encoded with
             | None => Err (not_found "invalid dist location")
             | Some distURL =>
                 Ok (mkIntent IntentArtifact (composer_coord (distCoordinateFromFile file) "") 0 p no_checksum (mkSource "" "") ""
                       false distURL "application/zip" "" "")
             end
    end
  else Err (not_found "unsupported composer path").

(** ** Proxied documents *)

Definition feedBase (f : Feed) : string :=
  let prefix := "/composer/" +:+ f_name f in
  if decide (external_url f <> "") then trim_suffix (external_url f) "/" +:+ prefix else prefix.

Definition rewriteDistURL (base distURL : string) : result api_error string :=
  match url_parse distURL with
  | None => Err (ErrOther "dist url is not absolute")
  | Some u =>
      if negb (Helm.u_abs u) then Err (ErrOther "dist url is not absolute")
      else
        let file := Helm.path_base (Helm.u_escaped u) in
        if decide (file = "" \/ file = "." \/ file = "/") then Err (ErrOther "dist url has no file name")
        else let file := if has_suffix file ".zip" then file else file +:+ ".zip" in
             Ok (base +:+ "/" +:+ distPrefix +:+ encodeDistLocation distURL +:+ "/" +:+ file)
  end.

(** The archive's URL in an entry, when there is one, and the entry with another. *)
Definition dist_url (entry : gmap string json) : option string :=
  dist ← field_of as_map "dist" entry; u ← field_of as_string "url" dist; if decide (u = "") then None else Some u.
Definition set_dist_url (u : string) (entry : gmap string json) : gmap string json :=
  match field_of as_map "dist" entry with
  | None => entry
  | Some dist => <["dist" := of_map (<["url" := JStr u]> dist)]> entry
  end.

Definition rewrite_item (base : string) (item : json) : result api_error json :=
  match as_map item with
  | None => Ok item
  | Some version => match dist_url version with
                    | None => Ok item
                    | Some u => let? u' := rewriteDistURL base u in Ok (of_map (set_dist_url u' version))
                    end
  end.
(** Every item, the first failure otherwise. *)
Fixpoint rewrite_items (base : string) (items : list json) : result api_error (list json) :=
  match items with
  | [] => Ok []
  | item :: items => let? item' := rewrite_item base item in let? items' := rewrite_items base items in Ok (item' :: items')
  end.
Fixpoint rewrite_packages (base : string) (l : list (string * json)) : result api_error (list (string * json)) :=
  match l with
  | [] => Ok []
  | (name, raw) :: l =>
      let? raw' := match raw with
                   | JArr versions => let? versions' := rewrite_items base versions in Ok (JArr versions')
                   | _ => Ok raw
                   end in
      let? l' := rewrite_packages base l in Ok ((name, raw') :: l')
  end.
(** The root manifest's own endpoints. *)
Definition rewrite_root (base : string) (doc : gmap string json) : gmap string json :=
  if bool_decide (is_Some (doc !! "packages"))
     || match doc !! "metadata-url" with None | Some JNull => false | Some _ => true end then
    let doc := match doc !! "metadata-url" with
               | Some _ => <["metadata-url" := JStr (base +:+ "/p2/%package%.json")]> doc
               | None => doc
               end in
    let doc := delete "list" (delete "provider-includes" (delete "providers-url" doc)) in
    match doc !! "search" with
    | Some _ => <["search" := JStr (base +:+ "/" +:+ searchPath +:+ "?q=%query%&type=%type%")]> doc
    | None => doc
    end
  else doc.
Definition rewrite_document (base : string) (doc : gmap string json) : result api_error (gmap string json) :=
  let doc := rewrite_root base doc in
  match field_of as_map "packages" doc with
  | None => Ok doc
  | Some packages =>
      let? l := rewrite_packages base (visit (map_to_list packages)) in
      Ok (<["packages" := of_map (list_to_map l)]> doc)
  end.
(** [RewriteMetadata]; a null document is a nil map. *)
Definition RewriteMetadata (f : Feed) (body : string) : result api_error string :=
  match unmarshal body with
  | Some (JObj fs) => let? doc := rewrite_document (feedBase f) (obj_map fs) in Ok (marshal (of_map doc))
  | Some JNull => Ok (marshal JNull)
  | _ => Err (ErrOther "parse composer metadata")
  end.

(** ** What a document says of a version *)

Definition MetadataIntent (c : PackageCoordinate) : option Intent :=
  if decide (c_name c = "" \/ contains_char (c_name c) "/"%char = false) then None
  else Some (mkIntent IntentMetadata (composer_coord (c_name c) "") metadataTTL ("p2/" +:+ c_name c +:+ ".json") no_checksum
               (mkSource "" "") "" false "" "application/json" "" "").

(** [packageDoc]. *)
Record packageVersion := mkPV { pv_version : string; pv_license : list string; pv_time : string; pv_shasum : string }.
Definition decode_string (j : json) : option string :=
  match j with JStr s => Some s | JNull => Some "" | _ => None end.
Definition decode_list {A} (dec : json -> option A) (j : json) : option (list A) :=
  match j with JArr l => mapM dec l | JNull => Some [] | _ => None end.
Definition decode_version (j : json) : option packageVersion :=
  fs ← object j;
  version ← get_string "version" fs;
  license ← decode_list decode_string (field "license" fs);
  time ← get_string "time" fs;
  dist ← object (field "dist" fs);
  shasum ← get_string "shasum" dist;
  Some (mkPV version license time shasum).
Definition decode_packages (j : json) : option (gmap string (list packageVersion)) :=
  fs ← object j; Npm.get_map_of (decode_list decode_version) "packages" fs.

(** [ExtractMetadata]. *)
Definition ExtractMetadata (c : PackageCoordinate) (body : string) : option (gmap string string) :=
  doc ← unmarshal body ≫= decode_packages;
  let meta : gmap string string := {[ Policies.MetaEcosystem := "Packagist" ]} in
  match list_find (fun v => c_version c = "" \/ pv_version v = c_version c) (default [] (doc !! c_name c)) with
  | None => Some meta
  | Some (_, v) =>
      let meta := match pv_license v with [] => meta | license => <[Policies.MetaLicense := join license " OR "]> meta end in
      let meta := Npm.put_unless_empty Policies.MetaPublishedAt (pv_time v) meta in
      Some (if decide (pv_shasum v <> "" /\ c_version c <> "")
            then <[MetaChecksum := "sha1:" +:+ ToLower (pv_shasum v)]> meta else meta)
  end.

Definition ValidateFeeds (feeds : list Feed) : option Feed := snd <$> list_find (fun f => external_url f = "") feeds.

(** ** Uploads ([hoster.go]) *)

Definition maxUploadSize : Z := 2 ^ 29.
Definition PublishRoutes : list (string * string) := [("PUT", "/" +:+ hostedDistPrefix +:+ "*")].

(** [composerManifest] and [hostedRelease]; raw fields that are absent are
    empty messages. *)
Record composerManifest := mkManifest {
  mf_name : string; mf_type : string; mf_description : string;
  mf_license : option json; mf_require : option json; mf_require_dev : option json; mf_autoload : option json;
}.
Record hostedRelease := mkRelease {
  hr_name : string; hr_version : string; hr_type : string; hr_description : string;
  hr_license : option json; hr_require : option json; hr_require_dev : option json; hr_autoload : option json;
  hr_sha1 : string; hr_path : string;
}.
(** Their JSON text. *)
Context (unmarshal_manifest : string -> option composerManifest).
Context (unmarshal_release : string -> option hostedRelease) (marshal_release : hostedRelease -> string).
(** A zip archive's entries, each with its content when it can be read. *)
Context (unzip : string -> option (list (string * option string))).
Context (digest : string -> string -> string).

Fixpoint count_char (c : Ascii.ascii) (s : string) : nat :=
  match s with
  | EmptyString => 0
  | String d s' => (if decide (d = c) then 1 else 0) + count_char c s'
  end.
Definition better (best name : string) : string :=
  let depth := count_char "/"%char name in
  if negb (has_suffix name "composer.json") then best
  else if decide (1 < depth)%nat then best
  else if decide (best = "" \/ (depth < count_char "/"%char best)%nat) then name else best.
Definition readComposerManifest (archive : string) : result (api_error * string) composerManifest :=
  match unzip archive with
  | None => Err (ErrBadRequest, "the upload is not a valid zip archive")
  | Some files =>
      let best := foldl better "" files.*1 in
      if decide (best = "") then Err (ErrBadRequest, "the archive contains no composer.json")
      else match list_find (fun f => f.1 = best) files with
      | None => Err (ErrBadRequest, "the archive contains no composer.json")
      | Some (_, (_, None)) => Err (ErrOther "open", "")
      | Some (_, (_, Some content)) =>
          match unmarshal_manifest (limit_read (8 * 2 ^ 20) content) with
          | None => Err (ErrBadRequest, "parse composer.json")
          | Some manifest => Ok manifest
          end
      end
  end.

Definition digestsOf (body : string) : gmap string string :=
  {[ "sha1" := digest "sha1" body; "sha256" := digest "sha256" body ]}.
Definition publishBlob (f : Feed) (path : string) (c : PackageCoordinate) (body : string) (meta : gmap string string)
  (mutable : bool) : presult () :=
  let sha := digest "sha256" body in
  let size := Z.of_nat (String.length body) in
  BlobPut ("blobs/sha256/" +:+ sha) body (mkPutOpts sha size "") (fun e => match e with
    | Some e => perr e "stage"
    | None => CorePublish (mkPublish f c path sha size (digestsOf body) "" mutable (Some meta))
                (fun res => match res with Ok _ => pok () | Err e => Ret (Err e) end)
    end).
Definition hostedDistPath (vendor name version : string) : string :=
  hostedDistPrefix +:+ vendor +:+ "/" +:+ name +:+ "/" +:+ version +:+ ".zip".
Definition statePath (vendor name version : string) : string :=
  hostedStatePrefix +:+ vendor +:+ "/" +:+ name +:+ "/" +:+ version +:+ ".json".

(** [firstLicense]: a text, or the first of a list of texts. *)
Definition firstLicense (raw : option json) : string :=
  match raw with
  | None => ""
  | Some j => match decode_string j with
              | Some single => single
              | None => match decode_list decode_string j with Some (first :: _) => first | _ => "" end
              end
  end.

(** What is recorded of an upload. *)
Definition release_of (vendor name version archive : string) (manifest : composerManifest) : hostedRelease :=
  mkRelease (vendor +:+ "/" +:+ name) version (mf_type manifest) (mf_description manifest)
    (mf_license manifest) (mf_require manifest) (mf_require_dev manifest) (mf_autoload manifest)
    (digest "sha1" archive) (hostedDistPath vendor name version).

(** [HandlePublish]. *)
Definition HandlePublish (f : Feed) (r : HttpReq) : presult own_response :=
  match parseUploadPath (trim_prefix (rq_path r) "/") with
  | Err e => Ret (Err e)
  | Ok (vendor, name, version) =>
      let archive := limit_read maxUploadSize (rq_body r) in
      if decide (archive = "") then perr ErrBadRequest "the upload carried no archive"
      else match readComposerManifest archive with
      | Err e => Ret (Err e)
      | Ok manifest =>
          let full := vendor +:+ "/" +:+ name in
          if decide (mf_name manifest <> "" /\ mf_name manifest <> full)
          then perr ErrBadRequest "the archive declares another package"
          else
            let c := composer_coord full version in
            let meta := Npm.put_unless_empty Policies.MetaLicense (firstLicense (mf_license manifest))
                          {[ Policies.MetaEcosystem := "Packagist" ]} in
            ptry (publishBlob f (hostedDistPath vendor name version) c archive meta false) (fun _ =>
            ptry (publishBlob f (statePath vendor name version) c
                    (marshal_release (release_of vendor name version archive manifest)) meta true) (fun _ =>
            pok (0, ∅, "")))
      end
  end.

(** ** Generated documents *)

Definition readBlob {A} (sha : string) (k : string -> prog (result api_error A)) : prog (result api_error A) :=
  BlobGet ("blobs/sha256/" +:+ sha) (fun res => match res with
    | Err e => Ret (Err e)
    | Ok o => k (limit_read (8 * 2 ^ 20) (o_body o))
    end).
(** The published facts by package name ([hostedPackages], and the loop of [Reindex]). *)
Fixpoint read_releases (ms : list hosted) (out : gmap string (list hostedRelease))
  : prog (result api_error (gmap string (list hostedRelease))) :=
  match ms with
  | [] => Ret (Ok out)
  | m :: ms => readBlob (h_sha256 m.2) (fun body =>
      match unmarshal_release body with
      | None => Ret (Err (ErrOther "parse package facts"))
      | Some release => read_releases ms (Helm.append_entry (hr_name release) release out)
      end)
  end.
Definition hostedPackages (f : Feed) : prog (result api_error (gmap string (list hostedRelease))) :=
  CoreManifests f hostedStatePrefix (fun res => match res with
    | Err e => Ret (Err e)
    | Ok ms => read_releases ms ∅
    end).

(** [strconv.Atoi] is [parse_int] where an int is 64 bits. *)
Definition segmentAt (segs : list string) (i : nat) : string := default "0" (segs !! i).
Definition compareSegment (a b : string) : Z :=
  match parse_int a, parse_int b with
  | Some an, Some bn => if an <? bn then -1 else if bn <? an then 1 else 0
  | _, _ => str_compare a b
  end.
Fixpoint compare_segments (a b : list string) (i left : nat) : Z :=
  match left with
  | O => 0
  | S n => let c := compareSegment (segmentAt a i) (segmentAt b i) in
           if decide (c <> 0) then c else compare_segments a b (S i) n
  end.
Definition compareComposerVersions (a b : string) : Z :=
  let '(aCore, aPre, _) := cut3 (trim_prefix a "v") "-" in
  let '(bCore, bPre, _) := cut3 (trim_prefix b "v") "-" in
  let aSegs := split aCore "."%char in
  let bSegs := split bCore "."%char in
  let c := compare_segments aSegs bSegs 0 (length aSegs `max` length bSegs) in
  if decide (c <> 0) then c
  else if decide (aPre = "" /\ bPre = "") then 0
  else if decide (aPre = "") then 1
  else if decide (bPre = "") then -1
  else str_compare aPre bPre.
Definition older (a b : hostedRelease) : bool := compareComposerVersions (hr_version a) (hr_version b) <? 0.

(** [normalizeVersion]: four segments. *)
Definition normal_segment (s : string) : string := match parse_int s with Some n => format_int n | None => s end.
Definition normalizeVersion (version : string) : string :=
  let '(core, suffix, _) := cut3 (trim_prefix version "v") "-" in
  let segs := split core "."%char in
  let segs := segs ++ replicate (4 - length segs) "0" in
  let normalized := join (take 4 (normal_segment <$> segs)) "." in
  if decide (suffix <> "") then normalized +:+ "-" +:+ ToLower suffix else normalized.

Definition packageType (release : hostedRelease) : string :=
  if decide (hr_type release <> "") then hr_type release else "library".
Definition put_raw (key : string) (raw : option json) (m : gmap string json) : gmap string json :=
  match raw with Some j => <[key := j]> m | None => m end.
Definition release_entry (base : string) (release : hostedRelease) : gmap string json :=
  let entry : gmap string json :=
    {[ "name" := JStr (hr_name release); "version" := JStr (hr_version release);
       "version_normalized" := JStr (normalizeVersion (hr_version release));
       "dist" := of_map {[ "type" := JStr "zip"; "url" := JStr (base +:+ "/" +:+ hr_path release);
                           "reference" := JStr (hr_sha1 release); "shasum" := JStr (hr_sha1 release) ]} ]} in
  let entry := <["type" := JStr (packageType release)]> entry in
  let entry := if decide (hr_description release <> "") then <["description" := JStr (hr_description release)]> entry else entry in
  put_raw "autoload" (hr_autoload release) (put_raw "require-dev" (hr_require_dev release)
    (put_raw "require" (hr_require release) (put_raw "license" (hr_license release) entry))).
Definition package_doc (base name : string) (releases : list hostedRelease) : json :=
  of_map {[ "packages" := of_map {[ name := JArr ((fun r => of_map (release_entry base r)) <$> gosort older releases) ]} ]}.
Definition package_names (byPackage : gmap string (list hostedRelease)) : list string :=
  gosort str_ltb (visit (map_to_list byPackage).*1).
Definition root_doc (base : string) (names : list string) : json :=
  of_map {[ "metadata-url" := JStr (base +:+ "/p2/%package%.json");
            "search" := JStr (base +:+ "/" +:+ searchPath +:+ "?q=%query%&type=%type%");
            "available-packages" := JArr (JStr <$> names);
            "packages" := JObj [] ]}.
(** The documents, by path. *)
Definition composer_docs (f : Feed) (byPackage : gmap string (list hostedRelease)) : list (string * string) :=
  let base := feedBase f in
  let names := package_names byPackage in
  ((fun name => ("p2/" +:+ name +:+ ".json",
                 marshal_indent (package_doc base name (default [] (byPackage !! name))) +:+ nl)) <$> names)
  ++ [("packages.json", marshal_indent (root_doc base names) +:+ nl)].
(** [Reindex]. *)
Definition Reindex (f : Feed) : prog (option api_error) :=
  pbind (hostedPackages f) (fun res => match res with
    | Err e => Ret (Some e)
    | Ok byPackage => put_all f (composer_docs f byPackage)
    end).
Definition hoster : Hoster := mkHoster false HandlePublish Reindex.

(** ** Search ([search.go]) *)

Definition searchDefaultPerPage : Z := 15.
Definition searchMaxPerPage : Z := 100.
Definition intParam (raw : string) (def : Z) : Z :=
  if decide (raw = "") then def
  else match parse_int raw with
       | Some v => if decide (v < 0) then def else v
       | None => def
       end.
Definition newestRelease (releases : list hostedRelease) : option hostedRelease := last (gosort older releases).
Definition matchesTerm (release : hostedRelease) (term : string) : bool :=
  Contains (ToLower (hr_name release)) term || Contains (ToLower (hr_description release)) term.
Definition rank (result : gmap string json) (term : string) : Z :=
  let name := ToLower (default "" (field_of as_string "name" result)) in
  if decide (term = "") then 1
  else if decide (name = term) then 0
  else if has_prefix name term then 1 else 2.
Definition search_result (base : string) (release : hostedRelease) : gmap string json :=
  let result : gmap string json :=
    {[ "name" := JStr (hr_name release); "url" := JStr (base +:+ "/p2/" +:+ hr_name release +:+ ".json");
       "downloads" := JNum 0; "favers" := JNum 0 ]} in
  let result := if decide (hr_description release <> "") then <["description" := JStr (hr_description release)]> result else result in
  <["type" := JStr (packageType release)]> result.
Definition wanted (wantType term : string) (release : hostedRelease) : bool :=
  bool_decide (wantType = "" \/ packageType release = wantType) && (bool_decide (term = "") || matchesTerm release term).
Definition search_results (base wantType term : string) (byPackage : gmap string (list hostedRelease)) : list (gmap string json) :=
  insertion_sort (fun a b => rank a term <? rank b term)
    (search_result base <$> filter (fun r => wanted wantType term r = true)
       (omap (fun name => newestRelease (default [] (byPackage !! name))) (package_names byPackage))).
(** [results[from:end]], which panics out of bounds; int arithmetic wraps. *)
Definition search_page {A} (page perPage : Z) (results : list A) : option (list A) :=
  let total := Z.of_nat (length results) in
  let from := wrap64 (wrap64 (page - 1) * perPage) in
  let from := if total <? from then total else from in
  let end_ := wrap64 (from + perPage) in
  let end_ := if total <? end_ then total else end_ in
  if decide (0 <= from <= end_) then Some (take (Z.to_nat (end_ - from)) (drop (Z.to_nat from) results)) else None.
(** [Search]; a panic is not an answer. *)
Inductive search_error := Panic | Failed (e : api_error * string).
Definition Search (f : Feed) (i : Intent) : prog (result search_error SyntheticResponse) :=
  if negb (query_ok (i_query i)) then Ret (Err (Failed (ErrBadRequest, "invalid search query")))
  else
    let term := ToLower (TrimSpace (query_get (i_query i) "q")) in
    let wantType := TrimSpace (query_get (i_query i) "type") in
    let page := intParam (query_get (i_query i) "page") 1 `max` 1 in
    let perPage := intParam (query_get (i_query i) "per_page") searchDefaultPerPage `min` searchMaxPerPage in
    pbind (hostedPackages f) (fun res => match res with
      | Err e => Ret (Err (Failed (e, "")))
      | Ok byPackage =>
          let results := search_results (feedBase f) wantType term byPackage in
          match search_page page perPage results with
          | None => Ret (Err Panic)
          | Some shown =>
              Ret (Ok (mkSynthetic 200 {[ "Content-Type" := "application/json" ]}
                (marshal_indent (of_map {[ "results" := JArr (of_map <$> shown); "total" := JNum (Z.of_nat (length results)) ]}) +:+ nl)))
          end
      end).

(** ** Groups ([group.go]) *)

Definition MergeableIntent (i : Intent) : bool :=
  match i_kind i with IntentMetadata | IntentSearch => true | _ => false end.

(** [mergeSearch]: names seen and results so far; a null result is a nil map. *)
Definition merge_result (acc : gset string * list json) (j : json) : gset string * list json :=
  let name := default "" (field_of as_string "name" (obj_map (default [] (object j)))) in
  if decide (name <> "" /\ name ∈ acc.1) then acc else ({[ name ]} ∪ acc.1, acc.2 ++ [j]).
Definition decode_results (j : json) : option (list json) :=
  fs ← object j; decode_list (fun j => _ ← object j; Some j) (field "results" fs).
Fixpoint merge_results (parts : list (string * string)) (acc : gset string * list json) : option (list json) :=
  match parts with
  | [] => Some acc.2
  | (_, body) :: parts => results ← unmarshal body ≫= decode_results; merge_results parts (foldl merge_result acc results)
  end.
Definition mergeSearch (parts : list (string * string)) : result api_error string :=
  match merge_results parts (∅, []) with
  | None => Err (ErrOther "parse search results")
  | Some results => Ok (marshal (of_map {[ "results" := JArr results; "total" := JNum (Z.of_nat (length results)) ]}))
  end.

(** [json.Unmarshal] into a [map[string]any], nil read as empty. *)
Definition decode_document (body : string) : option (gmap string json) := j ← unmarshal body; fs ← object j; Some (obj_map fs).

(** [mergeInventory]: [None] once a member makes no promise. *)
Definition inventoryKeys : list string := ["available-packages"; "available-package-patterns"].
Definition listed (key : string) (member : gmap string json) : option (list string) :=
  match member !! key with Some (JArr l) => Some (omap as_string l) | _ => None end.
Definition inventory (key : string) (members : list (gmap string json)) : option (list string) :=
  @concat string <$> mapM (listed key) members.
(** [slices.Compact], and a list of names; that of no names is nil. *)
Fixpoint compact (l : list string) : list string :=
  match l with
  | x :: (y :: _) as l' => if decide (x = y) then compact l' else x :: compact l'
  | _ => l
  end.
Definition names_json (names : list string) : json := match names with [] => JNull | _ => JArr (JStr <$> names) end.
Definition set_inventory (members : list (gmap string json)) (doc : gmap string json) (key : string) : gmap string json :=
  match inventory key members with
  | None => delete key doc
  | Some names => <[key := names_json (compact (gosort str_ltb names))]> doc
  end.
Definition mergeInventory (doc : gmap string json) (parts : list (string * string)) : result api_error (gmap string json) :=
  match mapM (fun part => decode_document part.2) parts with
  | None => Err (ErrOther "parse composer root manifest")
  | Some members => Ok (foldl (set_inventory members) doc inventoryKeys)
  end.
(** [mergeRoot]; without parts it is not called. *)
Definition mergeRoot (f : Feed) (parts : list (string * string)) : result api_error string :=
  match parts with
  | [] => Err (ErrOther "no parts")
  | (_, body) :: _ =>
      match unmarshal body with
      | Some (JObj fs) => let? doc := mergeInventory (obj_map fs) parts in RewriteMetadata f (marshal (of_map doc))
      | Some JNull => let? _ := mergeInventory ∅ parts in RewriteMetadata f (marshal JNull)
      | _ => Err (ErrOther "parse composer root manifest")
      end
  end.

(** [repointDist]. *)
Definition repointDist (entry : gmap string json) (member groupBase : string) : gmap string json :=
  match dist_url entry with
  | None => entry
  | Some u => match Cut u ("/composer/" +:+ member +:+ "/") with
              | None => entry
              | Some (_, rest) => set_dist_url (groupBase +:+ "/" +:+ rest) entry
              end
  end.

(** [mergePackage]: the other keys, and by package the entries kept. *)
Record merging := mkMerging { mg_rest : gmap string json; mg_order : gmap string (list (gmap string json)) }.
Definition entry_version (entry : gmap string json) : string := default "" (field_of as_string "version" entry).
Definition add_entry (member base : string) (kept : list (gmap string json)) (item : json) : list (gmap string json) :=
  match as_map item with
  | None => kept
  | Some entry =>
      if decide (entry_version entry <> "" /\ entry_version entry ∈ (entry_version <$> kept)) then kept
      else kept ++ [repointDist entry member base]
  end.
Definition add_package (member base : string) (order : gmap string (list (gmap string json))) (kv : string * json)
  : gmap string (list (gmap string json)) :=
  match kv.2 with
  | JArr versions => <[kv.1 := foldl (add_entry member base) (default [] (order !! kv.1)) versions]> order
  | _ => order
  end.
Definition add_key (rest : gmap string json) (kv : string * json) : gmap string json :=
  if decide (kv.1 = "packages" \/ is_Some (rest !! kv.1)) then rest else <[kv.1 := kv.2]> rest.
Definition merge_document (base : string) (acc : merging) (member : string) (doc : gmap string json) : merging :=
  mkMerging (foldl add_key (mg_rest acc) (visit (map_to_list doc)))
    (match field_of as_map "packages" doc with
     | None => mg_order acc
     | Some packages => foldl (add_package member base) (mg_order acc) (visit (map_to_list packages))
     end).
Fixpoint merge_documents (base : string) (parts : list (string * string)) (acc : merging) : option merging :=
  match parts with
  | [] => Some acc
  | (member, body) :: parts => doc ← decode_document body; merge_documents base parts (merge_document base acc member doc)
  end.
(** The merged list of a package that had no entry is nil. *)
Definition entries_json (l : list (gmap string json)) : json := match l with [] => JNull | _ => JArr (of_map <$> l) end.
Definition merged_package (acc : merging) : gmap string json :=
  <["packages" := of_map (entries_json <$> mg_order acc)]> (mg_rest acc).
Definition mergePackage (f : Feed) (parts : list (string * string)) : result api_error string :=
  match merge_documents (feedBase f) parts (mkMerging ∅ ∅) with
  | None => Err (ErrOther "parse composer package document")
  | Some acc => if decide (size (mg_order acc) = 0%nat) then Err ErrNotFound else Ok (marshal (of_map (merged_package acc)))
  end.
(** [Merge]. *)
Definition Merge (f : Feed) (i : Intent) (parts : list (string * string)) : result api_error string :=
  match i_kind i with
  | IntentSearch => mergeSearch parts
  | _ => if decide (c_name (i_coord i) = "packages.json") then mergeRoot f parts else mergePackage f parts
  end.
Definition composer {St} (search : Feed -> Intent -> St -> result api_error SyntheticResponse) : FormatModule St :=
  mkModule Parse None None None (Some search) None None (Some ((fun _ => MetadataIntent), ExtractMetadata)) (Some (MergeableIntent, Merge)).
End composer.
End Composer.
