(* ===== verification/ComposerTheory.v ===== *)
(** * What the Composer module guarantees

    Uploads can be fetched where they were put and a proxied archive's URL
    leads back to its origin; generated documents describe the uploads and are
    read back with their digests; a group promises an inventory only when all
    its members do, and keeps their order of trust; where this stops. *)

From S2P Require Import Prelude GoLib Semver State StateTheory Events Store Pipeline Publisher Policies Auth Server WriteRoutes ModLib Oci OciListings Maven Npm NpmTheory Helm Composer.
From Stdlib Require Import Sorting.Sorted.
Open Scope Z_scope.

Module ComposerTheory.
Import Server WriteRoutes Composer.

(** ** Paths *)

Lemma upload_path_ok p vendor name version :
  parseUploadPath p = Ok (vendor, name, version) -> p = hostedDistPath vendor name version.
Proof.
  unfold parseUploadPath. case_decide as Hp; [done|].
  destruct (split _ _) as [|v [|n [|file [|]]]] eqn:E; try done.
  destruct (has_suffix file ".zip") eqn:Hs; [|done]. cbn [negb]. destruct (existsb _ _); [done|]. intros [= -> -> <-].
  assert (file = trim_suffix file ".zip" +:+ ".zip") as Hf.
  { unfold trim_suffix, has_suffix in *. destruct (cut_suffix file ".zip") as [q b] eqn:Ec. simpl in Hs. subst b. by apply cut_suffix_true. }
  destruct (has_prefix p hostedDistPrefix) eqn:Hh; [|unfold trim_prefix in Hp; by rewrite Hh in Hp].
  apply has_prefix_spec in Hh as [rest ->]. rewrite trim_prefix_app in E. unfold hostedDistPath. f_equal.
  rewrite <-(join_split rest "/"%char), E. simpl. by rewrite <-Hf.
Qed.
Lemma parse_upload url_parse r p vendor name version :
  parseUploadPath p = Ok (vendor, name, version) -> Contains p ".." = false -> rq_path r = "/" +:+ p ->
  exists i, Parse url_parse r = Ok i /\ i_kind i = IntentArtifact
    /\ i_coord i = composer_coord (vendor +:+ "/" +:+ name) version /\ i_path i = p /\ i_url i = "".
Proof.
  intros Hp Hd Hr. pose proof (upload_path_ok _ _ _ _ Hp) as E. unfold Parse. rewrite Hr, trim_prefix_app, Hd.
  rewrite decide_False by (subst p; intros [?|?]; done). rewrite decide_False by (subst p; done).
  rewrite decide_False by (subst p; done). replace (has_prefix p "p2/") with false by (by subst p). cbn [andb].
  replace (has_prefix p hostedDistPrefix) with true by (subst p; symmetry; apply has_prefix_app_r).
  rewrite Hp. eexists. done.
Qed.

(** An archive elsewhere is asked for here, and the request leads to it: the
    location travels in the path. *)
Theorem composer_dist_leads_back url_parse base distURL u url r :
  distURL <> "" -> url_parse distURL = Some u -> Helm.u_scheme u = "http" \/ Helm.u_scheme u = "https" ->
  contains_char (Helm.path_base (Helm.u_escaped u)) "/"%char = false ->
  rewriteDistURL url_parse base distURL = Ok url ->
  exists path, url = base +:+ "/" +:+ path /\ (Contains path ".." = false -> rq_path r = "/" +:+ path ->
    exists i, Parse url_parse r = Ok i /\ i_kind i = IntentArtifact /\ i_path i = path /\ i_url i = Helm.u_text u).
Proof.
  intros Hne Hu Hs Hflat. unfold rewriteDistURL. rewrite Hu. destruct (Helm.u_abs u) eqn:Ha; [|done]. cbn [negb].
  case_decide as Hf; [done|]. intros [= <-]. set (file := if has_suffix _ _ then _ else _).
  assert (file <> "" /\ contains_char file "/"%char = false) as [Hfile Hff].
  { subst file. destruct (has_suffix _ _); [by split; [intros E; apply Hf; left|]|].
    rewrite contains_char_app, Hflat. split; [|done]. by destruct (Helm.path_base _). }
  destruct (Helm.location_roundtrip distURL) as [Hback Hseg].
  exists (distPrefix +:+ Helm.encodeLocation distURL +:+ "/" +:+ file). split; [done|]. intros Hd Hr.
  unfold Parse. rewrite Hr, trim_prefix_app, Hd. rewrite decide_False by (intros [?|?]; done).
  rewrite decide_False by done. rewrite decide_False by done.
  change (has_prefix (distPrefix +:+ _) "p2/") with false. cbn [andb].
  change (has_prefix (distPrefix +:+ _) hostedDistPrefix) with false. rewrite has_prefix_app_r, trim_prefix_app. cbn iota.
  change ("/" +:+ file) with (String "/" file). rewrite Cut_char_app by done.
  rewrite decide_False.
  2: { intros [E|[E|E]]; [|done|congruence]. rewrite E in Hback. vm_compute in Hback. congruence. }
  unfold decodeDistLocation. rewrite Hback. cbn [mbind option_bind]. rewrite Hu. cbn [mbind option_bind].
  rewrite decide_True by done. eexists. done.
Qed.

(** ** Publishing *)

Section publishing.
Context (unmarshal_manifest : string -> option composerManifest).
Context (marshal_release : hostedRelease -> string) (unzip : string -> option (list (string * option string))).
Context (digest : string -> string -> string).
Notation HandlePublish := (HandlePublish unmarshal_manifest marshal_release unzip digest).

(** What an upload publishes: the archive, and what is recorded of it. *)
Inductive composer_publishes (f : Feed) (vendor name version archive : string) (manifest : composerManifest)
  : PublishRequest -> Prop :=
| PubArchive meta : composer_publishes f vendor name version archive manifest
    (mkPublish f (composer_coord (vendor +:+ "/" +:+ name) version) (hostedDistPath vendor name version)
       (digest "sha256" archive) (Z.of_nat (String.length archive)) (digestsOf digest archive) "" false meta)
| PubFacts meta : let body := marshal_release (release_of digest vendor name version archive manifest) in
    composer_publishes f vendor name version archive manifest
    (mkPublish f (composer_coord (vendor +:+ "/" +:+ name) version) (statePath vendor name version)
       (digest "sha256" body) (Z.of_nat (String.length body)) (digestsOf digest body) "" true meta).

Lemma publishes_blob {A} (P : PublishRequest -> Prop) f path c body meta mutable (k : () -> presult A) :
  P (mkPublish f c path (digest "sha256" body) (Z.of_nat (String.length body)) (digestsOf digest body) "" mutable (Some meta)) ->
  (forall x, publishes P (k x)) -> publishes P (ptry (publishBlob digest f path c body meta mutable) k).
Proof.
  intros HP Hk. unfold publishBlob, ptry. cbn [pbind publishes]. intros [e|]; [done|]. cbn [pbind publishes]. split; [done|].
  intros [x|e]; [apply Hk|done].
Qed.
Lemma composer_upload_publishes f r :
  publishes (fun q => exists vendor name version manifest, let archive := limit_read maxUploadSize (rq_body r) in
      parseUploadPath (trim_prefix (rq_path r) "/") = Ok (vendor, name, version)
      /\ readComposerManifest unmarshal_manifest unzip archive = Ok manifest
      /\ (mf_name manifest <> "" -> mf_name manifest = vendor +:+ "/" +:+ name)
      /\ composer_publishes f vendor name version archive manifest q)
    (HandlePublish f r).
Proof.
  unfold Composer.HandlePublish. destruct (parseUploadPath _) as [[[vendor name] version]|e] eqn:Ep; [|done].
  case_decide; [done|]. destruct (readComposerManifest _ _ _) as [manifest|e] eqn:Em; [|done]. case_decide as Hn; [done|].
  set (P := fun q => _). assert (forall q, composer_publishes f vendor name version (limit_read maxUploadSize (rq_body r)) manifest q -> P q) as HP.
  { intros q Hq. exists vendor, name, version, manifest. split_and!; try done. intros ?.
    destruct (decide (mf_name manifest = vendor +:+ "/" +:+ name)); [done|tauto]. }
  apply publishes_blob; [apply HP; constructor|]. intros _.
  apply publishes_blob; [apply HP; constructor|]. done.
Qed.

(** An upload can be fetched where it was put, by the coordinate it was
    published under, with the digest of its bytes; what it records of itself
    says where the archive is and its digest. *)
Theorem composer_release_found url_parse f r :
  publishes (fun q => pr_feed q = f /\ exists archive, archive = limit_read maxUploadSize (rq_body r)
      /\ (pr_mutable q = false -> pr_path q = trim_prefix (rq_path r) "/" /\ pr_sha256 q = digest "sha256" archive
          /\ forall r', Contains (pr_path q) ".." = false -> rq_path r' = "/" +:+ pr_path q ->
             exists i, Parse url_parse r' = Ok i /\ i_kind i = IntentArtifact /\ i_coord i = pr_coord q /\ i_path i = pr_path q)
      /\ (pr_mutable q = true -> exists release, pr_sha256 q = digest "sha256" (marshal_release release)
          /\ composer_coord (hr_name release) (hr_version release) = pr_coord q
          /\ hr_path release = trim_prefix (rq_path r) "/" /\ hr_sha1 release = digest "sha1" archive))
    (HandlePublish f r).
Proof.
  eapply publishes_mono; [|apply composer_upload_publishes]. simpl. intros q (vendor & name & version & manifest & Hp & _ & _ & Hq).
  pose proof (upload_path_ok _ _ _ _ Hp) as E. destruct Hq as [meta|meta body]; simpl; (split; [done|]); eexists; (split; [done|]).
  - split; [|done]. intros _. split; [done|]. split; [done|]. intros r' Hd Hr. rewrite <-E in *.
    destruct (parse_upload url_parse r' _ _ _ _ Hp Hd Hr) as (i & ? & ? & ? & ? & _). eauto.
  - split; [done|]. intros _. eexists. split; [reflexivity|]. simpl. rewrite E. done.
Qed.
End publishing.

Lemma read_releases_publishes unmarshal_release ms out : publishes (fun _ => False) (read_releases unmarshal_release ms out).
Proof.
  revert out. induction ms as [|m ms IH]; intros out; simpl; [done|]. intros [o|e]; [|done]. destruct (unmarshal_release _); [apply IH|done].
Qed.
#[global] Instance composer_laws external_url marshal_indent {GR : GoRuntime} unmarshal_manifest unmarshal_release marshal_release unzip digest :
  HosterLaws (hoster external_url marshal_indent unmarshal_manifest unmarshal_release marshal_release unzip digest).
Proof.
  split; simpl.
  - intros f r. eapply publishes_mono; [|apply composer_upload_publishes]. by intros q (? & ? & ? & ? & _ & _ & _ & []).
  - intros f ms. apply publishes_bind; [by destruct ms; [apply read_releases_publishes|]|].
    intros [byPackage|e]; [apply put_all_publishes|done].
Qed.

(** ** Generated documents *)

Lemma put_raw_ne key raw m k : key <> k -> put_raw key raw m !! k = m !! k.
Proof. intros Hk. destruct raw; [|done]. by apply lookup_insert_ne. Qed.
Lemma put_raw_new key raw m : m !! key = None -> put_raw key raw m !! key = raw.
Proof. intros Hm. destruct raw; [apply lookup_insert_eq|done]. Qed.
Definition release_dist (base : string) (r : hostedRelease) : gmap string json :=
  {[ "type" := JStr "zip"; "url" := JStr (base +:+ "/" +:+ hr_path r); "reference" := JStr (hr_sha1 r); "shasum" := JStr (hr_sha1 r) ]}.
Lemma release_entry_lookup base r (e := release_entry base r) :
  e !! "version" = Some (JStr (hr_version r)) /\ e !! "license" = hr_license r /\ e !! "time" = None
  /\ e !! "dist" = Some (of_map (release_dist base r)).
Proof.
  subst e. unfold release_entry. split_and!; rewrite ?put_raw_ne by done.
  2: { rewrite put_raw_new; [done|]. case_decide; by rewrite ?lookup_insert_ne, lookup_singleton_ne by done. }
  all: case_decide; rewrite ?(lookup_insert_ne _ "description") by done; rewrite (lookup_insert_ne _ "type") by done;
    by simplify_map_eq.
Qed.

(** The licenses a reader of the document sees: a list of texts, or none. *)
Definition licenses (raw : option json) : option (list string) :=
  match raw with None => Some [] | Some j => decode_list decode_string j end.
Lemma decode_entry base r :
  decode_version (of_map (release_entry base r))
  = license ← licenses (hr_license r); Some (mkPV (hr_version r) license "" (hr_sha1 r)).
Proof.
  destruct (release_entry_lookup base r) as (Hv & Hl & Ht & Hd). unfold decode_version, get_string, Npm.of_map. cbn [object mbind option_bind].
  rewrite !NpmTheory.NpmTheory.field_of_map, Hv, Hl, Ht, Hd. cbn [default].
  replace (decode_list decode_string (default JNull (hr_license r))) with (licenses (hr_license r)) by by destruct (hr_license r).
  destruct (licenses _) as [license|]; [|done]. unfold Npm.of_map, id. cbn [mbind option_bind object].
  by rewrite NpmTheory.NpmTheory.field_of_map.
Qed.
Lemma by_key_singleton {A} (k : string) (a : A) : by_key fst (map_to_list ({[ k := a ]} : gmap string A)) = [(k, a)].
Proof. apply Permutation_singleton_r. rewrite by_key_perm. by rewrite map_to_list_singleton. Qed.
Lemma mapM_map {A B C} (f : B -> option C) (g : A -> B) l : mapM f (g <$> l) = mapM (fun x => f (g x)) l.
Proof. induction l as [|x l IH]; [done|]. cbn [fmap list_fmap mapM]. by rewrite <-IH. Qed.
Lemma decode_doc {GR : GoRuntime} base name releases :
  decode_packages (package_doc base name releases)
  = vs ← mapM (fun r => decode_version (of_map (release_entry base r))) (gosort older releases); Some {[ name := vs ]}.
Proof.
  unfold decode_packages, package_doc, Npm.get_map_of, Npm.of_map at 1. cbn [object mbind option_bind].
  rewrite by_key_singleton. unfold Npm.of_map at 1. cbn [field]. simpl. rewrite by_key_singleton. simpl. rewrite mapM_map. by destruct (mapM _ _).
Qed.

(** The generated document of a package, read as a client of a proxy reads
    it: the digest and the license of a release are the recorded ones. *)
Theorem composer_metadata_sound unmarshal marshal_indent {GR : GoRuntime} base name releases release license :
  (forall j, unmarshal (marshal_indent j +:+ nl) = Some j) ->
  (forall r, r ∈ releases -> is_Some (licenses (hr_license r))) -> NoDup (hr_version <$> releases) ->
  release ∈ releases -> hr_version release <> "" -> hr_sha1 release <> "" -> licenses (hr_license release) = Some license ->
  exists meta, ExtractMetadata unmarshal (composer_coord name (hr_version release)) (marshal_indent (package_doc base name releases) +:+ nl) = Some meta
    /\ meta !! MetaChecksum = Some ("sha1:" +:+ ToLower (hr_sha1 release))
    /\ meta !! Policies.MetaLicense = match license with [] => None | l => Some (join l " OR ") end.
Proof.
  intros Hj Hlic Hnd Hin Hv Hs Hl. unfold ExtractMetadata. rewrite Hj. cbn [mbind option_bind]. rewrite decode_doc.
  destruct (mapM_is_Some_2 (fun r => decode_version (of_map (release_entry base r))) (gosort older releases)) as [vs Hvs].
  { apply Forall_forall. intros r Hr. rewrite gosort_perm in Hr. simpl. rewrite decode_entry. by destruct (Hlic r Hr) as [? ->]. }
  rewrite Hvs. cbn [mbind option_bind]. rewrite lookup_singleton_eq. cbn [default]. unfold id.
  apply mapM_Some in Hvs. assert (Forall2 (fun r v => pv_version v = hr_version r /\ exists l, licenses (hr_license r) = Some l /\ v = mkPV (hr_version r) l "" (hr_sha1 r)) (gosort older releases) vs) as F.
  { eapply Forall2_impl; [exact Hvs|]. intros r v. simpl. rewrite decode_entry. destruct (licenses (hr_license r)) as [l|] eqn:El; [|done]. intros [= <-]. split; [done|]. by exists l. }
  assert (exists i v, list_find (fun v => c_version (composer_coord name (hr_version release)) = "" \/ pv_version v = c_version (composer_coord name (hr_version release))) vs = Some (i, v)
    /\ v = mkPV (hr_version release) license "" (hr_sha1 release)) as (i & v & -> & ->).
  { assert (release ∈ gosort older releases) as Hin' by by rewrite gosort_perm.
    assert (NoDup (hr_version <$> gosort older releases)) as Hnd' by by rewrite gosort_perm.
    clear -F Hin' Hnd' Hv Hl. induction F as [|r v rs vs [Hrv (l & Hrl & ->)] F IH]; [by apply elem_of_nil in Hin'|].
    apply NoDup_cons in Hnd' as [Hn Hnd']. cbn [list_find]. apply elem_of_cons in Hin' as [->|Hin'].
    - rewrite decide_True by (by right). eexists 0%nat, _. split; [done|]. congruence.
    - rewrite decide_False.
      + destruct (IH Hin' Hnd') as (i & v & -> & ->). eauto.
      + cbn. intros [?|E]; [done|]. apply Hn. simpl in E. rewrite E. by apply list_elem_of_fmap_2. }
  eexists. split; [done|]. cbn [pv_shasum pv_time pv_license composer_coord c_version]. rewrite decide_True by done. split; [by simplify_map_eq|].
  rewrite lookup_insert_ne by done. unfold Npm.put_unless_empty. rewrite decide_True by done. destruct license; by simplify_map_eq.
Qed.

(** A package of which one release states its license as a text, as
    composer.json allows, has a document that cannot be read: nothing is known
    of any of its releases, licenses and digests included. *)
Theorem composer_license_text_unread unmarshal marshal_indent {GR : GoRuntime} base name releases release s c :
  (forall j, unmarshal (marshal_indent j +:+ nl) = Some j) -> release ∈ releases -> hr_license release = Some (JStr s) ->
  ExtractMetadata unmarshal c (marshal_indent (package_doc base name releases) +:+ nl) = None.
Proof.
  intros Hj Hin Hl. unfold ExtractMetadata. rewrite Hj. cbn [mbind option_bind]. rewrite decode_doc.
  replace (mapM _ _) with (@None (list packageVersion)); [done|]. symmetry. apply mapM_None_2, Exists_exists. exists release.
  split; [by rewrite gosort_perm|]. rewrite decode_entry. by rewrite Hl.
Qed.

(** The documents of a feed: the root lists the names that have releases, in
    order and once; each has a document that lists its releases. *)
Theorem composer_documents_exact external_url marshal_indent {GR : GoRuntime} f (releases : list hostedRelease) :
  let byPackage := foldl (fun m r => Helm.append_entry (hr_name r) r m) ∅ releases in
  exists names, ascending str_ltb names /\ NoDup names /\ (forall n, n ∈ names <-> n ∈ hr_name <$> releases)
    /\ composer_docs external_url marshal_indent f byPackage
        = ((fun n => ("p2/" +:+ n +:+ ".json",
              marshal_indent (package_doc (feedBase external_url f) n (filter (fun r => hr_name r = n) releases)) +:+ nl)) <$> names)
          ++ [("packages.json", marshal_indent (root_doc (feedBase external_url f) names) +:+ nl)].
Proof.
  intros byPackage. exists (package_names byPackage). split_and!.
  - apply gosort_sorted, strict_total_less. auto with fondaco.
  - unfold package_names. rewrite gosort_perm, visit_perm. apply NoDup_fst_map_to_list.
  - intros n. unfold package_names. rewrite gosort_perm, visit_perm, !list_elem_of_fmap.
    pose proof (Helm.append_fold_dom hr_name (fun r => r) releases ∅ n) as Hd. fold byPackage in Hd. split.
    + intros ([k l] & -> & Hl%elem_of_map_to_list). destruct (proj1 Hd) as [[? ?]|(r & ? & <-)]; [by eexists|done|by exists r].
    + intros (r & -> & Hr). destruct (proj2 Hd) as [l Hl]; [right; by exists r|]. exists (hr_name r, l). split; [done|]. by apply elem_of_map_to_list.
  - unfold composer_docs. f_equal. apply list_fmap_ext. intros i n Hn. do 4 f_equal.
    unfold byPackage. rewrite (Helm.append_fold hr_name (fun r => r)). rewrite lookup_empty. simpl. by rewrite list_fmap_id.
Qed.

(** ** Groups *)

Lemma compact_cons x y l : compact (x :: y :: l) = if decide (x = y) then compact (y :: l) else x :: compact (y :: l).
Proof. done. Qed.
Lemma compact_elem l x : x ∈ compact l <-> x ∈ l.
Proof.
  induction l as [|y [|z l] IH]; [done..|]. rewrite compact_cons. case_decide as E.
  - subst z. rewrite IH, !elem_of_cons. naive_solver.
  - rewrite elem_of_cons, IH, !elem_of_cons. done.
Qed.
Lemma compact_sorted l : ascending str_ltb l -> StronglySorted str_lt (compact l).
Proof.
  induction l as [|x [|y l] IH]; intros Hs; [constructor|repeat constructor|].
  apply StronglySorted_inv in Hs as [Hs Hx]. rewrite compact_cons. case_decide as E; [by apply IH|]. constructor; [by apply IH|].
  apply StronglySorted_inv in Hs as [_ Hy]. apply Forall_cons in Hx as [Hxy Hx].
  rewrite str_ltb_ge in Hxy. destruct (str_lt_total x y) as [Hlt|[?|?]]; [|done..].
  apply Forall_forall. intros z Hz. rewrite compact_elem in Hz. apply elem_of_cons in Hz as [->|Hz]; [done|].
  rewrite Forall_forall in Hy. specialize (Hy z Hz). simpl in Hy. rewrite str_ltb_ge in Hy.
  destruct (str_lt_total y z) as [?|[<-|?]]; [by eapply str_lt_trans|done..].
Qed.
Lemma set_inventory_ne {GR : GoRuntime} members doc key key' : key <> key' -> set_inventory members doc key !! key' = doc !! key'.
Proof. intros Hk. unfold set_inventory. destruct (inventory key members); [by apply lookup_insert_ne|by apply lookup_delete_ne]. Qed.
Lemma set_inventory_eq {GR : GoRuntime} members doc key : set_inventory members doc key !! key
  = (fun names => names_json (compact (gosort str_ltb names))) <$> inventory key members.
Proof. unfold set_inventory. destruct (inventory key members); [apply lookup_insert_eq|apply lookup_delete_eq]. Qed.
Lemma inventory_spec key members :
  match inventory key members with
  | Some names => (forall m, m ∈ members -> is_Some (listed key m))
                  /\ forall n, n ∈ names <-> exists m l, m ∈ members /\ listed key m = Some l /\ n ∈ l
  | None => exists m, m ∈ members /\ listed key m = None
  end.
Proof.
  unfold inventory. destruct (mapM (listed key) members) as [ls|] eqn:E; simpl.
  - apply mapM_Some in E. split.
    + intros m (i & Hi)%list_elem_of_lookup. destruct (Forall2_lookup_l _ _ _ _ _ E Hi) as (l & _ & ->). by eexists.
    + intros n. rewrite list_elem_of_In, List.in_concat. setoid_rewrite <-list_elem_of_In. split.
      * intros (l & (i & Hi)%list_elem_of_lookup & Hn). destruct (Forall2_lookup_r _ _ _ _ _ E Hi) as (m & Hm & ?).
        exists m, l. split; [by eapply list_elem_of_lookup_2|done].
      * intros (m & l & (i & Hi)%list_elem_of_lookup & Hl & Hn). destruct (Forall2_lookup_l _ _ _ _ _ E Hi) as (l' & Hl' & E').
        exists l'. split; [by eapply list_elem_of_lookup_2|]. congruence.
  - by apply mapM_None, Exists_exists in E.
Qed.

(** A group promises a complete inventory only when every member does, and
    then it is their union: a client never learns that a package one member
    can serve does not exist. *)
Theorem composer_inventory_promise unmarshal {GR : GoRuntime} doc parts doc' key :
  mergeInventory unmarshal doc parts = Ok doc' -> key ∈ inventoryKeys ->
  exists members, mapM (fun part => decode_document unmarshal part.2) parts = Some members
    /\ match doc' !! key with
       | None => exists m, m ∈ members /\ listed key m = None
       | Some j => exists names, j = names_json names /\ StronglySorted str_lt names
           /\ (forall m, m ∈ members -> is_Some (listed key m))
           /\ forall n, n ∈ names <-> exists m l, m ∈ members /\ listed key m = Some l /\ n ∈ l
       end.
Proof.
  unfold mergeInventory. destruct (mapM _ parts) as [members|] eqn:E; [|done]. intros [= <-] Hk. exists members. split; [done|].
  assert (set_inventory members (set_inventory members doc "available-packages") "available-package-patterns" !! key
          = (fun names => names_json (compact (gosort str_ltb names))) <$> inventory key members) as ->.
  { unfold inventoryKeys in Hk. apply elem_of_cons in Hk as [->|Hk%list_elem_of_singleton]; [rewrite set_inventory_ne by done|subst key];
      apply set_inventory_eq. }
  pose proof (inventory_spec key members) as H. destruct (inventory key members) as [names|]; [|done]. simpl. destruct H as [Hall Hn].
  eexists. split; [done|]. split; [apply compact_sorted, gosort_sorted, strict_total_less; auto with fondaco|]. split; [done|].
  intros n. rewrite compact_elem, gosort_perm. apply Hn.
Qed.

(** *** The merged document of a package *)

Lemma entry_version_repoint e member base : entry_version (repointDist e member base) = entry_version e.
Proof.
  unfold repointDist, set_dist_url. destruct (dist_url e); [|done]. destruct (Cut _ _) as [[]|]; [|done].
  destruct (field_of as_map "dist" e); [|done]. unfold entry_version, Npm.field_of. by rewrite lookup_insert_ne.
Qed.
(** What the members list of a package, in their order. *)
Definition doc_versions (doc : gmap string json) (name : string) : list json :=
  match field_of as_map "packages" doc with
  | Some packages => match packages !! name with Some (JArr versions) => versions | _ => [] end
  | None => []
  end.
Definition offered (docs : list (string * gmap string json)) (name : string) : list (string * json) :=
  mjoin ((fun d => (fun item => (d.1, item)) <$> doc_versions d.2 name) <$> docs).
Definition keep (base : string) (kept : list (gmap string json)) (o : string * json) : list (gmap string json) :=
  add_entry o.1 base kept o.2.

Lemma add_packages_lookup member base kvs order name : NoDup kvs.*1 ->
  default [] (foldl (add_package member base) order kvs !! name)
  = foldl (add_entry member base) (default [] (order !! name))
      (match (list_to_map kvs : gmap string json) !! name with Some (JArr versions) => versions | _ => [] end).
Proof.
  revert order. induction kvs as [|[k j] kvs IH]; intros order; [done|]. cbn [fmap list_fmap fst]. intros [Hk Hd]%NoDup_cons.
  cbn [foldl]. rewrite IH by done. cbn [list_to_map]. destruct (decide (k = name)) as [<-|Hne].
  - simpl. rewrite lookup_insert_eq, (not_elem_of_list_to_map_1 _ k) by done.
    unfold add_package. simpl. destruct j; try done. by rewrite lookup_insert_eq.
  - simpl. rewrite lookup_insert_ne by done. f_equal. unfold add_package. simpl. destruct j; try done. by rewrite lookup_insert_ne.
Qed.
Lemma merge_document_lookup {GR : GoRuntime} base acc member doc name :
  default [] (mg_order (merge_document base acc member doc) !! name)
  = foldl (add_entry member base) (default [] (mg_order acc !! name)) (doc_versions doc name).
Proof.
  unfold merge_document, doc_versions. cbn [mg_order]. destruct (field_of as_map "packages" doc) as [packages|]; [|done].
  rewrite add_packages_lookup by (rewrite visit_perm; apply NoDup_fst_map_to_list). f_equal.
  rewrite (list_to_map_proper (visit (map_to_list packages)) (map_to_list packages)); [by rewrite list_to_map_to_list| |apply visit_perm].
  rewrite visit_perm. apply NoDup_fst_map_to_list.
Qed.
Lemma merge_documents_lookup unmarshal {GR : GoRuntime} base parts acc acc' : merge_documents unmarshal base parts acc = Some acc' ->
  exists docs, mapM (fun part => (fun doc => (part.1, doc)) <$> decode_document unmarshal part.2) parts = Some docs
    /\ forall name, default [] (mg_order acc' !! name) = foldl (keep base) (default [] (mg_order acc !! name)) (offered docs name).
Proof.
  revert acc. induction parts as [|[member body] parts IH]; intros acc; cbn [merge_documents].
  { intros [= <-]. by exists []. }
  destruct (decode_document unmarshal body) as [doc|] eqn:E; [|done]. cbn [mbind option_bind]. intros (docs & Hd & Hl)%IH.
  exists ((member, doc) :: docs). split; [cbn [mapM fst snd]; by rewrite E, Hd|]. intros name. rewrite Hl, merge_document_lookup.
  unfold offered. cbn [fmap list_fmap mjoin list_join fst snd]. rewrite foldl_app. f_equal.
  generalize (default [] (mg_order acc !! name)). generalize (doc_versions doc name). clear. intros l.
  induction l as [|x l IH]; intros kept; [done|]. cbn [fmap list_fmap foldl]. apply IH.
Qed.

(** Keeping the first of each version. *)
Lemma keep_spec base l kept : let kept' := foldl (keep base) kept l in
  (forall e, e ∈ kept -> e ∈ kept')
  /\ (NoDup (filter (fun v => v <> "") (entry_version <$> kept)) -> NoDup (filter (fun v => v <> "") (entry_version <$> kept')))
  /\ (forall o e0, o ∈ l -> as_map o.2 = Some e0 -> entry_version e0 ∈ (entry_version <$> kept'))
  /\ forall e, e ∈ kept' -> e ∈ kept \/ exists l1 member item l2 e0, l = l1 ++ (member, item) :: l2 /\ as_map item = Some e0
       /\ e = repointDist e0 member base /\ (entry_version e0 <> "" -> entry_version e0 ∉ (entry_version <$> kept)
         /\ forall o e1, o ∈ l1 -> as_map o.2 = Some e1 -> entry_version e1 <> entry_version e0).
Proof.
  revert kept. induction l as [|[member item] l IH]; intros kept; cbn [foldl].
  { split_and!; [done|done|by intros o e0 ?%elem_of_nil|by left]. }
  destruct (IH (keep base kept (member, item))) as (I1 & I2 & I3 & I4). set (kept' := foldl _ _ _) in *. clear IH.
  unfold keep, add_entry in I1, I2, I4. cbn [fst snd] in I1, I2, I4. destruct (as_map item) as [e0|] eqn:Ei.
  2: { split_and!; [done|done| |].
    - intros o e1 [->|?]%elem_of_cons Ho; [simpl in Ho; congruence|by eapply I3].
    - intros e [?|(l1 & m & i & l2 & e1 & -> & ? & ? & Hf)]%I4; [by left|]. right. exists ((member, item) :: l1), m, i, l2, e1. split_and!; try done.
      intros Hv. destruct (Hf Hv) as [? Hf']. split; [done|]. intros o e2 [->|?]%elem_of_cons Ho; [simpl in Ho; congruence|by eapply Hf']. }
  case_decide as Hd.
  - split_and!; [done|done| |].
    + intros o e1 [->|?]%elem_of_cons Ho; [|by eapply I3]. simpl in Ho. simplify_eq. destruct Hd as [_ Hd].
      apply list_elem_of_fmap in Hd as (e & -> & He). apply list_elem_of_fmap_2. by apply I1.
    + intros e [?|(l1 & m & i & l2 & e1 & -> & ? & ? & Hf)]%I4; [by left|]. right. exists ((member, item) :: l1), m, i, l2, e1. split_and!; try done.
      intros Hv. destruct (Hf Hv) as [Hn Hf']. split; [done|]. intros o e2 [->|?]%elem_of_cons Ho; [|by eapply Hf'].
      simpl in Ho. simplify_eq. intros E. apply Hn. rewrite <-E. by destruct Hd.
  - assert (entry_version e0 ∈ entry_version <$> kept') as He0.
    { rewrite <-(entry_version_repoint e0 member base). apply list_elem_of_fmap_2, I1. set_solver. }
    split_and!.
    + intros e He. apply I1. set_solver.
    + intros Hn. apply I2. rewrite fmap_app, filter_app. apply NoDup_app. split; [done|]. cbn [fmap list_fmap]. rewrite entry_version_repoint.
      split; [|rewrite filter_cons; case_decide; constructor; [by intros ?%elem_of_nil|constructor]].
      intros v [Hv Hin]%list_elem_of_filter [_ ->%list_elem_of_singleton]%list_elem_of_filter. by apply Hd.
    + intros o e1 [->|?]%elem_of_cons Ho; [|by eapply I3]. simpl in Ho. by simplify_eq.
    + intros e [He|(l1 & m & i & l2 & e1 & -> & ? & ? & Hf)]%I4.
      * apply elem_of_app in He as [?| ->%list_elem_of_singleton]; [by left|]. right. exists [], member, item, l, e0. split_and!; try done.
        intros Hv. split; [tauto|]. by intros ? ? ?%elem_of_nil.
      * right. exists ((member, item) :: l1), m, i, l2, e1. split_and!; try done. intros Hv. destruct (Hf Hv) as [Hn Hf'].
        rewrite fmap_app in Hn. cbn [fmap list_fmap] in Hn. rewrite entry_version_repoint in Hn. split; [set_solver|].
        intros o e2 [->|?]%elem_of_cons Ho; [|by eapply Hf']. simpl in Ho. simplify_eq. intros E. apply Hn. rewrite E. set_solver.
Qed.

(** A group's document of a package keeps the members' order of trust: every
    entry is one a member lists, fetched through the group, and no earlier
    member lists its version; every version listed is there, once. *)
Theorem composer_group_precedence external_url unmarshal marshal {GR : GoRuntime} f parts body :
  mergePackage external_url unmarshal marshal f parts = Ok body ->
  exists acc docs, body = marshal (of_map (merged_package acc))
    /\ mapM (fun part => (fun doc => (part.1, doc)) <$> decode_document unmarshal part.2) parts = Some docs
    /\ forall name, let l := offered docs name in let kept := default [] (mg_order acc !! name) in
        NoDup (filter (fun v => v <> "") (entry_version <$> kept))
        /\ (forall o e0, o ∈ l -> as_map o.2 = Some e0 -> entry_version e0 ∈ (entry_version <$> kept))
        /\ forall e, e ∈ kept -> exists l1 member item l2 e0, l = l1 ++ (member, item) :: l2 /\ as_map item = Some e0
             /\ e = repointDist e0 member (feedBase external_url f)
             /\ (entry_version e0 <> "" -> forall o e1, o ∈ l1 -> as_map o.2 = Some e1 -> entry_version e1 <> entry_version e0).
Proof.
  unfold mergePackage. destruct (merge_documents _ _ _ _) as [acc|] eqn:E; [|done]. case_decide; [done|]. intros [= <-].
  apply merge_documents_lookup in E as (docs & Hd & Hl). exists acc, docs. split; [done|]. split; [done|].
  intros name. set (l := offered docs name). set (kept := default [] (mg_order acc !! name)).
  destruct (keep_spec (feedBase external_url f) l []) as (_ & Hn & Ha & Hf). assert (foldl (keep (feedBase external_url f)) [] l = kept) as E.
  { unfold kept, l. rewrite Hl. cbn [mg_order]. by rewrite lookup_empty. }
  rewrite E in *. split; [apply Hn; constructor|]. split; [done|].
  intros e He. destruct (Hf e He) as [Hnil|(l1 & m & i & l2 & e0 & ? & ? & ? & Hv)]; [by apply elem_of_nil in Hnil|]. exists l1, m, i, l2, e0. split_and!; try done. intros Hne. apply (Hv Hne).
Qed.

(** ** Search *)

(** The page asked for, as long as its number is not absurd. *)
Theorem composer_search_page {A} page perPage (results : list A) :
  1 <= page -> 0 <= perPage <= searchMaxPerPage -> (page - 1) * perPage < 2 ^ 62 -> Z.of_nat (length results) < 2 ^ 62 ->
  search_page page perPage results = Some (take (Z.to_nat perPage) (drop (Z.to_nat ((page - 1) * perPage)) results)).
Proof.
  intros Hp Hpp Hm Hl. unfold search_page, searchMaxPerPage in *. set (total := Z.of_nat (length results)) in *.
  assert (0 <= (page - 1) * perPage) as H0 by (apply Z.mul_nonneg_nonneg; lia).
  destruct (decide (perPage = 0)) as [->|Hne].
  { replace (wrap64 (wrap64 (page - 1) * 0)) with 0 by (by rewrite Z.mul_0_r). rewrite Z.mul_0_r.
    destruct (Z.ltb_spec total 0); [lia|]. change (wrap64 (0 + 0)) with 0. destruct (Z.ltb_spec total 0); [lia|]. by rewrite decide_True. }
  assert (page - 1 <= (page - 1) * perPage) by (rewrite <-(Z.mul_1_r (page - 1)) at 1; apply Z.mul_le_mono_nonneg_l; lia).
  rewrite (wrap64_id (page - 1)) by lia. rewrite (wrap64_id ((page - 1) * perPage)) by lia.
  set (from := (page - 1) * perPage) in *. clearbody from.
  destruct (Z.ltb_spec total from) as [Hf|Hf]; rewrite wrap64_id by lia.
  - destruct (Z.ltb_spec total (total + perPage)); [|lia]. rewrite decide_True by lia. f_equal. rewrite Z.sub_diag.
    rewrite !drop_ge by lia. by rewrite !take_nil.
  - destruct (Z.ltb_spec total (from + perPage)) as [He|He]; rewrite decide_True by lia; f_equal.
    + rewrite !take_ge; [done|rewrite length_drop; lia..].
    + f_equal. lia.
Qed.
(** A page number a client may send panics the handler: the offset wraps. *)
Theorem composer_search_panics {A} (results : list A) :
  intParam "4611686018427387905" 1 = 2 ^ 62 + 1 /\ search_page (2 ^ 62 + 1) searchDefaultPerPage results = None.
Proof.
  split; [by vm_compute|]. unfold search_page, searchDefaultPerPage.
  replace (wrap64 (wrap64 (2 ^ 62 + 1 - 1) * 15)) with (- 2 ^ 62) by (by vm_compute).
  destruct (Z.ltb_spec (Z.of_nat (length results)) (- 2 ^ 62)); [lia|]. by rewrite decide_False by lia.
Qed.

(** ** Where this stops *)

(** An upload that is accepted and can never be fetched. *)
Theorem composer_dots_unreachable url_parse :
  parseUploadPath "packages/acme/lib/1..2.zip" = Ok ("acme", "lib", "1..2")
  /\ Parse url_parse (mkHttp "GET" "/packages/acme/lib/1..2.zip" ∅ "" "") = Err (not_found "invalid path").
Proof. done. Qed.
(** The manifest of an archive is any file whose name ends in composer.json. *)
Theorem composer_wrong_manifest : foldl better "" ["lib-1.0/composer.json"; "old-composer.json"] = "old-composer.json".
Proof. by vm_compute. Qed.
(** The order of versions goes in circles, so the newest is not defined. *)
Theorem composer_order_circular :
  compareComposerVersions "1.2" "1.10" = -1 /\ compareComposerVersions "1.10" "1.1a" = -1 /\ compareComposerVersions "1.1a" "1.2" = -1.
Proof. by vm_compute. Qed.

(** *** Documents in the minified form

    A document marked minified lists each version as what changed since the
    entry before it; a client expands it. *)
Definition expand_entry (before entry : gmap string json) : gmap string json :=
  map_fold (fun k v acc => if as_string v is Some "__unset" then delete k acc else <[k := v]> acc) before entry.
Fixpoint expand_from (before : gmap string json) (entries : list (gmap string json)) : list (gmap string json) :=
  match entries with
  | [] => []
  | e :: entries => let e := expand_entry before e in e :: expand_from e entries
  end.
(** What a client reads of a package. *)
Definition client_reads (doc : gmap string json) (name : string) : list (gmap string json) :=
  let entries := omap as_map (doc_versions doc name) in
  match field_of as_string "minified" doc with Some _ => expand_from ∅ entries | None => entries end.

Definition hosted_doc : gmap string json :=
  {[ "packages" := JObj [("acme/lib", JArr [JObj [("version", JStr "1.0"); ("autoload", JStr "src/")]])] ]}.
Definition minified_doc : gmap string json :=
  {[ "minified" := JStr "composer/2.0";
     "packages" := JObj [("acme/lib", JArr [JObj [("version", JStr "2.1"); ("license", JArr [JStr "MIT"])]; JObj [("version", JStr "2.0")]])] ]}.
Definition fields_read (key : string) (l : list (gmap string json)) : list (string * option json) :=
  (fun e => (entry_version e, e !! key)) <$> l.

(** Merging puts one member's entries behind another's and keeps the mark, so
    a client reads a version with what an unrelated entry says; and a reader
    of the metadata sees no license where it was left out as unchanged. *)
Theorem composer_minified_mixed :
  let acc := merge_document "" (merge_document "" (mkMerging ∅ ∅) "internal" hosted_doc) "packagist" minified_doc in
  fields_read "autoload" (client_reads minified_doc "acme/lib") = [("2.1", None); ("2.0", None)]
  /\ fields_read "autoload" (client_reads (merged_package acc) "acme/lib")
     = [("1.0", Some (JStr "src/")); ("2.1", Some (JStr "src/")); ("2.0", Some (JStr "src/"))].
Proof. by vm_compute. Qed.
Theorem composer_minified_license (unmarshal : string -> option json) body : unmarshal body = Some (of_map minified_doc) ->
  fields_read "license" (client_reads minified_doc "acme/lib") = [("2.1", Some (JArr [JStr "MIT"])); ("2.0", Some (JArr [JStr "MIT"]))]
  /\ ExtractMetadata unmarshal (composer_coord "acme/lib" "2.0") body = Some {[ Policies.MetaEcosystem := "Packagist" ]}.
Proof. intros H. split; [by vm_compute|]. unfold ExtractMetadata. rewrite H. by vm_compute. Qed.
End ComposerTheory.
