(* ===== verification/AdminApi.v ===== *)
(** * The admin API's configuration surface ([core/adminapi])

    [config.go] (authorization, the whole document, the read-modify-write every
    edit goes through), the handlers of [resources.go] and their routes of
    [router.go]. A replica's part of the state is [AW]: its configuration
    manager, the source all replicas share, and the feeds it was asked to
    reindex. An edit holds the site-wide lock from its read of the document to
    its write, so one request is one step; what may fail around it (the
    database, the lock) is part of [Deps].

    The YAML encoder and decoder, the JSON decoder and the text of Go's [%q]
    are parameters. The audit log is left out. *)

From S2P Require Import Prelude GoLib Access Store Pipeline Policies Auth Config ConfigManager YamlEdit Server WriteRoutes ModLib.
Open Scope Z_scope.

Module AdminApi.
Import Auth Config ConfigManager YamlEdit Server.

(** ** Answers *)

Inductive cfg_error :=
| NeedsDatabase
| LockFailed
| StaleVersion (have expected : string)
| BadCurrent
| EditFailed (e : edit_error)
| EncodeFailed
| FromManager (e : manager_error).

Inductive payload :=
| PError (msg : string)
| PCause (e : cfg_error)                                    (** an error's own text *)
| PDocument (version source : string) (writable : bool) (doc : string)
| PVersion (version : string) (created : option bool)
| PFeeds (version : string) (l : list FeedConfig)
| PFeed (f : FeedConfig)
| PAdmins (version : string) (l : list string)
| PPattern (version pattern : string)
| PIssuers (version : string) (l : list OIDCIssuer)
| PIssuer (o : OIDCIssuer)
| PPeers (version : string) (l : list PeerConfig)
| PPeer (p : PeerConfig)
| PPolicies (version : string) (l : list AccessPolicyConfig)
| PPolicy (p : AccessPolicyConfig)
| PBindings (version : string) (l : list BindingConfig)
| PBinding (b : BindingConfig).

Record Answer := mkAnswer { an_status : Z; an_etag : option string; an_body : payload }.

(** [writeError], and [writeJSON] without an ETag. *)
Definition writeError (status : Z) (msg : string) : Answer := mkAnswer status None (PError msg).
Definition fail : Answer := writeError 500 "internal error".
Definition writeJSON (status : Z) (body : payload) : Answer := mkAnswer status None body.

Definition quote_char : Ascii.ascii := Ascii.ascii_of_nat 34.
Definition etag (version : string) : string := String quote_char (version +:+ String quote_char "").
Definition tagged (status : Z) (version : string) (body : payload) : Answer :=
  mkAnswer status (Some (etag version)) body.

(** [trimQuotes], [trimETag]. *)
Definition trimQuotes (v : string) : string :=
  match v with
  | String c rest =>
      if decide (c = quote_char) then
        match cut_suffix rest (String quote_char "") with
        | (body, true) => body
        | (_, false) => v
        end
      else v
  | EmptyString => v
  end.

Definition trimETag (v : string) : string :=
  let v := trimQuotes v in if decide (v = "*") then "" else v.

(** [writeConfigError]. *)
Definition config_status (e : cfg_error) : Z :=
  match e with
  | StaleVersion _ _ | FromManager (FromSource (VersionConflict _ _)) => 409
  | FromManager (FromSource ReadOnly) => 409
  | NeedsDatabase | FromManager (FromSource (SourceFailed ErrUnavailable)) => 503
  | FromManager (FromSource (SourceFailed ErrNotFound)) => 404
  | FromManager (FromSource (SourceFailed ErrBadRequest)) => 400
  | _ => 422
  end.
Definition writeConfigError (e : cfg_error) : Answer := mkAnswer (config_status e) None (PCause e).

(** ** Authorization *)

(** What the API is given by the process it runs in. *)
Record Deps := mkDeps {
  dp_identify : option (HttpReq -> result string Authed);
  dp_access : option Engine;
  dp_reindex : bool;                      (** a reindexer is wired *)
  dp_db : bool;                           (** a database is configured *)
  dp_lock : bool;                         (** the lock can be taken *)
  dp_source : string;                     (** the source's description *)
  dp_writable : bool;
}.

Definition SysConfig : string := "sys/config".
Definition maxDocument : Z := 4 * 2 ^ 20.

Definition anonymous : Authed := mkAuthed Anonymous false.

Section authorization.
Context (d : Deps).

(** [identityOrRefusal]. *)
Definition identityOrRefusal (r : HttpReq) : Authed * string :=
  match dp_identify d with
  | None => (anonymous, "")
  | Some identify =>
      match identify r with
      | Ok id => (id, "")
      | Err e => (anonymous, if decide (header_get (rq_header r) "Authorization" = "") then "" else e)
      end
  end.

(** [allows]. *)
Definition allows (id : Identity) (path : string) (want : Capability) : Decision :=
  match dp_access d with
  | None => mkDecision false [] [] "" "" [] "access rules are not loaded"
  | Some engine => Explain engine id path want
  end.

(** [isAdmin]. *)
Definition isAdmin (id : Identity) : bool := d_allowed (allows id SysConfig CapUpdate).

(** [require]: the identity, or the answer that refuses the request. *)
Definition require (r : HttpReq) (path : string) (want : Capability) : result Answer Authed :=
  let '(id, refusal) := identityOrRefusal r in
  let dec := allows (au_id id) path want in
  if d_allowed dec then Ok id
  else if IsAnonymous (au_id id) then
    Err (writeError 401 (if decide (refusal <> "") then "the credential you offered was not accepted: " +:+ refusal
                         else Access.d_reason dec))
  else Err (writeError 403 (Access.d_reason dec)).

(** [requireAdmin]. *)
Definition requireAdmin (r : HttpReq) : result Answer Authed := require r SysConfig CapUpdate.
End authorization.

(** ** Edits of the document *)

(** A resource as it travels: [decodeBody]'s decoder and [yamlDocument]. *)
Class Wire (A : Type) := {
  from_json : string -> option A;
  to_node : A -> option node;
}.

Section api.
Context (Version : string -> string) {Src : Type} `{CS : !ConfigSource Version Src}.
Context (parse : string -> result parse_error Config) (semantic : Config -> bool).
(** [yaml.Unmarshal] into a node, [yaml.Marshal] of one, [%q]. *)
Context (yaml : string -> option node) (print : node -> option string) (quoted : string -> string).
Context `{!Wire FeedConfig, !Wire OIDCIssuer, !Wire PeerConfig, !Wire AccessPolicyConfig, !Wire BindingConfig}.
(** The body and the value of the administrator list. *)
Context `{!Wire (list string)}.
Context (d : Deps).

Record AW := mkAW { aw_manager : Manager; aw_src : Src; aw_reindexed : list string }.
Notation handler := (HttpReq -> AW -> AW * Answer).

Definition stored (w : AW) (m : Manager) (s : Src) : AW := mkAW m s (aw_reindexed w).
Definition current (w : AW) : Config := m_cur (aw_manager w).
Definition version (w : AW) : string := m_version (aw_manager w).

Definition decodeBody {A} `{!Wire A} (r : HttpReq) : option A := from_json (limit_read maxDocument (rq_body r)).
Definition bad_body : Answer := writeError 400 "parse body".

(** [replaceDocument]. *)
Definition replaceDocument (w : AW) (raw ifMatch : string) : AW * result cfg_error string :=
  if negb (dp_db d) then (w, Err NeedsDatabase)
  else if negb (dp_lock d) then (w, Err LockFailed)
  else
    match Update Version parse semantic (aw_manager w) (aw_src w) raw ifMatch with
    | (m, s, Err e) => (stored w m s, Err (FromManager e))
    | (m, s, Ok (_, v)) => (stored w m s, Ok v)
    end.

(** [mutateDocument]; [fn] may report something beside the changed tree. *)
Definition mutateDocument {A} (w : AW) (ifMatch : string) (fn : node -> result edit_error (node * A))
  : AW * result cfg_error (string * A) :=
  if negb (dp_db d) then (w, Err NeedsDatabase)
  else if negb (dp_lock d) then (w, Err LockFailed)
  else
    match src_read (aw_src w) with
    | Err e => (w, Err (FromManager (FromSource e)))
    | Ok raw =>
        if decide (ifMatch <> "" /\ ifMatch <> Version raw) then (w, Err (StaleVersion (Version raw) ifMatch))
        else
          match yaml raw with
          | None => (w, Err BadCurrent)
          | Some doc =>
              match fn doc with
              | Err e => (w, Err (EditFailed e))
              | Ok (doc, x) =>
                  match print doc with
                  | None => (w, Err EncodeFailed)
                  | Some updated =>
                      match Update Version parse semantic (aw_manager w) (aw_src w) updated (Version raw) with
                      | (m, s, Err e) => (stored w m s, Err (FromManager e))
                      | (m, s, Ok (_, v)) => (stored w m s, Ok (v, x))
                      end
                  end
              end
          end
    end.

Definition if_match (r : HttpReq) : string := trimETag (header_get (rq_header r) "If-Match").

(** The guard at the head of every handler. *)
Definition with_admin (r : HttpReq) (w : AW) (k : AW * Answer) : AW * Answer :=
  match requireAdmin d r with
  | Err a => (w, a)
  | Ok _ => k
  end.

(** The tails the handlers share: what a write answers, what a removal does. *)
Definition written (o : AW * result cfg_error (string * bool)) : AW * Answer :=
  match o with
  | (w, Err e) => (w, writeConfigError e)
  | (w, Ok (v, created)) => (w, tagged (if created then 201 else 200) v (PVersion v (Some created)))
  end.

Definition removed (missing : string) (o : AW * result cfg_error (string * bool)) : AW * Answer :=
  match o with
  | (w, Err e) => (w, writeConfigError e)
  | (w, Ok (v, found)) =>
      if negb found then (w, writeError 404 missing) else (w, tagged 200 v (PVersion v None))
  end.

(** ** Where each kind of resource lives *)

Definition feeds : Place := mkPlace None "feeds" "name".
Definition access_policies : Place := mkPlace None "access_policies" "name".
Definition bindings : Place := mkPlace None "bindings" "name".
Definition peers : Place := mkPlace (Some "replication") "peers" "name".
Definition issuers : Place := mkPlace (Some "auth") "oidc_issuers" "issuer".

(** ** The whole document *)

Definition handleGetConfig : handler := fun r w =>
  with_admin r w
    match src_read (aw_src w) with
    | Err _ => (w, fail)
    | Ok raw => (w, tagged 200 (Version raw) (PDocument (Version raw) (dp_source d) (dp_writable d) raw))
    end.

Definition handlePutConfig : handler := fun r w =>
  with_admin r w
    match replaceDocument w (limit_read maxDocument (rq_body r)) (if_match r) with
    | (w, Err e) => (w, writeConfigError e)
    | (w, Ok v) => (w, tagged 200 v (PVersion v None))
    end.

(** ** Feeds *)

Definition handleListFeeds : handler := fun r w =>
  with_admin r w (w, writeJSON 200 (PFeeds (version w) (cfg_feeds (current w)))).

Definition handleGetFeed (name : string) : handler := fun r w =>
  with_admin r w
    match List.find (fun f => bool_decide (fc_name f = name)) (cfg_feeds (current w)) with
    | Some f => (w, tagged 200 (version w) (PFeed f))
    | None => (w, writeError 404 ("no feed named " +:+ name))
    end.

Definition feed_named (f : FeedConfig) (name : string) : FeedConfig :=
  mkFeedCfg name (fc_format f) (fc_upstream f) (fc_anonymous f) (fc_hosted f) (fc_publishers f) (fc_upstream_rps f)
    (fc_redirect f) (fc_redirect_ttl f) (fc_publish_policy f) (fc_replication_mode f) (fc_peer_fallback f)
    (fc_policies f) (fc_members f).

Definition mismatch (what body name : string) : Answer :=
  writeError 400 (what +:+ " name in the body (" +:+ quoted body +:+ ") does not match the path (" +:+ quoted name +:+ ")").

Definition handlePutFeed (name : string) : handler := fun r w =>
  with_admin r w
    match decodeBody r with
    | None => (w, bad_body)
    | Some feed =>
        let feed := if decide (fc_name feed = "") then feed_named feed name else feed in
        if decide (fc_name feed <> name) then (w, mismatch "feed" (fc_name feed) name)
        else
          match mutateDocument w (if_match r) (upsert_at feeds name (to_node feed)) with
          | (w, Err e) => (w, writeConfigError e)
          | (w, Ok x) =>
              written (mkAW (aw_manager w) (aw_src w) (aw_reindexed w ++ (if dp_reindex d then [name] else [])), Ok x)
          end
    end.

Definition handleDeleteFeed (name : string) : handler := fun r w =>
  with_admin r w (removed ("no feed named " +:+ name) (mutateDocument w (if_match r) (remove_at feeds name))).

(** ** Administrators *)

Definition handleGetAdmins : handler := fun r w =>
  with_admin r w (w, tagged 200 (version w) (PAdmins (version w) (cfg_admins (current w)))).

Definition handlePutAdmins : handler := fun r w =>
  with_admin r w
    match decodeBody r with
    | None => (w, bad_body)
    | Some admins =>
        if decide (admins = []) then
          (w, writeError 400 "refusing to remove every administrator through the API: edit the document directly if that is intended")
        else
          match mutateDocument w (if_match r)
                  (fun doc => let? doc := setMappingKey doc "admins" (to_node admins) in Ok (doc, tt)) with
          | (w, Err e) => (w, writeConfigError e)
          | (w, Ok (v, _)) => (w, tagged 200 v (PVersion v None))
          end
    end.

Definition pattern_of (r : HttpReq) : string := query_get (rq_query r) "pattern".

Definition handleGetAdminBinding : handler := fun r w =>
  with_admin r w
    (let pattern := pattern_of r in
     if decide (pattern = "") then (w, writeError 400 "pattern is required")
     else if existsb (fun p => bool_decide (p = pattern)) (cfg_admins (current w)) then
       (w, tagged 200 (version w) (PPattern (version w) pattern))
     else (w, writeError 404 ("no administrator pattern " +:+ pattern))).

Definition handlePutAdminBinding : handler := fun r w =>
  with_admin r w
    (let pattern := pattern_of r in
     if decide (pattern = "") then (w, writeError 400 "pattern is required")
     else written (mutateDocument w (if_match r) (fun doc => addScalarToSequence doc "admins" pattern))).

Definition handleDeleteAdminBinding : handler := fun r w =>
  with_admin r w
    (let pattern := pattern_of r in
     if decide (pattern = "") then (w, writeError 400 "pattern is required")
     else if decide (cfg_admins (current w) = [pattern]) then
       (w, writeError 400 "refusing to remove the last administrator through the API: edit the document directly if that is intended")
     else removed ("no administrator pattern " +:+ pattern)
            (mutateDocument w (if_match r) (fun doc => removeScalarFromSequence doc "admins" pattern))).

(** ** OIDC issuers *)

Definition handleGetOIDC : handler := fun r w =>
  with_admin r w (w, tagged 200 (version w) (PIssuers (version w) (ac_oidc (cfg_auth (current w))))).

Definition issuer_of (r : HttpReq) : string := query_get (rq_query r) "issuer".

Definition handleGetOIDCIssuer : handler := fun r w =>
  with_admin r w
    (let issuer := issuer_of r in
     if decide (issuer = "") then (w, writeError 400 "issuer is required")
     else
       match List.find (fun o => bool_decide (oi_issuer o = issuer)) (ac_oidc (cfg_auth (current w))) with
       | Some o => (w, tagged 200 (version w) (PIssuer o))
       | None => (w, writeError 404 ("no OIDC issuer " +:+ issuer))
       end).

Definition issuer_named (o : OIDCIssuer) (issuer : string) : OIDCIssuer :=
  mkOIDC issuer (oi_audience o) (oi_jwks_url o) (oi_client_id o) (oi_client_secret_env o) (oi_scopes o)
    (oi_authorization_endpoint o) (oi_token_endpoint o).

Definition handlePutOIDCIssuer : handler := fun r w =>
  with_admin r w
    match decodeBody r with
    | None => (w, bad_body)
    | Some issuer =>
        let q := issuer_of r in
        let issuer := if decide (oi_issuer issuer = "") then issuer_named issuer q else issuer in
        if decide (oi_issuer issuer = "") then (w, writeError 400 "issuer is required")
        else if decide (q <> "" /\ q <> oi_issuer issuer) then
          (w, writeError 400 "issuer in the body does not match the query parameter")
        else written (mutateDocument w (if_match r) (upsert_at issuers (oi_issuer issuer) (to_node issuer)))
    end.

Definition handleDeleteOIDCIssuer : handler := fun r w =>
  with_admin r w
    (let issuer := issuer_of r in
     if decide (issuer = "") then (w, writeError 400 "issuer is required")
     else removed ("no OIDC issuer " +:+ issuer) (mutateDocument w (if_match r) (remove_at issuers issuer))).

(** ** Replication peers *)

Definition handleGetPeer (name : string) : handler := fun r w =>
  with_admin r w
    match List.find (fun p => bool_decide (pc_name p = name)) (rc_peers (cfg_replication (current w))) with
    | Some p => (w, tagged 200 (version w) (PPeer p))
    | None => (w, writeError 404 ("no peer named " +:+ name))
    end.

Definition handleGetPeers : handler := fun r w =>
  with_admin r w (w, tagged 200 (version w) (PPeers (version w) (rc_peers (cfg_replication (current w))))).

Definition peer_named (p : PeerConfig) (name : string) : PeerConfig :=
  mkPeer name (pc_url p) (pc_public_url p) (pc_pull_interval p).

Definition handlePutPeer (name : string) : handler := fun r w =>
  with_admin r w
    match decodeBody r with
    | None => (w, bad_body)
    | Some peer =>
        let peer := if decide (pc_name peer = "") then peer_named peer name else peer in
        if decide (pc_name peer <> name) then (w, writeError 400 "peer name in the body does not match the path")
        else written (mutateDocument w (if_match r) (upsert_at peers name (to_node peer)))
    end.

Definition handleDeletePeer (name : string) : handler := fun r w =>
  with_admin r w (removed ("no peer named " +:+ name) (mutateDocument w (if_match r) (remove_at peers name))).

(** ** Access policies and bindings *)

Definition handleListAccessPolicies : handler := fun r w =>
  with_admin r w (w, writeJSON 200 (PPolicies (version w) (cfg_access_policies (current w)))).

Definition handleGetAccessPolicy (name : string) : handler := fun r w =>
  with_admin r w
    match List.find (fun p => bool_decide (ap_name p = name)) (cfg_access_policies (current w)) with
    | Some p => (w, tagged 200 (version w) (PPolicy p))
    | None => (w, writeError 404 ("no access policy named " +:+ name))
    end.

Definition handlePutAccessPolicy (name : string) : handler := fun r w =>
  with_admin r w
    match decodeBody r with
    | None => (w, bad_body)
    | Some policy =>
        let policy := if decide (ap_name policy = "") then mkPolicyCfg name (ap_rules policy) else policy in
        if decide (ap_name policy <> name) then (w, mismatch "policy" (ap_name policy) name)
        else written (mutateDocument w (if_match r) (upsert_at access_policies name (to_node policy)))
    end.

Definition handleDeleteAccessPolicy (name : string) : handler := fun r w =>
  with_admin r w
    match List.find (fun b => bool_decide (name ∈ b_policies b)) (cfg_bindings (current w)) with
    | Some b =>
        (w, writeError 409 ("binding " +:+ b_name b +:+ " still attaches policy " +:+ name
                            +:+ "; remove it from the binding first"))
    | None =>
        removed ("no access policy named " +:+ name) (mutateDocument w (if_match r) (remove_at access_policies name))
    end.

Definition handleListBindings : handler := fun r w =>
  with_admin r w (w, writeJSON 200 (PBindings (version w) (cfg_bindings (current w)))).

Definition handleGetBinding (name : string) : handler := fun r w =>
  with_admin r w
    match List.find (fun b => bool_decide (b_name b = name)) (cfg_bindings (current w)) with
    | Some b => (w, tagged 200 (version w) (PBinding b))
    | None => (w, writeError 404 ("no binding named " +:+ name))
    end.

Definition handlePutBinding (name : string) : handler := fun r w =>
  with_admin r w
    match decodeBody r with
    | None => (w, bad_body)
    | Some binding =>
        let binding := if decide (b_name binding = "") then mkBindingCfg name (b_policies binding) (b_match binding)
                       else binding in
        if decide (b_name binding <> name) then (w, mismatch "binding" (b_name binding) name)
        else written (mutateDocument w (if_match r) (upsert_at bindings name (to_node binding)))
    end.

Definition handleDeleteBinding (name : string) : handler := fun r w =>
  with_admin r w (removed ("no binding named " +:+ name) (mutateDocument w (if_match r) (remove_at bindings name))).

(** ** Routes *)

(** A path as the router splits it; a variable takes one segment. *)
Inductive segment := Lit (s : string) | Var.
Fixpoint match_route (pattern : list segment) (path : list string) : option (list string) :=
  match pattern, path with
  | [], [] => Some []
  | Lit s :: ps, x :: xs => if decide (s = x) then match_route ps xs else None
  | Var :: ps, x :: xs => if decide (x = "") then None else (x ::.) <$> match_route ps xs
  | _, _ => None
  end.

Definition route : Type := string * list segment * (list string -> handler).
Definition fixed (h : handler) : list string -> handler := fun _ => h.
Definition named (h : string -> handler) : list string -> handler := fun vars => h (default "" (head vars)).

(** The configuration part of [Handler]'s table. *)
Definition config_routes : list route :=
  let at_ s := [Lit "config"; Lit s] in
  let in_access s := [Lit "config"; Lit "access"; Lit s] in
  [ ("GET", [Lit "config"], fixed handleGetConfig);
    ("PUT", [Lit "config"], fixed handlePutConfig);
    ("GET", at_ "feeds", fixed handleListFeeds);
    ("GET", at_ "feeds" ++ [Var], named handleGetFeed);
    ("PUT", at_ "feeds" ++ [Var], named handlePutFeed);
    ("DELETE", at_ "feeds" ++ [Var], named handleDeleteFeed);
    ("GET", at_ "admins", fixed handleGetAdmins);
    ("PUT", at_ "admins", fixed handlePutAdmins);
    ("GET", at_ "admins" ++ [Lit "binding"], fixed handleGetAdminBinding);
    ("PUT", at_ "admins" ++ [Lit "binding"], fixed handlePutAdminBinding);
    ("DELETE", at_ "admins" ++ [Lit "binding"], fixed handleDeleteAdminBinding);
    ("GET", at_ "oidc", fixed handleGetOIDC);
    ("GET", at_ "oidc" ++ [Lit "issuer"], fixed handleGetOIDCIssuer);
    ("PUT", at_ "oidc" ++ [Lit "issuer"], fixed handlePutOIDCIssuer);
    ("DELETE", at_ "oidc" ++ [Lit "issuer"], fixed handleDeleteOIDCIssuer);
    ("GET", in_access "policies", fixed handleListAccessPolicies);
    ("GET", in_access "policies" ++ [Var], named handleGetAccessPolicy);
    ("PUT", in_access "policies" ++ [Var], named handlePutAccessPolicy);
    ("DELETE", in_access "policies" ++ [Var], named handleDeleteAccessPolicy);
    ("GET", in_access "bindings", fixed handleListBindings);
    ("GET", in_access "bindings" ++ [Var], named handleGetBinding);
    ("PUT", in_access "bindings" ++ [Var], named handlePutBinding);
    ("DELETE", in_access "bindings" ++ [Var], named handleDeleteBinding);
    ("GET", at_ "peers", fixed handleGetPeers);
    ("GET", at_ "peers" ++ [Var], named handleGetPeer);
    ("PUT", at_ "peers" ++ [Var], named handlePutPeer);
    ("DELETE", at_ "peers" ++ [Var], named handleDeletePeer) ].

(** The router's choice: no such path, no such method on it, or the handler. *)
Definition serve_routes (routes : list route) : handler := fun r w =>
  let path := split (trim_prefix (rq_path r) "/") "/"%char in
  let here := omap (fun rt : route => (fun vars => (rt.1.1, rt.2 vars)) <$> match_route rt.1.2 path) routes in
  match here with
  | [] => (w, writeError 404 "no such endpoint")
  | _ =>
      match List.find (fun mh => bool_decide (mh.1 = rq_method r)) here with
      | Some (_, h) => h r w
      | None => (w, writeError 405 "method not allowed on this endpoint")
      end
  end.

Definition Handler : handler := serve_routes config_routes.
End api.
End AdminApi.
