(* ===== verification/AdminTheory.v ===== *)
(** * Theorems about the configuration API

    Who may change the configuration; what an edit does to the document and
    what it leaves alone; that what was written is what is read back. The API
    is specified as a table of named items ([table]): a request to put or to
    remove one item changes that entry and no other ([table_spec]), whatever
    else the document holds and whichever replica serves it. *)

From S2P Require Import Prelude GoLib Access Store Pipeline Policies Auth Config ConfigManager YamlEdit Server WriteRoutes ModLib AdminApi.
Open Scope Z_scope.

Module AdminTheory.
Import Auth Config ConfigManager YamlEdit Server AdminApi.

Definition success (a : Answer) : bool := (200 <=? an_status a) && (an_status a <? 300).

(** ** Who may ask *)

Section guards.
Context (Version : string -> string) {Src : Type} `{CS : !ConfigSource Version Src}.
Context (parse : string -> result parse_error Config) (semantic : Config -> bool).
Context (yaml : string -> option node) (print : node -> option string) (quoted : string -> string).
Context `{!Wire FeedConfig, !Wire OIDCIssuer, !Wire PeerConfig, !Wire AccessPolicyConfig, !Wire BindingConfig}.
Context `{!Wire (list string)}.
Context (d : Deps).

Notation AW := (AW (Src := Src)).
Notation handler := (HttpReq -> AW -> AW * Answer).
Notation Handler := (Handler Version parse semantic yaml print quoted d).
Notation config_routes := (config_routes Version parse semantic yaml print quoted d).

(** The caller, and that the engine in force grants it the right. *)
Definition entitled (r : HttpReq) (path : string) (want : Capability) : Prop :=
  exists e, dp_access d = Some e /\ Allowed e (au_id (identityOrRefusal d r).1) path want = true.

Lemma require_entitled r path want id :
  require d r path want = Ok id -> entitled r path want /\ id = (identityOrRefusal d r).1.
Proof.
  unfold require, entitled. destruct (identityOrRefusal d r) as [i refusal]. simpl. unfold allows.
  destruct (dp_access d) as [e|]; simpl; [|by destruct (IsAnonymous _)].
  destruct (d_allowed (Explain e (au_id i) path want)) eqn:Hd; [|by destruct (IsAnonymous _)].
  intros [= <-]. split; [|done]. exists e. by split.
Qed.

Lemma require_refuses r path want a :
  require d r path want = Err a -> an_status a = 401 \/ an_status a = 403.
Proof.
  unfold require. destruct (identityOrRefusal d r) as [i refusal]. destruct (d_allowed _); [done|].
  destruct (IsAnonymous _); intros [= <-]; [by left|by right].
Qed.

(** A handler that starts with the guard. *)
Definition guarded (h : handler) : Prop :=
  forall r w, (exists id, requireAdmin d r = Ok id) \/ exists a, requireAdmin d r = Err a /\ h r w = (w, a).

Lemma with_admin_guarded (k : HttpReq -> AW -> AW * Answer) : guarded (fun r w => with_admin d r w (k r w)).
Proof.
  intros r w. unfold with_admin. destruct (requireAdmin d r) as [id|a] eqn:E; [left; by eexists|]. right. by eexists.
Qed.

Lemma routes_guarded : Forall (fun rt : route => forall vars, guarded (rt.2 vars)) config_routes.
Proof.
  unfold config_routes. repeat (apply Forall_cons; split; [intros vars; apply with_admin_guarded|]). apply Forall_nil. done.
Qed.

(** What the router calls is one of the routes' handlers, on its own variables. *)
Lemma serve_routes_cases (routes : list route) r (w w' : AW) a :
  serve_routes routes r w = (w', a) ->
  (w' = w /\ success a = false)
  \/ exists rt vars, rt ∈ routes /\ rt.1.1 = rq_method r
       /\ match_route rt.1.2 (split (trim_prefix (rq_path r) "/") "/"%char) = Some vars /\ rt.2 vars r w = (w', a).
Proof.
  unfold serve_routes. set (path := split _ _). set (here := omap _ routes). intros Hs.
  assert (here = [] \/ match List.find (fun mh => bool_decide (mh.1 = rq_method r)) here with
          | Some (_, h) => h r w
          | None => (w, writeError 405 "method not allowed on this endpoint")
          end = (w', a)) as [He|Hf].
  { destruct here as [|x l]; [by left|right; exact Hs]. }
  - rewrite He in Hs. injection Hs as <- <-. by left.
  - clear Hs. destruct (List.find _ _) as [[me h]|] eqn:Ef; [|injection Hf as <- <-; by left]. right.
    apply List.find_some in Ef as [Hin Hm]. apply list_elem_of_In, list_elem_of_omap in Hin as (rt & Hrt & Hv).
    destruct (match_route rt.1.2 path) as [vars|] eqn:Em; [|done]. injection Hv as <- <-. simpl in Hm.
    exists rt, vars. split; [done|]. split; [by apply bool_decide_eq_true in Hm|]. by split.
Qed.

(** C29. Nothing of the configuration is changed, and nothing of it shown, for a
    caller the rules in force do not allow to update [sys/config]: a request
    that changes the document, the snapshot or the reindex queue, or is
    answered with success, came from an entitled identity. *)
Theorem config_needs_authority r (w w' : AW) a :
  Handler r w = (w', a) -> w' <> w \/ success a = true -> entitled r SysConfig CapUpdate.
Proof.
  unfold AdminApi.Handler. intros Hh Hw. apply serve_routes_cases in Hh as [[-> Hs]|(rt & vars & Hrt & _ & _ & Hc)];
    [destruct Hw as [|Hw]; [done|by rewrite Hs in Hw]|].
  pose proof routes_guarded as Hall. rewrite Forall_forall in Hall.
  destruct (Hall rt Hrt vars r w) as [[id Hid]|(a' & Ha & Heq)]; clear Hall.
  - by apply require_entitled in Hid as [? _].
  - rewrite Heq in Hc. injection Hc as <- <-. apply require_refuses in Ha. unfold success in Hw. destruct Hw as [|Hw]; [done|].
    destruct Ha as [Ha|Ha]; by rewrite Ha in Hw.
Qed.
End guards.

(** A failed edit's answer. *)
Lemma config_error_fails e : success (writeConfigError e) = false.
Proof. by destruct e as [| | | | | |[[| | |[]]| |]]. Qed.

(** ** Edits *)

Section edits.
Context (Version : string -> string) {Src : Type} `{CS : !ConfigSource Version Src}.
Context (parse : string -> result parse_error Config) (semantic : Config -> bool).
Context (yaml : string -> option node) (print : node -> option string).
Context (d : Deps).
Notation AW := (AW (Src := Src)).

(** The parsed document a replica finds in the source. *)
Definition tree (s : Src) : option node := raw ← src_doc s; yaml raw.

Lemma Update_cases m (s : Src) raw ifMatch m' s' r :
  Update Version parse semantic m s raw ifMatch = (m', s', r) ->
  match r with
  | Err _ => m' = m /\ src_doc s' = src_doc s
  | Ok (c, v) => accept parse semantic raw = Ok c /\ v = Version raw /\ m_cur m' = c /\ m_version m' = v
      /\ (Z.of_nat (String.length raw) <= doc_limit -> src_doc s' = Some raw)
      /\ (ifMatch <> "" -> default "" (Version <$> src_doc s) = ifMatch)
  end.
Proof.
  unfold Update. destruct (accept parse semantic raw) as [c|e]; [|by intros [= <- <- <-]].
  destruct (src_write s raw ifMatch) as [s1 [v|e]] eqn:Ew; intros [= <- <- <-].
  - apply write_ok in Ew as (-> & Hd & Hm). done.
  - split; [done|]. by eapply write_err.
Qed.

(** An edit that succeeds read a document, changed its tree and stored the
    text of the result; one that fails changes nothing. *)
Lemma mutate_cases {A} (w : AW) ifMatch (fn : node -> result edit_error (node * A)) w' res :
  mutateDocument Version parse semantic yaml print d w ifMatch fn = (w', res) ->
  aw_reindexed w' = aw_reindexed w /\
  match res with
  | Err _ => aw_manager w' = aw_manager w /\ src_doc (aw_src w') = src_doc (aw_src w)
  | Ok (v, x) => exists raw doc doc' raw' c,
      src_doc (aw_src w) = Some raw /\ (ifMatch = "" \/ ifMatch = Version raw) /\ yaml raw = Some doc
      /\ fn doc = Ok (doc', x) /\ print doc' = Some raw' /\ accept parse semantic raw' = Ok c
      /\ v = Version raw' /\ version w' = v /\ current w' = c
      /\ (Z.of_nat (String.length raw') <= doc_limit -> src_doc (aw_src w') = Some raw')
  end.
Proof.
  unfold mutateDocument. destruct (dp_db d), (dp_lock d); simpl; [|by intros [= <- <-]..].
  destruct (src_read (aw_src w)) as [raw|e] eqn:Er; [|by intros [= <- <-]].
  apply read_sound in Er. case_decide as Hm; [by intros [= <- <-]|].
  destruct (yaml raw) as [doc|] eqn:Ey; [|by intros [= <- <-]].
  destruct (fn doc) as [[doc' x]|e] eqn:Ef; [|by intros [= <- <-]].
  destruct (print doc') as [raw'|] eqn:Ep; [|by intros [= <- <-]].
  destruct (Update _ _ _ _ _ _ _) as [[m s] r] eqn:Eu. apply Update_cases in Eu.
  destruct r as [[c v]|e]; intros [= <- <-]; (split; [done|]); [|exact Eu].
  destruct Eu as (Ha & -> & Hc & Hv & Hd & _). exists raw, doc, doc', raw', c.
  split; [done|]. split; [destruct (decide (ifMatch = "")); [by left|right]; destruct (decide (ifMatch = Version raw)); naive_solver|]. done.
Qed.

(** A database that cannot give the lock is reported like an invalid document
    (422), a missing one as a service that is unavailable (503). *)
Theorem outage_reads_as_invalid {A} (w : AW) ifMatch (fn : node -> result edit_error (node * A)) :
  dp_db d = true -> dp_lock d = false ->
  mutateDocument Version parse semantic yaml print d w ifMatch fn = (w, Err LockFailed)
  /\ an_status (writeConfigError LockFailed) = 422 /\ an_status (writeConfigError NeedsDatabase) = 503.
Proof. intros Hdb Hl. unfold mutateDocument. by rewrite Hdb, Hl. Qed.

(** A document longer than the limit is cut, and what is left of it is stored
    when it is valid. *)
Theorem oversized_config_cut r (w w' : AW) a :
  handlePutConfig Version parse semantic d r w = (w', a) -> success a = true ->
  maxDocument < Z.of_nat (String.length (rq_body r)) ->
  src_doc (aw_src w') = Some (limit_read maxDocument (rq_body r)) /\ limit_read maxDocument (rq_body r) <> rq_body r.
Proof.
  intros Hh Hs Hlen.
  assert (Z.of_nat (String.length (limit_read maxDocument (rq_body r))) <= maxDocument) as Hcut
    by (apply limit_read_length; done).
  split; [|intros He; rewrite He in Hcut; lia].
  unfold handlePutConfig, with_admin in Hh.
  destruct (requireAdmin d r) as [id|b] eqn:E.
  2: { injection Hh as <- <-. apply require_refuses in E. unfold success in Hs. destruct E as [E|E]; by rewrite E in Hs. }
  unfold replaceDocument in Hh. destruct (dp_db d), (dp_lock d); simpl in Hh; try (injection Hh as <- <-; discriminate).
  destruct (Update _ _ _ _ _ _ _) as [[m s] [[c v]|e]] eqn:Eu; injection Hh as <- <-.
  - apply Update_cases in Eu as (_ & _ & _ & _ & Hd & _). apply Hd. etrans; [exact Hcut|by vm_compute].
  - by rewrite config_error_fails in Hs.
Qed.
End edits.

(** ** The table of items *)

(** The documented behaviour of the YAML library the edits rely on: a text
    parses to a well-formed tree, the text printed for a document, if it
    parses, parses to that document (it may not: an alias whose anchor was
    removed), and documents stay within the size a reader takes. *)
Class YamlLaws (yaml : string -> option node) (print : node -> option string) := {
  yaml_wf : forall raw n, yaml raw = Some n -> wf n = true;
  yaml_print : forall n raw n', wf n = true -> is_document n = true -> print n = Some raw -> yaml raw = Some n' -> n' = n;
  print_fits : forall n raw, print n = Some raw -> Z.of_nat (String.length raw) <= doc_limit;
}.

(** What encoding a resource keeps: the field that names it. *)
Class WireLaws (A : Type) `{!Wire A} (field : string) (name_of : A -> string) := {
  to_node_named : forall a n, to_node a = Some n -> wf n = true /\ mappingField n field = name_of a;
}.

(** The list of administrators: a list of scalars. *)
Class ListLaws `{!Wire (list string)} := {
  to_node_list : forall l n, to_node l = Some n -> n = Node SequenceNode "" (map Scalar l);
}.

(** Decoding the document reads its lists item by item: what was encoded comes
    back, under the name its field has. *)
Class DecodeLaws (strict : node -> option Config) (A : Type) `{!Wire A} (pl : Place) (name_of : A -> string)
  (list_of : Config -> list A) := {
  of_node : node -> option A;
  of_node_list : forall doc c, strict doc = Some c -> mapM of_node (entries doc pl) = Some (list_of c);
  of_to_node : forall a n, to_node a = Some n -> of_node n = Some a;
  of_node_name : forall n a, of_node n = Some a -> name_of a = mappingField n (pl_field pl);
}.

Definition resource_places : list Place := [feeds; access_policies; bindings; peers; issuers].
Definition admins : Place := mkPlace None "admins" "".

Definition table : Type := Place -> string -> option node.
Definition same (t t' : table) : Prop := forall pl name, pl ∈ resource_places -> t' pl name = t pl name.
Definition becomes (t : table) (pl : Place) (name : string) (o : option node) (t' : table) : Prop :=
  forall pl' name', pl' ∈ resource_places -> t' pl' name' = if decide (pl' = pl /\ name' = name) then o else t pl' name'.

(** A document the API can edit: a mapping, the sections it uses mappings or
    absent, and no name twice in a list. *)
Record tidy (doc : node) : Prop := {
  td_document : is_document doc = true;
  td_root : is_Some (documentRoot doc);
  td_section : forall pl, pl ∈ resource_places -> section_ok doc pl;
  td_once : forall pl name, pl ∈ resource_places -> named_once (pl_field pl) name (entries doc pl);
}.

Definition place_head (pl : Place) : string := default (pl_key pl) (pl_section pl).

Lemma head_place_path pl : head (place_path pl) = Some (place_head pl).
Proof. by destruct pl as [[]]. Qed.

Lemma places_part pl pl' :
  pl ∈ resource_places -> pl' ∈ admins :: resource_places -> place_head pl = place_head pl' -> pl = pl'.
Proof.
  intros H1 H2. repeat (apply elem_of_cons in H1 as [->|H1]); try (by apply not_elem_of_nil in H1);
    repeat (apply elem_of_cons in H2 as [->|H2]); try (by apply not_elem_of_nil in H2); done.
Qed.

Lemma admins_apart : admins ∉ resource_places.
Proof. by apply (bool_decide_eq_false (admins ∈ resource_places)). Qed.

(** An edit of one list leaves the others. *)
Lemma edited_other pl pl' doc doc' l :
  edited pl doc doc' l -> pl' ∈ resource_places -> pl ∈ admins :: resource_places -> pl' <> pl ->
  entries doc' pl' = entries doc pl' /\ (section_ok doc pl' -> section_ok doc' pl').
Proof.
  intros He Hpl' Hpl Hne.
  assert (forall p, at_path doc' (place_head pl' :: p) = at_path doc (place_head pl' :: p)) as Hp.
  { intros p. eapply edited_elsewhere; [done|]. rewrite head_place_path. intros [= Hh].
    by apply Hne, places_part. }
  split.
  - unfold entries. f_equal. destruct pl' as [[s|] k f]; apply Hp.
  - unfold section_ok. intros Hs s n Hsec. rewrite findMapping_path. destruct pl' as [? k f]; simpl in *. subst.
    rewrite (Hp [] : at_path doc' [s] = at_path doc [s]), <-findMapping_path. by apply Hs.
Qed.

Lemma edited_tidy pl doc doc' l :
  edited pl doc doc' l -> pl ∈ admins :: resource_places -> tidy doc ->
  (pl ∈ resource_places -> forall name, named_once (pl_field pl) name l) -> tidy doc'.
Proof.
  intros He Hpl [Hdoc Hr Hs Ho] Hl. split.
  - by rewrite (ed_document _ _ _ _ He).
  - apply He.
  - intros pl' Hpl'. destruct (decide (pl' = pl)) as [->|Hne]; [apply He|].
    by apply (edited_other _ _ _ _ _ He Hpl' Hpl Hne), Hs.
  - intros pl' name Hpl'. destruct (decide (pl' = pl)) as [->|Hne]; [rewrite (ed_entries _ _ _ _ He); by apply Hl|].
    destruct (edited_other _ _ _ _ _ He Hpl' Hpl Hne) as [-> _]. by apply Ho.
Qed.

Lemma edited_entry pl doc doc' l pl' name :
  edited pl doc doc' l -> pl ∈ admins :: resource_places -> pl' ∈ resource_places ->
  entry doc' pl' name = if decide (pl' = pl) then find_item (pl_field pl) name l else entry doc pl' name.
Proof.
  intros He Hpl Hpl'. case_decide as Hp.
  - subst pl'. unfold entry. by rewrite (ed_entries _ _ _ _ He).
  - unfold entry. by destruct (edited_other _ _ _ _ _ He Hpl' Hpl Hp) as [-> _].
Qed.

Section table.
Context (Version : string -> string) {Src : Type} `{CS : !ConfigSource Version Src}.
Context (yaml : string -> option node) (print : node -> option string) `{YL : !YamlLaws yaml print}.
Context (strict : node -> option Config) (env file : string -> option string) (validate : Config -> list violation).
Context (semantic : Config -> bool) (quoted : string -> string).
Context `{WF : !Wire FeedConfig, WO : !Wire OIDCIssuer, WP : !Wire PeerConfig,
          WA : !Wire AccessPolicyConfig, WB : !Wire BindingConfig, WL : !Wire (list string)}.
Context `{LF : !WireLaws FeedConfig "name" fc_name, LO : !WireLaws OIDCIssuer "issuer" oi_issuer,
          LP : !WireLaws PeerConfig "name" pc_name, LA : !WireLaws AccessPolicyConfig "name" ap_name,
          LB : !WireLaws BindingConfig "name" b_name, LL : !ListLaws}.
Context (d : Deps).
Notation AW := (AW (Src := Src)).
Notation parse := (Parse yaml strict env file validate).
Notation mutateDocument := (mutateDocument Version parse semantic yaml print d).
Notation Handler := (Handler Version parse semantic yaml print quoted d).

(** The items of the document in a source. *)
Definition view (s : Src) : table := fun pl name => doc ← tree Version yaml s; entry doc pl name.
Definition tidy_at (s : Src) : Prop := forall doc, tree Version yaml s = Some doc -> tidy doc.

(** *** What a request is about *)

Definition segments (r : HttpReq) : list string := split (trim_prefix (rq_path r) "/") "/"%char.

(** The item a request names. An issuer is named in the query, or in the body. *)
Definition target (r : HttpReq) : option (Place * string) :=
  match segments r with
  | [c; k; x] =>
      if decide (c = "config" /\ k = "feeds") then Some (feeds, x)
      else if decide (c = "config" /\ k = "peers") then Some (peers, x)
      else if decide (c = "config" /\ k = "oidc" /\ x = "issuer") then
        Some (issuers, if decide (issuer_of r = "") then default "" (oi_issuer <$> decodeBody r) else issuer_of r)
      else None
  | [c; k; l; x] =>
      if decide (c = "config" /\ k = "access" /\ l = "policies") then Some (access_policies, x)
      else if decide (c = "config" /\ k = "access" /\ l = "bindings") then Some (bindings, x)
      else None
  | _ => None
  end.


(** The resource a request carries, under the name its path gives it: as it is
    shown, and as it is written into the document. *)
Definition carried (r : HttpReq) : option (payload * option node) :=
  match target r with
  | None => None
  | Some (pl, x) =>
      if decide (pl = feeds) then
        f ← decodeBody r; let f := feed_named f x in Some (PFeed f, to_node f)
      else if decide (pl = access_policies) then
        p ← decodeBody r; let p := mkPolicyCfg x (ap_rules p) in Some (PPolicy p, to_node p)
      else if decide (pl = bindings) then
        b ← decodeBody r; let b := mkBindingCfg x (b_policies b) (b_match b) in Some (PBinding b, to_node b)
      else if decide (pl = peers) then
        p ← decodeBody r; let p := peer_named p x in Some (PPeer p, to_node p)
      else o ← decodeBody r; let o := issuer_named o x in Some (PIssuer o, to_node o)
  end.

(** The request replaces the whole document. *)
Definition whole (r : HttpReq) : Prop := rq_method r = "PUT" /\ segments r = ["config"].

(** What a request does to the table, by its answer. *)
Definition table_spec (r : HttpReq) (a : Answer) (t t' : table) : Prop :=
  match target r with
  | None => same t t'
  | Some (pl, name) =>
      if success a then
        if decide (rq_method r = "PUT") then
          exists shown n, carried r = Some (shown, Some n) /\ becomes t pl name (Some n) t'
            /\ an_status a = (if decide (t pl name = None) then 201 else 200)
        else if decide (rq_method r = "DELETE") then is_Some (t pl name) /\ becomes t pl name None t'
        else same t t'
      else same t t'
  end.

(** *** Edits and the table *)

Lemma same_refl t : same t t.
Proof. by intros pl name _. Qed.

Lemma parse_tree raw c : Z.of_nat (String.length raw) <= doc_limit -> accept parse semantic raw = Ok c -> is_Some (yaml raw).
Proof.
  intros Hl. unfold accept, Parse, limit_read. rewrite decide_True by done. by destruct (yaml raw).
Qed.

Lemma mutate_tree {A} (w w' : AW) im (fn : node -> result edit_error (node * A)) res :
  mutateDocument w im fn = (w', res) ->
  match res with
  | Err _ => tree Version yaml (aw_src w') = tree Version yaml (aw_src w)
  | Ok (v, x) => exists doc doc', tree Version yaml (aw_src w) = Some doc /\ wf doc = true /\ fn doc = Ok (doc', x)
      /\ (wf doc' = true -> is_document doc' = true -> tree Version yaml (aw_src w') = Some doc')
  end.
Proof.
  intros Hm. apply mutate_cases in Hm as [_ Hm]. unfold tree. destruct res as [[v x]|e]; [|by destruct Hm as [_ ->]].
  destruct Hm as (raw & doc & doc' & raw' & c & Hs & _ & Hy & Hf & Hp & Ha & _ & _ & _ & Hd).
  pose proof (print_fits _ _ Hp) as Hlen. exists doc, doc'. rewrite Hs. simpl. split; [done|].
  split; [by eapply yaml_wf|]. split; [done|]. intros Hw Hdoc. rewrite Hd by done. simpl.
  destruct (parse_tree _ _ Hlen Ha) as [n Hn]. rewrite Hn. f_equal. by eapply yaml_print.
Qed.

Lemma upsert_view pl name n (w w' : AW) im v created :
  pl ∈ resource_places -> tidy_at (aw_src w) -> wf n = true -> mappingField n (pl_field pl) = name ->
  mutateDocument w im (upsert_at pl name (Some n)) = (w', Ok (v, created)) ->
  becomes (view (aw_src w)) pl name (Some n) (view (aw_src w'))
  /\ created = bool_decide (view (aw_src w) pl name = None) /\ tidy_at (aw_src w').
Proof.
  intros Hpl Ht Hn Hname Hm. apply mutate_tree in Hm as (doc & doc' & Hd & Hw & Hf & Hd').
  pose proof (Ht _ Hd) as Htd.
  destruct (upsert_at_edited _ _ _ _ _ _ Hw Hn (td_section _ Htd _ Hpl) Hf) as [He ->].
  assert (pl ∈ admins :: resource_places) as Hpl' by (by right).
  assert (tidy doc') as Htd'.
  { eapply edited_tidy; [done..|]. intros _ name'. apply named_once_upsert; [done|]. by apply Htd. }
  specialize (Hd' (ed_wf _ _ _ _ He) (td_document _ Htd')). split; [|split].
  - intros pl' name' Hin. unfold view. rewrite Hd, Hd'. simpl. rewrite (edited_entry _ _ _ _ _ _ He Hpl' Hin).
    case_decide as Hp; [subst pl'|]; [|by rewrite decide_False by naive_solver].
    rewrite find_upsert by done. by repeat case_decide; try naive_solver.
  - rewrite upsert_created. unfold view. by rewrite Hd.
  - intros doc2. rewrite Hd'. by intros [= <-].
Qed.

Lemma remove_view pl name (w w' : AW) im v found :
  pl ∈ resource_places -> tidy_at (aw_src w) ->
  mutateDocument w im (remove_at pl name) = (w', Ok (v, found)) ->
  found = bool_decide (view (aw_src w) pl name <> None) /\ tidy_at (aw_src w')
  /\ if found then becomes (view (aw_src w)) pl name None (view (aw_src w')) else same (view (aw_src w)) (view (aw_src w')).
Proof.
  intros Hpl Ht Hm. apply mutate_tree in Hm as (doc & doc' & Hd & Hw & Hf & Hd').
  pose proof (Ht _ Hd) as Htd.
  destruct (remove_at_edited _ _ _ _ _ Hw (td_root _ Htd) (td_section _ Htd _ Hpl) Hf) as [He Hfound].
  assert (pl ∈ admins :: resource_places) as Hpl' by (by right).
  assert (tidy doc') as Htd'.
  { eapply edited_tidy; [done..|]. intros _ name'. apply named_once_drop. by apply Htd. }
  specialize (Hd' (ed_wf _ _ _ _ He) (td_document _ Htd')). split; [|split].
  - rewrite Hfound, drop_found. unfold view. by rewrite Hd.
  - intros doc2. rewrite Hd'. by intros [= <-].
  - destruct found.
    + intros pl' name' Hin. unfold view. rewrite Hd, Hd'. simpl. rewrite (edited_entry _ _ _ _ _ _ He Hpl' Hin).
      case_decide as Hp; [subst pl'|by rewrite decide_False by naive_solver].
      destruct (decide (name' = name)) as [->|Hne].
      * rewrite decide_True by done. apply find_dropped. by apply Htd.
      * rewrite decide_False by naive_solver. by apply find_drop.
    + intros pl' name' Hin. unfold view. rewrite Hd, Hd'. simpl. rewrite (edited_entry _ _ _ _ _ _ He Hpl' Hin).
      case_decide as Hp; [subst pl'|done]. by rewrite drop_item_none.
Qed.

(** An edit of the administrators keeps every item. *)
Lemma admins_view {A} (w w' : AW) im (fn : node -> result edit_error (node * A)) res :
  tidy_at (aw_src w) -> mutateDocument w im fn = (w', res) ->
  (forall doc doc' x, wf doc = true -> fn doc = Ok (doc', x) -> exists l, edited admins doc doc' l) ->
  same (view (aw_src w)) (view (aw_src w')) /\ tidy_at (aw_src w').
Proof.
  intros Ht Hm Hfn. apply mutate_tree in Hm. destruct res as [[v x]|e].
  2: { unfold view, tidy_at. rewrite Hm. split; [apply same_refl|apply Ht]. }
  destruct Hm as (doc & doc' & Hd & Hw & Hf & Hd'). pose proof (Ht _ Hd) as Htd.
  destruct (Hfn _ _ _ Hw Hf) as [l He].
  assert (tidy doc') as Htd'.
  { eapply edited_tidy; [done|left|done|]. by intros Hin%admins_apart. }
  specialize (Hd' (ed_wf _ _ _ _ He) (td_document _ Htd')). split.
  - intros pl name Hin. unfold view. rewrite Hd, Hd'. simpl. rewrite (edited_entry _ _ _ _ _ _ He ltac:(left) Hin).
    rewrite decide_False; [done|]. intros ->. by apply admins_apart.
  - intros doc2. rewrite Hd'. by intros [= <-].
Qed.

(** *** Every route against the table *)

Lemma table_spec_same r a t t' :
  same t t' -> success a = false \/ (rq_method r <> "PUT" /\ rq_method r <> "DELETE") \/ target r = None ->
  table_spec r a t t'.
Proof.
  intros Hs Hc. unfold table_spec. destruct (target r) as [[pl name]|]; [|done].
  destruct (success a); [|done]. repeat case_decide; naive_solver.
Qed.

Lemma upsert_at_none pl name doc x : upsert_at pl name None doc <> Ok x.
Proof.
  unfold upsert_at, upsertSequenceItem. destruct (pl_section pl); simpl.
  - by destruct (ensureMapping doc s).
  - by destruct (documentRoot doc).
Qed.

Lemma view_of_tree (s s' : Src) :
  tree Version yaml s' = tree Version yaml s -> tidy_at s -> same (view s) (view s') /\ tidy_at s'.
Proof. intros H. unfold view, tidy_at. rewrite H. split; [apply same_refl|done]. Qed.

(** The replica serves the document in the source. *)
Definition in_step (w : AW) : Prop :=
  exists raw, src_doc (aw_src w) = Some raw /\ Z.of_nat (String.length raw) <= doc_limit
    /\ accept parse semantic raw = Ok (current w) /\ version w = Version raw.

Definition outcome (r : HttpReq) (a : Answer) (w w' : AW) : Prop :=
  table_spec r a (view (aw_src w)) (view (aw_src w')) /\ tidy_at (aw_src w')
  /\ (success a = true -> target r <> None -> rq_method r = "PUT" ->
      in_step w' /\ an_etag a = Some (etag (version w'))).

Lemma mutate_in_step {A} (w w' : AW) im (fn : node -> result edit_error (node * A)) v x :
  mutateDocument w im fn = (w', Ok (v, x)) -> in_step w' /\ version w' = v.
Proof.
  intros Hm. apply mutate_cases in Hm as [_ (raw & doc & doc' & raw' & c & _ & _ & _ & _ & Hp & Ha & -> & Hv & <- & Hd)].
  pose proof (print_fits _ _ Hp). split; [|done]. exists raw'. split_and!; auto.
Qed.

Lemma outcome_same r a (w : AW) :
  tidy_at (aw_src w) -> success a = false \/ (rq_method r <> "PUT" /\ rq_method r <> "DELETE") \/ target r = None ->
  outcome r a w w.
Proof.
  intros Ht Hc. split; [|split; [done|]]; [apply table_spec_same; [apply same_refl|done]|].
  intros Hs Htar Hm. destruct Hc as [Hc|[[Hc _]|Hc]]; congruence.
Qed.

Lemma outcome_tree r a (w w' : AW) :
  tidy_at (aw_src w) -> tree Version yaml (aw_src w') = tree Version yaml (aw_src w) ->
  success a = false -> outcome r a w w'.
Proof. intros Ht Hs Ha. apply view_of_tree in Hs as [Hs Ht']; [|done]. split; [|split; [done|congruence]]. apply table_spec_same; auto. Qed.

(** A write of an item. The reindex queue is not part of the table. *)
Lemma put_outcome pl name shown o r (w w' : AW) res :
  pl ∈ resource_places -> tidy_at (aw_src w) -> rq_method r = "PUT" -> target r = Some (pl, name) ->
  carried r = Some (shown, o) -> (forall n, o = Some n -> wf n = true /\ mappingField n (pl_field pl) = name) ->
  mutateDocument w (if_match r) (upsert_at pl name o) = (w', res) ->
  outcome r (written (w', res)).2 w w'.
Proof.
  intros Hpl Ht Hme Htar Hc Hn Hm. destruct res as [[v created]|e].
  2: { apply mutate_tree in Hm. apply outcome_tree; [done..|apply config_error_fails]. }
  destruct o as [n|].
  2: { apply mutate_tree in Hm as (doc & doc' & _ & _ & Hf & _). by apply upsert_at_none in Hf. }
  destruct (Hn n eq_refl) as [Hw Hname]. pose proof (mutate_in_step _ _ _ _ _ _ Hm) as [Hstep <-].
  apply upsert_view in Hm as (Hb & -> & Ht'); [|done..]. split; [|done].
  unfold table_spec. rewrite Htar. replace (success _) with true by (unfold success; simpl; by case_bool_decide).
  rewrite decide_True by done. exists shown, n. split; [done|]. split; [done|]. simpl.
  case_bool_decide as Hv; by case_decide.
Qed.

Lemma remove_outcome pl name missing r (w w' : AW) res :
  pl ∈ resource_places -> tidy_at (aw_src w) -> rq_method r = "DELETE" -> target r = Some (pl, name) ->
  mutateDocument w (if_match r) (remove_at pl name) = (w', res) ->
  outcome r (removed missing (w', res)).2 w w'.
Proof.
  intros Hpl Ht Hme Htar Hm. destruct res as [[v found]|e].
  2: { apply mutate_tree in Hm. apply outcome_tree; [done..|apply config_error_fails]. }
  apply remove_view in Hm as (Hf & Ht' & Hif); [|done..].
  split; [|split; [done|by rewrite Hme]]. destruct found; simpl.
  - unfold table_spec. rewrite Htar. simpl. rewrite decide_False by (by rewrite Hme). rewrite decide_True by done.
    split; [|done]. symmetry in Hf. apply bool_decide_eq_true in Hf. by apply not_eq_None_Some.
  - by apply table_spec_same; [|left].
Qed.

Lemma match_lit s ps path vars :
  match_route (Lit s :: ps) path = Some vars -> exists xs, path = s :: xs /\ match_route ps xs = Some vars.
Proof. destruct path as [|x xs]; simpl; [done|]. case_decide; [subst|done]. by exists xs. Qed.

Lemma match_var ps path vars :
  match_route (Var :: ps) path = Some vars ->
  exists x xs vs, path = x :: xs /\ vars = x :: vs /\ match_route ps xs = Some vs.
Proof.
  destruct path as [|x xs]; simpl; [done|]. case_decide; [done|].
  destruct (match_route ps xs) as [vs|] eqn:E; [|done]. intros [= <-]. by exists x, xs, vs.
Qed.

Lemma match_end path vars : match_route [] path = Some vars -> path = [] /\ vars = [].
Proof. destruct path; simpl; [by intros [= <-]|done]. Qed.

(** The guard answers itself, or the handler's body does. *)
Lemma with_admin_outcome k r (w w' : AW) a :
  tidy_at (aw_src w) -> with_admin d r w k = (w', a) -> (k = (w', a) -> outcome r a w w') -> outcome r a w w'.
Proof.
  intros Ht. unfold with_admin. destruct (requireAdmin d r) as [id|b] eqn:E; [auto|]. intros [= <- <-] _.
  apply outcome_same; [done|left]. unfold success. by apply require_refuses in E as [-> | ->].
Qed.

Lemma feed_named_id f : feed_named f (fc_name f) = f. Proof. by destruct f. Qed.
Lemma issuer_named_id o : issuer_named o (oi_issuer o) = o. Proof. by destruct o. Qed.
Lemma peer_named_id p : peer_named p (pc_name p) = p. Proof. by destruct p. Qed.

Lemma outcome_src r a (w w1 w2 : AW) :
  aw_manager w2 = aw_manager w1 /\ aw_src w2 = aw_src w1 -> outcome r a w w1 -> outcome r a w w2.
Proof. unfold outcome, in_step, current, version. by intros [-> ->]. Qed.

(** The body of a handler that puts one named resource: what is left to its
    caller is how the resource is renamed and how it is shown. *)
Lemma put_body_outcome {A} `{!Wire A} field (name_of : A -> string) `{!WireLaws A field name_of}
  (rename : A -> string -> A) (show : A -> payload) (refuse : A -> Answer) pl x r (w w' : AW) a
  (finish : AW * result cfg_error (string * bool) -> AW * Answer) :
  pl ∈ resource_places -> pl_field pl = field -> tidy_at (aw_src w) -> rq_method r = "PUT" -> target r = Some (pl, x) ->
  (forall v, rename v (name_of v) = v) -> (forall v, success (refuse v) = false) ->
  (forall w1 res, (aw_manager (finish (w1, res)).1 = aw_manager w1 /\ aw_src (finish (w1, res)).1 = aw_src w1)
     /\ (finish (w1, res)).2 = (written (w1, res)).2) ->
  carried r = (v ← decodeBody r; let v := rename v x in Some (show v, to_node v)) ->
  match decodeBody r with
  | None => (w, bad_body)
  | Some v =>
      let v := if decide (name_of v = "") then rename v x else v in
      if decide (name_of v <> x) then (w, refuse v)
      else finish (mutateDocument w (if_match r) (upsert_at pl x (to_node v)))
  end = (w', a) -> outcome r a w w'.
Proof.
  intros Hpl Hfield Ht Hm Htar Hid Href Hfin Hc. destruct (decodeBody r) as [f|]; cbv zeta; cbn [mbind option_bind] in Hc.
  2: { intros [= <- <-]. by apply outcome_same; [|left]. }
  set (g := if decide (name_of f = "") then _ else f).
  case_decide as Hne; [intros [= <- <-]; apply outcome_same; auto|].
  assert (rename f x = g) as Hg by (subst g; case_decide; [done|rewrite <-Hne; apply Hid]). rewrite Hg in Hc.
  destruct (mutateDocument w (if_match r) _) as [w1 res] eqn:Em. intros Hf. destruct (Hfin w1 res) as [Hsrc Ha].
  rewrite Hf in Hsrc, Ha. simpl in *. subst a. apply (outcome_src _ _ _ _ _ Hsrc).
  eapply put_outcome; [done..| |done]. intros n Hn. rewrite Hfield, <-Hne. by apply to_node_named.
Qed.

Lemma written_finish (w1 : AW) res :
  (aw_manager (written (w1, res)).1 = aw_manager w1 /\ aw_src (written (w1, res)).1 = aw_src w1)
  /\ (written (w1, res)).2 = (written (w1, res)).2.
Proof. split; [|done]. by destruct res as [[]|]. Qed.

Lemma handlePutFeed_outcome x r (w w' : AW) a :
  tidy_at (aw_src w) -> rq_method r = "PUT" -> segments r = ["config"; "feeds"; x] ->
  handlePutFeed Version parse semantic yaml print quoted d x r w = (w', a) -> outcome r a w w'.
Proof.
  intros Ht Hm Hs Hh. eapply with_admin_outcome; [done..|]. clear Hh. intros Hh.
  assert (target r = Some (feeds, x)) as Htar by (unfold target; by rewrite Hs).
  refine (put_body_outcome "name" fc_name feed_named PFeed (fun f => mismatch quoted "feed" (fc_name f) x) feeds x r w w' a
    (fun o => match o with
              | (w, Err e) => (w, writeConfigError e)
              | (w, Ok v) => written (mkAW (aw_manager w) (aw_src w)
                                        (aw_reindexed w ++ (if dp_reindex d then [x] else [])), Ok v)
              end) _ _ Ht Hm Htar feed_named_id _ _ _ Hh).
  - left.
  - done.
  - done.
  - by intros w1 [[]|].
  - unfold carried. by rewrite Htar.
Qed.

(** The other named resources end as [written] does. *)
Ltac put_resource H Ht Htar lemma :=
  eapply with_admin_outcome; [exact Ht|exact H|]; clear H; intros H;
  refine (lemma _ _ written_finish _ H); [by repeat ((by left) || right)|by intros|unfold carried; by rewrite Htar].

Lemma handlePutPeer_outcome x r (w w' : AW) a :
  tidy_at (aw_src w) -> rq_method r = "PUT" -> target r = Some (peers, x) ->
  handlePutPeer Version parse semantic yaml print d x r w = (w', a) -> outcome r a w w'.
Proof.
  intros Ht Hm Htar Hh.
  put_resource Hh Ht Htar (fun Hp => put_body_outcome "name" pc_name peer_named PPeer (fun _ => writeError 400 "peer name in the body does not match the path")
    peers x r w w' a (fun o => written o) Hp eq_refl Ht Hm Htar peer_named_id).
Qed.

Lemma policy_named_id p : mkPolicyCfg (ap_name p) (ap_rules p) = p. Proof. by destruct p. Qed.
Lemma binding_named_id b : mkBindingCfg (b_name b) (b_policies b) (b_match b) = b. Proof. by destruct b. Qed.

Lemma handlePutAccessPolicy_outcome x r (w w' : AW) a :
  tidy_at (aw_src w) -> rq_method r = "PUT" -> target r = Some (access_policies, x) ->
  handlePutAccessPolicy Version parse semantic yaml print quoted d x r w = (w', a) -> outcome r a w w'.
Proof.
  intros Ht Hm Htar Hh.
  put_resource Hh Ht Htar (fun Hp => put_body_outcome "name" ap_name (fun p x => mkPolicyCfg x (ap_rules p)) PPolicy (fun p => mismatch quoted "policy" (ap_name p) x)
    access_policies x r w w' a (fun o => written o) Hp eq_refl Ht Hm Htar policy_named_id).
Qed.

Lemma handlePutBinding_outcome x r (w w' : AW) a :
  tidy_at (aw_src w) -> rq_method r = "PUT" -> target r = Some (bindings, x) ->
  handlePutBinding Version parse semantic yaml print quoted d x r w = (w', a) -> outcome r a w w'.
Proof.
  intros Ht Hm Htar Hh.
  put_resource Hh Ht Htar (fun Hp => put_body_outcome "name" b_name (fun b x => mkBindingCfg x (b_policies b) (b_match b)) PBinding (fun b => mismatch quoted "binding" (b_name b) x)
    bindings x r w w' a (fun o => written o) Hp eq_refl Ht Hm Htar binding_named_id).
Qed.

Lemma handlePutOIDCIssuer_outcome r (w w' : AW) a :
  tidy_at (aw_src w) -> rq_method r = "PUT" -> segments r = ["config"; "oidc"; "issuer"] ->
  handlePutOIDCIssuer Version parse semantic yaml print d r w = (w', a) -> outcome r a w w'.
Proof.
  intros Ht Hm Hs Hh. eapply with_admin_outcome; [done..|]. clear Hh. intros Hh. cbv zeta in Hh.
  assert (target r = Some (issuers, if decide (issuer_of r = "") then default "" (oi_issuer <$> decodeBody r) else issuer_of r))
    as Htar by (unfold target; by rewrite Hs).
  destruct (decodeBody r) as [o|] eqn:Ed; [|injection Hh as <- <-; by apply outcome_same; [|left]].
  cbn [fmap option_fmap option_map from_option] in Htar. unfold default in Htar.
  set (g := if decide (oi_issuer o = "") then _ else o) in Hh.
  destruct (decide (oi_issuer g = "")) as [H1|H1]; [injection Hh as <- <-; by apply outcome_same; [|left]|].
  destruct (decide (issuer_of r <> "" /\ issuer_of r <> oi_issuer g)) as [H2|H2]; [injection Hh as <- <-; by apply outcome_same; [|left]|].
  assert ((if decide (issuer_of r = "") then oi_issuer o else issuer_of r) = oi_issuer g) as Hname.
  { subst g. destruct (decide (oi_issuer o = "")), (decide (issuer_of r = "")); simpl in *; try congruence.
    destruct (decide (issuer_of r = oi_issuer o)); naive_solver. }
  simpl in Htar. rewrite Hname in Htar.
  assert (carried r = Some (PIssuer g, to_node g)) as Hc.
  { unfold carried. rewrite Htar. simpl. rewrite Ed. simpl.
    assert (issuer_named o (oi_issuer g) = g) as ->; [|done]. subst g.
    destruct (decide (oi_issuer o = "")); [reflexivity|apply issuer_named_id]. }
  destruct (mutateDocument w (if_match r) _) as [w1 res] eqn:Em. destruct (written_finish w1 res) as [Hsrc _].
  rewrite Hh in Hsrc. assert (a = (written (w1, res)).2) as -> by (by rewrite Hh). simpl in Hsrc.
  apply (outcome_src _ _ _ _ _ Hsrc).
  eapply (put_outcome issuers); [by repeat ((by left) || right)|exact Ht|exact Hm|exact Htar|exact Hc| |exact Em].
  intros n Hn. by apply to_node_named.
Qed.

(** A removal. *)
Lemma remove_body_outcome pl name missing r (w w' : AW) a :
  pl ∈ resource_places -> tidy_at (aw_src w) -> rq_method r = "DELETE" -> target r = Some (pl, name) ->
  removed missing (mutateDocument w (if_match r) (remove_at pl name)) = (w', a) -> outcome r a w w'.
Proof.
  intros Hpl Ht Hm Htar Hh. destruct (mutateDocument w (if_match r) _) as [w1 res] eqn:Em.
  assert (w1 = w' /\ (removed missing (w1, res)).2 = a) as [<- <-].
  { rewrite Hh. destruct res as [[v [|]]|e]; by injection Hh as <- _. }
  by eapply remove_outcome.
Qed.

(** An edit of the administrators. *)
Lemma admins_outcome {A} im (fn : node -> result edit_error (node * A)) r (w w' w1 : AW) a res :
  tidy_at (aw_src w) -> target r = None -> mutateDocument w im fn = (w1, res) -> w' = w1 ->
  (forall doc doc' x, wf doc = true -> fn doc = Ok (doc', x) -> exists l, edited admins doc doc' l) ->
  outcome r a w w'.
Proof.
  intros Ht Htar Hm -> Hfn. destruct (admins_view _ _ _ _ _ Ht Hm Hfn) as [Hs Ht']. split; [|split; [done|congruence]].
  apply table_spec_same; auto.
Qed.

(** Reads the path a route matched off the request. *)
Ltac route_path H :=
  cbn [fst snd app] in H;
  repeat (first [ apply match_lit in H as (? & ? & H) | apply match_var in H as (? & ? & ? & ? & ? & H)
                | apply match_end in H as [? ?] ]); subst.

(** A handler that only reads. *)
Ltac reads Ht H :=
  eapply with_admin_outcome; [exact Ht|exact H|]; clear H; intros H; cbv zeta in H;
  repeat case_match; simplify_eq; (apply outcome_same; [assumption|right; left; split; congruence]).

(** The target of a request to one of the fixed paths. *)
Ltac targets H := unfold target; rewrite H; reflexivity.

(** A handler that removes an item. *)
Ltac removes Ht Hm H Hp :=
  eapply with_admin_outcome; [exact Ht|exact H|]; clear H; intros H; cbv zeta in H;
  repeat (case_match; [injection H as <- <-; apply outcome_same; [exact Ht|left; reflexivity]|]);
  eapply remove_body_outcome; [|exact Ht|exact Hm| |exact H]; [by repeat ((by left) || right)|targets Hp].

Lemma delete_issuer_outcome r (w w' : AW) a :
  tidy_at (aw_src w) -> rq_method r = "DELETE" -> segments r = ["config"; "oidc"; "issuer"] ->
  handleDeleteOIDCIssuer Version parse semantic yaml print d r w = (w', a) -> outcome r a w w'.
Proof.
  intros Ht Hm Hp Hh. eapply with_admin_outcome; [done..|]. clear Hh. intros Hh. cbv zeta in Hh.
  destruct (decide (issuer_of r = "")) as [Hi|Hi]; [injection Hh as <- <-; by apply outcome_same; [|left]|].
  eapply remove_body_outcome; [|exact Ht|exact Hm| |exact Hh]; [by repeat ((by left) || right)|].
  unfold target. rewrite Hp. rewrite (decide_False _ _ Hi). reflexivity.
Qed.

Lemma admins_routes_outcome r (w w' : AW) a :
  tidy_at (aw_src w) -> target r = None ->
  handlePutAdmins Version parse semantic yaml print d r w = (w', a)
  \/ handlePutAdminBinding Version parse semantic yaml print d r w = (w', a)
  \/ handleDeleteAdminBinding Version parse semantic yaml print d r w = (w', a) -> outcome r a w w'.
Proof.
  intros Ht Htar Hh.
  assert (forall b : Answer, outcome r b w w) as Hkeep by (intros b; apply outcome_same; auto).
  destruct Hh as [Hh|[Hh|Hh]]; (eapply with_admin_outcome; [done..|]); clear Hh; intros Hh; cbv zeta in Hh.
  - destruct (decodeBody r) as [l|]; [|by injection Hh as <- <-]. case_decide; [by injection Hh as <- <-|].
    destruct (mutateDocument w (if_match r) _) as [w1 res] eqn:Em. eapply (admins_outcome _ _ _ _ _ _ _ _ Ht Htar Em).
    + by destruct res as [[v []]|e]; injection Hh as <- _.
    + intros doc doc' x Hw. rewrite rbind_Ok. intros (doc2 & Hset & [= <- _]).
      destruct (to_node l) as [n|] eqn:En; [|unfold setMappingKey in Hset; by case_match].
      apply to_node_list in En as ->. exists (map Scalar l).
      apply (setMappingKey_edited "admins" (Node SequenceNode "" (map Scalar l))); [done| |done|exact Hset].
      clear. simpl. by induction l.
  - case_decide; [by injection Hh as <- <-|].
    destruct (mutateDocument w (if_match r) _) as [w1 res] eqn:Em. eapply (admins_outcome _ _ _ _ _ _ _ _ Ht Htar Em).
    + by destruct res as [[v []]|e]; injection Hh as <- _.
    + intros doc doc' x Hw Hf. eexists. by eapply (addScalar_edited "admins").
  - case_decide; [by injection Hh as <- <-|]. case_decide; [by injection Hh as <- <-|].
    destruct (mutateDocument w (if_match r) _) as [w1 res] eqn:Em. eapply (admins_outcome _ _ _ _ _ _ _ _ Ht Htar Em).
    + by destruct res as [[v []]|e]; injection Hh as <- _.
    + intros doc doc' x Hw Hf. eexists. by eapply (removeScalar_edited "admins").
Qed.

Lemma handler_outcome r (w w' : AW) a :
  tidy_at (aw_src w) -> ~ whole r -> Handler r w = (w', a) -> outcome r a w w'.
Proof.
  intros Ht Hwhole. unfold AdminApi.Handler. intros Hh.
  apply serve_routes_cases in Hh as [[-> Hs]|(rt & vars & Hrt & Hm & Hp & Hh)]; [by apply outcome_same; [|left]|].
  fold (segments r) in Hp. unfold config_routes in Hrt. cbv zeta in Hrt.
  repeat (apply elem_of_cons in Hrt as [->|Hrt]); [..|by apply not_elem_of_nil in Hrt];
    remember (segments r) as path eqn:Hpath; symmetry in Hpath; route_path Hp; cbn [fst snd] in Hm; symmetry in Hm;
    unfold fixed, named in Hh; cbn [fst snd head default from_option id] in Hh; rename H into Hseg.
  all: try (reads Ht Hh).
  all: try (by eapply admins_routes_outcome; [exact Ht|targets Hseg|eauto]).
  all: try (removes Ht Hm Hh Hseg).
  - by destruct Hwhole.
  - by eapply handlePutFeed_outcome.
  - by eapply handlePutOIDCIssuer_outcome.
  - by eapply delete_issuer_outcome.
  - eapply handlePutAccessPolicy_outcome; [exact Ht|exact Hm|targets Hseg|exact Hh].
  - eapply handlePutBinding_outcome; [exact Ht|exact Hm|targets Hseg|exact Hh].
  - eapply handlePutPeer_outcome; [exact Ht|exact Hm|targets Hseg|exact Hh].
Qed.

Lemma put_config_tree r (w w' : AW) a :
  handlePutConfig Version parse semantic d r w = (w', a) ->
  tree Version yaml (aw_src w') = if success a then yaml (limit_read maxDocument (rq_body r)) else tree Version yaml (aw_src w).
Proof.
  unfold handlePutConfig, with_admin. destruct (requireAdmin d r) as [id|b] eqn:E.
  2: { intros [= <- <-]. apply require_refuses in E. unfold success. destruct E as [E|E]; by rewrite E. }
  unfold replaceDocument. destruct (dp_db d), (dp_lock d); simpl; try by intros [= <- <-].
  destruct (Update _ _ _ _ _ _ _) as [[m s] [[c v]|e]] eqn:Eu; intros [= <- <-].
  - apply Update_cases in Eu as (_ & _ & _ & _ & Hd & _). simpl. unfold tree. rewrite Hd; [done|].
    etrans; [apply limit_read_length; done|by vm_compute].
  - rewrite config_error_fails. apply Update_cases in Eu as [_ Hd]. unfold tree. simpl. by rewrite Hd.
Qed.

Lemma whole_outcome r (w w' : AW) a :
  whole r -> Handler r w = (w', a) ->
  tree Version yaml (aw_src w') = if success a then yaml (limit_read maxDocument (rq_body r)) else tree Version yaml (aw_src w).
Proof.
  intros [Hput Hconf]. unfold AdminApi.Handler. intros Hh.
  apply serve_routes_cases in Hh as [[-> ->]|(rt & vars & Hrt & Hm & Hp & Hh)]; [done|].
  fold (segments r) in Hp. rewrite Hconf in Hp. unfold config_routes in Hrt. cbv zeta in Hrt.
  repeat (apply elem_of_cons in Hrt as [->|Hrt]); [..|by apply not_elem_of_nil in Hrt]; cbn [fst snd] in Hm, Hp;
    try (rewrite Hput in Hm; discriminate Hm); try (simpl in Hp; repeat case_decide; done).
  by apply put_config_tree.
Qed.


(** *** Reading back *)

Lemma in_step_decoded (w : AW) :
  in_step w -> exists doc c s3, tree Version yaml (aw_src w) = Some doc /\ strict (expanded env doc) = Some c
    /\ current w = with_s3 (applyDefaults c) s3.
Proof.
  intros (raw & Hs & Hl & Ha & _). unfold tree. rewrite Hs. simpl. unfold accept, Parse, limit_read in Ha.
  rewrite decide_True in Ha by done. destruct (yaml raw) as [doc|]; [|done]. exists doc. unfold expanded.
  destruct (expandNode env doc) as [doc' missing]. case_decide; [done|]. destruct (strict doc') as [c|] eqn:Es; [|done].
  exists c. destruct (resolveSecrets file _) as [s3|]; [|done]. exists s3.
  destruct (validate _); [|done]. destruct (semantic _); [|done]. injection Ha as <-. done.
Qed.

Lemma read_back {A} `{!Wire A} pl (name_of : A -> string) list_of `{!DecodeLaws strict A pl name_of list_of}
  (w : AW) name v n :
  (forall c s, list_of (with_s3 (applyDefaults c) s) = list_of c) ->
  in_step w -> (forall doc, tree Version yaml (aw_src w) = Some doc -> plain_place env doc pl) ->
  view (aw_src w) pl name = Some n -> to_node v = Some n ->
  List.find (fun a => bool_decide (name_of a = name)) (list_of (current w)) = Some v.
Proof.
  intros Hlist (doc & c & s3 & Ht & Hs & ->)%in_step_decoded Hpl Hv Hn. rewrite Hlist.
  apply of_node_list in Hs. rewrite (entries_expanded _ _ _ (Hpl _ Ht)) in Hs.
  erewrite find_decoded; [|exact of_node_name|exact Hs]. unfold view in Hv. rewrite Ht in Hv. simpl in Hv.
  unfold entry in Hv. rewrite Hv. simpl. by apply of_to_node.
Qed.

Context `{DF : !DecodeLaws strict FeedConfig feeds fc_name cfg_feeds,
          DO : !DecodeLaws strict OIDCIssuer issuers oi_issuer (fun c => ac_oidc (cfg_auth c)),
          DP : !DecodeLaws strict PeerConfig peers pc_name (fun c => rc_peers (cfg_replication c)),
          DA : !DecodeLaws strict AccessPolicyConfig access_policies ap_name cfg_access_policies,
          DB : !DecodeLaws strict BindingConfig bindings b_name cfg_bindings}.

(** The handler that shows one item. *)
Definition show_item (pl : Place) (name : string) : HttpReq -> AW -> AW * Answer :=
  if decide (pl = feeds) then handleGetFeed d name
  else if decide (pl = access_policies) then handleGetAccessPolicy d name
  else if decide (pl = bindings) then handleGetBinding d name
  else if decide (pl = peers) then handleGetPeer d name
  else handleGetOIDCIssuer d.

Lemma target_place r pl name : target r = Some (pl, name) -> pl ∈ resource_places.
Proof. unfold target. intros H. repeat case_match; simplify_eq; by repeat ((by left) || right). Qed.

(** What was put is what is shown. *)
Theorem put_then_get r r' (w w' : AW) a pl name id :
  tidy_at (aw_src w) -> Handler r w = (w', a) -> success a = true -> rq_method r = "PUT" -> target r = Some (pl, name) ->
  (forall doc, tree Version yaml (aw_src w') = Some doc -> plain_place env doc pl) ->
  requireAdmin d r' = Ok id -> (pl = issuers -> name <> "" /\ issuer_of r' = name) ->
  exists shown o v, carried r = Some (shown, o)
    /\ show_item pl name r' w' = (w', tagged 200 v shown) /\ an_etag a = Some (etag v).
Proof.
  intros Ht Hh Hsuc Hm Htar Hpl Hid Hi.
  assert (~ whole r) as Hw by (intros [_ Hw]; unfold target in Htar; by rewrite Hw in Htar).
  destruct (handler_outcome _ _ _ _ Ht Hw Hh) as (Hspec & _ & Hstep).
  destruct (Hstep Hsuc ltac:(congruence) Hm) as [Hin Het]. clear Hstep.
  unfold table_spec in Hspec. rewrite Htar, Hsuc, decide_True in Hspec by done.
  destruct Hspec as (shown & n & Hc & Hb & _). exists shown, (Some n), (version w'). split; [done|]. split; [|done].
  pose proof (target_place _ _ _ Htar) as Hplace.
  specialize (Hb pl name Hplace). rewrite decide_True in Hb by done.
  unfold carried in Hc. rewrite Htar in Hc. unfold show_item.
  repeat (case_decide; [subst pl; destruct (decodeBody r) as [x|]; [|done]; injection Hc as <- Hn|]);
    unfold handleGetFeed, handleGetAccessPolicy, handleGetBinding, handleGetPeer, handleGetOIDCIssuer, with_admin;
    rewrite Hid; cbv zeta.
  - by rewrite (read_back _ _ cfg_feeds _ _ _ _ (fun _ _ => eq_refl) Hin Hpl Hb Hn).
  - by rewrite (read_back _ _ cfg_access_policies _ _ _ _ (fun _ _ => eq_refl) Hin Hpl Hb Hn).
  - by rewrite (read_back _ _ cfg_bindings _ _ _ _ (fun _ _ => eq_refl) Hin Hpl Hb Hn).
  - by rewrite (read_back _ _ (fun c => rc_peers (cfg_replication c)) _ _ _ _ (fun _ _ => eq_refl) Hin Hpl Hb Hn).
  - assert (pl = issuers) as -> by (repeat (apply elem_of_cons in Hplace as [->|Hplace]); done || by apply not_elem_of_nil in Hplace).
    destruct (decodeBody r) as [x|]; [|done]. injection Hc as <- Hn. destruct (Hi eq_refl) as [Hne ->].
    rewrite decide_False by done.
    by rewrite (read_back _ _ (fun c => ac_oidc (cfg_auth c)) _ _ _ _ (fun _ _ => eq_refl) Hin Hpl Hb Hn).
Qed.
End table.

(** ** Several replicas *)

Section replicas.
Context (Version : string -> string) {Src : Type} `{CS : !ConfigSource Version Src}.
Context (yaml : string -> option node) (print : node -> option string) `{YL : !YamlLaws yaml print}.
Context (strict : node -> option Config) (env file : string -> option string) (validate : Config -> list violation).
Context (semantic : Config -> bool) (quoted : string -> string).
Context `{WF : !Wire FeedConfig, WO : !Wire OIDCIssuer, WP : !Wire PeerConfig,
          WA : !Wire AccessPolicyConfig, WB : !Wire BindingConfig, WL : !Wire (list string)}.
Context `{LF : !WireLaws FeedConfig "name" fc_name, LO : !WireLaws OIDCIssuer "issuer" oi_issuer,
          LP : !WireLaws PeerConfig "name" pc_name, LA : !WireLaws AccessPolicyConfig "name" ap_name,
          LB : !WireLaws BindingConfig "name" b_name, LL : !ListLaws}.
Notation parse := (Parse yaml strict env file validate).
Notation Handler := (Handler Version parse semantic yaml print quoted).
Notation Fleet := (Fleet (Src := Src)).
Notation view := (view Version yaml).
Notation tidy_at := (tidy_at Version yaml).

(** What happens at a site: a replica serves a request (with the identities,
    rules, database and lock it finds), or reloads. *)
Inductive event := Served (i : nat) (d : Deps) (r : HttpReq) | Reloaded (i : nat).

Definition happen (fl : Fleet) (ev : event) : Fleet :=
  match ev with
  | Served i d r =>
      match fl_managers fl !! i with
      | None => fl
      | Some m =>
          let w := (Handler d r (mkAW m (fl_src fl) [])).1 in
          mkFleet (aw_src w) (<[i := aw_manager w]> (fl_managers fl))
      end
  | Reloaded i =>
      match fl_managers fl !! i with
      | None => fl
      | Some m => mkFleet (fl_src fl) (<[i := (Reload Version parse semantic m (fl_src fl)).1]> (fl_managers fl))
      end
  end.

(** The event neither replaces the document nor names the item in a write. *)
Definition spares (pl : Place) (name : string) (ev : event) : Prop :=
  match ev with
  | Served _ _ r => ~ whole r /\ (target r = Some (pl, name) -> rq_method r <> "PUT" /\ rq_method r <> "DELETE")
  | Reloaded _ => True
  end.

Lemma happen_keeps pl name fl ev :
  pl ∈ resource_places -> tidy_at (fl_src fl) -> spares pl name ev ->
  tidy_at (fl_src (happen fl ev)) /\ view (fl_src (happen fl ev)) pl name = view (fl_src fl) pl name.
Proof.
  intros Hpl Ht Hev. destruct ev as [i d r|i]; simpl; [|by destruct (fl_managers fl !! i)].
  destruct (fl_managers fl !! i) as [m|]; [|done]. destruct Hev as [Hw Hn].
  destruct (Handler d r _) as [w a] eqn:Eh. simpl.
  destruct (handler_outcome Version yaml print strict env file validate semantic quoted d r (mkAW m (fl_src fl) []) w a Ht Hw Eh)
    as (Hspec & Ht' & _). split; [done|]. simpl in Hspec.
  unfold table_spec in Hspec. destruct (target r) as [[pl' name']|]; [|by apply Hspec].
  destruct (success a); [|by apply Hspec].
  destruct (decide (rq_method r = "PUT")) as [Hm|Hm].
  - destruct Hspec as (shown & n & _ & Hb & _). rewrite Hb by done. rewrite decide_False; [done|]. intros [-> ->].
    by destruct (Hn eq_refl).
  - destruct (decide (rq_method r = "DELETE")) as [Hm'|Hm']; [|by apply Hspec].
    destruct Hspec as (_ & Hb). rewrite Hb by done. rewrite decide_False; [done|]. intros [-> ->].
    by destruct (Hn eq_refl).
Qed.

Lemma history_keeps pl name evs fl :
  pl ∈ resource_places -> tidy_at (fl_src fl) -> Forall (spares pl name) evs ->
  view (fl_src (foldl happen fl evs)) pl name = view (fl_src fl) pl name.
Proof.
  intros Hpl. revert fl. induction evs as [|ev evs IH]; intros fl Ht Hall; simpl; [done|].
  apply Forall_cons in Hall as [Hev Hall]. destruct (happen_keeps _ _ _ _ Hpl Ht Hev) as [Ht' <-]. by apply IH.
Qed.

(** C28. Edits are not lost. On a document the API can edit (a mapping whose
    sections are mappings or absent, not null, and no name twice in a list) an
    item a replica accepted is in the document, and stays in it as it was sent, through every later request to any replica, successful,
    refused or failed, conditional or not, and every reload, until a request
    writes or removes that very item or replaces the whole document. *)
Theorem edits_not_lost fl i m d r w a pl name evs :
  tidy_at (fl_src fl) -> fl_managers fl !! i = Some m ->
  Handler d r (mkAW m (fl_src fl) []) = (w, a) -> success a = true -> rq_method r = "PUT" ->
  target r = Some (pl, name) -> Forall (spares pl name) evs ->
  exists shown n, carried r = Some (shown, Some n)
    /\ view (fl_src (foldl happen fl (Served i d r :: evs))) pl name = Some n.
Proof.
  intros Ht Hi Hh Hs Hm Htar Hall. cbn [foldl].
  assert (~ whole r) as Hw by (intros [_ Hw]; unfold target in Htar; by rewrite Hw in Htar).
  assert (happen fl (Served i d r) = mkFleet (aw_src w) (<[i := aw_manager w]> (fl_managers fl))) as ->
    by (simpl; rewrite Hi; by rewrite Hh).
  destruct (handler_outcome Version yaml print strict env file validate semantic quoted d r (mkAW m (fl_src fl) []) w a Ht Hw Hh)
    as (Hspec & Ht' & _).
  unfold table_spec in Hspec. rewrite Htar, Hs, decide_True in Hspec by done.
  destruct Hspec as (shown & n & Hc & Hb & _). exists shown, n. split; [done|].
  pose proof (target_place _ _ _ Htar) as Hpl. rewrite history_keeps by done. simpl. rewrite Hb by done.
  by rewrite decide_True.
Qed.
End replicas.
End AdminTheory.
