(* ===== verification/AdminDemo.v ===== *)
(** * The configuration API on a small document

    A concrete text form of documents with its round trip, a few resources
    that travel through it, and a site of two replicas on one file. The
    witnesses of [AdminTheory]'s theorems and the runs in which the API departs
    from what it says of itself. *)

From S2P Require Import Prelude GoLib Access Store Pipeline Policies Auth Config ConfigManager YamlEdit Server WriteRoutes ModLib AdminApi AdminTheory.
Open Scope Z_scope.

Module AdminDemo.
Import Auth Config ConfigManager YamlEdit Server AdminApi AdminTheory.

(** ** A text form of trees *)

(** Induction on trees. *)
Lemma node_children_ind (P : node -> Prop) :
  (forall k v cs, Forall P cs -> P (Node k v cs)) -> forall n, P n.
Proof.
  intros H. fix node_children_ind 1. intros [k v cs]. apply H.
  induction cs as [|c cs IH]; constructor; [apply node_children_ind|exact IH].
Qed.

Definition kind_char (k : node_kind) : Ascii.ascii :=
  match k with
  | NoNode => "n" | DocumentNode => "d" | SequenceNode => "s" | MappingNode => "m" | ScalarNode => "c" | AliasNode => "a"
  end%char.
Definition kind_of (c : Ascii.ascii) : option node_kind :=
  List.find (fun k => bool_decide (kind_char k = c)) [NoNode; DocumentNode; SequenceNode; MappingNode; ScalarNode; AliasNode].

(** A node: its kind, the characters of its value each after a tick, its
    children, a full stop. A scalar is printed by its value. *)
Fixpoint ticked (v : string) : string :=
  match v with EmptyString => "" | String c v => String "'" (String c (ticked v)) end.
Fixpoint text (n : node) : string :=
  let 'Node k v cs := n in
  String (kind_char k) (ticked v +:+
    (if decide (k = ScalarNode) then "" else foldr (fun c s => text c +:+ s) "" cs) +:+ ".").

Fixpoint take_ticked (s : string) : string * string :=
  match s with
  | String t (String c rest) =>
      if decide (t = "'"%char) then let '(v, r) := take_ticked rest in (String c v, r) else ("", s)
  | _ => ("", s)
  end.

Fixpoint read_node (fuel : nat) (s : string) : option (node * string) :=
  match fuel, s with
  | S f, String c rest =>
      k ← kind_of c;
      let '(v, r) := take_ticked rest in
      '(cs, r) ← read_nodes f r; Some (Node k v cs, r)
  | _, _ => None
  end
with read_nodes (fuel : nat) (s : string) : option (list node * string) :=
  match fuel, s with
  | S f, String c rest =>
      if decide (c = "."%char) then Some ([], rest)
      else '(n, r) ← read_node f s; '(ns, r) ← read_nodes f r; Some (n :: ns, r)
  | _, _ => None
  end.

Lemma kind_of_char k : kind_of (kind_char k) = Some k.
Proof. by destruct k. Qed.

Lemma take_ticked_text v c r : c <> "'"%char -> take_ticked (ticked v +:+ String c r) = (v, String c r).
Proof.
  intros Hc. induction v as [|x v IH]; simpl.
  - destruct r; [done|]. by rewrite decide_False.
  - by rewrite IH.
Qed.

Lemma text_head n : exists c s, text n = String c s /\ c <> "'"%char /\ c <> "."%char.
Proof. destruct n as [[] v cs]; simpl; eexists _, _; (split; [reflexivity|done]). Qed.

Definition texts (cs : list node) : string := foldr (fun c s => text c +:+ s) "" cs.

(** The children's texts and the stop that ends them are read back. *)
Lemma read_texts cs f rest :
  Forall (fun n => forall f rest, (2 * String.length (text n) <= f)%nat -> read_node f (text n +:+ rest) = Some (n, rest)) cs ->
  (2 * String.length (texts cs) + 1 <= f)%nat -> read_nodes f (texts cs +:+ "." +:+ rest) = Some (cs, rest).
Proof.
  intros Hall. revert f. induction Hall as [|n cs Hn _ IH]; intros f Hf; simpl in *.
  - destruct f; [lia|]. done.
  - destruct (text_head n) as (c & s & Ht & _ & Hdot). rewrite <-str_app_assoc.
    destruct f as [|f]; [lia|]. rewrite str_length_app in Hf.
    assert (2 <= String.length (text n))%nat by (rewrite Ht; destruct n as [k v ds]; simpl in Ht;
      injection Ht as _ <-; simpl; rewrite !str_length_app; simpl; lia).
    cbn [read_nodes]. rewrite Ht at 1. simpl. rewrite decide_False by done.
    rewrite Hn by lia. simpl. by rewrite IH by lia.
Qed.

Lemma read_text n f rest :
  wf n = true -> (2 * String.length (text n) <= f)%nat -> read_node f (text n +:+ rest) = Some (n, rest).
Proof.
  revert f rest. induction n as [k v cs IH] using node_children_ind. intros f rest Hw Hf.
  assert ((if decide (k = ScalarNode) then "" else texts cs) = texts cs) as Hcs.
  { case_decide; [|done]. subst k. simpl in Hw. destruct cs; [done|]. simpl in Hw. done. }
  assert (text (Node k v cs) = String (kind_char k) (ticked v +:+ texts cs +:+ ".")) as Ht
    by (simpl; fold (texts cs); by rewrite Hcs).
  rewrite Ht in Hf |- *. destruct f as [|f]; [simpl in Hf; lia|]. cbn [read_node]. simpl. rewrite kind_of_char. simpl.
  assert (exists c r, texts cs +:+ "." +:+ rest = String c r /\ c <> "'"%char) as (c & r & Htx & Hc).
  { destruct cs as [|n cs']; simpl; [by eexists _, _|]. destruct (text_head n) as (c & s & -> & Hc & _). by eexists _, _. }
  rewrite <-!str_app_assoc, Htx, take_ticked_text by done. rewrite <-Htx.
  simpl in Hf. rewrite !str_length_app in Hf. simpl in Hf.
  rewrite read_texts; [done| |lia].
  apply Forall_forall. intros m Hm f' rest' Hf'. rewrite Forall_forall in IH. apply IH; [done| |done].
  by eapply (wf_content (Node k v cs)).
Qed.

(** Spaces before a document do not count. *)
Fixpoint skip_spaces (s : string) : string :=
  match s with String c rest => if decide (c = " "%char) then skip_spaces rest else s | _ => s end.
Definition yaml (s : string) : option node :=
  match read_node (2 * String.length s) (skip_spaces s) with
  | Some (n, "") => if wf n then Some n else None
  | _ => None
  end.
Definition print (n : node) : option string :=
  if decide (Z.of_nat (String.length (text n)) <= doc_limit) then Some (text n) else None.

Lemma yaml_text n : wf n = true -> yaml (text n) = Some n.
Proof.
  intros Hw. unfold yaml. assert (skip_spaces (text n) = text n) as ->.
  { destruct n as [[] v cs]; done. }
  rewrite <-(str_app_nil_r (text n)) at 2. by rewrite read_text, Hw.
Qed.

#[global] Instance yaml_laws : YamlLaws yaml print.
Proof.
  split.
  - intros raw n. unfold yaml. destruct (read_node _ _) as [[m []]|]; try done.
    destruct (wf m) eqn:E; [|done]. by intros [= <-].
  - intros n raw n' Hw _. unfold print. case_decide; [|done]. intros [= <-]. rewrite yaml_text by done. by intros [= <-].
  - intros n raw. unfold print. case_decide; [|done]. by intros [= <-].
Qed.

(** ** Resources *)

Definition record (fields : list (string * string)) : node :=
  Node MappingNode "" (mjoin (map (fun f => [Scalar f.1; Scalar f.2]) fields)).
Definition list_of (l : list node) : node := Node SequenceNode "" l.

(** Each kind, as far as these documents use it: a few fields, the others as
    they are when nothing is said. *)
Definition a_feed (name upstream : string) : FeedConfig := Config.Demo.leaf_feed name [] false upstream.
Definition an_issuer (issuer audience : string) : OIDCIssuer := mkOIDC issuer audience "" "" "" [] "" "".
Definition a_peer (name url : string) : PeerConfig := mkPeer name url "" 0.
Definition a_policy (name path cap : string) : AccessPolicyConfig := mkPolicyCfg name [mkRuleCfg path [cap]].
Definition a_binding (name policy kind : string) : BindingConfig :=
  mkBindingCfg name [policy] (mkMatch kind "" "" "" "" false).

Definition two (body : string) : option (string * string) :=
  match split body "|"%char with [x; y] => Some (x, y) | _ => None end.
Definition three (body : string) : option (string * string * string) :=
  match split body "|"%char with [x; y; z] => Some (x, y, z) | _ => None end.

Definition feed_of (n : node) : FeedConfig := a_feed (mappingField n "name") (mappingField n "upstream").
Definition issuer_of_node (n : node) : OIDCIssuer := an_issuer (mappingField n "issuer") (mappingField n "audience").
Definition peer_of (n : node) : PeerConfig := a_peer (mappingField n "name") (mappingField n "url").
Definition policy_of (n : node) : AccessPolicyConfig :=
  a_policy (mappingField n "name") (mappingField n "path") (mappingField n "cap").
Definition binding_of (n : node) : BindingConfig :=
  a_binding (mappingField n "name") (mappingField n "policy") (mappingField n "kind").

(** The fields of a value these documents can hold. *)
Definition feed_fields (f : FeedConfig) : option (string * string) :=
  let 'mkFeedCfg n fmt up anon hosted pubs rps red ttl pp rm pf pols mem := f in
  match pols with
  | [] => if decide ((fmt, anon, hosted, pubs, rps, red, ttl, pp, rm, pf, mem)
                     = ("npm", false, false, [], 0, false, 0, "", "", false, [])) then Some (n, up) else None
  | _ => None
  end.
Definition issuer_fields (o : OIDCIssuer) : option (string * string) :=
  let 'mkOIDC i au jw cl se sc ae te := o in
  if decide ((jw, cl, se, sc, ae, te) = ("", "", "", [], "", "")) then Some (i, au) else None.
Definition peer_fields (p : PeerConfig) : option (string * string) :=
  let 'mkPeer n u pu iv := p in if decide ((pu, iv) = ("", 0)) then Some (n, u) else None.
Definition policy_fields (p : AccessPolicyConfig) : option (string * string * string) :=
  match p with mkPolicyCfg n [mkRuleCfg path [cap]] => Some (n, path, cap) | _ => None end.
Definition binding_fields (b : BindingConfig) : option (string * string * string) :=
  match b with
  | mkBindingCfg n [p] (mkMatch k i su pr re au) =>
      if decide ((i, su, pr, re, au) = ("", "", "", "", false)) then Some (n, p, k) else None
  | _ => None
  end.

#[global] Instance wire_feed : Wire FeedConfig := {|
  from_json body := '(n, u) ← two body; Some (a_feed n u);
  to_node f := '(n, u) ← feed_fields f; Some (record [("name", n); ("upstream", u)]) |}.
#[global] Instance wire_issuer : Wire OIDCIssuer := {|
  from_json body := '(i, a) ← two body; Some (an_issuer i a);
  to_node o := '(i, a) ← issuer_fields o; Some (record [("issuer", i); ("audience", a)]) |}.
#[global] Instance wire_peer : Wire PeerConfig := {|
  from_json body := '(n, u) ← two body; Some (a_peer n u);
  to_node p := '(n, u) ← peer_fields p; Some (record [("name", n); ("url", u)]) |}.
#[global] Instance wire_policy : Wire AccessPolicyConfig := {|
  from_json body := '(n, p, c) ← three body; Some (a_policy n p c);
  to_node p := '(n, path, c) ← policy_fields p; Some (record [("name", n); ("path", path); ("cap", c)]) |}.
#[global] Instance wire_binding : Wire BindingConfig := {|
  from_json body := '(n, p, k) ← three body; Some (a_binding n p k);
  to_node b := '(n, p, k) ← binding_fields b; Some (record [("name", n); ("policy", p); ("kind", k)]) |}.
#[global] Instance wire_admins : Wire (list string) := {|
  from_json body := Some (split body "|"%char);
  to_node l := Some (list_of (map Scalar l)) |}.

Lemma feed_fields_ok f n u : feed_fields f = Some (n, u) -> f = a_feed n u.
Proof. destruct f as [? ? ? ? ? ? ? ? ? ? ? ? []]; simpl; [|done]. case_decide; [|done]. simplify_eq. by intros [= -> ->]. Qed.
Lemma issuer_fields_ok o i a : issuer_fields o = Some (i, a) -> o = an_issuer i a.
Proof. destruct o. simpl. case_decide; [|done]. simplify_eq. by intros [= -> ->]. Qed.
Lemma peer_fields_ok p n u : peer_fields p = Some (n, u) -> p = a_peer n u.
Proof. destruct p. simpl. case_decide; [|done]. simplify_eq. by intros [= -> ->]. Qed.
Lemma policy_fields_ok p n path c : policy_fields p = Some (n, path, c) -> p = a_policy n path c.
Proof. destruct p as [? [|[? [|? []]] []]]; simpl; try done. by intros [= -> -> ->]. Qed.
Lemma binding_fields_ok b n p k : binding_fields b = Some (n, p, k) -> b = a_binding n p k.
Proof. destruct b as [? [|? []] []]; simpl; try done. case_decide; [|done]. simplify_eq. by intros [= -> -> ->]. Qed.

(** The document: the lists and the administrators from the tree, the rest
    fixed. *)
Definition strict (n : node) : option Config :=
  let c := Config.Demo.doc in
  Some (mkConfig (cfg_site c) (cfg_server c) (cfg_storage c) (cfg_dsn c)
    (mkAuth 0 0 false 0 (map issuer_of_node (entries n issuers)) [])
    (map feed_of (entries n feeds))
    (mkRepl false "" "" "" "" "" "" "" (map peer_of (entries n peers)) 0 0)
    (map n_value (entries n admins)) ""
    (map policy_of (entries n access_policies)) (map binding_of (entries n bindings))).

Lemma mapM_total {A B} (f : A -> B) (l : list A) : mapM (fun x => Some (f x)) l = Some (map f l).
Proof. induction l as [|x l IH]; simpl; [done|]. by rewrite IH. Qed.

(** Encoding is one of the records above. *)
Ltac encoded ok :=
  intros a n; cbn [to_node wire_feed wire_issuer wire_peer wire_policy wire_binding]; rewrite bind_Some;
  intros (x & Hx & Hn); repeat (destruct x as [x ?]); apply ok in Hx; subst; injection Hn as <-; done.

#[global] Instance feed_laws : WireLaws FeedConfig "name" fc_name. Proof. split. encoded feed_fields_ok. Qed.
#[global] Instance issuer_laws : WireLaws OIDCIssuer "issuer" oi_issuer. Proof. split. encoded issuer_fields_ok. Qed.
#[global] Instance peer_laws : WireLaws PeerConfig "name" pc_name. Proof. split. encoded peer_fields_ok. Qed.
#[global] Instance policy_laws : WireLaws AccessPolicyConfig "name" ap_name. Proof. split. encoded policy_fields_ok. Qed.
#[global] Instance binding_laws : WireLaws BindingConfig "name" b_name. Proof. split. encoded binding_fields_ok. Qed.
#[global] Instance admins_laws : ListLaws. Proof. split. by intros l n [= <-]. Qed.

#[global] Instance feed_decode : DecodeLaws strict FeedConfig feeds fc_name cfg_feeds.
Proof.
  refine {| of_node n := Some (feed_of n) |}; [by intros doc c [= <-]; apply mapM_total|encoded feed_fields_ok|by intros n a [= <-]].
Qed.
#[global] Instance issuer_decode : DecodeLaws strict OIDCIssuer issuers oi_issuer (fun c => ac_oidc (cfg_auth c)).
Proof.
  refine {| of_node n := Some (issuer_of_node n) |}; [by intros doc c [= <-]; apply mapM_total|encoded issuer_fields_ok|by intros n a [= <-]].
Qed.
#[global] Instance peer_decode : DecodeLaws strict PeerConfig peers pc_name (fun c => rc_peers (cfg_replication c)).
Proof.
  refine {| of_node n := Some (peer_of n) |}; [by intros doc c [= <-]; apply mapM_total|encoded peer_fields_ok|by intros n a [= <-]].
Qed.
#[global] Instance policy_decode : DecodeLaws strict AccessPolicyConfig access_policies ap_name cfg_access_policies.
Proof.
  refine {| of_node n := Some (policy_of n) |}; [by intros doc c [= <-]; apply mapM_total|encoded policy_fields_ok|by intros n a [= <-]].
Qed.
#[global] Instance binding_decode : DecodeLaws strict BindingConfig bindings b_name cfg_bindings.
Proof.
  refine {| of_node n := Some (binding_of n) |}; [by intros doc c [= <-]; apply mapM_total|encoded binding_fields_ok|by intros n a [= <-]].
Qed.

(** ** A site *)

Definition env (name : string) : option string := if decide (name = "UP") then Some "https://up" else None.
Definition parse : string -> result parse_error Config :=
  Parse yaml strict env (fun _ => None) Config.Demo.validate.
Definition semantic (c : Config) : bool := true.
Definition quoted (s : string) : string := s.
#[global] Instance source : ConfigSource toy_sha256 FileSource := file_source toy_sha256.

Definition first_doc : node :=
  Node DocumentNode "" [Node MappingNode ""
    [Scalar "admins"; list_of [Scalar "token:root"; Scalar "token:eve"];
     Scalar "feeds"; list_of [record [("name", "npmjs"); ("upstream", "https://registry.npmjs.org")]];
     Scalar "replication"; Node MappingNode "" []]].
Definition first_file : FileSource := mkFile (Some (text first_doc)) true true.
Definition first_manager : Manager :=
  match parse (text first_doc) with Ok c => mkManager (toy_sha256 (text first_doc)) c [] | Err _ => ConfigManager.Demo.manager end.

(** The credential [root] is an administrator's; [stale] is one a replica
    remembers while it cannot reach the token table. *)
Definition root_id : Identity := mkIdentity "token" "root" "" "" "".
Definition identify (r : HttpReq) : result string Authed :=
  let h := header_get (rq_header r) "Authorization" in
  if decide (h = "root") then Ok (mkAuthed root_id false)
  else if decide (h = "stale") then Ok (mkAuthed root_id true)
  else Err "unknown".
Definition deps : Deps := mkDeps (Some identify) (Some Config.Demo.engine) true true true "file" true.
Definition request (method path body query auth : string) : HttpReq :=
  mkHttp method path {[ "Authorization" := auth ]} body query.

Notation handle := (Handler toy_sha256 parse semantic yaml print quoted).
Definition start : AW := mkAW first_manager first_file [].

Lemma few_named_once field name l : (length l <= 1)%nat -> named_once field name l.
Proof.
  destruct l as [|x [|y l]]; simpl; unfold named_once; simpl; [lia| |lia]. destruct (field_is field name x); simpl; lia.
Qed.

(** A document with at most one item in each list is tidy. *)
Lemma small_tidy doc :
  is_document doc = true -> documentRoot doc <> None ->
  (forall s, s ∈ ["replication"; "auth"] -> match findMapping doc s with Some n => n_kind n = MappingNode | None => True end) ->
  forallb (fun pl => bool_decide (length (entries doc pl) <= 1)%nat) resource_places = true -> tidy doc.
Proof.
  intros Hd Hr Hs Hl. split; [done|by apply not_eq_None_Some| |].
  - intros pl Hpl s n Hsec Hf.
    assert (s ∈ ["replication"; "auth"]) as Hin.
    { repeat (apply elem_of_cons in Hpl as [->|Hpl]; [simpl in Hsec; simplify_eq; set_solver|]). by apply not_elem_of_nil in Hpl. }
    specialize (Hs s Hin). by rewrite Hf in Hs.
  - intros pl name Hpl. apply few_named_once. rewrite forallb_forall in Hl.
    eapply bool_decide_eq_true. apply Hl. by apply list_elem_of_In.
Qed.

Lemma first_tidy : tidy first_doc.
Proof.
  apply small_tidy; [done|done| |by vm_compute].
  intros s [-> |[-> |[]%not_elem_of_nil]%elem_of_cons]%elem_of_cons; by vm_compute.
Qed.

Lemma start_tidy : tidy_at toy_sha256 yaml (aw_src start).
Proof.
  intros doc. assert (tree toy_sha256 yaml (aw_src start) = Some first_doc) as -> by (by vm_compute).
  intros [= <-]. apply first_tidy.
Qed.

(** ** Witnesses *)

Definition put_pypi : HttpReq := request "PUT" "/config/feeds/pypi" "pypi|https://pypi.org" "" "root".
Definition get_pypi : HttpReq := request "GET" "/config/feeds/pypi" "" "" "root".
Definition drop_eve : HttpReq := request "DELETE" "/config/admins/binding" "" "pattern=token:eve" "root".
Definition drop_root : HttpReq := request "DELETE" "/config/admins/binding" "" "pattern=token:root" "root".
Definition after_put : AW := (handle deps put_pypi start).1.

Lemma config_needs_authority_witness :
  success (handle deps put_pypi start).2 = true /\ entitled deps put_pypi SysConfig CapUpdate.
Proof.
  assert (success (handle deps put_pypi start).2 = true) as Hs by (by vm_compute). split; [exact Hs|].
  destruct (handle deps put_pypi start) as [w a] eqn:E.
  exact (config_needs_authority toy_sha256 parse semantic yaml print quoted deps put_pypi start w a E (or_intror Hs)).
Defined.


Definition second_root : node :=
  Node MappingNode ""
    [Scalar "admins"; list_of [Scalar "token:root"; Scalar "token:eve"];
     Scalar "feeds"; list_of [record [("name", "npmjs"); ("upstream", "https://registry.npmjs.org")];
                              record [("name", "pypi"); ("upstream", "https://pypi.org")]];
     Scalar "replication"; Node MappingNode "" []].

Lemma after_put_tree : tree toy_sha256 yaml (aw_src after_put) = Some (Node DocumentNode "" [second_root]).
Proof. by vm_compute. Qed.

Lemma after_put_plain : plain_place env (Node DocumentNode "" [second_root]) feeds.
Proof.
  split.
  - intros root [= <-]. vm_compute. repeat split.
  - done.
  - change (entries _ feeds) with [record [("name", "npmjs"); ("upstream", "https://registry.npmjs.org")];
                                   record [("name", "pypi"); ("upstream", "https://pypi.org")]].
    repeat constructor.
Qed.

Lemma put_then_get_witness :
  exists v, (handle deps get_pypi after_put).2 = tagged 200 v (PFeed (a_feed "pypi" "https://pypi.org")).
Proof.
  destruct (handle deps put_pypi start) as [w a] eqn:E.
  assert (after_put = w) as Hw by (unfold after_put; by rewrite E).
  assert (success a = true) as Hs by (apply (f_equal (fun x => success x.2)) in E; vm_compute in E |- *; congruence).
  destruct (put_then_get toy_sha256 yaml print strict env (fun _ => None) Config.Demo.validate semantic quoted
              deps put_pypi get_pypi start w a feeds "pypi" (mkAuthed root_id false) start_tidy E Hs)
    as (shown & o & v & Hc & Hshow & _).
  - reflexivity.
  - reflexivity.
  - rewrite <-Hw, after_put_tree. intros doc [= <-]. exact after_put_plain.
  - reflexivity.
  - discriminate.
  - exists v. assert (shown = PFeed (a_feed "pypi" "https://pypi.org")) as -> by (vm_compute in Hc; by injection Hc as <- _).
    rewrite Hw. transitivity (show_item deps feeds "pypi" get_pypi w).2; [reflexivity|]. by rewrite Hshow.
Defined.

(** Two replicas of the site. *)
Definition site : Fleet := mkFleet first_file (<[0%nat := first_manager]> {[ 1%nat := first_manager ]}).
Notation happens := (happen toy_sha256 yaml print strict env (fun _ => None) Config.Demo.validate semantic quoted).
Definition later : list event :=
  [ Served 1 deps (request "PUT" "/config/peers/eu" "eu|https://eu" "" "root"); Reloaded 0;
    Served 0 deps (request "DELETE" "/config/feeds/npmjs" "" "" "root"); Served 1 deps drop_eve ].

Lemma edits_not_lost_witness :
  view toy_sha256 yaml (fl_src (foldl happens site (Served 0 deps put_pypi :: later))) feeds "pypi"
  = Some (record [("name", "pypi"); ("upstream", "https://pypi.org")]).
Proof.
  destruct (handle deps put_pypi (mkAW first_manager (fl_src site) [])) as [w a] eqn:E.
  assert (success a = true) as Hs by (apply (f_equal (fun x => success x.2)) in E; vm_compute in E |- *; congruence).
  destruct (edits_not_lost toy_sha256 yaml print strict env (fun _ => None) Config.Demo.validate semantic quoted
              site 0 first_manager deps put_pypi w a feeds "pypi" later start_tidy eq_refl E Hs eq_refl eq_refl)
    as (shown & n & Hc & Hv).
  - repeat constructor; try (intros [_ H]; vm_compute in H; discriminate); vm_compute; discriminate.
  - rewrite Hv. vm_compute in Hc. by injection Hc as _ <-.
Defined.

(** ** Where the API departs from what it says *)

(** A write is accepted from an identity a replica only remembers, which the
    data type documents as good for reads alone. *)
Theorem stale_identity_changes_configuration :
  let r := request "PUT" "/config/admins/binding" "" "pattern=token:mallory" "stale" in
  let '(w, a) := handle deps r start in
  au_stale (identityOrRefusal deps r).1 = true /\ an_status a = 201
  /\ cfg_admins (current w) = ["token:root"; "token:eve"; "token:mallory"].
Proof. by vm_compute. Qed.

(** The last administrator goes when two replicas each remove one: the check
    looks at the replica's snapshot, before the lock is taken. *)
Theorem last_administrators_removed :
  let fl := foldl happens site [Served 0 deps drop_eve; Served 1 deps drop_root] in
  (n_value <$> items (tree toy_sha256 yaml (fl_src fl) ≫= (fun doc => at_path doc ["admins"]))) = [].
Proof. by vm_compute. Qed.

(** Removing what is not there answers that it is not there, and rewrites the
    document under another version. *)
Theorem missing_delete_rewrites :
  let w := mkAW first_manager (mkFile (Some (" " +:+ text first_doc)) true true) [] in
  let '(w', a) := handle deps (request "DELETE" "/config/feeds/none" "" "" "root") w in
  an_status a = 404 /\ fi_content (aw_src w') = Some (text first_doc).
Proof. by vm_compute. Qed.

(** A section left empty in the document swallows what is put into it: the
    answer says created, the document does not have it. *)
Definition empty_section : node :=
  Node DocumentNode "" [Node MappingNode "" [Scalar "admins"; list_of [Scalar "token:root"]; Scalar "replication"; Scalar ""]].

Theorem empty_section_swallows :
  let w := mkAW first_manager (mkFile (Some (text empty_section)) true true) [] in
  let '(w', a) := handle deps (request "PUT" "/config/peers/eu" "eu|https://eu" "" "root") w in
  an_status a = 201 /\ fi_content (aw_src w') = Some (text empty_section) /\ rc_peers (cfg_replication (current w')) = [].
Proof. by vm_compute. Qed.
End AdminDemo.
