(* ===== verification/AdminOps.v ===== *)
(** * The admin API's operator actions ([core/adminapi/operations.go], [access.go])

    Tokens, quarantine decisions, conflict resolutions, the replication
    overview, and the questions about access rules. The handlers call the
    operations [State], [ReplSql] and [Applier] model, in one transaction each;
    a transaction that fails leaves the tables. Creation and decision times
    are left out of the listings. Rows are listed in the order the statements
    ask for; a conflict's age is its position in the table. *)

From S2P Require Import Prelude GoLib Access State StateTheory Events ReplSql Applier Store Auth Config Server ModLib AdminApi AdminTheory AdminDemo.
Open Scope Z_scope.

Module AdminOps.
Import Server AdminApi.

Definition SysTokens : string := "sys/tokens".
Definition SysQuarantine : string := "sys/quarantine".
Definition SysConflicts : string := "sys/conflicts".
Definition SysReplication : string := "sys/replication".

(** ** Bodies and answers *)

Record QuarantineBody := mkQB {
  qb_feed : string; qb_coordinate : string; qb_reason : string; qb_detail : string; qb_active : option bool }.
Record ResolveBody := mkRB { rb_feed : string; rb_path : string; rb_coordinate : string; rb_keep : string }.

Record TokenInfo := mkTI { ti_name : string; ti_hash_prefix : string; ti_revoked : bool }.
Record QuarantineEntry := mkQE { qe_feed : string; qe_coordinate : string; qe_why : string; qe_detail : string }.
Record CursorInfo := mkCI { ci_peer : string; ci_origin : string; ci_applied : Z; ci_durable : Z; ci_error : string }.
Record ReplicationStatus := mkRS {
  rs_enabled : bool;
  rs_site : string;
  rs_cursors : list CursorInfo;
  rs_peers : list (string * string);
  rs_parked : nat;
  rs_heads : gmap string Z;
}.
Record AccessPolicyView := mkPV { pv_name : string; pv_generated : bool; pv_rules : list (string * list string) }.
Record BindingView := mkBV { bv_name : string; bv_generated : bool; bv_policies : list string; bv_match : gmap string string }.
Record ExplainResponse := mkER {
  er_path : string;
  er_capability : string;
  er_identity : string;
  er_decision : Decision;
}.

Inductive obody :=
| OMessage (msg : string)
| OTokens (l : list TokenInfo)
| OIssued (name secret : string)
| ORevoked (name hash_prefix : string)
| OQuarantine (l : list QuarantineEntry)
| ODecision (feed coordinate reason : string) (active : bool)
| OConflicts (l : list ConflictRow)
| OResolved (feed path keep : string)
| OReplication (s : ReplicationStatus)
| OAccess (policies : list AccessPolicyView) (bindings : list BindingView) (capabilities : list string)
| OExplain (e : ExplainResponse)
| OMethods (l : list Config.AuthMethod).

Record OAnswer := mkOA { oa_status : Z; oa_body : obody }.
Definition say (status : Z) (msg : string) : OAnswer := mkOA status (OMessage msg).
Definition internal : OAnswer := say 500 "internal error".

(** A refusal, as [require] writes it. *)
Definition refused_as (a : Answer) : OAnswer :=
  say (an_status a) (match an_body a with PError m => m | _ => "" end).

(** [writeConfigError], for the errors these operations can return. *)
Definition error_status (e : api_error) : Z :=
  match e with ErrUnavailable => 503 | ErrNotFound => 404 | ErrBadRequest => 400 | _ => 422 end.

(** ** The world of a request *)

Record OpsDeps := mkOps {
  od_deps : Deps;
  od_site : string;
  od_replicated : bool;                              (** the active document enables replication *)
  od_answers : bool;                                 (** the database answers *)
  od_now : Z;
  od_nested : bool;
  od_project : option (projectionWrite -> option api_error);
}.

(** The tables, and the projections of the blob store. *)
Record OW := mkOW { ow_db : DB; ow_projections : gmap (string * string) projectionWrite }.
Definition with_tables (w : OW) (db : DB) : OW := mkOW db (ow_projections w).

(** ** Statements of these handlers *)

(** [Tokens.Create] on the site's tables: names and hashes are unique. *)
Definition CreateToken (name hash : string) (db : DB) : option DB :=
  if decide (name = "") then None
  else if existsb (fun t => bool_decide (t_name t = name)) (snd <$> map_to_list (tokens db)) then None
  else match tokens db !! hash with
       | Some _ => None
       | None => Some (set_tokens db (<[hash := mkToken name false]> (tokens db)))
       end.

(** [RevokeTx]: the hash of the token, now revoked. *)
Definition RevokeToken (name : string) (db : DB) : option (DB * string) :=
  match List.find (fun kv : string * TokenRow => bool_decide (t_name kv.2 = name)) (map_to_list (tokens db)) with
  | Some (hash, t) => Some (set_tokens db (<[hash := mkToken (t_name t) true]> (tokens db)), hash)
  | None => None
  end.

(** [ListConflicts]: the latest first. *)
Definition ListConflicts (openOnly : bool) (db : DB) : list ConflictRow :=
  rev (if openOnly then open_conflicts db else publish_conflicts db).

Section ops.
Context (o : OpsDeps).
(** The hash of a secret, the secret drawn for this request, the bodies. *)
Context (hashHex : string -> string) (secret : string).
Context (name_body : string -> option string) (quarantine_body : string -> option QuarantineBody)
  (resolve_body : string -> option ResolveBody).

(** The guards every handler starts with: the right, then a database. *)
Definition with_right (r : HttpReq) (path : string) (want : Capability) (w : OW)
  (k : Auth.Authed -> OW * OAnswer) : OW * OAnswer :=
  match require (od_deps o) r path want with
  | Err a => (w, refused_as a)
  | Ok id => k id
  end.
Definition with_database (missing : string) (w : OW) (k : OW * OAnswer) : OW * OAnswer :=
  if dp_db (od_deps o) then k else (w, say 503 missing).

Definition body_of {A} (decode : string -> option A) (r : HttpReq) : option A :=
  decode (limit_read maxDocument (rq_body r)).

(** [hash[:8]] of a digest, which has 64 characters. *)
Definition hash_prefix (hash : string) : string :=
  if decide (8 <= String.length hash)%nat then String.substring 0 8 hash else "".

(** *** Tokens *)

Definition handleListTokens (r : HttpReq) (w : OW) : OW * OAnswer :=
  with_right r SysTokens CapRead w (fun _ =>
  with_database "tokens need a database" w
    (if od_answers o then
       (w, mkOA 200 (OTokens ((fun kv => mkTI (t_name kv.2) (hash_prefix kv.1) (t_revoked kv.2))
                              <$> by_key (fun kv => t_name kv.2) (map_to_list (tokens (ow_db w))))))
     else (w, internal))).

Definition handleCreateToken (r : HttpReq) (w : OW) : OW * OAnswer :=
  with_right r SysTokens CapCreate w (fun _ =>
  with_database "tokens need a database" w
    match body_of name_body r with
    | None => (w, say 400 "parse body")
    | Some name =>
        if decide (name = "") then (w, say 400 "name is required")
        else if negb (od_answers o) then (w, say 422 "store token")
        else match CreateToken name (hashHex secret) (ow_db w) with
             | None => (w, say 422 "store token")
             | Some db => (with_tables w db, mkOA 201 (OIssued name secret))
             end
    end).

Definition handleRevokeToken (name : string) (r : HttpReq) (w : OW) : OW * OAnswer :=
  with_right r SysTokens CapDelete w (fun _ =>
  with_database "tokens need a database" w
    (if negb (od_answers o) then (w, internal)
     else match RevokeToken name (ow_db w) with
          | None => (w, say 404 ("token " +:+ name))
          | Some (db, hash) =>
              let db := if od_replicated o then AppendTokenRevoke (od_now o) (od_site o) hash db else db in
              (with_tables w db, mkOA 200 (ORevoked name (String.substring 0 8 hash)))
          end)).

(** *** Quarantine *)

Definition handleListQuarantine (r : HttpReq) (w : OW) : OW * OAnswer :=
  with_right r SysQuarantine CapRead w (fun _ =>
  with_database "quarantine needs a database" w
    (if od_answers o then
       let active := filter (fun kv => q_active kv.2 = true) (map_to_list (quarantine (ow_db w))) in
       let key kv := joined kv.1.1.1 (joined kv.1.1.2 kv.1.2) in
       (w, mkOA 200 (OQuarantine ((fun kv => mkQE kv.1.1.1 kv.1.1.2 kv.1.2 (q_detail kv.2)) <$> by_key key active)))
     else (w, internal))).

(** The stamp of a decision: the journal entry's on a replicated site, so that
    the decision is ordered here as it is at the peers. *)
Definition stamp_decision (b : QuarantineBody) (reason : string) (active : bool) (db : DB) : DB * HLC :=
  if od_replicated o then
    let '(db, entry) :=
      if active
      then AppendQuarantineEntry (od_now o) (od_site o) (mkQuarantineSet (qb_feed b) (qb_coordinate b) reason (qb_detail b)) db
      else AppendQuarantineReleaseEntry (od_now o) (od_site o) (mkQuarantineRelease (qb_feed b) (qb_coordinate b) reason) db in
    (db, EHLC entry)
  else
    let h := repl_hlc_now (od_now o) (hlc_state db) in (set_hlc db h, hlc_reading h).

Definition handleQuarantine (r : HttpReq) (w : OW) : OW * OAnswer :=
  with_right r SysQuarantine CapUpdate w (fun _ =>
  with_database "quarantine needs a database" w
    match body_of quarantine_body r with
    | None => (w, say 400 "parse body")
    | Some b =>
        if decide (qb_feed b = "" \/ qb_coordinate b = "") then (w, say 400 "feed and coordinate are required")
        else
          let reason := if decide (qb_reason b = "") then "manual" else qb_reason b in
          if decide (reason = conflict_reason) then
            (w, say 400 "a conflict block is derived from recorded conflicts; resolve the conflict instead")
          else
            let active := default true (qb_active b) in
            if negb (od_answers o) then (w, internal)
            else
              let '(db, stamp) := stamp_decision b reason active (ow_db w) in
              let db := ApplyQuarantineDecisionTx (qb_feed b) (qb_coordinate b) reason (qb_detail b) active stamp db in
              (with_tables w db, mkOA 200 (ODecision (qb_feed b) (qb_coordinate b) reason active))
    end).

(** *** Conflicts *)

Definition handleListConflicts (r : HttpReq) (w : OW) : OW * OAnswer :=
  with_right r SysConflicts CapRead w (fun _ =>
  with_database "conflicts need a database" w
    (if od_answers o then
       (w, mkOA 200 (OConflicts (ListConflicts (bool_decide (query_get (rq_query r) "all" <> "true")) (ow_db w))))
     else (w, internal))).

(** The coordinate a request leaves out, from the first open conflict of its path. *)
Definition recover_coordinate (b : ResolveBody) (db : DB) : string :=
  match List.find (fun c => bool_decide (c_feed c = rb_feed b /\ c_path c = rb_path b)) (ListConflicts true db) with
  | Some c => c_coordinate c
  | None => ""
  end.

Definition handleResolveConflict (r : HttpReq) (w : OW) : OW * OAnswer :=
  with_right r SysConflicts CapUpdate w (fun id =>
  with_database "resolving conflicts needs a database" w
    match body_of resolve_body r with
    | None => (w, say 400 "parse body")
    | Some b =>
        if decide (rb_feed b = "" \/ rb_path b = "" \/ String.length (rb_keep b) <> 64%nat) then
          (w, say 400 "feed, path and a full keep_sha256 are required")
        else if decide (rb_coordinate b = "" /\ od_answers o = false) then (w, internal)
        else
          let coordinate := if decide (rb_coordinate b = "") then recover_coordinate b (ow_db w) else rb_coordinate b in
          if decide (coordinate = "") then (w, say 404 "no open conflict for that coordinate")
          else if isHex (rb_keep b) && negb (od_answers o) then (w, say (error_status ErrUnavailable) "begin transaction")
          else
            match ResolveConflictOp (od_nested o) (od_now o) (od_site o)
                    (mkConflictResolve (rb_feed b) (rb_path b) coordinate (rb_keep b) (identity_string (Auth.au_id id)))
                    (ow_db w) with
            | Err _ => (w, say 422 "resolve conflict")
            | Ok (db, _, p) =>
                let done_ := mkOA 200 (OResolved (rb_feed b) (rb_path b) (rb_keep b)) in
                match od_project o with
                | None => (with_tables w db, done_)
                | Some project =>
                    match project p with
                    | Some e => (with_tables w db, say (error_status e) "rewrite the resolved manifest projection")
                    | None => (mkOW db (<[(pw_feed p, pw_path p) := p]> (ow_projections w)), done_)
                    end
                end
            end
    end).

(** *** The replication overview *)

Definition handleReplication (r : HttpReq) (w : OW) : OW * OAnswer :=
  with_right r SysReplication CapRead w (fun _ =>
    let db := ow_db w in
    let here := dp_db (od_deps o) && od_answers o in
    (w, mkOA 200 (OReplication
      (if here then
         mkRS (od_replicated o) (od_site o)
           ((fun kc => mkCI kc.1.1 kc.1.2 (AppliedSeq kc.2) (DurableSeq kc.2) (LastError kc.2))
              <$> by_key (fun kc => joined kc.1.1 kc.1.2) (map_to_list (repl_cursors db)))
           (by_key fst (map_to_list (repl_peer_identity db)))
           (length (repl_parked db))
           (set_to_map (fun origin => (origin, (JournalHead origin db).1)) (KnownOrigins db))
       else mkRS (od_replicated o) (od_site o) [] [] 0 ∅)))).

(** ** Access rules ([access.go]) *)

(** [matchView]. *)
Definition matchView (m : Match) : gmap string string :=
  let pairs := [("kind", m_kind m); ("issuer", m_issuer m); ("subject", m_subject m);
                ("project_path", m_project_path m); ("ref", m_ref m)] in
  let out := list_to_map (filter (fun kv => kv.2 <> "") pairs) in
  if m_authenticated m then <["authenticated" := "true"]> out else out.

(** [Engine.Policies]. *)
Definition EnginePolicies (e : Engine) : list Policy := by_key policy_name (snd <$> map_to_list (Access.policies e)).

Definition handleAccess (r : HttpReq) (w : OW) : OW * OAnswer :=
  with_right r SysConfig CapRead w (fun _ =>
    match dp_access (od_deps o) with
    | None => (w, say 503 "access rules are not loaded")
    | Some e =>
        (w, mkOA 200 (OAccess
          ((fun p => mkPV (policy_name p) (has_prefix (policy_name p) "feed:" || has_prefix (policy_name p) "sys:")
                       ((fun rule => (rule_path rule, rule_capabilities rule)) <$> policy_rules p))
             <$> EnginePolicies e)
          ((fun b => mkBV (binding_name b) (bool_decide (binding_name b = "")) (binding_policies b)
                       (matchView (binding_match b))) <$> Access.bindings e)
          KnownCapabilities))
    end).

(** The identity an explanation is asked about; [None] for the caller's own. *)
Definition described (query : string) : option Identity :=
  let get := query_get query in
  let id := mkIdentity (get "kind") (get "subject") (get "issuer") (get "project_path") (get "ref") in
  if decide (id_kind id = "" /\ id_subject id = "" /\ id_project_path id = "" /\ id_issuer id = "" /\ id_ref id = "")
  then None
  else Some (if decide (id_kind id = "")
             then mkIdentity Auth.IdentityToken (id_subject id) (id_issuer id) (id_project_path id) (id_ref id) else id).

Definition explain (r : HttpReq) (subject : Identity) (w : OW) : OW * OAnswer :=
  let path := query_get (rq_query r) "path" in
  let asked := query_get (rq_query r) "capability" in
  let want := if decide (asked = "") then CapRead else asked in
  if decide (path = "") then (w, say 400 "path is required, e.g. path=feed/releases/maven:com.example:lib@1.0.0")
  else if negb (Known want) then
    (w, say 400 ("capability " +:+ want +:+ " is not one of " +:+ capabilities_string KnownCapabilities))
  else (w, mkOA 200 (OExplain (mkER path want (identity_string subject) (allows (od_deps o) subject path want)))).

Definition handleExplain (r : HttpReq) (w : OW) : OW * OAnswer :=
  match described (rq_query r) with
  | None => explain r (Auth.au_id (identityOrRefusal (od_deps o) r).1) w
  | Some subject => with_right r SysConfig CapRead w (fun _ => explain r subject w)
  end.

(** How to sign in, for anyone. *)
Definition handleAuthMethods (c : Config.Config) (r : HttpReq) (w : OW) : OW * OAnswer :=
  (w, mkOA 200 (OMethods (Config.AuthMethods c))).
End ops.

(** ** Theorems *)

Definition done_ok (a : OAnswer) : bool := (200 <=? oa_status a) && (oa_status a <? 300).

(** The actions that change something, and the right each takes. *)
Inductive action := IssueToken | WithdrawToken (name : string) | DecideQuarantine | SettleConflict.
Definition right_of (x : action) : string * Capability :=
  match x with
  | IssueToken => (SysTokens, CapCreate)
  | WithdrawToken _ => (SysTokens, CapDelete)
  | DecideQuarantine => (SysQuarantine, CapUpdate)
  | SettleConflict => (SysConflicts, CapUpdate)
  end.

Section theory.
Context (o : OpsDeps) (hashHex : string -> string) (secret : string).
Context (name_body : string -> option string) (quarantine_body : string -> option QuarantineBody)
  (resolve_body : string -> option ResolveBody).

Definition act (x : action) : HttpReq -> OW -> OW * OAnswer :=
  match x with
  | IssueToken => handleCreateToken o hashHex secret name_body
  | WithdrawToken name => handleRevokeToken o name
  | DecideQuarantine => handleQuarantine o quarantine_body
  | SettleConflict => handleResolveConflict o resolve_body
  end.

Lemma with_right_entitled r path want w k w' a :
  with_right o r path want w k = (w', a) -> w' <> w \/ done_ok a = true ->
  AdminTheory.entitled (od_deps o) r path want.
Proof.
  unfold with_right. destruct (require (od_deps o) r path want) as [id|b] eqn:E.
  - intros _ _. by apply AdminTheory.require_entitled in E as [? _].
  - intros [= <- <-] [Hw|Hw]; [done|]. apply AdminTheory.require_refuses in E. unfold done_ok in Hw. simpl in Hw.
    destruct E as [E|E]; by rewrite E in Hw.
Qed.

(** An operator action changes the tables or the projections, or succeeds,
    only for a caller the rules in force grant the right it takes. *)
Theorem actions_need_authority x r w w' a :
  act x r w = (w', a) -> w' <> w \/ done_ok a = true ->
  AdminTheory.entitled (od_deps o) r (right_of x).1 (right_of x).2.
Proof. destruct x; simpl; apply with_right_entitled. Qed.

End theory.

(** *** Quarantine decisions *)

Section decisions.
Context (o : OpsDeps) (quarantine_body : string -> option QuarantineBody).

Lemma with_right_ok r path want w k w' a :
  with_right o r path want w k = (w', a) -> done_ok a = true -> exists id, k id = (w', a).
Proof.
  unfold with_right. destruct (require (od_deps o) r path want) as [id|b] eqn:E; [by exists id|].
  intros [= <- <-] Hw. apply AdminTheory.require_refuses in E. unfold done_ok in Hw. simpl in Hw.
  destruct E as [E|E]; by rewrite E in Hw.
Qed.

(** What an accepted decision did. *)
Lemma handleQuarantine_ok r w w' a :
  handleQuarantine o quarantine_body r w = (w', a) -> done_ok a = true ->
  exists b reason active db stamp,
    qb_feed b <> "" /\ qb_coordinate b <> "" /\ reason <> "" /\ reason <> conflict_reason
    /\ oa_body a = ODecision (qb_feed b) (qb_coordinate b) reason active
    /\ stamp_decision o b reason active (ow_db w) = (db, stamp)
    /\ w' = with_tables w (ApplyQuarantineDecisionTx (qb_feed b) (qb_coordinate b) reason (qb_detail b) active stamp db).
Proof.
  intros Hh Ha. apply with_right_ok in Hh as [id Hh]; [|done]. unfold with_database in Hh.
  destruct (dp_db _); [|by injection Hh as <- <-].
  destruct (body_of quarantine_body r) as [b|]; [|by injection Hh as <- <-].
  destruct (decide (qb_feed b = "" \/ qb_coordinate b = "")) as [|Hne]; [by injection Hh as <- <-|].
  set (reason := if decide (qb_reason b = "") then "manual" else qb_reason b) in *.
  destruct (decide (reason = conflict_reason)); [by injection Hh as <- <-|].
  destruct (od_answers o); [|by injection Hh as <- <-]. simpl in Hh.
  destruct (stamp_decision o b reason (default true (qb_active b)) (ow_db w)) as [db stamp] eqn:Es.
  injection Hh as <- <-. exists b, reason, (default true (qb_active b)), db, stamp.
  split_and!; try done; try naive_solver. subst reason. by case_decide.
Qed.

(** The row an applied decision leaves depends on the row before only. *)
Lemma decision_row feed coord reason detail active hlc db1 db2 :
  quarantine db1 !! (feed, coord, reason) = quarantine db2 !! (feed, coord, reason) ->
  quarantine (ApplyQuarantineDecisionTx feed coord reason detail active hlc db1) !! (feed, coord, reason)
  = quarantine (ApplyQuarantineDecisionTx feed coord reason detail active hlc db2) !! (feed, coord, reason).
Proof.
  intros Heq. unfold ApplyQuarantineDecisionTx, quarantineTx, releaseQuarantineTx. rewrite Heq.
  destruct active, (quarantine db2 !! (feed, coord, reason)) as [q|] eqn:E; simpl;
    try (case_match; simpl); rewrite ?lookup_insert_eq; congruence.
Qed.

Lemma append_entry now site kind payload db db' e :
  AppendJournal now site kind payload db = (db', e) ->
  repl_journal db' !! (site, OriginSeq e) = Some (e, now) /\ Kind e = kind /\ Payload e = payload
  /\ OriginSite e = site /\ hlc_lt (hlc_reading (hlc_state db)) (EHLC e)
  /\ quarantine db' = quarantine db /\ tokens db' = tokens db.
Proof.
  intros [= <- <-]. simpl. rewrite lookup_insert_eq. split_and!; try done. apply next_advances.
Qed.

Lemma stamp_decision_spec b reason active db db' stamp :
  stamp_decision o b reason active db = (db', stamp) ->
  quarantine db' = quarantine db /\ hlc_lt (hlc_reading (hlc_state db)) stamp
  /\ (od_replicated o = true -> exists e, repl_journal db' !! (od_site o, OriginSeq e) = Some (e, od_now o)
        /\ EHLC e = stamp /\ OriginSite e = od_site o
        /\ (if active then Kind e = KindQuarantineSet
               /\ Payload e = encode_quarantine_set (mkQuarantineSet (qb_feed b) (qb_coordinate b) reason (qb_detail b))
             else Kind e = KindQuarantineRelease
               /\ Payload e = encode_quarantine_release (mkQuarantineRelease (qb_feed b) (qb_coordinate b) reason))).
Proof.
  unfold stamp_decision. destruct (od_replicated o).
  - destruct active; unfold AppendQuarantineEntry, AppendQuarantineReleaseEntry;
      destruct (AppendJournal _ _ _ _ _) as [db1 e] eqn:Ej; intros [= <- <-];
      apply append_entry in Ej as (Hj & Hk & Hp & Hs & Ht & Hq & _);
      (split; [done|]); (split; [done|]); intros _; by exists e.
  - intros [= <- <-]. split; [done|]. split; [apply now_advances|done].
Qed.

(** C30. On a replicated site, the journal entry of an accepted quarantine
    decision, applied at any peer that had the same row, leaves the peer with
    the row this site has. *)
Theorem decision_as_at_peers r w w' a feed coord reason active :
  od_replicated o = true -> handleQuarantine o quarantine_body r w = (w', a) -> done_ok a = true ->
  oa_body a = ODecision feed coord reason active ->
  exists e, repl_journal (ow_db w') !! (od_site o, OriginSeq e) = Some (e, od_now o) /\ OriginSite e = od_site o
    /\ forall env peer t, quarantine (tx_db t) !! (feed, coord, reason) = quarantine (ow_db w) !! (feed, coord, reason) ->
        exists t', dispatch env peer e t = Ok t'
          /\ quarantine (tx_db t') !! (feed, coord, reason) = quarantine (ow_db w') !! (feed, coord, reason).
Proof.
  intros Hrep Hh Ha Hb. apply handleQuarantine_ok in Hh as (b & rs & ac & db & stamp & Hf & Hc & Hr & _ & Hbody & Hs & ->); [|done].
  rewrite Hbody in Hb. injection Hb as <- <- <- <-.
  apply stamp_decision_spec in Hs as (Hq & _ & Hj). destruct (Hj Hrep) as (e & He & <- & Hsite & Hpay). exists e.
  split. { unfold ApplyQuarantineDecisionTx, quarantineTx, releaseQuarantineTx. by repeat case_match. }
  split; [done|]. intros env peer t Ht.
  assert (forall d, tx_db (with_db t d) = d) as Htx by done.
  assert (quarantine (tx_db t) !! (qb_feed b, qb_coordinate b, rs) = quarantine db !! (qb_feed b, qb_coordinate b, rs))
    as Hrow by (rewrite Hq; exact Ht).
  destruct ac; destruct Hpay as [Hk Hp]; unfold dispatch; rewrite Hk; repeat (rewrite decide_False by done);
    rewrite decide_True by done.
  - unfold applyQuarantineSet. rewrite Hp, decode_encode_quarantine_set. simpl. repeat (rewrite bool_decide_false by done).
    simpl. eexists. split; [reflexivity|]. simpl. exact (decision_row _ _ _ _ true _ _ _ Hrow).
  - unfold applyQuarantineRelease. rewrite Hp, decode_encode_quarantine_release. simpl. rewrite decide_False by done.
    eexists. split; [reflexivity|]. simpl. exact (decision_row _ _ _ (qb_detail b) false _ _ _ Hrow).
Qed.

(** An accepted decision is in force at once, as long as the row it meets
    is not stamped ahead of this site's clock. *)
Theorem decision_takes_effect r w w' a feed coord reason active :
  handleQuarantine o quarantine_body r w = (w', a) -> done_ok a = true -> oa_body a = ODecision feed coord reason active ->
  (forall q, quarantine (ow_db w) !! (feed, coord, reason) = Some q -> hlc_le (q_hlc q) (hlc_reading (hlc_state (ow_db w)))) ->
  exists q, quarantine (ow_db w') !! (feed, coord, reason) = Some q /\ q_active q = active.
Proof.
  intros Hh Ha Hb Hle. apply handleQuarantine_ok in Hh as (b & rs & ac & db & stamp & _ & _ & _ & _ & Hbody & Hs & ->); [|done].
  rewrite Hbody in Hb. injection Hb as <- <- <- <-. apply stamp_decision_spec in Hs as (Hq & Hlt & _). simpl.
  assert (forall q, quarantine db !! (qb_feed b, qb_coordinate b, rs) = Some q -> hlc_lt (q_hlc q) stamp) as Hold.
  { intros q. rewrite Hq. intros Hqq%Hle. by eapply hlc_le_lt. }
  unfold ApplyQuarantineDecisionTx, quarantineTx, releaseQuarantineTx.
  destruct (quarantine db !! (qb_feed b, qb_coordinate b, rs)) as [q|] eqn:E.
  - specialize (Hold q eq_refl). destruct ac.
    + assert (Before stamp (q_hlc q) = false) as -> 
        by (destruct (Before stamp (q_hlc q)) eqn:Hb; [|done]; by destruct (irreflexivity hlc_lt stamp); etrans).
      simpl. rewrite lookup_insert_eq. by eexists.
    + rewrite Hold. simpl. rewrite lookup_insert_eq. by eexists.
  - destruct ac; simpl; rewrite lookup_insert_eq; by eexists.
Qed.

End decisions.

(** *** Tokens *)

Section answers.
Context (o : OpsDeps) (resolve_body : string -> option ResolveBody).

Lemma RevokeToken_ok name db db' hash :
  RevokeToken name db = Some (db', hash) ->
  (exists row, tokens db !! hash = Some row /\ t_name row = name)
  /\ tokens db' = <[hash := mkToken name true]> (tokens db).
Proof.
  unfold RevokeToken. destruct (List.find _ _) as [[h t]|] eqn:E; [|done]. intros [= <- <-].
  apply List.find_some in E as [Hin Hn%bool_decide_eq_true]. apply list_elem_of_In, elem_of_map_to_list in Hin.
  simpl in *. subst name. split; [by exists t|done].
Qed.

Lemma revoke_token_revokes hash db db' :
  revoke_token hash db = Ok db' -> exists row, tokens db' !! hash = Some row /\ t_revoked row = true.
Proof.
  unfold revoke_token. destruct (tokens db !! hash).
  - intros [= <-]. simpl. rewrite lookup_insert_eq. by eexists.
  - destruct (existsb _ _); [done|]. intros [= <-]. simpl. rewrite lookup_insert_eq. by eexists.
Qed.

(** A token withdrawn through the API existed, is revoked here, and no
    other token changed; on a replicated site the journal has an event that
    revokes it at every peer that applies it, and a peer that knows the token
    does. *)
Theorem withdrawal_reaches_peers name r w w' a :
  handleRevokeToken o name r w = (w', a) -> done_ok a = true ->
  exists hash, (exists row, tokens (ow_db w) !! hash = Some row /\ t_name row = name)
    /\ tokens (ow_db w') = <[hash := mkToken name true]> (tokens (ow_db w))
    /\ (od_replicated o = true -> exists e, repl_journal (ow_db w') !! (od_site o, OriginSeq e) = Some (e, od_now o)
          /\ (forall env peer t t', dispatch env peer e t = Ok t' ->
                exists row, tokens (tx_db t') !! hash = Some row /\ t_revoked row = true)
          /\ (String.length hash = 64%nat -> forall env peer t row, tokens (tx_db t) !! hash = Some row ->
                is_Some (match dispatch env peer e t with Ok t' => Some t' | Err _ => None end))).
Proof.
  intros Hh Ha. apply with_right_ok in Hh as [id Hh]; [|done]. unfold with_database in Hh.
  destruct (dp_db _); [|by injection Hh as <- <-]. destruct (od_answers o); [|by injection Hh as <- <-]. simpl in Hh.
  destruct (RevokeToken name (ow_db w)) as [[db hash]|] eqn:Er; [|by injection Hh as <- <-].
  apply RevokeToken_ok in Er as [Hrow Htok]. injection Hh as <- _. exists hash. split; [done|]. simpl.
  destruct (od_replicated o) eqn:Hrep; [|done]. unfold AppendTokenRevoke.
  destruct (AppendJournal _ _ _ _ db) as [db1 e] eqn:Ej. apply append_entry in Ej as (Hj & Hk & Hp & _ & _ & _ & Ht). simpl.
  split; [by rewrite Ht|]. intros _. exists e. split; [done|].
  assert (forall env peer t, dispatch env peer e t
    = (if negb (String.length hash =? 64)%nat then Err (ErrPark "token_revoke carries an implausible hash")
       else let? db := revoke_token hash (tx_db t) in Ok (with_db t db))) as Hd.
  { intros env peer t. unfold dispatch. rewrite Hk. repeat (rewrite decide_False by done). rewrite decide_True by done.
    unfold applyTokenRevoke. by rewrite Hp, decode_encode_token_revoke. }
  split.
  - intros env peer t t'. rewrite Hd. destruct (negb _); [done|]. rewrite rbind_Ok. intros (db2 & Hr & [= <-]).
    by eapply revoke_token_revokes.
  - intros Hlen env peer t row Hrow'. rewrite Hd, Hlen. simpl. unfold revoke_token. rewrite Hrow'. by eexists.
Qed.

(** *** Explanations *)

(** An explanation is the decision itself. Asked about the caller, it says
    allowed exactly when a request of the same caller passes the gate for that
    path and capability; asked about anybody else, it is given only to those
    who may read the configuration. *)
Theorem explanation_is_the_decision r w w' er :
  handleExplain o r w = (w', mkOA 200 (OExplain er)) ->
  w' = w
  /\ (described (rq_query r) = None ->
      d_allowed (er_decision er) = true <-> exists id, require (od_deps o) r (er_path er) (er_capability er) = Ok id)
  /\ (forall subject, described (rq_query r) = Some subject ->
      AdminTheory.entitled (od_deps o) r SysConfig CapRead
      /\ er_decision er = allows (od_deps o) subject (er_path er) (er_capability er)).
Proof.
  assert (forall subject w'', explain o r subject w = (w'', mkOA 200 (OExplain er)) ->
    w'' = w /\ er_decision er = allows (od_deps o) subject (er_path er) (er_capability er)) as Hex.
  { intros subject w''. unfold explain. case_decide; [done|]. destruct (negb (Known _)); [done|]. by intros [= <- <-]. }
  unfold handleExplain. destruct (described (rq_query r)) as [subject|].
  - unfold with_right. destruct (require _ r SysConfig CapRead) as [id|a] eqn:E; [|done].
    intros [-> Hd]%Hex. split; [done|]. split; [done|]. intros s [= <-]. split; [|done].
    by apply AdminTheory.require_entitled in E as [? _].
  - intros [-> Hd]%Hex. split; [done|]. split; [|done]. intros _. rewrite Hd. unfold require.
    destruct (identityOrRefusal (od_deps o) r) as [i refusal]. simpl. destruct (d_allowed _); [naive_solver|].
    split; [done|]. intros [id Hid]. by destruct (IsAnonymous _).
Qed.

(** *** Conflicts *)

Lemma ResolveConflictOp_frame c db db' e p :
  ResolveConflictOp (od_nested o) (od_now o) (od_site o) c db = Ok (db', e, p) ->
  (forall k, k <> (cr_feed c, cr_coord c, conflict_reason) -> quarantine db' !! k = quarantine db !! k)
  /\ (forall x, x ∈ publish_conflicts db' -> c_feed x = cr_feed c -> c_path x = cr_path c -> c_resolved x <> None).
Proof.
  unfold ResolveConflictOp. destruct (negb _ || negb _); [done|]. destruct (conflictSide _ _ _ _ _) as [side|]; [|done].
  set (dec := mkRes _ _ _ _ _). unfold AppendConflictResolve. destruct (AppendJournal _ _ _ _ _) as [db1 e1] eqn:Ej.
  intros [= <- <- <-]. unfold AppendJournal in Ej. injection Ej as <- _. cbn [quarantine publish_conflicts set_journal set_hlc].
  assert (forall db0, quarantine (recordResolution (cr_feed c) (cr_path c) (cr_coord c) dec (cr_operator c) (od_site o) db0)
    = quarantine db0) as Hrec by (intros db0; unfold recordResolution; by repeat case_match).
  split.
  - intros k Hk. etrans; [|apply (f_equal (fun m => m !! k)); exact (Hrec (set_hlc db (repl_hlc_now (od_now o) (hlc_state db))))].
    unfold applyResolutionTx, syncConflictQuarantineTx.
    case_match; simpl; [by rewrite lookup_alter_ne|by rewrite lookup_insert_ne].
  - intros x. unfold applyResolutionTx, syncConflictQuarantineTx. set (d0 := set_hosted _ _).
    assert (publish_conflicts (ResolveConflict (cr_feed c) (cr_path c) (KeepSHA dec) d0)
      = close_conflict (cr_feed c) (cr_path c) (KeepSHA dec) <$> publish_conflicts d0) as Hc by done.
    intros Hin. assert (x ∈ close_conflict (cr_feed c) (cr_path c) (KeepSHA dec) <$> publish_conflicts d0) as Hx.
    { revert Hin. case_match; simpl; done. }
    apply list_elem_of_fmap in Hx as (y & -> & _). unfold close_conflict. case_decide as Hd; [done|].
    intros Hf Hp Hn. by apply Hd.
Qed.

(** A coordinate the caller names is taken at its word: the conflicts of the
    path are closed, and the block on every other coordinate, that of the
    conflict among them, stays as it was. *)
Theorem named_coordinate_is_trusted r w w' a b :
  handleResolveConflict o resolve_body r w = (w', a) -> done_ok a = true -> body_of resolve_body r = Some b ->
  rb_coordinate b <> "" ->
  (forall x, x ∈ publish_conflicts (ow_db w') -> c_feed x = rb_feed b -> c_path x = rb_path b -> c_resolved x <> None)
  /\ (forall coord, coord <> rb_coordinate b ->
      quarantine (ow_db w') !! (rb_feed b, coord, conflict_reason) = quarantine (ow_db w) !! (rb_feed b, coord, conflict_reason)).
Proof.
  intros Hh Ha Hb Hc. apply with_right_ok in Hh as [id Hh]; [|done]. unfold with_database in Hh.
  destruct (dp_db _); [|by injection Hh as <- <-]. rewrite Hb in Hh.
  destruct (decide (_ \/ _ \/ _)); [by injection Hh as <- <-|].
  destruct (decide (rb_coordinate b = "" /\ _)); [by injection Hh as <- <-|].
  rewrite (decide_False _ _ Hc) in Hh. rewrite (decide_False _ _ Hc) in Hh.
  destruct (isHex (rb_keep b) && negb (od_answers o)); [by injection Hh as <- <-|].
  destruct (ResolveConflictOp _ _ _ _ _) as [[[db e] p]|] eqn:Er; [|by injection Hh as <- <-].
  apply ResolveConflictOp_frame in Er as [Hq Hx]. simpl in *.
  assert (ow_db w' = db) as ->.
  { destruct (od_project o) as [project|]; [|by injection Hh as <- _].
    destruct (project p); by injection Hh as <- _. }
  split; [done|]. intros coord Hne. apply Hq. congruence.
Qed.
End answers.

(** ** Runs *)

Module OpsDemo.
Definition hash : string := "e3b0c44298fc1c149afbf4c8996fb92427ae41e4649b934ca495991b7852b855".
Definition other : string := "9f86d081884c7d659a2feaa0c55ad015a3bf4f1b2b0b822cd15d6c15b0f00a08".
(** A site with a token and an open conflict. *)
Definition side (sha : string) : sideMeta := mkSide sha 3 {["sha256" := sha]} ∅.
Definition tables : DB :=
  importConflictTx (mkConflict "f" "lib/1" "lib@1" hash other "milan" "turin" (side hash) (side other) None)
    (set_tokens empty_db {[hash := mkToken "ci" false]}).
Definition start : OW := mkOW tables ∅.
Definition site (project : option (projectionWrite -> option api_error)) : OpsDeps :=
  mkOps AdminDemo.deps "milan" true true 7 false project.
Definition as_root (method body query : string) : HttpReq := AdminDemo.request method "" body query "root".
Definition block (s : string) : option QuarantineBody := Some (mkQB "f" s "" "leaked key" None).
Definition keep (coord s : string) : option ResolveBody := Some (mkRB "f" "lib/1" coord s).

(** The conflict is closed and journalled although the answer is an error: the
    projection is written after the commit. The same request again, which
    names no coordinate, then finds no open conflict. *)
Theorem resolution_kept_though_refused :
  let fails := fun _ : projectionWrite => Some ErrUnavailable in
  let once := handleResolveConflict (site (Some fails)) (keep "") (as_root "POST" other "") start in
  let again := handleResolveConflict (site None) (keep "") (as_root "POST" other "") once.1 in
  oa_status once.2 = 503 /\ open_conflicts (ow_db once.1) = [] /\ size (repl_journal (ow_db once.1)) = 1%nat
  /\ ow_projections once.1 = ∅ /\ oa_status again.2 = 404.
Proof. vm_compute. done. Qed.
End OpsDemo.

Lemma decision_as_at_peers_witness :
  exists e, repl_journal (ow_db (handleQuarantine (OpsDemo.site None) OpsDemo.block
                (OpsDemo.as_root "POST" "lib@2" "") OpsDemo.start).1) !! ("milan", OriginSeq e) = Some (e, 7).
Proof.
  destruct (decision_as_at_peers (OpsDemo.site None) OpsDemo.block (OpsDemo.as_root "POST" "lib@2" "") OpsDemo.start
    _ _ "f" "lib@2" "manual" true eq_refl (surjective_pairing _)) as (e & He & _); [by vm_compute..|].
  exists e. exact He.
Defined.

Lemma withdrawal_reaches_peers_witness :
  exists h, tokens (ow_db (handleRevokeToken (OpsDemo.site None) "ci" (OpsDemo.as_root "DELETE" "" "") OpsDemo.start).1)
            = <[h := mkToken "ci" true]> (tokens OpsDemo.tables).
Proof.
  destruct (withdrawal_reaches_peers (OpsDemo.site None) "ci" (OpsDemo.as_root "DELETE" "" "") OpsDemo.start
    _ _ (surjective_pairing _)) as (h & _ & Hh & _); [by vm_compute|]. exists h. exact Hh.
Defined.
End AdminOps.
