(* ===== verification/SignIn.v ===== *)
(** * Signing in through the browser: [core/auth/oidc_flow.go], [core/adminapi/oidc.go]

    The authorization code flow with PKCE, in its two halves: the URL that
    starts a sign-in, and the exchange of the code for an id_token. Nothing is
    remembered between them but what the validator caches of an issuer. The
    exchange keeps a trace of the requests it makes that can carry the code,
    among them those Go's HTTP client makes when it is redirected. What a server
    answers, URL parsing and the reading of JSON and of unverified tokens are
    parameters; [url.Values.Encode] and the client's redirects are written out. *)

From S2P Require Import Prelude GoLib Access Store Auth Config Server ModLib OciListings AdminApi.
Open Scope Z_scope.

Module SignIn.
Import Auth Config OciListings Server.

(** ** Query strings *)

(** [url.Values] with one value per key at most where it matters; [Set]
    replaces, [Encode] sorts by key. *)
Notation Values := (list (string * string)).
Definition set_value (key value : string) (vs : Values) : Values :=
  filter (fun kv => kv.1 <> key) vs ++ [(key, value)].
Definition key_before (a b : string * string) : Prop := ~ str_lt b.1 a.1.
#[export] Instance key_before_dec : RelDecision key_before.
Proof. intros a b. unfold key_before. apply _. Defined.
Definition pair_text (kv : string * string) : string := query_escape kv.1 +:+ "=" +:+ query_escape kv.2.
Definition encode (vs : Values) : string := join (pair_text <$> merge_sort key_before vs) "&".
(** [URL.Query]: malformed pairs are skipped. *)
Definition parse_values (query : string) : Values :=
  omap (fun pair => if decide (pair = "") then None else query_pair pair) (split query "&"%char).

(** ** The issuer's side *)

Record ProviderMetadata := mkMeta {
  pm_issuer : string; pm_authorization : string; pm_token : string; pm_client : string; pm_scopes : list string }.

Inductive signin_error :=
| NotTrusted
| NoBrowserSignIn
| DiscoveryFailed
| NoEndpoints
| BadTokenURL
| EmptySecret
| TokenUnreachable
| IssuerRefused (status : Z) (code description : string)
| NoIdToken
| NotAccepted (e : oidc_error)
| NonceUnreadable
| NonceMismatch.

Record ExchangeRequest := mkExchange {
  xr_issuer : string; xr_code : string; xr_verifier : string; xr_redirect : string; xr_nonce : string }.
(** A request, with a form when it is a POST, and an answer to it. *)
Record TokenRequest := mkTokenRequest { tq_url : string; tq_form : option Values; tq_basic : option (string * string) }.
Record TokenReply := mkTokenReply { rp_status : Z; rp_location : string; rp_body : string }.
Record Exchanged := mkExchanged { ex_token : string; ex_expires : option Z; ex_identity : Identity }.

(** The validator: the configured issuers in order, and what it learnt. *)
Record OIDCState := mkOIDCState { os_cfgs : list Config.OIDCIssuer; os_issuers : gmap string issuerVerifier }.
Definition to_auth (i : Config.OIDCIssuer) : Auth.OIDCIssuer :=
  mkIssuer (oi_issuer i) (oi_audience i) (oi_client_id i) (oi_jwks_url i).
Definition NewState (cfgs : list Config.OIDCIssuer) : OIDCState := mkOIDCState cfgs (NewOIDC (to_auth <$> cfgs)).
(** The entry of an issuer: a later one replaces an earlier one. *)
Definition entry (cfgs : list Config.OIDCIssuer) (issuer : string) : option Config.OIDCIssuer :=
  last (filter (fun i => oi_issuer i = issuer) cfgs).

(** [BrowserIssuers]. *)
Definition BrowserIssuers (s : OIDCState) : list ProviderMetadata :=
  (fun i => mkMeta (oi_issuer i) (oi_authorization_endpoint i) (oi_token_endpoint i) (oi_client_id i) (ScopesOrDefault i))
  <$> filter (fun i => BrowserSignIn i = true) (os_cfgs s).

Section flow.
Context (peek : string -> option string) (verify : string -> string -> string -> option jwt).
Context (get_doc : string -> option discoveryDoc) (refresh : string -> bool).
(** A request can be built for the URL; what is answered to a request after
    those before it; a location read against a URL; whether the client repeats
    the authorization header there; the fields of the JSON; the environment;
    claims and expiry of an unverified token. *)
Context (url_ok : string -> bool) (send : list TokenRequest -> TokenRequest -> option TokenReply)
  (resolve : string -> string -> option string) (keeps_auth : list TokenRequest -> string -> bool)
  (token_fields : string -> string * string * string) (getenv : string -> string)
  (insecure : string -> option jwt) (expiration : string -> option Z).

(** [discover]. *)
Definition discover (issuer : string) (v : issuerVerifier) (s : OIDCState) : OIDCState * option discoveryDoc :=
  let '(v, doc) := discoverLocked get_doc v in (mkOIDCState (os_cfgs s) (<[issuer := v]> (os_issuers s)), doc).

(** [Metadata]. *)
Definition Metadata (issuer : string) (s : OIDCState) : OIDCState * result signin_error ProviderMetadata :=
  match os_issuers s !! issuer, entry (os_cfgs s) issuer with
  | Some v, Some cfg =>
      if negb (BrowserSignIn cfg) then (s, Err NoBrowserSignIn)
      else
        let meta a t := mkMeta (oi_issuer cfg) a t (oi_client_id cfg) (ScopesOrDefault cfg) in
        if decide (oi_authorization_endpoint cfg <> "" /\ oi_token_endpoint cfg <> "") then
          (s, Ok (meta (oi_authorization_endpoint cfg) (oi_token_endpoint cfg)))
        else
          match discover issuer v s with
          | (s, None) => (s, Err DiscoveryFailed)
          | (s, Some doc) =>
              let a := if decide (oi_authorization_endpoint cfg = "") then dd_authorization_endpoint doc
                       else oi_authorization_endpoint cfg in
              let t := if decide (oi_token_endpoint cfg = "") then dd_token_endpoint doc else oi_token_endpoint cfg in
              if decide (a = "" \/ t = "") then (s, Err NoEndpoints) else (s, Ok (meta a t))
          end
  | _, _ => (s, Err NotTrusted)
  end.

(** The request [Exchange] sends. *)
Definition token_request (cfg : Config.OIDCIssuer) (meta : ProviderMetadata) (req : ExchangeRequest)
  : result signin_error TokenRequest :=
  let form := [("grant_type", "authorization_code"); ("code", xr_code req); ("redirect_uri", xr_redirect req);
               ("client_id", pm_client meta); ("code_verifier", xr_verifier req)] in
  if negb (url_ok (pm_token meta)) then Err BadTokenURL
  else if decide (oi_client_secret_env cfg = "") then Ok (mkTokenRequest (pm_token meta) (Some form) None)
  else
    let secret := getenv (oi_client_secret_env cfg) in
    if decide (secret = "") then Err EmptySecret
    else Ok (mkTokenRequest (pm_token meta) (Some form) (Some (query_escape (pm_client meta), query_escape secret))).

(** [checkNonce]. *)
Definition checkNonce (raw want : string) : option signin_error :=
  match insecure raw with
  | None => Some NonceUnreadable
  | Some tok => if decide (default "" (stringClaim tok "nonce") <> want) then Some NonceMismatch else None
  end.

(** [expiryOf]. *)
Definition expiryOf (raw : string) : option Z := match insecure raw with None => None | Some _ => expiration raw end.

Definition tokenBodyLimit : Z := 2 ^ 20.

(** [http.Client.Do]: a redirect is followed, at most nine times; a 301, 302 or
    303 becomes a GET, a 307 or 308 repeats the form. [made] are the requests
    made so far, the last one [q]. *)
Inductive hop := Final | BadLocation | Next (q : TokenRequest).
Definition redirect_codes : list Z := [301; 302; 303; 307; 308].
Definition hop_of (made : list TokenRequest) (q : TokenRequest) (rp : TokenReply) : hop :=
  if decide (rp_status rp ∉ redirect_codes \/ rp_location rp = "") then Final
  else match resolve (tq_url q) (rp_location rp) with
       | None => BadLocation
       | Some u => Next (mkTokenRequest u (if decide (rp_status rp = 307 \/ rp_status rp = 308) then tq_form q else None)
                           (if keeps_auth made u then first ← head made; tq_basic first else None))
       end.
Fixpoint Do (redirects : nat) (via : list TokenRequest) (q : TokenRequest) : list TokenRequest * option (Z * string) :=
  let made := via ++ [q] in
  match send via q with
  | None => (made, None)
  | Some rp =>
      match hop_of made q rp, redirects with
      | Final, _ => (made, Some (rp_status rp, rp_body rp))
      | BadLocation, _ | Next _, O => (made, None)
      | Next q', S redirects => Do redirects made q'
      end
  end.
Definition maxRedirects : nat := 9.

(** [Exchange], with the requests it made. *)
Definition Exchange (req : ExchangeRequest) (s : OIDCState)
  : OIDCState * list TokenRequest * result signin_error Exchanged :=
  match Metadata (xr_issuer req) s with
  | (s, Err e) => (s, [], Err e)
  | (s, Ok meta) =>
      match entry (os_cfgs s) (xr_issuer req) with
      | None => (s, [], Err NotTrusted)
      | Some cfg =>
          match token_request cfg meta req with
          | Err e => (s, [], Err e)
          | Ok q =>
              match Do maxRedirects [] q with
              | (made, None) => (s, made, Err TokenUnreachable)
              | (made, Some (status, body)) =>
                  let '(token, code, description) := token_fields (limit_read tokenBodyLimit body) in
                  if negb (status =? 200) then (s, made, Err (IssuerRefused status code description))
                  else if decide (token = "") then (s, made, Err NoIdToken)
                  else
                    let '(o, r) := oidc_authenticate peek verify get_doc refresh (os_issuers s) token in
                    let s := mkOIDCState (os_cfgs s) o in
                    match r with
                    | Err e => (s, made, Err (NotAccepted e))
                    | Ok id =>
                        match (if decide (xr_nonce req <> "") then checkNonce token (xr_nonce req) else None) with
                        | Some e => (s, made, Err e)
                        | None => (s, made, Ok (mkExchanged token (expiryOf token) id))
                        end
                    end
              end
          end
      end
  end.

(** ** The API's side *)

Definition consoleCallbackPath : string := "/ui/oidc/callback".

(** What the redirect is computed from: the request's host, whether it came
    over TLS, and its forwarding header. *)
Record Origin := mkOrigin { og_host : string; og_tls : bool; og_forwarded : string }.

(** [consoleRedirectURI]. *)
Definition consoleRedirectURI (c : Config) (r : Origin) : string :=
  let external := trim_suffix (site_external_url (cfg_site c)) "/" in
  if decide (external <> "") then external +:+ consoleCallbackPath
  else
    let scheme := if decide (og_forwarded r <> "") then og_forwarded r else if og_tls r then "https" else "http" in
    scheme +:+ "://" +:+ og_host r +:+ consoleCallbackPath.

(** [writeOIDCError]. *)
Definition signin_status (e : signin_error) : Z :=
  match e with
  | NoBrowserSignIn => 400
  | NotTrusted | IssuerRefused _ _ _ | NonceMismatch | NotAccepted (Rejected Unauthorized) => 401
  | _ => 502
  end.

Inductive sbody :=
| SMessage (msg : string)
| SProblem (e : signin_error)
| SAuthorize (url : string)
| SExchanged (token : string) (expires : option Z) (identity subject issuer : string).
Record SAnswer := mkSA { sa_status : Z; sa_body : sbody }.

(** [oidc]: the validator, when one is configured. *)
Definition oidc (deps : option OIDCState) : option OIDCState :=
  match deps with Some s => if Enabled (os_issuers s) then Some s else None | None => None end.

(** [url.Parse] of an endpoint: what comes before the query, and the query. *)
Context (parse_url : string -> option (string * string)).

(** [handleOIDCAuthorize]. *)
Definition authorize_values (meta : ProviderMetadata) (redirect state nonce challenge existing : string) : Values :=
  set_value "code_challenge_method" "S256" (set_value "code_challenge" challenge
    (set_value "nonce" nonce (set_value "state" state (set_value "scope" (join (pm_scopes meta) " ")
      (set_value "redirect_uri" redirect (set_value "client_id" (pm_client meta)
        (set_value "response_type" "code" (parse_values existing)))))))).

Definition handleOIDCAuthorize (c : Config) (r : Origin) (query : string) (deps : option OIDCState)
  : option OIDCState * SAnswer :=
  match oidc deps with
  | None => (deps, mkSA 501 (SMessage "this site accepts no OIDC issuers"))
  | Some s =>
      let get := query_get query in
      if decide (get "issuer" = "") then (deps, mkSA 400 (SMessage "issuer is required"))
      else if decide (get "code_challenge" = "" \/ get "state" = "" \/ get "nonce" = "") then
        (deps, mkSA 400 (SMessage "code_challenge, state and nonce are required; the browser generates all three"))
      else
        match Metadata (get "issuer") s with
        | (s, Err e) => (Some s, mkSA (signin_status e) (SProblem e))
        | (s, Ok meta) =>
            match parse_url (pm_authorization meta) with
            | None => (Some s, mkSA 502 (SMessage "the issuer's authorization endpoint is not a URL"))
            | Some (base, existing) =>
                (Some s, mkSA 200 (SAuthorize (base +:+ "?" +:+
                   encode (authorize_values meta (consoleRedirectURI c r) (get "state") (get "nonce") (get "code_challenge") existing))))
            end
        end
  end.

(** [handleOIDCExchange]; the body is the issuer, code, verifier and nonce. *)
Definition handleOIDCExchange (decode : string -> option (string * string * string * string)) (c : Config) (r : Origin)
    (body : string) (deps : option OIDCState) : option OIDCState * list TokenRequest * SAnswer :=
  match oidc deps with
  | None => (deps, [], mkSA 501 (SMessage "this site accepts no OIDC issuers"))
  | Some s =>
      match decode (limit_read AdminApi.maxDocument body) with
      | None => (deps, [], mkSA 400 (SMessage "parse body"))
      | Some (issuer, code, verifier, nonce) =>
          if decide (issuer = "" \/ code = "" \/ verifier = "") then
            (deps, [], mkSA 400 (SMessage "issuer, code and code_verifier are required"))
          else
            match Exchange (mkExchange issuer code verifier (consoleRedirectURI c r) nonce) s with
            | (s, made, Err e) => (Some s, made, mkSA (signin_status e) (SProblem e))
            | (s, made, Ok x) =>
                (Some s, made, mkSA 200 (SExchanged (ex_token x) (ex_expires x) (identity_string (ex_identity x))
                                     (id_subject (ex_identity x)) (id_issuer (ex_identity x))))
            end
      end
  end.
End flow.

(** ** Query strings read back *)

Lemma pair_read kv : query_pair (pair_text kv) = Some kv.
Proof.
  destruct kv as [k v]. unfold query_pair, pair_text. cbn [fst snd].
  assert (contains_char (query_escape k +:+ "=" +:+ query_escape v) ";"%char = false) as ->
    by (rewrite !contains_char_app, !escape_safe by set_solver; done).
  change (query_escape k +:+ "=" +:+ query_escape v) with (query_escape k +:+ String "=" (query_escape v)).
  rewrite Cut_char_app by (apply escape_safe; set_solver). simpl. by rewrite !unescape_escape.
Qed.

Lemma pair_text_plain kv : contains_char (pair_text kv) "&"%char = false /\ pair_text kv <> "".
Proof.
  unfold pair_text. split; [rewrite !contains_char_app, !escape_safe by set_solver; done|].
  intros H%(f_equal String.length). rewrite !str_length_app in H. simpl in H. lia.
Qed.

Lemma encode_get vs key value : filter (fun kv => kv.1 = key) vs = [(key, value)] -> query_get (encode vs) key = value.
Proof.
  intros Hf. set (l := merge_sort key_before vs). pose proof (merge_sort_Permutation key_before vs : l ≡ₚ vs) as Hp.
  assert (filter (fun kv => kv.1 = key) l = [(key, value)]) as Hl
    by (apply Permutation_singleton_r; rewrite <-Hf; by apply filter_Permutation).
  assert (l <> []) as Hne by (intros ->; done).
  unfold query_get, encode. fold l. rewrite (split_join _ "&"%char).
  2: { by destruct l. }
  2: { apply Forall_fmap, Forall_forall. intros kv _. apply pair_text_plain. }
  assert (omap (fun pair => if decide (pair = "") then None
    else '(k, v) ← query_pair pair; if decide (k = key) then Some v else None) (pair_text <$> l)
    = snd <$> filter (fun kv => kv.1 = key) l) as ->.
  { clear Hf Hl Hne Hp. induction l as [|[k v] l IH]; [done|]. rewrite fmap_cons. cbn [omap list_omap].
    destruct (pair_text_plain (k, v)) as [_ Hn]. rewrite (decide_False _ _ Hn), pair_read. simpl.
    rewrite filter_cons. simpl. destruct (decide (k = key)); rewrite IH; done. }
  by rewrite Hl.
Qed.

Lemma set_value_here key value vs : filter (fun kv => kv.1 = key) (set_value key value vs) = [(key, value)].
Proof.
  unfold set_value. rewrite filter_app, filter_cons_True, filter_nil by done.
  assert (filter (fun kv => kv.1 = key) (filter (fun kv => kv.1 <> key) vs) = []) as ->; [|done].
  induction vs as [|kv vs IH]; [done|]. rewrite filter_cons. case_decide as Hk; [rewrite filter_cons_False by done|]; exact IH.
Qed.

Lemma set_value_other key key' value vs :
  key <> key' -> filter (fun kv => kv.1 = key) (set_value key' value vs) = filter (fun kv => kv.1 = key) vs.
Proof.
  intros Hne. unfold set_value. rewrite filter_app, filter_cons_False, filter_nil, app_nil_r by done.
  apply list_filter_filter_l. intros kv ->. done.
Qed.

(** ** The validator's state *)

Section theory.
Context (peek : string -> option string) (verify : string -> string -> string -> option jwt).
Context (get_doc : string -> option discoveryDoc) (refresh : string -> bool).
Context (url_ok : string -> bool) (send : list TokenRequest -> TokenRequest -> option TokenReply)
  (resolve : string -> string -> option string) (keeps_auth : list TokenRequest -> string -> bool)
  (token_fields : string -> string * string * string) (getenv : string -> string)
  (insecure : string -> option jwt) (expiration : string -> option Z).
Notation exchange := (Exchange peek verify get_doc refresh url_ok send resolve keeps_auth token_fields getenv insecure expiration).
Notation do_requests := (Do send resolve keeps_auth).
Notation authenticate := (oidc_authenticate peek verify get_doc refresh).

(** What the validator holds of an issuer belongs to its entry. *)
Definition state_ok (s : OIDCState) : Prop :=
  forall iss v, os_issuers s !! iss = Some v ->
    exists cfg, entry (os_cfgs s) iss = Some cfg /\ oi_issuer cfg = iss /\ verifier_ok get_doc (to_auth cfg) v.

Lemma entry_spec cfgs iss cfg : entry cfgs iss = Some cfg -> cfg ∈ cfgs /\ oi_issuer cfg = iss.
Proof. unfold entry. intros H%last_Some_elem_of. by apply list_elem_of_filter in H as [? ?]. Qed.

Lemma NewState_ok cfgs : state_ok (NewState cfgs).
Proof.
  assert (forall done (o : gmap string issuerVerifier), (forall iss v, o !! iss = Some v -> exists cfg, entry done iss = Some cfg /\ oi_issuer cfg = iss
              /\ verifier_ok get_doc (to_auth cfg) v) ->
    forall iss v, foldl (fun o i => <[o_issuer i := mkIssuerV i None None]> o) o (to_auth <$> cfgs) !! iss = Some v ->
      exists cfg, entry (done ++ cfgs) iss = Some cfg /\ oi_issuer cfg = iss /\ verifier_ok get_doc (to_auth cfg) v) as H.
  { induction cfgs as [|c cfgs IH]; intros l o Ho; simpl; [by rewrite app_nil_r|].
    replace (l ++ c :: cfgs) with ((l ++ [c]) ++ cfgs) by by rewrite <- app_assoc.
    apply IH. intros iss v. rewrite lookup_insert_Some. unfold entry. rewrite filter_app, filter_cons, filter_nil.
    intros [[<- <-]|[Hne Hv]]; simpl in *.
    - exists c. rewrite decide_True by done. rewrite last_snoc. split; [done|]. split; [done|]. by split.
    - rewrite decide_False by done. rewrite app_nil_r. by apply Ho. }
  refine (H [] ∅ _). intros iss v Hv. by rewrite lookup_empty in Hv.
Qed.

Lemma Metadata_ok issuer s s' r :
  state_ok s -> Metadata get_doc issuer s = (s', r) ->
  state_ok s' /\ os_cfgs s' = os_cfgs s
  /\ forall meta, r = Ok meta -> exists cfg, entry (os_cfgs s) issuer = Some cfg /\ oi_client_id cfg <> ""
       /\ pm_client meta = oi_client_id cfg
       /\ (if decide (oi_token_endpoint cfg = "") then exists doc, fetchDiscovery get_doc issuer = Some doc /\ pm_token meta = dd_token_endpoint doc
           else pm_token meta = oi_token_endpoint cfg).
Proof.
  intros Hs. unfold Metadata. destruct (os_issuers s !! issuer) as [v|] eqn:Ev; [|by intros [= <- <-]].
  destruct (Hs _ _ Ev) as (cfg & He & Hiss & Hv). rewrite He.
  destruct (BrowserSignIn cfg) eqn:Eb; simpl; [|by intros [= <- <-]]. apply bool_decide_eq_true in Eb.
  case_decide as Hboth.
  { intros [= <- <-]. split; [done|]. split; [done|]. intros meta [= <-]. exists cfg. split_and!; try done.
    by rewrite decide_False by tauto. }
  unfold discover. destruct (discoverLocked get_doc v) as [v1 doc] eqn:Ed.
  assert (verifier_ok get_doc (to_auth cfg) v1 /\ (forall d, doc = Some d -> fetchDiscovery get_doc issuer = Some d)) as [Hv1 Hdoc].
  { pose proof Hv as (Hcfg & Hset & Hd). unfold discoverLocked in Ed. rewrite Hcfg in Ed. simpl in Ed, Hd. rewrite Hiss in Ed, Hd.
    destruct (iv_doc v) as [d|] eqn:Evd.
    - injection Ed as <- <-. split; [done|]. intros d' [= <-]. by apply Hd.
    - destruct (fetchDiscovery get_doc issuer) as [d|] eqn:Ef; injection Ed as <- <-; [|done].
      split; [|by intros d' [= <-]]. split_and!; [done|exact Hset|]. simpl. rewrite Hiss. intros d' [= <-]. done. }
  set (s1 := mkOIDCState _ _). assert (state_ok s1) as Hs1.
  { intros iss w. simpl. rewrite lookup_insert_Some. intros [[<- <-]|[_ Hw]]; [|by apply Hs].
    by exists cfg. }
  destruct doc as [doc|]; [|by intros [= <- <-]]. specialize (Hdoc doc eq_refl). case_decide as Hends; [by intros [= <- <-]|].
  intros [= <- <-]. split; [done|]. split; [done|]. intros meta [= <-]. exists cfg. split_and!; try done. simpl.
  destruct (decide (oi_token_endpoint cfg = "")); [by exists doc|done].
Qed.

Lemma authenticate_ok s raw o r :
  state_ok s -> authenticate (os_issuers s) raw = (o, r) ->
  state_ok (mkOIDCState (os_cfgs s) o)
  /\ forall id, r = Ok id -> exists cfg u tok, cfg ∈ os_cfgs s /\ peek raw = Some (oi_issuer cfg)
       /\ endpoint_of get_doc (to_auth cfg) u /\ verify u (oi_issuer cfg) raw = Some tok
       /\ (exists aud, aud ∈ jwt_audience tok /\ aud <> "" /\ (aud = oi_audience cfg \/ aud = oi_client_id cfg))
       /\ id_subject id = jwt_subject tok /\ id_issuer id = oi_issuer cfg.
Proof.
  intros Hs Ha. assert (oidc_ok get_doc (to_auth <$> os_cfgs s) (os_issuers s)) as Hok.
  { intros iss v Hv. destruct (Hs _ _ Hv) as (cfg & He & Hi & Hvo). exists (to_auth cfg).
    apply entry_spec in He as [Hin _]. split; [by apply list_elem_of_fmap_2|done]. }
  pose proof Ha as Ha'. apply (oidc_authenticate_ok peek verify get_doc refresh (to_auth <$> os_cfgs s)) in Ha' as [_ Hid]; [|done]. split.
  - unfold oidc_authenticate in Ha. destruct (peek raw) as [iss|]; [|injection Ha as <- _; done].
    destruct (os_issuers s !! iss) as [v|] eqn:Ev; [|injection Ha as <- _; done].
    destruct (Hs _ _ Ev) as (cfg & He & Hi & Hv). destruct (keySet get_doc refresh v) as [v1 set] eqn:Ek.
    destruct (keySet_ok peek verify get_doc refresh _ _ _ _ Hv Ek) as [Hv1 _].
    assert (o = <[iss := v1]> (os_issuers s)) as -> by (repeat case_match; congruence).
    intros iss' v'. simpl. rewrite lookup_insert_Some. intros [[<- <-]|[_ H']]; [by exists cfg|by apply Hs].
  - intros id Hr. destruct (Hid id Hr) as (cfg & u & tok & Hin & Hp & He & Hv & Haud & _ & Hsub & Hiss).
    apply list_elem_of_fmap in Hin as (cfg' & -> & Hin). by exists cfg', u, tok.
Qed.

(** Whatever happens at the validator keeps it so. *)
Inductive event := Authenticates (raw : string) | Resolves (issuer : string) | Exchanges (req : ExchangeRequest).
Definition happens (s : OIDCState) (e : event) : OIDCState :=
  match e with
  | Authenticates raw => mkOIDCState (os_cfgs s) (authenticate (os_issuers s) raw).1
  | Resolves issuer => (Metadata get_doc issuer s).1
  | Exchanges req => (exchange req s).1.1
  end.

(** ** Requests and redirects *)

(** The requests that may follow [first]: each goes where the answer to the one
    before it redirects, repeats that one's form only on a 307 or 308, and
    bears no credentials but the first one's, where the client keeps them. *)
Inductive sent (first : TokenRequest) : list TokenRequest -> Prop :=
| sent_first : sent first [first]
| sent_next via q rp q' :
    sent first (via ++ [q]) -> send via q = Some rp -> rp_status rp ∈ redirect_codes -> rp_location rp <> "" ->
    resolve (tq_url q) (rp_location rp) = Some (tq_url q') ->
    (tq_form q' = None \/ tq_form q' = tq_form q /\ (rp_status rp = 307 \/ rp_status rp = 308)) ->
    (tq_basic q' = None \/ tq_basic q' = tq_basic first /\ keeps_auth (via ++ [q]) (tq_url q') = true) ->
    sent first ((via ++ [q]) ++ [q']).

Lemma sent_head first l : sent first l -> head l = Some first.
Proof. induction 1 as [|via q rp q' Hs IH]; [done|]. by destruct via. Qed.

(** A form is the first one's, and a request other than the first has one only
    after an answer of 307 or 308. *)
Lemma sent_form first l pre q post : sent first l -> l = pre ++ q :: post -> tq_form q <> None ->
  tq_form q = tq_form first
  /\ (pre = [] \/ exists pre' p rp, pre = pre' ++ [p] /\ send pre' p = Some rp /\ (rp_status rp = 307 \/ rp_status rp = 308)).
Proof.
  intros Hs. revert pre q post. induction Hs as [|via p rp q' Hs IH Hsend Hst Hloc Hres Hform Hbasic]; intros pre q post Hl Hq.
  - destruct pre as [|x [|]]; simplify_eq/=; auto.
  - destruct post as [|x post _] using rev_ind.
    + apply app_inj_tail in Hl as [<- <-]. destruct Hform as [?|[Hf Hc]]; [done|]. rewrite Hf. split.
      * rewrite Hf in Hq. by apply (IH via p []).
      * right. by exists via, p, rp.
    + rewrite app_comm_cons, app_assoc in Hl. apply app_inj_tail in Hl as [Hl _]. by eapply IH.
Qed.

Lemma do_spec first n via q made r :
  sent first (via ++ [q]) -> do_requests n via q = (made, r) ->
  sent first made /\ (length made <= S (length via) + n)%nat
  /\ forall status body, r = Some (status, body) -> exists pre p rp, made = pre ++ [p] /\ send pre p = Some rp
       /\ rp_status rp = status /\ rp_body rp = body.
Proof.
  revert via q. induction n as [|n IH]; intros via q Hs; simpl; (destruct (send via q) as [rp|] eqn:E;
    [|intros [= <- <-]; rewrite length_app; simpl; split_and!; [done|lia|done]]);
    (destruct (hop_of resolve keeps_auth (via ++ [q]) q rp) as [| |q'] eqn:Eh;
     [intros [= <- <-]; rewrite length_app; simpl; split_and!; [done|lia|intros ? ? [= <- <-]; by exists via, q, rp]
     |intros [= <- <-]; rewrite length_app; simpl; split_and!; [done|lia|done]|]).
  { intros [= <- <-]. rewrite length_app. simpl. split_and!; [done|lia|done]. }
  intros Hd. apply IH in Hd as (H1 & H2 & H3); [rewrite length_app in H2; simpl in H2; split_and!; [done|lia|done]|].
  unfold hop_of in Eh. case_decide as Hr; [done|]. destruct (resolve _ _) as [u|] eqn:Eu; [|done]. injection Eh as <-.
  assert (rp_status rp ∈ redirect_codes) as Hc by (apply dec_stable; tauto).
  assert (rp_location rp <> "") as Hl by tauto. pose proof (sent_head _ _ Hs) as Hh.
  econstructor; try done; simpl.
  - case_decide; auto.
  - destruct (keeps_auth _ _); [|by left]. right. by rewrite Hh.
Qed.

(** What the sign-in may send, for an issuer's entry. *)
Definition code_form (req : ExchangeRequest) (cfg : Config.OIDCIssuer) : Values :=
  [("grant_type", "authorization_code"); ("code", xr_code req); ("redirect_uri", xr_redirect req);
   ("client_id", oi_client_id cfg); ("code_verifier", xr_verifier req)].
Definition token_endpoint (cfg : Config.OIDCIssuer) (url : string) : Prop :=
  if decide (oi_token_endpoint cfg = "")
  then exists doc, fetchDiscovery get_doc (oi_issuer cfg) = Some doc /\ url = dd_token_endpoint doc
  else url = oi_token_endpoint cfg.

(** What an exchange did. *)
Lemma Exchange_ok req s s' made r :
  state_ok s -> exchange req s = (s', made, r) ->
  state_ok s' /\ os_cfgs s' = os_cfgs s /\ (length made <= 10)%nat
  /\ (made <> [] -> exists cfg first, entry (os_cfgs s) (xr_issuer req) = Some cfg /\ oi_client_id cfg <> ""
        /\ token_endpoint cfg (tq_url first) /\ tq_form first = Some (code_form req cfg) /\ sent first made)
  /\ forall x, r = Ok x -> exists pre q rp, made = pre ++ [q] /\ send pre q = Some rp /\ rp_status rp = 200
       /\ (token_fields (limit_read tokenBodyLimit (rp_body rp))).1.1 = ex_token x
       /\ (authenticate (os_issuers (Metadata get_doc (xr_issuer req) s).1) (ex_token x)).2 = Ok (ex_identity x)
       /\ (xr_nonce req <> "" -> exists tok, insecure (ex_token x) = Some tok /\ stringClaim tok "nonce" = Some (xr_nonce req)).
Proof.
  intros Hs. unfold Exchange. destruct (Metadata get_doc (xr_issuer req) s) as [s1 m] eqn:Em.
  apply Metadata_ok in Em as (Hs1 & Hc1 & Hm); [|done].
  destruct m as [meta|e]; [|intros [= <- <- <-]; split_and!; simpl; done || lia].
  destruct (Hm meta eq_refl) as (cfg & He & Hcl & Hmc & Htok). rewrite Hc1, He.
  destruct (token_request url_ok getenv cfg meta req) as [q|e] eqn:Eq; [|intros [= <- <- <-]; split_and!; simpl; done || lia].
  assert (tq_url q = pm_token meta /\ tq_form q = Some (code_form req cfg)) as [Hu Hf].
  { unfold token_request in Eq. unfold code_form. rewrite <-Hmc. repeat case_match; simplify_eq/=; done. }
  destruct (do_requests maxRedirects [] q) as [made1 answer] eqn:Ed.
  destruct (do_spec q maxRedirects [] q made1 answer (sent_first q) Ed) as (Hsent & Hlen & Hans). intros Hout.
  assert (entry (os_cfgs s) (xr_issuer req) = Some cfg /\ oi_client_id cfg <> ""
        /\ token_endpoint cfg (tq_url q) /\ tq_form q = Some (code_form req cfg) /\ sent q made1) as Hfirst.
  { split_and!; try done. unfold token_endpoint. rewrite Hu. destruct (entry_spec _ _ _ He) as [_ ->]. done. }
  assert (state_ok s' /\ os_cfgs s' = os_cfgs s /\ made = made1 /\ forall x, r = Ok x -> exists pre q rp,
       made = pre ++ [q] /\ send pre q = Some rp /\ rp_status rp = 200
       /\ (token_fields (limit_read tokenBodyLimit (rp_body rp))).1.1 = ex_token x
       /\ (authenticate (os_issuers s1) (ex_token x)).2 = Ok (ex_identity x)
       /\ (xr_nonce req <> "" -> exists tok, insecure (ex_token x) = Some tok /\ stringClaim tok "nonce" = Some (xr_nonce req))) as Hcut.
  { revert Hout. destruct answer as [[status body]|] eqn:Ep; [|by intros [= <- <- <-]].
    destruct (token_fields (limit_read tokenBodyLimit body)) as [[token code] descr] eqn:Et.
    destruct (status =? 200) eqn:E2; simpl; [|by intros [= <- <- <-]]. apply Z.eqb_eq in E2 as ->.
    destruct (decide (token = "")); [by intros [= <- <- <-]|].
    destruct (authenticate (os_issuers s1) token) as [o ra] eqn:Ea. pose proof Ea as Ea'. apply authenticate_ok in Ea' as [Hs2 _]; [|done].
    rewrite Hc1 in Hs2. destruct ra as [id|e]; [|by intros [= <- <- <-]].
    destruct (if decide (xr_nonce req <> "") then checkNonce insecure token (xr_nonce req) else None) as [e|] eqn:En;
      intros [= <- <- <-]; (split; [done|]); (split; [done|]); (split; [done|]); [done|].
    intros x [= <-]. destruct (Hans 200 body eq_refl) as (pre & p & rp & -> & Hp & Hst & <-). exists pre, p, rp.
    split_and!; try done; [by rewrite Et|by simpl; rewrite Ea|]. intros Hn. rewrite decide_True in En by done.
    unfold checkNonce in En. simpl. destruct (insecure token) as [tok|]; [|done].
    exists tok. split; [done|]. case_decide as Hd; [done|]. destruct (stringClaim tok "nonce"); simpl in Hd; congruence. }
  destruct Hcut as (H1 & H2 & -> & H3). split_and!; try done. intros _. destruct Hfirst as (? & ? & ? & ? & ?). by exists cfg, q.
Qed.

Lemma run_ok cfgs evs : state_ok (foldl happens (NewState cfgs) evs) /\ os_cfgs (foldl happens (NewState cfgs) evs) = cfgs.
Proof.
  assert (forall s, state_ok s -> os_cfgs s = cfgs -> state_ok (foldl happens s evs) /\ os_cfgs (foldl happens s evs) = cfgs) as H;
    [|apply H; [apply NewState_ok|done]].
  induction evs as [|e evs IH]; intros s Hs Hc; simpl; [done|].
  assert (state_ok (happens s e) /\ os_cfgs (happens s e) = cfgs) as [Hs1 Hc1]; [|by apply IH].
  destruct e as [raw|issuer|req]; simpl.
  - destruct (authenticate (os_issuers s) raw) as [o r] eqn:E. by apply authenticate_ok in E as [? _].
  - destruct (Metadata get_doc issuer s) as [s' r] eqn:E. apply Metadata_ok in E as (? & ? & _); [|done]. simpl. split; [done|congruence].
  - destruct (exchange req s) as [[s' made] r] eqn:E. apply Exchange_ok in E as (? & ? & _); [|done]. simpl. split; [done|congruence].
Qed.

(** C21. A browser sign-in shows its code to nobody but the issuer, and ends in
    the issuer's own answer. After any history, whatever an exchange ends in,
    the first request it makes is a POST to the token endpoint of the configured
    issuer that was named (its own setting, or that of its discovery document)
    under this site's client; it makes at most nine more, each where the answer
    to the one before redirects, and the form with the code and the verifier is
    in another one than the first only after an answer of 307 or 308. When it
    succeeds, the token in the last answer was verified as any request's is,
    and bears the nonce the browser asked for when it named one. *)
Theorem sign_in_sound cfgs evs req s' made r :
  exchange req (foldl happens (NewState cfgs) evs) = (s', made, r) ->
  (length made <= 10)%nat
  /\ (made <> [] -> exists cfg first, entry cfgs (xr_issuer req) = Some cfg /\ oi_client_id cfg <> ""
        /\ token_endpoint cfg (tq_url first) /\ tq_form first = Some (code_form req cfg) /\ sent first made
        /\ forall pre q post, made = pre ++ q :: post -> tq_form q <> None ->
             tq_form q = tq_form first /\ (q = first /\ pre = []
               \/ exists pre' p rp, pre = pre' ++ [p] /\ send pre' p = Some rp /\ (rp_status rp = 307 \/ rp_status rp = 308)))
  /\ forall x, r = Ok x -> exists pre q rp, made = pre ++ [q] /\ send pre q = Some rp /\ rp_status rp = 200
    /\ (token_fields (limit_read tokenBodyLimit (rp_body rp))).1.1 = ex_token x
    /\ (exists cfg' u tok, cfg' ∈ cfgs /\ peek (ex_token x) = Some (oi_issuer cfg') /\ endpoint_of get_doc (to_auth cfg') u
        /\ verify u (oi_issuer cfg') (ex_token x) = Some tok
        /\ (exists aud, aud ∈ jwt_audience tok /\ aud <> "" /\ (aud = oi_audience cfg' \/ aud = oi_client_id cfg'))
        /\ id_subject (ex_identity x) = jwt_subject tok /\ id_issuer (ex_identity x) = oi_issuer cfg')
    /\ (xr_nonce req <> "" -> exists tok, insecure (ex_token x) = Some tok /\ stringClaim tok "nonce" = Some (xr_nonce req)).
Proof.
  destruct (run_ok cfgs evs) as [Hs Hc]. set (s := foldl happens _ evs) in *. intros E.
  apply Exchange_ok in E as (_ & _ & Hlen & Hfirst & Hx); [|done]. rewrite Hc in Hfirst. split; [done|]. split.
  - intros (cfg & first & H1 & H2 & H3 & H4 & H5)%Hfirst. exists cfg, first. split_and!; try done.
    intros pre q post Hm Hq. destruct (sent_form _ _ _ _ _ H5 Hm Hq) as [Hf [-> |Hp]]; split; auto. left. split; [|done].
    apply sent_head in H5. subst made. by injection H5.
  - intros x (pre & q & rp & H1 & H2 & H3 & H4 & H5 & H6)%Hx. exists pre, q, rp. split_and!; try done.
    destruct (Metadata get_doc (xr_issuer req) s) as [s1 m] eqn:Em. apply Metadata_ok in Em as (Hs1 & Hc1 & _); [|done]. simpl in H5.
    destruct (authenticate (os_issuers s1) (ex_token x)) as [o ra] eqn:Ea. apply authenticate_ok in Ea as [_ Hid]; [|done].
    rewrite <-Hc, <-Hc1. by apply Hid.
Qed.

(** What the URL of a sign-in carries. *)
Definition starts (c : Config) (r : Origin) (query q : string) : Prop :=
  query_get q "redirect_uri" = consoleRedirectURI c r
  /\ query_get q "response_type" = "code" /\ query_get q "code_challenge_method" = "S256"
  /\ query_get q "state" = query_get query "state" /\ query_get q "nonce" = query_get query "nonce"
  /\ query_get q "code_challenge" = query_get query "code_challenge".

Lemma authorize_ok parse_url cfgs evs c r query url :
  (handleOIDCAuthorize get_doc parse_url c r query (Some (foldl happens (NewState cfgs) evs))).2 = mkSA 200 (SAuthorize url) ->
  exists base q cfg, url = base +:+ "?" +:+ q /\ starts c r query q
    /\ entry cfgs (query_get query "issuer") = Some cfg /\ query_get q "client_id" = oi_client_id cfg.
Proof.
  intros Ha. destruct (run_ok cfgs evs) as [Hs Hc]. set (s := foldl happens (NewState cfgs) evs) in *.
  unfold handleOIDCAuthorize, oidc in Ha. destruct (Enabled (os_issuers s)); [|done].
  destruct (decide (query_get query "issuer" = "")); [done|]. destruct (decide (_ \/ _)); [done|].
  destruct (Metadata get_doc (query_get query "issuer") s) as [s1 m] eqn:Em. destruct m as [meta|e]; [|by destruct e as [| | | | | | | | |[]| |]].
  apply Metadata_ok in Em as (_ & _ & Hm); [|done]. destruct (Hm meta eq_refl) as (cfg & He & _ & Hcl & _). rewrite Hc in He.
  destruct (parse_url (pm_authorization meta)) as [[base existing]|]; [|done]. injection Ha as <-.
  set (vs := authorize_values _ _ _ _ _ _). exists base, (encode vs), cfg. rewrite <-Hcl.
  split_and!; try done; [split_and!|]; apply encode_get; unfold vs, authorize_values;
    repeat (rewrite set_value_other by done); apply set_value_here.
Qed.

End theory.

(** ** Two issuers *)

Module SignInDemo.
Definition idp : Config.OIDCIssuer :=
  mkOIDC "https://idp" "registry" "https://idp/keys" "console" "" [] "https://idp/authorize?tenant=7" "https://idp/token".
Definition hr : Config.OIDCIssuer := mkOIDC "https://hr" "registry" "https://hr/keys" "console" "" [] "https://hr/authorize" "https://hr/token".
Definition cfgs : list Config.OIDCIssuer := [idp; hr].
(** A token is its issuer and its nonce. *)
Definition claims (raw : string) : option jwt :=
  '(iss, nonce) ← Cut raw "#"; Some (mkJwt iss "alice" ["registry"] {[ "nonce" := Some nonce ]}).
Definition peek (raw : string) : option string := jwt_issuer <$> claims raw.
Definition verify (keys iss raw : string) : option jwt :=
  tok ← claims raw; if decide (jwt_issuer tok = iss /\ keys = iss +:+ "/keys") then Some tok else None.
(** The endpoint of [idp] answers a code with a token of either issuer, and one
    with a redirect. *)
Definition send (via : list TokenRequest) (q : TokenRequest) : option TokenReply :=
  let has code := bool_decide (("code", code) ∈ default [] (tq_form q)) in
  if decide (tq_url q = "https://idp/token") then
    Some (if has "c1" then mkTokenReply 200 "" "https://idp#n1"
          else if has "c3" then mkTokenReply 307 "https://other/token" ""
          else mkTokenReply 200 "" "https://hr#n1")
  else if decide (tq_url q = "https://other/token") then Some (mkTokenReply 200 "" "https://idp#n1")
  else None.
Definition resolve (base location : string) : option string := Some location.
Definition never_keep (via : list TokenRequest) (url : string) : bool := false.
Definition no_doc (url : string) : option discoveryDoc := None.
Definition yes (s : string) : bool := true.
Definition fields (body : string) : string * string * string := (body, "", "").
Definition no_env (name : string) : string := "".
Definition never (raw : string) : option Z := None.
Notation exchange := (Exchange peek verify no_doc yes yes send resolve never_keep fields no_env claims never).
Definition at_https (url : string) : option (string * string) := Cut url "?".
Definition site : Config :=
  let c := Config.Demo.doc in
  mkConfig (mkSite "milan" "https://packages.example/") (cfg_server c) (cfg_storage c) (cfg_dsn c) (cfg_auth c)
    (cfg_feeds c) (cfg_replication c) (cfg_admins c) (cfg_source_type c) (cfg_access_policies c) (cfg_bindings c).
Definition sign_in (code nonce : string) : ExchangeRequest :=
  mkExchange "https://idp" code "v" "https://packages.example/ui/oidc/callback" nonce.
Definition query : string := "issuer=https%3A%2F%2Fidp&state=s1&nonce=n1&code_challenge=ch".
End SignInDemo.
Import SignInDemo.

(** The comment in [Exchange] says that without the nonce a token obtained
    elsewhere would be accepted; the exchange leaves it to the caller whether a
    nonce is checked at all. *)
Theorem exchange_without_nonce :
  (exchange (sign_in "c1" "") (NewState cfgs)).2 = Ok (mkExchanged "https://idp#n1" None (mkIdentity IdentityOIDC "alice" "https://idp" "" ""))
  /\ (exchange (sign_in "c1" "mine") (NewState cfgs)).2 = Err NonceMismatch.
Proof. vm_compute. done. Qed.

(** A sign-in at one issuer may end as an identity of another: the token is
    checked against the issuer it names, not the one that was asked. *)
Theorem answered_for_another_issuer :
  (exchange (sign_in "c2" "n1") (NewState cfgs)).2 = Ok (mkExchanged "https://hr#n1" None (mkIdentity IdentityOIDC "alice" "https://hr" "" "")).
Proof. vm_compute. done. Qed.

(** A token endpoint that answers 307 has the client send the code and the
    verifier on, wherever it says. *)
Theorem redirected_exchange :
  let out := exchange (sign_in "c3" "n1") (NewState cfgs) in
  (tq_url <$> out.1.2) = ["https://idp/token"; "https://other/token"]
  /\ Forall (fun q => exists form, tq_form q = Some form /\ ("code", "c3") ∈ form /\ ("code_verifier", "v") ∈ form) out.1.2
  /\ exists x, out.2 = Ok x.
Proof.
  cbv zeta. split; [by vm_compute|]. split; [|eexists; by vm_compute].
  match goal with |- Forall _ ?l => let l' := eval vm_compute in l in change l with l' end.
  repeat (constructor; [eexists; split; [reflexivity|]; set_solver|]). constructor.
Qed.

Lemma sign_in_sound_witness :
  exists x, (exchange (sign_in "c1" "n1") (NewState cfgs)).2 = Ok x
    /\ exists tok, claims (ex_token x) = Some tok /\ stringClaim tok "nonce" = Some "n1".
Proof.
  destruct (exchange (sign_in "c1" "n1") (NewState cfgs)) as [[s made] r] eqn:E.
  assert (exists x, r = Ok x) as [x ->] by (apply (f_equal snd) in E; vm_compute in E; subst r; by eexists).
  destruct (sign_in_sound peek verify no_doc yes yes send resolve never_keep fields no_env claims never cfgs []
    (sign_in "c1" "n1") s made (Ok x) E) as (_ & _ & H).
  destruct (H x eq_refl) as (pre & q & rp & _ & _ & _ & _ & _ & Hn). exists x. split; [done|]. apply Hn. done.
Defined.

(** The body of the exchange, in this example: a code, a verifier and a nonce. *)
Definition decode_demo (body : string) : option (string * string * string * string) :=
  if decide (body = "{}") then Some ("https://idp", "c3", "v", "n1") else None.

End SignIn.
