(* ===== verification/Terraform.v ===== *)
(** * The Terraform module ([modules/format/terraform])

    The module registry protocol: paths, the synthesized download answer, the
    archive an upstream points at, uploads, the generated version lists,
    merging in groups, service discovery. JSON text is a parameter, as is
    [url.Parse]. *)

From S2P Require Import Prelude GoLib Semver State Events Store Pipeline Publisher Policies Server WriteRoutes ModLib SignIn.
From Stdlib Require Import Sorting.Sorted.
Open Scope Z_scope.

Module Terraform.
Import Server WriteRoutes.

(** ** Paths ([terraform.go]) *)

Definition versionsTTL : Z := 5 * Minute.
Definition archiveFile : string := "archive.tar.gz".
Definition not_found (why : string) : api_error * string := (ErrNotFound, why).

Definition archiveIntentPath (requestPath : string) : string := trim_suffix requestPath archiveFile +:+ "download".

(** [coord], of the first three segments. *)
Definition coord (ns name provider version : string) : PackageCoordinate :=
  mkCoord "terraform" (ns +:+ "/" +:+ name +:+ "/" +:+ provider) version.

Definition bad_segment (s : string) : bool := bool_decide (s = "" \/ s = "." \/ s = "..").

(** [Parse]. *)
Definition Parse (r : HttpReq) : result (api_error * string) Intent :=
  let p := trim_prefix (rq_path r) "/" in
  match split p "/"%char with
  | a :: b :: rest =>
      if decide (a <> "v1" \/ b <> "modules") then Err (not_found "not a module registry path")
      else if existsb bad_segment rest then Err (not_found "invalid path")
      else match rest with
      | [ns; name; provider; action] =>
          if decide (action = "versions") then
            Ok (mkIntent IntentMetadata (coord ns name provider "") versionsTTL p no_checksum (mkSource "" "") "" false ""
                  "application/json" "" "")
          else Err (not_found "unsupported module registry path")
      | [ns; name; provider; version; action] =>
          if decide (action = "download") then
            Ok (mkIntent IntentSynthetic (coord ns name provider version) 0 p no_checksum (mkSource "" "") "" false "" "" "" "")
          else if decide (action = archiveFile) then
            Ok (mkIntent IntentArtifact (coord ns name provider version) 0 (archiveIntentPath p) no_checksum (mkSource "" "") ""
                  true "" "application/gzip" "" "")
          else Err (not_found "unsupported module registry path")
      | _ => Err (not_found "unsupported module registry path")
      end
  | _ => Err (not_found "not a module registry path")
  end.

Definition RedirectSafeIntent (i : Intent) : bool :=
  match i_kind i with IntentArtifact => true | _ => false end.
Definition RewriteMetadata (f : Feed) (body : string) : result api_error string := Ok body.

(** [Synthesize]: where the archive of a version is. *)
Definition Synthesize (external_url : Feed -> string) (f : Feed) (i : Intent) : result (api_error * string) SyntheticResponse :=
  match i_kind i with
  | IntentSynthetic =>
      if has_suffix (i_path i) "/download" then
        let location :=
          if decide (external_url f <> "")
          then external_url f +:+ "/terraform/" +:+ f_name f +:+ "/" +:+ trim_suffix (i_path i) "download" +:+ archiveFile
          else "./" +:+ archiveFile in
        Ok (mkSynthetic 204 {[ "X-Terraform-Get" := location ]} "")
      else Err (not_found "unexpected synthetic intent")
  | _ => Err (not_found "unexpected synthetic intent")
  end.

(** ** Service discovery *)

(** A feed of this format: its name, and whether it is a group. *)
Abbreviation tf_feed := (string * bool)%type.

Section discovery.
Context {GR : GoRuntime}.
Definition names (feeds : list tf_feed) : list string := gosort str_ltb feeds.*1.

Inductive discovery_error := NoGroup (n : nat) (feeds : list string) | ManyGroups (groups : list string).
Definition ValidateFeeds (feeds : list tf_feed) : result discovery_error () :=
  if decide (length feeds <= 1)%nat then Ok ()
  else match gosort str_ltb (filter (fun f => f.2 = true) feeds).*1 with
       | [_] => Ok ()
       | [] => Err (NoGroup (length feeds) (names feeds))
       | groups => Err (ManyGroups groups)
       end.

(** [ServeRoot]: the feed the discovery document names, 404 without one. *)
Definition discovery_target (feeds : list tf_feed) : option string :=
  match names feeds with
  | [] => None
  | first :: _ => Some (match list_find (fun f => f.2 = true) feeds with Some (_, f) => f.1 | None => first end)
  end.
Definition ServeRoot (marshal : json -> string) (feeds : list tf_feed) : own_response :=
  match discovery_target feeds with
  | None => (404, ∅, "no terraform feeds configured")
  | Some target => (200, {[ "Content-Type" := "application/json" ]},
                    marshal (JObj [("modules.v1", JStr ("/terraform/" +:+ target +:+ "/v1/modules/"))]) +:+ nl)
  end.
End discovery.

(** ** The archive an upstream names *)

(** A parsed URL: its path, its query, its text with another query. *)
Record URL := mkURL { u_path : string; u_query : string; u_text : string -> string }.

Section indirect.
Context (url_parse : string -> option URL).

Definition checksum_algos : list string := ["md5"; "sha1"; "sha256"; "sha512"].
(** [splitGetterURL]. *)
Definition splitGetterURL (loc : string) : result api_error (string * Checksum) :=
  match url_parse loc with
  | None => Err (ErrOther "invalid module archive location")
  | Some u =>
      if Contains (u_path u) "//" then Err ErrUpstreamUnavailable
      else
        let raw := query_get (u_query u) "checksum" in
        if decide (raw = "") then Ok (loc, no_checksum)
        else
          let rest := filter (fun kv => kv.1 <> "checksum") (SignIn.SignIn.parse_values (u_query u)) in
          match Cut raw ":" with
          | None => Err (ErrOther "unsupported checksum parameter")
          | Some (algo, hexDigest) =>
              let algo := ToLower algo in
              if decide (algo ∈ checksum_algos)
              then Ok (u_text u (SignIn.SignIn.encode rest), mkChecksum algo (ToLower hexDigest))
              else Err (ErrOther "unsupported checksum algorithm")
          end
  end.
(** [ResolveIndirect]. *)
Definition ResolveIndirect (status : Z) (header : gmap string (list string)) : result api_error (string * Checksum) :=
  if decide (status <> 204 /\ status <> 200) then Err (ErrOther "upstream download endpoint returned status")
  else match header !! "X-Terraform-Get" with
       | None | Some [] | Some (EmptyString :: _) => Err (ErrOther "upstream download response lacks X-Terraform-Get")
       | Some (loc :: _) =>
           if Contains loc "::" || has_prefix loc "git@" then Err ErrUpstreamUnavailable else splitGetterURL loc
       end.
End indirect.

(** ** Uploads ([hoster.go]) *)

Definition maxArchiveSize : Z := 2 ^ 29.
Definition gzip_magic : string := String "031" (String "139" "").

Section hosting.
Context (digest : string -> string -> string) (marshal_indent : json -> string) {GR : GoRuntime}.

(** [HandlePublish]. *)
Definition HandlePublish (f : Feed) (r : HttpReq) : presult own_response :=
  let p := trim_prefix (rq_path r) "/" in
  match split p "/"%char with
  | [a; b; ns; name; provider; version; file] =>
      if decide (a <> "v1" \/ b <> "modules" \/ file <> archiveFile) then perr ErrBadRequest "upload path"
      else if existsb bad_segment [ns; name; provider; version; file] then perr ErrBadRequest "invalid upload path"
      else
        let body := limit_read maxArchiveSize (rq_body r) in
        if decide (body = "") then perr ErrBadRequest "empty archive"
        else if negb (has_prefix body gzip_magic) then perr ErrBadRequest "archive must be gzip (tar.gz)"
        else
          let sha := digest "sha256" body in
          let size := Z.of_nat (String.length body) in
          BlobPut ("blobs/sha256/" +:+ sha) body (mkPutOpts sha size "") (fun e =>
            match e with
            | Some e => perr e "stage archive"
            | None =>
                CorePublish (mkPublish f (coord ns name provider version) (archiveIntentPath p) sha size
                               {[ "sha256" := sha ]} "" false (Some {[ Policies.MetaEcosystem := "Terraform" ]}))
                  (fun res => match res with Ok _ => pok (0, ∅, "") | Err e => Ret (Err e) end)
            end)
  | _ => perr ErrBadRequest "upload path"
  end.

(** ** Version lists *)

Notation hosted := (string * PackageCoordinate * HostedRow)%type.

Definition versions_json (modules : list (string * list string)) : json :=
  JObj [("modules", JArr ((fun m => JObj [("source", JStr m.1);
    ("versions", JArr ((fun v => JObj [("version", JStr v)]) <$> m.2))]) <$> modules))].

(** The module and version a row is of. *)
Definition entry_of (m : hosted) : option (string * string) :=
  if decide (c_version m.1.2 = "" \/ c_name m.1.2 = "") then None else Some (c_name m.1.2, c_version m.1.2).
Definition versions_of (source : string) (l : list (string * string)) : list string :=
  remove_dups (snd <$> filter (fun e => e.1 = source) l).
Definition version_docs (ms : list hosted) : list (string * string) :=
  let l := omap entry_of ms in
  (fun source => ("v1/modules/" +:+ source +:+ "/versions",
     marshal_indent (versions_json [(source, gosort str_ltb (visit (versions_of source l)))]) +:+ nl))
  <$> gosort str_ltb (visit (remove_dups l.*1)).

(** [Reindex]. *)
Definition Reindex (f : Feed) : prog (option api_error) :=
  CoreManifests f "v1/modules/" (fun res => match res with
    | Err e => Ret (Some e)
    | Ok ms => put_all f (version_docs ms)
    end).
Definition hoster : Hoster := mkHoster false HandlePublish Reindex.
End hosting.

(** ** Groups ([group.go]) *)

Definition atoi (s : string) : option Z :=
  if decide (s = "") then None
  else (fix go (n : Z) (s : string) : option Z :=
          match s with
          | EmptyString => Some n
          | String c s' => match digit c with Some d => go (wrap64 (n * 10 + d)) s' | None => None end
          end) 0 s.
Definition segmentAt (segs : list string) (i : nat) : string := default "0" (segs !! i).
Definition compareSegment (a b : string) : Z :=
  match atoi a, atoi b with
  | Some an, Some bn => if an <? bn then -1 else if bn <? an then 1 else 0
  | _, _ => str_compare a b
  end.
Fixpoint compare_segments (a b : list string) (i left : nat) : Z :=
  match left with
  | O => 0
  | S n => let c := compareSegment (segmentAt a i) (segmentAt b i) in
           if decide (c <> 0) then c else compare_segments a b (S i) n
  end.
Definition compareModuleVersions (a b : string) : Z :=
  let '(aCore, aPre, _) := cut3 (trim_prefix a "v") "-" in
  let '(bCore, bPre, _) := cut3 (trim_prefix b "v") "-" in
  let aSegs := split aCore "."%char in
  let bSegs := split bCore "."%char in
  let c := compare_segments aSegs bSegs 0 (length aSegs `max` length bSegs) in
  if decide (c <> 0) then c
  else if decide (aPre = "" /\ bPre = "") then 0
  else if decide (aPre = "") then 1
  else if decide (bPre = "") then -1
  else str_compare aPre bPre.
Definition version_less (a b : string) : bool := compareModuleVersions a b <? 0.

Definition MergeableIntent (i : Intent) : bool := match i_kind i with IntentMetadata => true | _ => false end.

Section merge.
Context {GR : GoRuntime} (marshal : json -> string).
(** [json.Unmarshal] into [versionsDoc]. *)
Context (unmarshal : string -> option (list (string * list string))).

(** Sources in the order they first appear, each with its versions. *)
Definition add_module (acc : list string * gmap string (gset string)) (m : string * list string)
  : list string * gmap string (gset string) :=
  let vs : gset string := list_to_set (filter (fun v => v <> "") m.2) in
  match acc.2 !! m.1 with
  | None => (acc.1 ++ [m.1], <[m.1 := vs]> acc.2)
  | Some seen => (acc.1, <[m.1 := seen ∪ vs]> acc.2)
  end.
Fixpoint merge_parts (parts : list (string * string)) (acc : list string * gmap string (gset string))
  : option (list string * gmap string (gset string)) :=
  match parts with
  | [] => Some acc
  | (_, body) :: parts =>
      match unmarshal body with
      | None => None
      | Some modules => merge_parts parts (foldl add_module acc modules)
      end
  end.
Definition merged_modules (acc : list string * gmap string (gset string)) : list (string * list string) :=
  (fun source => (source, gosort version_less (visit (elements (default ∅ (acc.2 !! source)))))) <$> acc.1.
Definition Merge (f : Feed) (i : Intent) (parts : list (string * string)) : result api_error string :=
  match merge_parts parts ([], ∅) with
  | None => Err (ErrOther "parse versions document")
  | Some acc => match acc.1 with
                | [] => Err ErrNotFound
                | _ => Ok (marshal (versions_json (merged_modules acc)))
                end
  end.
Definition terraform {St} (external_url : Feed -> string) : FormatModule St :=
  mkModule Parse None None (Some (Synthesize external_url)) None (Some RedirectSafeIntent) None None
    (Some (MergeableIntent, Merge)).
End merge.

(** ** Downloads *)

(** A published archive is found by the request that downloads it: every
    upload publishes, under the digest of its bytes, the coordinate and the
    path that a request for the uploaded URL resolves to. *)
Theorem tf_archive_reachable digest f r :
  publishes (fun q => pr_feed q = f /\ pr_mutable q = false
      /\ pr_sha256 q = digest "sha256" (limit_read maxArchiveSize (rq_body r))
      /\ exists i, Parse r = Ok i /\ i_kind i = IntentArtifact /\ i_coord i = pr_coord q /\ i_path i = pr_path q)
    (HandlePublish digest f r).
Proof.
  unfold HandlePublish. set (p := trim_prefix _ _).
  destruct (split p "/"%char) as [|a [|b [|ns [|name [|provider [|version [|file [|x l]]]]]]]] eqn:E; try done.
  case_decide as Hd; [done|]. destruct (existsb bad_segment _) eqn:Eb; [done|]. case_decide; [done|].
  destruct (negb _); [done|]. intros [e|]; [done|]. split; [|by intros [?|?]]. do 3 (split; [done|]).
  assert (a = "v1" /\ b = "modules" /\ file = archiveFile) as (-> & -> & ->)
    by (split_and!; apply dec_stable; tauto).
  unfold Parse. fold p. rewrite E, Eb, decide_False by naive_solver. rewrite decide_False, decide_True by done. eexists. done.
Qed.

#[global] Instance tf_laws digest marshal_indent {GR : GoRuntime} : HosterLaws (hoster digest marshal_indent).
Proof.
  split; simpl.
  - intros f r. eapply publishes_mono; [|apply tf_archive_reachable]. by intros q (? & _).
  - intros f [ms|e]; [apply put_all_publishes|done].
Qed.

(** What a synthesized request names: a version's archive. *)
Lemma parse_synthetic r i : Parse r = Ok i -> i_kind i = IntentSynthetic ->
  exists ns name provider version s,
    i_path i = s +:+ "/download" /\ split s "/"%char = ["v1"; "modules"; ns; name; provider; version]
    /\ i_coord i = coord ns name provider version /\ existsb bad_segment [ns; name; provider; version] = false.
Proof.
  unfold Parse. set (p := trim_prefix _ _). pose proof (join_split p "/"%char) as Hj.
  destruct (split p "/"%char) as [|a [|b rest]] eqn:E; [done..|]. case_decide as Hd; [done|].
  assert (a = "v1" /\ b = "modules") as [-> ->] by (split; apply dec_stable; tauto).
  destruct (existsb bad_segment rest) eqn:Eb; [done|].
  destruct rest as [|ns [|name [|provider [|version [|action [|x l]]]]]]; try done; [case_decide; by intros [= <-]|].
  case_decide as Ha; [|case_decide; [by intros [= <-]|done]]. intros [= <-] _. subst action. cbn [i_path i_coord].
  set (s := join ["v1"; "modules"; ns; name; provider; version] "/"). exists ns, name, provider, version, s.
  assert (p = s +:+ "/download") as Hp.
  { rewrite <-Hj. unfold s. rewrite !join_cons by done. cbn [join]. by rewrite <-!str_app_assoc. }
  split; [done|]. split; [|split; [done|]].
  - rewrite Hp in E. change "/download" with (String "/" "download") in E. rewrite split_app in E.
    change ["v1"; "modules"; ns; name; provider; version; "download"]
      with (["v1"; "modules"; ns; name; provider; version] ++ split "download" "/"%char) in E. by apply app_inv_tail in E.
  - cbn [existsb] in Eb |- *. rewrite !orb_false_iff in Eb |- *. tauto.
Qed.

(** Following a download leads to the archive. Where the answer to a request
    for a version's download points, relative to the request or at the
    configured address, is a path of this feed that is read as the archive of
    the same version, and that looks up the very path the download was asked
    for, which is where uploads are stored. *)
Theorem tf_download_leads_back external f r i resp :
  Parse r = Ok i -> i_kind i = IntentSynthetic -> Synthesize external f i = Ok resp ->
  exists s, cut_last "/" (i_path i) = Some (s, "download")
    /\ sy_status resp = 204
    /\ sy_header resp !! "X-Terraform-Get" = Some (if decide (external f = "") then "./" +:+ archiveFile
         else external f +:+ "/terraform/" +:+ f_name f +:+ "/" +:+ s +:+ "/" +:+ archiveFile)
    /\ forall r', rq_path r' = "/" +:+ s +:+ "/" +:+ archiveFile ->
         exists i', Parse r' = Ok i' /\ i_kind i' = IntentArtifact /\ i_indirect i' = true
           /\ i_coord i' = i_coord i /\ i_path i' = i_path i.
Proof.
  intros Hp Hk Hs. destruct (parse_synthetic r i Hp Hk) as (ns & name & provider & version & s & Hi & Hsp & Hc & Hb).
  exists s. split.
  { rewrite Hi. change "/download" with ("/" +:+ "download"). rewrite (cut_last_app "/" s _ "" "download"); [by rewrite str_app_nil_r|done]. }
  unfold Synthesize in Hs. rewrite Hk, Hi in Hs.
  assert (has_suffix (s +:+ "/download") "/download" = true) as Hsuf by (unfold has_suffix; by rewrite cut_suffix_app).
  assert (trim_suffix (s +:+ "/download") "download" = s +:+ "/") as Ht.
  { unfold trim_suffix. change "/download" with ("/" +:+ "download"). rewrite str_app_assoc. by rewrite cut_suffix_app. }
  rewrite Hsuf, Ht in Hs. injection Hs as <-. split; [done|]. split.
  { cbn [sy_header]. rewrite lookup_singleton_eq. f_equal. rewrite <-str_app_assoc.
    destruct (decide (external f = "")) as [E|E]; [by rewrite decide_False by tauto|by rewrite decide_True]. }
  intros r' Hr. unfold Parse. rewrite Hr, trim_prefix_app.
  change (s +:+ "/" +:+ archiveFile) with (s +:+ String "/" archiveFile). rewrite split_app, Hsp.
  change (split archiveFile "/"%char) with [archiveFile]. cbn [app]. rewrite decide_False by naive_solver.
  assert (existsb bad_segment [ns; name; provider; version; archiveFile] = false) as ->.
  { cbn [existsb] in Hb |- *. rewrite !orb_false_iff in Hb |- *. tauto. }
  rewrite decide_False, decide_True by done. eexists. do 3 (split; [done|]). split; [by rewrite Hc|].
  cbn [i_path]. unfold archiveIntentPath, trim_suffix. change (s +:+ String "/" archiveFile) with (s +:+ "/" +:+ archiveFile).
  rewrite str_app_assoc, cut_suffix_app by done. cbn [fst]. by rewrite Hi, <-str_app_assoc.
Qed.

(** ** Discovery *)

Lemma names_same (G1 G2 : GoRuntime) feeds feeds' : feeds ≡ₚ feeds' -> @names G1 feeds = @names G2 feeds'.
Proof. intros Hp. apply gosort_same; [apply strict_total_less; auto with fondaco|by rewrite Hp]. Qed.

(** The discovery document of a validated site is unambiguous: it names the
    only group, or the only feed, in whatever order the feeds come and whatever
    process answers. *)
Theorem tf_discovery_unambiguous (G1 G2 : GoRuntime) feeds feeds' :
  @ValidateFeeds G1 feeds = Ok () -> feeds ≡ₚ feeds' ->
  @discovery_target G1 feeds = @discovery_target G2 feeds'
  /\ forall t, @discovery_target G1 feeds = Some t ->
       ((t, true) ∈ feeds /\ forall t', (t', true) ∈ feeds -> t' = t) \/ feeds = [(t, false)].
Proof.
  intros Hv Hp. unfold discovery_target. rewrite <-(names_same G1 G2 feeds feeds' Hp).
  assert (forall l : list tf_feed, filter (fun f => f.2 = true) l = [] -> list_find (fun f => f.2 = true) l = None) as Hnone.
  { intros l Hf. apply list_find_None, Forall_forall. intros x Hx Ht.
    assert (x ∈ filter (fun f => f.2 = true) l) as Hin by by apply list_elem_of_filter. rewrite Hf in Hin. by apply elem_of_nil in Hin. }
  assert (forall (l : list tf_feed) g, filter (fun f => f.2 = true) l = [g] ->
            exists n, list_find (fun f => f.2 = true) l = Some (n, g)) as Hone.
  { intros l g Hf. destruct (list_find (fun f => f.2 = true) l) as [[n x]|] eqn:E.
    - apply list_find_Some in E as (Hl & Ht & _). exists n. do 2 f_equal.
      assert (x ∈ filter (fun f => f.2 = true) l) as Hin.
      { apply list_elem_of_filter. split; [done|]. by eapply list_elem_of_lookup_2. }
      rewrite Hf in Hin. by apply list_elem_of_singleton in Hin.
    - exfalso. apply list_find_None in E. rewrite Forall_forall in E.
      assert (g ∈ filter (fun f => f.2 = true) l) as [Ht Hin]%list_elem_of_filter by (rewrite Hf; by left). by eapply E. }
  assert (exists g, filter (fun f => f.2 = true) feeds = [g] \/ filter (fun f => f.2 = true) feeds = [] /\ (feeds = [] \/ feeds = [g])) as (g & Hg).
  { unfold ValidateFeeds in Hv. case_decide as Hl.
    - destruct feeds as [|x [|y l]]; [exists ("", false); by right; split; [|left]| |simpl in Hl; lia].
      exists x. rewrite filter_cons, filter_nil. case_decide; [by left|]. right. split; [done|by right].
    - set (gs := filter _ feeds) in *. pose proof (@gosort_perm G1 _ str_ltb gs.*1) as Hs.
      destruct (gosort str_ltb gs.*1) as [|a [|b l]]; [done| |done]. symmetry in Hs. apply Permutation_singleton_r in Hs.
      destruct gs as [|g [|]]; [done| |done]. exists g. by left. }
  destruct Hg as [Hg|[Hg [->| ->]]].
  - destruct (Hone _ _ Hg) as [n Hf].
    assert (filter (fun f => f.2 = true) feeds' = [g]) as Hg' by (apply Permutation_singleton_r; rewrite <-Hg; by rewrite Hp).
    destruct (Hone _ _ Hg') as [n' Hf']. rewrite Hf, Hf'. split; [done|]. destruct (names feeds); [done|]. intros t [= <-]. left.
    assert (forall t', (t', true) ∈ feeds <-> (t', true) = g) as Hiff.
    { intros t'. split.
      - intros Hin. assert ((t', true) ∈ filter (fun f => f.2 = true) feeds) as Hin' by by apply list_elem_of_filter.
        rewrite Hg in Hin'. by apply list_elem_of_singleton in Hin'.
      - intros E. assert (g ∈ filter (fun f => f.2 = true) feeds) as [_ Hin]%list_elem_of_filter by (rewrite Hg; by left).
        by rewrite E. }
    destruct g as [gn gb]. assert ((gn, gb) ∈ filter (fun f => f.2 = true) feeds) as [Hb _]%list_elem_of_filter by (rewrite Hg; by left).
    simpl in Hb. subst gb. split; [by apply Hiff|]. by intros t' [= ->]%Hiff.
  - apply Permutation_nil_l in Hp. subst feeds'. unfold names. pose proof (@gosort_perm G1 _ str_ltb []) as Hs.
    apply Permutation_nil_r in Hs. cbn [fmap list_fmap]. by rewrite Hs.
  - apply Permutation_singleton_l in Hp. subst feeds'. split; [done|].
    assert (@names G1 [g] = [g.1]) as -> by (symmetry; apply Permutation_singleton_l; symmetry; apply (@gosort_perm G1 _ str_ltb [g.1])).
    destruct g as [gn [|]]; [rewrite filter_cons_True in Hg by done; discriminate Hg|]. intros t [= <-]. by right.
Qed.

(** ** Checksums of indirections *)

(** The location handed on no longer carries the checksum parameter, and the
    checksum is one the pipeline can verify; otherwise the location is the
    upstream's. *)
Lemma encode_get_none vs key : (forall kv, kv ∈ vs -> kv.1 <> key) -> query_get (SignIn.SignIn.encode vs) key = "".
Proof.
  intros Hk. unfold SignIn.SignIn.encode. set (l := merge_sort SignIn.SignIn.key_before vs).
  assert (forall kv, kv ∈ l -> kv.1 <> key) as Hl by (intros kv Hin; apply Hk; by rewrite <-(merge_sort_Permutation SignIn.SignIn.key_before vs)).
  unfold query_get. destruct l as [|kv l]; [done|]. rewrite (split_join _ "&"%char); [|done|].
  - assert (omap (fun pair => if decide (pair = "") then None
      else '(k, v) ← query_pair pair; if decide (k = key) then Some v else None) (SignIn.SignIn.pair_text <$> kv :: l) = []) as ->; [|done].
    revert Hl. generalize (kv :: l). clear. intros l Hl. induction l as [|[k v] l IH]; [done|]. rewrite fmap_cons. cbn [omap list_omap].
    destruct (SignIn.SignIn.pair_text_plain (k, v)) as [_ Hn]. rewrite (decide_False _ _ Hn), SignIn.SignIn.pair_read. simpl.
    rewrite decide_False by (apply (Hl (k, v)); by left). apply IH. intros kv Hin. apply Hl. by right.
  - apply Forall_fmap, Forall_forall. intros x _. apply SignIn.SignIn.pair_text_plain.
Qed.
Theorem tf_checksum_split url_parse status header loc cs :
  ResolveIndirect url_parse status header = Ok (loc, cs) ->
  exists loc0 rest u, header !! "X-Terraform-Get" = Some (loc0 :: rest) /\ loc0 <> "" /\ url_parse loc0 = Some u
    /\ ((cs = no_checksum /\ loc = loc0 /\ query_get (u_query u) "checksum" = "")
        \/ exists q, loc = u_text u q /\ query_get q "checksum" = "" /\ Algo cs ∈ checksum_algos
            /\ exists algo hex, query_get (u_query u) "checksum" = algo +:+ ":" +:+ hex
                 /\ Algo cs = ToLower algo /\ Hex cs = ToLower hex).
Proof.
  unfold ResolveIndirect. case_decide; [done|]. destruct (header !! _) as [[|loc0 rest]|]; [done| |done].
  destruct loc0 as [|c loc0]; [done|]. set (l := String c loc0). destruct (Contains l "::" || _); [done|]. unfold splitGetterURL.
  destruct (url_parse l) as [u|] eqn:Eu; [|done]. destruct (Contains (u_path u) "//"); [done|]. intros Hr.
  exists l, rest, u. do 3 (split; [done|]). case_decide as Hc; [left; by injection Hr as <- <-|right].
  destruct (Cut _ ":") as [[algo hex]|] eqn:Ec; [|done]. case_decide as Ha; [|done]. injection Hr as <- <-.
  eexists. split; [done|]. split.
  { apply encode_get_none. intros kv [Hk _]%list_elem_of_filter. done. }
  split; [done|]. exists algo, hex. split; [by apply Cut_app in Ec|done].
Qed.

(** ** Version lists *)

Lemma version_docs_same (G1 G2 : GoRuntime) marshal_indent ms1 ms2 :
  ms1 ≡ₚ ms2 -> @version_docs marshal_indent G1 ms1 = @version_docs marshal_indent G2 ms2.
Proof.
  intros Hp. unfold version_docs. pose proof (omap_Permutation entry_of _ _ Hp) as Hl.
  rewrite (gosort_same G1 G2 str_ltb _ (@visit G2 _ (remove_dups (omap entry_of ms2).*1))).
  2: apply strict_total_less; auto with fondaco. 2: apply visit_same; by rewrite Hl.
  apply list_fmap_ext. intros _ source _. unfold versions_of. do 6 f_equal.
  apply gosort_same; [apply strict_total_less; auto with fondaco|]. apply visit_same. by rewrite Hl.
Qed.

(** The version list of a module is right and reachable. Whatever the process
    and the order of the rows, the same documents are written; each is the list
    of exactly the versions hosted of its module, each once, and there is one
    for every module that has any; and a request for a module's versions reads
    that very document. *)
Theorem tf_versions_exact (G1 G2 : GoRuntime) marshal_indent ms ms' :
  ms ≡ₚ ms' ->
  @version_docs marshal_indent G1 ms = @version_docs marshal_indent G2 ms'
  /\ (forall source v, (exists m, m ∈ ms /\ entry_of m = Some (source, v)) ->
        exists vs, ("v1/modules/" +:+ source +:+ "/versions", marshal_indent (versions_json [(source, vs)]) +:+ nl)
                     ∈ @version_docs marshal_indent G1 ms
          /\ NoDup vs /\ (forall v, v ∈ vs <-> exists m, m ∈ ms /\ entry_of m = Some (source, v)))
  /\ forall r ns name provider, rq_path r = "/v1/modules/" +:+ ns +:+ "/" +:+ name +:+ "/" +:+ provider +:+ "/versions" ->
       Forall (fun s => bad_segment s = false /\ contains_char s "/"%char = false) [ns; name; provider] ->
       exists i, Parse r = Ok i /\ i_kind i = IntentMetadata
         /\ i_path i = "v1/modules/" +:+ c_name (i_coord i) +:+ "/versions".
Proof.
  intros Hp. split; [by apply version_docs_same|]. split.
  - intros source v (m & Hm & He). set (l := omap entry_of ms). set (vs := @gosort G1 _ str_ltb (@visit G1 _ (versions_of source l))).
    assert (forall e, e ∈ l <-> exists m, m ∈ ms /\ entry_of m = Some e) as Hl
      by (intros e; unfold l; rewrite list_elem_of_omap; naive_solver).
    assert (vs ≡ₚ versions_of source l) as Hvs by (unfold vs; by rewrite gosort_perm, visit_perm).
    exists vs. split_and!.
    + unfold version_docs. apply list_elem_of_fmap. exists source. split; [done|]. rewrite gosort_perm, visit_perm.
      apply elem_of_remove_dups, list_elem_of_fmap. exists (source, v). split; [done|]. apply Hl. eauto.
    + rewrite Hvs. apply NoDup_remove_dups.
    + intros v'. rewrite Hvs. unfold versions_of. rewrite elem_of_remove_dups, list_elem_of_fmap, <-Hl. split.
      * intros ([s' v''] & -> & [Hs Hin]%list_elem_of_filter). simpl in *. by subst.
      * intros Hin. exists (source, v'). split; [done|]. by apply list_elem_of_filter.
  - intros r ns name provider Hr Hf. rewrite !Forall_cons in Hf. destruct Hf as ([B1 F1] & [B2 F2] & [B3 F3] & _).
    unfold Parse. rewrite Hr. change "/v1/modules/" with ("/" +:+ "v1/modules/"). rewrite <-str_app_assoc, trim_prefix_app.
    change ("v1/modules/" +:+ ns +:+ "/" +:+ name +:+ "/" +:+ provider +:+ "/versions")
      with ("v1" +:+ String "/" ("modules" +:+ String "/" (ns +:+ String "/" (name +:+ String "/" (provider +:+ String "/" "versions"))))).
    rewrite !split_app, !split_single by done. cbn [app]. rewrite decide_False by naive_solver. cbn [existsb].
    rewrite B1, B2, B3. cbn [orb]. rewrite decide_True by done. eexists. split; [done|]. split; [done|].
    cbn [i_path i_coord c_name coord]. by rewrite <-!str_app_assoc.
Qed.

(** ** Merged lists *)

Lemma atoi_semver s : atoi s = Semver.atoi s.
Proof.
  unfold atoi, Semver.atoi. case_decide; [done|]. generalize 0 as n. clear. induction s as [|c s IH]; intros n; [done|].
  cbn [Semver.atoi_loop]. unfold digit at 1.
  assert (forall d : Z, (d <? 48) || (57 <? d) = negb ((48 <=? d) && (d <=? 57))) as Hneg by lia. rewrite Hneg.
  destruct ((48 <=? _) && _); simpl; [apply IH|done].
Qed.
Lemma compareSegment_semver a b : compareSegment a b = Semver.compareNumericSegment a b.
Proof. unfold compareSegment, Semver.compareNumericSegment. by rewrite !atoi_semver. Qed.
Lemma compare_segments_semver a b i n : compare_segments a b i n = Semver.compareSegments a b i n.
Proof.
  revert i. induction n as [|n IH]; intros i; [done|]. cbn [compare_segments Semver.compareSegments].
  rewrite compareSegment_semver, IH. change (Semver.segmentAt) with segmentAt.
  destruct (decide (_ = 0)) as [E|E]; [by rewrite decide_False by (intros H; by apply H)|by rewrite decide_True].
Qed.
(** The two copies of the version order agree: this one is the shared one
    after a leading [v]. *)
Theorem tf_order_is_semver a b : compareModuleVersions a b = Semver.Compare (trim_prefix a "v") (trim_prefix b "v").
Proof.
  unfold compareModuleVersions, Semver.Compare. destruct (cut3 (trim_prefix a "v") "-") as [[aCore aPre] ?].
  destruct (cut3 (trim_prefix b "v") "-") as [[bCore bPre] ?]. by rewrite compare_segments_semver.
Qed.

(** The versions gathered so far of a source. *)
Definition gathered (acc : list string * gmap string (gset string)) (source v : string) : Prop :=
  v ∈ default ∅ (acc.2 !! source).
Definition acc_ok (acc : list string * gmap string (gset string)) : Prop :=
  NoDup acc.1 /\ forall s, s ∈ acc.1 <-> is_Some (acc.2 !! s).
Lemma add_module_spec acc m : acc_ok acc ->
  acc_ok (add_module acc m) /\ (forall s, s ∈ (add_module acc m).1 <-> s ∈ acc.1 \/ s = m.1)
  /\ (exists l, (add_module acc m).1 = acc.1 ++ l)
  /\ forall s v, gathered (add_module acc m) s v <-> gathered acc s v \/ (s = m.1 /\ v <> "" /\ v ∈ m.2).
Proof.
  intros [Hn Hs]. unfold acc_ok, add_module, gathered. destruct m as [source vs]. cbn [fst snd].
  destruct (acc.2 !! source) as [seen|] eqn:E; cbn [fst snd].
  - assert (source ∈ acc.1) as Hin by (apply Hs; by eexists). split_and!; [done| | |exists []; by rewrite app_nil_r|].
    + intros s. rewrite lookup_insert_is_Some, Hs. split; [|naive_solver]. destruct (decide (source = s)) as [->|]; [|naive_solver].
      rewrite E. naive_solver.
    + set_solver.
    + intros s v. destruct (decide (source = s)) as [<-|Hne].
      * rewrite lookup_insert_eq, E. cbn [from_option id]. rewrite elem_of_union, elem_of_list_to_set, list_elem_of_filter. naive_solver.
      * rewrite lookup_insert_ne by done. naive_solver.
  - assert (source ∉ acc.1) as Hin by (rewrite Hs, E; by intros [? ?]). split_and!; [| | |by eexists|].
    + apply NoDup_app. split; [done|]. split; [set_solver|apply NoDup_singleton].
    + intros s. rewrite elem_of_app, list_elem_of_singleton, lookup_insert_is_Some, Hs.
      destruct (decide (source = s)) as [->|]; naive_solver.
    + set_solver.
    + intros s v. destruct (decide (source = s)) as [<-|Hne].
      * rewrite lookup_insert_eq, E. cbn [from_option id]. rewrite elem_of_list_to_set, list_elem_of_filter, elem_of_empty. naive_solver.
      * rewrite lookup_insert_ne by done. naive_solver.
Qed.
Lemma add_modules_spec ms acc : acc_ok acc ->
  acc_ok (foldl add_module acc ms) /\ (forall s, s ∈ (foldl add_module acc ms).1 <-> s ∈ acc.1 \/ exists vs, (s, vs) ∈ ms)
  /\ forall s v, gathered (foldl add_module acc ms) s v <-> gathered acc s v \/ (v <> "" /\ exists vs, (s, vs) ∈ ms /\ v ∈ vs).
Proof.
  revert acc. induction ms as [|[source vs] ms IH]; intros acc Ha; simpl; [set_solver|].
  destruct (add_module_spec acc (source, vs) Ha) as (H1 & H2 & _ & H3). destruct (IH _ H1) as (I1 & I2 & I3).
  split; [done|]. split.
  - intros s. rewrite I2, H2. simpl. set_solver.
  - intros s v. rewrite I3, H3. simpl. set_solver.
Qed.
Lemma merge_parts_spec unmarshal parts acc acc' : acc_ok acc -> merge_parts unmarshal parts acc = Some acc' ->
  acc_ok acc'
  /\ (forall s, s ∈ acc'.1 <-> s ∈ acc.1 \/ exists p ms vs, p ∈ parts /\ unmarshal p.2 = Some ms /\ (s, vs) ∈ ms)
  /\ forall s v, gathered acc' s v <-> gathered acc s v \/ (v <> "" /\ exists p ms vs, p ∈ parts /\ unmarshal p.2 = Some ms
       /\ (s, vs) ∈ ms /\ v ∈ vs).
Proof.
  revert acc. induction parts as [|[n body] parts IH]; intros acc Ha; simpl.
  { intros [= <-]. split; [done|]. split.
    - intros s. split; [by left|]. by intros [?|(? & ? & ? & ?%elem_of_nil & _)].
    - intros s v. split; [by left|]. by intros [?|(_ & ? & ? & ? & ?%elem_of_nil & _)]. }
  destruct (unmarshal body) as [ms|] eqn:E; [|done]. destruct (add_modules_spec ms acc Ha) as (H1 & H2 & H3).
  intros Hm. destruct (IH _ H1 Hm) as (I1 & I2 & I3). split; [done|]. split.
  - intros s. rewrite I2, H2. split.
    + intros [[?|[vs ?]]|(p & ms' & vs & ? & ? & ?)]; [by left| |]; right;
        [exists (n, body), ms, vs|exists p, ms', vs]; set_solver.
    + intros [?|(p & ms' & vs & [->|?]%elem_of_cons & Hu & ?)]; [by left; left| |]; [|right; by exists p, ms', vs].
      left. right. exists vs. cbn in Hu. by simplify_eq.
  - intros s v. rewrite I3, H3. split.
    + intros [[?|(? & vs & ? & ?)]|(? & p & ms' & vs & ? & ? & ? & ?)]; [by left| |]; right; (split; [done|]);
        [exists (n, body), ms, vs|exists p, ms', vs]; set_solver.
    + intros [?|(? & p & ms' & vs & [->|?]%elem_of_cons & Hu & ? & ?)]; [by left; left| |].
      * left. right. split; [done|]. exists vs. cbn in Hu. by simplify_eq.
      * right. split; [done|]. by exists p, ms', vs.
Qed.

(** A group shows every version of every member. The merged document lists
    each module some member lists exactly once, and of each module exactly the
    versions some member lists; where those are comparable they come in version
    order, and every process writes the same. *)
Theorem tf_merge_union (G1 G2 : GoRuntime) marshal unmarshal f i parts body :
  @Merge G1 marshal unmarshal f i parts = Ok body ->
  exists modules : list (string * list string), body = marshal (versions_json modules) /\ NoDup modules.*1
    /\ (forall s, s ∈ modules.*1 <-> exists p ms vs, p ∈ parts /\ unmarshal p.2 = Some ms /\ (s, vs) ∈ ms)
    /\ (forall s vs, (s, vs) ∈ modules -> NoDup vs
          /\ (forall v, v ∈ vs <-> v <> "" /\ exists p ms vs', p ∈ parts /\ unmarshal p.2 = Some ms /\ (s, vs') ∈ ms /\ v ∈ vs')
          /\ (total_less version_less vs -> ascending version_less vs))
    /\ ((forall s vs, (s, vs) ∈ modules -> total_less version_less vs) -> @Merge G2 marshal unmarshal f i parts = Ok body).
Proof.
  unfold Merge. destruct (merge_parts unmarshal parts ([], ∅)) as [acc|] eqn:Em; [|done].
  destruct acc as [order seen]. cbn [fst]. destruct order as [|o order]; [done|]. set (acc := (o :: order, seen)) in *. intros [= <-].
  destruct (merge_parts_spec unmarshal parts ([], ∅) acc) as ((Hn & Hs) & H2 & H3); [|done|].
  { split; [constructor|]. intros s. cbn. rewrite lookup_empty. split; [by intros ?%elem_of_nil|by intros [? ?]]. }
  assert (forall s v, ~ gathered ([], ∅) s v) as Hempty by (intros s v; unfold gathered; cbn; rewrite lookup_empty; set_solver).
  exists (@merged_modules G1 acc). split; [done|].
  assert ((@merged_modules G1 acc).*1 = acc.1) as Hfst by (unfold merged_modules; rewrite <-list_fmap_compose; apply list_fmap_id).
  rewrite Hfst. split; [done|]. split; [intros s; rewrite H2; set_solver|].
  assert (forall s vs, (s, vs) ∈ @merged_modules G1 acc -> vs ≡ₚ elements (default ∅ (acc.2 !! s))
     /\ (total_less version_less vs -> ascending version_less vs)) as Hm.
  { intros s vs (s' & [= -> ->] & _)%list_elem_of_fmap.
    assert (@gosort G1 _ version_less (@visit G1 _ (elements (default ∅ (acc.2 !! s')))) ≡ₚ elements (default ∅ (acc.2 !! s'))) as Hp
      by by rewrite gosort_perm, visit_perm.
    split; [done|]. intros Ht. apply gosort_sorted. eapply total_less_perm; [|exact Ht]. by rewrite gosort_perm. }
  split.
  - intros s vs [Hp Ho]%Hm. split; [rewrite Hp; apply NoDup_elements|]. split; [|done]. intros v.
    rewrite Hp, elem_of_elements. fold (gathered acc s v). rewrite H3. set_solver.
  - intros Ht. do 3 f_equal. unfold merged_modules. apply list_fmap_ext. intros k s Hk. f_equal. apply gosort_same; [|by rewrite !visit_perm].
    assert ((s, @gosort G1 _ version_less (@visit G1 _ (elements (default ∅ (acc.2 !! s))))) ∈ @merged_modules G1 acc) as Hin.
    { apply list_elem_of_fmap. exists s. split; [done|]. by eapply list_elem_of_lookup_2. }
    eapply total_less_perm; [|exact (Ht _ _ Hin)]. by rewrite gosort_perm, !visit_perm.
Qed.

(** Versions that compare equal without being the same, as [v1.0.0] and
    [1.0.0], come in an order that depends on the run, and three versions can
    go round in a circle. *)
Theorem tf_merge_unstable :
  let acc : list string * gmap string (gset string) := (["a/b/c"], {[ "a/b/c" := {[ "1.0.0"; "v1.0.0" ]} ]}) in
  compareModuleVersions "1.0.0" "v1.0.0" = 0
  /\ @merged_modules plain_runtime acc <> @merged_modules backward_runtime acc.
Proof. split; [reflexivity|]. vm_compute. discriminate. Qed.
Theorem tf_order_circular :
  compareModuleVersions "1.0.10" "1.0.1a" = -1 /\ compareModuleVersions "1.0.1a" "1.0.9" = -1
  /\ compareModuleVersions "1.0.9" "1.0.10" = -1.
Proof. done. Qed.
End Terraform.
