(* ===== verification/Gc.v ===== *)
(** * The garbage collector ([cmd/fondaco/gc.go])

    Mark and sweep over the blob store: the digests named by hosted rows, by
    open conflicts and by manifests are marked, and blobs that are neither
    marked nor young are deleted, like staged upload chunks that are not
    young. The run is not alone: between any two of its operations other
    processes publish, ingest and replicate. [other n] is what they do before
    the [n]-th operation, [fault n] tells that this operation fails. *)

From S2P Require Import Prelude GoLib State StateTheory Store Listing Pipeline Config.
Open Scope Z_scope.

Module Gc.
Import Config.

Definition blobPrefix : string := "blobs/sha256/".
Definition StagingPrefix : string := "uploads/".
Definition manifest_limit : Z := 2 ^ 20.

Section collector.
Context {sha256 : string -> string} {St : Type} {BS : BlobStore sha256 St} {BL : BlobLister BS}.

(** A site's tables, if it has a database, and its store; for the statements,
    the deletions of the run so far, each with the tables and the store just
    before it. *)
Record World := mkWorld { gw_db : option DB; gw_store : St; gw_deleted : list (string * (option DB * St)) }.
Definition with_store (w : World) (st : St) : World := mkWorld (gw_db w) st (gw_deleted w).

Context (parseManifestSHA : string -> option string).
Context (other : nat -> World -> World) (fault : nat -> bool).

(** [manifestDigest]: the empty digest for an object that is gone. *)
Definition manifestDigest (key : string) (st : St) : result string string :=
  match Get key st with
  | Err ErrNotFound => Ok ""
  | Err _ => Err "read manifest"
  | Ok o => match parseManifestSHA (limit_read manifest_limit (o_body o)) with
            | Some d => Ok d
            | None => Err "read manifest"
            end
  end.

(** *** Marking *)

Definition mark_hosted (db : DB) : list string := (fun row => h_sha256 row.2) <$> ListHosted "" "" db.
Definition mark_conflicts (db : DB) : list string :=
  mjoin ((fun c => [c_winner c; c_loser c]) <$> open_conflicts db).

(** The two queries, each on the tables as they are then. *)
Definition mark_database (n : nat) (w : World) : nat * World * result string (gset string) :=
  let w := other n w in
  match gw_db w with
  | None => (S n, w, Ok ∅)
  | Some db =>
      if fault n then (S n, w, Err "list hosted manifests") else
      let rows := mark_hosted db in
      let w := other (S n) w in
      match gw_db w with
      | None => (S (S n), w, Err "list publish conflicts")
      | Some db =>
          if fault (S n) then (S (S n), w, Err "list publish conflicts")
          else (S (S n), w, Ok (list_to_set (rows ++ mark_conflicts db)))
      end
  end.

Fixpoint mark_manifests (n : nat) (keys : list string) (w : World) (referenced : gset string)
  : nat * World * result string (gset string) :=
  match keys with
  | [] => (n, w, Ok referenced)
  | k :: keys =>
      let w := other n w in
      if fault n then (S n, w, Err "walk manifests") else
      match manifestDigest k (gw_store w) with
      | Err e => (S n, w, Err e)
      | Ok d => mark_manifests (S n) keys w (if decide (d = "") then referenced else {[ d ]} ∪ referenced)
      end
  end.

(** *** Sweeping *)

Record report := mkReport { gr_kept : Z; gr_collected : Z; gr_freed : Z }.
Definition keep (r : report) : report := mkReport (gr_kept r + 1) (gr_collected r) (gr_freed r).
Definition collect (o : Obj) (r : report) : report :=
  mkReport (gr_kept r) (gr_collected r + 1) (gr_freed r + o_size o).

(** The digest in a blob's key: what follows the last slash. *)
Definition key_digest (key : string) : string := default "" (last (split key "/"%char)).

(** Deleting, where a missing object is none of the run's business. *)
Definition remove (key : string) (w : World) : World * option string :=
  let '(st, e) := Delete key (gw_store w) in
  (mkWorld (gw_db w) st ((key, (gw_db w, gw_store w)) :: gw_deleted w), match e with None | Some ErrNotFound => None | Some _ => Some "delete" end).

(** Listed objects that [doomed] selects are deleted, unless it is a dry run. *)
Fixpoint sweep_objects (doDelete : bool) (doomed : string * Obj -> bool) (n : nat) (infos : list (string * Obj))
    (w : World) (r : report) : nat * World * result string report :=
  match infos with
  | [] => (n, w, Ok r)
  | info :: infos =>
      let w := other n w in
      if fault n then (S n, w, Err "walk") else
      if negb (doomed info) then sweep_objects doDelete doomed (S n) infos w (keep r)
      else if negb doDelete then sweep_objects doDelete doomed (S n) infos w (collect info.2 r)
      else match remove info.1 w with
           | (w, Some e) => (S n, w, Err e)
           | (w, None) => sweep_objects doDelete doomed (S n) infos w (collect info.2 r)
           end
  end.

(** Old and not marked. *)
Definition unreferenced (referenced : gset string) (cutoff : Z) (info : string * Obj) : bool :=
  bool_decide (key_digest info.1 ∉ referenced) && (o_modtime info.2 <=? cutoff).
Definition abandoned (cutoff : Z) (info : string * Obj) : bool := o_modtime info.2 <=? cutoff.

(** [sweepStaging]: a store in which nothing was ever staged lists nothing. *)
Definition sweepStaging (doDelete : bool) (cutoff : Z) (n : nat) (w : World) : nat * World * result string report :=
  let w := other n w in
  match List StagingPrefix (gw_store w) with
  | Err ErrNotFound => (S n, w, Ok (mkReport 0 0 0))
  | Err _ => (S n, w, Err "list staged uploads")
  | Ok infos => sweep_objects doDelete (abandoned cutoff) (S n) infos w (mkReport 0 0 0)
  end.

(** [sweep], at [cutoff], the time after marking less the minimal age. *)
Definition sweep (doDelete : bool) (cutoff : Z) (w : World) : World * result string (report * report) :=
  let '(n, w, r) := mark_database 0 w in
  match r with
  | Err e => (w, Err e)
  | Ok referenced =>
      let w := other n w in
      match List "manifests/" (gw_store w) with
      | Err _ => (w, Err "list manifests")
      | Ok manifests =>
          let '(n, w, r) := mark_manifests (S n) manifests.*1 w referenced in
          match r with
          | Err e => (w, Err e)
          | Ok referenced =>
              let w := other n w in
              match List blobPrefix (gw_store w) with
              | Err _ => (w, Err "list blobs")
              | Ok blobs =>
                  let '(n, w, r) := sweep_objects doDelete (unreferenced referenced cutoff) (S n) blobs w (mkReport 0 0 0) in
                  match r with
                  | Err e => (w, Err e)
                  | Ok swept =>
                      let '(_, w, r) := sweepStaging doDelete cutoff n w in
                      match r with
                      | Err e => (w, Err e)
                      | Ok staged => (w, Ok (swept, staged))
                      end
                  end
              end
          end
      end
  end.

(** *** The command *)

(** [replicationBehind]: parked events, a stream in error or with blobs
    missing, or a peer never reached. *)
Definition replicationBehind (db : DB) (peers : list PeerConfig) : bool :=
  bool_decide (repl_parked db <> [])
  || bool_decide (Exists (fun kc => LastError kc.2 <> "" \/ DurableSeq kc.2 < AppliedSeq kc.2)
                    (map_to_list (repl_cursors db)))
  || bool_decide (Exists (fun p => p ∉ (fst ∘ fst <$> map_to_list (repl_cursors db))) (pc_name <$> peers)).

(** [gcCmd], after its flags: the lock serialises collectors only. *)
Definition gcCmd (rc : ReplicationConfig) (doDelete ignoreLag : bool) (cutoff : Z) (w : World)
  : World * result string (report * report) :=
  match gw_db w with
  | None => sweep doDelete cutoff w
  | Some db =>
      if rc_enabled rc && negb ignoreLag && replicationBehind db (rc_peers rc)
      then (w, Err "refusing to sweep while replication is behind")
      else sweep doDelete cutoff w
  end.

(** ** What a run must not lose *)

(** Where a digest can be named: a hosted row, an open conflict, a manifest. *)
Inductive slot :=
| SRow (key : string * string)
| SConflict (c : ConflictRow)
| SManifest (key : string).

Definition refs (w : World) (s : slot) (d : string) : Prop :=
  match s with
  | SRow k => exists db r, gw_db w = Some db /\ hosted_manifests db !! k = Some r /\ h_sha256 r = d
  | SConflict c => exists db, gw_db w = Some db /\ c ∈ open_conflicts db /\ (d = c_winner c \/ d = c_loser c)
  | SManifest k => has_prefix k "manifests/" = true /\ d <> "" /\
      exists o, found (Get k (gw_store w)) = Some o
                /\ parseManifestSHA (limit_read manifest_limit (o_body o)) = Some d
  end.

(** Every digest of [L] that is named has its blob. (A row that a lazily
    replicated feed received has none until somebody asks for it.) *)
Definition kept (L : string -> Prop) (w : World) : Prop :=
  forall s d, refs w s d -> L d -> contains_char d "/"%char = false /\ is_Some (found (Get (blobKey d) (gw_store w))).

(** No blob was deleted while its digest was named. *)
Definition deletions_safe (w : World) : Prop :=
  forall k db st, (k, (db, st)) ∈ gw_deleted w ->
    forall s d, refs (mkWorld db st []) s d -> contains_char d "/"%char = false -> blobKey d <> k.

(** The blobs that were past the minimal age when the run began. *)
Definition aged (w0 : World) (cutoff : Z) (d : string) : Prop :=
  exists o, found (Get (blobKey d) (gw_store w0)) = Some o /\ o_modtime o <= cutoff.

(** What other processes may do during the run: the digests they name are none
    of the aged ones, with a blob or without; their writes are younger. *)
Record rely (w0 : World) (cutoff : Z) (w w' : World) : Prop := {
  rely_new : forall s d, refs w' s d -> refs w s d \/ ~ aged w0 cutoff d;
  rely_young : forall k o, found (Get k (gw_store w')) = Some o ->
    found (Get k (gw_store w)) = Some o \/ cutoff < o_modtime o;
  rely_deleted : gw_deleted w' = gw_deleted w;
}.

Section run.
Context (w0 : World) (cutoff : Z) (Hother : forall n w, rely w0 cutoff w (other n w)).
(** The others keep, of what is named, the blobs of [L]. *)
Context (L : string -> Prop) (Hkept : forall n w, kept L w -> kept L (other n w)).

(** The scanned slots name marked digests or ones whose blob was not aged. *)
Definition scanned (P : slot -> Prop) (R : gset string) (w : World) : Prop :=
  forall s d, P s -> refs w s d -> d ∈ R \/ ~ aged w0 cutoff d.
(** Old blobs are the aged ones. *)
Definition young_rest (w : World) : Prop :=
  forall d o, found (Get (blobKey d) (gw_store w)) = Some o -> o_modtime o <= cutoff -> aged w0 cutoff d.

(** What holds of the site as such, and what the run must keep. *)
Definition fine (w : World) : Prop := kept L w /\ deletions_safe w.
Definition good (P : slot -> Prop) (R : gset string) (w : World) : Prop :=
  fine w /\ young_rest w /\ scanned P R w.

Lemma scanned_other P R n w : scanned P R w -> scanned P R (other n w).
Proof.
  intros Hs s d HP Hr. destruct (rely_new _ _ _ _ (Hother n w) s d Hr); [by apply (Hs s)|by right].
Qed.
Lemma fine_other n w : fine w -> fine (other n w).
Proof.
  intros [Hk Hd]. split; [by apply Hkept|]. intros k db st. rewrite (rely_deleted _ _ _ _ (Hother n w)). apply Hd.
Qed.
Lemma good_other P R n w : good P R w -> good P R (other n w).
Proof.
  intros (Hc & Hy & Hs). split_and!; [by apply fine_other| |by apply scanned_other].
  intros d o Ho Hold. destruct (rely_young _ _ _ _ (Hother n w) _ _ Ho) as [?|?]; [by apply (Hy d o)|lia].
Qed.
Lemma good_mono (P Q : slot -> Prop) R R' w :
  good P R w -> R ⊆ R' -> (forall s d, Q s -> refs w s d -> P s \/ d ∈ R') -> good Q R' w.
Proof.
  intros (Hc & Hy & Hs) HR HQ. split_and!; [done|done|]. intros s d Hq Hr.
  destruct (HQ s d Hq Hr) as [HP|]; [|by left]. destruct (Hs s d HP Hr); [left; set_solver|by right].
Qed.

Definition in_database (s : slot) : Prop := match s with SManifest _ => False | _ => True end.

Lemma mark_database_good n w n' w' r :
  good (fun _ => False) ∅ w -> mark_database n w = (n', w', r) ->
  fine w' /\ forall R, r = Ok R -> good in_database R w'.
Proof.
  intros Hg. unfold mark_database. apply (good_other _ _ n) in Hg.
  destruct (gw_db (other n w)) as [db|] eqn:Edb.
  2: { intros [= <- <- <-]. split; [by apply Hg|]. intros R [= <-]. eapply good_mono; [exact Hg|done|].
       intros [] d; simpl; [| |done]; naive_solver congruence. }
  destruct (fault n); [intros [= <- <- <-]; split; [by apply Hg|done]|].
  assert (good (fun s => exists k, s = SRow k) (list_to_set (mark_hosted db)) (other n w)) as Hrows.
  { eapply good_mono; [exact Hg|set_solver|]. intros s d [k ->] (db' & row & E & Hk & <-). right.
    assert (db' = db) as -> by congruence. unfold mark_hosted. apply elem_of_list_to_set, list_elem_of_fmap.
    exists (k, row). split; [done|]. apply elem_of_ListHosted. split_and!; [done|by left|]. apply like_any. }
  apply (good_other _ _ (S n)) in Hrows. set (w1 := other (S n) (other n w)) in *.
  destruct (gw_db w1) as [db1|] eqn:E1; [|intros [= <- <- <-]; split; [by apply Hrows|done]].
  destruct (fault (S n)); intros [= <- <- <-]; (split; [by apply Hrows|]); [done|].
  intros R [= <-]. eapply good_mono; [exact Hrows|set_solver|].
  intros [k|c|k] d; simpl; [left; eauto| |done]. intros _ (db' & E & Hc & Hd). right.
  assert (db' = db1) as -> by congruence. rewrite list_to_set_app. apply elem_of_union_r, elem_of_list_to_set.
  unfold mark_conflicts. apply list_elem_of_join. exists [c_winner c; c_loser c].
  split; [set_solver|]. apply list_elem_of_fmap. eauto.
Qed.

(** Everything but the manifests still to read. *)
Definition but (keys : list string) (s : slot) : Prop := match s with SManifest k => k ∉ keys | _ => True end.

Lemma mark_manifests_good keys n w R n' w' r :
  good (but keys) R w -> mark_manifests n keys w R = (n', w', r) ->
  fine w' /\ forall R', r = Ok R' -> good (fun _ => True) R' w'.
Proof.
  revert n w R. induction keys as [|k keys IH]; intros n w R Hg; cbn [mark_manifests].
  { intros [= <- <- <-]. split; [by apply Hg|]. intros R' [= <-]. eapply good_mono; [exact Hg|done|].
    intros [] d _ _; left; set_solver. }
  apply (good_other _ _ n) in Hg. destruct (fault n); [intros [= <- <- <-]; split; [by apply Hg|done]|].
  destruct (manifestDigest k (gw_store (other n w))) as [d|e] eqn:Ed; [|intros [= <- <- <-]; split; [by apply Hg|done]].
  apply IH. eapply good_mono; [exact Hg|case_decide; set_solver|].
  intros [key|c|key] d' Hb Hr; [by left..|]. destruct (decide (key = k)) as [->|Hne]; [right|left; simpl; set_solver].
  destruct Hr as (_ & Hd & o & Ho & Hp). revert Ed. unfold manifestDigest.
  destruct (Get k (gw_store (other n w))) as [o'|e']; [|done]. simpl in Ho. injection Ho as ->.
  rewrite Hp. intros [= <-]. rewrite decide_False by done. set_solver.
Qed.

Lemma list_manifests_good w R infos :
  good in_database R w -> List "manifests/" (gw_store w) = Ok infos -> good (but infos.*1) R w.
Proof.
  intros Hg Hl. eapply good_mono; [exact Hg|done|]. intros [k|c|k] d Hb Hr; [by left..|]. exfalso.
  destruct Hr as (Hp & _ & o & Ho & _). apply Hb. apply list_elem_of_fmap. exists (k, o). split; [done|].
  by apply (list_objects _ _ _ _ _ Hl).
Qed.

(** Deleting an object that is neither a manifest nor a named blob. *)
Lemma remove_safe k w R :
  has_prefix k "manifests/" = false -> (forall s d, refs w s d -> contains_char d "/"%char = false -> blobKey d <> k) ->
  fine w -> scanned (fun _ => True) R w ->
  fine (remove k w).1 /\ scanned (fun _ => True) R (remove k w).1.
Proof.
  intros Hm Hk [Hc Hdel] Hs. unfold remove. pose proof (delete_local k) as Hloc.
  specialize (fun k' => Hloc k' (gw_store w)). destruct (Delete k (gw_store w)) as [st e]. simpl in *.
  set (w' := mkWorld _ st _).
  assert (forall s d, refs w' s d -> refs w s d) as Hback.
  { intros [key|c|key] d; [done..|]. simpl. intros (Hp & Hd & o & Ho & Hparse). split_and!; [done..|].
    exists o. split; [|done]. rewrite <-Ho. symmetry. apply Hloc. by intros ->; congruence. }
  split; [split|].
  - intros s d Hr%Hback HL. destruct (Hc s d Hr HL) as [? Hb]. split; [done|]. simpl. rewrite Hloc; [done|by eapply Hk].
  - intros k' db' st' [Heq|Hin]%elem_of_cons; [|by apply Hdel]. simplify_eq. intros s d Hr. apply (Hk s). by destruct s.
  - intros s d _ Hr%Hback. by apply (Hs s).
Qed.

Lemma sweep_objects_safe del doomed n infos w r R n' w' res :
  fine w -> scanned (fun _ => True) R w ->
  (forall k o, (k, o) ∈ infos -> doomed (k, o) = true -> has_prefix k "manifests/" = false
     /\ forall d, d ∈ R \/ ~ aged w0 cutoff d -> contains_char d "/"%char = false -> blobKey d <> k) ->
  sweep_objects del doomed n infos w r = (n', w', res) -> fine w' /\ scanned (fun _ => True) R w'.
Proof.
  revert n w r. induction infos as [|[k o] infos IH]; intros n w r Hc Hs Hd; cbn [sweep_objects].
  { by intros [= <- <- <-]. }
  apply (fine_other n) in Hc. apply (scanned_other _ _ n) in Hs.
  set (w1 := other n w) in *. destruct (fault n); [by intros [= <- <- <-]|].
  assert (forall k o, (k, o) ∈ infos -> doomed (k, o) = true -> has_prefix k "manifests/" = false
     /\ forall d, d ∈ R \/ ~ aged w0 cutoff d -> contains_char d "/"%char = false -> blobKey d <> k) as Hd'
    by (intros; apply (Hd k0 o0); [by right|done]).
  destruct (doomed (k, o)) eqn:Edoom; simpl; [|by apply IH].
  destruct del; simpl; [|by apply IH]. destruct (Hd k o) as [Hm Hk]; [by left|done|].
  destruct (remove_safe k w1 R Hm) as [Hc2 Hs2]; [|done|done|].
  { intros s d Hr. apply Hk. by apply (Hs s). }
  destruct (remove k w1) as [w2 [e|]]; [by intros [= <- <- <-]|by apply IH].
Qed.

Lemma key_digest_blobKey d : contains_char d "/"%char = false -> key_digest (blobKey d) = d.
Proof. intros Hd. unfold key_digest, blobKey. simpl. by rewrite split_single. Qed.

Lemma staging_other_keys k d :
  has_prefix k StagingPrefix = true -> has_prefix k "manifests/" = false /\ blobKey d <> k.
Proof.
  intros [x ->]%has_prefix_spec. split; [done|]. unfold blobKey. by intros [=].
Qed.

Lemma sweep_fine del w w' r : good (fun _ => False) ∅ w -> sweep del cutoff w = (w', r) -> fine w'.
Proof.
  intros Hg. unfold sweep.
  destruct (mark_database 0 w) as [[n1 w1] r1] eqn:E1. destruct (mark_database_good _ _ _ _ _ Hg E1) as [Hc1 H1].
  destruct r1 as [R1|e]; [|by intros [= <- <-]]. specialize (H1 R1 eq_refl). apply (good_other _ _ n1) in H1.
  destruct (List "manifests/" _) as [ms|e] eqn:El; [|intros [= <- <-]; by apply H1].
  destruct (mark_manifests _ _ _ _) as [[n2 w2] r2] eqn:E2.
  destruct (mark_manifests_good _ _ _ _ _ _ _ (list_manifests_good _ _ _ H1 El) E2) as [Hc2 H2].
  destruct r2 as [R|e]; [|by intros [= <- <-]]. specialize (H2 R eq_refl). apply (good_other _ _ n2) in H2.
  destruct (List blobPrefix _) as [bs|e] eqn:Eb; [|intros [= <- <-]; by apply H2].
  destruct (sweep_objects _ _ _ _ _ _) as [[n3 w3] r3] eqn:E3.
  destruct H2 as (Hc & Hy & Hs). eapply (sweep_objects_safe _ _ _ _ _ _ R) in E3 as [Hc3 Hs3]; [|done..|].
  2: { intros k o [Hp Ho]%(list_objects _ _ _ _ _ Eb) [Hun Hold]%andb_prop. apply bool_decide_eq_true in Hun. split.
    - apply has_prefix_spec in Hp as [x ->]. done.
    - intros d Hd Hsl <-. simpl in *. rewrite key_digest_blobKey in Hun by done. destruct Hd as [?|Ha]; [done|].
      apply Ha, (Hy d o Ho). lia. }
  destruct r3 as [sw|e]; [|by intros [= <- <-]].
  destruct (sweepStaging _ _ _ _) as [[n4 w4] r4] eqn:E4. intros Hr.
  assert (w' = w4) as -> by (destruct r4; congruence). clear Hr. revert E4. unfold sweepStaging.
  apply (fine_other n3) in Hc3. apply (scanned_other _ _ n3) in Hs3.
  destruct (List StagingPrefix _) as [chunks|[]] eqn:Es; try by intros [= <- <- <-].
  intros E4. refine (proj1 (sweep_objects_safe _ _ _ _ _ _ R _ _ _ Hc3 Hs3 _ E4)).
  intros k o [Hp _]%(list_objects _ _ _ _ _ Es) _. split; [by apply (staging_other_keys k "")|].
  intros d _ _. by apply staging_other_keys.
Qed.
End run.

(** C15. The collector deletes nothing that is in use. While other processes
    publish, ingest, replicate and decide conflicts between any two of its
    operations, and wherever it fails, it deletes no blob at a moment when a
    hosted row, an open conflict or a manifest names its digest, whether or not
    other named digests have their blobs (a lazily replicated row may have
    none), provided that the digests the others newly name are not those of
    blobs that were past the minimal age when the run began, and that their
    writes are younger than it. So whatever named digests have their blobs, and
    keep them under what the others do, still have them afterwards. *)
Theorem gc_keeps_referenced rc del ignoreLag cutoff w w' r :
  (forall n w1, rely w cutoff w1 (other n w1)) -> gw_deleted w = [] ->
  gcCmd rc del ignoreLag cutoff w = (w', r) ->
  deletions_safe w'
  /\ forall L : string -> Prop, (forall n w1, kept L w1 -> kept L (other n w1)) -> kept L w -> kept L w'.
Proof.
  intros Ho Hn Hrun.
  assert (forall L : string -> Prop, (forall n w1, kept L w1 -> kept L (other n w1)) -> kept L w -> fine L w') as H.
  { intros L HL Hc. assert (good w cutoff L (fun _ => False) ∅ w) as Hg.
    { split_and!; [split; [done|]| |by intros s d []]; [|intros d o Hg Hold; by exists o].
      intros k db st. rewrite Hn. by intros ?%elem_of_nil. }
    revert Hrun. unfold gcCmd. destruct (gw_db w) as [db|]; [|by apply (sweep_fine w cutoff Ho L HL)].
    destruct (_ && _); [intros [= <- <-]; by apply Hg|by apply (sweep_fine w cutoff Ho L HL)]. }
  split; [|intros L HL Hc; by apply H]. by apply (H (fun _ => False)).
Qed.

(** An ingest keeps to this: the blob, then the manifest that names it. *)
Lemma ingest_rely w0 cutoff w now d body o k mbody o' st1 st2 :
  cutoff < now -> ~ aged w0 cutoff d -> contains_char d "/"%char = false -> d <> "" ->
  has_prefix k "manifests/" = true -> parseManifestSHA (limit_read manifest_limit mbody) = Some d ->
  Put now (blobKey d) body o (gw_store w) = (st1, None) -> Put now k mbody o' st1 = (st2, None) ->
  rely w0 cutoff w (with_store w st2) /\ forall L, kept L w -> kept L (with_store w st2).
Proof.
  intros Hnow Ha Hd Hne Hk Hp P1 P2.
  pose proof (put_stores _ _ _ _ _ _ P1) as [_ G1]. pose proof (put_stores _ _ _ _ _ _ P2) as [_ G2].
  pose proof (fun x => put_local now (blobKey d) x body o (gw_store w)) as L1. rewrite P1 in L1. simpl in L1.
  pose proof (fun x => put_local now k x mbody o' st1) as L2. rewrite P2 in L2. simpl in L2.
  assert (forall x, x <> k -> x <> blobKey d -> found (Get x st2) = found (Get x (gw_store w))) as Hframe
    by (intros x ??; by rewrite L2, L1).
  assert (k <> blobKey d) as Hkd by (intros ->; by apply has_prefix_spec in Hk as [? [=]]).
  assert (forall s d', refs (with_store w st2) s d' -> refs w s d' \/ s = SManifest k /\ d' = d) as Hback.
  { intros [kk|c|key] d'; [by left..|]. simpl. intros (Hpre & Hd' & ob & Ho & Hpar).
    destruct (decide (key = k)) as [->|Hkk].
    - right. rewrite G2 in Ho. injection Ho as <-. simpl in Hpar. split; [done|congruence].
    - left. split_and!; [done..|]. exists ob. split; [|done]. rewrite <-Ho. symmetry. apply Hframe; [done|].
      intros ->. by apply has_prefix_spec in Hpre as [? [=]]. }
  split; [split|].
  - intros s d' [?|[-> ->]]%Hback; [by left|by right].
  - intros x ob. simpl. destruct (decide (x = k)) as [->|Hx]; [rewrite G2; intros [= <-]; by right|].
    destruct (decide (x = blobKey d)) as [->|Hx'].
    + rewrite L2 by done. rewrite G1. intros [= <-]. by right.
    + rewrite Hframe by done. by left.
  - done.
  - intros L Hc s d' [Hr|[-> ->]]%Hback HL; simpl.
    + destruct (Hc s d' Hr HL) as [? Hb]. split; [done|]. destruct (decide (d' = d)) as [->|Hdd].
      * rewrite L2 by done. rewrite G1. eauto.
      * rewrite Hframe; [done| |]; [|intros He; apply Hdd; by injection He].
        intros He. rewrite <-He in Hk. by apply has_prefix_spec in Hk as [? [=]].
    + split; [done|]. rewrite L2 by done. rewrite G1. eauto.
Qed.

(** *** A run on its own *)

Section quiet.
Context (Hquiet : forall n w, other n w = w).

Lemma mark_database_marks n w n' w' R :
  mark_database n w = (n', w', Ok R) -> w' = w /\ forall d, d ∈ R <-> exists s, in_database s /\ refs w s d.
Proof.
  unfold mark_database. rewrite !Hquiet. destruct (gw_db w) as [db|] eqn:E.
  2: { intros [= _ <- <-]. split; [done|]. intros d. split; [set_solver|].
       intros ([k|c|k] & Hs & Hr); simpl in *; naive_solver congruence. }
  destruct (fault n), (fault (S n)); try done. intros [= _ <- <-]. split; [done|]. intros d.
  rewrite elem_of_list_to_set, elem_of_app. unfold mark_hosted, mark_conflicts.
  rewrite list_elem_of_fmap, list_elem_of_join. split.
  - intros [([k row] & -> & (Hk & _)%elem_of_ListHosted)|(l & Hd & (c & -> & Hc)%list_elem_of_fmap)].
    + exists (SRow k). split; [done|]. simpl. eauto.
    + exists (SConflict c). split; [done|]. simpl. exists db. split_and!; [done..|set_solver].
  - intros ([k|c|k] & Hs & Hr); simpl in *; [| |done].
    + destruct Hr as (db' & row & E' & Hk & <-). assert (db' = db) as -> by congruence. left. exists (k, row).
      split; [done|]. apply elem_of_ListHosted. split_and!; [done|by left|apply like_any].
    + destruct Hr as (db' & E' & Hc & Hd). assert (db' = db) as -> by congruence. right.
      exists [c_winner c; c_loser c]. split; [set_solver|]. apply list_elem_of_fmap. eauto.
Qed.

Lemma mark_manifests_marks n keys w R n' w' R' :
  (forall k, k ∈ keys -> has_prefix k "manifests/" = true) ->
  mark_manifests n keys w R = (n', w', Ok R') ->
  w' = w /\ forall d, d ∈ R' <-> d ∈ R \/ exists k, k ∈ keys /\ refs w (SManifest k) d.
Proof.
  revert n R. induction keys as [|k keys IH]; intros n R Hp; cbn [mark_manifests].
  { intros [= <- <- <-]. split; [done|]. set_solver. }
  rewrite Hquiet. destruct (fault n); [done|]. destruct (manifestDigest k (gw_store w)) as [d0|] eqn:Ed; [|done].
  intros H. apply IH in H as [-> HR]; [|set_solver]. split; [done|]. intros d. rewrite HR.
  setoid_rewrite elem_of_cons.
  assert (d ∈ (if decide (d0 = "") then R else {[d0]} ∪ R) <-> d ∈ R \/ refs w (SManifest k) d) as ->.
  2: { split; [intros [[?|?]|(k' & ? & ?)]; eauto|intros [?|(k' & [->|?] & ?)]; eauto]. }
  revert Ed. unfold manifestDigest. simpl. destruct (Get k (gw_store w)) as [o|[]] eqn:Eg; try done; simpl.
  - destruct (parseManifestSHA _) as [d1|] eqn:E1; [|done]. intros [= <-].
    assert (has_prefix k "manifests/" = true) by (apply Hp; by left). case_decide; set_solver.
  - intros [= <-]. rewrite decide_True by done. naive_solver.
Qed.

(** What a pass over listed objects deletes. *)
Definition hit (doomed : string * Obj -> bool) (infos : list (string * Obj)) (k : string) : bool :=
  existsb (fun i => bool_decide (i.1 = k) && doomed i) infos.

Lemma sweep_objects_exact del doomed n infos w r n' w' res :
  sweep_objects del doomed n infos w r = (n', w', Ok res) ->
  gw_db w' = gw_db w /\ (del = false -> w' = w)
  /\ (del = true -> forall k, found (Get k (gw_store w'))
        = if hit doomed infos k then None else found (Get k (gw_store w))).
Proof.
  revert n w r. induction infos as [|[k0 o0] infos IH]; intros n w r; cbn [sweep_objects].
  { intros [= <- <- <-]. done. }
  rewrite Hquiet. destruct (fault n); [done|]. destruct (doomed (k0, o0)) eqn:Ed; simpl.
  2: { intros H. apply IH in H as (H1 & H2 & H3). split_and!; [done..|]. intros Hdel k. rewrite H3 by done.
       by rewrite Ed, andb_false_r. }
  destruct del; simpl; [|intros H; apply IH in H as (H1 & H2 & H3); done].
  unfold remove. pose proof (delete_local k0) as Hloc. specialize (fun k' => Hloc k' (gw_store w)).
  destruct (Delete k0 (gw_store w)) as [st e] eqn:Edel. simpl in Hloc.
  assert (forall w1, gw_db w1 = gw_db w -> gw_store w1 = st -> found (Get k0 st) = None ->
    sweep_objects true doomed (S n) infos w1 (collect o0 r) = (n', w', Ok res) ->
    gw_db w' = gw_db w /\ (true = false -> w' = w) /\ (true = true -> forall k, found (Get k (gw_store w'))
      = if bool_decide (k0 = k) && doomed (k0, o0) || hit doomed infos k then None else found (Get k (gw_store w)))) as Hgo.
  { intros w1 Hdb Hst Hnone H. apply IH in H as (H1 & H2 & H3). split_and!; [congruence|done|]. intros _ k.
    rewrite H3, Hst by done. rewrite Ed, andb_true_r. case_bool_decide as Hk; simpl.
    - subst. rewrite Hnone. by destruct (hit _ _ _).
    - rewrite Hloc by done. done. }
  destruct e as [[]|]; try done; intros H; (refine (Hgo _ _ _ _ H); [done|done|]).
  - by eapply delete_missing.
  - by eapply delete_removes.
Qed.

(** The objects a run collects: old, and either an unmarked blob or staged. *)
Definition garbage (cutoff : Z) (w : World) (k : string) (o : Obj) : Prop :=
  o_modtime o <= cutoff /\
  (has_prefix k blobPrefix = true /\ (forall s, ~ refs w s (key_digest k)) \/ has_prefix k StagingPrefix = true).

(** A pass over what is listed under a prefix deletes what [doomed] selects. *)
Definition spared (p : string) (doomed : string * Obj -> bool) (k : string) (o : Obj) : option Obj :=
  if has_prefix k p && doomed (k, o) then None else Some o.

Lemma pass_exact p doomed n infos w r n' w' res k :
  List p (gw_store w) = Ok infos -> sweep_objects true doomed n infos w r = (n', w', Ok res) ->
  found (Get k (gw_store w')) = found (Get k (gw_store w)) ≫= spared p doomed k.
Proof.
  intros Hl (_ & _ & H)%sweep_objects_exact. rewrite (H eq_refl k). clear H.
  assert (hit doomed infos k = true <-> exists o, found (Get k (gw_store w)) = Some o
            /\ has_prefix k p && doomed (k, o) = true) as Hhit.
  { unfold hit. rewrite existsb_exists. split.
    - intros ([k' o] & Hin%list_elem_of_In & [Hk Hd]%andb_prop). apply bool_decide_eq_true in Hk. simpl in Hk. subst.
      apply (list_objects _ _ _ _ _ Hl) in Hin as [Hp Hg]. exists o. by rewrite Hp, Hd.
    - intros (o & Hg & [Hp Hd]%andb_prop). exists (k, o). split; [by apply list_elem_of_In, (list_objects _ _ _ _ _ Hl)|].
      by rewrite bool_decide_eq_true_2. }
  unfold spared. destruct (found (Get k (gw_store w))) as [o|] eqn:Eo; simpl; [|by destruct (hit _ _ _)].
  destruct (hit doomed infos k); [destruct (proj1 Hhit eq_refl) as (o' & [= <-] & ->); done|].
  destruct (_ && _) eqn:Ed; [|done]. discriminate (proj2 Hhit (ex_intro _ o (conj eq_refl Ed))).
Qed.

Lemma sweep_marks_all del cutoff w w' r :
  sweep del cutoff w = (w', Ok r) ->
  exists R n blobs n' w1, (forall d, d ∈ R <-> exists s, refs w s d) /\ List blobPrefix (gw_store w) = Ok blobs
    /\ sweep_objects del (unreferenced R cutoff) n blobs w (mkReport 0 0 0) = (n', w1, Ok r.1)
    /\ exists n'', sweepStaging del cutoff n' w1 = (n'', w', Ok r.2).
Proof.
  unfold sweep. destruct (mark_database 0 w) as [[n1 w1] [R1|]] eqn:E1; [|done].
  apply mark_database_marks in E1 as [-> H1]. rewrite !Hquiet.
  destruct (List "manifests/" (gw_store w)) as [ms|] eqn:El; [|done].
  destruct (mark_manifests _ _ _ _) as [[n2 w2] [R|]] eqn:E2; [|done].
  apply mark_manifests_marks in E2 as [-> H2].
  2: { intros k ([k' o] & -> & Hin)%list_elem_of_fmap. by apply (list_objects _ _ _ _ _ El) in Hin as [? _]. }
  rewrite !Hquiet. destruct (List blobPrefix (gw_store w)) as [bs|] eqn:Eb; [|done].
  destruct (sweep_objects _ _ _ _ _ _) as [[n3 w3] [sw|]] eqn:E3; [|done].
  destruct (sweepStaging _ _ _ _) as [[n4 w4] [stg|]] eqn:E4; [|done]. intros [= <- <-].
  exists R, (S n2), bs, n3, w3. split_and!; [|done..|by exists n4]. intros d. rewrite H2, H1. split.
  - intros [(s & _ & Hs)|(k & _ & Hk)]; eauto.
  - intros [[k|c|k] Hr]; [left; by exists (SRow k)|left; by exists (SConflict c)|right]. exists k. split; [|done].
    destruct Hr as (Hp & _ & o & Ho & _). apply list_elem_of_fmap. exists (k, o). split; [done|].
    by apply (list_objects _ _ _ _ _ El).
Qed.

Lemma staging_exact del cutoff n w n' w' r :
  sweepStaging del cutoff n w = (n', w', Ok r) ->
  gw_db w' = gw_db w /\ (del = false -> w' = w)
  /\ (del = true -> forall k, found (Get k (gw_store w')) =
        found (Get k (gw_store w)) ≫= spared StagingPrefix (abandoned cutoff) k).
Proof.
  unfold sweepStaging. rewrite Hquiet. destruct (List StagingPrefix (gw_store w)) as [infos|[]] eqn:El; try done.
  - intros H. pose proof (sweep_objects_exact _ _ _ _ _ _ _ _ _ H) as (H1 & H2 & _). split_and!; [done..|].
    intros -> k. by eapply pass_exact.
  - intros [= <- <- <-]. split_and!; [done..|]. intros _ k. unfold spared.
    destruct (found (Get k (gw_store w))) as [o|] eqn:Eo; [|done]. simpl.
    destruct (has_prefix k StagingPrefix) eqn:Ep; [|done]. by rewrite (list_nothing _ _ _ El Ep) in Eo.
Qed.

(** A run on its own collects exactly the garbage. When it succeeds, an
    object is gone if and only if it was older than the minimal age and either
    a blob that no row, open conflict or manifest names or a staged upload
    chunk; every other object is as it was, and a dry run changes nothing. *)
Theorem gc_collects_garbage del cutoff w w' r :
  sweep del cutoff w = (w', Ok r) ->
  gw_db w' = gw_db w /\ (del = false -> w' = w)
  /\ (del = true -> forall k,
        (found (Get k (gw_store w)) = None -> found (Get k (gw_store w')) = None)
        /\ forall o, found (Get k (gw_store w)) = Some o ->
             (garbage cutoff w k o -> found (Get k (gw_store w')) = None)
             /\ (~ garbage cutoff w k o -> found (Get k (gw_store w')) = Some o)).
Proof.
  intros (R & n & bs & n1 & w1 & HR & Eb & Es & n2 & Et)%sweep_marks_all.
  pose proof (sweep_objects_exact _ _ _ _ _ _ _ _ _ Es) as (H1 & H2 & _).
  destruct (staging_exact _ _ _ _ _ _ _ Et) as (H3 & H4 & H5). split; [congruence|]. split; [naive_solver congruence|].
  intros -> k. rewrite (H5 eq_refl k), (pass_exact _ _ _ _ _ _ _ _ _ k Eb Es). split; [by intros ->|].
  intros o ->. simpl. unfold spared, garbage, unreferenced, abandoned. simpl.
  assert (key_digest k ∉ R <-> forall s, ~ refs w s (key_digest k)) as HR' by (rewrite HR; naive_solver).
  destruct (Z.leb_spec (o_modtime o) cutoff) as [Ho|Ho]; rewrite ?andb_true_r, ?andb_false_r.
  2: { simpl. rewrite (proj2 (Z.leb_gt _ _) Ho), andb_false_r. split; [intros [? _]; lia|done]. }
  destruct (has_prefix k blobPrefix) eqn:Ep; simpl.
  - case_bool_decide as Hd; simpl; [split; [done|]; intros []; split; [done|left; naive_solver]|].
    rewrite (proj2 (Z.leb_le _ _) Ho). assert (has_prefix k StagingPrefix = false) as -> by (apply has_prefix_spec in Ep as [x ->]; done).
    split; [|done]. intros [_ [[_ ?]|?]]; [|done]. exfalso. by apply (proj2 HR').
  - rewrite (proj2 (Z.leb_le _ _) Ho). destruct (has_prefix k StagingPrefix); simpl; split; try done; intuition done.
Qed.
End quiet.
End collector.

(** A replica may delete only when its streams are in order. *)
Lemma behind_spec db peers :
  replicationBehind db peers = false ->
  repl_parked db = []
  /\ (forall k c, repl_cursors db !! k = Some c -> LastError c = "" /\ AppliedSeq c <= DurableSeq c)
  /\ (forall p, p ∈ peers -> exists origin c, repl_cursors db !! (pc_name p, origin) = Some c).
Proof.
  unfold replicationBehind. intros [[Hp Hc]%orb_false_iff Hn]%orb_false_iff.
  apply bool_decide_eq_false in Hp, Hc, Hn. split_and!.
  - by destruct (repl_parked db); [|destruct Hp].
  - intros k c Hk. rewrite Exists_exists in Hc. destruct (decide (LastError c = "")) as [->|He].
    + split; [done|]. destruct (Z_le_gt_dec (AppliedSeq c) (DurableSeq c)); [done|]. destruct Hc. exists (k, c).
      split; [by apply elem_of_map_to_list|]. right. simpl. lia.
    + destruct Hc. exists (k, c). split; [by apply elem_of_map_to_list|by left].
  - intros p Hin. destruct (decide (pc_name p ∈ (fst ∘ fst <$> map_to_list (repl_cursors db)))) as [Hd|Hd].
    + apply list_elem_of_fmap in Hd as ([[q origin] c] & -> & Hl%elem_of_map_to_list). eauto.
    + destruct Hn. apply Exists_exists. exists (pc_name p). split; [by apply list_elem_of_fmap_2|done].
Qed.
End Gc.

(** ** Examples *)

Module GcDemo.
Import Gc.

(** Manifests are the digest itself here. *)
Definition parse (body : string) : option string := Some body.
Notation St := (World (St := FS)).
Notation sha := toy_sha256.

Definition put (now : Z) (k body : string) (st : FS) : FS := (fs_put sha now k body no_opts st).1.

(** Stored at 0: a blob with its manifest and one without. Stored at 90: a
    staged chunk. *)
Definition store : FS :=
  put 90 "uploads/images/app/u1/0" "chunk" (put 0 "manifests/npm/lib.tgz" "d1"
    (put 0 (blobKey "d2") "old" (put 0 (blobKey "d1") "lib" empty_fs))).
#[local] Strategy 100 [store].
(** A row that came by lazy replication: its blob is not here. *)
Definition tables : DB := set_hosted empty_db {[ ("npm", "far.tgz") := mkHosted "far" "d9" 3 ∅ ∅ false "" "" "" ]}.
Definition start : St := mkWorld (Some tables) store [].
Definition alone (n : nat) (w : St) : St := w.
Definition no_fault (n : nat) : bool := false.
Definition off : Config.ReplicationConfig := Config.mkRepl false "" "" "" "" "" "" "" [] 0 0.

(** Another process takes up the old content while the blobs are listed: it
    stores the same bytes again, then names them in a manifest. *)
Definition ingest (n : nat) (w : St) : St :=
  if decide (n = 5%nat) then with_store w (put 100 "manifests/npm/old.tgz" "d2" (put 100 (blobKey "d2") "old" (gw_store w)))
  else w.
(** Another process ingests new content. *)
Definition publish_new (n : nat) (w : St) : St :=
  if decide (n = 5%nat)
  then match fs_put sha 100 (blobKey "d3") "new" no_opts (gw_store w) with
       | (st1, None) => match fs_put sha 100 "manifests/npm/new.tgz" "d3" no_opts st1 with
                        | (st2, None) => with_store w st2
                        | _ => w
                        end
       | _ => w
       end
  else w.

Lemma rely_same w0 cutoff (w : St) : rely parse w0 cutoff w w.
Proof. split; auto. Qed.
Lemma publish_new_rely n w :
  rely parse start 10 w (publish_new n w) /\ forall L, kept parse L w -> kept parse L (publish_new n w).
Proof.
  unfold publish_new. case_decide; [|split; [apply rely_same|done]].
  destruct (fs_put sha 100 (blobKey "d3") "new" no_opts (gw_store w)) as [st1 [e|]] eqn:E1; [split; [apply rely_same|done]|].
  destruct (fs_put sha 100 "manifests/npm/new.tgz" "d3" no_opts st1) as [st2 [e|]] eqn:E2; [split; [apply rely_same|done]|].
  apply (ingest_rely parse start 10 w 100 "d3" "new" no_opts "manifests/npm/new.tgz" "d3" no_opts st1 st2);
    [lia| |reflexivity|discriminate|reflexivity|vm_compute; reflexivity|exact E1|exact E2].
  intros (o & Ho & _). vm_compute in Ho. discriminate Ho.
Qed.
Lemma store_manifests k o :
  has_prefix k "manifests/" = true -> found (Get k (gw_store start)) = Some o ->
  k = "manifests/npm/lib.tgz" /\ o_body o = "d1".
Proof.
  intros Hp Ho. pose proof (fs_list_found _ store _ _ Ho Hp) as Hin.
  assert (fs_list "manifests/" store = ["manifests/npm/lib.tgz"]) as E by (vm_compute; reflexivity).
  rewrite E in Hin. apply list_elem_of_singleton in Hin as ->. vm_compute in Ho. injection Ho as <-. split; reflexivity.
Qed.
Lemma start_names s d : refs parse start s d <->
  s = SManifest "manifests/npm/lib.tgz" /\ d = "d1" \/ s = SRow ("npm", "far.tgz") /\ d = "d9".
Proof.
  split.
  - destruct s as [k|c|k].
    + intros (db & r & [= <-] & Hk & <-). right. unfold tables in Hk. simpl in Hk.
      apply lookup_singleton_Some in Hk as [<- <-]. done.
    + intros (db & [= <-] & Hc & _). vm_compute in Hc. by apply elem_of_nil in Hc.
    + intros (Hp & Hd & o & Ho & Hr). destruct (store_manifests k o Hp Ho) as [-> Hb]. left. split; [done|].
      rewrite Hb in Hr. injection Hr as <-. vm_compute. reflexivity.
  - intros [[-> ->]|[-> ->]].
    + split; [reflexivity|]. split; [discriminate|]. eexists. split; [vm_compute; reflexivity|]. vm_compute. reflexivity.
    + exists tables. eexists. split_and!; reflexivity.
Qed.
(** What is named and not the lazy row's. *)
Definition local (d : string) : Prop := d <> "d9".
Lemma start_kept : kept parse local start.
Proof.
  intros s d [[-> ->]|[-> ->]]%start_names Hl; [|by destruct Hl]. split; [done|]. eexists. vm_compute. reflexivity.
Qed.
Lemma start_d1 : found (Get (blobKey "d1") (gw_store start)) = Some (mkObj "lib" (sha "lib") 0 "").
Proof. vm_compute. reflexivity. Qed.
Lemma start_d2 : found (Get (blobKey "d2") (gw_store start)) = Some (mkObj "old" (sha "old") 0 "").
Proof. vm_compute. reflexivity. Qed.
Definition ok {E A} (r : result E A) : bool := match r with Ok _ => true | Err _ => false end.
Lemma start_runs other :
  ok (gcCmd parse other no_fault off true false 10 start).2 = true ->
  exists w' r, gcCmd parse other no_fault off true false 10 start = (w', Ok r).
Proof. destruct (gcCmd _ _ _ _ _ _ _ _) as [w' [r|e]]; [eauto|done]. Qed.
Lemma runs_new : ok (gcCmd parse publish_new no_fault off true false 10 start).2 = true.
Proof. vm_compute. reflexivity. Qed.
Lemma runs_alone : ok (gcCmd parse alone no_fault off true false 10 start).2 = true.
Proof. vm_compute. reflexivity. Qed.
End GcDemo.

Lemma gc_keeps_referenced_witness :
  exists w' r, Gc.gcCmd GcDemo.parse GcDemo.publish_new GcDemo.no_fault GcDemo.off true false 10 GcDemo.start = (w', Ok r)
    /\ Gc.deletions_safe GcDemo.parse w' /\ Gc.kept GcDemo.parse GcDemo.local w'.
Proof.
  destruct (GcDemo.start_runs _ GcDemo.runs_new) as (w' & r & E). exists w', r. split; [exact E|].
  destruct (Gc.gc_keeps_referenced GcDemo.parse GcDemo.publish_new GcDemo.no_fault GcDemo.off true false 10 GcDemo.start w' (Ok r))
    as [Hd Hk]; [intros n w; apply GcDemo.publish_new_rely|reflexivity|exact E|]. split; [exact Hd|].
  apply Hk; [intros n w; apply GcDemo.publish_new_rely|exact GcDemo.start_kept].
Defined.

Lemma gc_collects_garbage_witness :
  exists w' r, Gc.sweep GcDemo.parse GcDemo.alone GcDemo.no_fault true 10 GcDemo.start = (w', Ok r)
    /\ found (Get (blobKey "d2") (Gc.gw_store w')) = None /\ is_Some (found (Get (blobKey "d1") (Gc.gw_store w'))).
Proof.
  destruct (GcDemo.start_runs _ GcDemo.runs_alone) as (w' & r & E). exists w', r. split; [exact E|].
  destruct (Gc.gc_collects_garbage GcDemo.parse GcDemo.alone GcDemo.no_fault (fun _ _ => eq_refl) true 10 GcDemo.start w' r E)
    as (_ & _ & H). specialize (H eq_refl). split.
  - apply (proj2 (H (blobKey "d2")) _ GcDemo.start_d2). split; [discriminate|]. left. split; [reflexivity|].
    intros s [[_ Hd]|[_ Hd]]%GcDemo.start_names; discriminate Hd.
  - eexists. apply (proj2 (H (blobKey "d1")) _ GcDemo.start_d1). intros [_ [[_ Hn]|Hs]]; [|discriminate Hs].
    apply (Hn (Gc.SManifest "manifests/npm/lib.tgz")), GcDemo.start_names. left. split; reflexivity.
Defined.

(** The minimal age does not protect content that is taken up again: an
    ingest of the same bytes between the listing and the deletion leaves a
    manifest whose blob is gone. *)
Theorem collector_races_reuse :
  let run := Gc.gcCmd GcDemo.parse GcDemo.ingest GcDemo.no_fault GcDemo.off true false 10 GcDemo.start in
  GcDemo.ok run.2 = true
  /\ o_body <$> found (Get "manifests/npm/old.tgz" (Gc.gw_store run.1)) = Some "d2" /\ GcDemo.parse "d2" = Some "d2"
  /\ found (Get (blobKey "d2") (Gc.gw_store run.1)) = None.
Proof. split_and!; vm_compute; reflexivity. Qed.

(** A stream that is no longer polled counts as in order: what a peer has
    announced since is not compared with. *)
Theorem stalled_stream_not_behind :
  Gc.replicationBehind (set_cursors empty_db {[ ("b", "b") := mkCursor 5 5 (Some 0) "" None ]})
    [Config.mkPeer "b" "https://b" "" 0] = false.
Proof. vm_compute. reflexivity. Qed.
