(* ===== verification/Converge.v ===== *)
(** * Convergence of the mesh

    A site as a state machine: batches from peers, retries of parked events,
    local publishes and operator decisions, in any order. Every site's state
    of an immutable path is a function of the set of events its journal
    records: rule K1 serves the smallest digest, keeps every digest that was
    seen, and reports a conflict exactly when two digests were published. So
    sites that recorded the same events agree, whatever the order, the
    duplicates and the other traffic.

    [log] is what each origin's journal says: the entry it filed under each
    sequence number. *)

From S2P Require Import Prelude State StateTheory Events ReplSql Applier Safety Store Pipeline Publisher.
Open Scope Z_scope.

(** The digest an event publishes at a path. *)
Definition puts (e : JournalEntry) (f p d : string) : Prop :=
  exists pm, Kind e = KindManifestPut /\ decode_manifest_put (Payload e) = Some pm /\
    mp_feed pm = f /\ mp_path pm = p /\ mp_sha256 pm = d.

(** The conflicts recorded for a path. *)
Definition conflict_of (db : DB) (f p : string) (c : ConflictRow) : Prop :=
  c ∈ publish_conflicts db /\ c_feed c = f /\ c_path c = p.

(** What rule K1 promises of a path when the digests published there are
    [D]: unless an operator decided, the smallest is served, every recorded
    conflict is open and between two of them, and there is one when there are
    two. *)
Record K1 (f p : string) (D : string -> Prop) (db : DB) : Prop := {
  k1_closed : forall c, conflict_of db f p c -> c_resolved c <> None ->
    is_Some (conflict_resolutions db !! (f, p));
  k1_served : conflict_resolutions db !! (f, p) = None ->
    match hosted_manifests db !! (f, p) with
    | None => forall d, ~ D d
    | Some r => h_mutable r = false /\ D (h_sha256 r) /\ forall d, D d -> ~ str_lt d (h_sha256 r)
    end;
  k1_sound : conflict_resolutions db !! (f, p) = None ->
    forall c, conflict_of db f p c -> D (c_winner c) /\ D (c_loser c) /\ c_winner c <> c_loser c;
  k1_complete : conflict_resolutions db !! (f, p) = None ->
    forall d1 d2, D d1 -> D d2 -> d1 <> d2 -> exists c, conflict_of db f p c;
}.

(** Two digests are on record: a conflict is open. *)
Definition conflicted (f p : string) (db : DB) : Prop :=
  exists c, conflict_of db f p c /\ c_resolved c = None.

Lemma K1_ext f p D D' db : (forall d, D d <-> D' d) -> K1 f p D db -> K1 f p D' db.
Proof.
  intros HD [H1 H2 H3 H4]. split; [done|..]; intros Hr.
  - specialize (H2 Hr). destruct (hosted_manifests db !! (f, p)).
    + destruct H2 as (? & ? & Hmin). split_and!; [done|by apply HD|]. intros d Hd. apply Hmin. by apply HD.
    + intros d Hd. apply (H2 d). by apply HD.
  - intros c Hc. destruct (H3 Hr c Hc) as (? & ? & ?). rewrite <- !HD. done.
  - intros d1 d2. rewrite <- !HD. by apply H4.
Qed.

(** [K1] reads one row, one resolution and the conflicts of its path. *)
Lemma K1_frame f p D db db' :
  hosted_manifests db' !! (f, p) = hosted_manifests db !! (f, p) ->
  conflict_resolutions db' !! (f, p) = conflict_resolutions db !! (f, p) ->
  (forall c, conflict_of db' f p c <-> conflict_of db f p c) ->
  K1 f p D db -> K1 f p D db'.
Proof.
  intros Eh Er Ec [H1 H2 H3 H4]. split; rewrite ?Er, ?Eh; try done.
  - intros c. rewrite Ec. apply H1.
  - intros Hr c. rewrite Ec. by apply H3.
  - intros Hr d1 d2 ? ? ?. destruct (H4 Hr d1 d2) as [c Hc]; [done..|]. exists c. by apply Ec.
Qed.

Lemma K1_tables f p D db db' :
  hosted_manifests db' = hosted_manifests db -> publish_conflicts db' = publish_conflicts db ->
  conflict_resolutions db' = conflict_resolutions db -> K1 f p D db -> K1 f p D db'.
Proof.
  intros Eh Ec Er. apply K1_frame; rewrite ?Eh, ?Er; try done. intros c. unfold conflict_of. by rewrite Ec.
Qed.

Lemma K1_sync f p D f' c' db : K1 f p D db -> K1 f p D (syncConflictQuarantineTx f' c' db).
Proof. destruct (sync_tables f' c' db) as (?&?&?&?&?). by apply K1_tables. Qed.

(** Deciding the path makes its K1 state moot. *)
Lemma K1_resolved f p D db : is_Some (conflict_resolutions db !! (f, p)) -> K1 f p D db.
Proof. intros [r Hr]. split; [eauto|..]; intros Hn; congruence. Qed.

(** Changes at another path. *)
Lemma conflict_of_close f p f' p' sha db c :
  (f, p) <> (f', p') ->
  conflict_of (ResolveConflict f' p' sha db) f p c <-> conflict_of db f p c.
Proof.
  intros Hne. unfold conflict_of, ResolveConflict. simpl. split.
  - intros [(c0 & -> & Hc0)%list_elem_of_fmap [Hf Hp]]. unfold close_conflict in *.
    case_decide as Hd; [|done]. destruct Hd as (? & ? & _). simpl in *. congruence.
  - intros [Hc [Hf Hp]]. split; [|done]. apply list_elem_of_fmap. exists c. split; [|done].
    unfold close_conflict. rewrite decide_False; [done|]. intros (? & ? & _). congruence.
Qed.

Lemma conflict_of_snoc f p c0 cs db c :
  publish_conflicts db = cs ++ [c0] -> (c_feed c0, c_path c0) <> (f, p) ->
  conflict_of db f p c <-> c ∈ cs /\ c_feed c = f /\ c_path c = p.
Proof.
  intros E Hne. unfold conflict_of. rewrite E, elem_of_app, list_elem_of_singleton. split.
  - intros [[?| ->] [? ?]]; [done|]. congruence.
  - intros (? & ? & ?). auto.
Qed.

Lemma K1_apply_other f p D f' p' co d site db :
  (f, p) <> (f', p') -> K1 f p D db -> K1 f p D (applyResolutionTx f' p' co d site db).
Proof.
  intros Hne. unfold applyResolutionTx. cbv zeta. intros H. apply K1_sync.
  revert H. apply K1_frame.
  - simpl. by rewrite lookup_insert_ne by congruence.
  - done.
  - intros c. rewrite conflict_of_close by done. done.
Qed.

Lemma K1_record_other f p D f' p' co r o s db :
  (f, p) <> (f', p') -> K1 f p D db -> K1 f p D (recordResolution f' p' co r o s db).
Proof.
  intros Hne. apply K1_frame.
  - by destruct (resolution_tables f' p' co r o s db) as (-> & _).
  - unfold recordResolution. repeat case_match; simpl; by rewrite ?lookup_insert_ne by congruence.
  - intros c. unfold conflict_of. by destruct (resolution_tables f' p' co r o s db) as (_ & -> & _).
Qed.

Lemma K1_insert_other f p D pm e db :
  (f, p) <> (mp_feed pm, mp_path pm) -> K1 f p D db -> K1 f p D (insertHosted pm e db).
Proof.
  intros Hne. unfold insertHosted. case_match; [done|].
  apply K1_frame; simpl; try done. by rewrite lookup_insert_ne by congruence.
Qed.

Lemma K1_update_other f p D pm e db :
  (f, p) <> (mp_feed pm, mp_path pm) -> K1 f p D db -> K1 f p D (updateHosted pm e db).
Proof.
  intros Hne. unfold updateHosted. case_match; [|done].
  apply K1_frame; simpl; try done. by rewrite lookup_insert_ne by congruence.
Qed.

Lemma K1_conflict_other f p D pm w l ws ls db :
  (f, p) <> (mp_feed pm, mp_path pm) -> K1 f p D db -> K1 f p D (recordConflictTx pm w l ws ls db).
Proof.
  intros Hne. apply K1_frame; simpl; try done. intros c.
  etrans; [eapply conflict_of_snoc; [reflexivity|simpl; congruence]|done].
Qed.

Lemma K1_rejected_other f p D pm k r s db :
  (f, p) <> (mp_feed pm, mp_path pm) -> K1 f p D db -> K1 f p D (recordResolvedConflictTx pm k r s db).
Proof.
  intros Hne. unfold recordResolvedConflictTx. case_match; [done|]. apply K1_frame; simpl; try done.
  intros c. etrans; [eapply conflict_of_snoc; [reflexivity|simpl; congruence]|done].
Qed.

#[export] Hint Resolve K1_sync K1_apply_other K1_record_other K1_insert_other K1_update_other
  K1_conflict_other K1_rejected_other : fondaco.

(** ** One event *)

(** The digests of a path once [pm] was merged too. *)
Definition with_put (f p : string) (D : string -> Prop) (pm : ManifestPut) : string -> Prop :=
  fun d => D d \/ ((mp_feed pm, mp_path pm) = (f, p) /\ d = mp_sha256 pm).

(** Recording a second digest: the smaller one is served, the pair is on
    record. *)
Lemma K1_second_digest f p D db db' r r' c d :
  K1 f p D db -> conflict_resolutions db !! (f, p) = None ->
  hosted_manifests db !! (f, p) = Some r -> h_sha256 r <> d ->
  conflict_resolutions db' = conflict_resolutions db ->
  hosted_manifests db' !! (f, p) = Some r' -> h_mutable r' = false ->
  h_sha256 r' = (if str_ltb (h_sha256 r) d then h_sha256 r else d) ->
  publish_conflicts db' = publish_conflicts db ++ [c] -> c_feed c = f -> c_path c = p ->
  c_resolved c = None ->
  (c_winner c, c_loser c) = (if str_ltb (h_sha256 r) d then (h_sha256 r, d) else (d, h_sha256 r)) ->
  K1 f p (fun x => D x \/ x = d) db'.
Proof.
  intros [H1 H2 H3 H4] Hr Hh Hne Er Hh' Hm' Hs' Ec Hcf Hcp Hcr Hcw.
  specialize (H2 Hr). rewrite Hh in H2. destruct H2 as (_ & HDr & Hmin).
  assert (Hc : forall x, conflict_of db' f p x <-> conflict_of db f p x \/ x = c).
  { intros x. unfold conflict_of. rewrite Ec, elem_of_app, list_elem_of_singleton.
    split; [tauto|]. intros [?| ->]; tauto. }
  split; rewrite Er.
  - intros x [Hx| ->]%Hc; [by eapply H1|]. congruence.
  - intros _. rewrite Hh'. split_and!; [done| |].
    + rewrite Hs'. case_match; auto.
    + intros x [Hx| ->] Hlt; rewrite Hs' in Hlt; case_match eqn:E.
      * by apply (Hmin x).
      * apply (Hmin x Hx). str_order.
      * str_order.
      * by apply str_lt_irrefl in Hlt.
  - intros _ x [Hx| ->]%Hc.
    + destruct (H3 Hr x Hx) as (? & ? & ?). auto.
    + case_match; injection Hcw as -> ->; split_and!; auto.
  - intros _ d1 d2 _ _ _. exists c. apply Hc. by right.
Qed.

Lemma storedResolution_None db f p :
  storedResolution db f p = None <-> conflict_resolutions db !! (f, p) = None.
Proof. unfold storedResolution. by destruct (conflict_resolutions db !! (f, p)). Qed.

(** A publish of a new digest at a path without resolution. *)
Lemma K1_first_digest f p D pm e db :
  K1 f p D db -> conflict_resolutions db !! (f, p) = None ->
  hosted_manifests db !! (f, p) = None -> (mp_feed pm, mp_path pm) = (f, p) -> mp_mutable pm = false ->
  K1 f p (with_put f p D pm) (insertHosted pm e db).
Proof.
  intros [H1 H2 H3 H4] Hr Hh [= Hf Hp] Hm. specialize (H2 Hr). rewrite Hh in H2.
  unfold insertHosted. rewrite Hf, Hp, Hh. unfold with_put. rewrite Hf, Hp.
  split; simpl.
  - done.
  - intros _. rewrite lookup_insert_eq. simpl. split_and!; [done|by right|].
    intros d [Hd|[_ ->]]; [by destruct (H2 d)|apply str_lt_irrefl].
  - intros _ c Hc. destruct (H3 Hr c Hc) as (Hd & _). by destruct (H2 _ Hd).
  - intros _ d1 d2 [Hd|[_ ->]]; [by destruct (H2 d1)|]. intros [Hd|[_ ->]]; [by destruct (H2 d2)|done].
Qed.

Lemma K1_merge f p D a e pm t t' :
  ((mp_feed pm, mp_path pm) = (f, p) -> mp_mutable pm = false) ->
  K1 f p D (tx_db t) -> mergeManifestPut a e pm t = Ok t' ->
  K1 f p (with_put f p D pm) (tx_db t').
Proof.
  intros Hm HK. unfold mergeManifestPut.
  destruct (decide ((mp_feed pm, mp_path pm) = (f, p))) as [Heq|Hne].
  2: { assert (Hne' : (f, p) <> (mp_feed pm, mp_path pm)) by congruence.
       intros E. apply (K1_ext f p D); [unfold with_put; tauto|]. revert E.
       destruct (storedResolution _ _ _) as [d|].
       { intros [= <-]. simpl. case_decide; eauto with fondaco. }
       destruct (hostedState _ _ _) as [r|].
       - destruct (mp_mutable pm && h_mutable r).
         + rewrite rbind_Ok. intros ([] & _ & [= <-]); simpl; eauto with fondaco.
         + case_decide; intros [= <-]; [done|]. unfold applyConflictingPut.
           destruct (k1_sides _ _ _ _) as [[[w l] ws] ls]. simpl. case_decide; eauto with fondaco.
       - intros [= <-]. simpl. eauto with fondaco. }
  pose proof Heq as [= Hf Hp]. rewrite Hf, Hp.
  destruct (storedResolution (tx_db t) f p) as [d|] eqn:Er.
  { intros [= <-]. simpl. apply K1_resolved. rewrite Hf, Hp.
    destruct (apply_resolution_tables f p (mp_coord pm) d (OriginSite e)
      (if decide (mp_sha256 pm ≠ KeepSHA d) then syncConflictQuarantineTx f (mp_coord pm)
         (recordResolvedConflictTx pm (mkSide (KeepSHA d) (res_size d) (res_checksums d) (res_metadata d))
            (incoming_side pm) (OriginSite e) (tx_db t)) else tx_db t)) as (_ & -> & _).
    assert (is_Some (conflict_resolutions (tx_db t) !! (f, p))).
    { destruct (conflict_resolutions (tx_db t) !! (f, p)) eqn:E; [eauto|].
      apply storedResolution_None in E. congruence. }
    case_decide; [|done].
    match goal with |- context [syncConflictQuarantineTx ?x ?y ?z] =>
      destruct (sync_tables x y z) as (_ & _ & -> & _) end.
    match goal with |- context [recordResolvedConflictTx ?x ?k ?r ?s ?z] =>
      destruct (resolved_conflict_tables x k r s z) as (_ & -> & _) end. done. }
  apply storedResolution_None in Er. unfold hostedState.
  destruct (hosted_manifests (tx_db t) !! (f, p)) as [r|] eqn:Eh.
  2: { intros [= <-]. simpl. by apply K1_first_digest; auto. }
  pose proof (k1_served _ _ _ _ HK Er) as Hs. rewrite Eh in Hs. destruct Hs as (Hmut & HDr & _).
  rewrite Hm, Hmut by done. simpl. case_decide as Hsha.
  { intros [= <-]. revert HK. apply K1_ext. unfold with_put. intros d. rewrite <- Hsha. naive_solver. }
  intros [= <-]. apply (K1_ext f p (fun d => D d \/ d = mp_sha256 pm)); [unfold with_put; tauto|].
  unfold applyConflictingPut, k1_sides. simpl.
  destruct (str_ltb (h_sha256 r) (mp_sha256 pm)) eqn:El; cbn [s_sha256 incoming_side stored_side finish tx_db];
    apply K1_sync.
  - rewrite decide_False by tauto.
    eapply (K1_second_digest f p D _ _ r r _ (mp_sha256 pm) HK Er Eh Hsha); simpl; try done; rewrite El; done.
  - rewrite decide_True by congruence. unfold updateHosted. rewrite Hf, Hp, Eh.
    eapply (K1_second_digest f p D _ _ r _ _ (mp_sha256 pm) HK Er Eh Hsha); simpl;
      [done|apply lookup_insert_eq|by apply Hm| |done..|]; simpl; rewrite El; done.
Qed.

(** An event never makes an immutable path mutable. *)
Definition immutable_put (f p : string) (e : JournalEntry) : Prop :=
  forall pm, Kind e = KindManifestPut -> decode_manifest_put (Payload e) = Some pm ->
    (mp_feed pm, mp_path pm) = (f, p) -> mp_mutable pm = false.

Lemma K1_dispatch f p D a peer e t t' :
  immutable_put f p e -> K1 f p D (tx_db t) -> dispatch a peer e t = Ok t' ->
  K1 f p (fun d => D d \/ puts e f p d) (tx_db t').
Proof.
  intros Himm HK. unfold dispatch.
  assert (Hno : Kind e <> KindManifestPut -> forall db, K1 f p D db -> K1 f p (fun d => D d \/ puts e f p d) db).
  { intros Hk db. apply K1_ext. unfold puts. naive_solver. }
  case_decide as Hk.
  { unfold applyManifestPut. destruct (decode_manifest_put (Payload e)) as [pm|] eqn:Ed; [|done].
    repeat (case_match; [done|]). intros Hm.
    eapply K1_ext; [|eapply K1_merge; [|exact HK|exact Hm]].
    - intros d. unfold with_put, puts. naive_solver.
    - intros Heq. by apply (Himm pm). }
  specialize (Hno Hk).
  case_decide; [|case_decide; [|case_decide; [|case_decide; [|case_decide; [|done]]]]].
  - unfold applyBlobAvailable. repeat case_match; intros [= <-]; auto.
  - unfold applyTokenRevoke. destruct (decode_token_revoke _); [|done]. case_match; [done|].
    rewrite rbind_Ok. intros (db & Hr & [= <-]). apply Hno. simpl.
    unfold revoke_token in Hr. repeat case_match; simplify_eq; by apply (K1_tables f p D (tx_db t)).
  - unfold applyQuarantineSet. repeat case_match; intros [= <-]. apply Hno. simpl.
    match goal with |- context [quarantineTx ?x ?y ?z ?u ?v ?w] =>
      destruct (quarantine_decision_tables x y z u v w) as (?&?&?&?&?) end. by apply (K1_tables f p D (tx_db t)).
  - unfold applyQuarantineRelease. destruct (decode_quarantine_release _) as [q|]; intros [= <-]. apply Hno. simpl.
    match goal with |- context [releaseQuarantineTx ?x ?y ?z ?u ?v] =>
      destruct (release_decision_tables x y z u v) as (?&?&?&?&?) end. by apply (K1_tables f p D (tx_db t)).
  - unfold applyConflictResolve. destruct (decode_conflict_resolve _) as [q|]; [|done].
    case_match; [done|]. destruct (conflictSide _ _ _ _ _) as [side|]; [|done].
    intros [= <-]. apply Hno. cbn [finish tx_db].
    destruct (decide ((f, p) = (cr_feed q, cr_path q))) as [Heq|Hne]; [|eauto with fondaco].
    apply K1_resolved. rewrite Heq.
    match goal with |- context [applyResolutionTx ?x ?y ?z ?u ?v ?w] =>
      destruct (apply_resolution_tables x y z u v w) as (_ & -> & _) end.
    match goal with |- context [recordResolution ?x ?y ?z ?u ?v ?w ?db] =>
      destruct (recordResolution_stored x y z u v w db) as [res Hres]; unfold storedResolution in Hres;
      destruct (conflict_resolutions (recordResolution x y z u v w db) !! (x, y)); [eauto|done] end.
Qed.

(** Dispatching touches neither the clock nor the parked events. *)
Lemma dispatch_clock a peer e t t' :
  dispatch a peer e t = Ok t' ->
  hlc_state (tx_db t') = hlc_state (tx_db t) /\ repl_parked (tx_db t') = repl_parked (tx_db t).
Proof.
  intros H. symmetry in H.
  cut ((fun db => hlc_state (tx_db t) = hlc_state db /\ repl_parked (tx_db t) = repl_parked db) (tx_db t')).
  { intros [-> ->]. done. }
  apply (preserved_dispatch _ (fun _ => True) a) with (peer := peer) (e := e) (t := t) (t' := t');
    try done; cbv zeta; intros;
    unfold insertHosted, updateHosted, quarantineTx, releaseQuarantineTx, applyResolutionTx,
      recordResolution, recordResolvedConflictTx, revoke_token, syncConflictQuarantineTx in *;
    repeat case_match; simplify_eq; simpl in *; done.
Qed.

(** ** A local publish *)

(** What a publish writes besides the journal. *)
Lemma insertHosted_tables now feed path r db db' created m :
  InsertHostedTx now feed path r db = Ok (db', created, m) ->
  repl_parked db' = repl_parked db /\ publish_conflicts db' = publish_conflicts db /\
  conflict_resolutions db' = conflict_resolutions db /\
  if created then
    exists row, hosted_manifests db' = <[(feed, path) := row]> (hosted_manifests db) /\ h_sha256 row = h_sha256 r /\
      match hosted_manifests db !! (feed, path) with
      | None => h_mutable row = h_mutable r /\ h_sha256 row = h_sha256 r
      | Some old => h_mutable old = true /\ h_mutable row = h_mutable old
      end
  else hosted_manifests db' = hosted_manifests db /\ is_Some (hosted_manifests db !! (feed, path)).
Proof.
  unfold InsertHostedTx. simpl.
  destruct (hosted_manifests db !! (feed, path)) as [old|] eqn:E.
  - case_decide as Hs; [intros [= <- <- <-]; simpl; eauto|].
    destruct (h_mutable old) eqn:Em, (h_mutable r); try done. simpl.
    intros [= <- <- <-]. simpl. split_and!; try done. eexists. split_and!; done.
  - intros [= <- <- <-]. simpl. split_and!; try done. eexists. split_and!; done.
Qed.

(** The journal after a publish. *)
Lemma append_manifest_put_lookup now site pm db k (n := last_seq (hlc_state db)) :
  repl_journal (AppendManifestPut now site pm db) !! k =
  if decide (k = (site, n + 1 + 1)) then
    Some (mkEntry site (n + 1 + 1) KindBlobAvailable
      (encode_blob_available (mkBlobAvailable (mp_sha256 pm) (mp_size pm)))
      (hlc_reading (repl_hlc_next now (repl_hlc_next now (hlc_state db)))) 1, now)
  else if decide (k = (site, n + 1)) then
    Some (mkEntry site (n + 1) KindManifestPut (encode_manifest_put pm)
      (hlc_reading (repl_hlc_next now (hlc_state db))) 1, now)
  else repl_journal db !! k.
Proof.
  unfold AppendManifestPut, AppendJournal. simpl. fold n.
  repeat case_decide; subst; simplify_map_eq; done.
Qed.

(** A publish at a path keeps its K1 state: it is the first digest there, or
    there is nothing to keep. *)
Lemma K1_publish f p D db db' pm row :
  K1 f p D db -> conflict_resolutions db' = conflict_resolutions db ->
  publish_conflicts db' = publish_conflicts db ->
  hosted_manifests db' = (<[(mp_feed pm, mp_path pm) := row]> (hosted_manifests db)) ->
  match hosted_manifests db !! (mp_feed pm, mp_path pm) with
  | None => h_mutable row = mp_mutable pm /\ h_sha256 row = mp_sha256 pm
  | Some old => h_mutable old = true /\ h_mutable row = h_mutable old
  end ->
  ((mp_feed pm, mp_path pm) = (f, p) -> mp_mutable pm = false) ->
  K1 f p (with_put f p D pm) db'.
Proof.
  intros HK Er Ec Eh Hnew Hmut.
  destruct (decide ((mp_feed pm, mp_path pm) = (f, p))) as [Heq|Hne].
  2: { apply (K1_ext f p D); [unfold with_put; tauto|]. revert HK.
       apply K1_frame; [|by rewrite Er|intros c; unfold conflict_of; by rewrite Ec].
       rewrite Eh. by apply lookup_insert_ne. }
  specialize (Hmut Heq). rewrite Heq in Hnew, Eh.
  destruct (conflict_resolutions db' !! (f, p)) as [res|] eqn:En; [apply K1_resolved; eauto|].
  rewrite Er in En. pose proof (k1_served _ _ _ _ HK En) as Hs.
  destruct (hosted_manifests db !! (f, p)) as [old|].
  { destruct Hs as (? & _), Hnew as [? _]. congruence. }
  destruct Hnew as [Hrm Hrs], HK as [G1 G2 G3 G4]. unfold with_put.
  assert (Hc : forall c, conflict_of db' f p c <-> conflict_of db f p c) by (intros; unfold conflict_of; by rewrite Ec).
  split; rewrite ?Er.
  - intros c. rewrite Hc. apply G1.
  - intros _. rewrite Eh, lookup_insert_eq, Hrm, Hrs. split_and!; [done|by right|].
    intros d [Hd|[_ ->]]; [by destruct (Hs d)|apply str_lt_irrefl].
  - intros _ c. rewrite Hc. intros (Hd & _)%(G3 En). by destruct (Hs _ Hd).
  - intros _ d1 d2 [Hd|[_ ->]]; [by destruct (Hs d1)|]. intros [Hd|[_ ->]]; [by destruct (Hs d2)|done].
Qed.

(** ** A site of the mesh *)

Section mesh.
(** What every origin's journal says, filed under its own key. *)
Context (log : string * Z -> JournalEntry).
Context (log_keyed : forall k, park_key (log k) = k).
Context (me : string).

(** The journal of this site agrees with the mesh's. *)
Definition faithful (db : DB) : Prop :=
  forall k e t, repl_journal db !! k = Some (e, t) -> e = log k.

(** What can happen at a site: its peers serve entries of the log; the
    entries it appends are what the log says of it. *)
Inductive site_step : Site -> Site -> Prop :=
| step_batch a peer es s :
    a_site a = me -> (forall e, e ∈ es -> e = log (park_key e)) ->
    site_step s (ApplyBatch a peer es s ∅).1.1
| step_retry a peer s : site_step s (RetryParked a peer s).1.1
| step_publish now r s db' created r' :
    insertWithJournal now me true r (s_db s) = Ok (db', created, r') ->
    - 2 ^ 63 <= pr_size r < 2 ^ 63 -> faithful db' ->
    site_step s (mkSite db' (s_blobs s) (s_projections s))
| step_resolve nested now c s db' e w :
    ResolveConflictOp nested now me c (s_db s) = Ok (db', e, w) -> faithful db' ->
    site_step s (mkSite db' (s_blobs s) (s_projections s)).

(** The digests of a path on record at a site. *)
Definition recorded (f p : string) (db : DB) : string -> Prop :=
  fun d => exists k v, repl_journal db !! k = Some v /\ puts (log k) f p d.

(** Bookkeeping: own entries are numbered by the clock, parked events are
    foreign entries of the log. *)
Record mesh_ok (db : DB) : Prop := {
  ok_faithful : faithful db;
  ok_own : forall seq v, repl_journal db !! (me, seq) = Some v -> seq <= last_seq (hlc_state db);
  ok_parked : forall r, r ∈ repl_parked db ->
    p_entry r = log (park_key (p_entry r)) /\ OriginSite (p_entry r) <> me;
}.

Definition Inv (f p : string) (s : Site) : Prop :=
  mesh_ok (s_db s) /\ K1 f p (recorded f p (s_db s)) (s_db s).

Lemma mesh_ok_park e reason db :
  e = log (park_key e) -> OriginSite e <> me -> mesh_ok db -> mesh_ok (ParkEvent e reason db).
Proof.
  intros He Hne [H1 H2 H3]. split; [done..|]. unfold ParkEvent. simpl. intros r. case_match.
  - intros (r0 & -> & Hr0)%list_elem_of_fmap. case_decide; simpl; by apply H3.
  - intros [?| ->%list_elem_of_singleton]%elem_of_app; [by apply H3|]. done.
Qed.

Lemma Inv_park f p e reason db blobs proj blobs' proj' :
  e = log (park_key e) -> OriginSite e <> me ->
  Inv f p (mkSite db blobs proj) -> Inv f p (mkSite (ParkEvent e reason db) blobs' proj').
Proof.
  intros He Hne [H1 H2]. split; [by apply mesh_ok_park|]. simpl in *.
  revert H2. by apply K1_tables.
Qed.

(** Recording an entry and dispatching it. *)
Lemma Inv_dispatch f p a peer e t now db blobs proj blobs' proj' fresh :
  immutable_put f p e -> e = log (park_key e) -> OriginSite e <> me ->
  Inv f p (mkSite db blobs proj) ->
  dispatch a peer e (mkTxn (ApplyForeignJournal now e db).1 blobs' ∅ []) = Ok t ->
  (ApplyForeignJournal now e db).2 = fresh ->
  Inv f p (mkSite (tx_db t) (tx_blobs t) proj').
Proof.
  intros Himm He Hne [[H1 H2 H3] HK] Hd _. simpl in *.
  pose proof (dispatch_journal _ _ _ _ _ Hd) as Hj. pose proof (dispatch_clock _ _ _ _ _ Hd) as [Hh Hp].
  simpl in Hj, Hh, Hp.
  assert (Hjr : forall k v, repl_journal (ApplyForeignJournal now e db).1 !! k = Some v ->
    (k = park_key e /\ v.1 = log k) \/ repl_journal db !! k = Some v).
  { intros k v. unfold ApplyForeignJournal. simpl. case_match; simpl; [auto|].
    intros [[<- <-]|[_ ?]]%lookup_insert_Some; [|auto]. left. split; [done|]. simpl. exact He. }
  assert (Hjk : forall k v, repl_journal db !! k = Some v ->
    exists v', repl_journal (ApplyForeignJournal now e db).1 !! k = Some v').
  { intros k v Hk. unfold ApplyForeignJournal. simpl. case_match; simpl; [eauto|].
    destruct (decide (k = park_key e)) as [->|]; [rewrite lookup_insert_eq; eauto|].
    rewrite lookup_insert_ne by done. eauto. }
  assert (Hje : exists v, repl_journal (ApplyForeignJournal now e db).1 !! park_key e = Some v).
  { unfold ApplyForeignJournal. simpl. case_match; simpl; [eauto|]. rewrite lookup_insert_eq. eauto. }
  split; simpl.
  - split.
    + intros k e' t'. rewrite Hj. intros [[? ?]|?]%Hjr; [done|eauto].
    + intros seq v. rewrite Hj, Hh. intros [[Heq _]|Hk]%Hjr; [unfold park_key in Heq; congruence|].
      unfold ApplyForeignJournal. simpl. case_match; simpl; by eapply H2.
    + intros r. rewrite Hp. intros Hr. apply H3. unfold ApplyForeignJournal in Hr. simpl in Hr.
      case_match; done.
  - apply (K1_ext f p (fun d => recorded f p db d \/ puts e f p d));
      [|eapply (K1_dispatch f p (recorded f p db) a peer e _ t Himm); [|exact Hd]].
    2: { simpl. unfold ApplyForeignJournal. simpl. case_match; simpl; revert HK; by apply K1_tables. }
    intros d. unfold recorded. rewrite Hj. split.
    + intros [(k & v & Hk & Hput)|Hput].
      * destruct (Hjk k v Hk) as [v' Hk']. eauto.
      * destruct Hje as [v Hv]. exists (park_key e), v. split; [done|]. by rewrite <- He.
    + intros (k & v & [[-> _]|Hk]%Hjr & Hput); [right; by rewrite He|left; eauto].
Qed.

Lemma Inv_clock f p db blobs proj now e blobs' proj' :
  Inv f p (mkSite db blobs proj) -> (ApplyForeignJournal now e db).2 = false ->
  Inv f p (mkSite (ApplyForeignJournal now e db).1 blobs' proj').
Proof.
  intros [[H1 H2 H3] HK] Hf. unfold ApplyForeignJournal in *. simpl in *. case_match; [|done].
  split; [by split|]. simpl. revert HK. by apply K1_tables.
Qed.

Lemma applyOne_Inv f p a peer e s s' fs :
  immutable_put f p e -> e = log (park_key e) -> OriginSite e <> me ->
  Inv f p s -> applyOne a peer e s = Ok (s', fs) -> Inv f p s'.
Proof.
  intros Himm He Hne HI. destruct s as [db blobs proj]. unfold applyOne. simpl.
  case_match; [intros [= <- <-]; by eapply Inv_park|].
  destruct (prefetchBlob _ _ _ _) as [blobs1|[]]; try done; [|intros [= <- <-]; by eapply Inv_park].
  pose proof (Inv_clock f p db blobs proj (a_now a) e blobs1 proj HI) as Hc.
  pose proof (Inv_dispatch f p a peer e) as HD. specialize (HD).
  destruct (ApplyForeignJournal (a_now a) e db) as [db1 fresh] eqn:EJ. simpl in *.
  destruct fresh; simpl; [|intros [= <- <-]; by apply Hc].
  destruct (dispatch a peer e _) as [t|[]] eqn:Ed; try done;
    [|intros [= <- <-]; by eapply Inv_park].
  intros [= <- <-]. eapply (HD t (a_now a) db blobs proj blobs1); [done..|by rewrite EJ|reflexivity].
Qed.

Lemma retryOne_Inv f p a peer e s s' fs :
  immutable_put f p e -> e = log (park_key e) -> OriginSite e <> me ->
  Inv f p s -> retryOne a peer e s = Ok (s', fs) -> Inv f p s'.
Proof.
  intros Himm He Hne HI. destruct s as [db blobs proj]. unfold retryOne. simpl.
  destruct (prefetchBlob _ _ _ _) as [blobs1|]; [|intros [= <- <-]; done].
  destruct (ApplyForeignJournal (a_now a) e db) as [db1 fresh] eqn:EJ.
  destruct (dispatch a peer e _) as [t|[]] eqn:Ed; try done; [|intros [= <- <-]; exact HI].
  intros [= <- <-].
  assert (HI' : Inv f p (mkSite (tx_db t) (tx_blobs t) (flushProjections a (tx_pending t) proj))).
  { eapply (Inv_dispatch f p a peer e t (a_now a) db blobs proj blobs1); [done..|by rewrite EJ|reflexivity]. }
  destruct HI' as [[H1 H2 H3] HK]. simpl in *. split; simpl.
  - split; [done..|]. simpl. intros r [_ Hr]%list_elem_of_filter. by apply H3.
  - revert HK. by apply K1_tables.
Qed.

(** The digests on record after a publish. *)
Lemma recorded_publish f p now pm db d :
  faithful (AppendManifestPut now me pm db) ->
  (forall k, last_seq (hlc_state db) < k -> repl_journal db !! (me, k) = None) ->
  log (me, last_seq (hlc_state db) + 1) =
    mkEntry me (last_seq (hlc_state db) + 1) KindManifestPut (encode_manifest_put pm)
      (hlc_reading (repl_hlc_next now (hlc_state db))) 1 ->
  - 2 ^ 63 <= mp_size pm < 2 ^ 63 ->
  recorded f p (AppendManifestPut now me pm db) d <-> with_put f p (recorded f p db) pm d.
Proof.
  intros Hfaith Hfresh Hlog Hsize.
  assert (Hput : puts (log (me, last_seq (hlc_state db) + 1)) f p d <->
    (mp_feed pm, mp_path pm) = (f, p) /\ d = mp_sha256 pm).
  { rewrite Hlog. unfold puts. simpl. rewrite decode_encode_manifest_put by exact Hsize. split.
    - intros (pm' & _ & [= <-] & <- & <- & <-). done.
    - intros [[= <- <-] ->]. eauto 10. }
  unfold with_put. rewrite <- Hput. unfold recorded. split.
  - intros (k & v & Hk & Hd). pose proof Hk as Hk'. rewrite append_manifest_put_lookup in Hk.
    repeat case_decide; subst; [|auto|eauto]. injection Hk as <-. apply Hfaith in Hk'.
    destruct Hd as (pm' & Hkind & _). by rewrite <- Hk' in Hkind.
  - setoid_rewrite append_manifest_put_lookup. intros [(k & v & Hk & Hd)|Hd].
    + exists k, v. rewrite !decide_False; [done|..]; intros ->; rewrite Hfresh in Hk by lia; done.
    + exists (me, last_seq (hlc_state db) + 1). eexists. rewrite decide_False by (intros [= ?]; lia).
      by rewrite decide_True.
Qed.

Section immutable_path.
Context (f p : string) (log_immutable : forall k, immutable_put f p (log k)).

Lemma batch_Inv a peer es s touched :
  a_site a = me -> (forall e, e ∈ es -> e = log (park_key e)) ->
  Inv f p s -> Inv f p (ApplyBatch a peer es s touched).1.1.
Proof.
  intros Ha. revert s touched. induction es as [|e es IH]; intros s touched Hes HI; simpl; [done|].
  assert (Hes' : forall e', e' ∈ es -> e' = log (park_key e')) by (intros; apply Hes; by right).
  case_decide; [by apply IH|]. case_decide; [done|].
  destruct (applyOne a peer e s) as [[s' fs]|err] eqn:E; [|done]. apply IH; [done|].
  assert (He : e = log (park_key e)) by (apply Hes; by left).
  eapply applyOne_Inv; [|exact He|congruence|exact HI|exact E]. rewrite He. apply log_immutable.
Qed.

Lemma retry_Inv a peer s : Inv f p s -> Inv f p (RetryParked a peer s).1.1.
Proof.
  intros HI. unfold RetryParked.
  assert (Hes : forall e, e ∈ p_entry <$> parkedEvents peer 100 (s_db s) ->
    e = log (park_key e) /\ OriginSite e <> me).
  { intros e (r & -> & Hr)%list_elem_of_fmap. unfold parkedEvents in Hr.
    apply elem_of_take in Hr as (i & Hi & _). apply list_elem_of_lookup_2 in Hi.
    apply list_elem_of_filter in Hi as [_ Hi]. by apply (ok_parked _ (proj1 HI)). }
  generalize (∅ : gset string). revert Hes. generalize (p_entry <$> parkedEvents peer 100 (s_db s)).
  intros es. revert s HI. induction es as [|e es IH]; intros s HI Hes touched; simpl; [done|].
  destruct (retryOne a peer e s) as [[s' fs]|err] eqn:E; [|done].
  destruct (Hes e) as [He Hne]; [by left|].
  apply IH; [|intros; apply Hes; by right].
  eapply retryOne_Inv; [|exact He|exact Hne|exact HI|exact E]. rewrite He. apply log_immutable.
Qed.

(** A local publish. *)
Lemma publish_Inv now r s db' created r' :
  insertWithJournal now me true r (s_db s) = Ok (db', created, r') ->
  - 2 ^ 63 <= pr_size r < 2 ^ 63 -> faithful db' ->
  Inv f p s -> Inv f p (mkSite db' (s_blobs s) (s_projections s)).
Proof.
  intros Hi Hsize Hfaith [[H1 H2 H3] HK]. unfold insertWithJournal in Hi.
  destruct (InsertHostedTx now _ _ _ (s_db s)) as [[[db1 c] m]|] eqn:Ei; [|done].
  injection Hi as <- <- _.
  pose proof (insertHosted_cases _ _ _ _ _ _ _ _ Ei) as (Hj & Hl & _ & _).
  pose proof (insertHosted_tables _ _ _ _ _ _ _ _ Ei) as (Hpk & Hcf & Hrs & Hrow).
  set (pm := publish_event (stamped_request r m)) in *.
  destruct c; simpl in *.
  2: { destruct Hrow as [Hh _]. split; simpl.
       - split; [done|rewrite Hj, Hl; done|rewrite Hpk; done].
       - apply (K1_ext f p (recorded f p (s_db s))); [unfold recorded; rewrite Hj; done|].
         revert HK. by apply K1_tables. }
  assert (Hown : forall k, last_seq (hlc_state db1) < k -> repl_journal db1 !! (me, k) = None).
  { intros k Hk. rewrite Hj, Hl in *. destruct (repl_journal (s_db s) !! (me, k)) eqn:E; [|done].
    apply H2 in E. lia. }
  assert (Hput : log (me, last_seq (hlc_state db1) + 1) =
    mkEntry me (last_seq (hlc_state db1) + 1) KindManifestPut (encode_manifest_put pm)
      (hlc_reading (repl_hlc_next now (hlc_state db1))) 1).
  { pose proof (append_manifest_put_lookup now me pm db1 (me, last_seq (hlc_state db1) + 1)) as Hk.
    cbv zeta in Hk. rewrite decide_False in Hk by (intros [= ?]; lia). rewrite decide_True in Hk by done.
    by apply Hfaith in Hk. }
  split; simpl.
  - split; [done|..|simpl; by rewrite Hpk].
    intros seq v. rewrite append_manifest_put_lookup.
    cbn [hlc_state AppendManifestPut AppendJournal set_journal set_hlc fst last_seq repl_hlc_next].
    repeat case_decide; simplify_eq; intros Hv; [lia..|]. rewrite Hj in Hv. apply H2 in Hv. lia.
  - apply (K1_ext f p (with_put f p (recorded f p (s_db s)) pm)).
    { intros d. rewrite (recorded_publish f p now pm db1 d Hfaith Hown Hput) by exact Hsize.
      unfold with_put, recorded. by rewrite Hj. }
    apply (K1_tables f p _ db1); [done..|]. destruct Hrow as (row & Hh & _ & Hnew).
    eapply (K1_publish f p _ (s_db s) db1 pm row); [exact HK|done|done|exact Hh|exact Hnew|].
    intros Heq. apply (log_immutable (me, last_seq (hlc_state db1) + 1) pm); [by rewrite Hput| |done].
    rewrite Hput. by apply decode_encode_manifest_put.
Qed.

(** An operator's decision at this site. *)
Lemma resolve_Inv nested now c s db' e w :
  ResolveConflictOp nested now me c (s_db s) = Ok (db', e, w) -> faithful db' ->
  Inv f p s -> Inv f p (mkSite db' (s_blobs s) (s_projections s)).
Proof.
  intros Hop Hfaith [[H1 H2 H3] HK]. unfold ResolveConflictOp in Hop.
  case_match; [done|]. destruct (conflictSide _ _ _ _ _) as [side|]; [|done].
  injection Hop as <- _ _.
  set (h := repl_hlc_now now (hlc_state (s_db s))) in *.
  set (d := mkRes _ _ _ _ _) in *.
  set (db1 := recordResolution _ _ _ _ _ _ (set_hlc (s_db s) h)) in *.
  set (db2 := applyResolutionTx _ _ _ _ _ db1) in *.
  assert (Hj : repl_journal db2 = repl_journal (s_db s)).
  { subst db2 db1. destruct (apply_resolution_tables (cr_feed c) (cr_path c) (cr_coord c) d me
      (recordResolution (cr_feed c) (cr_path c) (cr_coord c) d (cr_operator c) me (set_hlc (s_db s) h)))
      as (_ & _ & _ & ->).
    by destruct (resolution_tables (cr_feed c) (cr_path c) (cr_coord c) d (cr_operator c) me
      (set_hlc (s_db s) h)) as (_ & _ & _ & _ & ->). }
  assert (Hc : hlc_state db2 = h /\ repl_parked db2 = repl_parked (s_db s)).
  { subst db2 db1. unfold applyResolutionTx, recordResolution, syncConflictQuarantineTx.
    repeat case_match; done. }
  destruct Hc as [Hh Hp].
  split; cbn [s_db].
  - split; [done|..].
    + intros seq v. cbn. rewrite Hh. cbn. intros Hk. apply lookup_insert_Some in Hk as [[[= <-] _]|[_ Hk]]; [lia|].
      rewrite Hj in Hk. apply H2 in Hk. lia.
    + cbn. by rewrite Hp.
  - apply (K1_ext f p (recorded f p (s_db s))).
    { intros d'. unfold recorded. cbn. rewrite Hh, Hj. cbn. split.
      - intros (k & v & Hk & Hd). exists k, v. split; [|done].
        rewrite lookup_insert_ne; [done|]. intros <-. apply H2 in Hk. lia.
      - intros (k & v & Hk & Hd). apply lookup_insert_Some in Hk as [[<- <-]|[_ Hk]]; [|eauto].
        pose proof (Hfaith (me, last_seq (hlc_state (s_db s)) + 1)) as He.
        cbn in He. rewrite Hh in He. cbn in He. rewrite lookup_insert_eq in He.
        specialize (He _ _ eq_refl). destruct Hd as (pm & Hk & _). by rewrite <- He in Hk. }
    apply (K1_tables f p _ db2); [done..|].
    destruct (decide ((f, p) = (cr_feed c, cr_path c))) as [Heq|Hne].
    + apply K1_resolved. subst db2. rewrite Heq.
      destruct (apply_resolution_tables (cr_feed c) (cr_path c) (cr_coord c) d me db1) as (_ & -> & _).
      destruct (recordResolution_stored (cr_feed c) (cr_path c) (cr_coord c) d (cr_operator c) me
        (set_hlc (s_db s) h)) as [res Hres]. fold db1 in Hres. unfold storedResolution in Hres.
      destruct (conflict_resolutions db1 !! _); [eauto|done].
    + apply K1_apply_other, K1_record_other; [done..|]. by apply (K1_tables f p _ (s_db s)).
Qed.

Lemma step_Inv s s' : site_step s s' -> Inv f p s -> Inv f p s'.
Proof. destruct 1; eauto using batch_Inv, retry_Inv, publish_Inv, resolve_Inv. Qed.

Lemma Inv_empty blobs proj : Inv f p (mkSite empty_db blobs proj).
Proof.
  assert (Hj : forall k v, repl_journal empty_db !! k <> Some v).
  { intros k v Hk. simpl in Hk. by rewrite lookup_empty in Hk. }
  assert (Hd : forall d, ~ recorded f p empty_db d) by (intros d (k & v & Hk & _); by apply Hj in Hk).
  assert (Hc : forall c, ~ conflict_of empty_db f p c) by (intros c [Hc _]; by apply not_elem_of_nil in Hc).
  split; split; cbn [s_db].
  - intros k e t Hk. by apply Hj in Hk.
  - intros seq v Hk. by apply Hj in Hk.
  - intros r Hr. by apply not_elem_of_nil in Hr.
  - intros c Hx. by apply Hc in Hx.
  - intros _. simpl. by rewrite lookup_empty.
  - intros _ c Hx. by apply Hc in Hx.
  - intros _ d1 d2 Hx. by apply Hd in Hx.
Qed.

Lemma reachable_Inv s : rtc site_step (mkSite empty_db ∅ ∅) s -> Inv f p s.
Proof.
  intros Hs. assert (H0 : Inv f p (mkSite empty_db ∅ ∅)) by apply Inv_empty.
  revert H0. induction Hs; eauto using step_Inv.
Qed.
End immutable_path.
End mesh.

(** ** Theorems *)

(** C2. Rule K1 holds in every state a site can reach: after any sequence of
    batches, retries, publishes and operator decisions, an immutable path no
    operator decided serves the lexicographically smallest digest the site's
    journal records for it, and nothing when it records none; and a conflict is
    open there exactly when the journal records two different digests. *)
Theorem k1_reachable log me f p s :
  (forall k, immutable_put f p (log k)) ->
  rtc (site_step log me) (mkSite empty_db ∅ ∅) s ->
  conflict_resolutions (s_db s) !! (f, p) = None ->
  (forall d, h_sha256 <$> hosted_manifests (s_db s) !! (f, p) = Some d <->
     recorded log f p (s_db s) d /\ forall d', recorded log f p (s_db s) d' -> ~ str_lt d' d) /\
  (conflicted f p (s_db s) <->
     exists d1 d2, recorded log f p (s_db s) d1 /\ recorded log f p (s_db s) d2 /\ d1 <> d2).
Proof.
  intros Himm Hr Hn. destruct (reachable_Inv log me f p Himm s Hr) as [_ [H1 H2 H3 H4]].
  specialize (H2 Hn). split.
  - intros d. destruct (hosted_manifests (s_db s) !! (f, p)) as [r|]; simpl.
    + destruct H2 as (_ & Hd & Hmin). split; [intros [= <-]; done|]. intros [Hd' Hmin']. f_equal.
      destruct (str_lt_total (h_sha256 r) d) as [Hlt|[?|Hlt]]; [by destruct (Hmin' _ Hd)|done|by destruct (Hmin _ Hd')].
    + split; [done|]. intros [Hd _]. by destruct (H2 d).
  - split.
    + intros (c & Hc & _). destruct (H3 Hn c Hc) as (? & ? & ?). eauto.
    + intros (d1 & d2 & Hd1 & Hd2 & Hne). destruct (H4 Hn d1 d2 Hd1 Hd2 Hne) as [c Hc].
      exists c. split; [done|]. destruct (c_resolved c) eqn:E; [|done].
      destruct (H1 c Hc) as [? ?]; congruence.
Qed.

(** C1. Sites converge: two sites of the mesh, however their batches were cut
    and ordered, however often entries were delivered, parked and retried, and
    whatever they published themselves, serve the same digest at an immutable
    path and agree on whether it is in conflict, as soon as their journals
    record the same digests for it and as long as no operator has decided a
    conflict at that path at either of them. *)
Theorem k1_convergence log me1 me2 f p s1 s2 :
  (forall k, immutable_put f p (log k)) ->
  rtc (site_step log me1) (mkSite empty_db ∅ ∅) s1 ->
  rtc (site_step log me2) (mkSite empty_db ∅ ∅) s2 ->
  conflict_resolutions (s_db s1) !! (f, p) = None ->
  conflict_resolutions (s_db s2) !! (f, p) = None ->
  (forall d, recorded log f p (s_db s1) d <-> recorded log f p (s_db s2) d) ->
  h_sha256 <$> hosted_manifests (s_db s1) !! (f, p) = h_sha256 <$> hosted_manifests (s_db s2) !! (f, p) /\
  (conflicted f p (s_db s1) <-> conflicted f p (s_db s2)).
Proof.
  intros Himm Hr1 Hr2 Hn1 Hn2 Hsame.
  destruct (reachable_Inv log me1 f p Himm s1 Hr1) as [_ K1s].
  destruct (reachable_Inv log me2 f p Himm s2 Hr2) as [_ K2s].
  apply (K1_ext f p _ (recorded log f p (s_db s1))) in K2s; [|intros; by rewrite Hsame].
  split.
  - pose proof (k1_served _ _ _ _ K1s Hn1) as H1. pose proof (k1_served _ _ _ _ K2s Hn2) as H2.
    destruct (hosted_manifests (s_db s1) !! _) as [r1|], (hosted_manifests (s_db s2) !! _) as [r2|]; simpl.
    + destruct H1 as (_ & Hd1 & Hmin1), H2 as (_ & Hd2 & Hmin2). f_equal.
      destruct (str_lt_total (h_sha256 r1) (h_sha256 r2)) as [?|[?|?]]; [by destruct (Hmin2 _ Hd1)|done|by destruct (Hmin1 _ Hd2)].
    + destruct H1 as (_ & Hd & _). by destruct (H2 _ Hd).
    + destruct H2 as (_ & Hd & _). by destruct (H1 _ Hd).
    + done.
  - assert (Hone : forall sa sb, K1 f p (recorded log f p (s_db s1)) (s_db sa) ->
      K1 f p (recorded log f p (s_db s1)) (s_db sb) ->
      conflict_resolutions (s_db sa) !! (f, p) = None -> conflict_resolutions (s_db sb) !! (f, p) = None ->
      conflicted f p (s_db sa) -> conflicted f p (s_db sb)).
    { intros sa sb Ka Kb Hna Hnb (c & Hc & _).
      destruct (k1_sound _ _ _ _ Ka Hna c Hc) as (Hw & Hl & Hne).
      destruct (k1_complete _ _ _ _ Kb Hnb _ _ Hw Hl Hne) as [c' Hc']. exists c'. split; [done|].
      destruct (c_resolved c') eqn:E; [|done]. destruct (k1_closed _ _ _ _ Kb c' Hc'); congruence. }
    split; eauto.
Qed.

(** A mesh for the witnesses: sites [b] and [c] publish different digests of
    one path. *)
Module MeshDemo.
Definition log (k : string * Z) : JournalEntry :=
  if decide (k = ("b", 1)) then Demo.put_event "b" 1 (Demo.digest "2"%char)
  else if decide (k = ("c", 1)) then Demo.put_event "c" 1 (Demo.digest "1"%char)
  else mkEntry k.1 k.2 "none" JNull (mkHLC 0 0) 1.
Definition b1 : JournalEntry := log ("b", 1).
Definition c1 : JournalEntry := log ("c", 1).
Definition env (site : string) : Env :=
  mkEnv site 1000 (default_max_skew 0) (fun _ => false) true (fun _ _ _ => true) (Some (fun _ => true)) true.
Definition pull (site peer : string) (e : JournalEntry) (s : Site) : Site :=
  (ApplyBatch (env site) peer [e; e] s ∅).1.1.
Definition site_a : Site := pull "a" "c" c1 (pull "a" "b" b1 Demo.site0).
Definition site_d : Site := pull "d" "b" b1 (pull "d" "c" c1 Demo.site0).
Definition feed : string := "releases".
Definition path : string := "lib/1.0/lib.jar".

Lemma immutable k : immutable_put feed path (log k).
Proof.
  intros pm Hk Hd _. unfold log in *. repeat case_decide; [| |done]; vm_compute in Hd; by injection Hd as <-.
Qed.

Lemma reach site : site = "a" \/ site = "d" ->
  forall peer peer' k k', log k = log (park_key (log k)) -> log k' = log (park_key (log k')) ->
  rtc (site_step log site) Demo.site0 (pull site peer' (log k') (pull site peer (log k) Demo.site0)).
Proof.
  intros _ peer peer' k k' Hk Hk'.
  eapply rtc_l; [apply (step_batch log site (env site) peer [log k; log k])|].
  - done.
  - intros e He. rewrite !elem_of_cons in He. destruct He as [->|[->|He]]; [done..|by apply not_elem_of_nil in He].
  - apply rtc_once. apply (step_batch log site (env site) peer' [log k'; log k']); [done|].
    intros e He. rewrite !elem_of_cons in He. destruct He as [->|[->|He]]; [done..|by apply not_elem_of_nil in He].
Qed.
End MeshDemo.

Lemma k1_reachable_witness :
  conflicted MeshDemo.feed MeshDemo.path (s_db MeshDemo.site_a) <->
  exists d1 d2, recorded MeshDemo.log MeshDemo.feed MeshDemo.path (s_db MeshDemo.site_a) d1 /\
    recorded MeshDemo.log MeshDemo.feed MeshDemo.path (s_db MeshDemo.site_a) d2 /\ d1 <> d2.
Proof.
  apply (k1_reachable MeshDemo.log "a" MeshDemo.feed MeshDemo.path MeshDemo.site_a).
  - exact MeshDemo.immutable.
  - apply (MeshDemo.reach "a" (or_introl eq_refl) "b" "c" ("b", 1) ("c", 1)); reflexivity.
  - vm_compute. reflexivity.
Defined.

Lemma k1_convergence_witness :
  h_sha256 <$> hosted_manifests (s_db MeshDemo.site_a) !! (MeshDemo.feed, MeshDemo.path) =
  h_sha256 <$> hosted_manifests (s_db MeshDemo.site_d) !! (MeshDemo.feed, MeshDemo.path).
Proof.
  apply (k1_convergence MeshDemo.log "a" "d" MeshDemo.feed MeshDemo.path MeshDemo.site_a MeshDemo.site_d).
  - exact MeshDemo.immutable.
  - apply (MeshDemo.reach "a" (or_introl eq_refl) "b" "c" ("b", 1) ("c", 1)); reflexivity.
  - apply (MeshDemo.reach "d" (or_intror eq_refl) "c" "b" ("c", 1) ("b", 1)); reflexivity.
  - vm_compute. reflexivity.
  - vm_compute. reflexivity.
  - assert (H : forall k, is_Some (repl_journal (s_db MeshDemo.site_a) !! k) <-> is_Some (repl_journal (s_db MeshDemo.site_d) !! k)).
    { intros k. rewrite <- !elem_of_dom.
      assert (Hdom : dom (repl_journal (s_db MeshDemo.site_a)) = dom (repl_journal (s_db MeshDemo.site_d)))
        by (vm_compute; reflexivity).
      by rewrite Hdom. }
    intros d. unfold recorded. split; intros (k & v & Hk & Hd).
    + destruct (proj1 (H k)) as [v' Hv']; [eauto|]. eauto.
    + destruct (proj2 (H k)) as [v' Hv']; [eauto|]. eauto.
Defined.
