(* ===== verification/Limits.v ===== *)
(** * Where the guarantees stop

    The clock-skew guard and its range, and concrete runs in which the code
    departs from what its comments and documents promise: events the guard
    lets through, decisions and mutable publishes that swap between two sites,
    a replicated release that lifts a derived block. *)

From S2P Require Import Prelude State StateTheory Events ReplSql Applier Safety Store Pipeline Publisher Converge.
Open Scope Z_scope.

(** ** The skew guard *)

(** No handler parks an event for its clock. *)
Lemma dispatch_reason a peer e t : dispatch a peer e t <> Err (ErrPark "clock skew").
Proof.
  unfold dispatch, applyManifestPut, mergeManifestPut, applyBlobAvailable, applyTokenRevoke,
    applyQuarantineSet, applyQuarantineRelease, applyConflictResolve, isNewerThanStored, stored_stamp,
    stamp_field, revoke_token, rbind.
  repeat case_match; simplify_eq; done.
Qed.

(** Within the range of a duration (about 292 years) the skew guard is
    exact: an event stamped more than the allowed skew ahead of this site's
    clock is parked and changes neither the clock, the journal nor any table,
    and an event within the skew is not parked for it. *)
Theorem skew_guard_exact a peer e s :
  - 2 ^ 63 <= (Wall (EHLC e) - a_now a) * 1000000 < 2 ^ 63 ->
  (a_max_skew a < (Wall (EHLC e) - a_now a) * 1000000 ->
   applyOne a peer e s = Ok (mkSite (ParkEvent e "clock skew" (s_db s)) (s_blobs s) (s_projections s), ∅)) /\
  ((Wall (EHLC e) - a_now a) * 1000000 <= a_max_skew a ->
   forall s' fs, applyOne a peer e s = Ok (s', fs) ->
   repl_parked (s_db s') = repl_parked (s_db s) \/
   exists reason, reason <> "clock skew" /\ s_db s' = ParkEvent e reason (s_db s)).
Proof.
  intros Hr.
  assert (Hs : event_skew (a_now a) e = (Wall (EHLC e) - a_now a) * 1000000).
  { unfold event_skew. rewrite (wrap64_id (Wall (EHLC e) - a_now a)) by lia. by apply wrap64_id. }
  unfold applyOne. rewrite Hs. split.
  - intros Hlt. destruct (Z.ltb_spec (a_max_skew a) ((Wall (EHLC e) - a_now a) * 1000000)); [done|lia].
  - intros Hle s' fs. destruct (Z.ltb_spec (a_max_skew a) ((Wall (EHLC e) - a_now a) * 1000000)); [lia|].
    destruct (prefetchBlob a peer e (s_blobs s)) as [blobs|err] eqn:Ep.
    + destruct (ApplyForeignJournal (a_now a) e (s_db s)) as [db []] eqn:EJ.
      * destruct (dispatch a peer e _) as [t|[]] eqn:Ed; simpl; try done; intros [= <- <-]; simpl.
        -- left. apply dispatch_clock in Ed as [_ ->]. simpl. unfold ApplyForeignJournal in EJ. simpl in EJ.
           case_match; by simplify_eq.
        -- right. exists reason. split; [|done]. intros ->. by eapply dispatch_reason.
      * simpl. intros [= <- <-]. left. simpl. unfold ApplyForeignJournal in EJ. simpl in EJ.
        case_match; by simplify_eq.
    + destruct err; try done. intros [= <- <-]. right. exists reason. split; [|done].
      unfold prefetchBlob in Ep. repeat case_match; simplify_eq; done.
Qed.

Definition future_event (wall : Z) : JournalEntry :=
  mkEntry "b" 1 KindManifestPut (encode_manifest_put (Demo.put (Demo.digest "1"%char))) (mkHLC wall 0) 1.

Lemma skew_guard_exact_witness :
  applyOne Demo.env "b" (future_event (1000 + 3600000)) Demo.site0 =
  Ok (mkSite (ParkEvent (future_event (1000 + 3600000)) "clock skew" (s_db Demo.site0)) ∅ ∅, ∅).
Proof.
  apply (skew_guard_exact Demo.env "b" (future_event (1000 + 3600000)) Demo.site0).
  - simpl. lia.
  - simpl. unfold default_max_skew. simpl. lia.
Defined.

(** Outside that range the guard is blind: the duration wraps, so an event
    stamped millions of years ahead has skew zero, is applied, and drags this
    site's clock to its stamp. *)
Theorem skew_guard_wraps :
  event_skew 1000 (future_event (1000 + 2 ^ 58)) = 0 /\
  exists s' fs, applyOne Demo.env "b" (future_event (1000 + 2 ^ 58)) Demo.site0 = Ok (s', fs) /\
    repl_parked (s_db s') = [] /\ wall_ms (hlc_state (s_db s')) = 1000 + 2 ^ 58.
Proof.
  split; [vm_compute; reflexivity|]. eexists _, _.
  split; [vm_compute; reflexivity|]. split; vm_compute; reflexivity.
Qed.

(** Parking for clock skew does not hold: the retry that follows the same
    poll applies the event, with the clock still an hour behind it. *)
Theorem skewed_event_applied_on_retry :
  let e := future_event (1000 + 3600000) in
  let s := (ApplyBatch Demo.env "b" [e] Demo.site0 ∅).1.1 in
  let s' := (RetryParked Demo.env "b" s).1.1 in
  (p_reason <$> repl_parked (s_db s)) = ["clock skew"] /\
  repl_parked (s_db s') = [] /\
  is_Some (hosted_manifests (s_db s') !! ("releases", "lib/1.0/lib.jar")) /\
  wall_ms (hlc_state (s_db s')) = 1000 + 3600000.
Proof. vm_compute. split_and!; eauto. Qed.

(** ** Decisions and mutable publishes that swap *)

(** What each of two sites holds in common before they act. *)
Definition conflicted_site (me : string) : Site :=
  MeshDemo.pull me "d" (Demo.put_event "d" 1 (Demo.digest "1"%char))
    (MeshDemo.pull me "c" (Demo.put_event "c" 1 (Demo.digest "2"%char)) Demo.site0).

Definition decision (keep : string) : ConflictResolve :=
  mkConflictResolve "releases" "lib/1.0/lib.jar" "maven:lib@1.0" keep "ops".

(** Decide at [me], then receive the decision [other] took. *)
Definition decide_then_hear (me : string) (keep : string) (other : string) (e : JournalEntry) : Site :=
  match ResolveConflictOp true 1000 me (decision keep) (s_db (conflicted_site me)) with
  | Ok (db, _, _) => (ApplyBatch (MeshDemo.env me) other [e] (mkSite db ∅ ∅) ∅).1.1
  | Err _ => Demo.site0
  end.
Definition announced (me keep : string) : JournalEntry :=
  match ResolveConflictOp true 1000 me (decision keep) (s_db (conflicted_site me)) with
  | Ok (_, e, _) => e
  | Err _ => Demo.put_event "" 0 ""
  end.
Definition served (f p : string) (s : Site) : option string :=
  h_sha256 <$> hosted_manifests (s_db s) !! (f, p).

(** Two operators deciding one conflict in the same millisecond at two
    sites do not converge: each site stamps its own record before the entry it
    announces, so each takes the other's decision as the newer one, and they
    end up serving different bytes with no conflict left open. *)
Theorem concurrent_decisions_diverge :
  let d1 := Demo.digest "1"%char in let d2 := Demo.digest "2"%char in
  let sa := decide_then_hear "a" d1 "b" (announced "b" d2) in
  let sb := decide_then_hear "b" d2 "a" (announced "a" d1) in
  served "releases" "lib/1.0/lib.jar" sa = Some d2 /\ served "releases" "lib/1.0/lib.jar" sb = Some d1 /\
  open_conflicts (s_db sa) = [] /\ open_conflicts (s_db sb) = [].
Proof. vm_compute. split_and!; reflexivity. Qed.

(** A mutable publish at [me], and the entry it journals. *)
Definition tag_request (sha : string) : PublishRequest :=
  mkPublish (mkFeed "releases" true) (mkCoord "npm" "lib" "latest") "lib/latest" sha 3 ∅ "token:ci" true (Some ∅).
Definition tagged (me sha : string) : DB :=
  match insertWithJournal 1000 me true (tag_request sha) empty_db with Ok (db, _, _) => db | Err _ => empty_db end.
Definition tag_entries (me sha : string) : list JournalEntry := ReadJournal me 0 100 (tagged me sha).

(** Two sites moving one mutable coordinate in the same millisecond do not
    converge either: each row is stamped before its own announcement, so each
    site yields to the other's, and they keep serving different bytes. *)
Theorem concurrent_mutable_publishes_diverge :
  let d1 := Demo.digest "1"%char in let d2 := Demo.digest "2"%char in
  let sa := (ApplyBatch (MeshDemo.env "a") "b" (tag_entries "b" d2) (mkSite (tagged "a" d1) ∅ ∅) ∅).1.1 in
  let sb := (ApplyBatch (MeshDemo.env "b") "a" (tag_entries "a" d1) (mkSite (tagged "b" d2) ∅ ∅) ∅).1.1 in
  served "releases" "lib/latest" sa = Some d2 /\ served "releases" "lib/latest" sb = Some d1.
Proof. vm_compute. split; reflexivity. Qed.

(** ** A derived block lifted by an event *)

Definition release_event : JournalEntry :=
  mkEntry "c" 2 KindQuarantineRelease
    (encode_quarantine_release (mkQuarantineRelease "releases" "maven:lib@1.0" conflict_reason)) (mkHLC 990 0) 1.

(** A peer can lift the conflict block: a replicated release that names
    the derived reason is applied like any other, and the coordinate is served
    again while its conflict is still open. *)
Theorem conflict_block_lifted_by_event :
  let s := conflicted_site "a" in
  let s' := (ApplyBatch (MeshDemo.env "a") "c" [release_event] s ∅).1.1 in
  let key := ("releases", "maven:lib@1.0", conflict_reason) in
  q_active <$> quarantine (s_db s) !! key = Some true /\
  q_active <$> quarantine (s_db s') !! key = Some false /\
  length (open_for (s_db s') "releases" "maven:lib@1.0") = 1%nat.
Proof. vm_compute. split_and!; reflexivity. Qed.
