(* ===== verification/Manager.v ===== *)
(** * The replication manager and the API it polls: [core/repl/manager.go],
    [core/repl/api.go], [core/repl/puller.go]

    One poll cycle of a peer: handshake and identity pin, catch-up through the
    peer's journal page by page, snapshot bootstrap when the cursor fell behind
    the peer's retention, pruning, retry of parked events. A peer is what it
    answers: [PeerAPI] holds its responses, which may be those of an honest
    server ([handleJournal] over that site's database) or anything else.
    Loops that page through a peer carry fuel; the theorems say how much is
    enough against an honest peer and that none is against a misbehaving one. *)

From S2P Require Import Prelude State StateTheory Events ReplSql Applier Safety Store.
Open Scope Z_scope.

(** ** The server side *)

(** [handleJournal]: a page after a sequence, or 410 when the entries in
    between were pruned; asking acknowledges what came before. *)
Inductive journal_reply :=
| Page (entries : list JournalEntry) (head : Z)
| Gone
| Failed (what : string).

Definition handleJournal (now : Z) (site peer origin : string) (after limit : Z) (db : DB)
    : DB * journal_reply :=
  let origin := if decide (origin = "") then site else origin in
  let '(head, oldest) := JournalHead origin db in
  if after + 1 <? oldest then (db, Gone)
  else
    let entries := ReadJournal origin after limit db in
    let db := if bool_decide (origin = site) && (0 <? after) && (after <=? head)
              then RecordPeerAck now peer site after db else db in
    (db, Page entries head).

(** [handleStatus]'s heads. *)
Definition handleStatus_heads (site : string) (db : DB) : gmap string Z :=
  let origins := KnownOrigins db in
  let origins := if decide (origins = ∅) then {[site]} else origins in
  set_to_map (fun o => (o, (JournalHead o db).1)) origins.

(** [parseResumeOffset]: the start of an open-ended byte range. *)
Definition parseResumeOffset (header : string) : option Z :=
  if negb (has_prefix header "bytes=") then None
  else
    let spec := String.substring 6 (String.length header - 6) header in
    match split spec "-"%char with
    | [start; EmptyString] =>
        match parse_int start with
        | Some n => if n <? 0 then None else Some n
        | None => None
        end
    | _ => None
    end.

(** ** What a peer answers *)

Record QuarantineRecord := mkQRecord {
  qr_rec_feed : string; qr_rec_coordinate : string; qr_rec_reason : string; qr_rec_detail : string;
  qr_rec_active : bool; qr_rec_hlc : HLC;
}.
Record ResolutionRecord := mkRRecord {
  rr_feed : string; rr_path : string; rr_coordinate : string; rr_decision : resolution; rr_operator : string;
}.

(** [SnapshotResponse]. *)
Record SnapshotResponse := mkSnapshot {
  sn_site : string;
  sn_uuid : string;
  sn_manifests : list ManifestPut;
  sn_revoked : list string;
  sn_quarantine : list QuarantineRecord;
  sn_resolutions : list ResolutionRecord;
  sn_conflicts : list ConflictRow;
  sn_watermarks : gmap string Z;
}.

Record PeerAPI := mkPeer {
  pc_name : string;
  pc_status : result string (string * string * gmap string Z);   (** site, uuid, heads *)
  pc_journal : string -> Z -> Z -> journal_reply;                  (** origin, after, limit *)
  pc_snapshot : result string SnapshotResponse;
}.

(** [Client.Journal]: entries of another origin are refused. *)
Definition Client_Journal (c : PeerAPI) (origin : string) (after limit : Z) : journal_reply :=
  match pc_journal c origin after limit with
  | Page entries head =>
      if forallb (fun e => bool_decide (OriginSite e = origin)) entries then Page entries head
      else Failed "entry attributed to another origin"
  | r => r
  end.

(** [Client.Status]: a peer that is not who it is configured to be, or has no
    UUID, is refused. *)
Definition Client_Status (c : PeerAPI) : result string (string * gmap string Z) :=
  match pc_status c with
  | Err e => Err e
  | Ok (site, uuid, heads) =>
      if decide (site <> pc_name c) then Err "peer identifies as another site"
      else if decide (uuid = "") then Err "peer reported no site UUID"
      else Ok (uuid, heads)
  end.

(** ** Bootstrap *)

Definition SchemaVersion : Z := 1.

(** [hlcFromMetadata]. *)
Definition hlcFromMetadata (m : gmap string string) : HLC :=
  let num key := match parse_int (default "" (m !! key)) with Some v => v | None => 0 end in
  mkHLC (num "hlc_wall") (num "hlc_logical").

(** The newest stamp of a snapshot. *)
Definition newest_stamp (sn : SnapshotResponse) : HLC :=
  foldl (fun acc h => if Before acc h then h else acc) (mkHLC 0 0)
    ((hlcFromMetadata ∘ mp_metadata <$> sn_manifests sn) ++ (qr_rec_hlc <$> sn_quarantine sn) ++
     (res_hlc ∘ rr_decision <$> sn_resolutions sn)).

(** [advanceClockPastSnapshot]. *)
Definition advanceClockPastSnapshot (sn : SnapshotResponse) (db : DB) : DB :=
  let newest := newest_stamp sn in
  if (Wall newest =? 0) && (Logical newest =? 0) then db else ReceiveClock db newest.

Definition import_quarantine (db : DB) (q : QuarantineRecord) : DB :=
  if bool_decide (qr_rec_feed q = "") || bool_decide (qr_rec_coordinate q = "") ||
     bool_decide (qr_rec_reason q = "") || bool_decide (qr_rec_reason q = conflict_reason) then db
  else ApplyQuarantineDecisionTx (qr_rec_feed q) (qr_rec_coordinate q) (qr_rec_reason q)
         (qr_rec_detail q) (qr_rec_active q) (qr_rec_hlc q) db.

Definition import_conflict (db : DB) (c : ConflictRow) : DB :=
  if bool_decide (c_feed c = "") || bool_decide (c_path c = "") ||
     negb (String.length (c_winner c) =? 64)%nat || negb (String.length (c_loser c) =? 64)%nat then db
  else importConflictTx c db.

Definition import_resolution (peer : string) (db : DB) (r : ResolutionRecord) : DB :=
  if bool_decide (rr_feed r = "") || bool_decide (rr_path r = "") ||
     negb (String.length (KeepSHA (rr_decision r)) =? 64)%nat then db
  else recordResolution (rr_feed r) (rr_path r) (rr_coordinate r) (rr_decision r) (rr_operator r) peer db.

Fixpoint import_revoked (hashes : list string) (db : DB) : result repl_error DB :=
  match hashes with
  | [] => Ok db
  | h :: hs =>
      if negb (String.length h =? 64)%nat then import_revoked hs db
      else let? db := revoke_token h db in import_revoked hs db
  end.

(** [applySnapshotRestrictions]: one transaction; blocks, conflicts, decisions
    and revocations. *)
Definition applySnapshotRestrictions (peer : string) (sn : SnapshotResponse) (db : DB)
    : result repl_error DB :=
  let db := foldl import_quarantine db (sn_quarantine sn) in
  let db := foldl import_conflict db (sn_conflicts sn) in
  let db := foldl (import_resolution peer) db (sn_resolutions sn) in
  import_revoked (sn_revoked sn) db.

(** The entry a snapshot's manifest is imported as. *)
Definition snapshot_entry (sn : SnapshotResponse) (p : ManifestPut) : JournalEntry :=
  mkEntry (sn_site sn) 0 KindManifestPut (encode_manifest_put p) (hlcFromMetadata (mp_metadata p))
    SchemaVersion.

(** The manifests of a snapshot, one transaction each. *)
Fixpoint import_manifests (a : Env) (peer : string) (sn : SnapshotResponse) (ps : list ManifestPut)
    (s : Site) (touched : gset string) : Site * gset string * option repl_error :=
  match ps with
  | [] => (s, touched, None)
  | p :: ps' =>
      let e := snapshot_entry sn p in
      let blobs := match prefetchBlob a peer e (s_blobs s) with Ok b => b | Err _ => s_blobs s end in
      match importSnapshotEntry a peer e (mkTxn (s_db s) blobs touched []) with
      | Err err => (mkSite (s_db s) blobs (s_projections s), touched, Some err)
      | Ok t =>
          import_manifests a peer sn ps'
            (mkSite (tx_db t) (tx_blobs t) (flushProjections a (tx_pending t) (s_projections s))) (tx_touched t)
      end
  end.

Definition with_tables (s : Site) (db : DB) : Site := mkSite db (s_blobs s) (s_projections s).

(** [setCursor]. *)
Definition setCursor (now : Z) (peer origin : string) (applied durable : Z) (uuid : string) (s : Site) : Site :=
  with_tables s (SetCursorTx now peer origin applied durable ""
                   (if decide (uuid = "") then None else Some uuid) (s_db s)).

(** [bootstrap]. *)
Definition bootstrap (a : Env) (c : PeerAPI) (s : Site) (touched : gset string)
    : Site * gset string * option repl_error :=
  match pc_snapshot c with
  | Err e => (s, touched, Some (ErrSQL e))
  | Ok sn =>
      if decide (sn_site sn <> pc_name c) then
        (s, touched, Some (ErrThirdSite (pc_name c) (sn_site sn)))
      else
        match applySnapshotRestrictions (pc_name c) sn (s_db s) with
        | Err e => (s, touched, Some e)
        | Ok db =>
            match import_manifests a (pc_name c) sn (sn_manifests sn) (with_tables s db) touched with
            | (s, touched, Some e) => (s, touched, Some e)
            | (s, touched, None) =>
                let s := with_tables s (advanceClockPastSnapshot sn (s_db s)) in
                let s := match sn_watermarks sn !! sn_site sn with
                         | Some seq => setCursor (a_now a) (pc_name c) (sn_site sn) seq 0 (sn_uuid sn) s
                         | None => s
                         end in
                (s, touched, None)
            end
        end
  end.

(** ** Catching up *)

(** [durableThrough]: the highest sequence whose blobs are all here, judged
    from one page. *)
Definition durableThrough (blobs : gset string) (entries : list JournalEntry) (fallback : Z) : Z :=
  let durable :=
    foldl (fun durable e =>
      if decide (Kind e <> KindManifestPut) then durable
      else match decode_manifest_put (Payload e) with
           | None => durable
           | Some p =>
               if decide (mp_sha256 p = "" \/ mp_sha256 p ∈ blobs) then durable
               else Z.min (OriginSeq e - 1) durable
           end) fallback entries in
  if durable <? 0 then 0 else durable.

Definition journalBatch : Z := 200.

(** One round of [catchUp]'s loop: the outcome it returns with, or the head,
    the site and the feeds touched it goes round again with. *)
Definition catchUp_page (a : Env) (c : PeerAPI) (origin : string) (head : Z) (uuid : string)
    (s : Site) (touched : gset string)
    : (Site * gset string * option repl_error) + (Z * Site * gset string) :=
  let cursor := GetCursor (pc_name c) origin (s_db s) in
  let known := default "" (OriginUUID cursor) in
  let '(s, applied) :=
    if decide (known <> "" /\ uuid <> "" /\ known <> uuid) then
      (setCursor (a_now a) (pc_name c) origin 0 0 uuid
         (with_tables s (ForgetOriginJournal origin (s_db s))), 0)
    else (s, AppliedSeq cursor) in
  if head <=? applied then inl (s, touched, None)
  else
    match Client_Journal c origin applied journalBatch with
    | Gone => inl (bootstrap a c s touched)
    | Failed e => inl (s, touched, Some (ErrSQL e))
    | Page [] _ => inl (s, touched, None)
    | Page ((e0 :: es) as entries) pageHead =>
        match ApplyBatch a (pc_name c) entries s touched with
        | (s, touched, Some e) => inl (s, touched, Some e)
        | (s, touched, None) =>
            let last := OriginSeq (List.last entries e0) in
            let durable := durableThrough (s_blobs s) entries last in
            inr (if head <? pageHead then pageHead else head,
                 setCursor (a_now a) (pc_name c) origin last durable uuid s, touched)
        end
    end.

(** [catchUp]; [None] when the fuel ran out. *)
Fixpoint catchUp (fuel : nat) (a : Env) (c : PeerAPI) (origin : string) (head : Z) (uuid : string)
    (s : Site) (touched : gset string) : option (Site * gset string * option repl_error) :=
  match fuel with
  | O => None
  | S fuel' =>
      match catchUp_page a c origin head uuid s touched with
      | inl out => Some out
      | inr (head, s, touched) => catchUp fuel' a c origin head uuid s touched
      end
  end.

(** The acknowledgement floor of [pruneJournal]. *)
Definition prune_acknowledged (site : string) (peers : list string) (db : DB) : DB :=
  match MinCursorAcrossPeers site peers db with
  | Some watermark => if 0 <? watermark then PruneJournal site (watermark + 1) db else db
  | None => db
  end.

(** [pruneJournal]: what every peer acknowledged, then what retention drops. *)
Definition pruneJournal (now : Z) (site : string) (retention : Z) (peers : list string) (db : DB) : DB :=
  if retention <=? 0 then db
  else PruneJournalOlderThan now "" retention (prune_acknowledged site peers db).

(** [pollPeer]: one cycle; [retention] and [peers] as configured. *)
Definition pollPeer (fuel : nat) (a : Env) (c : PeerAPI) (retention : Z) (peers : list string) (s : Site)
    : option Site :=
  match Client_Status c with
  | Err e => Some (with_tables s (RecordCursorError (pc_name c) "*" e (s_db s)))
  | Ok (uuid, heads) =>
      match PinPeerIdentity (pc_name c) uuid (s_db s) with
      | Err _ => Some (with_tables s (RecordCursorError (pc_name c) "*" "identity changed" (s_db s)))
      | Ok db =>
          let s := with_tables s (MarkPeerPollOK (a_now a) (pc_name c) [pc_name c] (Some uuid) db) in
          let caught :=
            match heads !! pc_name c with
            | None => Some s
            | Some head =>
                match catchUp fuel a c (pc_name c) head uuid s ∅ with
                | None => None
                | Some (s, _, Some e) =>
                    Some (with_tables s (RecordCursorError (pc_name c) (pc_name c) "catch-up failed" (s_db s)))
                | Some (s, _, None) => Some s
                end
            end in
          match caught with
          | None => None
          | Some s =>
              let s := with_tables s (pruneJournal (a_now a) (a_site a) retention peers (s_db s)) in
              Some (RetryParked a (pc_name c) s).1.1
          end
      end
  end.

(** The states a poll goes through: those between the rounds of its catch-up
    loop, which may not end, and the one it ends in. *)
Definition next_page (a : Env) (c : PeerAPI) (uuid : string) (x y : Z * Site * gset string) : Prop :=
  catchUp_page a c (pc_name c) x.1.1 uuid x.1.2 x.2 = inr y.
Inductive poll_visits (a : Env) (c : PeerAPI) (retention : Z) (peers : list string) (s : Site) : Site -> Prop :=
| visits_end fuel s' : pollPeer fuel a c retention peers s = Some s' -> poll_visits a c retention peers s s'
| visits_page uuid heads db head head' s' touched :
    Client_Status c = Ok (uuid, heads) -> PinPeerIdentity (pc_name c) uuid (s_db s) = Ok db ->
    heads !! pc_name c = Some head ->
    rtc (next_page a c uuid)
      (head, with_tables s (MarkPeerPollOK (a_now a) (pc_name c) [pc_name c] (Some uuid) db), ∅) (head', s', touched) ->
    poll_visits a c retention peers s s'.

(** ** What a batch accounts for *)

(** The replication bookkeeping an event handler never touches. *)
Definition bookkeeping (db : DB) :=
  (repl_journal db, repl_parked db, repl_cursors db, repl_peer_identity db).

(** Close the obligations of the preservation section about a projection of
    the tables that no event handler writes. *)
Ltac frame_tables :=
  try done; cbv zeta; intros;
  match goal with H : ?f _ = _ |- ?f _ = _ => rewrite <- H; clear H end;
  try (unfold revoke_token in *; repeat case_match; simplify_eq; reflexivity);
  unfold applyResolutionTx; untouched.

Lemma dispatch_bookkeeping a peer e t t' :
  dispatch a peer e t = Ok t' -> bookkeeping (tx_db t') = bookkeeping (tx_db t).
Proof.
  intros H.
  apply (preserved_dispatch (fun db => bookkeeping db = bookkeeping (tx_db t)) (fun _ => True) a)
    with (peer := peer) (e := e) (t := t) (t' := t'); try done; clear H; frame_tables.
Qed.

(** An event is accounted for when this site recorded it or parked it. *)
Definition accounted (db : DB) (e : JournalEntry) : Prop :=
  is_Some (repl_journal db !! park_key e) \/
  exists r, r ∈ repl_parked db /\ park_key (p_entry r) = park_key e.

Lemma accounted_park db e' e reason :
  accounted db e' \/ park_key e' = park_key e -> accounted (ParkEvent e reason db) e'.
Proof.
  unfold accounted, ParkEvent. simpl. intros H. destruct (existsb _ _) eqn:Ex.
  - destruct H as [[H|(r & Hr & Hk)]|H]; [by left|right|right].
    + eexists. split; [by apply list_elem_of_fmap_2|]. by case_decide.
    + apply existsb_exists in Ex as (r & Hr & Hk%bool_decide_eq_true). apply list_elem_of_In in Hr.
      eexists. split; [by apply list_elem_of_fmap_2|]. case_decide; simpl; congruence.
  - destruct H as [[H|(r & Hr & Hk)]|H]; [by left|right|right].
    + exists r. split; [apply elem_of_app; by left|done].
    + eexists. split; [apply elem_of_app; right; by apply list_elem_of_singleton|done].
Qed.

Lemma accounted_bookkeeping db db' e :
  bookkeeping db' = bookkeeping db -> accounted db e -> accounted db' e.
Proof. unfold bookkeeping, accounted. intros [= -> -> _ _]. done. Qed.

Lemma accounted_journal now e db e' :
  accounted db e' \/ park_key e' = park_key e -> accounted (ApplyForeignJournal now e db).1 e'.
Proof.
  unfold accounted, ApplyForeignJournal, ReceiveClock. simpl. intros H.
  change (OriginSite e, OriginSeq e) with (park_key e).
  destruct (repl_journal db !! park_key e) eqn:E; simpl.
  - destruct H as [H|H]; [done|]. left. rewrite H, E. eauto.
  - destruct (decide (park_key e' = park_key e)) as [Hk|Hk].
    + left. rewrite Hk, lookup_insert_eq. eauto.
    + rewrite lookup_insert_ne by done. naive_solver.
Qed.

(** One event is accounted for and nothing is forgotten. *)
Lemma applyOne_accounted a peer e s s' fs e' :
  applyOne a peer e s = Ok (s', fs) ->
  accounted (s_db s) e' \/ park_key e' = park_key e -> accounted (s_db s') e'.
Proof.
  unfold applyOne. case_match; [intros [= <- <-]; apply accounted_park|].
  destruct (prefetchBlob _ _ _ _) as [blobs|[]]; try (intros [= <- <-]; apply accounted_park); [|done..].
  intros Ha Hacc. apply (accounted_journal (a_now a)) in Hacc as Hj.
  destruct (ApplyForeignJournal _ _ _) as [db []] eqn:EJ; simpl in *.
  - destruct (dispatch a peer e _) as [t|[]] eqn:Ed; simplify_eq; simpl; [|by apply accounted_park].
    eapply accounted_bookkeeping; [eapply dispatch_bookkeeping, Ed|done].
  - by simplify_eq.
Qed.

Lemma batch_accounted a peer es s touched s' touched' err e' :
  ApplyBatch a peer es s touched = (s', touched', err) ->
  accounted (s_db s) e' \/ (err = None /\ e' ∈ es /\ OriginSite e' <> a_site a) ->
  accounted (s_db s') e'.
Proof.
  revert s touched. induction es as [|e es IH]; intros s touched; simpl.
  - intros [= <- <- <-] [?|(_ & []%not_elem_of_nil & _)]. done.
  - case_decide as Ho.
    { intros HB [?|(-> & [->|?]%elem_of_cons & ?)]; [|done|]; eapply IH; eauto. }
    case_decide as Hp; [intros [= <- <- <-] [?|[? _]]; done|].
    destruct (applyOne a peer e s) as [[s1 fs]|er] eqn:E1; [|intros [= <- <- <-] [?|[? _]]; done].
    pose proof (applyOne_accounted _ _ _ _ _ _ e' E1) as H1.
    intros HB [?|(-> & [->|?]%elem_of_cons & ?)]; eapply IH; eauto.
Qed.

Lemma batch_cursors a peer es s touched :
  repl_cursors (s_db (ApplyBatch a peer es s touched).1.1) = repl_cursors (s_db s).
Proof.
  apply (preserved_ApplyBatch (fun db => repl_cursors db = repl_cursors (s_db s)) (fun _ => True) a);
    frame_tables.
Qed.

(** ** Catching up with an honest peer *)

Lemma filter_length_lt {A} (P Q : A -> Prop) `{!forall x, base.Decision (P x), !forall x, base.Decision (Q x)}
    (l : list A) x :
  (forall y, Q y -> P y) -> x ∈ l -> P x -> ~ Q x ->
  (length (filter Q l) < length (filter P l))%nat.
Proof.
  intros HQP Hx HP HQ.
  assert (Hle : forall l, (length (filter Q l) <= length (filter P l))%nat).
  { intros k. induction k as [|y k IH]; [done|]. rewrite !filter_cons.
    destruct (decide (Q y)) as [Hy|]; [rewrite decide_True by auto; simpl; lia|].
    case_decide; simpl; lia. }
  induction l as [|y l IH]; [by apply not_elem_of_nil in Hx|]. rewrite !filter_cons.
  apply elem_of_cons in Hx as [<-|Hx].
  - rewrite (decide_False (P := Q x)) by done. rewrite decide_True by done.
    specialize (Hle l). simpl. lia.
  - specialize (IH Hx). destruct (decide (Q y)) as [Hy|]; [rewrite decide_True by auto; simpl; lia|].
    case_decide; simpl; lia.
Qed.

(** A peer that answers its journal from its tables. *)
Definition honest (now : Z) (me : string) (c : PeerAPI) (pdb : DB) : Prop :=
  journal_keyed pdb /\ pc_name c <> "" /\
  forall origin after limit, pc_journal c origin after limit =
    (handleJournal now (pc_name c) me origin after limit pdb).2.

(** The cursor kept for a peer's own stream, and the stream's identity. *)
Definition applied (c : PeerAPI) (db : DB) : Z := AppliedSeq (GetCursor (pc_name c) (pc_name c) db).

Definition rebuilt (c : PeerAPI) (uuid : string) (db : DB) : Prop :=
  let known := default "" (OriginUUID (GetCursor (pc_name c) (pc_name c) db)) in
  known <> "" /\ uuid <> "" /\ known <> uuid.
#[export] Instance rebuilt_dec c uuid db : base.Decision (rebuilt c uuid db).
Proof. unfold rebuilt. apply _. Defined.

(** How many of the peer's entries come after a sequence. *)
Definition remaining (c : PeerAPI) (pdb : DB) (after : Z) : nat :=
  length (filter (fun e => after < OriginSeq e) (origin_entries pdb (pc_name c)).*1).

(** Every entry between [start] and the cursor is accounted for. *)
Definition covered (c : PeerAPI) (pdb : DB) (start : Z) (db : DB) : Prop :=
  forall e t, repl_journal pdb !! (pc_name c, OriginSeq e) = Some (e, t) ->
    start < OriginSeq e <= applied c db -> accounted db e.

Lemma foldl_max_ge l s x : x ∈ s :: l -> x <= foldl Z.max s l.
Proof.
  assert (Hi : forall l s, s <= foldl Z.max s l).
  { intros k. induction k as [|y k IH]; simpl; intros u; [lia|]. specialize (IH (Z.max u y)). lia. }
  intros [->|Hx]%elem_of_cons; [apply Hi|]. revert s.
  induction l as [|y l IH]; simpl; intros s; [by apply not_elem_of_nil in Hx|].
  apply elem_of_cons in Hx as [->|Hx]; [|by apply IH].
  specialize (Hi l (Z.max s y)). lia.
Qed.

Lemma JournalHead_ge db origin e t :
  repl_journal db !! (origin, OriginSeq e) = Some (e, t) -> OriginSeq e <= (JournalHead origin db).1.
Proof.
  intros Hl. unfold JournalHead.
  assert (Hin : OriginSeq e ∈ OriginSeq <$> (origin_entries db origin).*1).
  { apply list_elem_of_fmap_2. apply list_elem_of_fmap. exists (e, t). split; [done|].
    unfold origin_entries. apply list_elem_of_fmap. exists ((origin, OriginSeq e), (e, t)).
    split; [done|]. apply list_elem_of_filter. split; [done|]. by apply elem_of_map_to_list. }
  destruct (OriginSeq <$> _) as [|s ss]; [by apply not_elem_of_nil in Hin|]. by apply foldl_max_ge.
Qed.

Section catch_up.
Context (a : Env) (c : PeerAPI) (pdb : DB) (now : Z) (me uuid : string).
Context (Hhonest : honest now me c pdb) (Hself : pc_name c <> a_site a).

Lemma page_honest after :
  (JournalHead (pc_name c) pdb).2 <= after + 1 ->
  Client_Journal c (pc_name c) after journalBatch =
  Page (ReadJournal (pc_name c) after journalBatch pdb) (JournalHead (pc_name c) pdb).1.
Proof.
  destruct Hhonest as (Hk & Hn & Hj). intros Ho. unfold Client_Journal. rewrite Hj.
  unfold handleJournal. rewrite decide_False by done.
  destruct (JournalHead (pc_name c) pdb) as [head oldest]. simpl in *.
  destruct (Z.ltb_spec (after + 1) oldest); [lia|]. simpl.
  rewrite (proj2 (forallb_forall _ _)); [done|]. intros e He%list_elem_of_In.
  apply bool_decide_eq_true. by apply (ReadJournal_spec (pc_name c) after journalBatch pdb Hk).
Qed.

(** The last sequence of a page covers the page and leaves less to read. *)
Lemma page_last after e0 es (last := List.last (e0 :: es) e0) :
  ReadJournal (pc_name c) after journalBatch pdb = e0 :: es ->
  after < OriginSeq last /\ (remaining c pdb (OriginSeq last) < remaining c pdb after)%nat /\
  forall e t, repl_journal pdb !! (pc_name c, OriginSeq e) = Some (e, t) ->
    after < OriginSeq e <= OriginSeq last -> e ∈ e0 :: es /\ OriginSite e = pc_name c.
Proof.
  intros Hpage. destruct Hhonest as (Hk & _ & _).
  destruct (ReadJournal_spec (pc_name c) after journalBatch pdb Hk) as (_ & _ & Hin & Hall).
  rewrite Hpage in *.
  assert (Hlast : last ∈ e0 :: es).
  { subst last. apply list_elem_of_In. rewrite (List.app_removelast_last e0 (l := e0 :: es)) at 2 by done.
    apply in_app_iff. right. by left. }
  destruct (Hin _ Hlast) as (Hs & Ha & t0 & Ht0). split_and!; [done| |].
  - unfold remaining. eapply (filter_length_lt _ _ _ last); [intros; lia| |done|lia].
    apply elem_of_origin_entries; eauto.
  - intros e t Ht [H1 H2]. split.
    + destruct (Hall e t Ht H1) as [?|[_ Hle]]; [done|]. specialize (Hle _ Hlast).
      replace e with last; [done|]. replace (OriginSeq e) with (OriginSeq last) in Ht by lia. congruence.
    + pose proof (Hk _ _ _ Ht). congruence.
Qed.

Lemma covered_page start after e0 es s s' touched touched' durable
    (last := List.last (e0 :: es) e0) :
  ReadJournal (pc_name c) after journalBatch pdb = e0 :: es -> after = applied c (s_db s) ->
  ApplyBatch a (pc_name c) (e0 :: es) s touched = (s', touched', None) ->
  covered c pdb start (s_db s) ->
  covered c pdb start (s_db (setCursor (a_now a) (pc_name c) (pc_name c) (OriginSeq last) durable uuid s')).
Proof.
  intros Hpage -> HB Hc e t Ht. destruct (page_last _ _ _ Hpage) as (_ & _ & Hall).
  unfold applied, GetCursor. simpl. rewrite lookup_insert_eq. intros [H1 H2].
  assert (H2' : OriginSeq e <= OriginSeq last) by (by destruct (repl_cursors _ !! _)).
  change (accounted (s_db s') e). eapply batch_accounted; [done|].
  destruct (Z.le_gt_cases (OriginSeq e) (applied c (s_db s))); [left; by eapply Hc|right].
  destruct (Hall e t Ht) as [He Hs]; [done|]. split_and!; [done..|congruence].
Qed.

Lemma setCursor_applied seq durable s :
  applied c (s_db (setCursor (a_now a) (pc_name c) (pc_name c) seq durable uuid s)) = seq.
Proof. unfold applied, GetCursor. simpl. rewrite lookup_insert_eq. by case_match. Qed.

Lemma setCursor_rebuilt seq durable s :
  ~ rebuilt c uuid (s_db (setCursor (a_now a) (pc_name c) (pc_name c) seq durable uuid s)).
Proof.
  unfold rebuilt, GetCursor. simpl. rewrite lookup_insert_eq.
  destruct (repl_cursors _ !! _); simpl; case_decide; simpl; naive_solver.
Qed.

(** An error that stops a batch of the peer's entries is the error of applying
    one of them. *)
Lemma batch_error es s touched s' touched' er :
  (forall e, e ∈ es -> OriginSite e = pc_name c) ->
  ApplyBatch a (pc_name c) es s touched = (s', touched', Some er) ->
  exists e s1, e ∈ es /\ applyOne a (pc_name c) e s1 = Err er.
Proof.
  revert s touched. induction es as [|e es IH]; intros s touched Hes; simpl; [done|].
  assert (forall e', e' ∈ es -> OriginSite e' = pc_name c) as Hes' by (intros; apply Hes; by right).
  case_decide as Ho; [intros (e' & s1 & ? & ?)%IH; [|done]; exists e', s1; split; [by right|done]|].
  rewrite (Hes e) by by left. rewrite decide_False by (intros Hn; done).
  destruct (applyOne a (pc_name c) e s) as [[s1 fs]|er1] eqn:E.
  - intros (e' & s2 & ? & ?)%IH; [|done]. exists e', s2. split; [by right|done].
  - intros [= _ _ ->]. exists e, s. split; [by left|done].
Qed.

(** What a run of the loop guarantees of its outcome. *)
Definition caught_up (start : Z) (out : option (Site * gset string * option repl_error)) : Prop :=
  exists s' touched' err, out = Some (s', touched', err) /\ covered c pdb start (s_db s') /\
    match err with
    | None => forall e t, repl_journal pdb !! (pc_name c, OriginSeq e) = Some (e, t) ->
                OriginSeq e <= applied c (s_db s')
    | Some er => exists e t s1, repl_journal pdb !! (pc_name c, OriginSeq e) = Some (e, t) /\
                   applied c (s_db s') < OriginSeq e /\ applyOne a (pc_name c) e s1 = Err er
    end.

Lemma catchUp_loop start fuel head s touched :
  ~ rebuilt c uuid (s_db s) -> covered c pdb start (s_db s) ->
  (JournalHead (pc_name c) pdb).2 <= applied c (s_db s) + 1 ->
  (JournalHead (pc_name c) pdb).1 <= head ->
  (remaining c pdb (applied c (s_db s)) < fuel)%nat ->
  caught_up start (catchUp fuel a c (pc_name c) head uuid s touched).
Proof.
  revert head s touched. induction fuel as [|fuel IH]; intros head s touched Hr Hc Hold Hhead Hf; [lia|].
  cbn [catchUp]. unfold catchUp_page. rewrite decide_False by exact Hr. fold (applied c (s_db s)).
  destruct (Z.leb_spec head (applied c (s_db s))) as [Hle|Hlt].
  { eexists _, _, None. split_and!; [done..|]. intros e t Ht%JournalHead_ge. lia. }
  rewrite (page_honest _ Hold).
  destruct (ReadJournal _ _ _ _) as [|e0 es] eqn:Hpage.
  { eexists _, _, None. split_and!; [done..|]. intros e t Ht.
    destruct (Z.le_gt_cases (OriginSeq e) (applied c (s_db s))) as [|Hgt]; [done|].
    destruct Hhonest as (Hk & _).
    destruct (ReadJournal_spec (pc_name c) (applied c (s_db s)) journalBatch pdb Hk) as (_ & _ & _ & Hall).
    rewrite Hpage in Hall. destruct (Hall e t Ht) as [[]%not_elem_of_nil|[]]; [lia|done]. }
  destruct (page_last _ _ _ Hpage) as (Hl & Hrem & _).
  pose proof (batch_cursors a (pc_name c) (e0 :: es) s touched) as Hcur.
  destruct (ApplyBatch _ _ _ _ _) as [[s1 touched1] [err|]] eqn:HB.
  - eexists _, _, (Some err). split_and!; [reflexivity| |].
    + intros e t Ht Hb. eapply batch_accounted; [done|left].
      eapply Hc; [done|]. unfold applied, GetCursor in *. simpl in Hcur. by rewrite Hcur in Hb.
    + destruct Hhonest as (Hk & _).
      destruct (ReadJournal_spec (pc_name c) (applied c (s_db s)) journalBatch pdb Hk) as (_ & _ & Hin & _).
      rewrite Hpage in Hin. destruct (batch_error _ _ _ _ _ _ (fun e He => proj1 (Hin e He)) HB) as (e & s2 & He & Hone).
      destruct (Hin e He) as (_ & Ha & t & Ht). exists e, t, s2. split_and!; [done| |done].
      unfold applied, GetCursor in *. simpl in Hcur. by rewrite Hcur.
  - apply IH; rewrite ?setCursor_applied; [apply setCursor_rebuilt| |lia|case_match; lia|lia].
    by eapply covered_page.
Qed.
End catch_up.

Lemma catchUp_reset fuel a c head uuid s touched :
  rebuilt c uuid (s_db s) ->
  catchUp (S fuel) a c (pc_name c) head uuid s touched =
  catchUp (S fuel) a c (pc_name c) head uuid
    (setCursor (a_now a) (pc_name c) (pc_name c) 0 0 uuid
       (with_tables s (ForgetOriginJournal (pc_name c) (s_db s)))) touched.
Proof.
  intros Hr. cbn [catchUp]. unfold catchUp_page. rewrite (decide_True (P := _ /\ _)) by exact Hr.
  rewrite (decide_False (P := _ /\ _)) by apply setCursor_rebuilt.
  pose proof (setCursor_applied a c uuid 0 0
    (with_tables s (ForgetOriginJournal (pc_name c) (s_db s)))) as Ha.
  unfold applied in Ha. by rewrite Ha.
Qed.

(** C5. Catching up misses nothing: against a peer that answers from its own
    journal and has not pruned what follows the cursor, the loop returns as
    soon as its fuel exceeds the number of entries left to read. Either it
    returns without an error, and every entry after the cursor it started from
    (from the first entry when the peer was rebuilt under a new identity) has
    been recorded or parked here; or with the error of applying one of the
    peer's entries beyond the cursor it left behind, and every entry up to that
    cursor has been recorded or parked. *)
Theorem catch_up_complete a c pdb now me uuid s touched fuel
    (start := if decide (rebuilt c uuid (s_db s)) then 0 else applied c (s_db s)) :
  honest now me c pdb -> pc_name c <> a_site a ->
  (JournalHead (pc_name c) pdb).2 <= start + 1 ->
  (remaining c pdb start < fuel)%nat ->
  exists s' touched' err,
    catchUp fuel a c (pc_name c) (JournalHead (pc_name c) pdb).1 uuid s touched =
      Some (s', touched', err) /\
    (forall e t, repl_journal pdb !! (pc_name c, OriginSeq e) = Some (e, t) -> start < OriginSeq e ->
      err = None \/ OriginSeq e <= applied c (s_db s') -> accounted (s_db s') e) /\
    forall er, err = Some er -> exists e t s1, repl_journal pdb !! (pc_name c, OriginSeq e) = Some (e, t) /\
      applied c (s_db s') < OriginSeq e /\ applyOne a (pc_name c) e s1 = Err er.
Proof.
  intros Hh Hself Hold Hf.
  assert (H : caught_up a c pdb start
    (catchUp fuel a c (pc_name c) (JournalHead (pc_name c) pdb).1 uuid s touched)).
  { destruct fuel as [|fuel]; [lia|]. subst start. destruct (decide (rebuilt c uuid (s_db s))) as [Hr|Hr].
    - rewrite catchUp_reset by done.
      eapply catchUp_loop; rewrite ?setCursor_applied; eauto using setCursor_rebuilt; [|lia].
      intros e t _. rewrite setCursor_applied. lia.
    - eapply catchUp_loop; eauto; [|lia]. intros e t _. lia. }
  destruct H as (s' & touched' & err & -> & Hc & Hend). eexists _, _, _. split; [done|]. split.
  - intros e t Ht Hs [->|He]; (eapply Hc; [done|]); [specialize (Hend e t Ht)|]; lia.
  - intros er ->. exact Hend.
Qed.

(** The peer a site is to another: its answers computed from its tables. *)
Definition peer_of (now : Z) (me site uuid : string) (pdb : DB) : PeerAPI :=
  mkPeer site (Ok (site, uuid, handleStatus_heads site pdb))
    (fun origin after limit => (handleJournal now site me origin after limit pdb).2)
    (Err "no snapshot").

Lemma peer_of_honest now me site uuid pdb :
  journal_keyed pdb -> site <> "" -> honest now me (peer_of now me site uuid pdb) pdb.
Proof. intros. unfold honest. by split_and!. Qed.

(** A peer that published one coordinate. *)
Definition publishing_peer : DB := AppendManifestPut 900 "b" (Demo.put (Demo.digest "1"%char)) empty_db.

Lemma catch_up_complete_witness :
  let c := peer_of 1000 "a" "b" "uuid" publishing_peer in
  exists s' touched' err,
    catchUp 3 Demo.env c "b" 2 "uuid" Demo.site0 ∅ = Some (s', touched', err) /\
    (forall e t, repl_journal publishing_peer !! ("b", OriginSeq e) = Some (e, t) -> 0 < OriginSeq e ->
      err = None \/ OriginSeq e <= applied c (s_db s') -> accounted (s_db s') e) /\
    forall er, err = Some er -> exists e t s1, repl_journal publishing_peer !! ("b", OriginSeq e) = Some (e, t) /\
      applied c (s_db s') < OriginSeq e /\ applyOne Demo.env "b" e s1 = Err er.
Proof.
  cbv zeta.
  apply (catch_up_complete Demo.env (peer_of 1000 "a" "b" "uuid" publishing_peer)
           publishing_peer 1000 "a" "uuid" Demo.site0 ∅ 3).
  - apply peer_of_honest; [unfold publishing_peer, AppendManifestPut; eauto with fondaco|done].
  - discriminate.
  - vm_compute. discriminate.
  - vm_compute. lia.
Defined.

(** The catch-up loop has no progress check: a peer that keeps answering
    with an entry below the head it announces is polled for ever, whatever
    the fuel. *)
Theorem catch_up_spins a c e h uuid head s touched fuel :
  (forall after limit, pc_journal c (pc_name c) after limit = Page [e] h) ->
  OriginSite e = pc_name c -> pc_name c <> a_site a -> OriginSeq e < h ->
  (forall s, exists r, applyOne a (pc_name c) e s = Ok r) ->
  ~ rebuilt c uuid (s_db s) -> applied c (s_db s) < head -> h <= head ->
  catchUp fuel a c (pc_name c) head uuid s touched = None.
Proof.
  intros Hj Ho Hself Hlt Hok. revert s touched.
  induction fuel as [|fuel IH]; intros s touched Hr Ha Hh; cbn [catchUp]; [done|].
  unfold catchUp_page. rewrite decide_False by exact Hr. fold (applied c (s_db s)).
  destruct (Z.leb_spec head (applied c (s_db s))); [lia|].
  unfold Client_Journal. rewrite Hj. simpl. rewrite bool_decide_true by done. simpl.
  rewrite (decide_False (P := OriginSite e = a_site a)) by congruence.
  rewrite (decide_False (P := OriginSite e <> pc_name c)) by (intros Hn; done).
  destruct (Hok s) as [[s1 fs] ->]. destruct (Z.ltb_spec head h); [lia|].
  apply IH; [apply setCursor_rebuilt|rewrite setCursor_applied; lia|done].
Qed.

(** An event from a newer release, which is parked each time it is seen. *)
Definition unknown_event : JournalEntry := mkEntry "b" 1 "future" JNull (mkHLC 900 0) 2.
Definition looping_peer : PeerAPI :=
  mkPeer "b" (Err "unused") (fun _ _ _ => Page [unknown_event] 5) (Err "unused").

Lemma unknown_event_parks a peer s :
  exists r, applyOne a peer unknown_event s = Ok r.
Proof.
  unfold applyOne. case_match; [by eexists|]. unfold prefetchBlob. rewrite decide_True by by left.
  unfold ApplyForeignJournal. destruct (repl_journal _ !! _); simpl; by eexists.
Qed.

Lemma catch_up_spins_witness :
  catchUp 1000 Demo.env looping_peer "b" 5 "uuid" Demo.site0 ∅ = None.
Proof.
  apply (catch_up_spins Demo.env looping_peer unknown_event 5 "uuid" 5 Demo.site0 ∅ 1000);
    try done; [|intros [? _]; done].
  intros s. exact (unknown_event_parks Demo.env "b" s).
Defined.

(** ** Pruning *)

Lemma foldl_min_le l s x : x ∈ s :: l -> foldl Z.min s l <= x.
Proof.
  assert (Hi : forall l s, foldl Z.min s l <= s).
  { intros k. induction k as [|y k IH]; simpl; intros u; [lia|]. specialize (IH (Z.min u y)). lia. }
  intros [->|Hx]%elem_of_cons; [apply Hi|]. revert s.
  induction l as [|y l IH]; simpl; intros s; [by apply not_elem_of_nil in Hx|].
  apply elem_of_cons in Hx as [->|Hx]; [|by apply IH].
  specialize (Hi l (Z.min s y)). lia.
Qed.

Lemma foldl_max_in l s : foldl Z.max s l ∈ s :: l.
Proof.
  revert s. induction l as [|y l IH]; simpl; intros s; [by left|].
  destruct (elem_of_cons l (foldl Z.max (Z.max s y) l) (Z.max s y)) as [H _].
  destruct (H (IH (Z.max s y))) as [->|?]; [|right; by right].
  destruct (Z.max_spec s y) as [[_ ->]|[_ ->]]; [right; by left|by left].
Qed.

(** The watermark is acknowledged by every listed peer. *)
Lemma MinCursorAcrossPeers_sound origin peers db w p :
  MinCursorAcrossPeers origin peers db = Some w -> p ∈ peers ->
  exists cur, repl_cursors db !! (p, origin) = Some cur /\ w <= DurableSeq cur.
Proof.
  unfold MinCursorAcrossPeers. case_decide; [done|]. intros Hm Hp.
  set (rows := filter (fun kv : (string * string) * Cursor => kv.1.2 = origin /\ kv.1.1 ∈ peers)
                 (map_to_list (repl_cursors db))) in *.
  assert (Hrows : forall k cur, (k, cur) ∈ rows ->
    k.2 = origin /\ k.1 ∈ peers /\ repl_cursors db !! k = Some cur).
  { intros k cur [[? ?] Hin]%list_elem_of_filter. by rewrite elem_of_map_to_list in Hin. }
  unfold peer_cursors in Hm. fold rows in Hm.
  destruct (DurableSeq <$> (snd <$> rows)) as [|s ss] eqn:Ed; [done|].
  case_decide as Hlen; [done|]. injection Hm as <-.
  assert (Hp' : p ∈ rows.*1.*1).
  { apply list_elem_of_In. eapply (NoDup_length_incl (l' := peers)).
    - apply NoDup_ListNoDup. apply NoDup_fmap_2_strong.
      + intros [o1 k1] [o2 k2] H1 H2 Heq.
        apply list_elem_of_fmap in H1 as ([[? ?] c1] & [= -> ->] & H1).
        apply list_elem_of_fmap in H2 as ([[? ?] c2] & [= -> ->] & H2).
        apply Hrows in H1, H2. naive_solver.
      + apply NoDup_fst_filter, NoDup_fst_map_to_list.
    - apply (f_equal length) in Ed. rewrite !length_fmap in *. rewrite Ed. simpl in *. lia.
    - intros q Hq. apply list_elem_of_In in Hq.
      apply list_elem_of_fmap in Hq as (k & -> & Hq).
      apply list_elem_of_fmap in Hq as ([k' cur] & -> & Hq). apply list_elem_of_In. by apply (Hrows k' cur).
    - by apply list_elem_of_In. }
  apply list_elem_of_fmap in Hp' as (k & -> & Hin).
  apply list_elem_of_fmap in Hin as ([k' cur] & -> & Hin). simpl. rename k' into k.
  destruct (Hrows _ _ Hin) as (<- & _ & Hl). exists cur. destruct k. split; [done|].
  apply foldl_min_le. rewrite <- Ed. apply list_elem_of_fmap_2.
  apply list_elem_of_fmap. by eexists (_, _).
Qed.

(** The head of a stream is its newest entry, or zero when it has none. *)
Lemma JournalHead_spec db o :
  journal_keyed db ->
  (exists e t, repl_journal db !! (o, OriginSeq e) = Some (e, t) /\ OriginSeq e = (JournalHead o db).1) \/
  ((forall e t, repl_journal db !! (o, OriginSeq e) <> Some (e, t)) /\ (JournalHead o db).1 = 0).
Proof.
  intros Hk. unfold JournalHead.
  destruct (OriginSeq <$> (origin_entries db o).*1) as [|s ss] eqn:E.
  - right. split; [|done]. intros e t Ht.
    assert (Hin : e ∈ (origin_entries db o).*1).
    { apply elem_of_origin_entries; [done|]. exists t. split; [done|]. pose proof (Hk _ _ _ Ht). congruence. }
    apply (list_elem_of_fmap_2 OriginSeq) in Hin. rewrite E in Hin. by apply not_elem_of_nil in Hin.
  - left. simpl. pose proof (foldl_max_in ss s) as Hin. rewrite <- E in Hin at 1.
    apply list_elem_of_fmap in Hin as (e & Heq & Hin).
    apply elem_of_origin_entries in Hin as (t & Ht & _); [|done]. by exists e, t.
Qed.

(** Dropping entries other than the newest keeps the head. *)
Lemma JournalHead_filter (P : (string * Z) * (JournalEntry * Z) -> Prop)
    `{!forall x, base.Decision (P x)} db o (db' := set_journal db (filter P (repl_journal db))) :
  journal_keyed db ->
  (forall v, repl_journal db !! (o, (JournalHead o db).1) = Some v -> P ((o, (JournalHead o db).1), v)) ->
  (JournalHead o db').1 = (JournalHead o db).1.
Proof.
  intros Hk HP. assert (Hk' : journal_keyed db') by (subst db'; eauto with fondaco).
  assert (Hsub : forall e t, repl_journal db' !! (o, OriginSeq e) = Some (e, t) ->
    repl_journal db !! (o, OriginSeq e) = Some (e, t)).
  { intros e t. simpl. by intros [? _]%map_lookup_filter_Some. }
  destruct (JournalHead_spec db o Hk) as [(e & t & Ht & He)|[Hn Hz]].
  - assert (Ht' : repl_journal db' !! (o, OriginSeq e) = Some (e, t)).
    { simpl. apply map_lookup_filter_Some. split; [done|]. rewrite He. apply HP. by rewrite <- He. }
    apply JournalHead_ge in Ht' as Hge.
    destruct (JournalHead_spec db' o Hk') as [(e' & t' & Hl & He')|[Hn _]]; [|by destruct (Hn e t)].
    apply Hsub, JournalHead_ge in Hl. lia.
  - destruct (JournalHead_spec db' o Hk') as [(e' & t' & Hl & _)|[_ Hz']]; [|congruence].
    by destruct (Hn e' t'); apply Hsub.
Qed.

(** Every configured peer has acknowledged an entry of this site's journal. *)
Definition acknowledged (site : string) (peers : list string) (db : DB) (k : string * Z) : Prop :=
  k.1 = site /\ forall p, p ∈ peers -> exists cur,
    repl_cursors db !! (p, site) = Some cur /\ k.2 <= DurableSeq cur.

Lemma prune_acknowledged_spec site peers db (db' := prune_acknowledged site peers db) :
  journal_keyed db ->
  journal_keyed db' /\ (forall o, (JournalHead o db').1 = (JournalHead o db).1) /\
  forall k v, repl_journal db !! k = Some v ->
    repl_journal db' !! k = Some v \/ (k.2 < (JournalHead k.1 db).1 /\ acknowledged site peers db k).
Proof.
  intros Hk. subst db'. unfold prune_acknowledged.
  destruct (MinCursorAcrossPeers site peers db) as [w|] eqn:Ew; [|eauto].
  destruct (0 <? w); [|eauto]. unfold PruneJournal. split_and!; [eauto with fondaco| |].
  - intros o. apply JournalHead_filter; [done|]. simpl. intros v _ (-> & _ & Hlt). lia.
  - intros [o n] v Hv. simpl.
    destruct (decide (o = site /\ n < w + 1 /\ n < (JournalHead site db).1)) as [(-> & Hw & Hh)|Hd];
      [right|left; by apply map_lookup_filter_Some].
    split; [done|]. split; [done|]. intros p Hp.
    destruct (MinCursorAcrossPeers_sound _ _ _ _ _ Ew Hp) as (cur & Hc & Hle).
    exists cur. split; [done|simpl; lia].
Qed.

(** Pruning is safe: an entry of any stream is dropped only when a newer
    entry of the stream remains, and only when it is this site's own and every
    configured peer has acknowledged it, or when it is older than the
    retention window; the head of every stream is what it was, so sequence
    numbers and the lag peers compute are unaffected. *)
Theorem prune_safe now site retention peers db (db' := pruneJournal now site retention peers db) :
  journal_keyed db ->
  (forall o, (JournalHead o db').1 = (JournalHead o db).1) /\
  forall k v, repl_journal db !! k = Some v -> repl_journal db' !! k = None ->
    k.2 < (JournalHead k.1 db).1 /\
    (acknowledged site peers db k \/ v.2 < now - retention / 1000 * 1000).
Proof.
  intros Hk. subst db'. unfold pruneJournal. destruct (Z.leb_spec retention 0).
  { split; [done|]. intros k v Hv Hn. congruence. }
  destruct (prune_acknowledged_spec site peers db Hk) as (Hk1 & Hh1 & Hd1).
  unfold PruneJournalOlderThan. destruct (Z.leb_spec retention 0); [lia|]. split.
  - intros o. rewrite JournalHead_filter; [done|done|]. simpl. intros v _ (_ & _ & Hlt). lia.
  - intros k v Hv Hn. destruct (Hd1 k v Hv) as [Hv1|(? & ?)]; [|by eauto].
    simpl in Hn. rewrite map_lookup_filter, Hv1 in Hn. simpl in Hn. case_guard as Hg; [done|].
    destruct Hg as (_ & Hold & Hlt). rewrite Hh1 in Hlt. by split; [|right].
Qed.

Lemma prune_safe_witness :
  let db := RecordPeerAck 900 "b" "a" 1
              (AppendManifestPut 900 "a" (Demo.put (Demo.digest "1"%char)) empty_db) in
  (JournalHead "a" (pruneJournal 1000 "a" 60000 ["b"] db)).1 = 2 /\
  repl_journal (pruneJournal 1000 "a" 60000 ["b"] db) !! ("a", 1) = None /\
  acknowledged "a" ["b"] db ("a", 1).
Proof.
  intros db. assert (Hk : journal_keyed db).
  { unfold db, RecordPeerAck. rewrite decide_False by (intros [|]; done).
    intros k e t. apply (journal_keyed_append _ _ _ _ _ (journal_keyed_append _ _ _ _ _ journal_keyed_empty)). }
  destruct (prune_safe 1000 "a" 60000 ["b"] db Hk) as [H1 H2].
  split; [rewrite H1; vm_compute; reflexivity|].
  assert (Hn : repl_journal (pruneJournal 1000 "a" 60000 ["b"] db) !! ("a", 1) = None)
    by (vm_compute; reflexivity).
  split; [exact Hn|]. destruct (repl_journal db !! ("a", 1)) as [v|] eqn:Hv.
  - destruct (H2 _ _ Hv Hn) as [_ [?|Hold]]; [done|].
    vm_compute in Hv. injection Hv as <-. vm_compute in Hold. discriminate.
  - vm_compute in Hv. discriminate.
Defined.

(** ** A whole poll cycle *)

(** A predicate on tables that every way a peer can change them preserves is
    preserved by a poll cycle. *)
Section poll_preserved.
Context (P : DB -> Prop).
Context (P_batch : forall a peer es s touched, P (s_db s) -> P (s_db (ApplyBatch a peer es s touched).1.1)).
Context (P_retry : forall a peer es s touched, P (s_db s) -> P (s_db (retryAll a peer es s touched).1.1)).
Context (P_dispatch : forall a peer e t t', P (tx_db t) -> dispatch a peer e t = Ok t' -> P (tx_db t')).
Context (P_quarantine : forall f c r d h db, P db -> P (quarantineTx f c r d h db)).
Context (P_release : forall f c r h db, P db -> P (releaseQuarantineTx f c r h db)).
Context (P_conflict : forall c db, P db -> P (importConflictTx c db)).
Context (P_resolution : forall f p c r o d db, P db -> P (recordResolution f p c r o d db)).
Context (P_revoke : forall h db db', P db -> revoke_token h db = Ok db' -> P db').
Context (P_hlc : forall h db, P db -> P (set_hlc db h)).
Context (P_journal : forall j db, P db -> P (set_journal db j)).
Context (P_parked : forall j db, P db -> P (set_parked db j)).
Context (P_cursors : forall j db, P db -> P (set_cursors db j)).

Lemma foldl_preserved {A} (f : DB -> A -> DB) l db :
  (forall db x, P db -> P (f db x)) -> P db -> P (foldl f db l).
Proof. intros Hf. revert db. induction l as [|x l IH]; simpl; auto. Qed.

Lemma restrictions_preserved peer sn db db' :
  P db -> applySnapshotRestrictions peer sn db = Ok db' -> P db'.
Proof.
  intros HP. unfold applySnapshotRestrictions.
  assert (H : forall hs db, P db -> import_revoked hs db = Ok db' -> P db').
  { intros hs. induction hs as [|h hs IH]; simpl; intros d Hd; [by intros [= <-]|].
    case_match; [by apply IH|]. destruct (revoke_token h d) eqn:E; simpl; [|done].
    apply IH. by eapply P_revoke. }
  apply H. apply foldl_preserved; [|apply foldl_preserved; [|apply foldl_preserved]]; try done;
    intros d x Hd.
  - unfold import_resolution. case_match; auto.
  - unfold import_conflict. case_match; auto.
  - unfold import_quarantine, ApplyQuarantineDecisionTx. case_match; [done|]. case_match; auto.
Qed.

Lemma import_manifests_preserved a peer sn ps s touched :
  P (s_db s) -> P (s_db (import_manifests a peer sn ps s touched).1.1).
Proof.
  revert s touched. induction ps as [|p ps IH]; intros s touched HP; simpl; [done|].
  destruct (importSnapshotEntry _ _ _ _) as [t|err] eqn:E; [|done]. apply IH. simpl.
  unfold importSnapshotEntry in E. destruct (dispatch _ _ _ _) as [t'|[]] eqn:Ed; simplify_eq.
  by eapply P_dispatch, Ed.
Qed.

Lemma bootstrap_preserved a c s touched : P (s_db s) -> P (s_db (bootstrap a c s touched).1.1).
Proof.
  intros HP. unfold bootstrap. destruct (pc_snapshot c) as [sn|]; [|done]. case_decide; [done|].
  destruct (applySnapshotRestrictions _ _ _) as [db|] eqn:E; [|done].
  pose proof (import_manifests_preserved a (pc_name c) sn (sn_manifests sn) (with_tables s db) touched) as HI.
  destruct (import_manifests _ _ _ _ _ _) as [[s1 touched1] [err|]]; simpl in *;
    specialize (HI (restrictions_preserved _ _ _ _ HP E)); [done|].
  assert (P (advanceClockPastSnapshot sn (s_db s1))).
  { unfold advanceClockPastSnapshot. case_match; [done|]. by apply P_hlc. }
  case_match; [by apply P_cursors|done].
Qed.

Lemma catchUp_page_preserved a c origin head uuid s touched :
  P (s_db s) -> match catchUp_page a c origin head uuid s touched with
                | inl out => P (s_db out.1.1)
                | inr (_, s', _) => P (s_db s')
                end.
Proof.
  intros HP. unfold catchUp_page. destruct (if decide _ then _ else _) as [s0 seq] eqn:E0.
  assert (H0 : P (s_db s0)).
  { case_decide; simplify_eq; [|done]. apply P_cursors, P_parked, P_journal, HP. }
  clear E0. destruct (head <=? seq); [done|].
  destruct (Client_Journal _ _ _ _) as [[|e0 es] h| |]; try done; [|by apply bootstrap_preserved].
  pose proof (P_batch a (pc_name c) (e0 :: es) s0 touched H0) as HB.
  destruct (ApplyBatch _ _ _ _ _) as [[s1 touched1] [err|]]; simpl in HB; [done|]. by apply P_cursors.
Qed.

Lemma catchUp_preserved fuel a c origin head uuid s touched out :
  P (s_db s) -> catchUp fuel a c origin head uuid s touched = Some out -> P (s_db out.1.1).
Proof.
  revert head s touched. induction fuel as [|fuel IH]; intros head s touched HP; cbn [catchUp]; [done|].
  pose proof (catchUp_page_preserved a c origin head uuid s touched HP) as Hpage.
  destruct (catchUp_page _ _ _ _ _ _ _) as [o|[[h s1] t1]]; [by intros [= <-]|by apply IH].
Qed.

Lemma pollPeer_preserved fuel a c retention peers s s' :
  P (s_db s) -> (forall peer uuid db db', P db -> PinPeerIdentity peer uuid db = Ok db' -> P db') ->
  pollPeer fuel a c retention peers s = Some s' -> P (s_db s').
Proof.
  intros HP P_pin. unfold pollPeer.
  assert (Herr : forall peer origin msg db, P db -> P (RecordCursorError peer origin msg db)).
  { intros. unfold RecordCursorError. case_decide; auto. }
  destruct (Client_Status c) as [[uuid heads]|e]; [|intros [= <-]; simpl; auto].
  destruct (PinPeerIdentity _ _ _) as [db|e] eqn:Epin; [|intros [= <-]; simpl; auto].
  assert (Hdb : P (MarkPeerPollOK (a_now a) (pc_name c) [pc_name c] (Some uuid) db)).
  { apply P_cursors. by eapply P_pin. }
  cbv zeta. intros Hpoll.
  assert (Hend : exists s1, P (s_db s1) /\ s' = (RetryParked a (pc_name c)
    (with_tables s1 (pruneJournal (a_now a) (a_site a) retention peers (s_db s1)))).1.1).
  { destruct (heads !! pc_name c) as [head|]; [|simplify_eq; eexists; split; [|done]; done].
    destruct (catchUp _ _ _ _ _ _ _ _) as [[[s1 t1] [err|]]|] eqn:Ec; simplify_eq;
      apply catchUp_preserved in Ec; try done; (eexists; split; [|done]); simpl; auto. }
  destruct Hend as (s1 & H1 & ->). apply P_retry. simpl.
  unfold pruneJournal, prune_acknowledged, PruneJournal, PruneJournalOlderThan.
  repeat case_match; auto.
Qed.

Lemma poll_visits_preserved a c retention peers s s' :
  P (s_db s) -> (forall peer uuid db db', P db -> PinPeerIdentity peer uuid db = Ok db' -> P db') ->
  poll_visits a c retention peers s s' -> P (s_db s').
Proof.
  intros HP P_pin [fuel s1 Hp|uuid heads db head head' s1 touched _ Hpin _ Hrtc]; [by eapply pollPeer_preserved|].
  assert (H : forall x y, rtc (next_page a c uuid) x y -> P (s_db x.1.2) -> P (s_db y.1.2)).
  { intros x y. induction 1 as [|x y z Hxy _ IH]; [done|]. intros Hx. apply IH.
    pose proof (catchUp_page_preserved a c (pc_name c) x.1.1 uuid x.1.2 x.2 Hx) as Hn.
    unfold next_page in Hxy. rewrite Hxy in Hn. by destruct y as [[]]. }
  apply (H _ _ Hrtc). apply P_cursors. by eapply P_pin.
Qed.
End poll_preserved.

(** Identities pinned in one table are pinned in the other. *)
Definition pins_kept (db0 db : DB) : Prop :=
  forall p u, repl_peer_identity db0 !! p = Some u -> repl_peer_identity db !! p = Some u.

Lemma dispatch_tokens a peer e t t' db0 :
  no_new_authority db0 (tx_db t) -> dispatch a peer e t = Ok t' -> no_new_authority db0 (tx_db t').
Proof.
  intros H. apply (preserved_dispatch (no_new_authority db0) (fun _ => True) a);
    try by_tokens; eauto using revoke_token_authority.
Qed.

Lemma pins_same db0 db db' :
  repl_peer_identity db' = repl_peer_identity db -> pins_kept db0 db -> pins_kept db0 db'.
Proof. unfold pins_kept. by intros ->. Qed.

Lemma batch_pins a peer es s touched :
  repl_peer_identity (s_db (ApplyBatch a peer es s touched).1.1) = repl_peer_identity (s_db s).
Proof.
  apply (preserved_ApplyBatch (fun db => repl_peer_identity db = repl_peer_identity (s_db s)) (fun _ => True) a);
    frame_tables.
Qed.

Lemma retry_pins a peer es s touched :
  repl_peer_identity (s_db (retryAll a peer es s touched).1.1) = repl_peer_identity (s_db s).
Proof.
  apply (preserved_retryAll (fun db => repl_peer_identity db = repl_peer_identity (s_db s)) (fun _ => True) a);
    frame_tables.
Qed.

Lemma poll_authority a c retention peers s s' :
  poll_visits a c retention peers s s' -> no_new_authority (s_db s) (s_db s').
Proof.
  apply (poll_visits_preserved (no_new_authority (s_db s)));
    try (intros; eapply no_new_authority_tokens; [|eassumption]; reflexivity || untouched);
    eauto using no_new_authority_batch, no_new_authority_retry, dispatch_tokens, revoke_token_authority.
  - intros d db H. eapply no_new_authority_tokens; [|done]. unfold importConflictTx. untouched.
  - by split.
  - intros peer uuid db db' H. unfold PinPeerIdentity. repeat case_match; intros [= <-]; [done|].
    eapply no_new_authority_tokens; [|done]. reflexivity.
Qed.

Lemma poll_pins a c retention peers s s' :
  poll_visits a c retention peers s s' -> pins_kept (s_db s) (s_db s').
Proof.
  apply (poll_visits_preserved (pins_kept (s_db s)));
    try (intros; eapply pins_same; [|eassumption]; reflexivity || untouched); try done.
  - intros. eapply pins_same; [apply batch_pins|done].
  - intros. eapply pins_same; [apply retry_pins|done].
  - intros b peer e t t' H Hd. apply dispatch_bookkeeping in Hd. eapply pins_same; [|done].
    unfold bookkeeping in Hd. congruence.
  - intros d db H. eapply pins_same; [|done]. unfold importConflictTx. untouched.
  - intros h db db' H Hr. eapply pins_same; [|done].
    unfold revoke_token in Hr. repeat case_match; simplify_eq; reflexivity.
  - intros p u Hp. exact Hp.
  - intros peer uuid db db' H. unfold PinPeerIdentity. destruct (_ !! peer) as [u|] eqn:E;
      [case_decide; intros [= <-]; done|].
    intros [= <-] p u Hp. apply H in Hp. simpl. rewrite lookup_insert_ne; [done|congruence].
Qed.

(** C4. Polling a peer is safe whatever it answers, also when it keeps the
    catch-up loop going for ever: in every state a cycle of handshake,
    catch-up, snapshot bootstrap, pruning and retries passes through between
    pages or ends in, no token has gained authority (no token appears
    unrevoked, none stops being revoked) and no pinned identity has changed;
    and the poll of a peer that presents another identity than the pinned one
    ends, and changes nothing here but the error recorded on its cursors. *)
Theorem poll_is_safe a c retention peers s :
  (forall s', poll_visits a c retention peers s s' ->
     no_new_authority (s_db s) (s_db s') /\ pins_kept (s_db s) (s_db s')) /\
  forall site uuid heads pinned fuel,
    pc_status c = Ok (site, uuid, heads) -> repl_peer_identity (s_db s) !! pc_name c = Some pinned ->
    uuid <> pinned ->
    exists cursors, pollPeer fuel a c retention peers s = Some (with_tables s (set_cursors (s_db s) cursors)) /\
      forall k, (fun cur => (AppliedSeq cur, DurableSeq cur, LastOKAt cur, OriginUUID cur)) <$> cursors !! k =
                (fun cur => (AppliedSeq cur, DurableSeq cur, LastOKAt cur, OriginUUID cur)) <$> repl_cursors (s_db s) !! k.
Proof.
  split; [intros s' Hv; split; [by eapply poll_authority|by eapply poll_pins]|].
  intros site uuid heads pinned fuel Hs Hpin Hne. unfold pollPeer, Client_Status, PinPeerIdentity.
  rewrite Hs.
  assert (Hout : forall msg, exists cursors,
    Some (with_tables s (RecordCursorError (pc_name c) "*" msg (s_db s))) = Some (with_tables s (set_cursors (s_db s) cursors)) /\
    forall k, (fun cur => (AppliedSeq cur, DurableSeq cur, LastOKAt cur, OriginUUID cur)) <$> cursors !! k =
              (fun cur => (AppliedSeq cur, DurableSeq cur, LastOKAt cur, OriginUUID cur)) <$> repl_cursors (s_db s) !! k).
  { intros msg. unfold RecordCursorError. rewrite decide_True by by right.
    eexists. split; [done|]. intros k. rewrite map_lookup_imap.
    destruct (repl_cursors (s_db s) !! k) as [cur|]; simpl; [by case_decide|done]. }
  case_decide; [apply Hout|]. case_decide; [apply Hout|].
  rewrite Hpin, decide_True by congruence. apply Hout.
Qed.

(** The first contact with a peer pins it; a later impostor is refused. *)
Lemma poll_is_safe_witness :
  let c := peer_of 1000 "a" "b" "uuid" publishing_peer in
  let impostor := peer_of 1000 "a" "b" "other" publishing_peer in
  exists s1 s2, pollPeer 5 Demo.env c 0 ["b"] Demo.site0 = Some s1 /\
    pollPeer 5 Demo.env impostor 0 ["b"] s1 = Some s2 /\
    no_new_authority (s_db s1) (s_db s2) /\ repl_journal (s_db s2) = repl_journal (s_db s1).
Proof.
  intros c impostor.
  assert (Hpin : (fun s => repl_peer_identity (s_db s) !! "b") <$>
    pollPeer 5 Demo.env c 0 ["b"] Demo.site0 = Some (Some "uuid")) by (vm_compute; reflexivity).
  assert (Hrun : (pollPeer 5 Demo.env c 0 ["b"] Demo.site0 ≫=
    fun s => (fun _ => tt) <$> pollPeer 5 Demo.env impostor 0 ["b"] s) = Some tt) by (vm_compute; reflexivity).
  destruct (pollPeer 5 Demo.env c 0 ["b"] Demo.site0) as [s1|] eqn:E1; [|discriminate].
  clear E1. injection Hpin as Hpin. simpl in Hrun.
  destruct (pollPeer 5 Demo.env impostor 0 ["b"] s1) as [s2|] eqn:E2; [|discriminate].
  exists s1, s2. split; [reflexivity|]. split; [exact E2|].
  destruct (poll_is_safe Demo.env impostor 0 ["b"] s1) as (Ha & Hi).
  destruct (Ha s2 (visits_end _ _ _ _ _ 5 s2 E2)) as [Ha2 _]. split; [exact Ha2|].
  destruct (Hi "b" "other" (handleStatus_heads "b" publishing_peer) "uuid" 5%nat) as (cursors & Hc & _);
    [reflexivity|exact Hpin|discriminate|]. rewrite E2 in Hc. injection Hc as ->. reflexivity.
Defined.

(** ** The durable watermark *)

(** A peer that published a coordinate and then took two hundred decisions,
    and a site that replicates lazily: the bytes stay where they are. *)
Definition busy_peer : DB :=
  foldl (fun db _ => (AppendQuarantineEntry 900 "b" (mkQuarantineSet "releases" "maven:x@1" "manual" "") db).1)
    (AppendJournal 900 "b" KindManifestPut
       (encode_manifest_put (Demo.put (Demo.digest "1"%char))) empty_db).1
    (seq 0 200).
Definition lazy_env : Env :=
  mkEnv "a" 1000 (default_max_skew 0) (fun _ => false) true (fun _ _ _ => false)
    (Some (fun _ => true)) true.

(** The durable watermark looks at one page only: after catching up over
    two pages it names the last sequence although the blob of the first
    page's coordinate is not here. *)
Theorem durable_watermark_forgets :
  (fun out : Site * gset string * option repl_error =>
     let s := out.1.1 in
     (out.2, DurableSeq (GetCursor "b" "b" (s_db s)),
      h_sha256 <$> hosted_manifests (s_db s) !! ("releases", "lib/1.0/lib.jar"),
      bool_decide (Demo.digest "1"%char ∈ s_blobs s))) <$>
    catchUp 3 lazy_env (peer_of 1000 "a" "b" "uuid" busy_peer) "b" 201 "uuid" Demo.site0 ∅
  = Some (None, 201, Some (Demo.digest "1"%char), false).
Proof. vm_compute. reflexivity. Qed.
