(* ===== verification/Transfer.v ===== *)
(** * Bytes and lookups between sites: [core/repl/puller.go], [api.go], [manager.go]

    The server side of a blob transfer and of a manifest lookup, the client that
    resumes an interrupted transfer and verifies it, and the manager's two
    services for the rest of the program: making a blob available and finding a
    coordinate another site hosts. A peer is what it answers to each request;
    the network may cut a body anywhere. The spool file is a string, and
    writing it does not fail. *)

From S2P Require Import Prelude GoLib State StateTheory Events ReplSql Applier Store Pipeline ModLib Manager.
Open Scope Z_scope.

Module Transfer.

(** ** HTTP as the two sides see it *)

(** What a handler answers. *)
Record reply := mkReply { rp_status : Z; rp_headers : gmap string string; rp_body : string }.
Definition text_reply (status : Z) (text : string) : reply := mkReply status ∅ text.

(** What a request got: nothing, or a reply whose body may have been cut. *)
Inductive exchange :=
| Unreachable
| Replied (status : Z) (body : string) (cut : bool).

(** [strings.Trim] of a set of characters leaves nothing. *)
Fixpoint only_of (set s : string) : bool :=
  match s with EmptyString => true | String c s => contains_char set c && only_of set s end.

(** ** The server *)

Definition digestRE : string := "0123456789abcdef".
Definition maxControlResponse : Z := 32 * 2 ^ 20.

Section server.
Context (digest : string -> string -> string) {St : Type} `{BS : !BlobStore (digest "sha256") St}.

(** [handleBlob]: the whole blob, or the tail a peer asks for. *)
Definition handleBlob (name range : string) (st : St) : reply :=
  if negb (String.length name =? 64)%nat || negb (only_of digestRE name) then text_reply 404 "not found"
  else
    match Get (blobKey name) st with
    | Err ErrNotFound => text_reply 404 "not found"
    | Err _ => text_reply 500 "internal error"
    | Ok o =>
        let size := o_size o in
        let common := {[ "Content-Type" := "application/octet-stream"; "Accept-Ranges" := "bytes" ]} in
        let whole := mkReply 200 (if 0 <? size then <["Content-Length" := format_int size]> common else common) (o_body o) in
        match parseResumeOffset range with
        | Some start =>
            if 0 <? start then
              if (0 <? size) && (size <=? start) then
                mkReply 416 (<["Content-Range" := "bytes */" +:+ format_int size]> common) ""
              else if size <? start then text_reply 500 "internal error"
              else
                mkReply 206
                  (if 0 <? size then
                     <["Content-Range" := "bytes " +:+ format_int start +:+ "-" +:+ format_int (size - 1)
                                            +:+ "/" +:+ format_int size]>
                     (<["Content-Length" := format_int (size - start)]> common)
                   else common)
                  (String.substring (Z.to_nat start) (Z.to_nat (size - start)) (o_body o))
            else whole
        | None => whole
        end
    end.
End server.

(** [ManifestResponse]. *)
Record ManifestResponse := mkManifestResponse { ms_feed : string; ms_path : string; ms_sha256 : string; ms_size : Z }.

(** [handleManifest]; [None] stands for an answer that is not 200. *)
Definition handleManifest (feed path : string) (db : DB) : Z * option ManifestResponse :=
  if decide (feed = "" \/ path = "") then (400, None)
  else
    match List.find (fun kv : string * string * HostedRow => bool_decide (kv.1.2 = path)) (ListHosted feed path db) with
    | Some (f, p, row) => (200, Some (mkManifestResponse f p (h_sha256 row) (h_size row)))
    | None => (404, None)
    end.

(** ** The client *)

(** A peer's answers: to the n-th request of a transfer, which names a digest
    and carries a [Range] header or none; to a manifest lookup. *)
Record Client := mkClient {
  cl_name : string;
  cl_url : string;
  cl_pull_interval : Z;
  cl_blob : nat -> string -> string -> exchange;
  cl_manifest : string -> string -> exchange;
}.

(** [streamBlob]: the bytes received, and the error if one ended it. *)
Definition streamBlob (x : exchange) (offset limit : Z) : string * option api_error :=
  match x with
  | Unreachable => ("", Some (ErrOther "peer blob transfer"))
  | Replied status body cut =>
      if status =? 404 then ("", Some ErrNotFound)
      else if (0 <? offset) && (status =? 200) then ("", Some (ErrOther "peer does not support resume"))
      else if (0 <? offset) && negb (status =? 206) then ("", Some (ErrOther "peer resume failed"))
      else if (offset =? 0) && negb (status =? 200) then ("", Some (ErrOther "peer blob fetch failed"))
      else
        let got := limit_read (limit + 1) body in
        if limit <? Z.of_nat (String.length got) then (got, Some (ErrOther "peer exceeded the declared size"))
        else if cut then (got, Some (ErrOther "read peer blob"))
        else (got, None)
  end.

(** The header of a request that continues at an offset. *)
Definition range_header (offset : Z) : string := if 0 <? offset then "bytes=" +:+ format_int offset +:+ "-" else "".

Definition maxUnsizedBlob : Z := 8 * 2 ^ 30.
Definition transfer_limit (size : Z) : Z := if size <=? 0 then maxUnsizedBlob else wrap64 (size + 2 ^ 20).

(** The attempts of [FetchBlob]: what was spooled, and the error left. *)
Fixpoint attempts (c : Client) (name : string) (size limit : Z) (n left : nat) (spool : string) (last : option api_error)
  : string * option api_error :=
  match left with
  | O => (spool, last)
  | S left' =>
      let written := Z.of_nat (String.length spool) in
      if limit <? written then (spool, Some (ErrOther "peer sent more than the declared bytes"))
      else
        let '(got, e) := streamBlob (cl_blob c n name (range_header written)) written (limit - written) in
        let spool := spool +:+ got in
        match e with
        | None => (spool, None)
        | Some e =>
            if decide (e = ErrNotFound \/ got = "") then (spool, Some e)
            else attempts c name size limit (S n) left' spool (Some e)
        end
  end.

Section client.
Context (digest : string -> string -> string) {St : Type} `{BS : !BlobStore (digest "sha256") St}.

(** [FetchBlob]. *)
Definition FetchBlob (now : Z) (c : Client) (name : string) (size : Z) (st : St) : St * option api_error :=
  match attempts c name size (transfer_limit size) 0 3 "" None with
  | (_, Some e) => (st, Some e)
  | (spool, None) =>
      let written := Z.of_nat (String.length spool) in
      if decide (digest "sha256" spool <> name) then (st, Some ErrChecksumMismatch)
      else if (0 <? size) && negb (written =? size) then (st, Some (ErrOther "peer served another size"))
      else Put now (blobKey name) spool (mkPutOpts name written "") st
  end.

(** ** The manager *)

(** [HasBlob]. *)
Definition HasBlob (name : string) (st : St) : bool := match Stat (blobKey name) st with Ok _ => true | Err _ => false end.

(** The peer an event came from is asked first. *)
Definition ordered (fromPeer : string) (clients : list Client) : list Client :=
  foldl (fun acc c => if decide (cl_name c = fromPeer) then c :: acc else acc ++ [c]) [] clients.

Fixpoint fetch_any (now : Z) (cs : list Client) (name : string) (size : Z) (st : St) (last : option api_error)
  : St * option api_error :=
  match cs with
  | [] => (st, Some (default ErrNotFound last))
  | c :: cs =>
      match FetchBlob now c name size st with
      | (st, Some e) => fetch_any now cs name size st (Some e)
      | (st, None) => (st, None)
      end
  end.

(** [EnsureBlob]; [clients] is the peer set in the order the map yields it. *)
Definition EnsureBlob (now : Z) (clients : list Client) (name : string) (size : Z) (fromPeer : string) (st : St)
  : St * option api_error :=
  if HasBlob name st then (st, None) else fetch_any now (ordered fromPeer clients) name size st None.
End client.

(** [decodeJSON]: a body over the limit is an error, not cut. *)
Definition decodeJSON {A} (decode : string -> option A) (limit : Z) (body : string) : option A :=
  let raw := limit_read (limit + 1) body in
  if limit <? Z.of_nat (String.length raw) then None else decode raw.

(** [Client.Manifest]. *)
Definition Client_Manifest (decode : string -> option ManifestResponse) (c : Client) (feed path : string)
  : result api_error ManifestResponse :=
  match cl_manifest c feed path with
  | Unreachable => Err (ErrOther "peer unreachable")
  | Replied status body cut =>
      if status =? 404 then Err ErrNotFound
      else if negb (status =? 200) then Err (ErrOther "peer manifest lookup failed")
      else if cut then Err (ErrOther "decode peer manifest")
      else
        match decodeJSON decode maxControlResponse body with
        | None => Err (ErrOther "decode peer manifest")
        | Some m => if negb (String.length (ms_sha256 m) =? 64)%nat then Err (ErrOther "implausible digest") else Ok m
        end
  end.

(** The negative cache of lookups. *)
Notation Missing := (gmap string Z).

(** [recentlyMissing]. *)
Definition recentlyMissing (now : Z) (key : string) (m : Missing) : Missing * bool :=
  match m !! key with
  | None => (m, false)
  | Some until => if until <? now then (delete key m, false) else (m, true)
  end.

Definition maxMissing : nat := 4096.

(** [noteMissing]. *)
Definition noteMissing (now ttl : Z) (key : string) (m : Missing) : Missing :=
  let m := if (maxMissing <? size m)%nat then ∅ else m in
  <[key := now + ttl]> m.

Fixpoint ask_peers (decode : string -> option ManifestResponse) (cs : list Client) (feed path : string) (last : api_error)
  : result api_error (string * Z) :=
  match cs with
  | [] => Err last
  | c :: cs =>
      match Client_Manifest decode c feed path with
      | Err e => ask_peers decode cs feed path e
      | Ok m => Ok (ms_sha256 m, ms_size m)
      end
  end.

(** [FetchManifest]; the lookups take from [now] to [later]. *)
Definition FetchManifest (decode : string -> option ManifestResponse) (now later ttl : Z) (clients : list Client)
    (feed path : string) (m : Missing) : Missing * result api_error (string * Z) :=
  let key := feed +:+ "/" +:+ path in
  match recentlyMissing now key m with
  | (m, true) => (m, Err ErrNotFound)
  | (m, false) =>
      match ask_peers decode clients feed path ErrNotFound with
      | Ok found => (m, Ok found)
      | Err e => (noteMissing later ttl key m, Err e)
      end
  end.

(** ** The peer set *)

(** [Client.SameEndpoint]. *)
Definition SameEndpoint (a b : Client) : bool :=
  bool_decide (cl_name a = cl_name b /\ cl_url a = cl_url b /\ cl_pull_interval a = cl_pull_interval b).

(** [Client.Interval]. *)
Definition Interval (c : Client) : Z := if 0 <? cl_pull_interval c then cl_pull_interval c else 10 * Second.

(** The peers, and the client each running loop polls. *)
Record Loops := mkLoops { lp_peers : gmap string Client; lp_running : gmap string Client }.

(** [NewManager]'s peer set. *)
Definition NewLoops (clients : list Client) : Loops :=
  mkLoops (foldl (fun m c => <[cl_name c := c]> m) ∅ clients) ∅.

(** [syncLoops]: a loop for every peer that has none, none for any other. *)
Definition syncLoops (l : Loops) : Loops :=
  mkLoops (lp_peers l) (filter (fun kv => is_Some (lp_peers l !! kv.1)) (lp_running l ∪ lp_peers l)).

(** [SetPeers]: a changed endpoint's loop is stopped; then [syncLoops]. *)
Definition set_peer (old : gmap string Client) (acc : gmap string Client * gmap string Client) (c : Client)
  : gmap string Client * gmap string Client :=
  match old !! cl_name c with
  | Some existing =>
      if SameEndpoint existing c then (<[cl_name c := existing]> acc.1, acc.2)
      else (<[cl_name c := c]> acc.1, delete (cl_name c) acc.2)
  | None => (<[cl_name c := c]> acc.1, delete (cl_name c) acc.2)
  end.
Definition SetPeers (clients : list Client) (l : Loops) : Loops :=
  let '(next, running) := foldl (set_peer (lp_peers l)) (∅, lp_running l) clients in
  syncLoops (mkLoops next running).

(** ** Theorems *)

(** *** What is read is bounded *)

Lemma streamBlob_bound x offset limit : 0 <= limit ->
  Z.of_nat (String.length (streamBlob x offset limit).1) <= limit + 1.
Proof.
  intros Hl. unfold streamBlob. pose proof (limit_read_length (limit + 1)) as Hr.
  destruct x as [|status body cut]; simpl; [lia|]. specialize (Hr body ltac:(lia)). repeat case_match; simpl; lia.
Qed.

Lemma attempts_bound c name size limit n left spool last : 0 <= limit ->
  Z.of_nat (String.length spool) <= limit + 1 ->
  Z.of_nat (String.length (attempts c name size limit n left spool last).1) <= limit + 1.
Proof.
  intros Hl. revert n spool last. induction left as [|left IH]; intros n spool last Hs; simpl; [done|].
  destruct (limit <? _) eqn:E; [done|]. apply Z.ltb_ge in E.
  pose proof (streamBlob_bound (cl_blob c n name (range_header (Z.of_nat (String.length spool)))) (Z.of_nat (String.length spool))
    (limit - Z.of_nat (String.length spool)) ltac:(lia)) as Hb.
  destruct (streamBlob _ _ _) as [got e]. simpl in Hb.
  assert (Z.of_nat (String.length (spool +:+ got)) <= limit + 1) as Hn by (rewrite str_length_app; lia).
  destruct e as [e|]; [|done]. case_decide; [done|]. by apply IH.
Qed.

Section transfers.
Context (digest : string -> string -> string) {St : Type} `{BS : !BlobStore (digest "sha256") St}.

(** A transfer does nothing, or puts bytes of the digest it was asked for, of
    the size it was told. *)
Lemma FetchBlob_cases now c name size st :
  (exists e, FetchBlob digest now c name size st = (st, Some e))
  \/ (exists body, digest "sha256" body = name /\ (0 < size -> Z.of_nat (String.length body) = size)
      /\ FetchBlob digest now c name size st
         = Put now (blobKey name) body (mkPutOpts name (Z.of_nat (String.length body)) "") st).
Proof.
  unfold FetchBlob. destruct (attempts _ _ _ _ _ _ _ _) as [spool [e|]]; [left; by eexists|].
  case_decide as Hd; [left; by eexists|].
  destruct ((0 <? size) && _) eqn:Es; [left; by eexists|]. right. exists spool. split; [done|]. split; [|done].
  apply andb_false_iff in Es as [Es|Es]; lia.
Qed.

(** What a blob fetched or already here leaves: the key it was asked for holds
    its digest, no other key changed. *)
Definition settled (name : string) (st st' : St) : Prop :=
  (forall k, k <> blobKey name -> found (Get k st') = found (Get k st))
  /\ (blobs_ok digest st -> blobs_ok digest st').

Lemma settled_refl name st : settled name st st.
Proof. by split. Qed.

Lemma FetchBlob_settled now c name size st : settled name st (FetchBlob digest now c name size st).1.
Proof.
  destruct (FetchBlob_cases now c name size st) as [[e ->]|(body & Hd & _ & ->)]; [apply settled_refl|].
  split; [intros k Hk; by apply put_local|]. intros Hok. apply blobs_ok_put; [|done]. by intros sha <-%blobKey_inj.
Qed.

Lemma FetchBlob_ok now c name size st st' :
  FetchBlob digest now c name size st = (st', None) ->
  exists o, found (Get (blobKey name) st') = Some o /\ digest "sha256" (o_body o) = name /\ (0 < size -> o_size o = size).
Proof.
  destruct (FetchBlob_cases now c name size st) as [[e ->]|(body & Hd & Hs & ->)]; [done|].
  intros [_ Hg]%put_stores. eexists. split; [exact Hg|]. by split.
Qed.

Lemma fetch_any_spec now cs name size st last st' r :
  fetch_any digest now cs name size st last = (st', r) ->
  settled name st st'
  /\ (r = None -> exists o, found (Get (blobKey name) st') = Some o /\ digest "sha256" (o_body o) = name /\ (0 < size -> o_size o = size)).
Proof.
  revert st last. induction cs as [|c cs IH]; intros st last; simpl; [intros [= <- <-]; split; [apply settled_refl|done]|].
  pose proof (FetchBlob_settled now c name size st) as [Hl Hok].
  destruct (FetchBlob digest now c name size st) as [st1 [e|]] eqn:E.
  - intros [[Hl' Hok'] Hr]%IH. split; [|done]. simpl in *. split; [|naive_solver].
    intros k Hk. rewrite Hl' by done. by apply Hl.
  - intros [= <- <-]. split; [done|]. intros _. by eapply FetchBlob_ok.
Qed.

(** Making a blob available from other sites is safe whatever they send:
    in a store whose blobs match their keys, success means that the blob is
    there with the digest it was asked for, and every outcome leaves the other
    keys as they were and the store matching its keys. No transfer spools more
    than a mebibyte and a byte past the announced size. *)
Theorem peer_transfers_verified now clients name size fromPeer st st' r :
  EnsureBlob digest now clients name size fromPeer st = (st', r) -> blobs_ok digest st ->
  blobs_ok digest st'
  /\ (forall k, k <> blobKey name -> found (Get k st') = found (Get k st))
  /\ (r = None -> exists o, found (Get (blobKey name) st') = Some o /\ digest "sha256" (o_body o) = name)
  /\ (forall c, 0 < size < 2 ^ 62 ->
       Z.of_nat (String.length (attempts c name size (transfer_limit size) 0 3 "" None).1) <= size + 2 ^ 20 + 1).
Proof.
  intros He Hok.
  assert (forall c, 0 < size < 2 ^ 62 ->
       Z.of_nat (String.length (attempts c name size (transfer_limit size) 0 3 "" None).1) <= size + 2 ^ 20 + 1) as Hb.
  { intros c Hs. assert (transfer_limit size = size + 2 ^ 20) as Ht
      by (unfold transfer_limit; rewrite (proj2 (Z.leb_gt _ _)) by lia; rewrite wrap64_id; lia).
    rewrite <- Ht. apply attempts_bound; simpl; lia. }
  unfold EnsureBlob, HasBlob, Stat in He. destruct (Get (blobKey name) st) as [o|] eqn:Hg.
  - injection He as <- <-. split_and!; try done. intros _. exists o. split; [by rewrite Hg|].
    apply (Hok name o). by rewrite Hg.
  - apply fetch_any_spec in He as [[Hl Hk] Hr]. split_and!; try done; [by apply Hk|]. intros (o & ? & ? & _)%Hr. by exists o.
Qed.

(** *** An interrupted transfer completes *)

Lemma uint_no_dash d : contains_char (DecimalString.NilEmpty.string_of_uint d) "-"%char = false.
Proof. induction d; simpl; [done|..]; exact IHd. Qed.

Lemma resume_header_read n : 0 < n < 2 ^ 63 -> parseResumeOffset (range_header n) = Some n.
Proof.
  intros Hn. unfold range_header. rewrite (proj2 (Z.ltb_lt 0 n)) by lia. unfold parseResumeOffset.
  rewrite has_prefix_app_r. cbn [negb].
  assert (String.substring 6 (String.length ("bytes=" +:+ format_int n +:+ "-") - 6) ("bytes=" +:+ format_int n +:+ "-")
    = format_int n +:+ "-") as -> by (apply (substring_app "bytes="); by rewrite (str_length_app "bytes="), Nat.add_sub_swap).
  assert (contains_char (format_int n) "-"%char = false) as Hd.
  { unfold format_int. destruct n as [|p|p]; try lia. simpl. unfold DecimalString.NilZero.string_of_uint.
    destruct (Pos.to_uint p) eqn:E; [done|..]; apply uint_no_dash. }
  rewrite split_app, (split_single _ _ Hd). cbn [app split]. rewrite parse_format_int by lia.
  by rewrite (proj2 (Z.ltb_ge n 0)) by lia.
Qed.

Lemma str_cut k s : (k <= String.length s)%nat ->
  exists a b, s = a +:+ b /\ String.length a = k /\ String.substring 0 k s = a.
Proof.
  revert k. induction s as [|c s IH]; intros [|k] Hk; simpl in *; try lia.
  - by exists "", "".
  - by exists "", (String c s).
  - destruct (IH k ltac:(lia)) as (a & b & -> & Hl & Hs). exists (String c a), b. split; [done|].
    split; [simpl; by rewrite Hl|]. by rewrite Hs.
Qed.

(** A network that cuts the n-th answer after some bytes, or lets it through. *)
Definition wire (cut : option nat) (r : reply) : exchange :=
  match cut with
  | Some k => Replied (rp_status r) (String.substring 0 k (rp_body r)) true
  | None => Replied (rp_status r) (rp_body r) false
  end.

Context (name : string) (st : St) (o : Obj).
Hypothesis (Hname : String.length name = 64%nat) (Hhex : only_of digestRE name = true).
Hypothesis (Hget : Get (blobKey name) st = Ok o).
Hypothesis (Hsize : o_size o < 2 ^ 62).

(** What a peer that has the blob answers to a request for its rest. *)
Lemma handleBlob_rest p rest :
  o_body o = p +:+ rest -> p = "" \/ rest <> "" ->
  let r := handleBlob digest name (range_header (Z.of_nat (String.length p))) st in
  rp_body r = rest /\ rp_status r = (if decide (p = "") then 200 else 206).
Proof using Hname Hhex Hget Hsize.
  intros Hb Hr. unfold handleBlob. rewrite Hname, Hhex, Hget. cbn [negb orb Nat.eqb]. cbv zeta.
  destruct (decide (p = "")) as [->|Hp]; [by rewrite Hb|].
  destruct Hr as [Hr|Hr]; [done|]. unfold o_size in *. rewrite Hb, str_length_app in *.
  assert (0 < String.length p)%nat by (destruct p; [done|simpl; lia]).
  assert (0 < String.length rest)%nat by (destruct rest; [done|simpl; lia]).
  rewrite resume_header_read by lia. rewrite (proj2 (Z.ltb_lt 0 _)) by lia.
  rewrite (proj2 (Z.ltb_lt 0 _)) by lia. rewrite (proj2 (Z.leb_gt _ _)) by lia. rewrite (proj2 (Z.ltb_ge _ _)) by lia.
  cbn [andb rp_body rp_status]. split; [|done]. rewrite Nat2Z.id. apply substring_app. lia.
Qed.

Lemma streamBlob_rest p rest cut limit :
  o_body o = p +:+ rest -> p = "" \/ rest <> "" -> Z.of_nat (String.length rest) <= limit ->
  match cut with Some k => (k <= String.length rest)%nat | None => True end ->
  streamBlob (wire cut (handleBlob digest name (range_header (Z.of_nat (String.length p))) st)) (Z.of_nat (String.length p)) limit
  = match cut with Some k => (String.substring 0 k rest, Some (ErrOther "read peer blob")) | None => (rest, None) end.
Proof using Hname Hhex Hget Hsize.
  intros Hb Hr Hl Hk. destruct (handleBlob_rest p rest Hb Hr) as [Hbody Hst].
  assert (forall body, Z.of_nat (String.length body) <= limit -> limit_read (limit + 1) body = body) as Hlim
    by (intros body Hbl; unfold limit_read; rewrite decide_True by lia; done).
  assert (forall k, Z.of_nat (String.length (String.substring 0 k rest)) <= limit \/ (String.length rest < k)%nat) as Hsub.
  { intros k. destruct (decide (k <= String.length rest)%nat); [|lia]. left. pose proof (substring_length 0 k rest). lia. }
  unfold wire. destruct cut as [k|]; unfold streamBlob; rewrite Hbody, Hst.
  all: destruct (decide (p = "")) as [->|Hp];
    [simpl|assert (0 < String.length p)%nat by (destruct p; [done|simpl; lia]);
           rewrite (proj2 (Z.ltb_lt 0 _)) by lia; rewrite (proj2 (Z.eqb_neq _ 0)) by lia; simpl].
  1,2: destruct (Hsub k); [|lia]; rewrite Hlim by done; by rewrite (proj2 (Z.ltb_ge _ _)) by done.
  all: rewrite Hlim by done; by rewrite (proj2 (Z.ltb_ge _ _)) by done.
Qed.

Lemma attempts_complete c size limit cuts n left p rest last :
  o_body o = p +:+ rest -> p = "" \/ rest <> "" -> o_size o <= limit ->
  Forall (fun k => 0 < k)%nat cuts -> (cuts <> [] -> sum_list cuts < String.length rest)%nat -> (length cuts < left)%nat ->
  (forall i range, cl_blob c (n + i) name range = wire (cuts !! i) (handleBlob digest name range st)) ->
  attempts c name size limit n left p last = (o_body o, None).
Proof using Hname Hhex Hget Hsize.
  intros Hb Hr Hl. revert n left p rest last Hb Hr.
  induction cuts as [|k cuts IH]; intros n [|left] p rest last Hb Hr Hpos Hsum Hlen Hnet; simpl in *; try lia.
  all: pose proof Hl as Hl'; unfold o_size in Hl'; rewrite Hb, str_length_app in Hl'.
  all: rewrite (proj2 (Z.ltb_ge _ _)) by lia; rewrite <-(Nat.add_0_r n), Hnet; cbn [lookup list_lookup].
  - rewrite (streamBlob_rest p rest None); [by rewrite <-Hb|done|done|lia|done].
  - apply Forall_cons in Hpos as [Hk Hpos]. specialize (Hsum ltac:(done)).
    rewrite (streamBlob_rest p rest (Some k)) by (done || lia). cbv zeta.
    destruct (str_cut k rest) as (a & b & -> & Ha & Hs); [lia|]. rewrite Hs. rewrite str_length_app in *.
    rewrite decide_False by (intros [?| ->]; [done|simpl in Ha; lia]).
    apply IH with (rest := b); try done; try lia.
    + by rewrite Hb, str_app_assoc.
    + right. intros ->. simpl in *. lia.
    + intros i range. etrans; [|exact (Hnet (S i) range)]. f_equal. lia.
Qed.

(** C9. A transfer that the network interrupts completes: against a site that
    has the blob, two cuts anywhere inside the bytes still to come cost a
    resumed request each, and what is written to the store is the blob. *)
Theorem interrupted_transfer_completes {St'} `{!BlobStore (digest "sha256") St'} now cname url interval manifest cuts size (mine : St') :
  digest "sha256" (o_body o) = name -> size = 0 /\ o_size o <= maxUnsizedBlob \/ size = o_size o ->
  (length cuts <= 2)%nat -> Forall (fun k => 0 < k)%nat cuts -> (cuts <> [] -> sum_list cuts < String.length (o_body o))%nat ->
  let c := mkClient cname url interval (fun n name' range => wire (cuts !! n) (handleBlob digest name' range st)) manifest in
  FetchBlob digest now c name size mine = Put now (blobKey name) (o_body o) (mkPutOpts name (o_size o) "") mine.
Proof using Hname Hhex Hget Hsize.
  intros Hd Hs Hlen Hpos Hsum c. pose proof (Zle_0_nat (String.length (o_body o))) as H0.
  assert (o_size o <= transfer_limit size) as Hlim.
  { unfold transfer_limit, o_size in *. destruct Hs as [[-> ?]| ->]; [done|]. destruct (_ <=? 0) eqn:E; [unfold maxUnsizedBlob; lia|]. rewrite wrap64_id; lia. }
  unfold FetchBlob. rewrite (attempts_complete c size (transfer_limit size) cuts 0 3 "" (o_body o)) by (done || lia || by left).
  rewrite decide_False by (intros Hn; by apply Hn).
  destruct Hs as [[-> ?]|Hs]; [done|]. unfold o_size in *. rewrite Hs, Z.eqb_refl, andb_false_r. done.
Qed.
End transfers.

(** *** Serving through peers *)

(** C8. With the replication manager as the peers of the read pipeline, the
    sites it talks to may answer what they like: every artifact served has the
    digest and the length the answer states, and the store keeps matching its
    keys. *)
Theorem serving_through_peers (digest : string -> string -> string) {St} `{BS : !BlobStore (digest "sha256") St}
    `{MC : !ManifestCodec} (w : World St) clients decode ttl later m fuel q st st' res :
  w_peer_ensure w = (fun sha size => EnsureBlob digest (w_now w) clients sha size "") ->
  w_peer_manifest w = Some (fun path => (FetchManifest decode (w_now w) later ttl clients (f_name (q_feed q)) path m).2) ->
  (forall st, blobs_ok digest st -> blobs_ok digest (w_others w st)) ->
  blobs_ok digest st -> i_kind (q_intent q) = IntentArtifact -> i_want (q_intent q) = "" ->
  Serve digest w fuel q st = (st', Ok res) ->
  blobs_ok digest st' /\ digest "sha256" (r_body res) = r_sha256 res
  /\ r_size res = Z.of_nat (String.length (r_body res)).
Proof.
  intros He _ Ho Hst Hk Hwant Hs. apply Serve_ok in Hs as [? Ha]; [| |done].
  - destruct (Ha Hk res eq_refl Hwant) as (? & ? & _). done.
  - split; [|done]. intros sha size st0 Hok. rewrite He. unfold EnsureBlob. destruct (HasBlob digest sha st0); [done|].
    destruct (fetch_any digest _ _ _ _ _ _) as [st1 r] eqn:E. apply fetch_any_spec in E as [[_ H1] _]. by apply H1.
Qed.

(** *** Lookups *)

Lemma ask_peers_ok decode cs feed path last sha size :
  ask_peers decode cs feed path last = Ok (sha, size) ->
  exists c m, c ∈ cs /\ Client_Manifest decode c feed path = Ok m /\ sha = ms_sha256 m /\ size = ms_size m.
Proof.
  revert last. induction cs as [|c cs IH]; intros last; simpl; [done|].
  destruct (Client_Manifest decode c feed path) as [m|e] eqn:E.
  - intros [= <- <-]. exists c, m. split; [by left|done].
  - intros (c' & m & Hin & H)%IH. exists c', m. split; [by right|done].
Qed.

Lemma ask_peers_finds decode cs feed path last c m :
  c ∈ cs -> Client_Manifest decode c feed path = Ok m -> exists x, ask_peers decode cs feed path last = Ok x.
Proof.
  intros Hin Hm. revert last. induction Hin as [c cs|c c' cs Hin IH]; intros last; simpl.
  - rewrite Hm. by eexists.
  - destruct (Client_Manifest decode c' feed path); [by eexists|]. by apply IH.
Qed.

Lemma handleManifest_sound feed path db m :
  handleManifest feed path db = (200, Some m) ->
  exists row, hosted_manifests db !! (feed, path) = Some row /\ m = mkManifestResponse feed path (h_sha256 row) (h_size row).
Proof.
  unfold handleManifest. case_decide as Hne; [done|]. destruct (List.find _ _) as [[[f p] row]|] eqn:E; [|done].
  intros [= <-]. apply List.find_some in E as [Hin Hp%bool_decide_eq_true]. apply list_elem_of_In, elem_of_ListHosted in Hin.
  simpl in *. destruct Hin as (Hrow & [Hf|Hf] & _); [naive_solver|]. subst. by exists row.
Qed.

Lemma handleManifest_complete feed path db row :
  feed <> "" -> path <> "" -> plain path = true -> hosted_manifests db !! (feed, path) = Some row ->
  handleManifest feed path db = (200, Some (mkManifestResponse feed path (h_sha256 row) (h_size row))).
Proof.
  intros Hf Hp Hplain Hrow. unfold handleManifest. rewrite decide_False by naive_solver.
  destruct (List.find _ _) as [[[f p] row']|] eqn:E.
  - apply List.find_some in E as [Hin Hp'%bool_decide_eq_true]. apply list_elem_of_In, elem_of_ListHosted in Hin. simpl in *.
    destruct Hin as (Hr' & [?|Hf'] & _); [done|]. subst. congruence.
  - exfalso. assert ((feed, path, row) ∈ ListHosted feed path db) as Hin.
    { apply elem_of_ListHosted. split_and!; [done|by right|]. simpl. rewrite like_plain by done.
      rewrite has_prefix_spec. exists "". by rewrite str_app_nil_r. }
    apply list_elem_of_In in Hin. eapply List.find_none in E; [|exact Hin]. simpl in E. by rewrite bool_decide_true in E.
Qed.
Section lookups.
(** The JSON text of an answer, read back. *)
Context (encode : ManifestResponse -> string) (decode : string -> option ManifestResponse).
Hypothesis (Hcodec : forall m, decode (encode m) = Some m).
Hypothesis (Hlength : forall m, Z.of_nat (String.length (encode m)) <= maxControlResponse).

(** A site that answers lookups from its tables, over a connection that works. *)
Definition answers_from (db : DB) (c : Client) : Prop :=
  forall feed path, cl_manifest c feed path
    = match handleManifest feed path db with
      | (status, Some m) => Replied status (encode m) false
      | (status, None) => Replied status "" false
      end.

Lemma Client_Manifest_honest db c feed path :
  answers_from db c ->
  Client_Manifest decode c feed path
  = match handleManifest feed path db with
    | (_, Some m) => if negb (String.length (ms_sha256 m) =? 64)%nat then Err (ErrOther "implausible digest") else Ok m
    | (status, None) => Err (if status =? 404 then ErrNotFound else ErrOther "peer manifest lookup failed")
    end.
Proof using Hcodec Hlength.
  intros Hc. unfold Client_Manifest. rewrite (Hc feed path). unfold handleManifest. case_decide; [done|].
  destruct (List.find _ _) as [[[f p] row]|]; [|done]. simpl. unfold decodeJSON, limit_read.
  set (m := mkManifestResponse _ _ _ _). pose proof (Hlength m). rewrite decide_True by lia.
  rewrite (proj2 (Z.ltb_ge _ _)) by lia. by rewrite Hcodec.
Qed.

(** A coordinate this site does not have is found wherever it is. Among
    sites that answer from their tables, what a lookup finds is a row some site
    hosts under that feed and path; it finds one whenever some site has one,
    unless it failed to within the time misses are remembered; and what is
    remembered stays bounded. *)
Theorem lookup_finds_hosted now later ttl clients (tables : list DB) feed path m m' r :
  Forall2 answers_from tables clients -> FetchManifest decode now later ttl clients feed path m = (m', r) ->
  (forall sha size, r = Ok (sha, size) -> exists db row, db ∈ tables /\ hosted_manifests db !! (feed, path) = Some row
     /\ sha = h_sha256 row /\ size = h_size row)
  /\ (feed <> "" -> path <> "" -> plain path = true -> (recentlyMissing now (feed +:+ "/" +:+ path) m).2 = false ->
      (exists db row, db ∈ tables /\ hosted_manifests db !! (feed, path) = Some row /\ String.length (h_sha256 row) = 64%nat) ->
      exists x, r = Ok x)
  /\ (size m <= S maxMissing -> size m' <= S maxMissing)%nat.
Proof using Hcodec Hlength.
  intros Hall. unfold FetchManifest.
  assert (size (recentlyMissing now (feed +:+ "/" +:+ path) m).1 <= size m)%nat as Hsz.
  { unfold recentlyMissing. repeat case_match; simpl; try done. rewrite map_size_delete; unfold id; repeat case_match; lia. }
  destruct (recentlyMissing now (feed +:+ "/" +:+ path) m) as [m1 []]; simpl in Hsz.
  { intros [= <- <-]. split_and!; [done|done|lia]. }
  destruct (ask_peers decode clients feed path ErrNotFound) as [[sha0 size0]|e] eqn:Ea; intros [= <- <-].
  - split_and!; [|by eexists|lia]. intros sha sz [= <- <-].
    apply ask_peers_ok in Ea as (c & resp & Hin & Hm & -> & ->).
    apply list_elem_of_lookup in Hin as [i Hi]. destruct (Forall2_lookup_r _ _ _ _ _ Hall Hi) as (db & Hdb & Hc).
    rewrite (Client_Manifest_honest db c feed path Hc) in Hm.
    destruct (handleManifest feed path db) as [status [resp'|]] eqn:Eh; [|done]. destruct (negb _); [done|].
    injection Hm as <-. assert (status = 200) as -> by (unfold handleManifest in Eh; repeat case_match; congruence).
    apply handleManifest_sound in Eh as (row & Hrow & ->). exists db, row. split; [by eapply list_elem_of_lookup_2|done].
  - split_and!; [done| |].
    + intros Hf Hp Hplain _ (db & row & Hin & Hrow & Hlen). exfalso.
      apply list_elem_of_lookup in Hin as [i Hi]. destruct (Forall2_lookup_l _ _ _ _ _ Hall Hi) as (c & Hci & Hc).
      destruct (ask_peers_finds decode clients feed path ErrNotFound c (mkManifestResponse feed path (h_sha256 row) (h_size row)))
        as [x Hx]; [by eapply list_elem_of_lookup_2| |congruence].
      rewrite (Client_Manifest_honest db c feed path Hc), (handleManifest_complete _ _ _ row) by done. simpl. by rewrite Hlen.
    + intros Hm. unfold noteMissing. rewrite map_size_insert. pose proof (map_size_empty (M := gmap string) (A := Z)) as H0.
      destruct (maxMissing <? size m1)%nat eqn:E; [rewrite H0|apply Nat.ltb_ge in E]; unfold id; repeat case_match; unfold maxMissing in *; lia.
Qed.
End lookups.

(** A peer that cannot be asked counts as one that does not have it: the
    failure is remembered, and for the next seconds the coordinate is reported
    missing although the peer has come back. *)
Theorem outage_remembered_as_missing decode now later later' ttl c c' feed path :
  cl_manifest c feed path = Unreachable -> now <= later' <= later + ttl ->
  let m := (FetchManifest decode now later ttl [c] feed path ∅).1 in
  (FetchManifest decode later' later' ttl [c'] feed path m).2 = Err ErrNotFound.
Proof.
  intros Hc Hl m. unfold m, FetchManifest, recentlyMissing. rewrite lookup_empty. simpl. unfold Client_Manifest. rewrite Hc. simpl.
  unfold noteMissing. rewrite lookup_insert_eq. by rewrite (proj2 (Z.ltb_ge _ _)) by lia.
Qed.

(** *** Loops *)

Lemma set_peers_running (old : gmap string Client) clients next running :
  (forall n c r, next !! n = Some c -> running !! n = Some r -> c = r) -> running ⊆ old ->
  let out := foldl (set_peer old) (next, running) clients in
  forall n c r, out.1 !! n = Some c -> out.2 !! n = Some r -> c = r.
Proof.
  revert next running. induction clients as [|c0 clients IH]; intros next running Hagree Hsub; simpl; [done|].
  destruct (set_peer old (next, running) c0) as [next1 running1] eqn:E. apply IH.
  - intros n c r Hn Hr. unfold set_peer in E. simpl in E.
    destruct (decide (n = cl_name c0)) as [->|Hne].
    + destruct (old !! cl_name c0) as [ex|] eqn:Eo; [destruct (SameEndpoint ex c0)|]; injection E as <- <-;
        rewrite ?lookup_insert_eq, ?lookup_delete_eq in *; try done.
      pose proof (lookup_weaken _ _ _ _ Hr Hsub). congruence.
    + repeat case_match; injection E as <- <-; rewrite ?lookup_insert_ne, ?lookup_delete_ne in * by done; by eapply Hagree.
  - unfold set_peer in E. simpl in E. repeat case_match; injection E as <- <-; try done;
      (etrans; [apply delete_subseteq|done]).
Qed.

(** Once the peer set is replaced there is one loop per configured peer, and
    each polls the client of the new set: a removed peer is polled no longer,
    a moved one at its new address only. *)
Theorem loops_follow_peers clients l :
  lp_running l ⊆ lp_peers l -> lp_running (SetPeers clients l) = lp_peers (SetPeers clients l).
Proof.
  intros Hsub. unfold SetPeers.
  assert (forall n c r, (∅ : gmap string Client) !! n = Some c -> lp_running l !! n = Some r -> c = r) as H0
    by (intros n c r; by rewrite lookup_empty).
  pose proof (set_peers_running (lp_peers l) clients ∅ (lp_running l) H0 Hsub) as Hag.
  destruct (foldl _ _ _) as [next running]. simpl in *. apply map_eq. intros n.
  rewrite map_lookup_filter. simpl. rewrite lookup_union.
  destruct (next !! n) as [c|] eqn:En, (running !! n) as [r|] eqn:Er; simpl.
  all: try (specialize (Hag n c r En Er); subst).
  all: rewrite ?option_guard_True by eauto; try done.
  all: by rewrite option_guard_False by (intros [? ?]; congruence).
Qed.
(** ** A blob between two sites *)

Module TransferDemo.
Fixpoint code (n : Z) (s : string) : Z :=
  match s with EmptyString => n | String c s => code ((256 * n + Z.of_N (Ascii.N_of_ascii c)) mod 1000000000000000003) s end.
Definition digest (algo body : string) : string := decimal_digits 64 (Z.abs (code 1 body)).
Definition body : string := "a package of thirty-one bytes..".
Definition name : string := digest "sha256" body.
#[export] Instance store : BlobStore (digest "sha256") FS := fs_store (digest "sha256").
Definition theirs : FS := (Put 1 (blobKey name) body (mkPutOpts name 0 "") empty_fs).1.
(** The connection breaks after four bytes, and again after ten more. *)
Definition cuts : list nat := [4; 10]%nat.
Definition honest : Client :=
  mkClient "turin" "https://turin" 0 (fun n name range => wire (cuts !! n) (handleBlob digest name range theirs))
    (fun _ _ => Unreachable).
Definition hostile : Client :=
  mkClient "milan" "https://milan" 0 (fun _ _ _ => Replied 200 "something else" false) (fun _ _ => Unreachable).

Lemma empty_ok : blobs_ok digest empty_fs.
Proof.
  intros sha o. unfold Get. simpl. unfold fs_get, keyPath. destruct (validKey _); [|done].
  unfold empty_fs, files. rewrite lookup_empty. by case_match.
Qed.

Definition decode (text : string) : option ManifestResponse := Some (mkManifestResponse "proxy" text name 31).
Definition turin : Client :=
  mkClient "turin" "https://turin" 0 (cl_blob honest) (fun _ path => Replied 200 path false).
Definition world : World FS :=
  mkWorld 7 "here" (fun _ _ => Err ErrUpstreamUnavailable) (fun _ => Err ErrUpstreamUnavailable) None None
    (fun _ _ => Err (ErrOther "none")) Ok
    (Some (fun path => (FetchManifest decode 7 7 10 [turin] "proxy" path ∅).2))
    (fun sha size => EnsureBlob digest 7 [turin] sha size "") id.
Definition request : Request :=
  mkRequest (mkFeed "proxy" true) (PipelineDemo.intent IntentArtifact no_checksum) false true.
End TransferDemo.
Import TransferDemo.

Lemma peer_transfers_verified_witness :
  exists st', EnsureBlob digest 7 [hostile; honest] name 31 "milan" empty_fs = (st', None)
    /\ exists o, found (Get (blobKey name) st') = Some o /\ digest "sha256" (o_body o) = name.
Proof.
  destruct (EnsureBlob digest 7 [hostile; honest] name 31 "milan" empty_fs) as [st' r] eqn:E.
  assert (r = None) as -> by (apply (f_equal snd) in E; vm_compute in E; by subst r).
  exists st'. split; [done|].
  exact (proj1 (proj2 (proj2 (peer_transfers_verified digest 7 [hostile; honest] name 31 "milan" empty_fs st' None E empty_ok))) eq_refl).
Defined.

Lemma interrupted_transfer_completes_witness :
  FetchBlob digest 7 honest name 0 empty_fs = Put 7 (blobKey name) body (mkPutOpts name 31 "") empty_fs.
Proof.
  apply (interrupted_transfer_completes digest name theirs (mkObj body name 1 "") eq_refl eq_refl)
    with (cuts := cuts).
  - reflexivity.
  - by vm_compute.
  - reflexivity.
  - left. by vm_compute.
  - simpl. lia.
  - repeat constructor.
  - intros _. vm_compute. lia.
Defined.

Lemma serving_through_peers_witness :
  exists st' res, Serve digest world 1 request empty_fs = (st', Ok res) /\ r_body res = body
    /\ digest "sha256" (r_body res) = r_sha256 res.
Proof.
  destruct (Serve digest world 1 request empty_fs) as [st' r] eqn:E.
  assert (exists res, r = Ok res /\ r_body res = body) as (res & -> & Hb)
    by (apply (f_equal snd) in E; vm_compute in E; subst r; eexists; split; reflexivity).
  exists st', res. split; [done|]. split; [done|].
  apply (serving_through_peers digest world [turin] decode 10 7 ∅ 1 request empty_fs st' res eq_refl eq_refl);
    [done|exact empty_ok|done|done|exact E].
Defined.
End Transfer.
