(* ===== verification/Bootstrap.v ===== *)
(** * A new site: the snapshot and its import ([core/repl/api.go], [manager.go])

    [handleSnapshot] exports a site's tables in one transaction; [bootstrap],
    modelled in [Manager], imports them. The theorem composes the two: a fresh
    site that bootstrapped from a snapshot serves, blocks and refuses what the
    exporting site does. *)

From S2P Require Import Prelude State StateTheory Events ReplSql Applier Safety Manager.
Open Scope Z_scope.

Module Bootstrap.

(** ** The export *)

Definition put_of (kv : string * string * HostedRow) : ManifestPut :=
  let '(f, p, r) := kv in
  mkManifestPut f p (h_coordinate r) (h_sha256 r) (h_size r) (h_checksums r) (h_metadata r) (h_mutable r)
    (h_published_by r) (h_site r).
Definition quarantine_record (kv : string * string * string * QuarantineRow) : QuarantineRecord :=
  let '(f, c, reason, q) := kv in mkQRecord f c reason (q_detail q) (q_active q) (q_hlc q).
Definition resolution_record (kv : string * string * ResolutionRow) : ResolutionRecord :=
  let '(f, p, r) := kv in
  mkRRecord f p (r_coordinate r) (mkRes (r_keep r) (r_size r) (r_checksums r) (r_metadata r) (r_hlc r)) (r_operator r).

(** The statements of the export, each in its order. *)
Definition QuarantineStateTx (db : DB) : list (string * string * string * QuarantineRow) :=
  by_key (fun kv => joined kv.1.1.1 (joined kv.1.1.2 kv.1.2)) (map_to_list (quarantine db)).
Definition RevokedTokenHashesTx (db : DB) : list string := by_key id (elements (revoked_hashes db)).
Definition OpenConflictsTx (db : DB) : list ConflictRow := by_key (fun c => joined (c_feed c) (c_path c)) (open_conflicts db).
Definition ConflictResolutionsTx (db : DB) : list (string * string * ResolutionRow) :=
  by_key (fun kv => joined kv.1.1 kv.1.2) (map_to_list (conflict_resolutions db)).

(** [handleSnapshot]. *)
Definition handleSnapshot (site uuid : string) (db : DB) : SnapshotResponse :=
  mkSnapshot site uuid
    (put_of <$> ListHosted "" "" db)
    (RevokedTokenHashesTx db)
    (quarantine_record <$> QuarantineStateTx db)
    (resolution_record <$> ConflictResolutionsTx db)
    (OpenConflictsTx db)
    (set_to_map (fun o => (o, (JournalHead o db).1)) (KnownOrigins db)).

(** ** Importing restrictions into empty tables *)

Definition q_key (q : QuarantineRecord) : string * string * string := (qr_rec_feed q, qr_rec_coordinate q, qr_rec_reason q).
Definition q_taken (q : QuarantineRecord) : Prop :=
  qr_rec_feed q <> "" /\ qr_rec_coordinate q <> "" /\ qr_rec_reason q <> "" /\ qr_rec_reason q <> conflict_reason.
#[export] Instance q_taken_dec q : Decision (q_taken q).
Proof. unfold q_taken. apply _. Defined.

(** The tables but for the blocks. *)
Definition but_blocks (db : DB) := (hosted_manifests db, publish_conflicts db, conflict_resolutions db, tokens db).
(** The tables but for the conflicts and the blocks. *)
Definition but_conflicts (db : DB) := (hosted_manifests db, conflict_resolutions db, tokens db).

Lemma import_quarantine_eq db q :
  import_quarantine db q
  = if decide (q_taken q) then ApplyQuarantineDecisionTx (qr_rec_feed q) (qr_rec_coordinate q) (qr_rec_reason q)
         (qr_rec_detail q) (qr_rec_active q) (qr_rec_hlc q) db else db.
Proof.
  unfold import_quarantine, q_taken. repeat (case_bool_decide; simpl; [rewrite decide_False by tauto; done|]).
  by rewrite decide_True by tauto.
Qed.

Lemma decision_other k feed coord reason detail active hlc db :
  k <> (feed, coord, reason) ->
  quarantine (ApplyQuarantineDecisionTx feed coord reason detail active hlc db) !! k = quarantine db !! k.
Proof.
  intros Hk. unfold ApplyQuarantineDecisionTx, quarantineTx, releaseQuarantineTx.
  repeat case_match; simpl; rewrite ?lookup_insert_ne by congruence; done.
Qed.

Lemma decision_frame feed coord reason detail active hlc db :
  but_blocks (ApplyQuarantineDecisionTx feed coord reason detail active hlc db) = but_blocks db.
Proof. unfold ApplyQuarantineDecisionTx, quarantineTx, releaseQuarantineTx. by repeat case_match. Qed.

(** Distinct records into a table that has none of them. *)
Lemma import_quarantines l db :
  NoDup (q_key <$> l) -> (forall q, q ∈ l -> quarantine db !! q_key q = None) ->
  let db' := foldl import_quarantine db l in
  but_blocks db' = but_blocks db
  /\ (forall q, q ∈ l -> q_taken q -> exists d, quarantine db' !! q_key q = Some (mkQuarantine d (qr_rec_active q) (qr_rec_hlc q)))
  /\ (forall k, (forall q, q ∈ l -> q_taken q -> q_key q <> k) -> quarantine db' !! k = quarantine db !! k).
Proof.
  revert db. induction l as [|q l IH]; intros db Hnd Hnone; simpl; [split_and!; [done|by intros ? ?%elem_of_nil|done]|].
  apply NoDup_cons in Hnd as [Hq Hnd]. rewrite import_quarantine_eq.
  set (db1 := if decide (q_taken q) then _ else db).
  assert (forall k, k <> q_key q -> quarantine db1 !! k = quarantine db !! k) as Hother.
  { intros k Hk. unfold db1. case_decide; [|done]. by apply decision_other. }
  destruct (IH db1 Hnd) as (Hb & Hin & Hout); clear IH.
  { intros q' Hq'. rewrite Hother; [apply Hnone; by right|]. intros Heq. apply Hq. rewrite <-Heq. by apply list_elem_of_fmap_2. }
  split_and!.
  - rewrite Hb. unfold db1. case_decide; [apply decision_frame|done].
  - intros q' [->|Hq']%elem_of_cons Ht; [|by apply Hin].
    rewrite Hout. 2: { intros q' Hq' _ Heq. apply Hq. rewrite <-Heq. by apply list_elem_of_fmap_2. }
    unfold db1. rewrite decide_True by done. specialize (Hnone q ltac:(by left)).
    unfold ApplyQuarantineDecisionTx, quarantineTx, releaseQuarantineTx, q_key in *.
    destruct (qr_rec_active q); rewrite Hnone; simpl; rewrite lookup_insert_eq; by eexists.
  - intros k Hk. rewrite Hout by (intros q' Hq'; apply Hk; by right).
    destruct (decide (k = q_key q)) as [->|Hne]; [|by apply Hother].
    unfold db1. case_decide; [|done]. exfalso. eapply Hk; [by left|done|done].
Qed.
(** *** Conflicts *)

(** A coordinate has an open conflict; its block says so. *)
Definition opened (db : DB) (f c : string) : Prop :=
  exists x, x ∈ publish_conflicts db /\ c_feed x = f /\ c_coordinate x = c /\ c_resolved x = None.
Definition conflict_block (db : DB) (f c : string) : Prop :=
  exists q, quarantine db !! (f, c, conflict_reason) = Some q /\ q_active q = true.
Definition in_sync (db : DB) : Prop := forall f c, conflict_block db f c <-> opened db f c.

Lemma open_for_opened db f c : opened db f c <-> open_for db f c <> [].
Proof.
  unfold opened, open_for. split.
  - intros (x & Hx & Hf & Hc & Hr) Hnil. assert (x ∈ @nil ConflictRow) as Hin; [|by apply elem_of_nil in Hin].
    rewrite <-Hnil. apply list_elem_of_filter. by split.
  - intros Hne. destruct (filter _ _) as [|x l] eqn:E; [done|].
    assert (x ∈ filter (fun y => c_feed y = f /\ c_coordinate y = c /\ c_resolved y = None) (publish_conflicts db)) as Hin
      by (rewrite E; by left).
    apply list_elem_of_filter in Hin as [(? & ? & ?) ?]. by exists x.
Qed.

(** Recomputing a block brings it in step and touches no other. *)
Lemma sync_block f c db :
  (conflict_block (syncConflictQuarantineTx f c db) f c <-> opened db f c)
  /\ (forall k, k <> (f, c, conflict_reason) -> quarantine (syncConflictQuarantineTx f c db) !! k = quarantine db !! k).
Proof.
  unfold syncConflictQuarantineTx. rewrite open_for_opened. destruct (open_for db f c) as [|x l]; split.
  - split; [|done]. intros (q & Hq & Ha). simpl in Hq. rewrite lookup_alter_eq in Hq.
    destruct (quarantine db !! _); simplify_eq/=.
  - intros k Hk. simpl. by rewrite lookup_alter_ne.
  - split; [done|]. intros _. unfold conflict_block. simpl. rewrite lookup_insert_eq.
    destruct (quarantine db !! (f, c, conflict_reason)); by eexists.
  - intros k Hk. simpl. by rewrite lookup_insert_ne.
Qed.

Lemma sync_in_sync f c db :
  (forall f' c', (f', c') <> (f, c) -> conflict_block db f' c' <-> opened db f' c') ->
  in_sync (syncConflictQuarantineTx f c db).
Proof.
  intros Hs f' c'. destruct (sync_block f c db) as [Hb Ho]. destruct (sync_tables f c db) as (_ & Hc & _).
  assert (opened (syncConflictQuarantineTx f c db) f' c' <-> opened db f' c') as Hop by (unfold opened; by rewrite Hc).
  rewrite Hop. destruct (decide ((f', c') = (f, c))) as [[= -> ->]|Hne]; [done|].
  rewrite <-(Hs f' c' Hne). unfold conflict_block. by rewrite Ho by congruence.
Qed.

Definition c_taken (c : ConflictRow) : Prop :=
  c_feed c <> "" /\ c_path c <> "" /\ String.length (c_winner c) = 64%nat /\ String.length (c_loser c) = 64%nat.

(** Rows of one path are about one coordinate. *)
Definition one_coordinate (l : list ConflictRow) : Prop :=
  forall x y, x ∈ l -> y ∈ l -> c_feed x = c_feed y -> c_path x = c_path y -> c_coordinate x = c_coordinate y.

(** The import of one conflict. *)
Lemma import_conflict_step db x :
  c_taken x -> one_coordinate (publish_conflicts db ++ [x]) -> Forall (fun y => c_resolved y = None) (publish_conflicts db) ->
  in_sync db ->
  let db' := import_conflict db x in
  but_conflicts db' = but_conflicts db /\ in_sync db'
  /\ (forall k, k.2 <> conflict_reason -> quarantine db' !! k = quarantine db !! k)
  /\ (publish_conflicts db' = publish_conflicts db
      \/ publish_conflicts db' = publish_conflicts db ++ [mkConflict (c_feed x) (c_path x) (c_coordinate x) (c_winner x) (c_loser x)
            (c_winner_site x) (c_loser_site x) (c_winner_meta x) (c_loser_meta x) None])
  /\ opened db' (c_feed x) (c_coordinate x).
Proof.
  intros (Hf & Hp & Hw & Hl) Hone Hopen Hsync db'. unfold db', import_conflict.
  rewrite !bool_decide_false by done. rewrite Hw, Hl. simpl. unfold importConflictTx.
  set (row := mkConflict _ _ _ _ _ _ _ _ _ _). set (db1 := if existsb _ _ then db else _).
  assert (publish_conflicts db1 = publish_conflicts db /\ opened db (c_feed x) (c_coordinate x)
          \/ publish_conflicts db1 = publish_conflicts db ++ [row]) as Hc.
  { unfold db1. destruct (existsb _ _) eqn:E; [|by right]. left. split; [done|].
    apply existsb_exists in E as (y & Hy & _). apply list_elem_of_In in Hy. unfold path_conflicts in Hy.
    apply list_elem_of_filter in Hy as [[Hyf Hyp] Hy]. exists y. split; [done|]. split; [done|]. split.
    - apply Hone; [apply elem_of_app; by left|apply elem_of_app; right; by left|done|done].
    - rewrite Forall_forall in Hopen. by apply Hopen. }
  assert (quarantine db1 = quarantine db /\ but_conflicts db1 = but_conflicts db) as [Hq Hb]
    by (unfold db1; by destruct (existsb _ _)).
  destruct (sync_tables (c_feed x) (c_coordinate x) db1) as (H1 & H2 & H3 & H4 & _).
  destruct (sync_block (c_feed x) (c_coordinate x) db1) as [_ Hother].
  split_and!.
  - rewrite <-Hb. unfold but_conflicts. congruence.
  - apply sync_in_sync. intros f' c' Hne. unfold conflict_block. rewrite Hq. etrans; [exact (Hsync f' c')|].
    unfold opened. destruct Hc as [[-> _]| ->]; [done|]. setoid_rewrite elem_of_app. setoid_rewrite list_elem_of_singleton.
    split; [intros (y & Hy & H); exists y; split; [by left|done]|].
    intros (y & [Hy|Hy] & Hyf & Hyc & Hyr); [by exists y|]. subst y. simpl in *. by subst.
  - intros k Hk. rewrite Hother, Hq; [done|]. intros ->. by apply Hk.
  - rewrite H2. destruct Hc as [[Hc _]|Hc]; rewrite Hc; [by left|by right].
  - unfold opened. rewrite H2. destruct Hc as [[-> Ho]| ->]; [exact Ho|]. exists row. split; [|done].
    apply elem_of_app. right. by left.
Qed.
(** Every row of [db'] is a row of [db] or an unresolved copy of one of [l]. *)
Definition grown_from (db db' : DB) (l : list ConflictRow) : Prop :=
  forall y, y ∈ publish_conflicts db' -> y ∈ publish_conflicts db
    \/ c_resolved y = None /\ exists x, x ∈ l /\ c_feed y = c_feed x /\ c_path y = c_path x /\ c_coordinate y = c_coordinate x.

Lemma import_conflicts l db :
  Forall c_taken l -> one_coordinate (publish_conflicts db ++ l) -> Forall (fun y => c_resolved y = None) (publish_conflicts db) ->
  in_sync db ->
  let db' := foldl import_conflict db l in
  but_conflicts db' = but_conflicts db /\ in_sync db'
  /\ (forall k, k.2 <> conflict_reason -> quarantine db' !! k = quarantine db !! k)
  /\ grown_from db db' l /\ (forall y, y ∈ publish_conflicts db -> y ∈ publish_conflicts db')
  /\ (forall x, x ∈ l -> opened db' (c_feed x) (c_coordinate x)).
Proof.
  revert db. induction l as [|x l IH]; intros db Ht Hone Hopen Hsync; simpl.
  { split_and!; try done; [by intros y Hy; left|by intros x ?%elem_of_nil]. }
  apply Forall_cons in Ht as [Hx Ht].
  assert (one_coordinate (publish_conflicts db ++ [x])) as Hone1.
  { intros a b Ha Hb. apply Hone; rewrite elem_of_app in *; rewrite list_elem_of_singleton in *;
      [destruct Ha as [?| ->]|destruct Hb as [?| ->]]; ((by left) || (right; by left)). }
  destruct (import_conflict_step db x Hx Hone1 Hopen Hsync) as (Hb & Hs & Hq & Hc & Ho). set (db1 := import_conflict db x) in *.
  assert (forall y, y ∈ publish_conflicts db1 -> y ∈ publish_conflicts db \/ c_resolved y = None
            /\ c_feed y = c_feed x /\ c_path y = c_path x /\ c_coordinate y = c_coordinate x) as Hnew.
  { intros y Hy. destruct Hc as [Hc|Hc]; rewrite Hc in Hy; [by left|]. apply elem_of_app in Hy as [?|Hy%list_elem_of_singleton];
      [by left|right; by subst]. }
  destruct (IH db1 Ht) as (Hb' & Hs' & Hq' & Hg' & Hk' & Ho'); clear IH; [| |done|].
  { assert (forall y, y ∈ publish_conflicts db1 ++ l -> exists z, z ∈ publish_conflicts db ++ x :: l
      /\ c_feed y = c_feed z /\ c_path y = c_path z /\ c_coordinate y = c_coordinate z) as Hrep.
    { intros y [Hy|Hy]%elem_of_app; [apply Hnew in Hy as [Hy|(_ & ? & ? & ?)]|].
      - exists y. split_and!; try done. apply elem_of_app. by left.
      - exists x. split_and!; try done. apply elem_of_app. right. by left.
      - exists y. split_and!; try done. apply elem_of_app. right. by right. }
    intros a b (a' & Ha & Haf & Hap & ->)%Hrep (b' & Hb2 & Hbf & Hbp & ->)%Hrep Hf Hp. apply Hone; congruence. }
  { apply Forall_forall. intros y [Hy|(? & _)]%Hnew; [|done]. rewrite Forall_forall in Hopen. by apply Hopen. }
  assert (forall y, y ∈ publish_conflicts db -> y ∈ publish_conflicts db1) as Hk.
  { intros y Hy. destruct Hc as [-> | ->]; [done|]. apply elem_of_app. by left. }
  split_and!; [congruence|done|intros k Hkk; rewrite Hq' by done; by apply Hq| |by intros y Hy; apply Hk', Hk|].
  - intros y [Hy|(Hr & z & Hz & He)]%Hg'.
    + apply Hnew in Hy as [Hy|(Hr & He)]; [by left|right]. split; [done|]. exists x. split; [by left|done].
    + right. split; [done|]. exists z. split; [by right|done].
  - intros z [->|Hz]%elem_of_cons; [|by apply Ho']. destruct Ho as (y & Hy & He). exists y. split; [by apply Hk'|done].
Qed.

(** *** Decisions and revocations *)

Definition r_key (r : ResolutionRecord) : string * string := (rr_feed r, rr_path r).
Definition r_taken (r : ResolutionRecord) : Prop :=
  rr_feed r <> "" /\ rr_path r <> "" /\ String.length (KeepSHA (rr_decision r)) = 64%nat.

(** The tables but for the decisions. *)
Definition but_decisions (db : DB) := (hosted_manifests db, quarantine db, publish_conflicts db, tokens db).

Lemma import_resolutions peer l db :
  Forall r_taken l -> NoDup (r_key <$> l) -> (forall r, r ∈ l -> conflict_resolutions db !! r_key r = None) ->
  let db' := foldl (import_resolution peer) db l in
  but_decisions db' = but_decisions db
  /\ (forall f p r, conflict_resolutions db' !! (f, p) = Some r ->
      conflict_resolutions db !! (f, p) = Some r \/ exists x, x ∈ l /\ r_key x = (f, p) /\ r_keep r = KeepSHA (rr_decision x)).
Proof.
  revert db. induction l as [|x l IH]; intros db Ht Hnd Hnone; simpl; [split; [done|by left]|].
  apply Forall_cons in Ht as [(Hf & Hp & Hk) Ht]. apply NoDup_cons in Hnd as [Hx Hnd].
  set (db1 := import_resolution peer db x).
  assert (but_decisions db1 = but_decisions db
    /\ conflict_resolutions db1 = <[r_key x := mkResolution (rr_coordinate x) (KeepSHA (rr_decision x)) (res_size (rr_decision x))
          (res_checksums (rr_decision x)) (res_metadata (rr_decision x)) (rr_operator x) peer (res_hlc (rr_decision x))]>
        (conflict_resolutions db)) as [Hb Hr].
  { unfold db1, import_resolution, recordResolution. rewrite !bool_decide_false by done. rewrite Hk. simpl.
    specialize (Hnone x ltac:(by left)). unfold r_key in Hnone. by rewrite Hnone. }
  destruct (IH db1 Ht Hnd) as [Hb' Hr']; clear IH.
  { intros r Hin. rewrite Hr, lookup_insert_ne; [apply Hnone; by right|]. intros Heq. apply Hx. rewrite Heq. by apply list_elem_of_fmap_2. }
  split; [congruence|]. intros f p r [Hl|(y & Hy & He)]%Hr'; [|right; exists y; split; [by right|done]].
  rewrite Hr in Hl. destruct (decide (r_key x = (f, p))) as [Heq|Hne].
  - rewrite Heq, lookup_insert_eq in Hl. injection Hl as <-. right. exists x. split; [by left|done].
  - rewrite lookup_insert_ne in Hl by done. by left.
Qed.

(** The tables but for the tokens. *)
Definition but_tokens (db : DB) := (hosted_manifests db, quarantine db, publish_conflicts db, conflict_resolutions db).
Definition revoked (db : DB) (hash : string) : Prop := exists t, tokens db !! hash = Some t /\ t_revoked t = true.
Definition all_revoked (db : DB) : Prop := forall h t, tokens db !! h = Some t -> t_revoked t = true.

Lemma import_revocations l db db' :
  import_revoked l db = Ok db' -> all_revoked db ->
  but_tokens db' = but_tokens db /\ all_revoked db'
  /\ (forall h, h ∈ l -> String.length h = 64%nat -> revoked db' h) /\ (forall h, revoked db h -> revoked db' h)
  /\ (forall h, is_Some (tokens db' !! h) -> is_Some (tokens db !! h) \/ h ∈ l).
Proof.
  revert db. induction l as [|h l IH]; intros db; simpl.
  { intros [= <-] Ha. split_and!; try done; [by intros h ?%elem_of_nil|by left]. }
  destruct (String.length h =? 64)%nat eqn:El; simpl.
  - rewrite rbind_Ok. intros (db1 & Hr & Hi) Ha.
    assert (but_tokens db1 = but_tokens db /\ exists t, tokens db1 = <[h := t]> (tokens db) /\ t_revoked t = true) as (Hb & t & Ht & Hrv).
    { unfold revoke_token in Hr. repeat case_match; simplify_eq/=; (split; [done|]); by eexists. }
    apply IH in Hi as (Hb' & Ha' & Hl' & Hk' & Hf').
    2: { intros h' t'. rewrite Ht. destruct (decide (h = h')) as [<-|Hne];
           [rewrite lookup_insert_eq; congruence|rewrite lookup_insert_ne by done; apply Ha]. }
    assert (forall h', revoked db h' \/ h' = h -> revoked db1 h') as Hk.
    { intros h' Hh. unfold revoked. rewrite Ht. destruct (decide (h = h')) as [<-|Hne];
        [rewrite lookup_insert_eq; by exists t|rewrite lookup_insert_ne by done; naive_solver]. }
    split_and!; [congruence|done| | |].
    + intros h' [->|Hin]%elem_of_cons Hlen; [apply Hk', Hk; by right|by apply Hl'].
    + intros h' Hh. apply Hk', Hk. by left.
    + intros h' [Hs|Hin]%Hf'; [|right; by right]. rewrite Ht in Hs. destruct (decide (h = h')) as [<-|Hne]; [right; by left|].
      rewrite lookup_insert_ne in Hs by done. by left.
  - intros Hi Ha. apply IH in Hi as (Hb' & Ha' & Hl' & Hk' & Hf'); [|done]. split_and!; try done.
    + intros h' [->|Hin]%elem_of_cons Hlen; [by rewrite Hlen in El|by apply Hl'].
    + intros h' [Hs|Hin]%Hf'; [by left|right; by right].
Qed.

(** The name a revocation of an unknown hash is filed under; distinct hashes of
    the set at hand have distinct ones. *)
Definition tombstone (hash : string) : string := "revoked:" +:+ String.substring 0 16 hash.

Lemma import_revoked_succeeds (known : string -> Prop) l db :
  (forall h h', known h -> known h' -> tombstone h = tombstone h' -> h = h') ->
  Forall known l -> (forall h t, tokens db !! h = Some t -> known h /\ t_name t = tombstone h) ->
  exists db', import_revoked l db = Ok db'.
Proof.
  intros Hinj Hl. revert db. induction Hl as [|h l Hh Hl IH]; intros db Hdb; simpl; [by eexists|].
  destruct (negb _); [by apply IH|]. unfold revoke_token.
  destruct (tokens db !! h) as [t|] eqn:Et; simpl.
  - apply IH. intros h' t'. simpl. destruct (decide (h = h')) as [<-|Hne].
    + rewrite lookup_insert_eq. intros [= <-]. exact (Hdb h t Et).
    + rewrite lookup_insert_ne by done. apply Hdb.
  - destruct (existsb _ _) eqn:E; simpl.
    + exfalso. apply existsb_exists in E as (t & Ht & Hn%bool_decide_eq_true).
      apply list_elem_of_In, list_elem_of_fmap in Ht as ([h' t'] & -> & Ht%elem_of_map_to_list). simpl in *.
      destruct (Hdb h' t' Ht) as [Hk Hn']. rewrite Hn' in Hn. apply Hinj in Hn; [|done..]. congruence.
    + apply IH. intros h' t'. simpl. destruct (decide (h = h')) as [<-|Hne].
      * rewrite lookup_insert_eq. by intros [= <-].
      * rewrite lookup_insert_ne by done. apply Hdb.
Qed.
(** ** Importing manifests *)

Definition p_key (p : ManifestPut) : string * string := (mp_feed p, mp_path p).

(** What the import of a manifest leaves alone. *)
Definition kept (db db' : DB) : Prop :=
  conflict_resolutions db' = conflict_resolutions db /\ tokens db' = tokens db
  /\ publish_conflicts db' = publish_conflicts db
  /\ (forall k, k.2 <> conflict_reason -> quarantine db' !! k = quarantine db !! k)
  /\ (in_sync db -> in_sync db').

#[export] Instance kept_po : PreOrder kept.
Proof.
  split; [intros db; by split_and!|]. intros a b c (H1 & H2 & H3 & H4 & H5) (K1 & K2 & K3 & K4 & K5).
  split_and!; [congruence..| |tauto]. intros k Hk. rewrite K4 by done. by apply H4.
Qed.

(** A decided path: the manifest has the digest that was kept, and nothing is
    open there. *)
Definition agrees (db : DB) (p : ManifestPut) : Prop :=
  forall r, conflict_resolutions db !! p_key p = Some r -> r_keep r = mp_sha256 p
    /\ forall c, c ∈ publish_conflicts db -> c_feed c = mp_feed p -> c_path c = mp_path p -> c_resolved c <> None.

Lemma close_none feed path sha (l : list ConflictRow) :
  (forall c, c ∈ l -> c_feed c = feed -> c_path c = path -> c_resolved c <> None) -> close_conflict feed path sha <$> l = l.
Proof.
  induction l as [|c l IH]; intros Hn; [done|]. rewrite fmap_cons, IH by (intros; apply Hn; by try right).
  f_equal. unfold close_conflict. case_decide as Hd; [|done]. destruct Hd as (Hf & Hp & Hr).
  exfalso. by apply (Hn c); [left|..].
Qed.

Lemma put_step a e p t t' :
  mergeManifestPut a e p t = Ok t' -> hosted_manifests (tx_db t) !! p_key p = None -> agrees (tx_db t) p ->
  h_sha256 <$> hosted_manifests (tx_db t') !! p_key p = Some (mp_sha256 p)
  /\ (forall k, k <> p_key p -> hosted_manifests (tx_db t') !! k = hosted_manifests (tx_db t) !! k)
  /\ kept (tx_db t) (tx_db t').
Proof.
  unfold mergeManifestPut, storedResolution, hostedState, p_key. intros Hm Hnone Hag.
  destruct (conflict_resolutions (tx_db t) !! (mp_feed p, mp_path p)) as [r|] eqn:Er; simpl in Hm.
  - injection Hm as <-. destruct (Hag r Er) as [Hk Hno]. unfold applyResolvedPut. simpl.
    rewrite decide_False by (intros Hd; by apply Hd). unfold applyResolutionTx. rewrite Hnone. cbn [KeepSHA].
    set (db1 := set_hosted _ _). set (db2 := ResolveConflict _ _ _ db1).
    assert (publish_conflicts db2 = publish_conflicts (tx_db t)) as Hc by (apply (close_none _ _ _ _ Hno)).
    destruct (sync_tables (mp_feed p) (mp_coord p) db2) as (H1 & H2 & H3 & H4 & _).
    destruct (sync_block (mp_feed p) (mp_coord p) db2) as [_ Hq].
    split_and!.
    + rewrite H1. simpl. rewrite lookup_insert_eq. simpl. by rewrite Hk.
    + intros k Hne. rewrite H1. simpl. by rewrite lookup_insert_ne.
    + split_and!; [by rewrite H3|by rewrite H4|by rewrite H2| |].
      * intros k Hne. rewrite Hq; [done|]. intros ->. by apply Hne.
      * intros Hs. apply sync_in_sync. intros f' c' _. etrans; [exact (Hs f' c')|]. unfold opened. by rewrite Hc.
  - rewrite Hnone in Hm. injection Hm as <-. unfold insertHosted. rewrite Hnone. simpl. split_and!.
    + by rewrite lookup_insert_eq.
    + intros k Hne. by rewrite lookup_insert_ne.
    + by split_and!.
Qed.

Lemma import_entry a peer sn p t t' :
  int64 (mp_size p) -> importSnapshotEntry a peer (snapshot_entry sn p) t = Ok t' ->
  mergeManifestPut (withoutEagerFeeds a) (snapshot_entry sn p) p t = Ok t'.
Proof.
  intros Hi. unfold importSnapshotEntry, dispatch. cbn [Kind snapshot_entry]. rewrite decide_True by done.
  unfold applyManifestPut. cbn [Payload snapshot_entry]. rewrite decode_encode_manifest_put by done.
  destruct (_ || _); [done|]. cbn [a_eager withoutEagerFeeds andb]. by destruct (mergeManifestPut _ _ _ _) as [|[]].
Qed.

Lemma import_manifests_spec a peer sn ps s touched s' touched' :
  import_manifests a peer sn ps s touched = (s', touched', None) ->
  Forall (fun p => int64 (mp_size p)) ps -> NoDup (p_key <$> ps) ->
  (forall p, p ∈ ps -> hosted_manifests (s_db s) !! p_key p = None) -> (forall p, p ∈ ps -> agrees (s_db s) p) ->
  (forall p, p ∈ ps -> h_sha256 <$> hosted_manifests (s_db s') !! p_key p = Some (mp_sha256 p))
  /\ (forall k, (forall p, p ∈ ps -> p_key p <> k) -> hosted_manifests (s_db s') !! k = hosted_manifests (s_db s) !! k)
  /\ kept (s_db s) (s_db s').
Proof.
  revert s touched. induction ps as [|p ps IH]; intros s touched; simpl.
  { intros [= <- <-] _ _ _ _. split_and!; [by intros p ?%elem_of_nil|done|reflexivity]. }
  destruct (importSnapshotEntry _ _ _ _) as [t|] eqn:E; [|done]. intros Hi Hs Hnd Hnone Hag.
  apply Forall_cons in Hs as [Hp Hs]. apply NoDup_cons in Hnd as [Hin Hnd].
  apply import_entry in E; [|done]. apply put_step in E as (Hsha & Hother & Hkept); [|apply Hnone; by left|apply Hag; by left].
  simpl in *. assert (forall p', p' ∈ ps -> p_key p' <> p_key p) as Hne
    by (intros p' Hp' Heq; apply Hin; rewrite <-Heq; by apply list_elem_of_fmap_2).
  apply IH in Hi as (Hall & Hrest & Hk); [|done|done| |]; simpl in *.
  - split_and!; [| |by etrans].
    + intros p' [->|Hp']%elem_of_cons; [|by apply Hall]. by rewrite Hrest.
    + intros k Hk'. rewrite Hrest by (intros p' Hp'; apply Hk'; by right). apply Hother.
      intros ->. by eapply Hk'; [left|].
  - intros p' Hp'. rewrite Hother by (by apply Hne). apply Hnone. by right.
  - intros p' Hp' r. destruct Hkept as (-> & _ & -> & _). apply Hag. by right.
Qed.
Definition p_valid (p : ManifestPut) : Prop :=
  mp_feed p <> "" /\ mp_path p <> "" /\ String.length (mp_sha256 p) = 64%nat /\ int64 (mp_size p).

Lemma import_manifests_succeed a peer sn ps s touched :
  Forall p_valid ps -> NoDup (p_key <$> ps) ->
  (forall p, p ∈ ps -> hosted_manifests (s_db s) !! p_key p = None) -> (forall p, p ∈ ps -> agrees (s_db s) p) ->
  exists s' touched', import_manifests a peer sn ps s touched = (s', touched', None).
Proof.
  revert s touched. induction ps as [|p ps IH]; intros s touched Hv Hnd Hnone Hag; simpl; [by eexists _, _|].
  apply Forall_cons in Hv as [(Hf & Hp & Hsha & Hsz) Hv]. apply NoDup_cons in Hnd as [Hin Hnd].
  set (t := mkTxn _ _ _ _).
  assert (exists t', importSnapshotEntry a peer (snapshot_entry sn p) t = Ok t') as [t' Et].
  { unfold importSnapshotEntry, dispatch. cbn [Kind snapshot_entry]. rewrite decide_True by done. unfold applyManifestPut.
    cbn [Payload snapshot_entry]. rewrite decode_encode_manifest_put by done. rewrite !bool_decide_false by done. rewrite Hsha.
    cbn [orb negb Nat.eqb a_eager withoutEagerFeeds andb]. unfold mergeManifestPut, hostedState.
    destruct (storedResolution _ _ _); [by eexists|]. specialize (Hnone p ltac:(by left)). unfold p_key in Hnone.
    simpl. rewrite Hnone. by eexists. }
  rewrite Et. apply import_entry, put_step in Et as (_ & Hother & Hkept); [|apply Hnone; by left|apply Hag; by left|done].
  apply IH; [done|done| |].
  - intros p' Hp'. simpl. rewrite Hother; [apply Hnone; by right|]. intros Heq. apply Hin. rewrite <-Heq. by apply list_elem_of_fmap_2.
  - intros p' Hp' r. simpl. destruct Hkept as (-> & _ & -> & _). apply Hag. by right.
Qed.
(** ** Export and import *)

Lemma all_hosted db kv : kv ∈ ListHosted "" "" db <-> hosted_manifests db !! kv.1 = Some kv.2.
Proof. rewrite elem_of_ListHosted. split; [by intros [? _]|]. intros H. split_and!; [done|by left|]. apply like_any. Qed.

Lemma p_key_put kv : p_key (put_of kv) = kv.1.
Proof. by destruct kv as [[]]. Qed.
Lemma q_key_record kv : q_key (quarantine_record kv) = kv.1.
Proof. by destruct kv as [[[]]]. Qed.
Lemma r_key_record kv : r_key (resolution_record kv) = kv.1.
Proof. by destruct kv as [[]]. Qed.

Lemma hosted_keys db : NoDup (p_key <$> (put_of <$> ListHosted "" "" db)).
Proof.
  rewrite <-list_fmap_compose. rewrite (list_fmap_ext (p_key ∘ put_of) fst _ (fun _ kv _ => p_key_put kv)).
  unfold ListHosted. rewrite merge_sort_Permutation. eapply sublist_NoDup; [apply (NoDup_fst_map_to_list (hosted_manifests db))|].
  apply fmap_sublist, sublist_filter.
Qed.

(** What the tables of a site hold by the tests every write goes through. *)
Record exportable (db : DB) : Prop := {
  ex_rows : forall f p r, hosted_manifests db !! (f, p) = Some r ->
    f <> "" /\ p <> "" /\ String.length (h_sha256 r) = 64%nat /\ int64 (h_size r);
  ex_blocks : forall f c reason q, quarantine db !! (f, c, reason) = Some q -> f <> "" /\ c <> "" /\ reason <> "";
  ex_conflicts : Forall c_taken (open_conflicts db) /\ one_coordinate (open_conflicts db);
  ex_decisions : forall f p r, conflict_resolutions db !! (f, p) = Some r -> f <> "" /\ p <> "" /\ String.length (r_keep r) = 64%nat;
  ex_settled : settled db;
  ex_hashes : forall h, h ∈ revoked_hashes db -> String.length h = 64%nat;
  ex_tombstones : forall h h', h ∈ revoked_hashes db -> h' ∈ revoked_hashes db -> tombstone h = tombstone h' -> h = h';
}.

(** Tables nothing was written to yet. *)
Definition fresh (db : DB) : Prop :=
  hosted_manifests db = ∅ /\ quarantine db = ∅ /\ publish_conflicts db = [] /\ conflict_resolutions db = ∅ /\ tokens db = ∅.

Lemma revoked_hashes_revoked db h : h ∈ revoked_hashes db <-> revoked db h.
Proof.
  unfold revoked_hashes, revoked. rewrite elem_of_dom. unfold is_Some. setoid_rewrite map_lookup_filter_Some. naive_solver.
Qed.

Section bootstrapped.
Context (site uuid : string) (pdb : DB) (Hex : exportable pdb).
Notation sn := (handleSnapshot site uuid pdb).

(** What matters of a block. *)
Notation verdict := (fmap (fun q => (q_active q, q_hlc q))).

Lemma blocks_imported db :
  quarantine db = ∅ ->
  let db' := foldl import_quarantine db (sn_quarantine sn) in
  but_blocks db' = but_blocks db
  /\ (forall k, k.2 <> conflict_reason -> verdict (quarantine db' !! k) = verdict (quarantine pdb !! k))
  /\ (forall k, k.2 = conflict_reason -> quarantine db' !! k = None).
Proof using Hex.
  intros Hq. assert (forall q, q ∈ sn_quarantine sn <-> exists k r, quarantine pdb !! k = Some r /\ q = quarantine_record (k, r)) as Hin.
  { intros q. simpl. unfold QuarantineStateTx. rewrite list_elem_of_fmap. setoid_rewrite by_key_perm. split.
    - intros ([k r] & -> & Hk%elem_of_map_to_list). by exists k, r.
    - intros (k & r & Hk & ->). exists (k, r). split; [done|]. by apply elem_of_map_to_list. }
  destruct (import_quarantines (sn_quarantine sn) db) as (Hb & Htaken & Hout).
  - simpl. rewrite <-list_fmap_compose, (list_fmap_ext (q_key ∘ quarantine_record) fst _ (fun _ kv _ => q_key_record kv)).
    unfold QuarantineStateTx, ConflictResolutionsTx. rewrite by_key_perm. apply NoDup_fst_map_to_list.
  - intros q _. by rewrite Hq.
  - split; [done|]. split.
    + intros [[f c] reason] Hne. simpl in Hne. destruct (quarantine pdb !! (f, c, reason)) as [r|] eqn:Er.
      * destruct (ex_blocks _ Hex _ _ _ _ Er) as (? & ? & ?).
        destruct (Htaken (quarantine_record (f, c, reason, r))) as [d Hd]; [apply Hin; by exists (f, c, reason), r|done|].
        rewrite q_key_record in Hd. cbn [fst] in Hd. by rewrite Hd.
      * rewrite Hout, Hq; [done|]. intros q (k & r & Hk & ->)%Hin _ Heq. rewrite q_key_record in Heq. simpl in Heq. congruence.
    + intros [[f c] reason] Heq. simpl in Heq. rewrite Hout, Hq; [done|].
      intros q (k & r & Hk & ->)%Hin Ht Hkey. rewrite q_key_record in Hkey. simpl in Hkey. subst k.
      destruct Ht as (_ & _ & _ & Hc). by apply Hc.
Qed.

Lemma conflicts_imported db :
  publish_conflicts db = [] -> (forall k, k.2 = conflict_reason -> quarantine db !! k = None) ->
  let db' := foldl import_conflict db (sn_conflicts sn) in
  but_conflicts db' = but_conflicts db /\ in_sync db'
  /\ (forall k, k.2 <> conflict_reason -> quarantine db' !! k = quarantine db !! k)
  /\ (forall f c, opened db' f c <-> opened pdb f c)
  /\ (forall y, y ∈ publish_conflicts db' -> exists x, x ∈ open_conflicts pdb /\ c_feed y = c_feed x /\ c_path y = c_path x).
Proof using Hex.
  intros Hc Hq. destruct (ex_conflicts _ Hex) as [Ht Hone].
  assert (forall x, x ∈ sn_conflicts sn <-> x ∈ open_conflicts pdb) as Hin by (intros x; simpl; unfold OpenConflictsTx; by rewrite by_key_perm).
  assert (forall x, x ∈ open_conflicts pdb <-> c_resolved x = None /\ x ∈ publish_conflicts pdb) as Hop
    by (intros x; unfold open_conflicts; by rewrite list_elem_of_filter).
  destruct (import_conflicts (sn_conflicts sn) db) as (Hb & Hs & Hk & Hg & _ & Ho).
  - apply Forall_forall. intros x Hx%Hin. rewrite Forall_forall in Ht. by apply Ht.
  - rewrite Hc. intros x y Hx%Hin Hy%Hin. by apply Hone.
  - by rewrite Hc.
  - intros f c. unfold conflict_block, opened. rewrite (Hq (f, c, conflict_reason)) by done. rewrite Hc.
    split; [by intros (? & ? & _)|by intros (? & ?%elem_of_nil & _)].
  - split_and!; try done.
    + intros f c. split.
      * intros (y & Hy & Hyf & Hyc & Hyr). apply Hg in Hy as [Hy|(_ & x & Hx%Hin%Hop & Hf' & Hp' & Hc')].
        { rewrite Hc in Hy. by apply elem_of_nil in Hy. }
        exists x. split_and!; [by apply Hx|congruence|congruence|by apply Hx].
      * intros (x & Hx & <- & <- & Hr). apply Ho. by apply Hin, Hop.
    + intros y [Hy|(_ & x & Hx%Hin & Hf & Hp & _)]%Hg; [rewrite Hc in Hy; by apply elem_of_nil in Hy|]. by exists x.
Qed.

Lemma decisions_imported peer db :
  conflict_resolutions db = ∅ ->
  let db' := foldl (import_resolution peer) db (sn_resolutions sn) in
  but_decisions db' = but_decisions db
  /\ (forall k r, conflict_resolutions db' !! k = Some r -> exists r', conflict_resolutions pdb !! k = Some r' /\ r_keep r = r_keep r').
Proof using Hex.
  intros Hr. assert (forall x, x ∈ sn_resolutions sn <-> exists k r, conflict_resolutions pdb !! k = Some r /\ x = resolution_record (k, r)) as Hin.
  { intros x. simpl. unfold ConflictResolutionsTx. rewrite list_elem_of_fmap. setoid_rewrite by_key_perm. split.
    - intros ([k r] & -> & Hk%elem_of_map_to_list). by exists k, r.
    - intros (k & r & Hk & ->). exists (k, r). split; [done|]. by apply elem_of_map_to_list. }
  destruct (import_resolutions peer (sn_resolutions sn) db) as [Hb Hd].
  - apply Forall_forall. intros x ([f p] & r & Hk & ->)%Hin. exact (ex_decisions _ Hex f p r Hk).
  - simpl. rewrite <-list_fmap_compose, (list_fmap_ext (r_key ∘ resolution_record) fst _ (fun _ kv _ => r_key_record kv)).
    unfold QuarantineStateTx, ConflictResolutionsTx. rewrite by_key_perm. apply NoDup_fst_map_to_list.
  - intros x _. by rewrite Hr.
  - split; [done|]. intros [f p] r [Hl|(x & (k & r' & Hk & ->)%Hin & Hkey & Hkeep)]%Hd; [by rewrite Hr in Hl|].
    rewrite r_key_record in Hkey. simpl in Hkey. subst k. exists r'. by destruct r'.
Qed.

(** The restrictions of a snapshot, in fresh tables. *)
Lemma restrictions_imported db :
  fresh db ->
  exists db', applySnapshotRestrictions site sn db = Ok db' /\ hosted_manifests db' = ∅ /\ in_sync db'
  /\ (forall k, k.2 <> conflict_reason -> verdict (quarantine db' !! k) = verdict (quarantine pdb !! k))
  /\ (forall f c, opened db' f c <-> opened pdb f c)
  /\ (forall h, revoked db' h <-> revoked pdb h)
  /\ (forall p, p ∈ sn_manifests sn -> agrees db' p).
Proof using Hex.
  intros (Hh & Hq & Hc & Hr & Ht). unfold applySnapshotRestrictions.
  destruct (blocks_imported db Hq) as (Hb1 & Hq1 & Hn1). set (db1 := foldl import_quarantine db _) in *.
  injection Hb1 as Hh1 Hc1 Hr1 Ht1.
  destruct (conflicts_imported db1) as (Hb2 & Hs2 & Hq2 & Ho2 & Hg2); [congruence|done|]. set (db2 := foldl import_conflict db1 _) in *.
  injection Hb2 as Hh2 Hr2 Ht2.
  destruct (decisions_imported site db2) as (Hb3 & Hd3); [congruence|]. set (db3 := foldl (import_resolution site) db2 _) in *.
  injection Hb3 as Hh3 Hq3 Hc3 Ht3.
  assert (tokens db3 = ∅) as Ht3' by congruence.
  assert (forall h, h ∈ sn_revoked sn <-> revoked pdb h) as Hrv
    by (intros h; rewrite <-revoked_hashes_revoked; simpl; unfold RevokedTokenHashesTx; by rewrite by_key_perm, elem_of_elements).
  destruct (import_revoked_succeeds (revoked pdb) (sn_revoked sn) db3) as [db4 H4].
  { intros h h' H1%revoked_hashes_revoked H2%revoked_hashes_revoked. by apply (ex_tombstones _ Hex). }
  { apply Forall_forall. intros h. apply Hrv. }
  { intros h t. by rewrite Ht3'. }
  exists db4. split; [done|]. apply import_revocations in H4 as (Hb4 & _ & Hin4 & _ & Hfrom4); [|intros h t; by rewrite Ht3'].
  injection Hb4 as Hh4 Hq4 Hc4 Hr4. assert (in_sync db4 /\ forall f c, opened db4 f c <-> opened pdb f c) as [Hs4 Ho4].
  { unfold in_sync, conflict_block, opened in *. rewrite Hq4, Hc4, Hq3, Hc3. done. }
  split_and!; [congruence|done| |done| |].
  - intros k Hk. rewrite Hq4, Hq3, Hq2 by done. by apply Hq1.
  - intros h. split.
    + intros (t & Hl & _). destruct (Hfrom4 h) as [Hs|Hin]; [by eexists|rewrite Ht3' in Hs; by apply is_Some_None in Hs|]. by apply Hrv.
    + intros Hh'. apply Hin4; [by apply Hrv|]. apply (ex_hashes _ Hex). by apply revoked_hashes_revoked.
  - intros p Hp r Hl. rewrite Hr4 in Hl. apply Hd3 in Hl as (r' & Hl & ->).
    simpl in Hp. apply list_elem_of_fmap in Hp as ([[f q] row] & -> & Hrow%all_hosted). simpl in *.
    destruct (ex_settled _ Hex f q r' Hl) as [Hset Hno]. rewrite Hrow in Hset. injection Hset as Hset. split; [done|].
    intros y Hy Hyf Hyp. rewrite Hc4, Hc3 in Hy. apply Hg2 in Hy as (x & Hx & Hxf & Hxp). unfold open_conflicts in Hx.
    apply list_elem_of_filter in Hx as [Hxr Hx]. exfalso. apply (Hno x); congruence.
Qed.

Context (a : Env) (c : PeerAPI).
Hypothesis (Hname : pc_name c = site) (Hsnap : pc_snapshot c = Ok sn).

(** C6. A fresh site that bootstraps from another site's snapshot succeeds and
    then agrees with it: every path serves the same digest, every block stands
    or is lifted with the same stamp, exactly the coordinates with an open
    conflict are blocked for one, exactly the revoked tokens are refused, and
    the cursor stands where the snapshot was taken. *)
Theorem bootstrap_reproduces s touched :
  fresh (s_db s) ->
  exists s' touched', bootstrap a c s touched = (s', touched', None)
  /\ (forall k, h_sha256 <$> hosted_manifests (s_db s') !! k = h_sha256 <$> hosted_manifests pdb !! k)
  /\ (forall k, k.2 <> conflict_reason -> verdict (quarantine (s_db s') !! k) = verdict (quarantine pdb !! k))
  /\ (forall f co, conflict_block (s_db s') f co <-> opened pdb f co)
  /\ (forall h, revoked (s_db s') h <-> revoked pdb h)
  /\ (site ∈ KnownOrigins pdb -> AppliedSeq (GetCursor site site (s_db s')) = (JournalHead site pdb).1).
Proof using Hex Hname Hsnap.
  intros Hf. unfold bootstrap. rewrite Hsnap, Hname. rewrite decide_False by (simpl; intros Hne; by apply Hne).
  destruct (restrictions_imported (s_db s) Hf) as (db & -> & Hh & Hs & Hq & Ho & Hr & Hag).
  assert (Forall p_valid (sn_manifests sn)) as Hv.
  { apply Forall_forall. intros p Hp. simpl in Hp. apply list_elem_of_fmap in Hp as ([[f q] row] & -> & Hrow%all_hosted).
    exact (ex_rows _ Hex f q row Hrow). }
  pose proof (hosted_keys pdb : NoDup (p_key <$> sn_manifests sn)) as Hnd.
  assert (forall p, p ∈ sn_manifests sn -> hosted_manifests db !! p_key p = None) as Hnone by (intros p _; by rewrite Hh).
  destruct (import_manifests_succeed a site sn (sn_manifests sn) (with_tables s db) touched Hv Hnd Hnone Hag) as (s1 & touched1 & Hi).
  rewrite Hi. apply import_manifests_spec in Hi as (Hall & Hrest & Hkept); [|eapply Forall_impl; [exact Hv|by intros p (_ & _ & _ & ?)]|done..].
  simpl in Hkept. destruct Hkept as (_ & Ht1 & Hc1 & Hq1 & Hs1). specialize (Hs1 Hs).
  assert (forall k, h_sha256 <$> hosted_manifests (s_db s1) !! k = h_sha256 <$> hosted_manifests pdb !! k) as Hsame.
  { intros k. destruct (hosted_manifests pdb !! k) as [row|] eqn:Er.
    - assert (put_of (k, row) ∈ sn_manifests sn) as Hin by (apply list_elem_of_fmap_2, all_hosted; exact Er).
      apply Hall in Hin. rewrite p_key_put in Hin. cbn [fst] in Hin. rewrite Hin. by destruct k.
    - rewrite Hrest. { simpl. by rewrite Hh. }
      intros p Hp. apply list_elem_of_fmap in Hp as (kv & -> & Hrow%all_hosted). rewrite p_key_put. intros <-. congruence. }
  set (s2 := with_tables s1 (advanceClockPastSnapshot sn (s_db s1))).
  assert (but_blocks (s_db s2) = but_blocks (s_db s1) /\ quarantine (s_db s2) = quarantine (s_db s1)) as [Hb2 Hq2]
    by (unfold s2, advanceClockPastSnapshot; simpl; by case_match).
  set (s3 := match sn_watermarks sn !! sn_site sn with Some _ => _ | None => _ end).
  assert (but_blocks (s_db s3) = but_blocks (s_db s2) /\ quarantine (s_db s3) = quarantine (s_db s2)) as [Hb3 Hq3]
    by (unfold s3; by case_match).
  rewrite Hb2 in Hb3. injection Hb3 as Hh3 Hc3 _ Ht3. rewrite Hq2 in Hq3. exists s3, touched1. split; [done|].
  rewrite Hh3, Hq3. split_and!; [done|intros k Hk; rewrite Hq1 by done; by apply Hq| | |].
  - intros f co. rewrite <-(Ho f co). unfold conflict_block. rewrite Hq3. etrans; [exact (Hs1 f co)|]. unfold opened. by rewrite Hc1.
  - intros h. rewrite <-(Hr h). unfold revoked. by rewrite Ht3, Ht1.
  - intros Hin. assert (sn_watermarks sn !! sn_site sn = Some (JournalHead site pdb).1) as Hw.
    { simpl. apply lookup_set_to_map; [by intros ???? [= <-]|]. by exists site. }
    unfold s3. rewrite Hw. unfold setCursor, SetCursorTx, GetCursor. simpl. rewrite lookup_insert_eq. by case_match.
Qed.
End bootstrapped.

(** ** A site with some history *)

Module BootstrapDemo.
Definition d1 : string := "e3b0c44298fc1c149afbf4c8996fb92427ae41e4649b934ca495991b7852b855".
Definition d2 : string := "9f86d081884c7d659a2feaa0c55ad015a3bf4f1b2b0b822cd15d6c15b0f00a08".
Definition row (coord sha : string) : HostedRow := mkHosted coord sha 3 ∅ ∅ false "local" "turin" "ci".
Definition conflict : ConflictRow :=
  mkConflict "f" "lib/1" "lib@1" d1 d2 "turin" "milan" (mkSide d1 3 ∅ ∅) (mkSide d2 4 ∅ ∅) None.
Definition decided : ResolutionRow := mkResolution "lib@2" d2 4 ∅ ∅ "root" "turin" (mkHLC 5 0).
Definition tables : DB :=
  let db := (AppendJournal 1 "turin" KindTokenRevoke (encode_token_revoke (mkTokenRevoke d1)) empty_db).1 in
  let db := set_hosted db (<[("f", "lib/1") := row "lib@1" d1]> {[("f", "lib/2") := row "lib@2" d2]}) in
  let db := set_quarantine db {[("f", "lib@3", "malware") := mkQuarantine "" true (mkHLC 4 0)]} in
  let db := set_conflicts db [conflict] in
  let db := set_resolutions db {[("f", "lib/2") := decided]} in
  set_tokens db {[d1 := mkToken "ci" true]}.

Lemma tables_exportable : exportable tables.
Proof.
  assert (forall h, h ∈ revoked_hashes tables -> h = d1) as Hh.
  { intros h (t & Ht & _)%revoked_hashes_revoked. simpl in Ht. by apply lookup_singleton_Some in Ht as [<- _]. }
  split.
  - intros f p r H. simpl in H. apply lookup_insert_Some in H as [[[= <- <-] <-]|[_ [[= <- <-] <-]%lookup_singleton_Some]];
      (split_and!; [done|done|done|by vm_compute]).
  - intros f c reason q H. simpl in H. by apply lookup_singleton_Some in H as [[= <- <- <-] _].
  - assert (open_conflicts tables = [conflict]) as -> by reflexivity. split; [by repeat constructor|].
    by intros x y ->%list_elem_of_singleton ->%list_elem_of_singleton.
  - intros f p r H. simpl in H. by apply lookup_singleton_Some in H as [[= <- <-] <-].
  - intros f p r H. simpl in H. apply lookup_singleton_Some in H as [[= <- <-] <-]. split; [done|].
    by intros c ->%list_elem_of_singleton.
  - by intros h ->%Hh.
  - by intros h h' ->%Hh ->%Hh.
Qed.

Definition peer : PeerAPI := mkPeer "turin" (Err "") (fun _ _ _ => Gone) (Ok (handleSnapshot "turin" "u1" tables)).
Definition here : Env := mkEnv "milan" 9 0 (fun _ => false) false (fun _ _ _ => false) None false.
End BootstrapDemo.
Import BootstrapDemo.

Lemma bootstrap_reproduces_witness :
  exists s' touched', bootstrap here peer (mkSite empty_db ∅ ∅) ∅ = (s', touched', None)
  /\ h_sha256 <$> hosted_manifests (s_db s') !! ("f", "lib/2") = Some d2
  /\ conflict_block (s_db s') "f" "lib@1" /\ revoked (s_db s') d1.
Proof.
  destruct (bootstrap_reproduces "turin" "u1" tables tables_exportable here peer eq_refl eq_refl (mkSite empty_db ∅ ∅) ∅)
    as (s' & touched' & Hb & Hs & _ & Hc & Hr & _); [by repeat split|].
  exists s', touched'. split; [exact Hb|]. clear Hb. split; [rewrite Hs; by vm_compute|]. split.
  - apply Hc. exists conflict. assert (publish_conflicts tables = [conflict]) as -> by (by vm_compute).
    split; [apply list_elem_of_here|by vm_compute].
  - apply Hr. exists (mkToken "ci" true). by vm_compute.
Defined.
End Bootstrap.
